(* ===== verification/_CoqProject ===== *)
-Q . S2P
Prelude.v
Utf8.v
EditBase.v
Ot.v
Anchor.v
GapBuffer.v
Memory.v
Text.v
History.v
Buffer.v
Cursor.v
BufferSpec.v
BufferTxn.v
BufferUndo.v
BufferOps.v
BufferClaims.v
Str.v
BTree.v
BusWire.v
BusAddress.v
TrustCaps.v
TrustRecords.v
TrustSubscriber.v
TrustServer.v
Json.v
Canonical.v
Envelope.v
IpAddr.v
Routing.v
Admission.v
Inventory.v
Authority.v
DialogSchema.v
RateLimit.v
Dialog.v
DialogInv.v
DialogRequeue.v
DialogOps.v
DialogClaims.v
DialogLog.v
Notify.v
MirrorTypes.v
Mirror.v
MirrorOt.v
MirrorInv.v
MirrorFold.v
MirrorSafe.v
MirrorRun.v
MirrorLocal.v
MirrorKeep.v
MirrorServer.v
MirrorClaims.v
RecoveryFs.v
Recovery.v
RecoveryLoad.v
RecoveryActor.v
RecoveryWp.v
RecoveryDisk.v
RecoveryReplay.v
RecoveryInv.v
RecoveryApart.v
RecoveryOwn.v
RecoveryRun.v
RecoverySync.v
RecoveryRestore.v
RecoveryJson.v
RecoveryClaims.v
RecoveryHooks.v
