(* ===== verification/Prelude.v ===== *)
(** * Cosmix: the editor and its crash recovery, the bus format, the mesh trust plane and the interaction broker

    Cosmix is a set of Rust daemons that talk over a local message bus and, between
    hosts, over a mesh whose membership is a signed document.  This library models
    the code that decides what those daemons do, as executable definitions, and
    proves what makes it correct.  Paths below are relative to [src/src/crates/].

    ** The parts and the files that model them

    The text engine of the editor ([cosmix-edit-core/src/]).  A client edits a
    buffer with transactions of ranges, possibly against an old revision; the buffer
    rebases them, applies them to a gap buffer with a line index, logs them and
    keeps undo lanes, anchors and selections.
    - [EditBase.v]: origins, positions, limits, error reasons ([origin.rs],
      [pos.rs], [limits.rs], [error.rs]);
    - [Ot.v]: range transformation, canonical order, overlap, sequences and
      inverses of transactions ([ot.rs]);
    - [Anchor.v]: anchors and selections ([anchor.rs]);
    - [GapBuffer.v]: the gap buffer ([vendor/msedit/gap_buffer.rs]) against a byte
      vector; [Memory.v]: the memory a text may ask for, and that the gap buffer gets it;
      [Text.v]: the text with its line index ([text.rs], [lines_fwd.rs]);
    - [History.v]: the operation log and undo lanes ([history.rs]);
    - [Buffer.v]: every operation of [buffer.rs]; [Cursor.v], [BufferSpec.v],
      [BufferTxn.v], [BufferUndo.v], [BufferOps.v]: its lemmas; [BufferClaims.v]:
      its theorems.  [TextStore] is the interface between buffer and text.

    The editor client's mirror ([cosmix-edit-client/src/mirror.rs], [types.rs], with the
    wire types of [cosmix-edit-core/src/wire.rs]).  A mirror shows local edits at once,
    sends them one at a time, folds the server's events through the ones pending, and
    recovers from lost replies and events by history or by a snapshot.
    - [MirrorTypes.v]: the wire types and the mirror's data; [Mirror.v]: every method, in a
      state monad with panics, returning the [Step] of the code;
    - [MirrorOt.v]: transforming and inverting chains of operations; [MirrorInv.v]: the
      specification of the server, the judgement [wp] and the invariant; [MirrorFold.v],
      [MirrorSafe.v], [MirrorRun.v], [MirrorLocal.v], [MirrorKeep.v]: each handler keeps it;
      [MirrorServer.v]: [Buffer.v] is such a server; [MirrorClaims.v]: runs and the theorems.

    The editor daemon's recovery files ([cosmix-editd/src/recovery.rs] and the recovery hooks of
    [actor.rs]).  The actor of a buffer sends a writer, through one queue, switches (a snapshot that
    starts a generation of files), appended records, discards and flushes; at the next start the
    restore reads the files back.
    - [RecoveryFs.v]: files and a directory that lose what was not synced; [Recovery.v]: the writer;
      [RecoveryLoad.v]: loading, replay, quarantine and restore; [RecoveryActor.v]: the hooks, the
      lease and the byte budgets;
    - [RecoveryWp.v]: the judgement for steps that may fail or be the last; [RecoveryDisk.v]: the
      snapshot and the meta, and what they promise; [RecoveryReplay.v]: the history of a buffer and
      the replay of a torn log; [RecoveryInv.v], [RecoveryApart.v], [RecoveryOwn.v],
      [RecoveryRun.v], [RecoverySync.v]: the invariant and every message; [RecoveryRestore.v]: the
      restore; [RecoveryJson.v]: a concrete environment; [RecoveryClaims.v]: streams of messages and
      the theorems; [RecoveryHooks.v]: runs of an actor, and the actor with the writer.

    The bus ([cosmix-lib-bus/src/bus.rs]).  Messages are header lines and a body in a
    fenced text; addresses name services on nodes and meshes.
    - [BusWire.v]: messages, serialisation, the lenient, strict and optional parsers,
      validation; [BusAddress.v]: labels, addresses and targets.

    The mesh trust plane ([cosmix-lib-mesh-trust/src/] and its users).  Membership is
    an inventory signed by a genesis key; noded adopts it under a rollback floor,
    wgd reads the same files, the broker admits sessions by credentials in it, and
    cross-mesh calls are signed envelopes resolved to capabilities.
    - [Canonical.v]: the canonical JSON every signature covers, the strict reader
      ([canonical.rs]); [Envelope.v]: cross-mesh envelopes ([envelope.rs]);
    - [Inventory.v]: the signed inventory and its acceptance ([inventory.rs]);
    - [IpAddr.v]: the standard library's address parser; [Routing.v]: subnets and the
      routing view ([routing.rs]);
    - [Authority.v]: noded's authority plane ([cosmix-noded/src/authority.rs]) and
      wgd's reader of it ([cosmix-wgd/src/trust.rs]);
    - [Admission.v]: the admission transcript and gate, Ed25519 ([admission.rs],
      [sig.rs]);
    - [TrustCaps.v]: capability resolution, key selection, freshness, the policy
      wrapper ([caps.rs], [sig.rs], [freshness.rs], [cache.rs], [combinator.rs]);
      [TrustRecords.v]: property records read as trust records ([wgd_records.rs]);
      [TrustSubscriber.v]: the three tasks that keep the trust snapshot
      ([subscriber.rs]) as a step relation over what their client answers;
      [TrustServer.v]: a wgd server as documented, and the two together.

    The interaction broker ([cosmix-interaction-broker/src/], with the types of
    [cosmix-interaction-schema/src/]).  Services open dialogs and send notifications;
    one presenter at a time holds a lease, is offered the waiting dialogs in turn
    and answers them.
    - [RateLimit.v]: token buckets in binary64 ([ratelimit.rs]);
    - [DialogSchema.v]: dialog requests, answers and their checks ([dialog.rs] of the
      schema);
    - [Dialog.v]: every operation of the dialog broker ([dialog.rs]); [DialogInv.v],
      [DialogRequeue.v], [DialogOps.v]: its invariant and what each operation does;
      [DialogClaims.v]: its theorems; [DialogLog.v]: the transition log;
    - [Notify.v]: notification requests, origins, dedupe slots and the notification broker
      ([lib.rs], [origin.rs], [dedupe.rs]).

    Shared: this file (results, machine integers, slices, stable sorting),
    [Utf8.v] (UTF-8 and character boundaries), [Str.v] (Rust's string operations),
    [BTree.v] (ordered maps), [Json.v] (JSON values and their accessors).

    ** How the models follow the code

    A struct is a record, an enum an inductive type, a [Result] the type [result]
    with its bind [let?]; [u64] and [usize] values are numbers with the saturating,
    checked and wrapping operations written out; strings are UTF-8 byte lists, and
    indexing them follows bytes as in Rust.  State is passed explicitly; a panic of
    the code is [None] where the code can panic ([parse_lenient], [canonical_bytes]
    of a transcript, the dialog broker), and the theorems say when it happens.  The
    order in which a [HashMap] is iterated is an argument, the class [HashIter], and
    may differ from call to call.  Asynchronous tasks and
    processes are step relations, an event being what the environment delivers (an
    answer, a failed lock, a write that is lost or not synced).

    Loops are structural recursion over their data.  Fuel occurs in [Text.v]: the
    pieces of a range are read with fuel [stop - off] and lines are scanned with fuel
    of the length plus one; both are shown to be enough in the lemmas that use them.
    In [Dialog.v] the loops that fail waiting dialogs have the number of records as
    fuel, and the fair dequeue the queued handles and turns; that no call runs out of
    it is part of [broker_sound].  In [Mirror.v] the conflict loop of [fold_remote] has one pass more than
    there are pending operations and the cutting of a text its length: [mirror_never_panics] says both
    are enough.  The replay of a log has the log's length as fuel ([replay_log_total]); the search for a
    free name in the quarantine has the number of files.  wgd's stability loop is bounded in the source, by three attempts.  Revisions are
    below 2^64 ([rev_room]), the one bound assumed of the buffer.

    In the recovery files a call of the system succeeds, fails with a part of it done, or is where the
    daemon is killed, as a list of [Fault]s says; a crash then keeps what was synced, any of the
    unsynced changes of the directory, and of an unsynced file a part and zeros.  A sync that failed
    makes nothing safe later.  [RecoveryLaws] says what serde promises (what is written is read back,
    on one line); [switch_fits] and [log_fits] that
    what is written fits the limits of a read, 64 KiB for a meta, 4096 bytes for a snapshot's header,
    144 MiB for a log: the code compacts a log long before, but asks for it through the actor.
    Modification times, the bound files a restore compares with and the heap's answers are parameters
    fixed over a run; the quarantine directory is the names with its prefix, which are not listed.

    Memory: the operating system and the heap may refuse any request, and the theorems on the edit core
    cover the refusals.  Those on the mirror and on the restore, where a refused edit costs the
    convergence or the text, assume [memory_granted]: a well-formed store replaces within
    [MAX_BUFFER_BYTES] and commits up to [COMMIT_MAX] (that limit plus the slack of the gap and one
    chunk), and a vector of line starts grows up to [MAX_LINES].  It says nothing of larger requests.
    [gap_memory] proves it of the program's gap buffer from what the operating system grants
    (the 4 GiB reservation and commits up to that size), and the witnesses run on the gap buffer.

    noded takes a baseline file it cannot read for a missing one; the runs of [floor_ratchets] are those
    whose read under the lock does not fail ([unreadable_floor_lost] is what happens otherwise).

    What is not the program's is an interface: [Chrono] (time arithmetic), [Base64],
    [Ed25519], [Blake3], [FloatText] (the text of an [f64]), [Json] and [SerdeJson]
    (the JSON library), each with its documented behaviour as a class of laws and
    with an instance that satisfies them in the witnesses.  Nothing is assumed of
    BLAKE3 but hexadecimal output; where the argument needs hashes not to collide
    the theorem says so of the documents in question.

    ** What is proved

    - Edit core: every operation keeps the buffer invariant and a refused one changes
      nothing; an accepted request is the simultaneous rewrite of its ranges, rebased
      from the revision it names; undo and redo are inverse; concurrent edits
      converge; the gap buffer refines a byte vector, the line index the text, and
      what [prepare] accepts [commit] performs; files load and save unchanged.
    - Mirror: over every run that starts with an opened or reopened buffer, whatever order of events,
      replies, timeouts, edits and recoveries, no handler panics and a live view is the server's text with
      the pending operations applied, the server's text when idle; events are followed, echoes acknowledge,
      keep-mine restores the copy, and the buffer of the edit core is a server as the mirror assumes.
      The runs are those [MirrorClaims.admits] describes: a server that sends its history, texts within
      the buffer's limits, edits in ascending order, and no reconciliation that ends unanswered while
      snapshot pages are read.  Outside the last three the mirror goes wrong, as running the model shows.
    - Recovery files: whatever calls fail and wherever the daemon is killed, a revision that was
      acknowledged survives every crash, to be loaded as a text of the buffer's history at least as new;
      the restore, killed at any call, loses nothing; loading never panics and changes nothing, on any
      bytes; on a good disk a flush makes the last revision safe.  Every run of an actor sends its
      messages in order and forgets nothing, so a flush keeps what the editor shows.
    - Bus: messages survive the wire, what strict parsing accepts is canonical, the
      parsers are bounded and drop no line silently, addresses print and parse exactly; two defects of the
      format are theorems of their own.
    - Signed documents: canonical bytes determine a JSON value up to the order of keys;
      so signatures cover exactly one inventory, envelope or transcript.
    - Trust root: inventory acceptance is the documented table; unsigned signature
      entries cannot change it; over all interleavings of loading processes the
      floor only rises and one position means one document; wgd and noded agree on
      what is verified; the routing view is exactly the well-formed membership.
    - Capabilities and admission: what is granted or admitted, exactly; the trust
      snapshot shows what a prefix of the server's log leaves, over every interleaving, and once
      ready a prefix past the installation of a watch.
    - Interaction: over every sequence of calls the dialog broker keeps its invariant and
      no call panics; a dialog is resolved only by the presenter's current attempt on another's
      dialog or by the owner of a progress dialog, and stays so; the answer reaches
      its owner; no dialog starves; maintenance is due when the broker says; the
      drained transitions mirror the states; notifications carry no reserved label
      that was not granted and replace none of another origin.

    ** Not modelled

    Sockets, timers and databases; the JSON report forms; the text of error messages (constructors
    stand for them).  Of the editor daemon, the commands, the file watcher and the event publisher; of
    the recovery files, the wake-ups, the configuration and the hooks of the tests; the bound files a
    restore compares with, and modification times, are parameters.  The search, syntax and view modules
    of the edit core rest on other crates.  Noded's broker and the daemon around the interaction broker
    are asynchronous tasks around sockets; the property store rests on a database.  The mix language,
    the mail, web, index and file services, the desktop and the tools of the repository are outside
    this library: most of them is input and output, or too large to model faithfully here. *)

From stdpp Require Export base tactics option list gmap strings sorting.
From Stdlib Require Export ZArith Lia ZifyBool ZifyNat.
From Stdlib Require Import Strings.Byte.

(** ** Fallible code: Rust's [Result] *)

Inductive result (A E : Type) : Type :=
| Ok (a : A)
| Err (e : E).
Arguments Ok {A E} a.
Arguments Err {A E} e.

Definition result_bind {A B E} (m : result A E) (k : A -> result B E) : result B E :=
  match m with Ok a => k a | Err e => Err e end.

Definition map_err {A E F} (f : E -> F) (m : result A E) : result A F :=
  match m with Ok a => Ok a | Err e => Err (f e) end.

Definition ok_or {A E} (o : option A) (e : E) : result A E :=
  match o with Some a => Ok a | None => Err e end.

Definition is_ok {A E} (m : result A E) : bool :=
  match m with Ok _ => true | Err _ => false end.

Declare Scope result_scope.
Delimit Scope result_scope with result.
Notation "'let?' x := m 'in' k" := (result_bind m (fun x => k))
  (at level 10, x pattern, m at level 200, k at level 200,
   format "'[hv' 'let?'  x  :=  m  'in'  '//' k ']'") : result_scope.
Open Scope result_scope.

Lemma result_bind_Ok {A B E} (m : result A E) (k : A -> result B E) b :
  result_bind m k = Ok b <-> exists a, m = Ok a /\ k a = Ok b.
Proof. destruct m; simpl; split; naive_solver. Qed.

Lemma result_bind_Err {A B E} (m : result A E) (k : A -> result B E) e :
  result_bind m k = Err e <-> m = Err e \/ exists a, m = Ok a /\ k a = Err e.
Proof. destruct m; simpl; split; naive_solver. Qed.

Lemma map_err_Ok {A E F} (f : E -> F) (m : result A E) a :
  map_err f m = Ok a <-> m = Ok a.
Proof. destruct m; simpl; naive_solver. Qed.

Lemma ok_or_Ok {A E} (o : option A) (e : E) a : ok_or o e = Ok a <-> o = Some a.
Proof. destruct o; simpl; naive_solver. Qed.

(** Takes apart a successful run of fallible code. *)
Ltac run_inv H :=
  lazymatch type of H with
  | result_bind _ _ = Ok _ =>
    let x := fresh "x" in let Hx := fresh "Hx" in apply result_bind_Ok in H as (x & Hx & H); run_inv H
  | (if ?b then Err _ else _) = Ok _ =>
    let E := fresh "E" in destruct b eqn:E; [discriminate H|]; run_inv H
  | Ok _ = Ok _ => try injection H as H
  | _ => idtac
  end.

(** Runs a fallible function down a list, stopping at the first error. *)
Fixpoint mapM_res {A B E} (f : A -> result B E) (l : list A) : result (list B) E :=
  match l with
  | [] => Ok []
  | x :: xs => let? y := f x in let? ys := mapM_res f xs in Ok (y :: ys)
  end.

(** Rust's [for x in l { body? }] with a threaded state. *)
Fixpoint foldM_res {A S E} (f : S -> A -> result S E) (s : S) (l : list A) : result S E :=
  match l with
  | [] => Ok s
  | x :: xs => let? s' := f s x in foldM_res f s' xs
  end.

Lemma mapM_res_Ok {A B E} (f : A -> result B E) l k :
  mapM_res f l = Ok k <-> Forall2 (fun x y => f x = Ok y) l k.
Proof.
  revert k; induction l as [|x l IH]; intros k; simpl.
  - split; [intros [= <-]; constructor | inversion 1; done].
  - rewrite result_bind_Ok; split.
    + intros (y & Hy & H). apply result_bind_Ok in H as (ys & Hys & [= <-]).
      constructor; [done | by apply IH].
    + inversion 1; subst. eexists; split; [done|]. apply result_bind_Ok.
      eexists; split; [by apply IH | done].
Qed.

Lemma foldM_res_app {A S E} (f : S -> A -> result S E) s l1 l2 :
  foldM_res f s (l1 ++ l2) = (let? s' := foldM_res f s l1 in foldM_res f s' l2).
Proof.
  revert s; induction l1 as [|x l1 IH]; intros s; simpl; [done|].
  destruct (f s x); simpl; [apply IH | done].
Qed.

(** ** Machine integers
    [u64] and [usize] values are non-negative mathematical integers; the
    saturating and checked operations the code uses are written out. *)

Definition U64_MAX : Z := 2 ^ 64 - 1.
Definition USIZE_MAX : Z := 2 ^ 64 - 1.
Definition sat_add64 (a b : Z) : Z := Z.min (a + b) U64_MAX.
Definition sat_sub64 (a b : Z) : Z := Z.max (a - b) 0.
Definition sat_mul64 (a b : Z) : Z := Z.min (a * b) U64_MAX.

(** [x as u32] for a [usize] [x]. *)
Definition as_u32 (x : nat) : nat := Z.to_nat (Z.of_nat x `mod` 2 ^ 32).

Lemma as_u32_id x : (Z.of_nat x < 2 ^ 32)%Z -> as_u32 x = x.
Proof. intros H. unfold as_u32. rewrite Z.mod_small by lia. lia. Qed.

(** [a.checked_add(b)] on [usize]. *)
Definition checked_add (a b : nat) : option nat :=
  if (Z.of_nat a + Z.of_nat b <=? USIZE_MAX)%Z then Some (a + b) else None.
(** [a.checked_sub(b)] on [usize]. *)
Definition checked_sub (a b : nat) : option nat :=
  if b <=? a then Some (a - b) else None.

Lemma checked_add_Some a b c : checked_add a b = Some c -> c = a + b.
Proof. unfold checked_add. case_match; naive_solver. Qed.
Lemma checked_sub_Some a b c : checked_sub a b = Some c -> b <= a /\ c = a - b.
Proof. unfold checked_sub. case_match eqn:H; [|done]. apply Nat.leb_le in H. naive_solver. Qed.

(** [n > limit] for a length against one of the code's large constants. *)
Definition exceeds (n : nat) (limit : Z) : bool := (limit <? Z.of_nat n)%Z.
Lemma exceeds_false n l : exceeds n l = false <-> (Z.of_nat n <= l)%Z.
Proof. unfold exceeds. lia. Qed.

(** ** Slices and splices of byte vectors *)

Section slices.
Context {A : Type}.
Implicit Types l x a b c : list A.

(** [&l[s..e]] *)
Definition slice (s e : nat) l : list A := take (e - s) (drop s l).
(** [l] with [l[s..e]] replaced by [x]. *)
Definition splice l (s e : nat) x : list A := take s l ++ x ++ drop e l.

Lemma length_slice s e l : s <= e -> e <= length l -> length (slice s e l) = e - s.
Proof. intros. unfold slice. rewrite length_take, length_drop. lia. Qed.

Lemma length_splice l s e x :
  s <= e -> e <= length l -> length (splice l s e x) = length l - (e - s) + length x.
Proof. intros. unfold splice. rewrite !length_app, length_take, length_drop. lia. Qed.

Lemma slice_empty s l : slice s s l = [].
Proof. unfold slice. by rewrite Nat.sub_diag. Qed.

Lemma slice_full l : slice 0 (length l) l = l.
Proof. unfold slice. rewrite Nat.sub_0_r, drop_0. by apply take_ge. Qed.

Lemma slice_split s m e l :
  s <= m -> m <= e -> slice s e l = slice s m l ++ slice m e l.
Proof.
  intros. unfold slice. replace (e - s) with ((m - s) + (e - m)) by lia.
  rewrite <- (take_drop (m - s) (take (m - s + (e - m)) (drop s l))).
  rewrite take_take, Nat.min_l by lia. f_equal.
  rewrite skipn_firstn_comm, drop_drop. f_equal; [lia|f_equal; lia].
Qed.

(** A text cut at two ordered offsets. *)
Lemma cut2 l s e :
  s <= e -> e <= length l ->
  exists a b c, l = a ++ b ++ c /\ length a = s /\ length b = e - s.
Proof.
  intros. exists (take s l), (slice s e l), (drop e l). unfold slice.
  rewrite length_take, length_take, length_drop. split_and!; [|lia..].
  rewrite <- (take_drop s l) at 1. f_equal.
  rewrite <- (take_drop (e - s) (drop s l)) at 1. f_equal.
  rewrite drop_drop. f_equal; lia.
Qed.

Lemma take_app_len a b n : n = length a -> take n (a ++ b) = a.
Proof. intros ->. apply take_app_length. Qed.
Lemma drop_app_len a b n : n = length a -> drop n (a ++ b) = b.
Proof. intros ->. apply drop_app_length. Qed.

Lemma splice_app a b c s e x :
  s = length a -> e = length a + length b ->
  splice (a ++ b ++ c) s e x = a ++ x ++ c.
Proof.
  intros -> ->. unfold splice. rewrite take_app_length. do 2 f_equal.
  rewrite app_assoc. apply drop_app_len. rewrite length_app. lia.
Qed.

Lemma slice_app a b c s e :
  s = length a -> e = length a + length b -> slice s e (a ++ b ++ c) = b.
Proof.
  intros -> ->. unfold slice. rewrite drop_app_length. apply take_app_len. lia.
Qed.

Lemma splice_same l s e : s <= e -> e <= length l -> splice l s e (slice s e l) = l.
Proof.
  intros. destruct (cut2 l s e) as (a & b & c & -> & Ha & Hb); [done..|].
  rewrite (slice_app a b c) by lia. rewrite splice_app by lia. done.
Qed.

Lemma splice_undo l s e x :
  s <= e -> e <= length l ->
  splice (splice l s e x) s (s + length x) (slice s e l) = l.
Proof.
  intros. destruct (cut2 l s e) as (a & b & c & -> & Ha & Hb); [done..|].
  rewrite (slice_app a b c) by lia. rewrite splice_app by lia.
  rewrite splice_app by lia. done.
Qed.

(** Replacements of two separated ranges commute. *)
Lemma splice_comm l p d q g x y :
  p + d <= q -> q + g <= length l ->
  splice (splice l p (p + d) x) (q - d + length x) (q + g - d + length x) y =
  splice (splice l q (q + g) y) p (p + d) x.
Proof.
  intros H1 H2.
  destruct (cut2 l p (p + d)) as (a & b & c & -> & Ha & Hb); [lia..|]. rewrite !length_app in *.
  destruct (cut2 c (q - (p + d)) (q + g - (p + d))) as (u & v & w & -> & Hu & Hv); [lia..|].
  rewrite (splice_app a b (u ++ v ++ w) p) by lia.
  rewrite (app_assoc a x), (app_assoc (a ++ x) u), (splice_app _ v w) by (rewrite ?length_app; lia).
  rewrite (app_assoc a b), (app_assoc (a ++ b) u), (splice_app _ v w) by (rewrite ?length_app; lia).
  rewrite <- !app_assoc, (splice_app a b) by (rewrite ?length_app; lia). done.
Qed.
End slices.

Ltac len := rewrite ?length_app, ?length_take, ?length_drop in *; simpl in *; lia.

(** ** Stable sorting: Rust's [slice::sort_by] *)

Section stable_sort.
Context {A : Type} (leb : A -> A -> bool).

Fixpoint insert_sorted (x : A) (l : list A) : list A :=
  match l with
  | [] => [x]
  | y :: ys => if leb x y then x :: y :: ys else y :: insert_sorted x ys
  end.

(** [x] precedes every element of the tail in the input, so it is placed
    before its equals: the sort is stable. *)
Definition stable_sort (l : list A) : list A := foldr insert_sorted [] l.

Lemma insert_sorted_perm x l : insert_sorted x l ≡ₚ x :: l.
Proof.
  induction l as [|y l IH]; simpl; [done|]. destruct (leb x y); [done|].
  rewrite IH. by constructor.
Qed.

Lemma stable_sort_perm l : stable_sort l ≡ₚ l.
Proof. induction l; simpl; [done|]. rewrite insert_sorted_perm. by constructor. Qed.

Lemma length_stable_sort l : length (stable_sort l) = length l.
Proof. by rewrite stable_sort_perm. Qed.

Hypothesis leb_trans : forall x y z, leb x y = true -> leb y z = true -> leb x z = true.
Hypothesis leb_total : forall x y, leb x y = true \/ leb y x = true.

Lemma insert_sorted_sorted x l :
  StronglySorted (fun a b => leb a b = true) l ->
  StronglySorted (fun a b => leb a b = true) (insert_sorted x l).
Proof.
  induction 1 as [|y l Hl IH Hy]; simpl; [repeat constructor|].
  destruct (leb x y) eqn:E.
  - constructor; [by constructor|]. constructor; [done|].
    eapply Forall_impl; [exact Hy|]. eauto.
  - constructor; [done|]. rewrite insert_sorted_perm. constructor; [|done].
    destruct (leb_total x y); congruence.
Qed.

Lemma stable_sort_sorted l : StronglySorted (fun a b => leb a b = true) (stable_sort l).
Proof. induction l; simpl; [constructor|]. by apply insert_sorted_sorted. Qed.
End stable_sort.

(** A list already in order is left alone. *)
Lemma stable_sort_id {A} (leb : A -> A -> bool) l :
  StronglySorted (fun a b => leb a b = true) l -> stable_sort leb l = l.
Proof.
  induction 1 as [|x l Hl IH Hx]; simpl; [done|]. rewrite IH.
  destruct l as [|y l]; simpl; [done|]. inversion Hx; subst. by rewrite H1.
Qed.

(** Sorting commutes with a map that respects the order. *)
Lemma insert_sorted_map {A B} (f : A -> B) (R : A -> A -> bool) (Q : B -> B -> bool) x l :
  (forall a b, R a b = Q (f a) (f b)) ->
  map f (insert_sorted R x l) = insert_sorted Q (f x) (map f l).
Proof.
  intros HR. induction l as [|y l IH]; cbn; [done|]. rewrite <- HR. destruct (R x y); cbn; [done|by rewrite IH].
Qed.

Lemma stable_sort_map {A B} (f : A -> B) (R : A -> A -> bool) (Q : B -> B -> bool) l :
  (forall a b, R a b = Q (f a) (f b)) -> map f (stable_sort R l) = stable_sort Q (map f l).
Proof.
  intros HR. induction l as [|x l IH]; cbn; [done|]. change (foldr (insert_sorted R) [] l) with (stable_sort R l).
  rewrite (insert_sorted_map f R Q) by done. by rewrite IH.
Qed.

(** Two sorted permutations of one list are equal when the order is
    antisymmetric on its elements. *)
Lemma sorted_perm_unique {A} (R : A -> A -> Prop) (l1 l2 : list A) :
  (forall x y, x ∈ l1 -> y ∈ l1 -> R x y -> R y x -> x = y) ->
  StronglySorted R l1 -> StronglySorted R l2 -> l1 ≡ₚ l2 -> l1 = l2.
Proof.
  intros Ha H1; revert l2 Ha; induction H1 as [|x l1 H1 IH Hx]; intros l2 Ha H2 Hp.
  - symmetry. by apply Permutation_nil.
  - destruct H2 as [|y l2 H2 Hy]; [by symmetry in Hp; apply Permutation_nil in Hp|].
    assert (x = y) as ->.
    { assert (x ∈ y :: l2) as Hin by (rewrite <- Hp; constructor).
      assert (y ∈ x :: l1) as Hin' by (rewrite Hp; constructor).
      apply elem_of_cons in Hin as [->|Hin]; [done|].
      apply elem_of_cons in Hin' as [->|Hin']; [done|].
      rewrite Forall_forall in Hx, Hy.
      apply Ha; [constructor|by constructor|by apply Hx|by apply Hy]. }
    f_equal. apply IH; [|done|by apply Permutation_cons_inv in Hp].
    intros; apply Ha; [by constructor..|done|done].
Qed.
