(* ===== verification/Utf8.v ===== *)
(** * Rust strings as UTF-8 byte vectors

    A Rust [str] is a byte vector that is well-formed UTF-8.  This file models
    what the edit core uses of the standard library's string type — the
    validator [str::from_utf8] with its [valid_up_to], character boundaries and
    the iteration over scalars — together with the two helpers of
    [cosmix-edit-core/src/text.rs] that look at lead bytes. A scalar is
    represented by its UTF-8 encoding, so [c.len_utf8()] is its length. *)

From S2P Require Import Prelude.
From Stdlib Require Export Strings.Byte.
From Stdlib Require Import NArith.

Abbreviation bytes := (list Byte.byte).

#[export] Instance byte_eq_dec : EqDecision Byte.byte.
Proof. intros x y. apply Byte.byte_eq_dec. Defined.

#[export] Instance byte_countable : Countable Byte.byte.
Proof.
  refine (inj_countable' Byte.to_N (fun n => default x00 (Byte.of_N n)) _).
  intros x. by rewrite Byte.of_to_N.
Defined.

(** Literals. *)
Definition bs (s : string) : bytes := String.list_byte_of_string s.

(** [str::split_once(c)] for one ASCII character. *)
Fixpoint split_once (c : byte) (s : bytes) : option (bytes * bytes) :=
  match s with
  | [] => None
  | b :: r => if Byte.eqb b c then Some ([], r)
              else match split_once c r with
                   | Some (x, y) => Some (b :: x, y) | None => None end
  end.

Definition b2n (b : byte) : N := Byte.to_N b.

Definition in_range (lo hi : N) (b : byte) : bool := (lo <=? b2n b)%N && (b2n b <=? hi)%N.

(** [b & 0xc0 == 0x80] *)
Definition is_continuation (b : byte) : bool := (N.land (b2n b) 0xc0 =? 0x80)%N.

(** Byte length of the UTF-8 sequence starting with [lead]. *)
Definition utf8_len (lead : byte) : nat :=
  if in_range 0 0x7f lead then 1
  else if in_range 0xc0 0xdf lead then 2
  else if in_range 0xe0 0xef lead then 3
  else 4.

Arguments utf8_len : simpl never.
Arguments in_range : simpl never.
Arguments is_continuation : simpl never.

Definition NL : byte := x0a.
Definition CR : byte := x0d.
Definition is_nl (b : byte) : bool := Byte.eqb b NL.

(** ** Well-formed sequences (the table of the Unicode standard, 3-7) *)

Definition seq1 (b0 : byte) : bool := in_range 0 0x7f b0.
Definition seq2 (b0 b1 : byte) : bool := in_range 0xc2 0xdf b0 && is_continuation b1.
Definition seq3 (b0 b1 b2 : byte) : bool :=
  ((in_range 0xe0 0xe0 b0 && in_range 0xa0 0xbf b1)
   || (in_range 0xe1 0xec b0 && is_continuation b1)
   || (in_range 0xed 0xed b0 && in_range 0x80 0x9f b1)
   || (in_range 0xee 0xef b0 && is_continuation b1))
  && is_continuation b2.
Definition seq4 (b0 b1 b2 b3 : byte) : bool :=
  ((in_range 0xf0 0xf0 b0 && in_range 0x90 0xbf b1)
   || (in_range 0xf1 0xf3 b0 && is_continuation b1)
   || (in_range 0xf4 0xf4 b0 && in_range 0x80 0x8f b1))
  && is_continuation b2 && is_continuation b3.

(** The encoding of one scalar. *)
Definition scalar (c : bytes) : bool :=
  match c with
  | [b0] => seq1 b0
  | [b0; b1] => seq2 b0 b1
  | [b0; b1; b2] => seq3 b0 b1 b2
  | [b0; b1; b2; b3] => seq4 b0 b1 b2 b3
  | _ => false
  end.

(** [Utf8Error::valid_up_to], or the whole length when there is no error. *)
Fixpoint valid_up_to (s : bytes) : nat :=
  match s with
  | [] => 0
  | b0 :: r1 =>
    if seq1 b0 then 1 + valid_up_to r1 else
    match r1 with
    | [] => 0
    | b1 :: r2 =>
      if seq2 b0 b1 then 2 + valid_up_to r2 else
      match r2 with
      | [] => 0
      | b2 :: r3 =>
        if seq3 b0 b1 b2 then 3 + valid_up_to r3 else
        match r3 with
        | [] => 0
        | b3 :: r4 => if seq4 b0 b1 b2 b3 then 4 + valid_up_to r4 else 0
        end
      end
    end
  end.

Definition from_utf8_ok (s : bytes) : bool := valid_up_to s =? length s.

(** [str::chars]: the scalars of a string, each as its encoding. *)
Fixpoint chars (s : bytes) : list bytes :=
  match s with
  | [] => []
  | b0 :: r1 =>
    match utf8_len b0, r1 with
    | 1, _ => [b0] :: chars r1
    | 2, b1 :: r2 => [b0; b1] :: chars r2
    | 3, b1 :: b2 :: r3 => [b0; b1; b2] :: chars r3
    | 4, b1 :: b2 :: b3 :: r4 => [b0; b1; b2; b3] :: chars r4
    | _, _ => []
    end
  end.

(** [str::is_char_boundary] *)
Definition is_boundary (s : bytes) (o : nat) : bool :=
  match s !! o with
  | Some b => (o =? 0) || negb (is_continuation b)
  | None => o =? length s
  end.

(** The largest boundary at or below [cut]: the [while !s.is_char_boundary(cut)
    { cut -= 1 }] loop of the code. *)
Fixpoint floor_boundary (s : bytes) (cut : nat) : nat :=
  if is_boundary s cut then cut else match cut with 0 => 0 | S c => floor_boundary s c end.

(** ** Well-formedness as a predicate *)

Inductive utf8 : bytes -> Prop :=
| utf8_nil : utf8 []
| utf8_cons c s : scalar c = true -> utf8 s -> utf8 (c ++ s).

(** A decidable test over all 256 bytes. *)
Definition all_bytes : list byte :=
  map (fun n => default x00 (Byte.of_N (N.of_nat n))) (seq 0 256).

Lemma all_bytes_In b : In b all_bytes.
Proof.
  assert (existsb (Byte.eqb b) all_bytes = true) as H by (destruct b; vm_compute; reflexivity).
  apply existsb_exists in H as (x & Hx & E). by apply Byte.byte_dec_bl in E as ->.
Qed.

Lemma byte_forall (P : byte -> bool) : forallb P all_bytes = true -> forall b, P b = true.
Proof. intros H b. rewrite forallb_forall in H. apply H, all_bytes_In. Qed.

Lemma cont_utf8_len_lead b : seq1 b = true -> utf8_len b = 1 /\ is_continuation b = false.
Proof.
  intros H.
  assert (implb (seq1 b) ((utf8_len b =? 1) && negb (is_continuation b)) = true) as E.
  { apply (byte_forall (fun b => implb (seq1 b) ((utf8_len b =? 1) && negb (is_continuation b)))).
    vm_compute. reflexivity. }
  rewrite H in E; simpl in E. apply andb_prop in E as [E1 E2].
  apply Nat.eqb_eq in E1. apply negb_true_iff in E2. done.
Qed.

Lemma in_range_lead lo hi n b :
  forallb (fun b => implb (in_range lo hi b) ((utf8_len b =? n) && negb (is_continuation b) && negb (seq1 b)))
    all_bytes = true ->
  in_range lo hi b = true -> utf8_len b = n /\ is_continuation b = false /\ seq1 b = false.
Proof.
  intros Hall H. pose proof (byte_forall _ Hall b) as E. simpl in E. rewrite H in E. simpl in E.
  apply andb_prop in E as [E E3]. apply andb_prop in E as [E1 E2].
  apply Nat.eqb_eq in E1. apply negb_true_iff in E2, E3. done.
Qed.

Lemma in_range_cont lo hi b :
  forallb (fun b => implb (in_range lo hi b) (is_continuation b)) all_bytes = true ->
  in_range lo hi b = true -> is_continuation b = true.
Proof. intros Hall H. pose proof (byte_forall _ Hall b) as E. simpl in E. by rewrite H in E. Qed.

Lemma seq2_inv b0 b1 : seq2 b0 b1 = true ->
  utf8_len b0 = 2 /\ is_continuation b0 = false /\ seq1 b0 = false /\ is_continuation b1 = true.
Proof.
  unfold seq2. intros [H H1]%andb_prop.
  apply (in_range_lead _ _ 2) in H as (?&?&?); [done|by vm_compute].
Qed.

Ltac lead_case n :=
  match goal with H : in_range ?lo ?hi ?b = true |- _ =>
    apply (in_range_lead lo hi n) in H as (?&?&?); [|by vm_compute] end.
Ltac cont_case :=
  match goal with H : in_range ?lo ?hi ?b = true |- is_continuation ?b = true =>
    apply (in_range_cont lo hi) in H; [done|by vm_compute] end.

Lemma seq3_inv b0 b1 b2 : seq3 b0 b1 b2 = true ->
  utf8_len b0 = 3 /\ is_continuation b0 = false /\ seq1 b0 = false /\
  is_continuation b1 = true /\ is_continuation b2 = true.
Proof.
  unfold seq3. intros [H H2]%andb_prop. rewrite !orb_true_iff in H.
  destruct H as [[[H|H]|H]|H]; apply andb_prop in H as [Ha Hb];
    apply (in_range_lead _ _ 3) in Ha as (?&?&?); try (by vm_compute);
    split_and!; try done; cont_case.
Qed.

Lemma seq4_inv b0 b1 b2 b3 : seq4 b0 b1 b2 b3 = true ->
  utf8_len b0 = 4 /\ is_continuation b0 = false /\ seq1 b0 = false /\
  is_continuation b1 = true /\ is_continuation b2 = true /\ is_continuation b3 = true.
Proof.
  unfold seq4. intros [[H H2]%andb_prop H3]%andb_prop. rewrite !orb_true_iff in H.
  destruct H as [[H|H]|H]; apply andb_prop in H as [Ha Hb];
    apply (in_range_lead _ _ 4) in Ha as (?&?&?); try (by vm_compute);
    split_and!; try done; cont_case.
Qed.

Lemma lead_not_cont b0 b1 : seq2 b0 b1 = true -> seq1 b0 = false.
Proof. intros ?%seq2_inv. naive_solver. Qed.

(** A scalar is a lead byte, not a continuation, followed by continuations;
    its length is the one the lead byte announces. *)
Lemma scalar_inv c : scalar c = true ->
  exists b0 t, c = b0 :: t /\ is_continuation b0 = false /\
    Forall (fun b => is_continuation b = true) t /\ utf8_len b0 = length c.
Proof.
  destruct c as [|b0 [|b1 [|b2 [|b3 [|b4 c]]]]]; simpl; try done; intros H.
  - apply cont_utf8_len_lead in H as []. eexists _, _. eauto.
  - apply seq2_inv in H as (?&?&?&?). eexists _, _; split_and!; eauto.
  - apply seq3_inv in H as (?&?&?&?&?). eexists _, _; split_and!; eauto.
  - apply seq4_inv in H as (?&?&?&?&?&?). eexists _, _; split_and!; eauto 10.
Qed.

Lemma scalar_length c : scalar c = true -> 1 <= length c <= 4.
Proof. destruct c as [|b0 [|b1 [|b2 [|b3 [|b4 c]]]]]; simpl; try done; lia. Qed.

Lemma utf8_app s t : utf8 s -> utf8 t -> utf8 (s ++ t).
Proof. induction 1; simpl; intros; [done|]. rewrite <- app_assoc. constructor; auto. Qed.

Lemma utf8_scalar c : scalar c = true -> utf8 c.
Proof. intros. rewrite <- (app_nil_r c). constructor; [done|constructor]. Qed.

Lemma is_boundary_le s o : is_boundary s o = true -> o <= length s.
Proof.
  unfold is_boundary. destruct (s !! o) eqn:E; intros H.
  - apply lookup_lt_Some in E. lia.
  - apply Nat.eqb_eq in H. lia.
Qed.

Lemma is_boundary_0 s : is_boundary s 0 = true.
Proof. unfold is_boundary. by destruct s. Qed.

Lemma is_boundary_len s : is_boundary s (length s) = true.
Proof. unfold is_boundary. rewrite lookup_ge_None_2 by lia. apply Nat.eqb_refl. Qed.

(** Boundaries in a string that starts with a scalar. *)
Lemma boundary_scalar c s o :
  scalar c = true -> is_boundary (c ++ s) o = true ->
  o = 0 \/ (length c <= o /\ is_boundary s (o - length c) = true).
Proof.
  intros (b0 & t & -> & Hb & Ht & Hl)%scalar_inv H.
  destruct o as [|o]; [by left|right].
  destruct (decide (length (b0 :: t) <= S o)) as [Hle|Hgt].
  - split; [done|]. unfold is_boundary in *.
    rewrite lookup_app_r in H by done.
    destruct (s !! (S o - length (b0 :: t))) eqn:E.
    + simpl in H. apply orb_true_iff. right. done.
    + apply Nat.eqb_eq. apply Nat.eqb_eq in H. rewrite length_app in H. lia.
  - exfalso. unfold is_boundary in H. simpl in *.
    rewrite lookup_app_l in H by lia.
    destruct (t !! o) as [b|] eqn:E; [|apply lookup_ge_None in E; lia].
    rewrite Forall_lookup in Ht. rewrite (Ht _ _ E) in H. done.
Qed.

(** Cutting a well-formed string at a boundary gives well-formed halves. *)
Lemma utf8_split s o :
  utf8 s -> is_boundary s o = true -> utf8 (take o s) /\ utf8 (drop o s).
Proof.
  intros H; revert o; induction H as [|c s Hc Hs IH]; intros o Ho.
  - rewrite take_nil, drop_nil. split; constructor.
  - apply boundary_scalar in Ho as [->|[Hl Hb]]; [| |done].
    + rewrite take_0, drop_0. split; [constructor|by constructor].
    + destruct (IH _ Hb) as [H1 H2].
      rewrite take_app_ge, drop_app_ge by done. split; [by constructor|done].
Qed.

Lemma utf8_slice s a b :
  utf8 s -> a <= b -> is_boundary s a = true -> is_boundary s b = true -> utf8 (slice a b s).
Proof.
  intros Hs Hab Ha Hb. destruct (utf8_split _ _ Hs Ha) as [_ Hd].
  unfold slice. apply utf8_split; [done|].
  unfold is_boundary in *. rewrite lookup_drop. replace (a + (b - a)) with b by lia.
  destruct (s !! b) eqn:E.
  - apply orb_true_iff. apply orb_true_iff in Hb as [Hb%Nat.eqb_eq|]; [|by right].
    left. apply Nat.eqb_eq. lia.
  - apply Nat.eqb_eq in Hb. apply Nat.eqb_eq. rewrite length_drop. lia.
Qed.

(** Splicing a well-formed string between two boundaries keeps the text
    well-formed. *)
Lemma utf8_splice s a b x :
  utf8 s -> utf8 x -> is_boundary s a = true -> is_boundary s b = true -> utf8 (splice s a b x).
Proof.
  intros Hs Hx Ha Hb. unfold splice.
  apply utf8_app; [by apply utf8_split|]. apply utf8_app; [done|by apply utf8_split].
Qed.

(** ** The validator and the scalar iterator agree with the predicate *)

Lemma chars_scalar c s : scalar c = true -> chars (c ++ s) = c :: chars s.
Proof.
  intros H. destruct (scalar_inv _ H) as (b0 & t & -> & _ & _ & Hl).
  destruct t as [|b1 [|b2 [|b3 [|b4 t]]]]; simpl in Hl, H; try done;
    cbn [app chars]; rewrite Hl; done.
Qed.

Lemma concat_chars s : utf8 s -> concat (chars s) = s.
Proof. induction 1; [done|]. rewrite chars_scalar by done. simpl. by f_equal. Qed.

Lemma chars_Forall s : utf8 s -> Forall (fun c => scalar c = true) (chars s).
Proof. induction 1; [constructor|]. rewrite chars_scalar by done. by constructor. Qed.

Lemma chars_app s t : utf8 s -> chars (s ++ t) = chars s ++ chars t.
Proof.
  induction 1 as [|c s Hc Hs IH]; [done|].
  rewrite <- app_assoc, (chars_scalar c (s ++ t)), (chars_scalar c s) by done. simpl. by rewrite IH.
Qed.

Lemma valid_up_to_scalar c s : scalar c = true -> valid_up_to (c ++ s) = length c + valid_up_to s.
Proof.
  destruct c as [|b0 [|b1 [|b2 [|b3 [|b4 c]]]]]; simpl; try done; intros H.
  - by rewrite H.
  - pose proof (seq2_inv _ _ H) as (_&_&E&_). by rewrite E, H.
  - pose proof (seq3_inv _ _ _ H) as (L&_&E&_). rewrite E.
    destruct (seq2 b0 b1) eqn:E2; [|by rewrite H]. apply seq2_inv in E2. naive_solver lia.
  - pose proof (seq4_inv _ _ _ _ H) as (L&_&E&_). rewrite E.
    destruct (seq2 b0 b1) eqn:E2; [apply seq2_inv in E2; naive_solver lia|].
    destruct (seq3 b0 b1 b2) eqn:E3; [apply seq3_inv in E3; naive_solver lia|].
    by rewrite H.
Qed.

(** Well-founded induction on the length of a string. *)
Lemma bytes_len_ind (P : bytes -> Prop) :
  (forall s, (forall t, length t < length s -> P t) -> P s) -> forall s, P s.
Proof.
  intros H s. remember (length s) as n eqn:E. revert s E.
  induction n as [n IH] using lt_wf_ind. intros s ->. apply H. intros t Ht. by eapply IH.
Qed.

Lemma valid_up_to_spec s : utf8 (take (valid_up_to s) s) /\ valid_up_to s <= length s.
Proof.
  induction s as [s IH] using bytes_len_ind.
  assert (forall c r, s = c ++ r -> scalar c = true ->
    utf8 (take (length c + valid_up_to r) s) /\ length c + valid_up_to r <= length s) as K.
  { intros c r -> Hc. destruct (IH r) as [H1 H2].
    { pose proof (scalar_length _ Hc). rewrite length_app. lia. }
    rewrite take_app_add. split; [by constructor|rewrite length_app; lia]. }
  destruct s as [|b0 r1]; simpl; [split; [constructor|lia]|].
  destruct (seq1 b0) eqn:E1; [by apply (K [b0] r1)|].
  destruct r1 as [|b1 r2]; [split; [constructor|lia]|].
  destruct (seq2 b0 b1) eqn:E2; [by apply (K [b0; b1] r2)|].
  destruct r2 as [|b2 r3]; [split; [constructor|lia]|].
  destruct (seq3 b0 b1 b2) eqn:E3; [by apply (K [b0; b1; b2] r3)|].
  destruct r3 as [|b3 r4]; [split; [constructor|lia]|].
  destruct (seq4 b0 b1 b2 b3) eqn:E4; [by apply (K [b0; b1; b2; b3] r4)|].
  split; [constructor|lia].
Qed.

Lemma valid_up_to_utf8 s t : utf8 s -> valid_up_to (s ++ t) = length s + valid_up_to t.
Proof.
  induction 1 as [|c s Hc Hs IH]; [done|].
  rewrite <- app_assoc, valid_up_to_scalar by done. rewrite IH, length_app. lia.
Qed.

Lemma from_utf8_ok_iff s : from_utf8_ok s = true <-> utf8 s.
Proof.
  unfold from_utf8_ok. rewrite Nat.eqb_eq. split.
  - intros H. destruct (valid_up_to_spec s) as [H1 _]. rewrite H, take_ge in H1 by lia. done.
  - intros H. rewrite <- (app_nil_r s), valid_up_to_utf8 by done. simpl. len.
Qed.

(** ** Boundaries of concatenations *)

Lemma utf8_head b s : utf8 (b :: s) -> is_continuation b = false.
Proof.
  intros H. inversion H as [|c r Hc Hr E].
  apply scalar_inv in Hc as (b0 & t & -> & ? & _). simpl in E. by injection E as -> _.
Qed.

Lemma boundary_app_l s t a :
  utf8 t -> a <= length s -> is_boundary (s ++ t) a = is_boundary s a.
Proof.
  intros Ht Ha. unfold is_boundary. destruct (decide (a < length s)) as [Hlt|Hge].
  - rewrite lookup_app_l by done. destruct (s !! a) eqn:E; [done|]. apply lookup_ge_None in E. lia.
  - assert (a = length s) as -> by lia. rewrite (lookup_ge_None_2 s) by lia.
    rewrite Nat.eqb_refl, lookup_app_r, Nat.sub_diag by lia.
    destruct t as [|b t]; simpl; [by rewrite app_nil_r, Nat.eqb_refl|].
    apply utf8_head in Ht. rewrite Ht. by rewrite orb_true_r.
Qed.

Lemma boundary_app_r s t a :
  utf8 t -> length s <= a -> is_boundary (s ++ t) a = is_boundary t (a - length s).
Proof.
  intros Ht Ha. unfold is_boundary. rewrite lookup_app_r by done.
  destruct (t !! (a - length s)) as [b|] eqn:E.
  - destruct (Nat.eqb_spec (a - length s) 0) as [E0|E0].
    + rewrite E0 in E. destruct t as [|b' t]; [done|]. injection E as ->.
      apply utf8_head in Ht. rewrite Ht. simpl. by rewrite orb_true_r.
    + destruct (Nat.eqb_spec a 0); [lia|done].
  - rewrite length_app. apply lookup_ge_None in E.
    destruct (Nat.eqb_spec a (length s + length t)), (Nat.eqb_spec (a - length s) (length t)); lia.
Qed.

(** A well-formed text cut at two ordered boundaries. *)
Lemma utf8_cut2 t s e :
  utf8 t -> s <= e -> is_boundary t s = true -> is_boundary t e = true ->
  exists a b c, t = a ++ b ++ c /\ length a = s /\ length b = e - s /\ utf8 a /\ utf8 b /\ utf8 c.
Proof.
  intros Ht Hse Hs He. pose proof (is_boundary_le _ _ He).
  exists (take s t), (slice s e t), (drop e t).
  split_and!; [|rewrite length_take; lia|by apply length_slice|
    by apply utf8_split|by apply utf8_slice|by apply utf8_split].
  symmetry. apply (splice_same t s e); lia.
Qed.

Lemma utf8_app_inv a b : utf8 a -> utf8 (a ++ b) -> utf8 b.
Proof.
  rewrite <- (from_utf8_ok_iff (a ++ b)), <- (from_utf8_ok_iff b). unfold from_utf8_ok.
  intros Ha. rewrite valid_up_to_utf8 by done. rewrite !Nat.eqb_eq, length_app. lia.
Qed.

Lemma chars_concat cs : Forall (fun c => scalar c = true) cs -> utf8 (concat cs) /\ chars (concat cs) = cs.
Proof.
  induction 1 as [|c cs Hc Hcs [IH1 IH2]]; [by split; [constructor|]|]. cbn [concat].
  rewrite chars_scalar, IH2 by done. by split; [constructor|].
Qed.

Lemma split_once_app c x y :
  Forall (fun b => Byte.eqb b c = false) x -> split_once c (x ++ c :: y) = Some (x, y).
Proof.
  induction 1 as [|b x Hb Hx IH]; simpl.
  - assert (Byte.eqb c c = true) as -> by by destruct c.
    done.
  - by rewrite Hb, IH.
Qed.

Lemma split_once_Some c s x y : split_once c s = Some (x, y) -> s = x ++ c :: y.
Proof.
  revert x y; induction s as [|b s IH]; intros x y; simpl; [done|].
  destruct (Byte.eqb b c) eqn:E.
  - intros [= <- <-]. apply Byte.byte_dec_bl in E as ->. done.
  - destruct (split_once c s) as [[x' y']|]; [|done]. intros [= <- <-]. simpl. by rewrite (IH x' y').
Qed.
