(* ===== verification/EditBase.v ===== *)
(** * The edit core's vocabulary

    Limits ([limits.rs]), the refusal vocabulary ([error.rs]), positions and
    ranges ([pos.rs]), origins ([origin.rs]), and the data of edits and log
    entries ([ot.rs], [history.rs]). A refusal keeps its code, reason and
    context fields; its human-readable message is not modelled. *)

From S2P Require Import Prelude Utf8.
From Stdlib Require Import NArith.

(** ** limits.rs *)

Definition MIB : Z := 1024 * 1024.
Definition MAX_BUFFER_BYTES : Z := 64 * MIB.
Definition MAX_LINES : Z := 2000000.
Definition MAX_REQUEST_TEXT_BYTES : Z := MIB.
Definition MAX_OPS_PER_TXN : Z := 10000.
Definition LOG_MAX_ENTRIES : Z := 100000.
Definition LOG_MAX_TEXT_BYTES : Z := 32 * MIB.
Definition MAX_ANCHORS : Z := 1024.
Definition MAX_SELECTION_ORIGINS : Z := 64.
Definition MAX_SELECTIONS_PER_ORIGIN : Z := 16.
Definition LABEL_MAX : nat := 64.

(** ** error.rs *)

Inductive ErrorCode :=
| InvalidArgument | NotFound | Conflict | ResourceLimit
| IoError | UnknownVerb | Forbidden | Internal.

Module reason.
Definition BAD_ARGS := "bad_args"%string.
Definition NOT_CHAR_BOUNDARY := "not_char_boundary"%string.
Definition LINE_OUT_OF_RANGE := "line_out_of_range"%string.
Definition COL_OUT_OF_RANGE := "col_out_of_range"%string.
Definition OFFSET_OUT_OF_RANGE := "offset_out_of_range"%string.
Definition OVERLAP_IN_TXN := "overlap_in_txn"%string.
Definition BASE_REV_NEEDS_OFFSETS := "base_rev_needs_offsets"%string.
Definition BASE_REV_IN_FUTURE := "base_rev_in_future"%string.
Definition NOT_UTF8 := "not_utf8"%string.
Definition BAD_ORIGIN := "bad_origin"%string.
Definition BAD_NAME := "bad_name"%string.
Definition UNKNOWN_ANCHOR := "unknown_anchor"%string.
Definition NOTHING_TO_UNDO := "nothing_to_undo"%string.
Definition NOTHING_TO_REDO := "nothing_to_redo"%string.
Definition STALE_REV := "stale_rev"%string.
Definition OVERLAP := "overlap"%string.
Definition HISTORY_TRIMMED := "history_trimmed"%string.
Definition UNDO_CONFLICT := "undo_conflict"%string.
Definition TOO_LARGE := "too_large"%string.
Definition TOO_MANY_LINES := "too_many_lines"%string.
Definition OUT_OF_MEMORY := "out_of_memory"%string.
Definition LIMIT := "limit"%string.
End reason.

(** A context value: the wire fields hold numbers and strings. *)
Inductive CtxVal := CNum (n : Z) | CStr (s : bytes).

Record CoreError := mkCoreError {
  code : ErrorCode;
  err_reason : option string;
  context : list (string * CtxVal);
}.

Definition CoreError_new (c : ErrorCode) (r : string) : CoreError :=
  {| code := c; err_reason := Some r; context := [] |}.

(** [self.context.insert(key, value)] *)
Definition CoreError_with (e : CoreError) (key : string) (v : CtxVal) : CoreError :=
  {| code := code e; err_reason := err_reason e;
     context := (key, v) :: filter (fun kv => kv.1 <> key) (context e) |}.

Definition with_num (e : CoreError) (key : string) (n : nat) : CoreError :=
  CoreError_with e key (CNum (Z.of_nat n)).

Abbreviation res A := (result A CoreError).

(** ** pos.rs *)

Record Point := mkPoint { pt_offset : nat; pt_line : nat; pt_col : nat }.

Inductive NamedPos := Start | End_.

Inductive PosSpec :=
| Offset (o : nat)
| Named (n : NamedPos)
| LineCol (line : nat) (col : option nat)
| PAnchor (anchor : bytes).

Inductive RangeSpec :=
| Offsets (s e : nat)
| Span (start stop : PosSpec)
| Lines (a b : nat)
| RAnchor (anchor : bytes)
| RAll.

(** ** origin.rs *)

Inductive OriginKind := Human | Agent | Tool.
Record Origin := mkOrigin { kind : OriginKind; label : bytes }.

#[export] Instance OriginKind_eq_dec : EqDecision OriginKind.
Proof. solve_decision. Defined.
#[export] Instance Origin_eq_dec : EqDecision Origin.
Proof. solve_decision. Defined.
#[export] Instance OriginKind_countable : Countable OriginKind.
Proof.
  refine (inj_countable' (fun k => match k with Human => 0 | Agent => 1 | Tool => 2 end)
    (fun n => match n with 0 => Human | 1 => Agent | _ => Tool end) _).
  by intros [].
Defined.
#[export] Instance Origin_countable : Countable Origin.
Proof.
  refine (inj_countable' (fun o => (kind o, label o)) (fun p => mkOrigin p.1 p.2) _).
  by intros [].
Defined.

Definition is_ascii_alphanumeric (b : byte) : bool :=
  in_range 0x30 0x39 b || in_range 0x41 0x5a b || in_range 0x61 0x7a b.

Definition byte_in (l : bytes) (b : byte) : bool := existsb (Byte.eqb b) l.

(** [Origin::is_valid_label] *)
Definition is_valid_label (l : bytes) : bool :=
  negb (length l =? 0) && (length l <=? LABEL_MAX) &&
  forallb (fun b => is_ascii_alphanumeric b || byte_in (bs "._@/+-") b) l.

(** [Origin::truncate_label] *)
Definition truncate_label (l hash8 : bytes) : bytes :=
  if length l <=? LABEL_MAX then l
  else let cut := floor_boundary l 55 in take cut l ++ bs "+" ++ hash8.

Definition kind_str (k : OriginKind) : bytes :=
  match k with Human => bs "human" | Agent => bs "agent" | Tool => bs "tool" end.

(** [impl Display for Origin] *)
Definition Origin_to_string (o : Origin) : bytes := kind_str (kind o) ++ bs ":" ++ label o.

(** [impl FromStr for Origin] *)
Definition Origin_from_str (s : bytes) : res Origin :=
  let bad := CoreError_new InvalidArgument reason.BAD_ORIGIN in
  let? (k, l) := ok_or (split_once x3a s) bad in
  let? k := (if decide (k = bs "human") then Ok Human
             else if decide (k = bs "agent") then Ok Agent
             else if decide (k = bs "tool") then Ok Tool
             else Err bad) in
  if negb (is_valid_label l) then Err bad else Ok (mkOrigin k l).

(** Broker-attested headers of the request that produced a log entry. *)
Record Via := mkVia {
  via_from : option bytes;
  broker_origin : bytes;
  broker_peer : option bytes;
  broker_service : option bytes;
}.

(** ** Edits (ot.rs) and log entries (history.rs) *)

Record Edit := mkEdit { e_offset : nat; e_delete : nat; e_insert : bytes }.

(** [RangeInclusive<u64>] *)
Record Group := mkGroup { g_start : Z; g_end : Z }.

Inductive EntryKind :=
| KEdit
| KUndo (target : Group)
| KRedo (target : Group)
| KReload.

#[export] Instance Group_eq_dec : EqDecision Group.
Proof. solve_decision. Defined.
#[export] Instance EntryKind_eq_dec : EqDecision EntryKind.
Proof. solve_decision. Defined.

Record LogEntry := mkLogEntry {
  le_rev : Z;
  le_origin : Origin;
  le_lane : Origin;
  le_kind : EntryKind;
  le_edits : list Edit;
  le_deleted : list bytes;
  le_via : Via;
  le_op_id : option bytes;
  le_time_ms : Z;
}.

(** ** Origins: printing and parsing *)

(** Every valid origin prints to a string that parses back to it, and every
    string the parser accepts is the print of the origin it returns. *)
Lemma Origin_parse_print o :
  is_valid_label (label o) = true -> Origin_from_str (Origin_to_string o) = Ok o.
Proof.
  destruct o as [k l]; simpl; intros H. unfold Origin_from_str, Origin_to_string; simpl.
  change (bs ":" ++ l) with (x3a :: l).
  rewrite split_once_app by (destruct k; repeat constructor). simpl.
  destruct k; simpl; by rewrite H.
Qed.

Lemma Origin_print_parse s o : Origin_from_str s = Ok o -> s = Origin_to_string o.
Proof.
  unfold Origin_from_str. intros H.
  apply result_bind_Ok in H as ([k l] & H & H2). apply ok_or_Ok in H.
  apply split_once_Some in H as ->.
  apply result_bind_Ok in H2 as (k' & Hk & H2).
  destruct (negb (is_valid_label l)); [done|]. injection H2 as <-.
  unfold Origin_to_string; simpl.
  repeat case_decide; try done; injection Hk as <-; by subst.
Qed.
