(* ===== verification/Ot.v ===== *)
(** * Edits, range sets and single-authority operational transformation

    Models [cosmix-edit-core/src/ot.rs]: transforming a range through an edit
    applied after it, the overlap rule and the application order of a
    transaction, the inverse of a log entry. An [Overlap] refusal is [None].
    Offsets are [usize]: the code only subtracts where the comparison before it
    makes the subtraction exact, so natural numbers carry no hidden truncation
    ([transform_raw_exact] states it). *)

From S2P Require Import Prelude Utf8 EditBase.

Abbreviation range := (nat * nat)%type.

Record RangeSet := mkRangeSet { rs_rev : Z; rs_items : list (range * bytes) }.

Inductive Priority := ThroughFirst | SelfFirst.

Record RawEdit := mkRaw { p : nat; dd : nat; ii : nat }.

(** [RawEdit::of] *)
Definition RawEdit_of (e : Edit) : RawEdit :=
  {| p := e_offset e; dd := e_delete e; ii := length (e_insert e) |}.

Definition transform_raw (r : range) (through : RawEdit) (prio : Priority) : option (range * bool) :=
  let '(s, e) := r in
  let '(mkRaw p dd ii) := through in
  let pe := p + dd in
  if (pe <? s) || ((pe =? s) && (0 <? dd)) then Some ((s - dd + ii, e - dd + ii), true)
  else if (e <? p) || ((p =? e) && (0 <? dd)) then Some ((s, e), false)
  else if (dd =? 0) && (p =? s) && (s =? e) then
    match prio with
    | ThroughFirst => Some ((s + ii, e + ii), true)
    | SelfFirst => Some ((s, e), false)
    end
  else if (dd =? 0) && (p =? s) && (s <? e) then Some ((s + ii, e + ii), true)
  else if (dd =? 0) && (p =? e) && (s <? e) then Some ((s, e), false)
  else None.

Arguments transform_raw : simpl never.

Definition transform_range (r : range) (through : Edit) (prio : Priority) : option range :=
  fst <$> transform_raw r (RawEdit_of through) prio.

(** [for edit in through { r = transform_range(r, edit, prio)?; }] *)
Fixpoint transform_range_seq (r : range) (through : list Edit) (prio : Priority) : option range :=
  match through with
  | [] => Some r
  | e :: es => r' ← transform_range r e prio; transform_range_seq r' es prio
  end.

Definition transform_set (set : RangeSet) (through : list Edit) (prio : Priority) : option RangeSet :=
  items ← mapM (fun '(r, text) =>
            r' ← transform_range_seq r through prio; Some (r', text)) (rs_items set);
  Some {| rs_rev := rs_rev set; rs_items := items |}.

(** The inner loop of [post_ranges_raw]; an overlap leaves the range as it is
    (the [debug_assert] of the source). *)
Fixpoint post_range (r : range) (later : list RawEdit) : range :=
  match later with
  | [] => r
  | e :: es =>
    match transform_raw r e ThroughFirst with
    | Some (t, _) => post_range t es
    | None => post_range r es
    end
  end.

Fixpoint post_ranges_raw (edits : list RawEdit) : list range :=
  match edits with
  | [] => []
  | e :: es => post_range (p e, p e + ii e) es :: post_ranges_raw es
  end.

Definition post_ranges (edits : list Edit) : list range := post_ranges_raw (map RawEdit_of edits).

(** The key [(s, e > s)], false before true. *)
Definition overlap_key_leb (a b : range) : bool :=
  (fst a <? fst b) || ((fst a =? fst b) && implb (fst a <? snd a) (fst b <? snd b)).

Fixpoint overlap_scan (max_e : nat) (order : list range) : option range :=
  match order with
  | [] => None
  | (s, e) :: rest =>
    if s <? max_e then Some (s, e)
    else overlap_scan (if s <? e then max max_e e else max_e) rest
  end.

Definition first_overlap (items : list range) : option range :=
  overlap_scan 0 (stable_sort overlap_key_leb items).

(** [Ordering::then] *)
Definition cmp_then (a b : comparison) : comparison := match a with Eq => b | _ => a end.
Definition bool_cmp (a b : bool) : comparison :=
  match a, b with false, true => Lt | true, false => Gt | _, _ => Eq end.

Definition canonical_cmp (a b : nat * nat * nat) : comparison :=
  let '(a0, a1, a2) := a in
  let '(b0, b1, b2) := b in
  cmp_then (b0 ?= a0) (cmp_then (bool_cmp (b0 <? b1) (a0 <? a1)) (b2 ?= a2)).

Definition canonical_leb (a b : nat * nat * nat) : bool :=
  match canonical_cmp a b with Gt => false | _ => true end.

Arguments canonical_leb : simpl never.

(** Items with their request index. *)
Definition indexed {A} (l : list A) : list (nat * A) := zip (seq 0 (length l)) l.

Definition txn_key (it : nat * (range * bytes)) : nat * nat * nat :=
  (fst (fst (snd it)), snd (fst (snd it)), fst it).

Definition txn_sequence (items : list (range * bytes)) : option (list (nat * Edit)) :=
  if existsb (fun it => snd (fst it) <? fst (fst it)) items
     || match first_overlap (map fst items) with Some _ => true | None => false end
  then None
  else
    let order := stable_sort (fun a b => canonical_leb (txn_key a) (txn_key b)) (indexed items) in
    Some (map (fun '(i, (r, text)) => (i, mkEdit (fst r) (snd r - fst r) text)) order).

Fixpoint through_set_sums (r : range) (items : list (range * nat)) (prio : Priority) (ds de : Z)
  : option (Z * Z) :=
  match items with
  | [] => Some (ds, de)
  | (ir, n) :: rest =>
    '(t, _) ← transform_raw r (mkRaw (fst ir) (snd ir - fst ir) n) prio;
    through_set_sums r rest prio
      (ds + (Z.of_nat (fst t) - Z.of_nat (fst r)))%Z
      (de + (Z.of_nat (snd t) - Z.of_nat (snd r)))%Z
  end.

Definition transform_through_set (r : range) (items : list (range * nat)) (prio : Priority) : option range :=
  '(ds, de) ← through_set_sums r items prio 0%Z 0%Z;
  let start := (Z.of_nat (fst r) + ds)%Z in
  let stop := (Z.of_nat (snd r) + de)%Z in
  if (start <? 0)%Z || (stop <? start)%Z then None
  else Some (Z.to_nat start, Z.to_nat stop).

(** [invert]: the inverse of a log entry on its post-rev text, in reading order. *)
Definition invert (entry : LogEntry) : RangeSet :=
  {| rs_rev := le_rev entry;
     rs_items := rev (imap (fun i r => (r, default [] (le_deleted entry !! i)))
                           (post_ranges (le_edits entry))) |}.

(** ** What an edit does to a text *)

Definition apply_edit (t : bytes) (e : Edit) : bytes :=
  splice t (e_offset e) (e_offset e + e_delete e) (e_insert e).
Definition apply_seq (t : bytes) (es : list Edit) : bytes := foldl apply_edit t es.

Definition edit_in (t : bytes) (e : Edit) : Prop := e_offset e + e_delete e <= length t.

(** The reference meaning of a set of replacements of one base text, read left
    to right: copy up to each range, write its replacement, skip the range. *)
Fixpoint rewrite_from (t : bytes) (pos : nat) (items : list (range * bytes)) : bytes :=
  match items with
  | [] => drop pos t
  | ((s, e), x) :: rest => slice pos s t ++ x ++ rewrite_from t e rest
  end.

(** Reading order: ranges ascend without overlapping and end by [hi]. *)
Fixpoint reading (pos : nat) (items : list (range * bytes)) (hi : nat) : Prop :=
  match items with
  | [] => pos <= hi
  | ((s, e), _) :: rest => pos <= s /\ s <= e /\ reading e rest hi
  end.

(** The shape [Text::prepare] requires: every step ends at or before the
    previous step's offset. *)
Fixpoint canonical_seq (hi : nat) (es : list Edit) : Prop :=
  match es with
  | [] => True
  | e :: rest => e_offset e + e_delete e <= hi /\ canonical_seq (e_offset e) rest
  end.

(** The two ways ranges of one transaction conflict (module docs of [buffer.rs]). *)
Definition ranges_overlap (a b : range) : Prop :=
  max (fst a) (fst b) < min (snd a) (snd b)
  \/ (fst a = snd a /\ fst b < fst a < snd b)
  \/ (fst b = snd b /\ fst a < fst b < snd a).

Definition pairwise_apart (items : list range) : Prop :=
  forall a b rest, items ≡ₚ a :: b :: rest -> ~ ranges_overlap a b.

(** Case analysis on the guards of [transform_raw]; [lia] reads the booleans. *)
Ltac guards :=
  repeat match goal with
  | H : context [if ?b then _ else _] |- _ => destruct b eqn:?; cbn [fst snd] in *
  | |- context [if ?b then _ else _] => destruct b eqn:?; cbn [fst snd] in *
  end.

(** ** One range through one edit *)

(** The transform's result as arithmetic: the range lies wholly on one side of
    the edit; it keeps its length and moves by [ii - dd] when the edit is on
    its left. No subtraction truncates. *)
Lemma transform_raw_exact s e t prio s' e' left :
  s <= e -> transform_raw (s, e) t prio = Some ((s', e'), left) ->
  (left = true /\ p t + dd t <= s /\ s' + dd t = s + ii t /\ e' + dd t = e + ii t) \/
  (left = false /\ e <= p t /\ s' = s /\ e' = e).
Proof.
  destruct t as [p dd ii]. unfold transform_raw. cbn [Ot.p Ot.dd Ot.ii].
  intros Hse H. guards; destruct prio; try discriminate H; injection H as <- <- <-; lia.
Qed.

Lemma transform_raw_length s e t prio s' e' left :
  s <= e -> transform_raw (s, e) t prio = Some ((s', e'), left) -> s' <= e' /\ e' - s' = e - s.
Proof. intros Hse H. apply transform_raw_exact in H; [lia|done]. Qed.

(** The transform refuses exactly the ranges that touch what the edit changed. *)
Lemma transform_raw_None s e t prio :
  s <= e ->
  transform_raw (s, e) t prio = None <->
  (0 < dd t /\ p t < e /\ s < p t + dd t /\ s < e) \/
  (0 < dd t /\ s = e /\ p t < s < p t + dd t) \/
  (dd t = 0 /\ s < p t < e).
Proof.
  destruct t as [p dd ii]. unfold transform_raw. cbn [Ot.p Ot.dd Ot.ii]. intros Hse.
  guards; destruct prio; split; intros H'; try discriminate H'; try lia; reflexivity.
Qed.

(** The bytes a transformed range covers are the ones it covered before. *)
Lemma transform_range_content t ed r prio s' e' :
  edit_in t ed -> fst r <= snd r -> snd r <= length t ->
  transform_range r ed prio = Some (s', e') ->
  s' <= e' /\ e' <= length (apply_edit t ed) /\
  slice s' e' (apply_edit t ed) = slice (fst r) (snd r) t.
Proof.
  destruct r as [s e], ed as [p d x]. unfold edit_in, transform_range, apply_edit; simpl.
  intros Hp Hse He H.
  destruct (transform_raw _ _ _) as [[[s1 e1] left]|] eqn:E; [|done]. injection H as -> ->.
  apply transform_raw_exact in E; [|done]. cbn [Ot.p Ot.dd Ot.ii RawEdit_of e_offset e_delete e_insert] in E.
  rewrite length_splice by lia. split; [lia|split; [lia|]].
  destruct E as [(-> & ? & ? & ?)|(-> & ? & -> & ->)].
  - destruct (cut2 t p (p + d)) as (a & b & c & -> & Ha & Hb); [lia..|].
    rewrite splice_app by lia. rewrite !length_app in *.
    destruct (cut2 c (s - (p + d)) (e - (p + d))) as (u & v & w & -> & Hu & Hv); [lia..|].
    rewrite (app_assoc a b), (app_assoc (a ++ b) u).
    rewrite (app_assoc a x), (app_assoc (a ++ x) u).
    rewrite !slice_app; [done|len..].
  - destruct (cut2 t p (p + d)) as (a & b & c & -> & Ha & Hb); [lia..|].
    rewrite splice_app by lia.
    destruct (cut2 a s e) as (u & v & w & -> & Hu & Hv); [len..|].
    rewrite <- !app_assoc. rewrite !slice_app; [done|len..].
Qed.

(** C25. Convergence of concurrent edits (TP1). Let [e] and [f] be two edits of
    the same text. If [f]'s range transforms through [e] with the server's tie
    rule ([ThroughFirst]), then [e]'s range transforms through [f] with the
    client's ([SelfFirst]), and both orders of application give one text. *)
Theorem transform_tp1 t e f s' e' :
  edit_in t e -> edit_in t f ->
  transform_range (e_offset f, e_offset f + e_delete f) e ThroughFirst = Some (s', e') ->
  exists p' q',
    transform_range (e_offset e, e_offset e + e_delete e) f SelfFirst = Some (p', q') /\
    apply_edit (apply_edit t e) (mkEdit s' (e' - s') (e_insert f)) =
    apply_edit (apply_edit t f) (mkEdit p' (q' - p') (e_insert e)).
Proof.
  destruct e as [p d x], f as [q g y]. unfold edit_in, transform_range, apply_edit; simpl.
  intros Hp Hq H.
  destruct (transform_raw (q, q + g) _ _) as [[[s1 e1] left]|] eqn:E; [|done]. injection H as -> ->.
  destruct (transform_raw (p, p + d) (RawEdit_of (mkEdit q g y)) SelfFirst)
    as [[[p1 q1] left']|] eqn:E'.
  2: { exfalso. apply transform_raw_None in E'; [|lia].
       assert (transform_raw (q, q + g) (RawEdit_of (mkEdit p d x)) ThroughFirst = None) as C;
         [|congruence].
       apply transform_raw_None; [lia|]. cbn in *. lia. }
  exists p1, q1. split; [done|].
  pose proof E as Eo. pose proof E' as Eo'.
  apply transform_raw_exact in E; [|lia]. apply transform_raw_exact in E'; [|lia].
  cbn [Ot.p Ot.dd Ot.ii RawEdit_of e_offset e_delete e_insert] in E, E'.
  unfold transform_raw in Eo, Eo'. cbn [RawEdit_of e_offset e_delete e_insert] in Eo, Eo'.
  (* the two edits cannot lie on the same side of each other *)
  assert (left' = negb left) as ->.
  { destruct left, left'; try done; exfalso; cbn in E, E';
      assert (d = 0 /\ g = 0 /\ p = q) as (-> & -> & ->) by lia; guards; try discriminate; lia. }
  destruct left; cbn in E, E'.
  - destruct E as [(_ & ? & ? & ?)|[[=] _]]. destruct E' as [[[=] _]|(_ & ? & -> & ->)].
    replace s' with (q - d + length x) by lia.
    replace (q - d + length x + (e' - (q - d + length x))) with (q + g - d + length x) by lia.
    replace (p + (p + d - p)) with (p + d) by lia. apply splice_comm; lia.
  - destruct E as [[[=] _]|(_ & ? & -> & ->)]. destruct E' as [(_ & ? & ? & ?)|[[=] _]].
    replace p1 with (p - g + length y) by lia.
    replace (p - g + length y + (q1 - (p - g + length y))) with (p + d - g + length y) by lia.
    replace (q + (q + g - q)) with (q + g) by lia. symmetry. apply splice_comm; lia.
Qed.

(** ** The overlap rule *)

Lemma pairwise_apart_perm l k : l ≡ₚ k -> pairwise_apart l -> pairwise_apart k.
Proof. intros Hp H a b rest Hk. apply (H a b rest). by rewrite Hp. Qed.

Lemma ranges_overlap_sym a b : ranges_overlap a b -> ranges_overlap b a.
Proof. unfold ranges_overlap. lia. Qed.

Lemma pairwise_apart_cons a l :
  pairwise_apart (a :: l) <-> (forall b, b ∈ l -> ~ ranges_overlap a b) /\ pairwise_apart l.
Proof.
  split.
  - intros H. split.
    + intros b Hb. apply elem_of_Permutation in Hb as [k Hk]. apply (H a b k). by rewrite Hk.
    + intros b c k Hk. apply (H b c (a :: k)). rewrite Hk. solve_Permutation.
  - intros [H1 H2] b c k Hk.
    assert (a ∈ b :: c :: k) as Hin by (rewrite <- Hk; constructor).
    apply elem_of_cons in Hin as [<-|Hin].
    + apply Permutation_cons_inv in Hk. apply H1. rewrite Hk. constructor.
    + apply elem_of_cons in Hin as [<-|Hin].
      * assert (a :: l ≡ₚ a :: b :: k) as Hk' by (rewrite Hk; constructor).
        apply Permutation_cons_inv in Hk'. intros Ho%ranges_overlap_sym.
        apply (H1 b); [rewrite Hk'; constructor|done].
      * apply elem_of_Permutation in Hin as [k' Hk'].
        apply (H2 b c k'). rewrite Hk' in Hk.
        assert (a :: l ≡ₚ a :: b :: c :: k') as Hk2 by (rewrite Hk; solve_Permutation).
        by apply Permutation_cons_inv in Hk2.
Qed.

Lemma overlap_key_trans x y z :
  overlap_key_leb x y = true -> overlap_key_leb y z = true -> overlap_key_leb x z = true.
Proof. unfold overlap_key_leb. lia. Qed.
Lemma overlap_key_total x y : overlap_key_leb x y = true \/ overlap_key_leb y x = true.
Proof. unfold overlap_key_leb. lia. Qed.

Lemma overlap_scan_spec m l :
  Forall (fun r => fst r <= snd r) l ->
  StronglySorted (fun a b => overlap_key_leb a b = true) l ->
  overlap_scan m l = None <-> (forall r, r ∈ l -> m <= fst r) /\ pairwise_apart l.
Proof.
  intros Hf Hs; revert m; induction Hs as [|[s e] l Hs IH Hle]; intros m; simpl.
  { split; [|done]. intros _. split; [by intros r ?%not_elem_of_nil|].
    intros a b k Hk. by apply Permutation_nil in Hk. }
  inversion Hf as [|? ? Hse Hf']; subst. simpl in Hse. specialize (IH Hf').
  rewrite Forall_forall in Hle. rewrite Forall_forall in Hf'.
  destruct (Nat.ltb_spec s m) as [Hlt|Hge].
  { split; [done|]. intros [H _]. specialize (H (s, e) ltac:(constructor)). simpl in H. lia. }
  rewrite IH, pairwise_apart_cons. split.
  - intros [H1 H2]. split_and!; [|intros [s2 e2] Hb|done].
    + intros r Hr. apply elem_of_cons in Hr as [->|Hr]; [done|].
      specialize (H1 r Hr). destruct (s <? e); lia.
    + specialize (H1 _ Hb). specialize (Hle _ Hb). specialize (Hf' _ Hb).
      unfold overlap_key_leb, ranges_overlap in *. simpl in *. destruct (Nat.ltb_spec s e); lia.
  - intros (H1 & H2 & H3). split; [|done]. intros [s2 e2] Hb.
    specialize (H2 _ Hb). specialize (Hle _ Hb). specialize (Hf' _ Hb).
    specialize (H1 _ (list_elem_of_further _ _ _ Hb)).
    unfold overlap_key_leb, ranges_overlap in *. simpl in *. destruct (Nat.ltb_spec s e); lia.
Qed.

(** [first_overlap] accepts exactly the pairwise non-overlapping sets. *)
Lemma first_overlap_None items :
  Forall (fun r => fst r <= snd r) items ->
  first_overlap items = None <-> pairwise_apart items.
Proof.
  intros Hf. unfold first_overlap. rewrite overlap_scan_spec.
  - split.
    + intros [_ H]. eapply pairwise_apart_perm; [apply stable_sort_perm|done].
    + intros H. split; [intros; lia|]. eapply pairwise_apart_perm; [|done].
      by rewrite stable_sort_perm.
  - by rewrite stable_sort_perm.
  - apply stable_sort_sorted; [apply overlap_key_trans|apply overlap_key_total].
Qed.

(** ** Canonical order is reading order reversed *)

(** Reading order of items with indices: by start, at one start the inserts
    before the range, inserts in request order. *)
Definition reading_leb (a b : nat * nat * nat) : bool := canonical_leb b a.

Lemma canonical_leb_spec a0 a1 a2 b0 b1 b2 :
  canonical_leb (a0, a1, a2) (b0, b1, b2) = true <->
  b0 < a0 \/ (a0 = b0 /\ ((a0 < a1 /\ b1 <= b0) \/
                          ((a0 < a1 <-> b0 < b1) /\ b2 <= a2))).
Proof.
  unfold canonical_leb, canonical_cmp.
  destruct (Nat.compare_spec b0 a0); cbn [cmp_then]; [|split; [lia|done]|split; [done|lia]].
  destruct (Nat.ltb_spec a0 a1), (Nat.ltb_spec b0 b1); cbn [bool_cmp cmp_then];
    try (split; [lia|done]); try (split; [done|lia]);
    destruct (Nat.compare_spec b2 a2); try (split; [lia|done]); (split; [done|lia]).
Qed.

Lemma canonical_leb_trans x y z :
  canonical_leb x y = true -> canonical_leb y z = true -> canonical_leb x z = true.
Proof.
  destruct x as [[??]?], y as [[??]?], z as [[??]?]. rewrite !canonical_leb_spec. lia.
Qed.
Lemma canonical_leb_total x y : canonical_leb x y = true \/ canonical_leb y x = true.
Proof. destruct x as [[??]?], y as [[??]?]. rewrite !canonical_leb_spec. lia. Qed.

Lemma StronglySorted_rev {A} (R : A -> A -> Prop) l :
  StronglySorted R l -> StronglySorted (fun a b => R b a) (rev l).
Proof.
  induction 1 as [|x l Hl IH Hx]; simpl; [constructor|].
  apply StronglySorted_app_2; [|done|repeat constructor].
  intros y z Hy Hz. apply list_elem_of_singleton in Hz as ->.
  rewrite Forall_forall in Hx. apply Hx. by rewrite <- (Permutation_rev l) in Hy.
Qed.

Definition edit_item (e : Edit) : range * bytes :=
  ((e_offset e, e_offset e + e_delete e), e_insert e).
Definition item_edit (it : range * bytes) : Edit :=
  mkEdit (fst (fst it)) (snd (fst it) - fst (fst it)) (snd it).

(** The items of a transaction in reading order: the specification of what a
    request means, independent of the order the code applies them in. *)
Definition txn_reading (items : list (range * bytes)) : list (range * bytes) :=
  map snd (stable_sort (fun a b => reading_leb (txn_key a) (txn_key b)) (indexed items)).

Lemma indexed_fst {A} (l : list A) : map fst (indexed l) = seq 0 (length l).
Proof.
  unfold indexed. change (map fst (zip (seq 0 (length l)) l)) with ((zip (seq 0 (length l)) l).*1).
  apply fst_zip. by rewrite length_seq.
Qed.
Lemma indexed_snd {A} (l : list A) : map snd (indexed l) = l.
Proof.
  unfold indexed. change (map snd (zip (seq 0 (length l)) l)) with ((zip (seq 0 (length l)) l).*2).
  apply snd_zip. by rewrite length_seq.
Qed.

Lemma indexed_inj {A} (l : list A) a b : a ∈ indexed l -> b ∈ indexed l -> fst a = fst b -> a = b.
Proof.
  intros Ha Hb E. apply list_elem_of_lookup in Ha as [i Ha]. apply list_elem_of_lookup in Hb as [j Hb].
  assert (forall i x, indexed l !! i = Some x -> fst x = i) as K.
  { intros k [n x] Hk. unfold indexed in Hk. apply lookup_zip_Some in Hk as [Hk _].
    apply lookup_seq in Hk. simpl. lia. }
  pose proof (K _ _ Ha). pose proof (K _ _ Hb). assert (i = j) as -> by lia. congruence.
Qed.

(** Reading order is canonical order reversed: every item has its own index. *)
Lemma reading_rev_canonical (items : list (range * bytes)) :
  stable_sort (fun a b => reading_leb (txn_key a) (txn_key b)) (indexed items) =
  rev (stable_sort (fun a b => canonical_leb (txn_key a) (txn_key b)) (indexed items)).
Proof.
  apply (sorted_perm_unique (fun a b => canonical_leb (txn_key b) (txn_key a) = true)).
  - intros x y Hx Hy H1 H2.
    rewrite stable_sort_perm in Hx, Hy. apply (indexed_inj items); [done..|].
    destruct x as [i [[s e] x]], y as [j [[s' e'] y]]. unfold txn_key in *. cbn [fst snd] in *.
    rewrite canonical_leb_spec in H1, H2. lia.
  - apply (stable_sort_sorted (fun a b => reading_leb (txn_key a) (txn_key b)));
      unfold reading_leb; intros.
    + by eapply canonical_leb_trans.
    + apply canonical_leb_total.
  - apply (StronglySorted_rev (fun a b => canonical_leb (txn_key a) (txn_key b) = true)).
    apply stable_sort_sorted; intros; [by eapply canonical_leb_trans|apply canonical_leb_total].
  - rewrite <- Permutation_rev, !stable_sort_perm. done.
Qed.

(** ** Sequential application of a canonical sequence *)

Lemma canonical_seq_mono hi hi' es : hi <= hi' -> canonical_seq hi es -> canonical_seq hi' es.
Proof. destruct es; simpl; [done|]. intros ? []. split; [lia|done]. Qed.

Lemma splice_app_frame (a b x : bytes) s e :
  s <= e -> e <= length a -> splice (a ++ b) s e x = splice a s e x ++ b.
Proof.
  intros. unfold splice. rewrite take_app_le, drop_app_le by lia. by rewrite <- !app_assoc.
Qed.

Lemma apply_seq_frame a b es :
  canonical_seq (length a) es -> apply_seq (a ++ b) es = apply_seq a es ++ b.
Proof.
  revert a; induction es as [|e es IH]; intros a; simpl; [done|]. intros [He Hc].
  assert (apply_edit (a ++ b) e = apply_edit a e ++ b) as ->
    by (apply splice_app_frame; lia).
  apply IH. eapply canonical_seq_mono; [|done]. unfold apply_edit. rewrite length_splice by lia. lia.
Qed.

Lemma apply_seq_cons t e es :
  canonical_seq (length t) (e :: es) ->
  apply_seq t (e :: es) =
  apply_seq (take (e_offset e) t) es ++ e_insert e ++ drop (e_offset e + e_delete e) t.
Proof.
  intros [He Hc]. apply (apply_seq_frame (take (e_offset e) t)).
  by rewrite length_take_le by lia.
Qed.

Lemma canonical_reading hi es pos :
  canonical_seq hi es -> pos = 0 -> reading pos (rev (map edit_item es)) hi.
Proof.
  intros Hc ->. revert hi Hc; induction es as [|e es IH]; intros hi; simpl; [lia|].
  intros [He Hc]. specialize (IH _ Hc).
  assert (forall l pos m, reading pos l m -> m + e_delete e <= hi ->
    reading pos (l ++ [((m, m + e_delete e), e_insert e)]) hi) as K.
  { induction l as [|[[s1 e1] x] l IHl]; simpl; intros; [lia|]. naive_solver. }
  apply K; [done|lia].
Qed.

Lemma reading_mono pos items hi hi' : hi <= hi' -> reading pos items hi -> reading pos items hi'.
Proof.
  revert pos; induction items as [|[[s e] x] l IH]; simpl; intros pos ?; [lia|].
  intros (?&?&?). eauto.
Qed.

Lemma reading_pos_le pos items hi : reading pos items hi -> pos <= hi.
Proof.
  revert pos; induction items as [|[[s e] x] l IH]; simpl; intros pos; [done|].
  intros (?&?&?%IH). lia.
Qed.

Lemma rewrite_from_snoc t pos items s e x :
  reading pos items s -> s <= length t ->
  rewrite_from t pos (items ++ [((s, e), x)]) = rewrite_from (take s t) pos items ++ x ++ drop e t.
Proof.
  revert pos; induction items as [|[[s1 e1] y] l IH]; simpl; intros pos H Hs.
  - f_equal. unfold slice. by rewrite skipn_firstn_comm.
  - destruct H as (?&?&H). rewrite IH by done. pose proof (reading_pos_le _ _ _ H).
    rewrite <- !app_assoc. f_equal. unfold slice.
    rewrite skipn_firstn_comm, take_take. f_equal. lia.
Qed.

(** Applying a canonical sequence one edit after the other is the simultaneous
    rewrite of the base text. *)
Lemma apply_seq_rewrite t es :
  canonical_seq (length t) es -> apply_seq t es = rewrite_from t 0 (rev (map edit_item es)).
Proof.
  revert t; induction es as [|e es IH]; intros t; [done|]. intros Hc.
  rewrite apply_seq_cons by done. simpl in Hc. destruct Hc as [He Hc].
  cbn [map rev]. unfold edit_item at 2. rewrite rewrite_from_snoc; [|by apply canonical_reading|lia].
  f_equal. apply IH. by rewrite length_take_le by lia.
Qed.

Lemma length_apply_seq t es :
  canonical_seq (length t) es ->
  length (apply_seq t es) + list_sum (map e_delete es) =
  length t + list_sum (map (fun e => length (e_insert e)) es).
Proof.
  revert t; induction es as [|e es IH]; intros t; [simpl; lia|]. intros Hc.
  rewrite apply_seq_cons by done. simpl in Hc. destruct Hc as [He Hc].
  assert (length (take (e_offset e) t) = e_offset e) as Ht by (rewrite length_take_le; lia).
  rewrite <- Ht in Hc. specialize (IH _ Hc).
  rewrite !length_app, length_drop. cbn [map list_sum foldr]. 
  change (foldr Nat.add 0) with list_sum. lia.
Qed.

(** ** The inverse of a canonical sequence *)

(** The text each edit removes, in base coordinates (what [commit_txn] reads). *)
Definition deleted_of (t : bytes) (es : list Edit) : list bytes :=
  map (fun e => slice (e_offset e) (e_offset e + e_delete e) t) es.

Lemma deleted_of_take t es n :
  canonical_seq n es -> deleted_of (take n t) es = deleted_of t es.
Proof.
  revert n; induction es as [|e es IH]; intros n; simpl; [done|]. intros [He Hc]. f_equal.
  - unfold slice. rewrite skipn_firstn_comm, take_take. f_equal. lia.
  - apply (IH n). eapply canonical_seq_mono; [|done]. lia.
Qed.

Lemma post_range_shift a es e :
  canonical_seq (length a) es -> length a <= e ->
  post_range (length a, e) (map RawEdit_of es) =
  (length (apply_seq a es), length (apply_seq a es) + (e - length a)).
Proof.
  revert a e; induction es as [|ed es IH]; intros a e; simpl.
  { intros _ He. f_equal. lia. }
  intros [Hed Hc] He.
  assert (length (apply_edit a ed) = length a - e_delete ed + length (e_insert ed)) as Hl.
  { unfold apply_edit. rewrite length_splice by lia. lia. }
  assert (transform_raw (length a, e) (RawEdit_of ed) ThroughFirst =
          Some ((length (apply_edit a ed), e - e_delete ed + length (e_insert ed)), true)) as ->.
  { rewrite Hl. unfold transform_raw; cbn [RawEdit_of]. guards; try lia; repeat f_equal; lia. }
  change (foldl apply_edit (apply_edit a ed) es) with (apply_seq (apply_edit a ed) es).
  rewrite IH by (first [eapply canonical_seq_mono; [|done]; lia | lia]).
  f_equal. lia.
Qed.

Lemma post_ranges_cons t e es :
  canonical_seq (length t) (e :: es) ->
  post_ranges (e :: es) =
  (let n := length (apply_seq (take (e_offset e) t) es) in (n, n + length (e_insert e)))
  :: post_ranges es.
Proof.
  simpl. intros [He Hc]. unfold post_ranges; simpl. f_equal.
  assert (length (take (e_offset e) t) = e_offset e) as Ht by (rewrite length_take_le; lia).
  rewrite <- Ht at 1 2. rewrite post_range_shift by (rewrite ?Ht; first [done|lia]). f_equal. lia.
Qed.

Definition inverse_items (es : list Edit) (dels : list bytes) : list (range * bytes) :=
  rev (zip (post_ranges es) dels).

(** The inverse's items are in reading order, each covers exactly the text its
    edit inserted, and rewriting with them restores the base text. *)
Lemma inverse_restores t es :
  canonical_seq (length t) es ->
  reading 0 (inverse_items es (deleted_of t es)) (length (apply_seq t es)) /\
  rewrite_from (apply_seq t es) 0 (inverse_items es (deleted_of t es)) = t /\
  Forall2 (fun r e => fst r <= snd r <= length (apply_seq t es) /\
                      slice (fst r) (snd r) (apply_seq t es) = e_insert e) (post_ranges es) es.
Proof.
  revert t; induction es as [|e es IH]; intros t Hc.
  { simpl. split_and!; [lia|apply drop_0|constructor]. }
  rewrite apply_seq_cons, (post_ranges_cons t) by done.
  pose proof Hc as Hc0. destruct Hc as [He Hc].
  set (a := take (e_offset e) t) in *.
  assert (length a = e_offset e) as Ha by (unfold a; rewrite length_take_le; lia).
  rewrite <- Ha in Hc. destruct (IH a Hc) as (R & W & F).
  assert (deleted_of a es = deleted_of t es) as Hd by (apply deleted_of_take; by rewrite <- Ha).
  rewrite Hd in R, W. set (r := apply_seq a es) in *.
  unfold inverse_items. rewrite (post_ranges_cons t) by done. fold a r. cbn [deleted_of map zip zip_with rev].
  fold (deleted_of t es). fold (inverse_items es (deleted_of t es)).
  split_and!.
  - rewrite !length_app.
    assert (forall l pos m x k, reading pos l m -> m <= m + k ->
      reading pos (l ++ [((m, m + k), x)]) (m + k)) as K.
    { induction l as [|[[s1 e1] y] l IHl]; simpl; intros; [lia|]. naive_solver. }
    eapply reading_mono; [|apply K; [done|lia]]. lia.
  - rewrite rewrite_from_snoc; [|done|len].
    rewrite take_app_len by done. rewrite W. rewrite (app_assoc r), drop_app_len by len.
    apply (splice_same t (e_offset e) (e_offset e + e_delete e)); lia.
  - constructor.
    + simpl. split; [len|]. by apply slice_app.
    + eapply Forall2_impl; [exact F|]. intros [s1 e1] ed. cbn [fst snd]. intros [Hb <-].
      split; [len|]. unfold slice. rewrite drop_app_le by lia. rewrite take_app_le; [done|].
      rewrite length_drop. lia.
Qed.

(** ** Simultaneous rewrites *)

Lemma rewrite_from_advance t pos m items hi :
  pos <= m -> reading m items hi -> hi <= length t ->
  rewrite_from t pos items = slice pos m t ++ rewrite_from t m items.
Proof.
  destruct items as [|[[s e] x] l]; simpl; intros Hp H Hhi.
  - destruct (cut2 t pos m) as (a & b & c & -> & Ha & Hb); [lia..|].
    rewrite (slice_app a b c), drop_app_len by lia. rewrite app_assoc, drop_app_len by len. done.
  - destruct H as (?&?&?). rewrite (slice_split pos m s) by lia. by rewrite <- !app_assoc.
Qed.

Lemma rewrite_from_app t pos l k m hi :
  reading pos l m -> reading m k hi -> hi <= length t ->
  rewrite_from t pos (l ++ k) = rewrite_from (take m t) pos l ++ rewrite_from t m k.
Proof.
  revert pos; induction l as [|[[s e] x] l IH]; simpl; intros pos Hl Hk Hhi.
  - rewrite (rewrite_from_advance t pos m k hi) by done. f_equal.
    unfold slice. by rewrite skipn_firstn_comm.
  - destruct Hl as (?&?&Hl). rewrite IH by done. pose proof (reading_pos_le _ _ _ Hl).
    rewrite <- !app_assoc. f_equal. unfold slice. rewrite skipn_firstn_comm, take_take. f_equal. lia.
Qed.

(** The net growth of a set of replacements. *)
Fixpoint growth (items : list (range * bytes)) : Z :=
  match items with
  | [] => 0
  | ((s, e), x) :: rest => (Z.of_nat (length x) - Z.of_nat (e - s) + growth rest)%Z
  end.

Lemma length_rewrite_from t pos items :
  reading pos items (length t) ->
  Z.of_nat (length (rewrite_from t pos items)) = (Z.of_nat (length t - pos) + growth items)%Z.
Proof.
  revert pos; induction items as [|[[s e] x] l IH]; simpl; intros pos H.
  - rewrite length_drop. lia.
  - destruct H as (?&?&H). pose proof (reading_pos_le _ _ _ H).
    rewrite !length_app, length_slice by lia. specialize (IH _ H). lia.
Qed.

Definition item_raw (it : range * bytes) : RawEdit :=
  mkRaw (fst (fst it)) (snd (fst it) - fst (fst it)) (length (snd it)).
Definition item_shape (it : range * bytes) : range * nat := (fst it, length (snd it)).
Definition side (r : range) (prio : Priority) (it : range * bytes) : option bool :=
  snd <$> transform_raw r (item_raw it) prio.

Lemma reading_Forall pos items hi :
  reading pos items hi ->
  Forall (fun it => pos <= fst (fst it) <= snd (fst it) /\ snd (fst it) <= hi) items.
Proof.
  revert pos; induction items as [|[[s e] x] l IH]; simpl; intros pos H; [constructor|].
  destruct H as (?&?&H). pose proof (reading_pos_le _ _ _ H). constructor; [cbn; lia|].
  eapply Forall_impl; [by apply IH|]. cbn. intros [[??]?]; cbn. lia.
Qed.

(** Once an item lies right of the range, so does every later one. *)
Lemma side_false_after rs re prio s e x s2 e2 y b :
  rs <= re -> s <= e -> e <= s2 -> s2 <= e2 ->
  side (rs, re) prio ((s, e), x) = Some false ->
  side (rs, re) prio ((s2, e2), y) = Some b -> b = false.
Proof.
  intros Hr Hs H1 H2 Hb Hb2. destruct b; [|done]. exfalso.
  unfold side, item_raw in *. cbn [fst snd] in *.
  destruct (transform_raw (rs, re) (mkRaw s _ _) _) as [[[u v] w]|] eqn:E1; [|done].
  destruct (transform_raw (rs, re) (mkRaw s2 _ _) _) as [[[u2 v2] w2]|] eqn:E2; [|done].
  injection Hb as ->. injection Hb2 as ->.
  pose proof E1 as E1'. pose proof E2 as E2'.
  apply transform_raw_exact in E1; [|done]. apply transform_raw_exact in E2; [|done].
  cbn [Ot.p Ot.dd Ot.ii] in *.
  assert (s = rs /\ e = rs /\ re = rs /\ s2 = rs /\ e2 = rs) as (-> & -> & -> & -> & ->) by lia.
  unfold transform_raw in E1', E2'. guards; destruct prio; try discriminate; lia.
Qed.

(** The items of a set split at the range: those to its left, then the others. *)
Lemma split_sides r prio pos items hi :
  fst r <= snd r -> reading pos items hi ->
  Forall (fun it => is_Some (side r prio it)) items ->
  exists l k, items = l ++ k /\
    Forall (fun it => side r prio it = Some true) l /\
    Forall (fun it => side r prio it = Some false) k.
Proof.
  destruct r as [rs re]. cbn [fst snd].
  intros Hr; revert pos; induction items as [|[[s e] x] items IH]; intros pos H F.
  { by exists [], []. }
  apply Forall_cons in F as [[b Hb] F]. destruct H as (Hp & Hse & H).
  destruct b.
  - destruct (IH e H F) as (l & k & -> & ? & ?). exists (((s, e), x) :: l), k. eauto.
  - exists [], (((s, e), x) :: items). split_and!; [done|constructor|]. constructor; [done|].
    apply reading_Forall in H. apply Forall_and in H as [H _].
    rewrite Forall_forall in F, H |- *. intros [[s2 e2] y] Hin.
    specialize (H _ Hin). destruct (F _ Hin) as [b Hb2]. rewrite Hb2. f_equal.
    cbn in H. eapply (side_false_after rs re prio s e x s2 e2 y); eauto; lia.
Qed.

Lemma side_true_inv rs re prio s e x :
  rs <= re -> s <= e -> side (rs, re) prio ((s, e), x) = Some true ->
  e <= rs /\ exists s' e', transform_raw (rs, re) (item_raw ((s, e), x)) prio = Some ((s', e'), true) /\
    (Z.of_nat s' - Z.of_nat rs = Z.of_nat (length x) - Z.of_nat (e - s))%Z /\
    (Z.of_nat e' - Z.of_nat re = Z.of_nat (length x) - Z.of_nat (e - s))%Z.
Proof.
  unfold side, item_raw; cbn [fst snd]; intros Hr Hs H.
  destruct (transform_raw _ _ _) as [[[s' e'] b]|] eqn:E; [|done]. injection H as ->.
  apply transform_raw_exact in E as [E|E]; [|naive_solver|done]. cbn [Ot.p Ot.dd Ot.ii] in E.
  split; [lia|]. exists s', e'. split; [done|]. lia.
Qed.

Lemma side_false_inv rs re prio s e x :
  rs <= re -> side (rs, re) prio ((s, e), x) = Some false ->
  re <= s /\ transform_raw (rs, re) (item_raw ((s, e), x)) prio = Some ((rs, re), false).
Proof.
  unfold side, item_raw; cbn [fst snd]; intros Hr H.
  destruct (transform_raw _ _ _) as [[[s' e'] b]|] eqn:E; [|done]. injection H as ->.
  apply transform_raw_exact in E as [E|E]; [naive_solver| |done]. cbn [Ot.p Ot.dd Ot.ii] in E.
  naive_solver.
Qed.

Lemma through_set_sums_sides r prio items ds de x :
  through_set_sums r (map item_shape items) prio ds de = Some x ->
  Forall (fun it => is_Some (side r prio it)) items.
Proof.
  revert ds de; induction items as [|[ir y] items IH]; simpl; intros ds de H; [constructor|].
  destruct (transform_raw _ _ _) as [[t b]|] eqn:E; [|done]. simpl in H.
  constructor; [unfold side, item_raw; cbn [fst snd]; rewrite E; eauto|by eapply IH].
Qed.

Lemma through_set_sums_right rs re prio k ds de :
  rs <= re -> Forall (fun it => side (rs, re) prio it = Some false) k ->
  through_set_sums (rs, re) (map item_shape k) prio ds de = Some (ds, de).
Proof.
  intros Hr; induction 1 as [|[[s e] x] k H Hk IH]; [done|].
  apply side_false_inv in H as [_ H]; [|done]. unfold item_raw in H. cbn [fst snd] in H.
  cbn [map item_shape through_set_sums fst snd]. rewrite H. cbn. by rewrite !Z.sub_diag, !Z.add_0_r.
Qed.

Lemma through_set_sums_split rs re prio pos l k m ds de :
  rs <= re -> reading pos l m ->
  Forall (fun it => side (rs, re) prio it = Some true) l ->
  Forall (fun it => side (rs, re) prio it = Some false) k ->
  through_set_sums (rs, re) (map item_shape (l ++ k)) prio ds de =
  Some (ds + growth l, de + growth l)%Z.
Proof.
  intros Hr Hl Fl Fk. revert pos ds de Hl; induction Fl as [|[[s e] x] l H Fl IH]; intros pos ds de Hl.
  - rewrite app_nil_l, through_set_sums_right by done. cbn. f_equal. f_equal; lia.
  - destruct Hl as (?&?&Hl). apply side_true_inv in H as (_ & s' & e' & E & E1 & E2); [|done..].
    unfold item_raw in E. cbn [fst snd] in E.
    cbn [app map item_shape through_set_sums fst snd]. rewrite E. cbn.
    rewrite (IH e) by done. f_equal. f_equal; lia.
Qed.

Lemma reading_app_l pos l k hi : reading pos (l ++ k) hi -> forall m,
  pos <= m -> Forall (fun it => snd (fst it) <= m) l -> reading pos l m.
Proof.
  revert pos; induction l as [|[[s e] x] l IH]; simpl; intros pos H m Hm F; [done|].
  destruct H as (?&?&H). apply Forall_cons in F as [F1 F2]. cbn in F1. eauto.
Qed.

Lemma reading_app_r pos l k hi : reading pos (l ++ k) hi -> forall m,
  m <= hi -> Forall (fun it => m <= fst (fst it)) k -> reading m k hi.
Proof.
  revert pos; induction l as [|[[s e] x] l IH]; simpl; intros pos H m Hm F.
  - destruct k as [|[[s e] x] k]; simpl in *; [done|]. apply Forall_cons in F as [F1 _].
    cbn in F1. naive_solver.
  - destruct H as (?&?&H). eauto.
Qed.

Lemma reading_app_intro pos l m k hi :
  reading pos l m -> reading m k hi -> reading pos (l ++ k) hi.
Proof.
  revert pos; induction l as [|[[s e] x] l IH]; simpl; intros pos Hl Hk.
  - destruct k as [|[[s e] x] k]; simpl in *; [lia|]. split_and!; [lia|naive_solver..].
  - naive_solver.
Qed.

(** A range through a whole transaction: [transform_through_set] moves a
    range to where its text is after the transaction, and editing the range
    afterwards gives the text the transaction would have produced had the edit
    been one of its items, placed after the items to its left and before the
    others — what the server's set-wise rebase produces. *)
Theorem transform_through_set_meaning t items s e prio s' e' y :
  reading 0 items (length t) -> s <= e -> e <= length t ->
  transform_through_set (s, e) (map item_shape items) prio = Some (s', e') ->
  slice s' e' (rewrite_from t 0 items) = slice s e t /\
  exists l k, items = l ++ k /\
    Forall (fun it => side (s, e) prio it = Some true) l /\
    Forall (fun it => side (s, e) prio it = Some false) k /\
    splice (rewrite_from t 0 items) s' e' y = rewrite_from t 0 (l ++ ((s, e), y) :: k).
Proof.
  intros Hrd Hse He H. unfold transform_through_set in H.
  destruct (through_set_sums _ _ _ _ _) as [[ds de]|] eqn:E; [|done]. simpl in H.
  destruct (split_sides (s, e) prio 0 items (length t)) as (l & k & -> & Fl & Fk);
    [done|done|by eapply through_set_sums_sides|].
  assert (reading 0 l s) as Rl.
  { apply (reading_app_l _ _ _ _ Hrd); [lia|]. apply reading_Forall in Hrd.
    apply Forall_app in Hrd as [Hrd _]. rewrite Forall_forall in *. intros [[s1 e1] x] Hin.
    specialize (Hrd _ Hin). specialize (Fl _ Hin). cbn in *.
    apply side_true_inv in Fl; lia. }
  assert (reading e k (length t)) as Rk.
  { apply (reading_app_r _ _ _ _ Hrd); [lia|]. rewrite Forall_forall in *. intros [[s1 e1] x] Hin.
    specialize (Fk _ Hin). cbn. apply side_false_inv in Fk; lia. }
  rewrite (through_set_sums_split s e prio 0 l k s) in E by done. injection E as <- <-.
  destruct (_ || _) eqn:G in H; [done|]. injection H as <- <-.
  assert (reading s k (length t)) as Rk'.
  { apply (reading_app_intro s [] e k); [done|done]. }
  set (a := rewrite_from (take s t) 0 l).
  assert (Z.of_nat (length a) = Z.of_nat s + growth l)%Z as Ha.
  { unfold a. rewrite length_rewrite_from; rewrite length_take_le by lia; [lia|done]. }
  assert (rewrite_from t 0 (l ++ k) = a ++ slice s e t ++ rewrite_from t e k) as ->.
  { rewrite (rewrite_from_app t 0 l k s (length t)) by done. fold a. f_equal.
    apply (rewrite_from_advance t s e k (length t)); done. }
  assert (length (slice s e t) = e - s) as Hsl by (apply length_slice; lia).
  split; [apply slice_app; lia|].
  exists l, k. split_and!; [done..|].
  rewrite splice_app by lia.
  rewrite (rewrite_from_app t 0 l (((s, e), y) :: k) s (length t)); [|done|cbn; naive_solver|done].
  fold a. f_equal. cbn [rewrite_from]. by rewrite slice_empty.
Qed.

(** ** Sorted, non-overlapping items form a canonical sequence *)

Section sorted_canonical.
Context {A : Type} (key : A -> nat * nat * nat) (ed : A -> Edit).
Hypothesis ed_key : forall x,
  e_offset (ed x) = fst (fst (key x)) /\
  e_delete (ed x) = snd (fst (key x)) - fst (fst (key x)).

Lemma sorted_canonical l hi :
  StronglySorted (fun a b => canonical_leb (key a) (key b) = true) l ->
  pairwise_apart (map (fun x => fst (key x)) l) ->
  Forall (fun x => fst (fst (key x)) <= snd (fst (key x)) <= hi) l ->
  canonical_seq hi (map ed l).
Proof.
  intros Hs; revert hi; induction Hs as [|x l Hs IH Hx]; intros hi Hp F; simpl; [done|].
  apply Forall_cons in F as [F1 F2]. cbn [map] in Hp. apply pairwise_apart_cons in Hp as [H1 H2].
  destruct (ed_key x) as [Eo Ed]. rewrite Eo, Ed. split; [lia|].
  apply IH; [done|]. rewrite Forall_forall in *. intros y Hy.
  specialize (Hx _ Hy). specialize (F2 _ Hy).
  assert (fst (key y) ∈ map (fun x => fst (key x)) l) as Hin.
  { apply list_elem_of_fmap. eauto. }
  specialize (H1 _ Hin). unfold ranges_overlap in H1.
  destruct (key x) as [[s e] i], (key y) as [[s2 e2] j]. cbn [fst snd] in *.
  rewrite canonical_leb_spec in Hx. lia.
Qed.
End sorted_canonical.

Lemma txn_sequence_Some items seq :
  txn_sequence items = Some seq ->
  Forall (fun it => fst (fst it) <= snd (fst it)) items /\
  pairwise_apart (map fst items) /\
  seq = map (fun '(i, (r, text)) => (i, mkEdit (fst r) (snd r - fst r) text))
    (stable_sort (fun a b => canonical_leb (txn_key a) (txn_key b)) (indexed items)).
Proof.
  unfold txn_sequence. destruct (existsb _ _) eqn:E1; [done|].
  destruct (first_overlap _) eqn:E2; [done|]. simpl. intros [= <-].
  assert (Forall (fun it => fst (fst it) <= snd (fst it)) items) as F.
  { apply Forall_forall. intros it Hit. destruct (decide (fst (fst it) <= snd (fst it))); [done|].
    assert (existsb (fun it => snd (fst it) <? fst (fst it)) items = true); [|congruence].
    apply existsb_exists. exists it. split; [by apply list_elem_of_In|]. apply Nat.ltb_lt. lia. }
  split_and!; [done| |done]. apply first_overlap_None; [|done]. by apply Forall_fmap.
Qed.

(** ** Properties *)

(** Two inserts at one offset, the tie the priorities decide. *)
Lemma transform_tp1_witness :
  exists p' q',
    transform_range (1, 1) (mkEdit 1 0 (bs "YZ")) SelfFirst = Some (p', q') /\
    apply_edit (apply_edit (bs "ab") (mkEdit 1 0 (bs "X"))) (mkEdit 2 0 (bs "YZ")) =
    apply_edit (apply_edit (bs "ab") (mkEdit 1 0 (bs "YZ"))) (mkEdit p' (q' - p') (bs "X")).
Proof.
  apply (transform_tp1 (bs "ab") (mkEdit 1 0 (bs "X")) (mkEdit 1 0 (bs "YZ")) 2 2);
    [unfold edit_in; simpl; lia..|reflexivity].
Defined.

(** Every edit of a sequence fits the text it applies to. *)
Fixpoint edits_in (t : bytes) (es : list Edit) : Prop :=
  match es with [] => True | e :: rest => edit_in t e /\ edits_in (apply_edit t e) rest end.

Lemma transform_range_seq_app r es fs prio :
  transform_range_seq r (es ++ fs) prio = (r' ← transform_range_seq r es prio; transform_range_seq r' fs prio).
Proof.
  revert r; induction es as [|e es IH]; intros r; cbn; [done|]. destruct (transform_range r e prio); cbn; [apply IH|done].
Qed.

Lemma apply_seq_app t es fs : apply_seq t (es ++ fs) = apply_seq (apply_seq t es) fs.
Proof. apply foldl_app. Qed.

Lemma edits_in_app t es fs : edits_in t (es ++ fs) <-> edits_in t es /\ edits_in (apply_seq t es) fs.
Proof. revert t; induction es as [|e es IH]; intros t; cbn; [tauto|]. rewrite IH. cbn. tauto. Qed.

Lemma transform_range_seq_content t es prio r r' :
  edits_in t es -> fst r <= snd r <= length t ->
  transform_range_seq r es prio = Some r' ->
  fst r' <= snd r' <= length (apply_seq t es) /\
  slice (fst r') (snd r') (apply_seq t es) = slice (fst r) (snd r) t.
Proof.
  revert t r; induction es as [|e es IH]; intros t r Hin Hr H; simpl in *.
  { injection H as <-. done. }
  destruct Hin as [He Hes]. destruct (transform_range r e prio) as [[s1 e1]|] eqn:E; [|done].
  apply (transform_range_content t) in E as (H1 & H2 & H3); [|done|lia|lia].
  destruct (IH (apply_edit t e) (s1, e1)) as [K1 K2]; [done|cbn; lia|done|].
  split; [done|]. rewrite K2. done.
Qed.

(** Rebasing keeps a range set on its text: when [transform_set] succeeds
    through a sequence of applied edits, every item still lies inside the new
    text, covers exactly the bytes it covered before, and keeps its
    replacement. *)
Theorem transform_set_content t set es prio set' :
  edits_in t es ->
  Forall (fun it => fst (fst it) <= snd (fst it) <= length t) (rs_items set) ->
  transform_set set es prio = Some set' ->
  rs_rev set' = rs_rev set /\
  Forall2 (fun it it' => snd it' = snd it /\
      fst (fst it') <= snd (fst it') <= length (apply_seq t es) /\
      slice (fst (fst it')) (snd (fst it')) (apply_seq t es) = slice (fst (fst it)) (snd (fst it)) t)
    (rs_items set) (rs_items set').
Proof.
  intros Hin F H. unfold transform_set in H.
  destruct (mapM _ (rs_items set)) as [items|] eqn:E; [|done]. injection H as <-.
  split; [done|]. cbn. apply mapM_Some_1 in E.
  induction E as [|[r x] it' l k H1 E IH]; [constructor|]. apply Forall_cons in F as [F1 F2].
  constructor; [|auto]. destruct (transform_range_seq r es prio) as [r'|] eqn:E'; [|done].
  injection H1 as <-. apply (transform_range_seq_content t) in E' as [? ?]; [|done|done]. done.
Qed.

Lemma transform_set_content_witness :
  Forall2 (fun it it' => snd it' = snd it /\
      fst (fst it') <= snd (fst it') <= length (apply_seq (bs "abcd") [mkEdit 0 1 (bs "XY")]) /\
      slice (fst (fst it')) (snd (fst it')) (apply_seq (bs "abcd") [mkEdit 0 1 (bs "XY")]) =
      slice (fst (fst it)) (snd (fst it)) (bs "abcd"))
    [((2, 3), bs "Q")] [((3, 4), bs "Q")].
Proof.
  apply (transform_set_content (bs "abcd") (mkRangeSet 7 [((2, 3), bs "Q")])
    [mkEdit 0 1 (bs "XY")] ThroughFirst (mkRangeSet 7 [((3, 4), bs "Q")])).
  - simpl. split; [unfold edit_in; simpl; lia|done].
  - repeat constructor; simpl; lia.
  - reflexivity.
Defined.

(** The overlap check is exact: [first_overlap] accepts a set of ranges iff
    no two of them share a byte and no insert lies strictly inside a range, and
    an offender it returns is a member that overlaps another member. *)
Theorem first_overlap_exact items :
  Forall (fun r => fst r <= snd r) items ->
  match first_overlap items with
  | None => pairwise_apart items
  | Some r => exists a rest, items ≡ₚ r :: a :: rest /\ ranges_overlap r a
  end.
Proof.
  intros F. destruct (first_overlap items) as [r|] eqn:E; [|by apply first_overlap_None].
  unfold first_overlap in E.
  assert (forall l m pre,
    pre ++ l ≡ₚ items ->
    StronglySorted (fun a b => overlap_key_leb a b = true) (pre ++ l) ->
    (m = 0 \/ exists d, d ∈ pre /\ fst d < snd d /\ snd d = m) ->
    overlap_scan m l = Some r ->
    exists a rest, items ≡ₚ r :: a :: rest /\ ranges_overlap r a) as K.
  { induction l as [|[s e] l IH]; intros m pre Hp Hs Hm H; simpl in H; [done|].
    destruct (Nat.ltb_spec s m) as [Hlt|Hge].
    - injection H as <-. destruct Hm as [->|([d1 d2] & Hd & Hne & <-)]; [lia|].
      apply elem_of_Permutation in Hd as [k Hk].
      exists (d1, d2), (k ++ l). split; [rewrite <- Hp, Hk; solve_Permutation|].
      assert (overlap_key_leb (d1, d2) (s, e) = true) as Hle.
      { apply (StronglySorted_app_1_elem_of _ _ _ _ _ Hs); [rewrite Hk|]; constructor. }
      assert (s <= e) as Hse.
      { rewrite <- Hp, Forall_app in F. destruct F as [_ F]. apply Forall_cons in F as [F _]. done. }
      unfold overlap_key_leb, ranges_overlap in *. cbn [fst snd] in *. lia.
    - apply (IH _ (pre ++ [(s, e)])) in H; [done|by rewrite <- app_assoc|by rewrite <- app_assoc|].
      destruct (Nat.ltb_spec s e).
      + destruct (Nat.max_spec m e) as [[_ ->]|[_ ->]].
        * right. exists (s, e). split; [set_solver|done].
        * destruct Hm as [->|(d & Hd & ?)]; [lia|]. right. exists d. split; [set_solver|done].
      + destruct Hm as [->|(d & Hd & ?)]; [by left|]. right. exists d. split; [set_solver|done]. }
  apply (K _ 0 []) in E; [done|apply stable_sort_perm| |by left].
  apply stable_sort_sorted; [apply overlap_key_trans|apply overlap_key_total].
Qed.

Lemma first_overlap_exact_witness :
  match first_overlap [(4, 6); (1, 1); (0, 3)] with
  | None => pairwise_apart [(4, 6); (1, 1); (0, 3)]
  | Some r => exists a rest, [(4, 6); (1, 1); (0, 3)] ≡ₚ r :: a :: rest /\ ranges_overlap r a
  end.
Proof. apply (first_overlap_exact [(4, 6); (1, 1); (0, 3)]). repeat constructor; simpl; lia. Defined.

(** The steps of a transaction in application order, and what they make of
    the base text. *)
Lemma txn_order_rewrite t items :
  Forall (fun it => fst (fst it) <= snd (fst it) <= length t) items -> pairwise_apart (map fst items) ->
  let es := map (fun x => item_edit (snd x))
              (stable_sort (fun a b => canonical_leb (txn_key a) (txn_key b)) (indexed items)) in
  canonical_seq (length t) es /\ apply_seq t es = rewrite_from t 0 (txn_reading items).
Proof.
  intros F Hp. set (o := stable_sort _ _). cbv zeta.
  assert (o ≡ₚ indexed items) as Ho by apply stable_sort_perm.
  assert (forall i it, (i, it) ∈ o -> fst (fst it) <= snd (fst it) <= length t) as Fo.
  { intros i it Hin. rewrite Ho in Hin. rewrite Forall_forall in F. apply F.
    rewrite <- (indexed_snd items). apply list_elem_of_fmap. by exists (i, it). }
  assert (canonical_seq (length t) (map (fun x => item_edit (snd x)) o)) as Hc.
  { apply (sorted_canonical txn_key (fun x => item_edit (snd x))).
    - by intros [i [[s e] x]].
    - apply stable_sort_sorted; intros; [by eapply canonical_leb_trans|apply canonical_leb_total].
    - eapply pairwise_apart_perm; [|exact Hp]. symmetry. rewrite Ho.
      rewrite <- (indexed_snd items) at 2. rewrite map_map. apply Permutation_refl'.
      apply map_ext. by intros [i [[s e] x]].
    - rewrite Forall_forall. intros [i it] Hin. by apply (Fo i it). }
  split; [done|]. rewrite (apply_seq_rewrite t (map (fun x => item_edit (snd x)) o)) by done.
  f_equal. unfold txn_reading. rewrite reading_rev_canonical. fold o. rewrite map_rev, map_map.
  f_equal. apply map_ext_in. intros [i it] Hin%list_elem_of_In. specialize (Fo i it Hin).
  destruct it as [[s e] x]. cbn in *. unfold edit_item, item_edit; cbn. do 2 f_equal. lia.
Qed.

(** A transaction means its simultaneous rewrite: the steps
    [txn_sequence] returns are the request's items, each once and with its base
    offsets, and applying them one after the other gives the base text with
    every range replaced at once, read left to right with inserts at one offset
    in request order and before a range that starts there. *)
Theorem txn_sequence_meaning t items sq :
  Forall (fun it => snd (fst it) <= length t) items ->
  txn_sequence items = Some sq ->
  map fst sq ≡ₚ seq 0 (length items) /\
  Forall (fun '(i, e) => item_edit <$> items !! i = Some e) sq /\
  apply_seq t (map snd sq) = rewrite_from t 0 (txn_reading items).
Proof.
  intros Hb H. apply txn_sequence_Some in H as (F & Hp & ->).
  set (o := stable_sort _ _). assert (o ≡ₚ indexed items) as Ho by apply stable_sort_perm.
  split_and!.
  - rewrite <- (indexed_fst items), <- Ho, map_map. apply Permutation_refl'.
    apply map_ext. by intros [i [r x]].
  - rewrite Forall_forall. intros [i e] Hin. apply list_elem_of_fmap in Hin as ([j [r x]] & [= -> ->] & Hin).
    rewrite Ho in Hin. apply list_elem_of_lookup in Hin as [k Hk]. unfold indexed in Hk.
    apply lookup_zip_Some in Hk as [Hk1 Hk2]. apply lookup_seq in Hk1 as [-> _].
    rewrite Nat.add_0_l, Hk2. done.
  - rewrite map_map, (map_ext _ (fun x => item_edit (snd x))) by (by intros [i [[s e] x]]).
    apply txn_order_rewrite; [|done]. rewrite Forall_forall in *. naive_solver.
Qed.

Lemma txn_sequence_meaning_witness :
  apply_seq (bs "abcd") [mkEdit 3 0 (bs "X"); mkEdit 1 2 (bs "B"); mkEdit 1 0 (bs "2"); mkEdit 1 0 (bs "1")] =
  rewrite_from (bs "abcd") 0
    (txn_reading [((1, 1), bs "1"); ((1, 3), bs "B"); ((3, 3), bs "X"); ((1, 1), bs "2")]).
Proof.
  apply (txn_sequence_meaning (bs "abcd")
    [((1, 1), bs "1"); ((1, 3), bs "B"); ((3, 3), bs "X"); ((1, 1), bs "2")]
    [(2, mkEdit 3 0 (bs "X")); (1, mkEdit 1 2 (bs "B")); (3, mkEdit 1 0 (bs "2")); (0, mkEdit 1 0 (bs "1"))]).
  - repeat constructor; simpl; lia.
  - reflexivity.
Defined.

(** [invert] pairs the post-ranges with the removed texts. *)
Lemma invert_items entry t :
  le_deleted entry = deleted_of t (le_edits entry) ->
  rs_items (invert entry) = inverse_items (le_edits entry) (deleted_of t (le_edits entry)).
Proof.
  intros E. unfold invert, inverse_items; cbn. f_equal. rewrite E. clear E.
  assert (length (post_ranges (le_edits entry)) = length (deleted_of t (le_edits entry))) as Hl.
  { unfold post_ranges, deleted_of. rewrite length_map.
    induction (le_edits entry); simpl; [done|]. by f_equal. }
  revert Hl. generalize (deleted_of t (le_edits entry)) as ds.
  generalize (post_ranges (le_edits entry)) as rs.
  intros rs ds Hl. apply list_eq. intros i.
  rewrite list_lookup_imap, lookup_zip_with.
  destruct (rs !! i) as [r|] eqn:Er; simpl; [|done].
  destruct (ds !! i) as [d|] eqn:Ed; simpl; [done|].
  apply lookup_lt_Some in Er. apply lookup_ge_None in Ed. lia.
Qed.

(** The inverse of a log entry undoes it: for an entry whose steps are in
    canonical order and whose removed texts were read from the text it was
    applied to, [invert] yields a set on the new text whose ranges are in
    reading order, each cover exactly what one step inserted, and whose
    simultaneous rewrite is the text before the entry. *)
Theorem invert_restores entry t :
  canonical_seq (length t) (le_edits entry) ->
  le_deleted entry = deleted_of t (le_edits entry) ->
  let t' := apply_seq t (le_edits entry) in
  reading 0 (rs_items (invert entry)) (length t') /\
  rewrite_from t' 0 (rs_items (invert entry)) = t /\
  Forall2 (fun r e => slice (fst r) (snd r) t' = e_insert e)
    (post_ranges (le_edits entry)) (le_edits entry).
Proof.
  intros Hc E t'. rewrite (invert_items entry t) by done.
  destruct (inverse_restores t (le_edits entry) Hc) as (R & W & F).
  split_and!; [done..|]. eapply Forall2_impl; [exact F|]. naive_solver.
Qed.

(** Ranges that are apart stay apart through an edit that touches neither. *)
Lemma transform_raw_apart a b t prio a' b' la lb :
  fst a <= snd a -> fst b <= snd b ->
  transform_raw a t prio = Some (a', la) -> transform_raw b t prio = Some (b', lb) ->
  ~ ranges_overlap a b -> ~ ranges_overlap a' b'.
Proof.
  destruct a as [s e], b as [u v], a' as [s' e'], b' as [u' v']. cbn [fst snd]. intros H1 H2 Ha Hb.
  apply transform_raw_exact in Ha; [|done]. apply transform_raw_exact in Hb; [|done].
  unfold ranges_overlap; cbn [fst snd]. lia.
Qed.

Definition sample_entry : LogEntry :=
  {| le_rev := 1; le_origin := mkOrigin Human (bs "a"); le_lane := mkOrigin Human (bs "a");
     le_kind := KEdit;
     le_edits := [mkEdit 3 0 (bs "X"); mkEdit 0 1 (bs "YY")];
     le_deleted := [[]; bs "a"];
     le_via := mkVia None (bs "local") None None; le_op_id := None; le_time_ms := 0 |}.

Lemma invert_restores_witness :
  rewrite_from (bs "YYbcXd") 0 (rs_items (invert sample_entry)) = bs "abcd".
Proof.
  apply (invert_restores sample_entry (bs "abcd")); [simpl; lia|reflexivity].
Defined.

(** The example of the function's own documentation: an insert after a deleted
    range whose start takes an insert. *)
Lemma transform_through_set_meaning_witness :
  slice 3 3 (rewrite_from (bs "0123456789") 0 [((2, 2), bs "P"); ((2, 4), [])]) =
  slice 4 4 (bs "0123456789").
Proof.
  apply (transform_through_set_meaning (bs "0123456789") [((2, 2), bs "P"); ((2, 4), [])]
    4 4 ThroughFirst 3 3 []); [simpl; lia|lia|simpl; lia|reflexivity].
Defined.
