(* ===== verification/Anchor.v ===== *)
(** * Anchors and selections

    Models [cosmix-edit-core/src/anchor.rs]: how a position follows the edits
    of a buffer. *)

From S2P Require Import Prelude Utf8 EditBase Ot.

Inductive Bias := Before | After.

Record Anchor := mkAnchor { a_offset : nat; a_bias : Bias; collapsed_rev : option Z }.

Record NamedAnchor := mkNamedAnchor { a_name : bytes; a_start : Anchor; a_end : option Anchor }.

Record AnchorSpec := mkAnchorSpec {
  sp_at : option PosSpec; sp_range : option RangeSpec; sp_bias : option Bias }.

Record Selection := mkSelection { sel_anchor : nat; sel_head : nat }.

Definition map_point (a : nat) (bias : Bias) (edit : Edit) : nat * bool :=
  let p := e_offset edit in
  let dd := e_delete edit in
  let ii := length (e_insert edit) in
  if (a <? p) || ((dd =? 0) && (p <? a)) then
    (if a <? p then (a, false) else (a + ii, false))
  else if a =? p then
    match bias with
    | Before => (a, false)
    | After => (a + ii, false)
    end
  else if a <? p + dd then (p, true)
  else (a - dd + ii, false).

Fixpoint map_through_from (a : nat) (bias : Bias) (edits : list Edit) (collapsed : bool) : nat * bool :=
  match edits with
  | [] => (a, collapsed)
  | e :: es => let '(n, c) := map_point a bias e in map_through_from n bias es (collapsed || c)
  end.

Definition map_through (a : nat) (bias : Bias) (edits : list Edit) : nat * bool :=
  map_through_from a bias edits false.

Definition set_offset (a : Anchor) (o : nat) : Anchor :=
  {| a_offset := o; a_bias := a_bias a; collapsed_rev := collapsed_rev a |}.
Definition set_collapsed (a : Anchor) (c : bool) (rev : Z) : Anchor :=
  {| a_offset := a_offset a; a_bias := a_bias a;
     collapsed_rev := if c then Some rev else collapsed_rev a |}.

(** [NamedAnchor::map] *)
Definition NamedAnchor_map (na : NamedAnchor) (edits : list Edit) (rev : Z) : NamedAnchor :=
  match a_end na with
  | None =>
    let '(o, c) := map_through (a_offset (a_start na)) (a_bias (a_start na)) edits in
    {| a_name := a_name na; a_start := set_collapsed (set_offset (a_start na) o) c rev; a_end := None |}
  | Some stop =>
    let empty := a_offset (a_start na) =? a_offset stop in
    let '(sb, eb) := if empty then (Before, Before) else (After, Before) in
    let '(s, sc) := map_through (a_offset (a_start na)) sb edits in
    let '(e, ec) := map_through (a_offset stop) eb edits in
    {| a_name := a_name na;
       a_start := set_collapsed (set_offset (a_start na) (min s e)) sc rev;
       a_end := Some (set_collapsed (set_offset stop e) ec rev) |}
  end.

(** [Selection::map] *)
Definition Selection_map (s : Selection) (edits : list Edit) (bias : Bias) : Selection :=
  {| sel_anchor := fst (map_through (sel_anchor s) bias edits);
     sel_head := fst (map_through (sel_head s) bias edits) |}.

(** [is_valid_name] *)
Definition is_valid_name (name : bytes) : bool :=
  negb (length name =? 0) && (length name <=? 64) &&
  forallb (fun b => is_ascii_alphanumeric b || byte_in (bs "._-") b) name.

(** ** Positions stay inside the text and on character boundaries *)

(** An edit whose ends are boundaries of a well-formed text and whose inserted
    text is well-formed. *)
Definition edit_ok (t : bytes) (e : Edit) : Prop :=
  utf8 (e_insert e) /\ is_boundary t (e_offset e) = true /\
  is_boundary t (e_offset e + e_delete e) = true.

Fixpoint edits_ok (t : bytes) (es : list Edit) : Prop :=
  match es with [] => True | e :: rest => edit_ok t e /\ edits_ok (apply_edit t e) rest end.

Lemma map_point_bound t e a bias :
  edit_in t e -> a <= length t -> fst (map_point a bias e) <= length (apply_edit t e).
Proof.
  unfold edit_in, apply_edit. intros He Ha. rewrite length_splice by lia.
  unfold map_point. destruct bias; guards; lia.
Qed.

Lemma apply_edit_utf8 t e : utf8 t -> edit_ok t e -> utf8 (apply_edit t e).
Proof. intros Ht (?&?&?). by apply utf8_splice. Qed.

Lemma edit_ok_in t e : edit_ok t e -> edit_in t e.
Proof. intros (_ & _ & H). by apply is_boundary_le in H. Qed.

Lemma map_point_boundary t e a bias :
  utf8 t -> edit_ok t e -> is_boundary t a = true ->
  is_boundary (apply_edit t e) (fst (map_point a bias e)) = true.
Proof.
  intros Ht (Hx & Hs & He) Ha.
  destruct (utf8_cut2 t (e_offset e) (e_offset e + e_delete e)) as (u & v & w & -> & Hu & Hv & Uu & Uv & Uw);
    [done|lia|done..|].
  unfold apply_edit. rewrite splice_app by lia.
  assert (utf8 (v ++ w)) as Uvw by by apply utf8_app.
  assert (utf8 (e_insert e ++ w)) as Uxw by by apply utf8_app.
  assert (forall o, o <= length u -> is_boundary (u ++ v ++ w) o = true ->
    is_boundary (u ++ e_insert e ++ w) o = true) as Kl.
  { intros o Ho H. rewrite boundary_app_l in H by done. by rewrite boundary_app_l. }
  assert (forall o, length u + length v <= o -> is_boundary (u ++ v ++ w) o = true ->
    is_boundary (u ++ e_insert e ++ w) (o - length v + length (e_insert e)) = true) as Kr.
  { intros o Ho H. rewrite app_assoc, boundary_app_r in H by (first [done|len]).
    rewrite app_assoc, boundary_app_r by (first [done|len]).
    replace (o - length v + length (e_insert e) - length (u ++ e_insert e)) with (o - length (u ++ v)) by len.
    done. }
  assert (is_boundary (u ++ e_insert e ++ w) (length u + length (e_insert e)) = true) as Km.
  { rewrite app_assoc, boundary_app_l by (first [done|len]). rewrite <- length_app. apply is_boundary_len. }
  unfold map_point. destruct bias; guards; first
  [ apply Kl; [lia|done]
  | replace (a + length (e_insert e)) with (length u + length (e_insert e)) by lia; done
  | replace (a + length (e_insert e)) with (a - length v + length (e_insert e)) by lia;
    apply Kr; [lia|done]
  | replace (a - e_delete e) with (a - length v) by lia; apply Kr; [lia|done] ].
Qed.

Lemma map_through_from_bias a bias es c :
  map_through_from a bias es c = (fst (map_through a bias es), c || snd (map_through a bias es)).
Proof.
  unfold map_through. revert a c; induction es as [|e es IH]; intros a c; simpl.
  - by rewrite orb_false_r.
  - destruct (map_point a bias e) as [n d]. rewrite (IH n (c || d)), (IH n d). cbn.
    by rewrite orb_assoc.
Qed.

Lemma map_through_cons a bias e es :
  fst (map_through a bias (e :: es)) = fst (map_through (fst (map_point a bias e)) bias es).
Proof.
  unfold map_through at 1. simpl. destruct (map_point a bias e) as [n c].
  rewrite map_through_from_bias. done.
Qed.

Lemma map_through_boundary t es a bias :
  utf8 t -> edits_ok t es -> is_boundary t a = true ->
  is_boundary (apply_seq t es) (fst (map_through a bias es)) = true.
Proof.
  revert t a; induction es as [|e es IH]; intros t a Ht He Ha; [done|].
  destruct He as [He Hes]. rewrite map_through_cons. apply IH; [by apply apply_edit_utf8|done|].
  by apply map_point_boundary.
Qed.

(** A valid position of a text. *)
Definition anchor_in (t : bytes) (na : NamedAnchor) : Prop :=
  is_boundary t (a_offset (a_start na)) = true /\
  match a_end na with
  | None => True
  | Some e => is_boundary t (a_offset e) = true /\ a_offset (a_start na) <= a_offset e
  end.

Lemma NamedAnchor_map_in t es na rev :
  utf8 t -> edits_ok t es -> anchor_in t na -> anchor_in (apply_seq t es) (NamedAnchor_map na es rev).
Proof.
  intros Ht He [Hs Hend]. unfold NamedAnchor_map, anchor_in.
  destruct (a_end na) as [e|]; cbn.
  - destruct Hend as [Hb Hle].
    set (sb := if a_offset (a_start na) =? a_offset e then Before else After).
    assert (is_boundary (apply_seq t es) (fst (map_through (a_offset (a_start na)) sb es)) = true) as K1
      by by apply map_through_boundary.
    assert (is_boundary (apply_seq t es) (fst (map_through (a_offset e) Before es)) = true) as K2
      by by apply map_through_boundary.
    unfold sb in K1. destruct (a_offset (a_start na) =? a_offset e);
      destruct (map_through (a_offset (a_start na)) _ es) as [s sc];
      destruct (map_through (a_offset e) Before es) as [o ec]; cbn in *;
      (split_and!; [destruct (Nat.min_spec s o) as [[_ ->]|[_ ->]]; done|done|lia]).
  - pose proof (map_through_boundary t es (a_offset (a_start na)) (a_bias (a_start na)) Ht He Hs) as K.
    destruct (map_through _ _ es) as [o c]. done.
Qed.

(** ** Properties *)

(** A position follows its text through an edit: unless the edit deletes
    strictly around it (then it collapses to the edit's offset and says so), the
    text on one side of it is unchanged — the left side for a position at or
    before the edit, the right side for one after it, and for a position at the
    edit's offset with bias [After] the inserted text ends at it. *)
Theorem map_point_tracks t e a bias :
  edit_in t e -> a <= length t ->
  let t' := apply_edit t e in
  let '(a', collapsed) := map_point a bias e in
  a' <= length t' /\
  (collapsed = true <-> e_offset e < a < e_offset e + e_delete e) /\
  (collapsed = true -> a' = e_offset e) /\
  (a < e_offset e \/ (a = e_offset e /\ bias = Before) -> take a' t' = take a t) /\
  (e_offset e + e_delete e <= a /\ e_offset e < a -> drop a' t' = drop a t) /\
  (a = e_offset e /\ bias = After ->
     take a' t' = take a t ++ e_insert e /\ drop a' t' = drop (a + e_delete e) t).
Proof.
  intros He Ha t'. pose proof (map_point_bound t e a bias He Ha) as Hb.
  destruct (map_point a bias e) as [a' c] eqn:E. fold t' in Hb. cbn in Hb.
  destruct (cut2 t (e_offset e) (e_offset e + e_delete e)) as (u & v & w & -> & Hu & Hv);
    [lia|unfold edit_in in He; lia|].
  assert (t' = u ++ e_insert e ++ w) as Ht by (unfold t', apply_edit; apply splice_app; lia).
  clearbody t'. subst t'. unfold map_point in E. rewrite !length_app in *.
  split_and!; [done| | | | |].
  - destruct bias; guards; injection E as <- <-; lia.
  - destruct bias; guards; injection E as <- <-; lia.
  - intros Hc. assert (a' = a) as -> by (destruct bias; guards; injection E as <- <-; naive_solver lia).
    by rewrite !take_app_le by lia.
  - intros Hc. assert (a' = a - length v + length (e_insert e)) as ->.
    { destruct bias; guards; injection E as <- <-; naive_solver lia. }
    rewrite (app_assoc u (e_insert e)), (app_assoc u v), !drop_app_ge by len.
    f_equal. len.
  - intros [-> ->]. assert (a' = length u + length (e_insert e)) as ->.
    { guards; injection E as <- <-; lia. }
    rewrite <- Hu, (app_assoc u (e_insert e) w), take_app_len, drop_app_len by len.
    rewrite take_app_len by done. split; [done|].
    rewrite app_assoc, drop_app_len by len. done.
Qed.

Lemma map_point_tracks_witness :
  drop 7 (apply_edit (bs "hello world") (mkEdit 0 5 (bs "good"))) = drop 8 (bs "hello world").
Proof.
  apply (map_point_tracks (bs "hello world") (mkEdit 0 5 (bs "good")) 8 Before);
    [unfold edit_in; simpl; lia|simpl; lia|simpl; lia].
Defined.

(** Anchors stay valid positions: mapped through the edits of a
    transaction on a well-formed text, a named anchor whose ends were character
    boundaries in order keeps both facts in the new text, so a range anchor
    never reverses even though its two ends move with different biases. *)
Theorem NamedAnchor_map_valid t es na rev :
  utf8 t -> edits_ok t es -> anchor_in t na ->
  anchor_in (apply_seq t es) (NamedAnchor_map na es rev) /\
  a_name (NamedAnchor_map na es rev) = a_name na /\
  (a_end (NamedAnchor_map na es rev) = None <-> a_end na = None).
Proof.
  intros Ht He Ha. split; [by apply NamedAnchor_map_in|].
  unfold NamedAnchor_map. destruct (a_end na) as [e|] eqn:E; cbn.
  - destruct (a_offset (a_start na) =? a_offset e);
      destruct (map_through (a_offset (a_start na)) _ es); destruct (map_through (a_offset e) _ es); done.
  - destruct (map_through _ _ es); done.
Qed.

(** A range anchor inside a replaced span: the start would follow the insert
    and pass the collapsed end. *)
Lemma NamedAnchor_map_valid_witness :
  anchor_in (apply_seq (bs "abcdef") [mkEdit 1 4 (bs "XYZ")])
    (NamedAnchor_map (mkNamedAnchor (bs "r") (mkAnchor 1 After None) (Some (mkAnchor 3 Before None)))
       [mkEdit 1 4 (bs "XYZ")] 9).
Proof.
  apply (NamedAnchor_map_valid (bs "abcdef") [mkEdit 1 4 (bs "XYZ")]
    (mkNamedAnchor (bs "r") (mkAnchor 1 After None) (Some (mkAnchor 3 Before None))) 9).
  - by apply from_utf8_ok_iff.
  - split; [|done]. split; [by apply from_utf8_ok_iff|split; reflexivity].
  - split; [reflexivity|split; [reflexivity|simpl; lia]].
Defined.
