(* ===== verification/GapBuffer.v ===== *)
(** * The gap buffer

    Models [cosmix-edit-core/src/vendor/msedit/gap_buffer.rs] (the copy this
    repository patched so that memory commits are fallible and all-or-nothing):
    the backing memory is a byte vector of the committed size, the gap a window
    of it, and the pointer copies are [mem_copy]. The operating system's answers
    ([virtual_reserve], [virtual_commit]) and the heap's are parameters. The
    [0xCD] fills of debug builds only write gap bytes and are left out.

    [TextStore] is what the text layer uses of a store, [TextStoreLaws] what it
    relies on; the gap buffer is an instance, and so is a plain byte vector. *)

From S2P Require Import Prelude Utf8.

(** ** Constants and rounding *)

Definition KIBI : Z := 1024.
Definition GIBI : Z := 1024 * 1024 * 1024.
Definition LARGE_CAPACITY : Z := 4 * GIBI.
Definition LARGE_ALLOC_CHUNK : Z := 64 * KIBI.
Definition LARGE_GAP_CHUNK : Z := 4 * KIBI.
Definition SMALL_CAPACITY : Z := 128 * KIBI.
Definition SMALL_ALLOC_CHUNK : Z := 256.
Definition SMALL_GAP_CHUNK : Z := 16.

(** [x & !(chunk - 1)] *)
Definition mask (x chunk : Z) : Z := Z.land x (Z.lnot (chunk - 1)).

(** [GapBuffer::commit_needed] *)
Definition commit_needed (text_length len : nat) : option nat :=
  let t := Z.of_nat text_length in
  let l := Z.of_nat len in
  let l1 := (l + (2 * LARGE_GAP_CHUNK - 1))%Z in
  if (USIZE_MAX <? l1)%Z then None else
  let gap_len_new := mask l1 LARGE_GAP_CHUNK in
  let b := (t + gap_len_new)%Z in
  if (USIZE_MAX <? b)%Z then None else
  let b1 := (b + (LARGE_ALLOC_CHUNK - 1))%Z in
  if (USIZE_MAX <? b1)%Z then None else
  Some (Z.to_nat (mask b1 LARGE_ALLOC_CHUNK)).

(** Masking with [!(2^k - 1)] rounds down to a multiple of [2^k]. *)
Lemma mask_spec x k : (0 <= k)%Z -> mask x (2 ^ k) = (x / 2 ^ k * 2 ^ k)%Z.
Proof.
  intros Hk. unfold mask. rewrite <- Z.ldiff_land.
  replace (2 ^ k - 1)%Z with (Z.ones k) by (rewrite Z.ones_equiv; lia).
  rewrite Z.ldiff_ones_r, Z.shiftl_mul_pow2, Z.shiftr_div_pow2 by done. done.
Qed.

Lemma mask_bounds x k : (0 <= k)%Z -> (x - 2 ^ k < mask x (2 ^ k) <= x)%Z.
Proof.
  intros Hk. rewrite mask_spec by done. pose proof (Z.pow_pos_nonneg 2 k ltac:(lia) Hk).
  pose proof (Z.div_mod x (2 ^ k) ltac:(lia)). pose proof (Z.mod_pos_bound x (2 ^ k) ltac:(lia)). lia.
Qed.

Lemma mask_up_alloc x : (x <= mask (x + LARGE_ALLOC_CHUNK - 1) LARGE_ALLOC_CHUNK)%Z.
Proof. change LARGE_ALLOC_CHUNK with (2 ^ 16)%Z. pose proof (mask_bounds (x + 2 ^ 16 - 1) 16 ltac:(lia)). lia. Qed.

Lemma mask_up_gap x : (x <= mask (x + LARGE_GAP_CHUNK + LARGE_GAP_CHUNK - 1) LARGE_GAP_CHUNK)%Z.
Proof. change LARGE_GAP_CHUNK with (2 ^ 12)%Z. pose proof (mask_bounds (x + 2 ^ 12 + 2 ^ 12 - 1) 12 ltac:(lia)). lia. Qed.

(** ** The interface of a text store *)

Class TextStore (G : Type) := {
  gs_new : option G;
  gs_len : G -> nat;
  gs_read_forward : G -> nat -> bytes;
  gs_allocate_gap : G -> nat -> nat -> nat -> G * bool;
  gs_replace : G -> nat -> nat -> bytes -> G * bool;
  gs_ensure_commit : G -> nat -> G * bool;
  gs_commit_calls : G -> Z;
}.

(** [gs_room g n]: [n] bytes of memory are committed. *)
Class TextStoreLaws (G : Type) `{TextStore G} := {
  gs_wf : G -> Prop;
  gs_bytes : G -> bytes;
  gs_room : G -> nat -> Prop;
  gs_new_spec g : gs_new = Some g -> gs_wf g /\ gs_bytes g = [];
  gs_len_spec g : gs_wf g -> gs_len g = length (gs_bytes g);
  gs_read_spec g off : gs_wf g -> off < length (gs_bytes g) ->
    exists n, 0 < n /\ gs_read_forward g off = take n (drop off (gs_bytes g));
  gs_gap_spec g : gs_wf g ->
    let '(g', _) := gs_allocate_gap g (gs_len g) 0 0 in
    gs_wf g' /\ gs_bytes g' = gs_bytes g /\ gs_read_forward g' 0 = gs_bytes g;
  gs_replace_spec g s e src : gs_wf g -> s <= e -> e <= length (gs_bytes g) ->
    let '(g', ok) := gs_replace g s e src in
    gs_wf g' /\ gs_bytes g' = if ok then splice (gs_bytes g) s e src else gs_bytes g;
  gs_replace_room g s e src : gs_wf g -> s <= e -> e <= length (gs_bytes g) ->
    (src = [] \/ exists n, commit_needed (length (gs_bytes g) - (e - s)) (length src) = Some n /\ gs_room g n) ->
    exists g', gs_replace g s e src = (g', true) /\ gs_commit_calls g' = gs_commit_calls g /\
      forall n, gs_room g n -> gs_room g' n;
  gs_ensure_spec g n : gs_wf g ->
    let '(g', ok) := gs_ensure_commit g n in
    gs_wf g' /\ gs_bytes g' = gs_bytes g /\ (ok = true -> gs_room g' n);
  gs_room_mono g n n' : gs_room g n -> n' <= n -> gs_room g n';
}.

(** ** The gap buffer *)

Record GapBuffer := mkGap {
  mem : bytes;          (* [text], of length [commit] *)
  reserve : Z;
  text_length : nat;
  gap_off : nat;
  gap_len : nat;
  generation : Z;
  commit_calls : Z;
  is_vm : bool;         (* [BackingBuffer::VirtualMemory] or [Vec] *)
}.

Definition commit (g : GapBuffer) : nat := length (mem g).

Definition with_mem (g : GapBuffer) (m : bytes) : GapBuffer :=
  mkGap m (reserve g) (text_length g) (gap_off g) (gap_len g) (generation g) (commit_calls g) (is_vm g).
Definition with_gap (g : GapBuffer) (tl go gl : nat) : GapBuffer :=
  mkGap (mem g) (reserve g) tl go gl (generation g) (commit_calls g) (is_vm g).
Definition count_commit (g : GapBuffer) : GapBuffer :=
  mkGap (mem g) (reserve g) (text_length g) (gap_off g) (gap_len g) (generation g) (commit_calls g + 1) (is_vm g).
Definition bump_generation (g : GapBuffer) : GapBuffer :=
  mkGap (mem g) (reserve g) (text_length g) (gap_off g) (gap_len g)
    ((generation g + 1) mod 2 ^ 32)%Z (commit_calls g) (is_vm g).

(** [ptr::copy]: [n] bytes from [src] to [dst], overlapping or not. *)
Definition mem_copy (m : bytes) (src dst n : nat) : bytes :=
  splice m dst (dst + n) (slice src (src + n) m).

Definition chunks (g : GapBuffer) : Z * Z :=
  if is_vm g then (LARGE_GAP_CHUNK, LARGE_ALLOC_CHUNK) else (SMALL_GAP_CHUNK, SMALL_ALLOC_CHUNK).

(** [(len + gap_chunk + gap_chunk - 1) & !(gap_chunk - 1)] *)
Definition gap_len_for (gap_chunk : Z) (len : nat) : nat :=
  Z.to_nat (mask (Z.of_nat len + gap_chunk + gap_chunk - 1) gap_chunk).

Lemma gap_len_for_ge len : len <= gap_len_for LARGE_GAP_CHUNK len.
Proof. unfold gap_len_for. pose proof (mask_up_gap (Z.of_nat len)). lia. Qed.

(** The reservation [commit_needed] asks for covers the gap [allocate_gap]
    would make. *)
Lemma commit_needed_ge tl len n :
  commit_needed tl len = Some n -> tl + gap_len_for LARGE_GAP_CHUNK len <= n.
Proof.
  unfold commit_needed, gap_len_for.
  replace (Z.of_nat len + (2 * LARGE_GAP_CHUNK - 1))%Z
    with (Z.of_nat len + LARGE_GAP_CHUNK + LARGE_GAP_CHUNK - 1)%Z by lia.
  set (x := mask (Z.of_nat len + _ + _ - 1)%Z LARGE_GAP_CHUNK).
  destruct (_ <? _)%Z; [done|]. destruct (_ <? _)%Z; [done|]. destruct (_ <? _)%Z; [done|].
  intros [= <-]. pose proof (mask_up_alloc (Z.of_nat tl + x)). pose proof (mask_up_gap (Z.of_nat len)).
  rewrite Z.add_sub_assoc. fold x in H0. lia.
Qed.

Section gap_buffer.
Context (virtual_reserve : Z -> bool) (virtual_commit : nat -> nat -> bool) (heap_reserve : nat -> bool).

(** [GapBuffer::new] *)
Definition GapBuffer_new (small : bool) : option GapBuffer :=
  if small then Some (mkGap [] SMALL_CAPACITY 0 0 0 0 0 false)
  else if virtual_reserve LARGE_CAPACITY then Some (mkGap [] LARGE_CAPACITY 0 0 0 0 0 true)
  else None.

Definition commit_to (g : GapBuffer) (bytes_new : nat) : GapBuffer * bool :=
  let bytes_old := commit g in
  let g := count_commit g in
  let ok := if is_vm g then virtual_commit bytes_old (bytes_new - bytes_old)
            else heap_reserve (bytes_new - bytes_old) in
  if ok then (with_mem g (mem g ++ replicate (bytes_new - bytes_old) x00), true)
  else (g, false).

Definition ensure_commit (g : GapBuffer) (required_commit : nat) : GapBuffer * bool :=
  if required_commit <=? commit g then (g, true) else
  let '(_, alloc_chunk) := chunks g in
  let r := (Z.of_nat required_commit + (alloc_chunk - 1))%Z in
  if (USIZE_MAX <? r)%Z then (g, false) else
  let bytes_new := mask r alloc_chunk in
  if (reserve g <? bytes_new)%Z then (g, false) else commit_to g (Z.to_nat bytes_new).

Definition move_gap (g : GapBuffer) (off : nat) : GapBuffer :=
  let m :=
    if 0 <? gap_len g then
      let left := off <? gap_off g in
      let move_src := if left then off else gap_off g + gap_len g in
      let move_dst := if left then off + gap_len g else gap_off g in
      let move_len := if left then gap_off g - off else off - gap_off g in
      mem_copy (mem g) move_src move_dst move_len
    else mem g in
  with_gap (with_mem g m) (text_length g) off (gap_len g).

Definition delete_text (g : GapBuffer) (delete : nat) : GapBuffer :=
  with_gap g (text_length g - delete) (gap_off g) (gap_len g + delete).

Definition enlarge_gap (g : GapBuffer) (len : nat) : GapBuffer :=
  let '(gap_chunk, _) := chunks g in
  let gap_len_old := gap_len g in
  let gap_len_new := gap_len_for gap_chunk len in
  let m := mem_copy (mem g) (gap_off g + gap_len_old) (gap_off g + gap_len_new)
             (text_length g - gap_off g) in
  with_gap (with_mem g m) (text_length g) (gap_off g) gap_len_new.

(** The commit [allocate_gap] makes before it touches anything. *)
Definition commit_for_gap (g : GapBuffer) (len delete : nat) : GapBuffer * bool :=
  if gap_len g + delete <? len then
    let '(gap_chunk, alloc_chunk) := chunks g in
    let gap_len_new := gap_len_for gap_chunk len in
    let bytes_new := text_length g - delete + gap_len_new in
    if commit g <? bytes_new then
      let bytes_new := mask (Z.of_nat bytes_new + alloc_chunk - 1) alloc_chunk in
      if (reserve g <? bytes_new)%Z then (g, false) else commit_to g (Z.to_nat bytes_new)
    else (g, true)
  else (g, true).

Definition allocate_gap (g : GapBuffer) (off len delete : nat) : GapBuffer * bool :=
  let off := min off (text_length g) in
  let delete := min delete (text_length g - off) in
  let '(g, ok) := commit_for_gap g len delete in
  if negb ok then (g, false) else
  let g := if off =? gap_off g then g else move_gap g off in
  let g := if 0 <? delete then delete_text g delete else g in
  let g := if gap_len g <? len then enlarge_gap g len else g in
  (bump_generation g, true).

(** [commit_gap]; its [assert!] holds for the lengths [replace] passes. *)
Definition commit_gap (g : GapBuffer) (len : nat) : GapBuffer :=
  with_gap g (text_length g + len) (gap_off g + len) (gap_len g - len).

(** [slice_copy_safe(gap, src)] writes [src], cut to the gap, at its start. *)
Definition replace (g : GapBuffer) (start stop : nat) (src : bytes) : GapBuffer * bool :=
  let '(g, ok) := allocate_gap g start (length src) (stop - start) in
  if negb ok then (g, false) else
  let len := min (length src) (gap_len g) in
  let g := with_mem g (splice (mem g) (gap_off g) (gap_off g + len) (take len src)) in
  (commit_gap g len, true).

Definition read_forward (g : GapBuffer) (off : nat) : bytes :=
  let off := min off (text_length g) in
  let '(beg, len) :=
    if off <? gap_off g then (off, gap_off g - off)
    else (off + gap_len g, text_length g - off) in
  slice beg (beg + len) (mem g).

#[export] Instance gap_store : TextStore GapBuffer := {|
  gs_new := GapBuffer_new false;
  gs_len := text_length;
  gs_read_forward := read_forward;
  gs_allocate_gap := allocate_gap;
  gs_replace := replace;
  gs_ensure_commit := ensure_commit;
  gs_commit_calls := commit_calls;
|}.

(** ** The text a gap buffer holds *)

(** The memory is the text before the gap, the gap, the text after it and
    spare committed bytes. *)
Definition rep (g : GapBuffer) (l r : bytes) : Prop :=
  exists gap tail, mem g = l ++ gap ++ r ++ tail /\
    length l = gap_off g /\ length gap = gap_len g /\ length l + length r = text_length g.

Definition contents (g : GapBuffer) : bytes :=
  take (gap_off g) (mem g) ++ slice (gap_off g + gap_len g) (text_length g + gap_len g) (mem g).

Definition gap_wf (g : GapBuffer) : Prop :=
  gap_off g <= text_length g /\ text_length g + gap_len g <= commit g /\ is_vm g = true.

Lemma rep_contents g l r : rep g l r -> contents g = l ++ r.
Proof.
  intros (gap & tail & E & Hl & Hg & Ht). unfold contents. rewrite E.
  rewrite take_app_len by done. f_equal.
  rewrite (app_assoc l gap). apply slice_app; len.
Qed.

Lemma rep_wf g l r : rep g l r -> is_vm g = true -> gap_wf g.
Proof.
  intros (gap & tail & E & Hl & Hg & Ht) Hvm. unfold gap_wf, commit. rewrite E.
  split_and!; [len|len|done].
Qed.

Lemma wf_rep g : gap_wf g -> exists l r, rep g l r /\ contents g = l ++ r.
Proof.
  intros (H1 & H2 & _). unfold commit in H2.
  destruct (cut2 (mem g) (gap_off g) (gap_off g + gap_len g)) as (l & gap & x & E & Hl & Hg); [lia..|].
  assert (length (mem g) = length l + length gap + length x) as Hm by (rewrite E; len).
  destruct (cut2 x 0 (text_length g - gap_off g)) as (e & r & tail & -> & He & Hr); [lia..|].
  destruct e; [|done]. rewrite app_nil_l in *.
  assert (rep g l r) as R by (exists gap, tail; split_and!; [done|lia..]).
  exists l, r. split; [done|]. by apply rep_contents.
Qed.

Lemma mem_copy_app (a b c d : bytes) src dst n x :
  dst = length a -> n = length b -> slice src (src + n) (a ++ b ++ c) = x ->
  mem_copy (a ++ b ++ c) src dst n = a ++ x ++ c.
Proof. intros -> -> E. unfold mem_copy. rewrite E. by apply splice_app. Qed.

Lemma move_gap_rep g l r off :
  rep g l r -> off <= length l + length r ->
  rep (move_gap g off) (take off (l ++ r)) (drop off (l ++ r)).
Proof.
  intros (gap & tail & E & Hl & Hg & Ht) Hoff. unfold move_gap, rep; cbn [mem gap_off gap_len text_length with_gap with_mem].
  assert (length (take off (l ++ r)) = off) as Hto by (rewrite length_take; len).
  assert (length (drop off (l ++ r)) = length l + length r - off) as Htd by (rewrite length_drop; len).
  destruct (Nat.ltb_spec 0 (gap_len g)) as [Hpos|Hz].
  2: { destruct gap; [|simpl in Hg; lia]. rewrite app_nil_l in E. exists [], tail. cbn [app].
       split_and!; [|done|done|lia].
       rewrite app_assoc, (take_drop off (l ++ r)), E, <- app_assoc. done. }
  destruct (Nat.ltb_spec off (gap_off g)) as [Hleft|Hright].
  - (* the text between [off] and the gap moves right *)
    destruct (cut2 l off (length l)) as (l1 & m & z & -> & Hl1 & Hm); [lia..|].
    assert (z = []) as -> by (destruct z; [done|rewrite !length_app in *; simpl in *; lia]).
    rewrite app_nil_r in *. rewrite length_app in *.
    destruct (cut2 (m ++ gap) 0 (gap_len g)) as (e & g1 & x & Eg & He & Hg1); [lia|len|].
    destruct e; [|done]. rewrite app_nil_l in Eg.
    assert (length x = length m) as Hx.
    { apply (f_equal length) in Eg. rewrite !length_app in Eg. lia. }
    exists g1, tail. rewrite <- app_assoc, take_app_len, drop_app_len by lia.
    split_and!; [|lia|lia|len].
    rewrite E. rewrite <- (app_assoc l1 m).
    replace (l1 ++ m ++ gap ++ r ++ tail) with ((l1 ++ g1) ++ x ++ (r ++ tail))
      by (rewrite <- !app_assoc; f_equal; rewrite (app_assoc g1 x), <- Eg, <- app_assoc; done).
    rewrite (mem_copy_app _ _ _ [] _ _ _ m); [by rewrite <- !app_assoc|len|lia|].
    rewrite <- app_assoc, (app_assoc g1 x), <- Eg, <- (app_assoc m gap).
    apply slice_app; len.
  - (* the text between the gap and [off] moves left *)
    destruct (cut2 r 0 (off - gap_off g)) as (e & m & r2 & -> & He & Hm); [lia|lia|].
    destruct e; [|done]. rewrite app_nil_l in *. rewrite length_app in *.
    destruct (cut2 (gap ++ m) 0 (length m)) as (e & x & g1 & Eg & He' & Hx); [lia|len|].
    destruct e; [|done]. rewrite app_nil_l in Eg.
    assert (length g1 = gap_len g) as Hg1.
    { apply (f_equal length) in Eg. rewrite !length_app in Eg. lia. }
    exists g1, tail. rewrite (app_assoc l m), take_app_len, drop_app_len by len.
    split_and!; [|len|lia|len].
    rewrite E. rewrite <- (app_assoc m r2).
    replace (l ++ gap ++ m ++ r2 ++ tail) with (l ++ x ++ (g1 ++ r2 ++ tail))
      by (f_equal; rewrite (app_assoc x g1), <- Eg, <- app_assoc; done).
    rewrite (mem_copy_app _ _ _ [] _ _ _ m); [by rewrite <- !app_assoc|lia|lia|].
    rewrite (app_assoc x g1), <- Eg, <- (app_assoc gap m), (app_assoc l gap).
    apply slice_app; len.
Qed.

Lemma delete_text_rep g l r n :
  rep g l r -> n <= length r -> rep (delete_text g n) l (drop n r).
Proof.
  intros (gap & tail & E & Hl & Hg & Ht) Hn. unfold delete_text, rep; cbn [mem gap_off gap_len text_length with_gap with_mem].
  exists (gap ++ take n r), tail. rewrite length_drop, length_app, length_take.
  split_and!; [|lia..]. rewrite E. f_equal. rewrite <- app_assoc. f_equal.
  by rewrite app_assoc, take_drop.
Qed.

Lemma enlarge_gap_rep g l r len :
  rep g l r ->
  gap_len g <= gap_len_for (fst (chunks g)) len ->
  text_length g + gap_len_for (fst (chunks g)) len <= commit g ->
  rep (enlarge_gap g len) l r /\ gap_len (enlarge_gap g len) = gap_len_for (fst (chunks g)) len.
Proof.
  intros (gap & tail & E & Hl & Hg & Ht) Hlen Hc. unfold enlarge_gap, rep, commit in *.
  destruct (chunks g) as [gc ac]; cbn [mem gap_off gap_len text_length with_gap with_mem fst] in *. set (n := gap_len_for gc len) in *. split; [|done].
  rewrite E in Hc |- *. rewrite !length_app in Hc.
  destruct (cut2 (gap ++ r ++ tail) n (n + length r)) as (g1 & x & t2 & Eg & Hg1 & Hx); [lia|len|].
  exists g1, t2. split_and!; [|done|lia|lia].
  rewrite Eg. replace (l ++ g1 ++ x ++ t2) with ((l ++ g1) ++ x ++ t2) by (by rewrite <- app_assoc).
  rewrite (mem_copy_app _ _ _ [] _ _ _ r); [by rewrite <- app_assoc|len|lia|].
  rewrite <- app_assoc, <- Eg, (app_assoc l gap). apply slice_app; len.
Qed.

Definition same_text (g g' : GapBuffer) : Prop :=
  reserve g' = reserve g /\ text_length g' = text_length g /\ gap_off g' = gap_off g /\
  gap_len g' = gap_len g /\ is_vm g' = is_vm g /\ exists extra, mem g' = mem g ++ extra.

Lemma same_text_rep g g' l r : same_text g g' -> rep g l r -> rep g' l r.
Proof.
  intros (_ & Ht & Ho & Hg & _ & ex & Em) (gap & tail & E & ? & ? & ?).
  exists gap, (tail ++ ex). rewrite Em, E, Ho, Hg, Ht. rewrite <- !app_assoc. done.
Qed.

Lemma same_text_refl g : same_text g g.
Proof. repeat split; try done. exists []. by rewrite app_nil_r. Qed.

Lemma same_text_commit g g' : same_text g g' -> commit g <= commit g'.
Proof. intros (_ & _ & _ & _ & _ & ex & Em). unfold commit. rewrite Em. len. Qed.

Lemma commit_to_spec g n : let '(g', ok) := commit_to g n in
  same_text g g' /\ (ok = true -> n <= commit g').
Proof.
  unfold commit_to. destruct (if is_vm (count_commit g) then _ else _).
  - split; [|intros _; unfold commit; cbn; rewrite length_app, length_replicate; lia].
    repeat split; try done. cbn. eauto.
  - split; [|done]. repeat split; try done. exists []. cbn. by rewrite app_nil_r.
Qed.

Lemma commit_for_gap_spec g len delete :
  is_vm g = true ->
  let '(g', ok) := commit_for_gap g len delete in
  same_text g g' /\
  (ok = true -> gap_len g + delete < len ->
   text_length g - delete + gap_len_for LARGE_GAP_CHUNK len <= commit g').
Proof.
  intros Hvm. unfold commit_for_gap, chunks. rewrite Hvm.
  destruct (Nat.ltb_spec (gap_len g + delete) len); [|split; [apply same_text_refl|lia]].
  destruct (Nat.ltb_spec (commit g) (text_length g - delete + gap_len_for LARGE_GAP_CHUNK len)) as [|Hle];
    [|split; [apply same_text_refl|done]].
  set (b := text_length g - delete + _) in *.
  destruct (Z.ltb_spec (reserve g) (mask (Z.of_nat b + LARGE_ALLOC_CHUNK - 1) LARGE_ALLOC_CHUNK));
    [split; [apply same_text_refl|done]|].
  pose proof (commit_to_spec g (Z.to_nat (mask (Z.of_nat b + LARGE_ALLOC_CHUNK - 1) LARGE_ALLOC_CHUNK))) as K.
  destruct (commit_to _ _) as [g' ok]. destruct K as [K1 K2]. split; [done|]. intros Hok _.
  specialize (K2 Hok). pose proof (mask_up_alloc (Z.of_nat b)). lia.
Qed.

(** Moving the gap keeps the store's sizes. *)
Lemma move_step g l r off :
  rep g l r -> off <= length l + length r ->
  let g' := if off =? gap_off g then g else move_gap g off in
  rep g' (take off (l ++ r)) (drop off (l ++ r)) /\ is_vm g' = is_vm g /\
  gap_len g' = gap_len g /\ text_length g' = text_length g /\ commit g' = commit g /\
  commit_calls g' = commit_calls g.
Proof.
  intros R Hoff. destruct (Nat.eqb_spec off (gap_off g)) as [E|E]; cbv zeta.
  - split_and!; try done. destruct R as (?&?&?&Hl&?&?).
    rewrite take_app_len, drop_app_len by lia. do 2 eexists; eauto.
  - split_and!; try done; [by apply move_gap_rep|].
    unfold move_gap, commit; cbn [mem with_gap with_mem]. case_match; [|done].
    unfold mem_copy. destruct R as (gp & tl & Em & ? & ? & ?).
    assert (length (mem g) = length l + length gp + length r + length tl) by (rewrite Em; len).
    destruct (Nat.ltb_spec off (gap_off g)); rewrite length_splice, length_slice by lia; lia.
Qed.

Lemma delete_step g l r delete :
  rep g l r -> delete <= length r ->
  let g' := if 0 <? delete then delete_text g delete else g in
  rep g' l (drop delete r) /\ is_vm g' = is_vm g /\ gap_len g' = gap_len g + delete /\
  text_length g' = text_length g - delete /\ commit g' = commit g /\ commit_calls g' = commit_calls g.
Proof.
  intros R Hd. destruct (Nat.ltb_spec 0 delete); cbv zeta.
  - split_and!; try done. by apply delete_text_rep.
  - assert (delete = 0) as -> by lia. rewrite drop_0. split_and!; try done; lia.
Qed.

Lemma enlarge_step g l r len :
  rep g l r -> is_vm g = true ->
  (gap_len g < len -> text_length g + gap_len_for LARGE_GAP_CHUNK len <= commit g) ->
  let g' := if gap_len g <? len then enlarge_gap g len else g in
  rep g' l r /\ is_vm g' = true /\ len <= gap_len g' /\ commit g' = commit g /\
  commit_calls g' = commit_calls g /\ gap_off g' = gap_off g.
Proof.
  intros R V Hc. destruct (Nat.ltb_spec (gap_len g) len) as [Hlt|Hge]; cbv zeta; [|by split_and!].
  specialize (Hc Hlt). pose proof (gap_len_for_ge len) as Hgl.
  assert (chunks g = (LARGE_GAP_CHUNK, LARGE_ALLOC_CHUNK)) as Hch by (unfold chunks; by rewrite V).
  destruct (enlarge_gap_rep g l r len R) as [R4 G4]; rewrite Hch in *; cbn [fst] in *; [lia..|].
  split_and!; try done; try lia; unfold enlarge_gap; rewrite Hch; try done.
  unfold commit, mem_copy; cbn [mem with_gap with_mem].
  destruct R as (gp & tl & Em & ? & ? & ?). unfold commit in Hc. rewrite Em in *.
  rewrite !length_app in Hc.
  rewrite length_splice, length_slice by len. len.
Qed.

Lemma allocate_gap_spec g off len delete :
  gap_wf g -> off + delete <= text_length g ->
  let '(g', ok) := allocate_gap g off len delete in
  gap_wf g' /\ commit g <= commit g' /\
  if ok then rep g' (take off (contents g)) (drop (off + delete) (contents g)) /\ len <= gap_len g' /\
    commit_calls g' = commit_calls (commit_for_gap g len delete).1
  else contents g' = contents g /\ (commit_for_gap g len delete).2 = false.
Proof.
  intros Hwf Hb. destruct (wf_rep g Hwf) as (l & r & R & Ec). destruct Hwf as (_ & _ & Hvm).
  unfold allocate_gap. rewrite (Nat.min_l off), (Nat.min_l delete) by lia.
  pose proof (commit_for_gap_spec g len delete Hvm) as K.
  destruct (commit_for_gap g len delete) as [g1 ok]. destruct K as [S K].
  pose proof (same_text_rep _ _ _ _ S R) as R1. pose proof (same_text_commit _ _ S) as Cg.
  assert (length l + length r = text_length g) as Htl by (destruct R as (?&?&?&?&?&?); lia).
  destruct S as (_ & Ht & Ho & Hg & Hvm1 & _). rewrite Hvm in Hvm1.
  destruct ok; cbn [negb fst snd].
  2: { split_and!; try done; [by eapply rep_wf|]. rewrite Ec. by apply rep_contents. }
  rewrite Ec.
  destruct (move_step g1 l r off R1 ltac:(lia)) as (R2 & V2 & G2 & T2 & C2 & N2).
  set (g2 := if off =? gap_off g1 then g1 else move_gap g1 off) in *. clearbody g2.
  destruct (delete_step g2 _ _ delete R2 ltac:(rewrite length_drop, length_app; lia)) as (R3 & V3 & G3 & T3 & C3 & N3).
  set (g3 := if 0 <? delete then delete_text g2 delete else g2) in *. clearbody g3.
  rewrite drop_drop in R3.
  destruct (enlarge_step g3 _ _ len R3 ltac:(congruence)) as (R4 & V4 & G4 & C4 & N4 & _).
  { intros. specialize (K eq_refl). lia. }
  set (g4 := if gap_len g3 <? len then enlarge_gap g3 len else g3) in *. clearbody g4.
  split_and!; [by eapply (rep_wf (bump_generation g4) _ _ R4)| |exact R4|exact G4|].
  - change (commit (bump_generation g4)) with (commit g4). lia.
  - change (commit_calls (bump_generation g4)) with (commit_calls g4). lia.
Qed.

Lemma allocate_gap_ok g off len delete :
  off + delete <= text_length g ->
  (allocate_gap g off len delete).2 = (commit_for_gap g len delete).2.
Proof.
  intros. unfold allocate_gap. rewrite (Nat.min_l off), (Nat.min_l delete) by lia.
  by destruct (commit_for_gap g len delete) as [? []].
Qed.

Lemma length_contents g : gap_wf g -> length (contents g) = text_length g.
Proof.
  intros Hwf. destruct (wf_rep g Hwf) as (l & r & R & ->). destruct R as (?&?&?&?&?&?). len.
Qed.

(** [replace] splices the text, or fails and leaves it alone; it never gives
    committed memory back, and its only commit is [commit_for_gap]'s. *)
Lemma replace_spec g s e src :
  gap_wf g -> s <= e -> e <= length (contents g) ->
  let '(g', ok) := replace g s e src in
  gap_wf g' /\ (contents g' = if ok then splice (contents g) s e src else contents g) /\
  commit g <= commit g' /\ ok = (commit_for_gap g (length src) (e - s)).2 /\
  (ok = true -> commit_calls g' = commit_calls (commit_for_gap g (length src) (e - s)).1).
Proof.
  intros Hwf Hse He.
  pose proof (length_contents g Hwf) as Hlen.
  unfold replace. pose proof (allocate_gap_spec g s (length src) (e - s) Hwf ltac:(lia)) as K.
  pose proof (allocate_gap_ok g s (length src) (e - s) ltac:(lia)) as Kok.
  destruct (allocate_gap g s (length src) (e - s)) as [g1 ok]. destruct K as (W & C & K). cbn [snd] in Kok.
  destruct ok; cbn [negb]; [|by destruct K]. destruct K as (R & Hgl & N). rewrite Nat.min_l by done.
  replace (s + (e - s)) with e in R by lia.
  destruct R as (gap & tail & Em & Hl & Hg & Ht). destruct W as (_ & _ & V).
  destruct (cut2 gap 0 (length src)) as (z & ga & gb & -> & Hz & Hga); [lia..|].
  destruct z; [|done]. rewrite app_nil_l in *. rewrite length_app in Hg.
  set (g2 := with_mem g1 _).
  assert (mem g2 = take s (contents g) ++ src ++ gb ++ drop e (contents g) ++ tail) as Em2.
  { unfold g2; cbn [mem with_mem]. rewrite Em, (take_ge src) by lia.
    rewrite <- (app_assoc ga gb). by rewrite splice_app by lia. }
  assert (rep (commit_gap g2 (length src)) (take s (contents g) ++ src) (drop e (contents g))) as R2.
  { exists gb, tail. cbn [mem gap_off gap_len text_length with_gap commit_gap].
    rewrite Em2, length_app. split_and!; [by rewrite <- app_assoc|cbn; lia..]. }
  split_and!; [by eapply rep_wf| | |done|done].
  - rewrite (rep_contents _ _ _ R2). unfold splice. by rewrite <- app_assoc.
  - unfold commit in *; cbn [mem with_gap commit_gap]. rewrite Em2. rewrite Em in C.
    rewrite !length_app in *. lia.
Qed.

(** Memory committed beforehand makes a replacement succeed with no commit. *)
Lemma commit_for_gap_room g len delete n :
  is_vm g = true ->
  len = 0 \/ (commit_needed (text_length g - delete) len = Some n /\ n <= commit g) ->
  commit_for_gap g len delete = (g, true).
Proof.
  intros V H. unfold commit_for_gap. destruct (Nat.ltb_spec (gap_len g + delete) len); [|done].
  destruct H as [->|[H Hn]]; [lia|]. unfold chunks. rewrite V.
  pose proof (commit_needed_ge _ _ _ H). by destruct (Nat.ltb_spec (commit g) (text_length g - delete + gap_len_for LARGE_GAP_CHUNK len)); [lia|].
Qed.

Lemma read_forward_spec g off :
  gap_wf g -> off < length (contents g) ->
  exists n, 0 < n /\ read_forward g off = take n (drop off (contents g)).
Proof.
  intros Hwf Hoff. pose proof (length_contents g Hwf) as Hlen.
  destruct (wf_rep g Hwf) as (l & r & (gap & tail & Em & Hl & Hg & Ht) & Ec).
  rewrite Ec in *. unfold read_forward. rewrite Nat.min_l by lia.
  destruct (Nat.ltb_spec off (gap_off g)) as [Hlt|Hge].
  - exists (gap_off g - off). split; [lia|]. unfold slice.
    replace (off + (gap_off g - off) - off) with (gap_off g - off) by lia.
    rewrite Em, (drop_app_le l), (drop_app_le l), (take_app_le (drop off l)), (take_app_le (drop off l)) by (rewrite ?length_drop; lia). done.
  - exists (text_length g - off). split; [lia|]. unfold slice.
    replace (off + gap_len g + (text_length g - off) - (off + gap_len g)) with (text_length g - off) by lia.
    rewrite Em, (app_assoc l gap), (drop_app_ge (l ++ gap)), (drop_app_ge l) by len.
    replace (off + gap_len g - length (l ++ gap)) with (off - length l) by len.
    rewrite (drop_app_le r), (take_app_le (drop _ r)) by len. done.
Qed.

Lemma gap_move_spec g off :
  gap_wf g ->
  let '(g', ok) := allocate_gap g off 0 0 in
  gap_wf g' /\ contents g' = contents g /\ ok = true.
Proof.
  intros Hwf. pose proof (length_contents g Hwf) as Hlen.
  assert (allocate_gap g off 0 0 = allocate_gap g (min off (text_length g)) 0 0) as ->.
  { unfold allocate_gap. by replace (min (min off (text_length g)) (text_length g)) with (min off (text_length g)) by lia. }
  pose proof (allocate_gap_spec g (min off (text_length g)) 0 0 Hwf ltac:(lia)) as K.
  pose proof (allocate_gap_ok g (min off (text_length g)) 0 0 ltac:(lia)) as Kok.
  rewrite (commit_for_gap_room g 0 0 0) in Kok by (first [by left | apply Hwf]).
  destruct (allocate_gap g _ 0 0) as [g' ok]. cbn [snd] in Kok. subst ok.
  destruct K as (W & _ & R & _). split_and!; [done| |done].
  rewrite (rep_contents _ _ _ R), Nat.add_0_r. apply take_drop.
Qed.

(** With the gap at the end one read returns the whole text. *)
Lemma gap_at_end_spec g :
  gap_wf g ->
  let '(g', _) := allocate_gap g (text_length g) 0 0 in
  gap_wf g' /\ contents g' = contents g /\ read_forward g' 0 = contents g /\
  commit g <= commit g' /\ commit_calls g' = commit_calls g.
Proof.
  intros Hwf. pose proof (length_contents g Hwf) as Hlen.
  pose proof (allocate_gap_spec g (text_length g) 0 0 Hwf ltac:(lia)) as K.
  pose proof (allocate_gap_ok g (text_length g) 0 0 ltac:(lia)) as Kok.
  rewrite (commit_for_gap_room g 0 0 0) in * by (first [by left | apply Hwf]).
  destruct (allocate_gap g (text_length g) 0 0) as [g' ok]. cbn [snd] in Kok. subst ok.
  destruct K as (W & C & R & _ & N). rewrite Nat.add_0_r, take_ge, drop_ge in R by lia.
  assert (contents g' = contents g) as Ec by (rewrite (rep_contents _ _ _ R); apply app_nil_r).
  split_and!; try done.
  destruct R as (gap & tail & Em & Hl & Hg & Ht). simpl in Ht. unfold read_forward.
  destruct (Nat.ltb_spec (min 0 (text_length g')) (gap_off g')).
  - rewrite Nat.min_l, Em by lia. rewrite <- (app_nil_l (contents g ++ _)).
    apply slice_app; simpl; lia.
  - assert (contents g = []) as -> by (apply nil_length_inv; lia).
    simpl in *. replace (text_length g' - _) with 0 by lia. unfold slice. rewrite Nat.add_0_r, Nat.sub_diag. done.
Qed.

Lemma ensure_commit_spec g n :
  gap_wf g ->
  let '(g', ok) := ensure_commit g n in
  gap_wf g' /\ contents g' = contents g /\ (ok = true -> n <= commit g').
Proof.
  intros Hwf. assert (is_vm g = true) as V by apply Hwf.
  unfold ensure_commit, chunks. rewrite V.
  destruct (Nat.leb_spec n (commit g)); [by split_and!|].
  destruct (USIZE_MAX <? _)%Z; [by split_and!|]. destruct (reserve g <? _)%Z; [by split_and!|].
  set (k := Z.to_nat _). pose proof (commit_to_spec g k) as K. destruct (commit_to g k) as [g' ok].
  destruct K as [S K]. destruct (wf_rep g Hwf) as (l & r & R & Ec).
  pose proof (same_text_rep _ _ _ _ S R) as R'.
  split_and!.
  - apply (rep_wf _ _ _ R'). by destruct S as (_ & _ & _ & _ & -> & _).
  - rewrite Ec. by apply rep_contents.
  - intros Hok. specialize (K Hok). pose proof (mask_up_alloc (Z.of_nat n)).
    unfold k in K. rewrite Z.add_sub_assoc in K. lia.
Qed.

(** No operation changes what was reserved. *)
Lemma commit_to_reserve g n : reserve (commit_to g n).1 = reserve g.
Proof. unfold commit_to. by case_match. Qed.

Lemma allocate_gap_reserve g off len delete : reserve (allocate_gap g off len delete).1 = reserve g.
Proof.
  unfold allocate_gap. set (d := min delete _).
  assert (reserve (commit_for_gap g len d).1 = reserve g) as E.
  { unfold commit_for_gap. destruct (chunks g). repeat case_match; try done. apply commit_to_reserve. }
  destruct (commit_for_gap g len d) as [g1 []]; cbn [fst negb] in *; [|done].
  unfold enlarge_gap, bump_generation. cbn [reserve]. repeat case_match; exact E.
Qed.

Lemma replace_reserve g s e src : reserve (replace g s e src).1 = reserve g.
Proof.
  unfold replace. pose proof (allocate_gap_reserve g s (length src) (e - s)) as E.
  by destruct (allocate_gap g s (length src) (e - s)) as [g1 []].
Qed.

Lemma ensure_commit_reserve g n : reserve (ensure_commit g n).1 = reserve g.
Proof. unfold ensure_commit. destruct (chunks g). repeat case_match; try done. apply commit_to_reserve. Qed.

Ltac store_ops := cbn [gs_new gs_len gs_read_forward gs_allocate_gap gs_replace gs_ensure_commit gs_commit_calls gap_store].

(** The buffers [new] makes keep their 4 GiB reservation; only those are a text's store. *)
Definition text_gap_wf (g : GapBuffer) : Prop := gap_wf g /\ reserve g = LARGE_CAPACITY.

#[export] Program Instance gap_store_laws : TextStoreLaws GapBuffer := {|
  gs_wf := text_gap_wf;
  gs_bytes := contents;
  gs_room g n := n <= commit g;
|}.
Next Obligation.
  store_ops. unfold GapBuffer_new. intros g. case_match; [|done]. intros [= <-].
  split; [|done]. repeat split; cbn; lia.
Qed.
Next Obligation. intros g [Hwf _]. symmetry. by apply length_contents. Qed.
Next Obligation. intros g off [Hwf _]. by apply read_forward_spec. Qed.
Next Obligation.
  store_ops. intros g [Hwf Hr]. pose proof (gap_at_end_spec g Hwf) as K.
  pose proof (allocate_gap_reserve g (text_length g) 0 0) as Er.
  destruct (allocate_gap _ _ _ _) as [g' ok]. cbn in Er. destruct K as (? & ? & ? & _). unfold text_gap_wf. rewrite Er. done.
Qed.
Next Obligation.
  store_ops. intros g s e src [Hwf Hr] H1 H2. pose proof (replace_spec g s e src Hwf H1 H2) as K.
  pose proof (replace_reserve g s e src) as Er.
  destruct (replace _ _ _ _). cbn in Er. destruct K as (? & ? & _). unfold text_gap_wf. rewrite Er. done.
Qed.
Next Obligation.
  store_ops. intros g s e src [Hwf _] H1 H2 Hroom. pose proof (replace_spec g s e src Hwf H1 H2) as K.
  rewrite (length_contents g Hwf) in *.
  assert (commit_for_gap g (length src) (e - s) = (g, true)) as E.
  { destruct Hroom as [->|(n & Hn & Hr)]; [apply (commit_for_gap_room g 0 _ 0); [apply Hwf|by left]|].
    apply (commit_for_gap_room _ _ _ n); [apply Hwf|by right]. }
  rewrite E in K. destruct (replace g s e src) as [g' ok]. destruct K as (_ & _ & C & -> & N).
  exists g'. split_and!; [done|by apply N|]. intros. lia.
Qed.
Next Obligation.
  store_ops. intros g n [Hwf Hr]. pose proof (ensure_commit_spec g n Hwf) as K.
  pose proof (ensure_commit_reserve g n) as Er. destruct (ensure_commit g n). cbn in Er.
  destruct K as (? & ? & ?). unfold text_gap_wf. rewrite Er. done.
Qed.
Next Obligation. simpl. lia. Qed.

(** ** The claims *)

(** A sequence of store operations, and what each does to a plain byte vector
    when it reports success. *)
Inductive store_op :=
| Replace (start stop : nat) (src : bytes)
| AllocateGap (off : nat)
| EnsureCommit (n : nat).

Definition op_ordered (o : store_op) : bool :=
  match o with Replace s e _ => s <=? e | _ => true end.

Definition store_step (g : GapBuffer) (o : store_op) : GapBuffer * bool :=
  match o with
  | Replace s e src => replace g s e src
  | AllocateGap off => allocate_gap g off 0 0
  | EnsureCommit n => ensure_commit g n
  end.

Fixpoint store_run (g : GapBuffer) (ops : list store_op) : GapBuffer * list bool :=
  match ops with
  | [] => (g, [])
  | o :: ops => let '(g, ok) := store_step g o in
                let '(g, oks) := store_run g ops in (g, ok :: oks)
  end.

Definition vec_step (t : bytes) (o : store_op) (ok : bool) : bytes :=
  match o, ok with
  | Replace s e src, true => splice t (min s (length t)) (min e (length t)) src
  | _, _ => t
  end.

Fixpoint vec_run (t : bytes) (ops : list store_op) (oks : list bool) : bytes :=
  match ops, oks with
  | o :: ops, ok :: oks => vec_run (vec_step t o ok) ops oks
  | _, _ => t
  end.

(** Out-of-range replacements are clamped to the text. *)
Lemma replace_clamp g s e src :
  s <= e -> replace g s e src = replace g (min s (text_length g)) (min e (text_length g)) src.
Proof.
  intros H. unfold replace, allocate_gap.
  replace (min (min s (text_length g)) (text_length g)) with (min s (text_length g)) by lia.
  replace (min (min e (text_length g) - min s (text_length g)) (text_length g - min s (text_length g)))
    with (min (e - s) (text_length g - min s (text_length g))) by lia.
  done.
Qed.

Lemma store_step_refines g o :
  gap_wf g -> op_ordered o = true ->
  gap_wf (store_step g o).1 /\
  contents (store_step g o).1 = vec_step (contents g) o (store_step g o).2.
Proof.
  intros Hwf Ho. pose proof (length_contents g Hwf) as Hl. destruct o as [s e src|off|n]; cbn [store_step vec_step op_ordered] in *.
  - apply Nat.leb_le in Ho. rewrite replace_clamp, Hl by done.
    pose proof (replace_spec g (min s (text_length g)) (min e (text_length g)) src Hwf) as K.
    destruct (replace _ _ _ _) as [g' ok]. destruct K as (? & ? & _); [lia..|]. by destruct ok.
  - pose proof (gap_move_spec g off Hwf) as K. destruct (allocate_gap g off 0 0) as [g' []]; naive_solver.
  - pose proof (ensure_commit_spec g n Hwf) as K. destruct (ensure_commit g n) as [g' []]; naive_solver.
Qed.

(** C29 The gap buffer refines a byte vector. From a well-formed buffer any
    sequence of replacements, gap moves and memory reservations, with whatever
    the operating system answers to each memory request, leaves a well-formed
    buffer whose text is the vector's after the operations that reported
    success; an operation that fails leaves the text alone. Every read then
    returns a non-empty run of that text from its offset. *)
Theorem gap_buffer_refines g ops :
  gap_wf g -> forallb op_ordered ops = true ->
  let '(g', oks) := store_run g ops in
  gap_wf g' /\ contents g' = vec_run (contents g) ops oks /\
  length oks = length ops /\ text_length g' = length (contents g') /\
  forall off, off < length (contents g') ->
    exists n, 0 < n /\ read_forward g' off = take n (drop off (contents g')).
Proof.
  revert g; induction ops as [|o ops IH]; intros g Hwf Ho; simpl in Ho |- *.
  - split_and!; [done..|by rewrite length_contents|]. intros off Hoff. by apply read_forward_spec.
  - apply andb_true_iff in Ho as [H1 H2]. destruct (store_step_refines g o Hwf H1) as [W E].
    destruct (store_step g o) as [g1 ok]. simpl in W, E. specialize (IH g1 W H2).
    destruct (store_run g1 ops) as [g2 oks]. rewrite <- E. simpl. naive_solver.
Qed.

(** Memory reserved ahead: once [ensure_commit] has succeeded for what
    [commit_needed] computes, the replacement succeeds and asks the operating
    system for nothing, so a transaction prepared this way cannot fail between
    two of its edits. *)
Theorem replace_after_reserve g g1 s e src n :
  gap_wf g -> s <= e -> e <= length (contents g) ->
  commit_needed (length (contents g) - (e - s)) (length src) = Some n ->
  ensure_commit g n = (g1, true) ->
  exists g2, replace g1 s e src = (g2, true) /\
    contents g2 = splice (contents g) s e src /\ commit_calls g2 = commit_calls g1.
Proof.
  intros Hwf H1 H2 Hn He. pose proof (ensure_commit_spec g n Hwf) as K. rewrite He in K.
  destruct K as (W & Ec & Hc). specialize (Hc eq_refl). rewrite <- Ec in *.
  pose proof (replace_spec g1 s e src W H1 H2) as R. rewrite (length_contents g1 W) in Hn.
  rewrite (commit_for_gap_room g1 (length src) (e - s) n) in R; [|apply W|by right].
  destruct (replace g1 s e src) as [g2 ok]. destruct R as (_ & E & _ & -> & N).
  exists g2. split_and!; [done|done|by apply N].
Qed.
End gap_buffer.

Definition sample_gap : GapBuffer := mkGap (replicate 64 x00) LARGE_CAPACITY 0 0 0 0 0 true.

Lemma gap_buffer_refines_witness :
  gap_wf sample_gap /\
  let ops := [EnsureCommit 100; Replace 0 0 [x61; x62]; Replace 1 9 [x63]; AllocateGap 0] in
  let '(g', oks) := store_run (fun _ n => n <? 2 ^ 17) (fun _ => true) sample_gap ops in
  contents g' = vec_run [] ops oks /\ contents g' = [x61; x63].
Proof.
  split; [split_and!; vm_compute; lia|]. cbv zeta.
  pose proof (gap_buffer_refines (fun _ => true) (fun _ n => n <? 2 ^ 17) (fun _ => true) sample_gap
    [EnsureCommit 100; Replace 0 0 [x61; x62]; Replace 1 9 [x63]; AllocateGap 0]) as K.
  destruct (store_run _ _ _ _) as [g' oks] eqn:E.
  assert (contents g' = [x61; x63]) as Ec by (change g' with (g', oks).1; rewrite <- E; vm_compute; reflexivity).
  destruct K as (_ & K & _); [split_and!; vm_compute; lia|done|].
  split; [exact K|exact Ec].
Defined.

Lemma replace_after_reserve_witness :
  exists g1 g2, ensure_commit (fun _ _ => true) (fun _ => true) sample_gap (2 ^ 16) = (g1, true) /\
    replace (fun _ _ => true) (fun _ => true) g1 0 0 [x61; x62] = (g2, true) /\
    contents g2 = [x61; x62] /\ commit_calls g2 = 1%Z.
Proof.
  destruct (ensure_commit (fun _ _ => true) (fun _ => true) sample_gap (2 ^ 16)) as [g1 ok] eqn:E.
  assert (ok = true) as -> by (apply (f_equal snd) in E; vm_compute in E; done).
  assert (commit_calls g1 = 1%Z) as N by (apply (f_equal (fun p => commit_calls p.1)) in E; vm_compute in E; done).
  destruct (replace_after_reserve (fun _ => true) (fun _ _ => true) (fun _ => true) sample_gap g1 0 0 [x61; x62] (2 ^ 16))
    as (g2 & R & C & K); [split_and!; vm_compute; lia|lia|vm_compute; lia|apply (bool_decide_unpack _); vm_compute; exact I|exact E|].
  exists g1, g2. split_and!; [done|done|done|congruence].
Defined.

(** ** A plain byte vector as a store *)

Record Flat := mkFlat { flat_bytes : bytes }.

#[export] Instance flat_store : TextStore Flat := {|
  gs_new := Some (mkFlat []);
  gs_len g := length (flat_bytes g);
  gs_read_forward g off := drop off (flat_bytes g);
  gs_allocate_gap g _ _ _ := (g, true);
  gs_replace g s e src := (mkFlat (splice (flat_bytes g) s e src), true);
  gs_ensure_commit g _ := (g, true);
  gs_commit_calls _ := 0%Z;
|}.

#[export] Program Instance flat_store_laws : TextStoreLaws Flat := {|
  gs_wf _ := True;
  gs_bytes := flat_bytes;
  gs_room _ _ := True;
|}.
Next Obligation. intros g [= <-]. done. Qed.
Next Obligation. done. Qed.
Next Obligation.
  intros g off _ Hoff. exists (length (flat_bytes g)). split; [lia|].
  cbn. symmetry. apply take_ge. rewrite length_drop. lia.
Qed.
Next Obligation. intros g _. cbn. done. Qed.
Next Obligation. intros. cbn. done. Qed.
Next Obligation. intros. cbn. eauto. Qed.
Next Obligation. intros. cbn. done. Qed.
Next Obligation. done. Qed.
