(* ===== verification/Memory.v ===== *)
(** * The memory a text asks for

    What a text within the limits of [buffer.rs] can ask of its store and of the
    heap, and the promise that it is given that much ([memory_granted]): the
    theorems that say an operation succeeds take this promise, never one about
    requests of any size, which no store keeps. The gap buffer keeps it when the
    operating system reserves its 4 GiB and commits up to [COMMIT_MAX] rounded to
    a chunk ([gap_memory]). *)

From S2P Require Import Prelude EditBase GapBuffer.

(** The largest commit [commit_needed] computes for a text of [MAX_BUFFER_BYTES]. *)
Definition COMMIT_MAX : Z := MAX_BUFFER_BYTES + 2 * LARGE_GAP_CHUNK + LARGE_ALLOC_CHUNK.

Record memory_granted (G : Type) {TS : TextStore G} {SL : TextStoreLaws G} (vec_reserve : nat -> nat -> bool) : Prop := {
  (** a vector of [a] line starts grows by [b] within [MAX_LINES] *)
  mg_vec a b : (Z.of_nat (a + b) <= MAX_LINES)%Z -> vec_reserve a b = true;
  mg_new : exists g : G, gs_new = Some g;
  mg_commit (g : G) n : gs_wf g -> (Z.of_nat n <= COMMIT_MAX)%Z -> (gs_ensure_commit g n).2 = true;
  mg_replace (g : G) s e src : gs_wf g -> s <= e -> e <= length (gs_bytes g) ->
    (Z.of_nat (length (gs_bytes g) - (e - s) + length src) <= MAX_BUFFER_BYTES)%Z -> (gs_replace g s e src).2 = true }.
Arguments mg_vec {G TS SL vec_reserve}.
Arguments mg_new {G TS SL vec_reserve}.
Arguments mg_commit {G TS SL vec_reserve}.
Arguments mg_replace {G TS SL vec_reserve}.

Lemma mask_up_alloc_le x : (mask (x + LARGE_ALLOC_CHUNK - 1) LARGE_ALLOC_CHUNK <= x + LARGE_ALLOC_CHUNK - 1)%Z.
Proof. change LARGE_ALLOC_CHUNK with (2 ^ 16)%Z. pose proof (mask_bounds (x + 2 ^ 16 - 1) 16 ltac:(lia)). lia. Qed.

Lemma gap_len_for_le n : (Z.of_nat (gap_len_for LARGE_GAP_CHUNK n) <= Z.of_nat n + 2 * LARGE_GAP_CHUNK)%Z.
Proof.
  unfold gap_len_for. change LARGE_GAP_CHUNK with (2 ^ 12)%Z.
  pose proof (mask_bounds (Z.of_nat n + 2 ^ 12 + 2 ^ 12 - 1) 12 ltac:(lia)). lia.
Qed.

Lemma commit_needed_le tl n k :
  commit_needed tl n = Some k -> (Z.of_nat (tl + n) <= MAX_BUFFER_BYTES)%Z -> (Z.of_nat k <= COMMIT_MAX)%Z.
Proof.
  unfold commit_needed, COMMIT_MAX. intros E L.
  pose proof (gap_len_for_le n) as B. unfold gap_len_for in B.
  replace (Z.of_nat n + LARGE_GAP_CHUNK + LARGE_GAP_CHUNK - 1)%Z with (Z.of_nat n + (2 * LARGE_GAP_CHUNK - 1))%Z in B by lia.
  set (x := mask (Z.of_nat n + _) LARGE_GAP_CHUNK) in *.
  repeat match type of E with context [if ?c then _ else _] => destruct c; [done|] end. injection E as <-.
  pose proof (mask_up_alloc_le (Z.of_nat tl + x)). rewrite Z.add_sub_assoc in *. unfold LARGE_ALLOC_CHUNK, LARGE_GAP_CHUNK, KIBI in *. lia.
Qed.

(** ** The gap buffer's promise *)

Section gap.
Context (virtual_reserve : Z -> bool) (virtual_commit : nat -> nat -> bool) (heap_reserve : nat -> bool).
Context (vec_reserve : nat -> nat -> bool).
Hypothesis reserves : virtual_reserve LARGE_CAPACITY = true.
Hypothesis commits : forall old n, (Z.of_nat (old + n) <= COMMIT_MAX + LARGE_ALLOC_CHUNK)%Z -> virtual_commit old n = true.
Hypothesis vectors : forall a b, (Z.of_nat (a + b) <= MAX_LINES)%Z -> vec_reserve a b = true.

Lemma commit_to_granted g n :
  is_vm g = true -> commit g <= n -> (Z.of_nat n <= COMMIT_MAX + LARGE_ALLOC_CHUNK)%Z ->
  (commit_to virtual_commit heap_reserve g n).2 = true.
Proof.
  intros V L B. unfold commit_to. cbn [is_vm count_commit]. rewrite V.
  replace (commit g + (n - commit g)) with n in * by lia.
  by rewrite (commits (commit g) (n - commit g)) by lia.
Qed.

Lemma capacity_enough x : (x <= COMMIT_MAX + LARGE_ALLOC_CHUNK)%Z -> (LARGE_CAPACITY <? x)%Z = false.
Proof. intros L. apply Z.ltb_ge. assert (COMMIT_MAX + LARGE_ALLOC_CHUNK < LARGE_CAPACITY)%Z by done. lia. Qed.

Lemma ensure_commit_granted g n :
  gap_wf g -> reserve g = LARGE_CAPACITY -> (Z.of_nat n <= COMMIT_MAX)%Z ->
  (ensure_commit virtual_commit heap_reserve g n).2 = true.
Proof.
  intros (_ & _ & V) R L. unfold ensure_commit, chunks. rewrite V, R.
  destruct (Nat.leb_spec n (commit g)); [done|].
  pose proof (mask_up_alloc_le (Z.of_nat n)) as U. pose proof (mask_up_alloc (Z.of_nat n)) as U'. rewrite Z.add_sub_assoc.
  assert (Z.of_nat n + LARGE_ALLOC_CHUNK - 1 <= USIZE_MAX)%Z as Hbig.
  { assert (COMMIT_MAX + LARGE_ALLOC_CHUNK <= USIZE_MAX)%Z by done. lia. }
  destruct (Z.ltb_spec USIZE_MAX (Z.of_nat n + LARGE_ALLOC_CHUNK - 1)); [lia|].
  rewrite capacity_enough by lia. apply commit_to_granted; lia || done.
Qed.

Lemma commit_for_gap_granted g len delete :
  gap_wf g -> reserve g = LARGE_CAPACITY ->
  (Z.of_nat (text_length g - delete + len) <= MAX_BUFFER_BYTES)%Z ->
  (commit_for_gap virtual_commit heap_reserve g len delete).2 = true.
Proof.
  intros (_ & _ & V) R L. unfold commit_for_gap, chunks. rewrite V, R.
  destruct (Nat.ltb_spec (gap_len g + delete) len); [|done].
  destruct (Nat.ltb_spec (commit g) (text_length g - delete + gap_len_for LARGE_GAP_CHUNK len)) as [Hlt|]; [|done].
  pose proof (gap_len_for_le len) as Gl. set (n := text_length g - delete + gap_len_for LARGE_GAP_CHUNK len) in *.
  pose proof (mask_up_alloc_le (Z.of_nat n)) as U. pose proof (mask_up_alloc (Z.of_nat n)) as U'.
  assert (mask (Z.of_nat n + LARGE_ALLOC_CHUNK - 1) LARGE_ALLOC_CHUNK <= COMMIT_MAX + LARGE_ALLOC_CHUNK)%Z as B by (unfold COMMIT_MAX; lia).
  rewrite capacity_enough by done. apply commit_to_granted; lia || done.
Qed.

(** A gap buffer is granted what a text within the limits asks for. *)
Lemma gap_memory :
  memory_granted GapBuffer (TS := gap_store virtual_reserve virtual_commit heap_reserve)
    (SL := gap_store_laws virtual_reserve virtual_commit heap_reserve) vec_reserve.
Proof.
  split.
  - exact vectors.
  - cbn. rewrite reserves. by eexists.
  - intros g n [W R] L. by apply ensure_commit_granted.
  - intros g s e src [W R] H1 H2 L. cbn in *. pose proof (replace_spec virtual_reserve virtual_commit heap_reserve g s e src W H1 H2) as K.
    rewrite (length_contents virtual_reserve g W) in *.
    destruct (replace _ _ _ _ _ _) as [g' ok]. destruct K as (_ & _ & _ & -> & _). cbn.
    by apply commit_for_gap_granted.
Qed.
End gap.
