(* ===== verification/Text.v ===== *)
(** * Text storage: a text store and its line index

    Models [cosmix-edit-core/src/text.rs] over the [TextStore] interface of
    [GapBuffer], with the part of [vendor/msedit/simd/lines_fwd.rs] that
    [Text::from_text] and [Text::append] use (its portable form). The heap's
    answers to [Vec::try_reserve] are a parameter. The scratch vector of the
    line index carries nothing from one call to the next and is a local
    variable here. *)

From S2P Require Import Prelude Utf8 EditBase Ot Anchor GapBuffer Memory.

(** ** Refusals *)

Definition oom : CoreError := CoreError_new ResourceLimit reason.OUT_OF_MEMORY.
Definition too_large : CoreError :=
  CoreError_with (CoreError_new ResourceLimit reason.TOO_LARGE) "limit" (CNum MAX_BUFFER_BYTES).
Definition too_many_lines : CoreError :=
  CoreError_with (CoreError_new ResourceLimit reason.TOO_MANY_LINES) "limit" (CNum MAX_LINES).
Definition overflow : CoreError := CoreError_new ResourceLimit reason.TOO_LARGE.
Definition internal : CoreError := mkCoreError Internal None [].

(** ** Line scanning *)

Definition count_newlines (s : bytes) : nat := length (filter (fun b => is_nl b = true) s).

(** [lines_fwd_fallback] from offset [off] of the haystack whose rest is [s]. *)
Fixpoint lines_fwd_fallback (s : bytes) (off line line_stop : nat) : nat * nat :=
  if line <? line_stop then
    match s with
    | [] => (off, line)
    | c :: s => let line := if is_nl c then S line else line in
                if is_nl c && (line =? line_stop) then (S off, line)
                else lines_fwd_fallback s (S off) line line_stop
    end
  else (off, line).

Definition lines_fwd (haystack : bytes) (offset line line_stop : nat) : nat * nat :=
  let offset := min offset (length haystack) in
  lines_fwd_fallback (drop offset haystack) offset line line_stop.

(** [slice::partition_point] on a partitioned slice. *)
Fixpoint partition_point (p : nat -> bool) (l : list nat) : nat :=
  match l with
  | [] => 0
  | x :: l => if p x then S (partition_point p l) else 0
  end.

(** A closure run over consecutive pieces until it returns [false]. *)
Fixpoint fold_stop {A} (f : A -> bytes -> A * bool) (a : A) (l : list bytes) : A :=
  match l with
  | [] => a
  | x :: l => let '(a, go) := f a x in if go then fold_stop f a l else a
  end.

Record Simulation := mkSim {
  required_commit : nat;
  peak_len : nat;
  peak_lines : nat;
  final_len : nat;
  final_lines : nat;
  max_insert_lines : nat;
}.

Record Prepared := mkPrepared {
  p_sequence : list Edit;
  p_peak_len : nat;
  p_peak_lines : nat;
  p_final_len : nat;
  p_final_lines : nat;
}.

(** [starts.copy_within(a..b, dst)] *)
Definition copy_within (l : list nat) (a b dst : nat) : list nat :=
  splice l dst (dst + (b - a)) (slice a b l).

(** [Vec::resize(n, 0)] *)
Definition resize0 (l : list nat) (n : nat) : list nat := take n l ++ replicate (n - length l) 0.

(** [Text::splice_lines] on the vector of line starts. *)
Definition splice_lines (starts : list nat) (offset stop : nat) (insert : bytes) : list nat :=
  let scratch := omap (fun ib => if is_nl ib.2 then Some (as_u32 (offset + ib.1 + 1)) else None)
                      (imap pair insert) in
  let lo := partition_point (fun s => s <=? offset) starts in
  let hi := partition_point (fun s => s <=? stop) starts in
  let old_len := length starts in
  let removed := hi - lo in
  let added := length scratch in
  let new_len := old_len - removed + added in
  let starts :=
    if removed <? added then copy_within (resize0 starts new_len) hi old_len (lo + added)
    else take new_len (copy_within starts hi old_len (lo + added)) in
  let starts := splice starts lo (lo + added) scratch in
  let delete := stop - offset in
  let ins := length insert in
  take (lo + added) starts ++ map (fun s => as_u32 (s - delete + ins)) (drop (lo + added) starts).

(** ** The text *)

Record Text (G : Type) := mkText { gap : G; starts : list nat }.
Arguments mkText {G}.
Arguments gap {G}.
Arguments starts {G}.

Section text.
Context {G : Type} {TS : TextStore G} (vec_reserve : nat -> nat -> bool).

Definition Text_new : res (Text G) :=
  match gs_new with Some g => Ok (mkText g [0]) | None => Err oom end.

(** The line scan of [from_text] and [append]: [have] line starts exist before
    [starts], offsets are relative to [base]. *)
Fixpoint scan_lines (fuel : nat) (text : bytes) (off have base : nat) (starts : list nat) : res (list nat) :=
  match fuel with
  | 0 => Ok starts
  | S fuel =>
    if off <? length text then
      let '(next, found) := lines_fwd text off 0 1 in
      if found =? 0 then Ok starts
      else if (MAX_LINES <=? Z.of_nat (have + length starts))%Z then Err too_many_lines
      else if negb (vec_reserve (length starts) 1) then Err oom
      else scan_lines fuel text next have base (starts ++ [as_u32 (base + next)])
    else Ok starts
  end.

Definition from_text (text : bytes) : res (Text G) :=
  if exceeds (length text) MAX_BUFFER_BYTES then Err too_large else
  let? starts := scan_lines (S (length text)) text 0 0 0 [0] in
  let? t := Text_new in
  let '(g, ok) := gs_replace (gap t) 0 0 text in
  if negb ok then Err oom else Ok (mkText g starts).

Definition len (t : Text G) : nat := gs_len (gap t).

Definition append (t : Text G) (text : bytes) : Text G * res unit :=
  let base := len t in
  let total := base + length text in
  if exceeds total MAX_BUFFER_BYTES then (t, Err too_large) else
  match scan_lines (S (length text)) text 0 (length (starts t)) base [] with
  | Err e => (t, Err e)
  | Ok new =>
    if negb (vec_reserve (length (starts t)) (length new)) then (t, Err oom) else
    let '(g, ok) := gs_replace (gap t) base base text in
    if negb ok then (mkText g (starts t), Err oom)
    else (mkText g (starts t ++ new), Ok tt)
  end.

Definition line_count (t : Text G) : nat := length (starts t).

Definition line_start (t : Text G) (line : nat) : option nat :=
  match line with 0 => None | S i => starts t !! i end.

Definition line_end (t : Text G) (line : nat) : option nat :=
  match line_start t line with
  | None => None
  | Some _ => Some (match starts t !! line with Some next => next - 1 | None => len t end)
  end.

Definition line_range (t : Text G) (line : nat) : option (nat * nat) :=
  match line_start t line, line_end t line with
  | Some s, Some e => Some (s, e)
  | _, _ => None
  end.

Definition chunk_at (t : Text G) (offset : nat) : bytes :=
  if len t <=? offset then [] else gs_read_forward (gap t) offset.

Definition byte_at (t : Text G) (offset : nat) : option byte :=
  if len t <=? offset then None else head (gs_read_forward (gap t) offset).

Definition is_char_boundary (t : Text G) (offset : nat) : bool :=
  match byte_at t offset with
  | Some b => negb (is_continuation b)
  | None => offset =? len t
  end.

Definition line_index_of (t : Text G) (offset : nat) : nat :=
  partition_point (fun s => s <=? offset) (starts t) - 1.

(** The pieces [for_each_str] hands to its closure between [off] and [stop];
    [carry] is a scalar the gap has split. *)
Fixpoint str_pieces (fuel : nat) (g : G) (off stop : nat) (carry : bytes) : list bytes :=
  match fuel with
  | 0 => []
  | S fuel =>
    if off <? stop then
      let chunk := gs_read_forward g off in
      let rest := take (min (length chunk) (stop - off)) chunk in
      let off := off + length rest in
      let whole rest :=
        let v := valid_up_to rest in
        (if v =? 0 then [] else [take v rest]) ++ str_pieces fuel g off stop (take 4 (drop v rest)) in
      match carry with
      | [] => whole rest
      | lead :: _ =>
        let want := utf8_len lead in
        let n := min (want - length carry) (length rest) in
        let carry := carry ++ take n rest in
        let rest := drop n rest in
        if length carry <? want then str_pieces fuel g off stop carry
        else (if from_utf8_ok carry then [carry] else []) ++ whole rest
      end
    else []
  end.

(** Every turn of the loop reads at least one byte, so the text's length is
    fuel enough ([str_pieces_exact]). *)
Definition for_each_str {A} (t : Text G) (a b : nat) (f : A -> bytes -> A * bool) (x : A) : A :=
  let stop := min b (len t) in
  let off := min a stop in
  fold_stop f x (str_pieces (stop - off) (gap t) off stop []).

Definition point (t : Text G) (offset : nat) : Point :=
  let offset := min offset (len t) in
  let li := line_index_of t offset in
  let start := default 0 (starts t !! li) in
  let col := for_each_str t start offset (fun col s => (col + length (chars s), true)) 1 in
  mkPoint offset (li + 1) col.

Definition newlines_in (t : Text G) (a b : nat) : nat :=
  partition_point (fun s => s <=? b) (starts t) - partition_point (fun s => s <=? a) (starts t).

Definition starts_in (t : Text G) (a b : nat) : list nat :=
  let lo := partition_point (fun s => s <=? a) (starts t) in
  let hi := partition_point (fun s => s <=? b) (starts t) in
  slice lo hi (starts t).

Definition read (t : Text G) (a b : nat) (out : bytes) : bytes :=
  for_each_str t a b (fun out s => (out ++ s, true)) out.

Definition contiguous (t : Text G) : Text G * bytes :=
  let '(g, _) := gs_allocate_gap (gap t) (gs_len (gap t)) 0 0 in
  let bytes := gs_read_forward g 0 in
  (mkText g (starts t), if from_utf8_ok bytes then bytes else []).

Definition to_string_lossless (t : Text G) : bytes := read t 0 (len t) [].

(** The closure of [line_col_offset]: the scalars of one piece. *)
Fixpoint col_walk (cs : list bytes) (i : nat) (remaining : nat) : nat * option nat :=
  match cs with
  | [] => (remaining, None)
  | c :: cs => if remaining =? 0 then (0, Some i) else col_walk cs (i + length c) (remaining - 1)
  end.

Definition col_step (st : nat * nat) (s : bytes) : (nat * nat) * bool :=
  let '(remaining, off) := st in
  match col_walk (chars s) 0 remaining with
  | (remaining, Some i) => ((remaining, off + i), false)
  | (remaining, None) => ((remaining, off + length s), 0 <? remaining)
  end.

Definition line_col_offset (t : Text G) (line col : nat) : option nat :=
  match line_start t line, line_end t line with
  | Some start, Some stop =>
    if col =? 0 then None else
    let remaining := col - 1 in
    if remaining =? 0 then Some start else
    let '(remaining, off) := for_each_str t start stop col_step (remaining, start) in
    if remaining =? 0 then Some off else None
  | _, _ => None
  end.

(** ** Two-phase application *)

Record sim_state := mkSimState { s_len : nat; s_lines : nat; s_prev : Z; s_sim : Simulation }.

Definition simulate_step (t : Text G) (st : sim_state) (e : Edit) : res sim_state :=
  let sim := s_sim st in
  let? stop := ok_or (checked_add (e_offset e) (e_delete e)) overflow in
  if (s_prev st <? Z.of_nat stop)%Z || (len t <? stop) then Err internal else
  if negb (is_char_boundary t (e_offset e)) || negb (is_char_boundary t stop) then Err internal else
  let? after_delete := ok_or (checked_sub (s_len st) (e_delete e)) overflow in
  let? required :=
    (if length (e_insert e) =? 0 then Ok (required_commit sim)
     else let? need := ok_or (commit_needed after_delete (length (e_insert e))) overflow in
          Ok (max (required_commit sim) need)) in
  let? len' := ok_or (checked_add after_delete (length (e_insert e))) overflow in
  let ins_lines := count_newlines (e_insert e) in
  let? kept := ok_or (checked_sub (s_lines st) (newlines_in t (e_offset e) stop)) overflow in
  let? lines' := ok_or (checked_add kept ins_lines) overflow in
  Ok (mkSimState len' lines' (Z.of_nat (e_offset e))
       (mkSim required (max (peak_len sim) len') (max (peak_lines sim) lines')
          (final_len sim) (final_lines sim) (max (max_insert_lines sim) ins_lines))).

Definition simulate (t : Text G) (sequence : list Edit) : res Simulation :=
  let len0 := len t in
  let lines0 := line_count t in
  let? st := foldM_res (simulate_step t)
    (mkSimState len0 lines0 USIZE_MAX (mkSim 0 len0 lines0 len0 lines0 0)) sequence in
  let sim := mkSim (required_commit (s_sim st)) (peak_len (s_sim st)) (peak_lines (s_sim st))
               (s_len st) (s_lines st) (max_insert_lines (s_sim st)) in
  if exceeds (peak_len sim) MAX_BUFFER_BYTES then Err too_large
  else if exceeds (peak_lines sim) MAX_LINES then Err too_many_lines
  else Ok sim.

Definition prepare (t : Text G) (sequence : list Edit) : Text G * res Prepared :=
  match simulate t sequence with
  | Err e => (t, Err e)
  | Ok sim =>
    let '(g, ok) := gs_ensure_commit (gap t) (required_commit sim) in
    let t := mkText g (starts t) in
    if negb ok then (t, Err oom)
    else if negb (vec_reserve (length (starts t)) (peak_lines sim - length (starts t))) then (t, Err oom)
    else if negb (vec_reserve 0 (max_insert_lines sim)) then (t, Err oom)
    else (t, Ok (mkPrepared sequence (peak_len sim) (peak_lines sim) (final_len sim) (final_lines sim)))
  end.

(** [None] is the [assert!] that the replacement succeeded. *)
Fixpoint commit_sequence (t : Text G) (sequence : list Edit) : option (Text G) :=
  match sequence with
  | [] => Some t
  | e :: sequence =>
    let stop := e_offset e + e_delete e in
    let '(g, ok) := gs_replace (gap t) (e_offset e) stop (e_insert e) in
    if negb ok then None
    else commit_sequence (mkText g (splice_lines (starts t) (e_offset e) stop (e_insert e))) sequence
  end.

Definition commit (t : Text G) (prepared : Prepared) : option (Text G) :=
  commit_sequence t (p_sequence prepared).
End text.

(** ** Line starts *)

(** The offsets after each newline of [s], which starts at [base]. *)
Fixpoint newline_starts (base : nat) (s : bytes) : list nat :=
  match s with
  | [] => []
  | b :: s => if is_nl b then S base :: newline_starts (S base) s else newline_starts (S base) s
  end.

Definition line_starts (s : bytes) : list nat := 0 :: newline_starts 0 s.

Lemma newline_starts_app base a b :
  newline_starts base (a ++ b) = newline_starts base a ++ newline_starts (base + length a) b.
Proof.
  revert base; induction a as [|x a IH]; intros base; simpl; [by rewrite Nat.add_0_r|].
  rewrite IH. replace (base + S (length a)) with (S base + length a) by lia. by destruct (is_nl x).
Qed.

Lemma length_newline_starts base s : length (newline_starts base s) = count_newlines s.
Proof.
  revert base; unfold count_newlines; induction s as [|x s IH]; intros base; simpl; [done|].
  rewrite filter_cons. destruct (is_nl x); simpl; by rewrite IH.
Qed.

Lemma length_line_starts s : length (line_starts s) = S (count_newlines s).
Proof. simpl. by rewrite length_newline_starts. Qed.

Lemma count_newlines_app a b : count_newlines (a ++ b) = count_newlines a + count_newlines b.
Proof. unfold count_newlines. rewrite filter_app. len. Qed.

Lemma newline_starts_bounds base s : Forall (fun x => base < x <= base + length s) (newline_starts base s).
Proof.
  revert base; induction s as [|x s IH]; intros base; simpl; [constructor|].
  destruct (is_nl x); repeat constructor; try lia;
    (eapply Forall_impl; [apply IH|]; simpl; lia).
Qed.

Lemma newline_starts_shift base k s :
  newline_starts (base + k) s = map (fun x => x + k) (newline_starts base s).
Proof.
  revert base; induction s as [|x s IH]; intros base; simpl; [done|].
  change (S (base + k)) with (S base + k). rewrite IH. by destruct (is_nl x).
Qed.

Lemma partition_point_app p a b :
  Forall (fun x => p x = true) a -> Forall (fun x => p x = false) b ->
  partition_point p (a ++ b) = length a.
Proof.
  intros Ha Hb. induction Ha as [|x a Hx Ha IH]; simpl; [|by rewrite Hx, IH].
  destruct Hb as [|y b Hy]; simpl; [done|]. by rewrite Hy.
Qed.

(** The number of line starts at or before the end of [a]. *)
Lemma partition_line_starts a b o :
  o = length a ->
  partition_point (fun s => s <=? o) (line_starts (a ++ b)) = S (count_newlines a).
Proof.
  intros ->. unfold line_starts. rewrite newline_starts_app, app_comm_cons, partition_point_app.
  - simpl. by rewrite length_newline_starts.
  - constructor; [done|]. eapply Forall_impl; [apply newline_starts_bounds|]. simpl; lia.
  - eapply Forall_impl; [apply newline_starts_bounds|]. simpl; lia.
Qed.

Lemma scratch_newline_starts_gen offset s f k :
  (Z.of_nat (offset + k + length s) < 2 ^ 32)%Z -> (forall i b, f i b = (k + i, b)) ->
  omap (fun ib => if is_nl ib.2 then Some (as_u32 (offset + ib.1 + 1)) else None) (imap f s)
  = newline_starts (offset + k) s.
Proof.
  revert f k; induction s as [|x s IH]; intros f k Hb Hf; [done|]. cbn [length] in Hb.
  rewrite imap_cons. cbn [newline_starts]. rewrite Hf, Nat.add_0_r.
  specialize (IH (f ∘ S) (S k) ltac:(lia)). rewrite Nat.add_succ_r in IH.
  rewrite <- IH by (intros; unfold compose; rewrite Hf; f_equal; lia).
  cbn. destruct (is_nl x); [|done]. f_equal. rewrite as_u32_id by lia. lia.
Qed.

Lemma scratch_newline_starts offset s :
  (Z.of_nat (offset + length s) < 2 ^ 32)%Z ->
  omap (fun ib => if is_nl ib.2 then Some (as_u32 (offset + ib.1 + 1)) else None) (imap pair s)
  = newline_starts offset s.
Proof.
  intros. rewrite (scratch_newline_starts_gen offset s pair 0); [by rewrite Nat.add_0_r|lia|done].
Qed.

Lemma resize0_grow l n : length l <= n -> resize0 l n = l ++ replicate (n - length l) 0.
Proof. intros. unfold resize0. by rewrite take_ge by lia. Qed.

(** The in-place splice of a vector whose parts are [p], [m] and [q]. *)
Lemma copy_within_splice (p m q sc : list nat) :
  let lo := length p in let hi := length p + length m in
  let old := length p + length m + length q in
  let new_len := old - (hi - lo) + length sc in
  splice (if hi - lo <? length sc then copy_within (resize0 (p ++ m ++ q) new_len) hi old (lo + length sc)
          else take new_len (copy_within (p ++ m ++ q) hi old (lo + length sc)))
    lo (lo + length sc) sc = p ++ sc ++ q.
Proof.
  cbv zeta. replace (length p + length m - length p) with (length m) by lia.
  replace (length p + length m + length q - length m + length sc) with (length p + length sc + length q) by lia.
  assert (forall x, length x = length sc -> splice (p ++ x ++ q) (length p) (length p + length sc) sc = p ++ sc ++ q) as K.
  { intros x Hx. apply splice_app; lia. }
  unfold copy_within. replace (length p + length m + length q - (length p + length m)) with (length q) by lia.
  destruct (Nat.ltb_spec (length m) (length sc)) as [Hlt|Hge].
  - rewrite resize0_grow by len. rewrite <- !app_assoc.
    set (z := replicate _ 0). assert (length z = length sc - length m) as Hz by (unfold z; rewrite length_replicate; len).
    replace (slice _ _ (p ++ m ++ q ++ z)) with q
      by (symmetry; rewrite (app_assoc p m); apply slice_app; len).
    destruct (cut2 (m ++ q ++ z) (length sc) (length sc + length q)) as (x & y & w & E & Hx & Hy); [len..|].
    assert (w = []) as -> by (apply nil_length_inv; apply (f_equal length) in E; len).
    rewrite E, (app_assoc p x), splice_app, <- app_assoc, app_nil_r by len. by apply K.
  - replace (slice _ _ (p ++ m ++ q)) with q
      by (symmetry; rewrite app_assoc, <- (app_nil_r ((p ++ m) ++ q)), <- app_assoc; apply slice_app; len).
    destruct (cut2 (m ++ q) (length sc) (length sc + length q)) as (x & y & w & E & Hx & Hy); [len..|].
    rewrite E, (app_assoc p x), splice_app by len.
    rewrite app_assoc, take_app_len by len. rewrite <- app_assoc. by apply K.
Qed.

(** One spliced edit of the line index gives the line starts of the spliced
    text. *)
Lemma splice_lines_exact (a b c ins : bytes) :
  (Z.of_nat (length a + length ins + length c) < 2 ^ 32)%Z ->
  splice_lines (line_starts (a ++ b ++ c)) (length a) (length a + length b) ins
  = line_starts (a ++ ins ++ c).
Proof.
  intros Hb. unfold splice_lines. rewrite (scratch_newline_starts) by lia.
  rewrite (partition_line_starts a (b ++ c)), (app_assoc a b c), (partition_line_starts (a ++ b) c), <- (app_assoc a b c)
    by len.
  set (p := line_starts a). set (m := newline_starts (length a) b).
  set (q := newline_starts (length a + length b) c). set (sc := newline_starts (length a) ins).
  assert (line_starts (a ++ b ++ c) = p ++ m ++ q) as E by (unfold line_starts; by rewrite !newline_starts_app).
  assert (S (count_newlines a) = length p) as -> by (unfold p; simpl; by rewrite length_newline_starts).
  assert (S (count_newlines (a ++ b)) = length p + length m) as ->.
  { unfold p, m. simpl. rewrite !length_newline_starts, count_newlines_app. lia. }
  rewrite E. replace (length (p ++ m ++ q)) with (length p + length m + length q) by len.
  rewrite copy_within_splice. rewrite app_assoc, take_app_len, drop_app_len by len.
  replace (length a + length b - length a) with (length b) by lia.
  unfold line_starts. rewrite !newline_starts_app, Nat.add_0_l, <- app_assoc. unfold p, line_starts.
  rewrite <- app_comm_cons. do 3 f_equal.
  unfold q. assert (newline_starts (length a + length ins) c = map (fun x => x + (length a + length ins)) (newline_starts 0 c)) as ->.
  { by rewrite <- newline_starts_shift. }
  replace (newline_starts (length a + length b) c) with (map (fun x => x + (length a + length b)) (newline_starts 0 c))
    by (by rewrite <- newline_starts_shift).
  rewrite map_map. apply map_ext_Forall.
  eapply Forall_impl; [apply newline_starts_bounds|]. simpl. intros x Hx. rewrite as_u32_id by lia. lia.
Qed.

Lemma splice_lines_apply s e :
  edit_in s e -> (Z.of_nat (length (apply_edit s e)) < 2 ^ 32)%Z ->
  splice_lines (line_starts s) (e_offset e) (e_offset e + e_delete e) (e_insert e) = line_starts (apply_edit s e).
Proof.
  unfold edit_in, apply_edit. intros Hin Hlen.
  destruct (cut2 s (e_offset e) (e_offset e + e_delete e)) as (a & b & c & -> & Ha & Hb); [lia..|].
  rewrite splice_app in * by lia. rewrite !length_app in Hlen.
  replace (e_offset e + e_delete e) with (length a + length b) by lia. rewrite <- Ha.
  apply splice_lines_exact. lia.
Qed.

(** ** Reading *)

(** The bytes of a scalar whose rest has not been read yet. *)
Definition carry_ok (carry : bytes) : Prop :=
  match carry with [] => True | lead :: _ => length carry < utf8_len lead end.

Lemma carry_head carry r :
  carry_ok carry -> carry <> [] -> utf8 (carry ++ r) ->
  exists x y, r = x ++ y /\ scalar (carry ++ x) = true /\ x <> [] /\ utf8 y /\
    match carry with [] => True | lead :: _ => utf8_len lead = length (carry ++ x) end.
Proof.
  intros Hc Hne Hu. destruct carry as [|lead carry]; [done|]. cbn [carry_ok] in Hc.
  inversion Hu as [|c s Hs Hus E]. destruct (scalar_inv c Hs) as (b0 & t & -> & _ & _ & Hl).
  assert (b0 = lead) as -> by (simpl in E; congruence). rewrite Hl in *.
  destruct (app_eq_inv (lead :: t) s (lead :: carry) r E) as [[k [E1 E2]]|[k [E1 E2]]].
  - exists k, s. rewrite <- E1. split_and!; try done.
    intros ->. rewrite app_nil_r in E1. rewrite E1 in Hc. lia.
  - rewrite E1 in Hc. len.
Qed.

(** What [for_each_str] does with a chunk: its whole scalars, and a carry. *)
Lemma whole_spec rest r :
  utf8 (rest ++ r) ->
  let v := valid_up_to rest in
  utf8 (take v rest) /\ take 4 (drop v rest) = drop v rest /\
  carry_ok (drop v rest) /\ utf8 (drop v rest ++ r).
Proof.
  intros Hu v. destruct (valid_up_to_spec rest) as [Hv Hle]. fold v in Hv, Hle.
  assert (utf8 (drop v rest ++ r)) as Hd.
  { apply (utf8_app_inv (take v rest)); [done|]. by rewrite app_assoc, take_drop. }
  assert (valid_up_to (drop v rest) = 0) as H0.
  { assert (v = valid_up_to (take v rest ++ drop v rest)) as E by (by rewrite take_drop).
    rewrite valid_up_to_utf8, length_take in E by done. lia. }
  assert (carry_ok (drop v rest)) as Hc.
  { destruct (drop v rest) as [|lead tl]; [done|]. cbn [carry_ok].
    inversion Hd as [|c s Hs Hus E]. pose proof (scalar_length c Hs).
    destruct (scalar_inv c Hs) as (b0 & t & -> & _ & _ & Hl).
    assert (b0 = lead) as -> by (simpl in E; congruence). rewrite Hl.
    destruct (decide (length (lead :: t) <= length (lead :: tl))) as [Hge|]; [|lia]. exfalso.
    destruct (app_eq_inv (lead :: t) s (lead :: tl) r E) as [[k [E1 E2]]|[k [E1 E2]]].
    - assert (k = []) as -> by (apply nil_length_inv; rewrite E1 in Hge; len).
      rewrite app_nil_r in E1. rewrite <- (app_nil_r (lead :: tl)), <- E1, valid_up_to_scalar in H0 by done. lia.
    - rewrite E1, valid_up_to_scalar in H0 by done. lia. }
  split_and!; try done. apply take_ge. destruct (drop v rest) as [|lead tl]; [simpl; lia|].
  cbn [carry_ok] in Hc. assert (utf8_len lead <= 4) by (unfold utf8_len; repeat case_match; lia). lia.
Qed.

(** One turn of the loop, when its later turns ([next]) do their part. *)
Lemma whole_pieces (next : bytes -> list bytes) rest r :
  (forall carry, utf8 (carry ++ r) -> carry_ok carry ->
     concat (next carry) = carry ++ r /\ Forall utf8 (next carry)) ->
  utf8 (rest ++ r) ->
  let v := valid_up_to rest in
  let ps := (if v =? 0 then [] else [take v rest]) ++ next (take 4 (drop v rest)) in
  concat ps = rest ++ r /\ Forall utf8 ps.
Proof.
  intros Hn Hu. destruct (whole_spec rest r Hu) as (W1 & W2 & W3 & W4). cbv zeta. rewrite W2.
  destruct (Hn (drop (valid_up_to rest) rest)) as [E F]; [done..|]. rewrite concat_app, E. split.
  - rewrite app_assoc. f_equal. destruct (Nat.eqb_spec (valid_up_to rest) 0) as [->|]; [done|].
    simpl. by rewrite app_nil_r, take_drop.
  - apply Forall_app. split; [case_match; by repeat constructor|done].
Qed.

(** ** Lines of a text *)

(** Line [i] (from 0) of [s] is [l], between [p] and [r]. *)
Record line_at (s : bytes) (i : nat) (p l r : bytes) : Prop := {
  la_text : s = p ++ l ++ r;
  la_index : count_newlines p = i;
  la_start : p = [] \/ exists p', p = p' ++ [NL];
  la_clean : count_newlines l = 0;
  la_stop : r = [] \/ exists r', r = NL :: r';
}.

Lemma is_nl_eq b : is_nl b = true -> b = NL.
Proof. intros. by apply Byte.byte_dec_bl. Qed.

Lemma count_newlines_cons b s : count_newlines (b :: s) = (if is_nl b then 1 else 0) + count_newlines s.
Proof. unfold count_newlines. rewrite filter_cons. by destruct (is_nl b). Qed.

(** Every text splits at its first and at its last newline. *)
Lemma split_first_nl s :
  exists l r, s = l ++ r /\ count_newlines l = 0 /\ (r = [] \/ exists r', r = NL :: r').
Proof.
  induction s as [|b s (l & r & -> & Hl & Hr)]; [exists [], []; eauto|].
  destruct (is_nl b) eqn:Eb.
  - apply is_nl_eq in Eb as ->. exists [], (NL :: l ++ r). eauto.
  - exists (b :: l), r. split_and!; [done| |done]. rewrite count_newlines_cons, Eb. lia.
Qed.

Lemma split_last_nl s :
  exists p l, s = p ++ l /\ count_newlines l = 0 /\ (p = [] \/ exists p', p = p' ++ [NL]).
Proof.
  induction s as [|b s IH] using rev_ind; [exists [], []; eauto|]. destruct IH as (p & l & -> & Hl & Hp).
  destruct (is_nl b) eqn:Eb.
  - apply is_nl_eq in Eb as ->. exists ((p ++ l) ++ [NL]), []. rewrite app_nil_r. eauto.
  - exists p, (l ++ [b]). rewrite app_assoc. split_and!; [done| |done].
    rewrite count_newlines_app, count_newlines_cons, Eb. cbn. lia.
Qed.

(** Every offset lies in a line. *)
Lemma line_of_offset s o :
  o <= length s ->
  exists p l r, line_at s (count_newlines (take o s)) p l r /\ length p <= o /\ o <= length p + length l.
Proof.
  intros Ho. destruct (split_last_nl (take o s)) as (p & l1 & E1 & Hl1 & Hp).
  destruct (split_first_nl (drop o s)) as (l2 & r & E2 & Hl2 & Hr).
  pose proof (f_equal length E1) as L. rewrite length_take, length_app in L.
  exists p, (l1 ++ l2), r. split; [split|]; try done.
  - rewrite <- (take_drop o s), E1, E2, <- !app_assoc. done.
  - rewrite E1, count_newlines_app. lia.
  - rewrite count_newlines_app. lia.
  - rewrite length_app. lia.
Qed.

Lemma line_start_at s i p l r : line_at s i p l r -> line_starts s !! i = Some (length p).
Proof.
  intros [-> <- Hp _ _]. unfold line_starts. destruct Hp as [->|[p' ->]]; [done|].
  rewrite newline_starts_app, newline_starts_app, count_newlines_app. cbn [newline_starts].
  change (is_nl NL) with true. cbn [newline_starts]. rewrite length_app. cbn [length].
  replace (count_newlines p' + count_newlines [NL]) with (S (count_newlines p')) by (change (count_newlines [NL]) with 1; lia).
  rewrite lookup_cons_ne_0 by lia. cbn [Nat.pred].
  rewrite <- app_assoc, lookup_app_r by (rewrite length_newline_starts; lia).
  rewrite length_newline_starts, Nat.sub_diag. cbn. f_equal. lia.
Qed.

Lemma line_next_at s i p l r :
  line_at s i p l r ->
  line_starts s !! (S i) = match r with [] => None | _ => Some (length p + length l + 1) end.
Proof.
  intros [-> <- Hp Hl Hr]. unfold line_starts. rewrite lookup_cons_ne_0 by lia. cbn [Nat.pred].
  assert (newline_starts (0 + length p) l = []) as Hn by (apply nil_length_inv; by rewrite length_newline_starts).
  rewrite newline_starts_app, newline_starts_app, Hn, app_nil_l.
  rewrite lookup_app_r by (rewrite length_newline_starts; lia). rewrite length_newline_starts, Nat.sub_diag.
  destruct Hr as [->|[r' ->]]; [done|]. cbn. f_equal. lia.
Qed.

Lemma line_exists s i : i < length (line_starts s) -> exists p l r, line_at s i p l r.
Proof.
  rewrite length_line_starts. revert i. induction s as [|b s IH]; intros i Hi.
  - exists [], [], []. split; try done; eauto. cbn in *. lia.
  - rewrite count_newlines_cons in Hi. destruct (is_nl b) eqn:Eb; simpl in Hi.
    + apply is_nl_eq in Eb as ->. destruct i as [|i].
      * exists [], [], (NL :: s). split; eauto.
      * destruct (IH i) as (p & l & r & [-> <- Hp Hl Hr]); [lia|]. exists (NL :: p), l, r.
        split; [done|by rewrite count_newlines_cons| |done|done].
        right. destruct Hp as [->|[p' ->]]; [by exists []|by exists (NL :: p')].
    + destruct (IH i) as (p & l & r & [-> <- Hp Hl Hr]); [lia|].
      destruct Hp as [->|[p' ->]].
      * exists [], (b :: l), r. split; eauto. by rewrite count_newlines_cons, Eb.
      * exists (b :: p' ++ [NL]), l, r. split; [done|by rewrite count_newlines_cons, Eb| |done|done].
        right. by exists (b :: p').
Qed.

(** Line starts are in line order. *)
Lemma line_at_le s i j p l r p' l' r' :
  line_at s i p l r -> line_at s j p' l' r' -> i <= j -> length p <= length p'.
Proof.
  intros [E <- Hp _ _] [E' <- _ _ _] Hij. destruct (decide (length p <= length p')) as [|Hgt]; [done|exfalso].
  assert (p = p' ++ drop (length p') p) as Ep.
  { rewrite <- (take_drop (length p') p) at 1. f_equal.
    assert (take (length p') (p ++ l ++ r) = take (length p') (p' ++ l' ++ r')) as Et by congruence.
    rewrite take_app_le, take_app_length in Et by lia. done. }
  set (q := drop (length p') p) in *. assert (0 < length q) as Hq by (unfold q; rewrite length_drop; lia).
  destruct Hp as [->|[p0 Hp0]]; [simpl in Hgt; lia|].
  destruct (exists_last (l:=q)) as (q0 & b & Eq); [intros E0; rewrite E0 in Hq; simpl in Hq; lia|].
  assert (b = NL) as -> by (rewrite Ep, Eq, app_assoc in Hp0; by apply app_inj_tail in Hp0 as [_ ?]).
  rewrite Ep, Eq, !count_newlines_app in Hij. change (count_newlines [NL]) with 1 in Hij. lia.
Qed.

Lemma utf8_nl_cons r : utf8 (NL :: r) -> utf8 r.
Proof. apply (utf8_app_inv [NL]), utf8_scalar. reflexivity. Qed.

(** A newline is a scalar of its own, so a line of a well-formed text is
    well-formed. *)
Lemma line_at_utf8 s i p l r : utf8 s -> line_at s i p l r -> utf8 p /\ utf8 l /\ utf8 r.
Proof.
  intros Hs [E _ Hp _ Hr].
  assert (forall a r', utf8 (a ++ NL :: r') -> utf8 a /\ utf8 (NL :: r')) as K.
  { intros a r' Hu. pose proof (utf8_split _ (length a) Hu) as U. rewrite take_app_length, drop_app_length in U.
    apply U. unfold is_boundary. rewrite lookup_app_r, Nat.sub_diag by lia.
    cbn. apply orb_true_iff. by right. }
  assert (utf8 p /\ utf8 (l ++ r)) as [Up Ulr].
  { destruct Hp as [->|[p' ->]]; [split; [constructor|by rewrite E in Hs]|].
    rewrite E, <- app_assoc in Hs. cbn in Hs. apply K in Hs as [U1 U2].
    split; [apply utf8_app; [done|by apply utf8_scalar]|by apply utf8_nl_cons]. }
  destruct Hr as [->|[r' ->]]; [rewrite app_nil_r in Ulr; split_and!; [done..|constructor]|].
  apply K in Ulr. naive_solver.
Qed.

(** A prefix of the scalars is a prefix of the bytes. *)
Lemma chars_prefix l n :
  utf8 l -> n <= length (chars l) ->
  let k := length (concat (take n (chars l))) in
  k <= length l /\ take k l = concat (take n (chars l)) /\ is_boundary l k = true /\
  chars (take k l) = take n (chars l).
Proof.
  intros Hl Hn k. pose proof (chars_Forall l Hl) as Hf.
  assert (l = concat (take n (chars l)) ++ concat (drop n (chars l))) as E.
  { rewrite <- concat_app, take_drop. by rewrite concat_chars. }
  pose proof (Forall_take _ n _ Hf) as F1. pose proof (Forall_drop _ n _ Hf) as F2.
  apply chars_concat in F1 as [U1 C1]. apply chars_concat in F2 as [U2 _].
  assert (k <= length l) as Hk by (rewrite E; unfold k; len).
  assert (take k l = concat (take n (chars l))) as Et by (rewrite E at 1; by apply take_app_len).
  split_and!; [done..| |by rewrite Et].
  rewrite E, boundary_app_l by (done || unfold k; lia). apply is_boundary_len.
Qed.

Lemma col_walk_spec cs i rem :
  col_walk cs i rem =
  if rem <? length cs then (0, Some (i + length (concat (take rem cs)))) else (rem - length cs, None).
Proof.
  revert i rem; induction cs as [|c cs IH]; intros i rem; cbn [col_walk length]; [by rewrite Nat.sub_0_r|].
  destruct (Nat.eqb_spec rem 0) as [->|Hr]; [cbn; by rewrite Nat.add_0_r|].
  rewrite IH. destruct rem as [|rem]; [done|]. cbn [Nat.sub]. rewrite Nat.sub_0_r.
  change (S rem <? S (length cs)) with (rem <? length cs). destruct (rem <? length cs); [|done].
  cbn [take concat]. rewrite length_app. do 2 f_equal. lia.
Qed.

(** The columns walked over the pieces of a line. *)
Lemma fold_cols ps rem off :
  Forall utf8 ps -> 0 < rem ->
  fold_stop col_step (rem, off) ps =
  (rem - length (chars (concat ps)), off + length (concat (take rem (chars (concat ps))))).
Proof.
  intros Hps; revert rem off; induction Hps as [|x ps Hx Hps IH]; intros rem off Hr.
  { cbn [fold_stop concat chars length]. rewrite take_nil. cbn. f_equal; lia. }
  cbn [fold_stop concat]. unfold col_step at 1. rewrite col_walk_spec, chars_app, length_app, take_app by done.
  destruct (Nat.ltb_spec rem (length (chars x))) as [Hlt|Hge].
  - replace (rem - length (chars x)) with 0 by lia. rewrite take_0, app_nil_r, Nat.add_0_l. f_equal; lia.
  - rewrite (take_ge (chars x)), concat_app, concat_chars, length_app by (done || lia).
    destruct (Nat.ltb_spec 0 (rem - length (chars x))).
    + rewrite IH by lia. f_equal; lia.
    + replace (rem - length (chars x)) with 0 by lia. rewrite take_0. cbn. f_equal; lia.
Qed.

Lemma lines_fwd_none l off :
  count_newlines l = 0 -> lines_fwd_fallback l off 0 1 = (off + length l, 0).
Proof.
  revert off; induction l as [|b l IH]; intros off; [intros _; cbn; by rewrite Nat.add_0_r|].
  rewrite count_newlines_cons. intros Hb. destruct (is_nl b) eqn:Eb; [done|].
  cbn [lines_fwd_fallback Nat.ltb Nat.leb]. rewrite Eb. cbn [andb]. rewrite IH by done. cbn. f_equal; lia.
Qed.

Lemma lines_fwd_some l r off :
  count_newlines l = 0 -> lines_fwd_fallback (l ++ NL :: r) off 0 1 = (S (off + length l), 1).
Proof.
  revert off; induction l as [|b l IH]; intros off; [intros _; cbn; by rewrite Nat.add_0_r|].
  rewrite count_newlines_cons. intros Hb. destruct (is_nl b) eqn:Eb; [done|].
  cbn [lines_fwd_fallback Nat.ltb Nat.leb app]. rewrite Eb. cbn [andb]. rewrite IH by done. cbn. f_equal; lia.
Qed.

(** One search from [off]: the rest of the text has no newline, or the search
    stops after the first. *)
Lemma lines_fwd_cases s off :
  off <= length s ->
  (lines_fwd s off 0 1 = (length s, 0) /\ forall base, newline_starts base (drop off s) = []) \/
  exists next, lines_fwd s off 0 1 = (next, 1) /\ off < next <= length s /\
    forall base, newline_starts (base + off) (drop off s) = (base + next) :: newline_starts (base + next) (drop next s).
Proof.
  intros Ho. unfold lines_fwd. rewrite Nat.min_l by done.
  destruct (split_first_nl (drop off s)) as (l & r & E & Hl & Hr).
  pose proof (f_equal length E) as Ll. rewrite length_drop, length_app in Ll.
  assert (forall base, newline_starts base l = []) as Hn
    by (intros; apply nil_length_inv; by rewrite length_newline_starts).
  destruct Hr as [->|[r' ->]]; rewrite E.
  - left. rewrite app_nil_r. rewrite lines_fwd_none by done. cbn in Ll. split; [f_equal; lia|done].
  - right. exists (S (off + length l)). rewrite lines_fwd_some by done. cbn in Ll. split_and!; [done|lia..|].
    intros base. rewrite newline_starts_app, Hn. cbn [app newline_starts]. change (is_nl NL) with true.
    cbv iota. replace (S (off + length l)) with (off + (length l + 1)) by lia. rewrite <- drop_drop, E.
    rewrite drop_app_ge by lia. replace (length l + 1 - length l) with 1 by lia. cbn [drop].
    by replace (base + (off + (length l + 1))) with (S (base + off + length l)) by lia.
Qed.

Lemma scan_lines_spec vr fuel s off have base acc :
  off <= length s -> length s - off < fuel -> (Z.of_nat (base + length s) < 2 ^ 32)%Z ->
  (Z.of_nat (have + length acc) <= MAX_LINES)%Z ->
  let full := acc ++ newline_starts (base + off) (drop off s) in
  match scan_lines vr fuel s off have base acc with
  | Ok starts => starts = full /\ (Z.of_nat (have + length starts) <= MAX_LINES)%Z
  | Err e => (e = oom /\ exists n m, (Z.of_nat (have + n + m) <= MAX_LINES)%Z /\ vr n m = false) \/
             (e = too_many_lines /\ (MAX_LINES < Z.of_nat (have + length full))%Z)
  end.
Proof.
  revert off acc; induction fuel as [|fuel IH]; intros off acc Ho Hf Hb Hm full; [lia|].
  cbn [scan_lines]. destruct (Nat.ltb_spec off (length s)) as [Hlt|Hge].
  2: { split; [|done]. unfold full. rewrite drop_ge by lia. cbn. by rewrite app_nil_r. }
  destruct (lines_fwd_cases s off Ho) as [[-> Hn]|(next & -> & Hnext & Hn)]; cbn [Nat.eqb].
  { split; [|done]. unfold full. by rewrite Hn, app_nil_r. }
  destruct (Z.leb_spec MAX_LINES (Z.of_nat (have + length acc))).
  { right. split; [done|]. unfold full. rewrite Hn, length_app. cbn. lia. }
  destruct (vr (length acc) 1) eqn:Ev; cbn [negb]; [|left; split; [done|]; exists (length acc), 1; split; [lia|done]].
  rewrite as_u32_id by lia. assert (full = (acc ++ [base + next]) ++ newline_starts (base + next) (drop next s)) as Ef.
  { unfold full. by rewrite Hn, <- app_assoc. }
  rewrite Ef. apply IH; try lia. rewrite length_app. cbn. lia.
Qed.

Section laws.
Context {G : Type} {TS : TextStore G} {SL : TextStoreLaws G}.
Implicit Types t : Text G.

Definition text t : bytes := gs_bytes (gap t).

(** What one read gives [for_each_str]. *)
Lemma read_chunk g off stop :
  gs_wf g -> off < stop -> stop <= length (gs_bytes g) ->
  let chunk := gs_read_forward g off in
  let rest := take (min (length chunk) (stop - off)) chunk in
  0 < length rest /\ off + length rest <= stop /\
  slice off stop (gs_bytes g) = rest ++ slice (off + length rest) stop (gs_bytes g).
Proof.
  intros Hwf Hlt Hs. destruct (gs_read_spec g off Hwf) as (n & Hn & ->); [lia|]. cbv zeta.
  set (chunk := take n (drop off (gs_bytes g))).
  assert (length chunk = min n (length (gs_bytes g) - off)) as Hch
    by (unfold chunk; rewrite length_take, length_drop; done).
  set (rest := take (min (length chunk) (stop - off)) chunk).
  assert (length rest = min (length chunk) (stop - off)) as Hlr by (unfold rest; rewrite length_take; lia).
  assert (rest = take (min (min (length chunk) (stop - off)) n) (drop off (gs_bytes g))) as Hrest by apply take_take.
  clearbody rest. split_and!; [lia..|].
  rewrite (slice_split off (off + length rest) stop) by lia. f_equal.
  symmetry. etrans; [exact Hrest|]. unfold slice. f_equal. lia.
Qed.

Lemma str_pieces_exact g fuel off stop carry :
  gs_wf g -> off <= stop -> stop <= length (gs_bytes g) -> stop - off <= fuel ->
  utf8 (carry ++ slice off stop (gs_bytes g)) -> carry_ok carry ->
  concat (str_pieces fuel g off stop carry) = carry ++ slice off stop (gs_bytes g) /\
  Forall utf8 (str_pieces fuel g off stop carry).
Proof.
  intros Hwf. revert off carry. induction fuel as [|fuel IH]; intros off carry Ho Hs Hf Hu Hc.
  all: destruct (off <? stop) eqn:Elt; [assert (off < stop) as Hlt by lia|assert (off = stop) as -> by lia].
  all: try lia.
  all: cbn [str_pieces]; rewrite ?Elt.
  1,3: rewrite slice_empty in *; destruct carry as [|b0 carry]; [done|];
    destruct (carry_head (b0 :: carry) []) as (x & y & E & _ & Hx & _); [done..|]; by destruct x.
  destruct (read_chunk g off stop Hwf Hlt Hs) as (R1 & R2 & R3). rewrite R3 in *.
  set (rest := take _ (gs_read_forward g off)) in *. set (r := slice (off + length rest) stop (gs_bytes g)) in *.
  assert (forall carry, utf8 (carry ++ r) -> carry_ok carry ->
     concat (str_pieces fuel g (off + length rest) stop carry) = carry ++ r /\
     Forall utf8 (str_pieces fuel g (off + length rest) stop carry)) as Hn by (intros; apply IH; [lia..|done|done]).
  clearbody rest r. clear IH R3. destruct carry as [|lead carry']; [by apply (whole_pieces _ rest r)|].
  set (carry := lead :: carry') in *.
  destruct (carry_head carry (rest ++ r)) as (x & y & E & Hsc & Hx & Hy & Hl); [done..|]. cbn in Hl. rewrite Hl.
  change (S (length (carry' ++ x))) with (length (carry ++ x)) in *. rewrite (length_app carry x).
  replace (length carry + length x - length carry) with (length x) by lia.
  destruct (decide (length rest < length x)) as [Hsmall|Hbig].
  - rewrite Nat.min_r, (take_ge rest) by lia. rewrite length_app.
    assert ((length carry + length rest <? length carry + length x) = true) as -> by lia.
    rewrite app_assoc. apply Hn; [by rewrite <- app_assoc|]. subst carry. cbn [carry_ok app].
    rewrite Hl. cbn [length app]. rewrite !length_app. cbn [length]. lia.
  - assert (exists k, rest = x ++ k /\ y = k ++ r) as (k & -> & ->).
    { destruct (app_eq_inv rest r x y E) as [[k [-> E2]]|[k [-> E2]]]; [by exists k|].
      rewrite length_app in Hbig. assert (k = []) as -> by (apply nil_length_inv; lia).
      exists []. rewrite !app_nil_r in *. done. }
    rewrite (length_app x k), Nat.min_l, take_app_len, drop_app_len, (length_app carry x), Nat.ltb_irrefl by lia.
    pose proof (utf8_scalar _ Hsc) as Hus. rewrite (proj2 (from_utf8_ok_iff _) Hus).
    destruct (whole_pieces _ k r Hn Hy) as [E1 E2].
    rewrite (length_app x k) in E1, E2. rewrite concat_app, E1. cbn [concat app]. rewrite app_nil_r.
    split; [by rewrite <- !app_assoc|]. by constructor.
Qed.

(** ** The invariant *)

Record text_wf t : Prop := {
  twf_gap : gs_wf (gap t);
  twf_utf8 : utf8 (text t);
  twf_starts : starts t = line_starts (text t);
  twf_len : (Z.of_nat (length (text t)) <= MAX_BUFFER_BYTES)%Z;
  twf_lines : (Z.of_nat (length (starts t)) <= MAX_LINES)%Z;
}.

Lemma len_text t : gs_wf (gap t) -> len t = length (text t).
Proof. intros. by apply gs_len_spec. Qed.

Lemma byte_at_spec t o : gs_wf (gap t) -> byte_at t o = text t !! o.
Proof.
  intros Hwf. unfold byte_at. rewrite len_text by done.
  destruct (Nat.leb_spec (length (text t)) o); [by rewrite lookup_ge_None_2|].
  destruct (gs_read_spec (gap t) o) as (n & Hn & ->); [done..|]. fold (text t).
  destruct n; [lia|]. rewrite <- (Nat.add_0_r o) at 2. rewrite <- lookup_drop.
  by destruct (drop o (text t)).
Qed.

Lemma is_char_boundary_spec t o : text_wf t -> is_char_boundary t o = is_boundary (text t) o.
Proof.
  intros [Hwf Hu _ _ _]. unfold is_char_boundary, is_boundary. rewrite byte_at_spec, len_text by done.
  destruct (text t !! o) as [b|] eqn:E; [|done].
  destruct (Nat.eqb_spec o 0) as [->|]; [|done]. destruct (text t) as [|b' s]; [done|].
  injection E as ->. by rewrite (utf8_head _ _ Hu).
Qed.

Lemma for_each_str_pieces t a b :
  text_wf t -> a <= b -> is_boundary (text t) a = true -> is_boundary (text t) b = true ->
  exists ps, concat ps = slice a b (text t) /\ Forall utf8 ps /\
    forall A (f : A -> bytes -> A * bool) x, for_each_str t a b f x = fold_stop f x ps.
Proof.
  intros [Hwf Hu _ _ _] Hab Ha Hb. pose proof (is_boundary_le _ _ Hb) as Hl.
  destruct (str_pieces_exact (gap t) (b - a) a b []) as [E F]; [done..| |done|].
  { by apply utf8_slice. }
  exists (str_pieces (b - a) (gap t) a b []). split_and!; [done..|].
  intros. unfold for_each_str. rewrite len_text by done.
  by rewrite (Nat.min_l b), (Nat.min_l a) by lia.
Qed.

Lemma fold_read ps out : fold_stop (fun out s => (out ++ s, true)) out ps = out ++ concat ps.
Proof.
  revert out; induction ps as [|x ps IH]; intros out; simpl; [by rewrite app_nil_r|].
  by rewrite IH, <- app_assoc.
Qed.

Lemma read_exact t a b out :
  text_wf t -> a <= b -> is_boundary (text t) a = true -> is_boundary (text t) b = true ->
  read t a b out = out ++ slice a b (text t).
Proof.
  intros. destruct (for_each_str_pieces t a b) as (ps & <- & _ & E); [done..|].
  unfold read. by rewrite E, fold_read.
Qed.

Lemma to_string_lossless_exact t : text_wf t -> to_string_lossless t = text t.
Proof.
  intros Hwf. unfold to_string_lossless. rewrite len_text by apply Hwf.
  rewrite read_exact; [by rewrite slice_full|done|lia|apply is_boundary_0|apply is_boundary_len].
Qed.

Lemma contiguous_exact t :
  text_wf t -> text_wf (contiguous t).1 /\ text (contiguous t).1 = text t /\ (contiguous t).2 = text t.
Proof.
  intros [Hwf Hu Hs H1 H2]. unfold contiguous. pose proof (gs_gap_spec (gap t) Hwf) as K.
  destruct (gs_allocate_gap _ _ _ _) as [g ok]. destruct K as (W & E & R). cbn.
  rewrite R. fold (text t). rewrite (proj2 (from_utf8_ok_iff _) Hu).
  unfold text in *. cbn. rewrite E. split_and!; [|done..]. by split; unfold text; cbn; rewrite ?E.
Qed.

(** ** Positions *)

Lemma partition_take t o :
  text_wf t -> o <= length (text t) ->
  partition_point (fun s => s <=? o) (starts t) = S (count_newlines (take o (text t))).
Proof.
  intros [_ _ -> _ _] Ho. rewrite <- (take_drop o (text t)) at 1.
  apply partition_line_starts. rewrite length_take. lia.
Qed.

Lemma newlines_in_spec t a b :
  text_wf t -> a <= b -> b <= length (text t) -> newlines_in t a b = count_newlines (slice a b (text t)).
Proof.
  intros Hwf Hab Hb. unfold newlines_in. rewrite !partition_take by (done || lia).
  assert (take b (text t) = take a (text t) ++ slice a b (text t)) as ->.
  { pose proof (slice_split 0 a b (text t)) as E. unfold slice in E at 1 2. rewrite !drop_0, !Nat.sub_0_r in E.
    by apply E; lia. }
  rewrite count_newlines_app. lia.
Qed.

(** ** Two-phase application *)

(** Every step of [seq] on [s] is in range, on boundaries, within the limits
    and needs at most [n] bytes of committed memory. *)
Fixpoint seq_fits (n : nat) (s : bytes) (seq : list Edit) : Prop :=
  match seq with
  | [] => True
  | e :: es =>
    e_offset e + e_delete e <= length s /\
    is_boundary s (e_offset e) = true /\ is_boundary s (e_offset e + e_delete e) = true /\
    (e_insert e = [] \/ exists k, commit_needed (length s - e_delete e) (length (e_insert e)) = Some k /\ k <= n) /\
    (Z.of_nat (length (apply_edit s e)) <= MAX_BUFFER_BYTES)%Z /\
    (Z.of_nat (S (count_newlines (apply_edit s e))) <= MAX_LINES)%Z /\
    seq_fits n (apply_edit s e) es
  end.

Definition base_boundaries (s : bytes) (seq : list Edit) : Prop :=
  Forall (fun e => is_boundary s (e_offset e) = true /\ is_boundary s (e_offset e + e_delete e) = true) seq.

Definition inserts_utf8 (seq : list Edit) : Prop := Forall (fun e => utf8 (e_insert e)) seq.

Lemma commit_step t e g' :
  text_wf t -> utf8 (e_insert e) ->
  is_boundary (text t) (e_offset e) = true -> is_boundary (text t) (e_offset e + e_delete e) = true ->
  (Z.of_nat (length (apply_edit (text t) e)) <= MAX_BUFFER_BYTES)%Z ->
  (Z.of_nat (S (count_newlines (apply_edit (text t) e))) <= MAX_LINES)%Z ->
  gs_wf g' -> gs_bytes g' = apply_edit (text t) e ->
  text_wf (mkText g' (splice_lines (starts t) (e_offset e) (e_offset e + e_delete e) (e_insert e))).
Proof.
  intros Hwf Hi Hb1 Hb2 Hlen Hlines Wg Eg. pose proof (is_boundary_le _ _ Hb2) as Hin.
  rewrite (twf_starts t Hwf), splice_lines_apply by (done || unfold MAX_BUFFER_BYTES, MIB in Hlen; lia).
  split; cbn; unfold text in *; cbn; rewrite ?Eg; try done.
  - apply utf8_splice; try done. apply (twf_utf8 t Hwf).
  - rewrite length_newline_starts. lia.
Qed.

Lemma commit_fits t n seq :
  text_wf t -> inserts_utf8 seq -> gs_room (gap t) n -> seq_fits n (text t) seq ->
  exists t', commit_sequence t seq = Some t' /\ text_wf t' /\ text t' = apply_seq (text t) seq /\
    gs_commit_calls (gap t') = gs_commit_calls (gap t).
Proof.
  revert t; induction seq as [|e seq IH]; intros t Hwf Hi Hroom Hfit; cbn [commit_sequence].
  { by exists t. }
  destruct Hfit as (Hin & Hb1 & Hb2 & Hneed & Hlen & Hlines & Hfit). inversion Hi as [|? ? Hie His]; subst.
  pose proof (twf_gap t Hwf) as Hg. unfold text in *.
  destruct (gs_replace_room (gap t) (e_offset e) (e_offset e + e_delete e) (e_insert e)) as (g' & R & C & Rm);
    [done|lia|done| |].
  { replace (e_offset e + e_delete e - e_offset e) with (e_delete e) by lia.
    destruct Hneed as [->|(k & Hk & Hle)]; [by left|right].
    exists k. split; [done|]. by eapply gs_room_mono. }
  pose proof (gs_replace_spec (gap t) (e_offset e) (e_offset e + e_delete e) (e_insert e)) as K.
  rewrite R in K |- *. destruct K as [Wg Eg]; [done|lia|done|]. cbn [negb].
  destruct (IH (mkText g' (splice_lines (starts t) (e_offset e) (e_offset e + e_delete e) (e_insert e))))
    as (t' & E & W & Et & Ec).
  - by apply commit_step.
  - done.
  - by apply Rm.
  - cbn. by rewrite Eg.
  - exists t'. split_and!; [done|done| |]; [|cbn in Ec; congruence].
    rewrite Et. cbn. by rewrite Eg.
Qed.

(** The simulation's state after some edits: below [s_prev] the text is still
    the base's ([pre]), and [pre ++ post] is the text the edits have made. *)
Record sim_rel t (pre post : bytes) (st : sim_state) : Prop := {
  sr_base : exists x, text t = pre ++ x /\ utf8 x;
  sr_pre : utf8 pre;
  sr_post : utf8 post;
  sr_len : s_len st = length (pre ++ post);
  sr_lines : s_lines st = S (count_newlines (pre ++ post));
  sr_prev : Z.min (s_prev st) (Z.of_nat (length (text t))) = Z.of_nat (length pre);
}.

Lemma sim_rel_boundary t pre post st o :
  sim_rel t pre post st -> is_boundary (text t) o = true -> o <= length pre ->
  is_boundary pre o = true /\ is_boundary (pre ++ post) o = true.
Proof.
  intros [(x & E & Hx) _ Hy _ _ _] Hb Ho. rewrite E, boundary_app_l in Hb by done.
  by rewrite boundary_app_l.
Qed.

Lemma simulate_step_inv t pre post st e st' :
  text_wf t -> sim_rel t pre post st -> utf8 (e_insert e) -> simulate_step t st e = Ok st' ->
  let s := pre ++ post in
  exists pre' post', sim_rel t pre' post' st' /\ pre' ++ post' = apply_edit s e /\ length pre' = e_offset e /\
    e_offset e + e_delete e <= length pre /\
    is_boundary s (e_offset e) = true /\ is_boundary s (e_offset e + e_delete e) = true /\
    (e_insert e = [] \/ exists k, commit_needed (length s - e_delete e) (length (e_insert e)) = Some k /\
                                  k <= required_commit (s_sim st')) /\
    required_commit (s_sim st) <= required_commit (s_sim st') /\
    max (peak_len (s_sim st)) (length (apply_edit s e)) <= peak_len (s_sim st') /\
    max (peak_lines (s_sim st)) (S (count_newlines (apply_edit s e))) <= peak_lines (s_sim st').
Proof.
  intros Hwf R Hi H s. unfold simulate_step in H. run_inv H. subst st'.
  apply ok_or_Ok in Hx, Hx0, Hx2, Hx3, Hx4.
  apply checked_add_Some in Hx as ->. apply checked_sub_Some in Hx0 as [_ ->].
  apply checked_add_Some in Hx2 as ->. apply checked_sub_Some in Hx3 as [_ ->].
  apply checked_add_Some in Hx4 as ->.
  rewrite !is_char_boundary_spec in E0 by done. apply orb_false_iff in E0 as [B1 B2].
  apply negb_false_iff in B1, B2. rewrite len_text in E by apply Hwf.
  pose proof (sr_prev _ _ _ _ R) as Hp. assert (e_offset e + e_delete e <= length pre) as Hle by lia.
  destruct (sim_rel_boundary _ _ _ _ _ R B1) as [Bp1 Bs1]; [lia|].
  destruct (sim_rel_boundary _ _ _ _ _ R B2) as [Bp2 Bs2]; [lia|].
  rewrite newlines_in_spec by (done || lia).
  pose proof (sr_post _ _ _ _ R) as Hy. pose proof (sr_len _ _ _ _ R) as Hsl. pose proof (sr_lines _ _ _ _ R) as Hsn.
  destruct (utf8_cut2 pre (e_offset e) (e_offset e + e_delete e)) as (p1 & d & p2 & Epre & L1 & Ld & U1 & Ud & U2);
    [apply R|lia|done..|].
  destruct (sr_base _ _ _ _ R) as (x & Ex & Ux).
  assert (apply_edit s e = p1 ++ e_insert e ++ p2 ++ post) as Ea.
  { unfold apply_edit, s. rewrite Epre, <- !app_assoc. apply splice_app; lia. }
  assert (slice (e_offset e) (e_offset e + e_delete e) (text t) = d) as Es.
  { rewrite Ex, Epre, <- !app_assoc. apply slice_app; lia. }
  rewrite Es. unfold s in *. rewrite Ea. rewrite Epre in *. rewrite <- !app_assoc in *.
  rewrite !length_app in *. rewrite !count_newlines_app in *.
  exists p1, (e_insert e ++ p2 ++ post). cbn [s_sim required_commit peak_len peak_lines].
  split_and!; try done; try lia.
  - split; cbn [s_len s_lines s_prev]; try done; rewrite ?length_app, ?count_newlines_app; try lia.
    + exists (d ++ p2 ++ x). split; [done|]. by repeat apply utf8_app.
    + by repeat apply utf8_app.
  - destruct (Nat.eqb_spec (length (e_insert e)) 0) as [E0|E0]; [left; by apply nil_length_inv|right].
    run_inv Hx1. subst. apply ok_or_Ok in Hx. eexists. split; [by rewrite <- Hsl|lia].
  - destruct (Nat.eqb_spec (length (e_insert e)) 0); run_inv Hx1; lia.
Qed.

Lemma simulate_fold_boundaries t st seq st' :
  text_wf t -> foldM_res (simulate_step t) st seq = Ok st' -> base_boundaries (text t) seq.
Proof.
  intros Hwf. revert st; induction seq as [|e seq IH]; intros st Hs; [constructor|].
  cbn [foldM_res] in Hs. apply result_bind_Ok in Hs as (st1 & H1 & Hs). constructor; [|by eapply IH].
  unfold simulate_step in H1. run_inv H1. apply ok_or_Ok in Hx. apply checked_add_Some in Hx as ->.
  rewrite !is_char_boundary_spec in E0 by done. apply orb_false_iff in E0 as [B1 B2].
  by apply negb_false_iff in B1, B2.
Qed.

Lemma simulate_fold_inv t pre post st seq st' :
  text_wf t -> sim_rel t pre post st -> inserts_utf8 seq ->
  foldM_res (simulate_step t) st seq = Ok st' ->
  exceeds (peak_len (s_sim st')) MAX_BUFFER_BYTES = false ->
  exceeds (peak_lines (s_sim st')) MAX_LINES = false ->
  let s := pre ++ post in
  s_len st' = length (apply_seq s seq) /\ s_lines st' = S (count_newlines (apply_seq s seq)) /\
  canonical_seq (length pre) seq /\ seq_fits (required_commit (s_sim st')) s seq /\
  required_commit (s_sim st) <= required_commit (s_sim st') /\
  peak_len (s_sim st) <= peak_len (s_sim st') /\ peak_lines (s_sim st) <= peak_lines (s_sim st').
Proof.
  intros Hwf R Hi H P1 P2. rewrite exceeds_false in P1, P2. revert pre post st R H.
  induction Hi as [|e seq He Hi IH]; intros pre post st R H s; cbn [foldM_res] in H.
  - injection H as ->. split_and!; try done; apply R.
  - apply result_bind_Ok in H as (st1 & H1 & H).
    destruct (simulate_step_inv t pre post st e st1) as (pre' & post' & R' & E & L & Hle & B1 & B2 & N & M & K1 & K2); [done..|].
    destruct (IH pre' post' st1 R' H) as (I1 & I2 & I3 & I4 & I5 & I6 & I7). rewrite E in *.
    split_and!; [done|done|split; [done|by rewrite <- L]| |lia..].
    fold s in B1, B2, N, K1, K2. cbn [seq_fits]. split_and!; try done; try lia.
    + unfold s. rewrite length_app. lia.
    + destruct N as [N|(k & N & Hk)]; [by left|right]. exists k. split; [done|lia].
Qed.

(** What an accepted sequence asks for stays within what a text of the limits may ask for. *)
Lemma simulate_step_asks t st e st' :
  simulate_step t st e = Ok st' -> (Z.of_nat (peak_len (s_sim st')) <= MAX_BUFFER_BYTES)%Z ->
  (Z.of_nat (required_commit (s_sim st)) <= COMMIT_MAX)%Z -> max_insert_lines (s_sim st) <= peak_lines (s_sim st) ->
  (Z.of_nat (required_commit (s_sim st')) <= COMMIT_MAX)%Z /\ max_insert_lines (s_sim st') <= peak_lines (s_sim st').
Proof.
  intros H L C M. unfold simulate_step in H. run_inv H. subst st'. cbn [s_sim peak_len peak_lines required_commit max_insert_lines] in *.
  apply ok_or_Ok in Hx2, Hx4. apply checked_add_Some in Hx2 as ->. apply checked_add_Some in Hx4 as ->.
  split; [|lia]. destruct (length (e_insert e) =? 0) eqn:El; run_inv Hx1; subst; [done|].
  match goal with K : ok_or (commit_needed _ _) _ = Ok _ |- _ => apply ok_or_Ok, commit_needed_le in K; lia end.
Qed.

Lemma simulate_fold_peak t seq st st' :
  foldM_res (simulate_step t) st seq = Ok st' -> peak_len (s_sim st) <= peak_len (s_sim st').
Proof.
  revert st; induction seq as [|e seq IH]; intros st Hf; cbn [foldM_res] in Hf; [by injection Hf as ->|].
  apply result_bind_Ok in Hf as (st1 & H1 & Hf). specialize (IH st1 Hf).
  unfold simulate_step in H1. run_inv H1. subst st1. cbn [s_sim peak_len] in IH. lia.
Qed.

Lemma simulate_fold_asks t seq st st' :
  foldM_res (simulate_step t) st seq = Ok st' -> (Z.of_nat (peak_len (s_sim st')) <= MAX_BUFFER_BYTES)%Z ->
  (Z.of_nat (required_commit (s_sim st)) <= COMMIT_MAX)%Z -> max_insert_lines (s_sim st) <= peak_lines (s_sim st) ->
  (Z.of_nat (required_commit (s_sim st')) <= COMMIT_MAX)%Z /\ max_insert_lines (s_sim st') <= peak_lines (s_sim st').
Proof.
  revert st; induction seq as [|e seq IH]; intros st Hf L C M; cbn [foldM_res] in Hf; [by injection Hf as ->|].
  apply result_bind_Ok in Hf as (st1 & H1 & Hf). pose proof (simulate_fold_peak _ _ _ _ Hf).
  destruct (simulate_step_asks t st e st1 H1) as [C1 M1]; [lia|done..|]. by apply (IH st1).
Qed.

Lemma sim_rel_init t :
  text_wf t ->
  sim_rel t (text t) [] (mkSimState (len t) (line_count t) USIZE_MAX (mkSim 0 (len t) (line_count t) (len t) (line_count t) 0)).
Proof.
  intros Hwf. rewrite len_text by apply Hwf.
  split; cbn [s_len s_lines s_prev]; rewrite ?app_nil_r; try done; try apply Hwf.
  - exists []. rewrite app_nil_r. split; [done|constructor].
  - constructor.
  - unfold line_count. rewrite (twf_starts t Hwf). apply length_line_starts.
  - pose proof (twf_len t Hwf). unfold USIZE_MAX, MAX_BUFFER_BYTES, MIB in *. lia.
Qed.

Lemma simulate_inv t seq sim :
  text_wf t -> inserts_utf8 seq -> simulate t seq = Ok sim ->
  final_len sim = length (apply_seq (text t) seq) /\
  final_lines sim = S (count_newlines (apply_seq (text t) seq)) /\
  canonical_seq (length (text t)) seq /\ seq_fits (required_commit sim) (text t) seq /\
  base_boundaries (text t) seq.
Proof.
  intros Hwf Hi Hs. unfold simulate in Hs. run_inv Hs.
  cbn [peak_len peak_lines] in *. subst sim. cbn [final_len final_lines required_commit].
  pose proof (simulate_fold_inv _ _ _ _ _ _ Hwf (sim_rel_init t Hwf) Hi Hx E E0) as K.
  pose proof (simulate_fold_boundaries _ _ _ _ Hwf Hx). rewrite app_nil_r in K. naive_solver.
Qed.

Lemma text_wf_gap t g :
  text_wf t -> gs_wf g -> gs_bytes g = text t ->
  text_wf (mkText g (starts t)) /\ text (mkText g (starts t)) = text t.
Proof. intros [H1 H2 H3 H4 H5] Wg Eg. unfold text in *. split; [|done]. by split; unfold text; cbn; rewrite ?Eg. Qed.

Lemma prepare_inv vr t seq :
  text_wf t -> inserts_utf8 seq ->
  let '(t1, r) := prepare vr t seq in
  text_wf t1 /\ text t1 = text t /\
  match r with
  | Err _ => True
  | Ok p => p_sequence p = seq /\
            p_final_len p = length (apply_seq (text t) seq) /\
            p_final_lines p = S (count_newlines (apply_seq (text t) seq)) /\
            canonical_seq (length (text t)) seq /\ base_boundaries (text t) seq /\
            exists n, seq_fits n (text t) seq /\ gs_room (gap t1) n
  end.
Proof.
  intros Hwf Hi. unfold prepare. destruct (simulate t seq) as [sim|e] eqn:Es; [|done].
  destruct (simulate_inv t seq sim Hwf Hi Es) as (S1 & S2 & S3 & S4 & S5).
  pose proof (gs_ensure_spec (gap t) (required_commit sim) (twf_gap t Hwf)) as K.
  destruct (gs_ensure_commit _ _) as [g ok]. destruct K as (Wg & Eg & Hr).
  destruct (text_wf_gap t g Hwf Wg Eg) as [W E].
  destruct ok; cbn [negb]; [|done]. specialize (Hr eq_refl).
  do 2 (destruct (negb (vr _ _)); [done|]). cbn. split_and!; try done. eauto.
Qed.

Lemma prepare_starts vr t seq : starts (prepare vr t seq).1 = starts t.
Proof.
  unfold prepare. destruct (simulate t seq); [|done]. destruct (gs_ensure_commit _ _) as [g ok].
  by repeat case_match.
Qed.

(** ** Completeness of the simulation *)

(** The sizes the edits pass through stay within the limits. *)
Fixpoint seq_within (s : bytes) (seq : list Edit) : Prop :=
  match seq with
  | [] => True
  | e :: es =>
    (Z.of_nat (length (apply_edit s e)) <= MAX_BUFFER_BYTES)%Z /\
    (Z.of_nat (S (count_newlines (apply_edit s e))) <= MAX_LINES)%Z /\
    seq_within (apply_edit s e) es
  end.

Lemma checked_add_small a b : (Z.of_nat a + Z.of_nat b <= USIZE_MAX)%Z -> checked_add a b = Some (a + b).
Proof. unfold checked_add. intros Hs. case_match; [done|lia]. Qed.
Lemma checked_sub_le a b : b <= a -> checked_sub a b = Some (a - b).
Proof. unfold checked_sub. intros Hs. case_match; [done|lia]. Qed.

Lemma commit_needed_small tl n :
  (Z.of_nat tl + Z.of_nat n <= MAX_BUFFER_BYTES)%Z -> exists k, commit_needed tl n = Some k.
Proof.
  unfold commit_needed, USIZE_MAX, MAX_BUFFER_BYTES, MIB. intros Hs.
  change LARGE_GAP_CHUNK with (2 ^ 12)%Z. change LARGE_ALLOC_CHUNK with (2 ^ 16)%Z.
  pose proof (mask_bounds (Z.of_nat n + (2 * 2 ^ 12 - 1)) 12 ltac:(lia)).
  case_match; [lia|]. case_match; [lia|]. case_match; [lia|]. eauto.
Qed.

Lemma simulate_step_ok t pre post st e :
  text_wf t -> sim_rel t pre post st ->
  e_offset e + e_delete e <= length pre ->
  is_boundary (text t) (e_offset e) = true -> is_boundary (text t) (e_offset e + e_delete e) = true ->
  (Z.of_nat (length (apply_edit (pre ++ post) e)) <= MAX_BUFFER_BYTES)%Z ->
  (Z.of_nat (S (count_newlines (apply_edit (pre ++ post) e))) <= MAX_LINES)%Z ->
  exists st', simulate_step t st e = Ok st' /\
    peak_len (s_sim st') = max (peak_len (s_sim st)) (length (apply_edit (pre ++ post) e)) /\
    peak_lines (s_sim st') = max (peak_lines (s_sim st)) (S (count_newlines (apply_edit (pre ++ post) e))).
Proof.
  intros Hwf R Hle B1 B2 Hlen Hlines. pose proof (twf_len t Hwf) as Hmax. pose proof (sr_prev _ _ _ _ R) as Hp.
  destruct (sr_base _ _ _ _ R) as (x & Ex & Ux).
  assert (length (text t) = length pre + length x) as Lt by (rewrite Ex; len).
  assert (MAX_BUFFER_BYTES < USIZE_MAX)%Z as Hbig by done.
  assert (MAX_LINES < USIZE_MAX)%Z as Hbigl by done.
  destruct (cut2 pre (e_offset e) (e_offset e + e_delete e)) as (p1 & d & p2 & Epre & L1 & Ld); [lia..|].
  assert (apply_edit (pre ++ post) e = p1 ++ e_insert e ++ p2 ++ post) as Ea.
  { unfold apply_edit. rewrite Epre, <- !app_assoc. apply splice_app; lia. }
  assert (newlines_in t (e_offset e) (e_offset e + e_delete e) = count_newlines d) as Hn.
  { rewrite newlines_in_spec by (done || lia). f_equal. rewrite Ex, Epre, <- !app_assoc. apply slice_app; lia. }
  rewrite Ea in *. pose proof (sr_len _ _ _ _ R) as Hsl. pose proof (sr_lines _ _ _ _ R) as Hsn.
  rewrite Epre in Hsl, Hsn. rewrite !length_app in *. rewrite !count_newlines_app in *.
  unfold simulate_step. rewrite checked_add_small by lia. cbn [ok_or result_bind].
  rewrite len_text by apply Hwf. case_match; [lia|].
  rewrite !is_char_boundary_spec, B1, B2 by done. cbn [negb orb]. rewrite checked_sub_le by lia. cbn [ok_or result_bind].
  destruct (commit_needed_small (s_len st - e_delete e) (length (e_insert e)) ltac:(lia)) as (k & Ek).
  rewrite Ek. destruct (length (e_insert e) =? 0); cbn [ok_or result_bind];
    (rewrite checked_add_small by lia; cbn [ok_or result_bind]; rewrite Hn, checked_sub_le by lia;
     cbn [ok_or result_bind]; rewrite checked_add_small by lia; cbn [ok_or result_bind];
     eexists; split; [done|]; cbn; lia).
Qed.

Lemma simulate_fold_ok t pre post st seq :
  text_wf t -> sim_rel t pre post st -> inserts_utf8 seq ->
  canonical_seq (length pre) seq -> base_boundaries (text t) seq -> seq_within (pre ++ post) seq ->
  (Z.of_nat (peak_len (s_sim st)) <= MAX_BUFFER_BYTES)%Z -> (Z.of_nat (peak_lines (s_sim st)) <= MAX_LINES)%Z ->
  exists st', foldM_res (simulate_step t) st seq = Ok st' /\
    exceeds (peak_len (s_sim st')) MAX_BUFFER_BYTES = false /\ exceeds (peak_lines (s_sim st')) MAX_LINES = false.
Proof.
  intros Hwf R Hi Hc Hb Hw. revert pre post st R Hc Hw.
  induction Hi as [|e seq He Hi IH]; intros pre post st R Hc Hw P1 P2; cbn [foldM_res].
  - exists st. by rewrite !exceeds_false.
  - inversion Hb as [|? ? [B1 B2] Hb']; subst. destruct Hc as [Hle Hc]. destruct Hw as (W1 & W2 & Hw).
    destruct (simulate_step_ok t pre post st e) as (st1 & E1 & K1 & K2); [done..|].
    destruct (simulate_step_inv t pre post st e st1) as (pre' & post' & R' & E & L & _); [done..|].
    rewrite E1. cbn [result_bind]. apply (IH Hb' pre' post'); [done|by rewrite L|by rewrite E|lia..].
Qed.

(** A sequence of the right shape is refused for want of room only. *)
Lemma simulate_step_err t pre post st e err :
  text_wf t -> sim_rel t pre post st -> e_offset e + e_delete e <= length pre ->
  is_boundary (text t) (e_offset e) = true -> is_boundary (text t) (e_offset e + e_delete e) = true ->
  simulate_step t st e = Err err -> code err = ResourceLimit.
Proof.
  intros Hwf R Hle B1 B2 Hs. pose proof (sr_prev _ _ _ _ R) as Hp. destruct (sr_base _ _ _ _ R) as (x & Ex & _).
  assert (length (text t) = length pre + length x) as Lt by (rewrite Ex; len).
  unfold simulate_step in Hs.
  destruct (checked_add _ _) as [stop|] eqn:Ea; cbn [ok_or result_bind] in Hs; [|by injection Hs as <-].
  apply checked_add_Some in Ea as ->. rewrite len_text, !is_char_boundary_spec, B1, B2 in Hs by (apply Hwf || done).
  cbn [negb orb] in Hs.
  destruct ((s_prev st <? _)%Z || _) eqn:Eg; [lia|].
  repeat match type of Hs with
  | result_bind (ok_or ?o _) _ = _ => destruct o; cbn [ok_or result_bind] in Hs; [|by injection Hs as <-]
  | result_bind (if ?c then _ else _) _ = _ => destruct c; cbn [result_bind] in Hs
  | result_bind (result_bind (ok_or ?o _) _) _ = _ => destruct o; cbn [ok_or result_bind] in Hs; [|by injection Hs as <-]
  end; done.
Qed.

Lemma simulate_fold_err t pre post st seq err :
  text_wf t -> sim_rel t pre post st -> inserts_utf8 seq -> canonical_seq (length pre) seq ->
  base_boundaries (text t) seq -> foldM_res (simulate_step t) st seq = Err err -> code err = ResourceLimit.
Proof.
  intros Hwf R Hi. revert pre post st R.
  induction Hi as [|e seq He Hi IH]; intros pre post st R Hc Hb Hs; [done|].
  inversion Hb as [|? ? [B1 B2] Hb']; subst. destruct Hc as [Hle Hc]. cbn [foldM_res] in Hs.
  apply result_bind_Err in Hs as [Hs|(st1 & H1 & Hs)]; [by eapply simulate_step_err|].
  destruct (simulate_step_inv t pre post st e st1) as (pre' & post' & R' & _ & L & _); [done..|].
  apply (IH pre' post' st1 R'); [by rewrite L|done|done].
Qed.

Lemma simulate_err t seq err :
  text_wf t -> inserts_utf8 seq -> canonical_seq (length (text t)) seq -> base_boundaries (text t) seq ->
  simulate t seq = Err err -> code err = ResourceLimit.
Proof.
  intros Hwf Hi Hc Hb Hs. unfold simulate in Hs. apply result_bind_Err in Hs as [Hs|(st & _ & Hs)].
  - by eapply simulate_fold_err; [..|exact Hs]; [done|apply sim_rel_init|..].
  - repeat case_match; try done; by injection Hs as <-.
Qed.

Lemma prepare_err vr t seq err :
  text_wf t -> inserts_utf8 seq -> canonical_seq (length (text t)) seq -> base_boundaries (text t) seq ->
  (prepare vr t seq).2 = Err err -> code err = ResourceLimit.
Proof.
  intros Hwf Hi Hc Hb. unfold prepare. destruct (simulate t seq) as [sim|e] eqn:Es.
  - destruct (gs_ensure_commit _ _) as [g ok]. repeat case_match; cbn; intros [= <-]; done.
  - cbn. intros [= <-]. by eapply simulate_err.
Qed.

(** ** Offsets, lines and columns *)

Lemma line_bounds t i p l r :
  text_wf t -> line_at (text t) i p l r ->
  line_start t (S i) = Some (length p) /\ line_end t (S i) = Some (length p + length l) /\
  is_boundary (text t) (length p) = true /\ is_boundary (text t) (length p + length l) = true.
Proof.
  intros Hwf L. destruct (line_at_utf8 _ _ _ _ _ (twf_utf8 t Hwf) L) as (Up & Ul & Ur).
  unfold line_end, line_start. rewrite (twf_starts t Hwf), (line_start_at _ _ _ _ _ L), (line_next_at _ _ _ _ _ L).
  assert (is_boundary (text t) (length p) = true) as B1.
  { rewrite (la_text _ _ _ _ _ L), boundary_app_l by (done || by apply utf8_app). apply is_boundary_len. }
  assert (is_boundary (text t) (length p + length l) = true) as B2.
  { rewrite (la_text _ _ _ _ _ L), app_assoc, boundary_app_l by (done || len).
    rewrite <- length_app. apply is_boundary_len. }
  split_and!; try done. f_equal. destruct r; [|lia].
  rewrite len_text, (la_text _ _ _ _ _ L) by apply Hwf. len.
Qed.

Lemma fold_cols_count ps n :
  Forall utf8 ps ->
  fold_stop (fun col s => (col + length (chars s), true)) n ps = n + length (chars (concat ps)).
Proof.
  intros Hps; revert n; induction Hps as [|x ps Hx Hps IH]; intros n; cbn; [lia|].
  rewrite IH, chars_app, length_app by done. lia.
Qed.

Lemma point_spec t i p l r o :
  text_wf t -> line_at (text t) i p l r -> length p <= o -> o <= length p + length l ->
  is_boundary (text t) o = true ->
  point t o = mkPoint o (S i) (S (length (chars (take (o - length p) l)))).
Proof.
  intros Hwf L H1 H2 Hb. pose proof (is_boundary_le _ _ Hb) as Ho.
  destruct (line_bounds t i p l r Hwf L) as (Ls & _ & B1 & _). unfold line_start in Ls.
  assert (take o (text t) = p ++ take (o - length p) l) as Et.
  { rewrite (la_text _ _ _ _ _ L), take_app_ge, take_app_le by lia. done. }
  assert (count_newlines (take o (text t)) = i) as Ei.
  { pose proof (la_clean _ _ _ _ _ L) as Hc. rewrite <- (take_drop (o - length p) l), count_newlines_app in Hc.
    rewrite Et, count_newlines_app, (la_index _ _ _ _ _ L). lia. }
  unfold point. rewrite len_text, (Nat.min_l o) by (apply Hwf || lia).
  unfold line_index_of. rewrite partition_take, Ei by done. cbn [Nat.sub]. rewrite Nat.sub_0_r, Ls. cbn [default].
  destruct (for_each_str_pieces t (length p) o) as (ps & Ep & Fp & Ef); [done..|].
  cbn [from_option id]. rewrite Ef, fold_cols_count, Ep by done. f_equal; [lia|].
  unfold slice. rewrite (la_text _ _ _ _ _ L), drop_app_length, take_app_le by lia. lia.
Qed.

Lemma line_col_offset_spec t i p l r col :
  text_wf t -> line_at (text t) i p l r ->
  line_col_offset t (S i) (S col) =
  if col <=? length (chars l) then Some (length p + length (concat (take col (chars l)))) else None.
Proof.
  intros Hwf L. destruct (line_bounds t i p l r Hwf L) as (Ls & Le & B1 & B2).
  unfold line_col_offset. rewrite Ls, Le. change (S col =? 0) with false. cbv iota zeta.
  replace (S col - 1) with col by lia.
  destruct (Nat.eqb_spec col 0) as [->|Hc]; [cbn; by rewrite Nat.add_0_r|].
  destruct (for_each_str_pieces t (length p) (length p + length l)) as (ps & Ep & Fp & Ef); [done|lia|done..|].
  rewrite Ef, fold_cols by (done || lia).
  assert (concat ps = l) as ->.
  { rewrite Ep, (la_text _ _ _ _ _ L). by apply slice_app. }
  destruct (Nat.leb_spec col (length (chars l))), (Nat.eqb_spec (col - length (chars l)) 0); lia || done.
Qed.

Lemma line_start_Some t line s :
  text_wf t -> line_start t line = Some s -> exists i p l r, line = S i /\ line_at (text t) i p l r.
Proof.
  intros Hwf Hs. destruct line as [|i]; [done|]. cbn in Hs. apply lookup_lt_Some in Hs.
  rewrite (twf_starts t Hwf) in Hs. apply line_exists in Hs as (p & l & r & L). by exists i, p, l, r.
Qed.

Lemma line_col_boundary t line col o :
  text_wf t -> line_col_offset t line col = Some o -> is_boundary (text t) o = true /\ point t o = mkPoint o line col.
Proof.
  intros Hwf Hlc. assert (exists s, line_start t line = Some s) as [s Hs].
  { unfold line_col_offset in Hlc. destruct (line_start t line); [eauto|done]. }
  destruct (line_start_Some t line s Hwf Hs) as (i & p & l & r & -> & L).
  destruct col as [|col]; [unfold line_col_offset in Hlc; by repeat case_match|].
  rewrite (line_col_offset_spec t i p l r) in Hlc by done.
  destruct (Nat.leb_spec col (length (chars l))) as [Hc|]; [|done]. injection Hlc as <-.
  destruct (line_at_utf8 _ _ _ _ _ (twf_utf8 t Hwf) L) as (Up & Ul & Ur).
  destruct (chars_prefix l col Ul Hc) as (K1 & K2 & K3 & K4). set (k := length (concat _)) in *.
  assert (is_boundary (text t) (length p + k) = true) as Hb.
  { rewrite (la_text _ _ _ _ _ L), boundary_app_r, boundary_app_l by (done || lia || by apply utf8_app).
    by replace (length p + k - length p) with k by lia. }
  split; [done|]. rewrite (point_spec t i p l r) by (done || lia).
  replace (length p + k - length p) with k by lia. rewrite K4, length_take. f_equal. lia.
Qed.

(** ** Loading *)

Lemma append_inv vr t x :
  text_wf t -> utf8 x ->
  let '(t', r) := append vr t x in
  text_wf t' /\ text t' = match r with Ok _ => text t ++ x | Err _ => text t end.
Proof.
  intros Hwf Hx. unfold append. rewrite len_text by apply Hwf.
  destruct (exceeds _ _) eqn:El; [done|]. rewrite exceeds_false in El.
  pose proof (scan_lines_spec vr (S (length x)) x 0 (length (starts t)) (length (text t)) [] ltac:(lia) ltac:(lia)) as K.
  destruct (scan_lines _ _ _ _ _ _ _) as [new|e]; [|done].
  destruct K as [En Hn]; [unfold MAX_BUFFER_BYTES, MIB in El; lia|pose proof (twf_lines t Hwf); cbn; lia|].
  cbn [app] in En. rewrite drop_0, Nat.add_0_r in En.
  destruct (negb (vr _ _)); [done|].
  pose proof (gs_replace_spec (gap t) (length (text t)) (length (text t)) x (twf_gap t Hwf) ltac:(lia) ltac:(done)) as R.
  destruct (gs_replace _ _ _ _) as [g ok]. destruct R as [Wg Eg].
  destruct ok; cbn [negb]; [|by apply text_wf_gap].
  fold (text t) in Eg. unfold splice in Eg. rewrite take_ge, drop_ge, app_nil_r in Eg by lia.
  unfold text in *; cbn. rewrite Eg. split; [|done].
  split; unfold text; cbn; rewrite ?Eg, ?length_app; try done.
  - apply utf8_app; [apply (twf_utf8 t Hwf)|done].
  - rewrite En, (twf_starts t Hwf). unfold line_starts, text. by rewrite newline_starts_app.
Qed.

Lemma from_text_inv vr x t :
  utf8 x -> from_text vr x = Ok t -> text_wf t /\ text t = x.
Proof.
  intros Hx Hf. unfold from_text in Hf.
  destruct (exceeds _ _) eqn:El; [done|]. rewrite exceeds_false in El.
  apply result_bind_Ok in Hf as (new & Hn & Hf). apply result_bind_Ok in Hf as (t0 & Ht & Hf).
  pose proof (scan_lines_spec vr (S (length x)) x 0 0 0 [0] ltac:(lia) ltac:(lia)) as K. rewrite Hn in K.
  destruct K as [En Hl]; [unfold MAX_BUFFER_BYTES, MIB in El; lia|done|].
  unfold Text_new in Ht. destruct gs_new as [g0|] eqn:Eg0; [|done]. injection Ht as <-.
  apply gs_new_spec in Eg0 as [W0 E0]. cbn [gap] in Hf.
  pose proof (gs_replace_spec g0 0 0 x W0 ltac:(lia) ltac:(lia)) as R.
  destruct (gs_replace _ _ _ _) as [g ok]. destruct R as [Wg Eg].
  destruct ok; cbn [negb] in Hf; [|done]. injection Hf as <-.
  rewrite E0 in Eg. unfold splice in Eg. cbn in Eg. rewrite app_nil_r in Eg.
  unfold text; cbn. split; [|done]. split; unfold text; cbn; rewrite ?Eg; done.
Qed.

(** A text within the limits loads when it gets its memory. *)
Lemma from_text_granted vr x :
  memory_granted G vr -> utf8 x -> (Z.of_nat (length x) <= MAX_BUFFER_BYTES)%Z ->
  (Z.of_nat (S (count_newlines x)) <= MAX_LINES)%Z -> exists t, from_text vr x = Ok t /\ text_wf t /\ text t = x.
Proof.
  intros Hm Hu Hb Hl. destruct (mg_new Hm) as [g0 Gn].
  assert (exists t : Text G, from_text vr x = Ok t) as [t Ht]; [|exists t; split; [done|by eapply from_text_inv]].
  unfold from_text. rewrite (proj2 (exceeds_false _ _) Hb).
  pose proof (scan_lines_spec vr (S (length x)) x 0 0 0 [0] ltac:(lia) ltac:(lia)) as K.
  destruct (scan_lines _ _ _ _ _ _ _) as [st|e]; cbn [result_bind].
  - unfold Text_new. rewrite Gn. cbn [result_bind gap]. apply gs_new_spec in Gn as [W0 E0].
    pose proof (mg_replace Hm g0 0 0 x W0 ltac:(lia) ltac:(lia)) as Gp. rewrite E0 in Gp. specialize (Gp Hb).
    destruct (gs_replace g0 0 0 x) as [g ok]. cbn in Gp. subst ok. by eexists.
  - destruct K as [(_ & n & m & L & E)|(_ & E)]; [unfold MAX_BUFFER_BYTES, MIB in Hb; lia|done|by rewrite (mg_vec Hm) in E|].
    rewrite length_app, length_newline_starts, drop_0 in E. cbn [length] in E. lia.
Qed.

Fixpoint append_all vr t (pages : list bytes) : Text G * res unit :=
  match pages with
  | [] => (t, Ok tt)
  | x :: pages => let '(t', r) := append vr t x in
                  match r with Ok _ => append_all vr t' pages | Err e => (t', Err e) end
  end.

(** ** Properties *)

(** Reads see the text and not the gap: over any well-formed store, reading
    between two character boundaries appends exactly that part of the text,
    wherever the gap is and however it splits a scalar; the whole-text read and
    the contiguous view return the text; a boundary test answers for the text. *)
Theorem text_reads t :
  text_wf t ->
  (forall a b out, a <= b -> is_boundary (text t) a = true -> is_boundary (text t) b = true ->
     read t a b out = out ++ slice a b (text t)) /\
  to_string_lossless t = text t /\ (contiguous t).2 = text t /\ text (contiguous t).1 = text t /\
  len t = length (text t) /\
  forall o, is_char_boundary t o = is_boundary (text t) o.
Proof.
  intros Hwf. destruct (contiguous_exact t Hwf) as (_ & C1 & C2). split_and!; try done.
  - intros. by apply read_exact.
  - by apply to_string_lossless_exact.
  - apply len_text, Hwf.
  - intros o. by apply is_char_boundary_spec.
Qed.

(** C28 Two-phase application is exact and cannot fail half way. When [prepare]
    accepts a sequence it has changed nothing, and the [commit] that follows
    runs to its end (its [assert!] never fires), asks the operating system for
    no memory, and leaves a well-formed text (UTF-8, exact line index, within
    the limits) that is the edits applied one after the other, of the length and
    line count [prepare] announced. When [prepare] refuses, the text is as it
    was. *)
Theorem prepare_commit_exact vr t seq :
  text_wf t -> inserts_utf8 seq ->
  let '(t1, r) := prepare vr t seq in
  text_wf t1 /\ text t1 = text t /\
  match r with
  | Err _ => True
  | Ok p => exists t2, commit t1 p = Some t2 /\ text_wf t2 /\ text t2 = apply_seq (text t) seq /\
      gs_commit_calls (gap t2) = gs_commit_calls (gap t1) /\
      len t2 = p_final_len p /\ line_count t2 = p_final_lines p
  end.
Proof.
  intros Hwf Hi. pose proof (prepare_inv vr t seq Hwf Hi) as K. destruct (prepare vr t seq) as [t1 r].
  destruct K as (W & E & K). split_and!; [done..|]. destruct r as [p|]; [|done].
  destruct K as (Ep & Fl & Fn & _ & _ & n & Fit & Room). unfold commit. rewrite Ep.
  destruct (commit_fits t1 n seq W Hi Room) as (t2 & C & W2 & E2 & Cc); [by rewrite E|].
  rewrite E in E2. exists t2. split_and!; try done.
  - rewrite len_text, E2, Fl by apply W2. done.
  - unfold line_count. rewrite (twf_starts t2 W2), length_line_starts, E2. done.
Qed.

(** [prepare] refuses nothing it could apply: a sequence in canonical order,
    on character boundaries, whose intermediate texts all respect the size and
    line limits is accepted when it gets the memory a text within the limits
    may ask for. *)
Theorem prepare_accepts vr t seq :
  memory_granted G vr ->
  text_wf t -> inserts_utf8 seq -> canonical_seq (length (text t)) seq ->
  base_boundaries (text t) seq -> seq_within (text t) seq ->
  exists t1 p, prepare vr t seq = (t1, Ok p) /\ p_sequence p = seq.
Proof.
  intros Hm Hwf Hi Hc Hb Hw. pose proof (sim_rel_init t Hwf) as R.
  destruct (simulate_fold_ok t (text t) [] _ seq Hwf R Hi Hc Hb) as (st & E & P1 & P2).
  { by rewrite app_nil_r. }
  { cbn. rewrite len_text by apply Hwf. apply Hwf. }
  { cbn. apply Hwf. }
  unfold prepare, simulate. rewrite E. cbn [result_bind peak_len peak_lines]. rewrite P1, P2.
  cbn [required_commit peak_lines peak_len final_len final_lines max_insert_lines].
  apply exceeds_false in P1, P2. apply simulate_fold_asks in E as [C M]; [|done|done|cbn; lia].
  pose proof (mg_commit Hm (gap t) _ (twf_gap t Hwf) C) as Hok. destruct (gs_ensure_commit _ _) as [g ok].
  cbn in Hok. subst ok. cbn [negb starts]. pose proof (twf_lines t Hwf).
  rewrite !(mg_vec Hm) by lia. cbn [negb]. eauto.
Qed.

(** Offsets and line/column positions are inverse: the point of a character
    boundary names a line and a column that resolve back to it, and a line and
    column that resolve to an offset are the point of that offset, which is a
    character boundary. *)
Theorem point_line_col_inverse t :
  text_wf t ->
  (forall o, is_boundary (text t) o = true ->
     line_col_offset t (pt_line (point t o)) (pt_col (point t o)) = Some o /\ pt_offset (point t o) = o) /\
  (forall line col o, line_col_offset t line col = Some o ->
     point t o = mkPoint o line col /\ is_boundary (text t) o = true).
Proof.
  intros Hwf. split.
  - intros o Hb. destruct (line_of_offset (text t) o) as (p & l & r & L & H1 & H2); [by apply is_boundary_le|].
    destruct (line_at_utf8 _ _ _ _ _ (twf_utf8 t Hwf) L) as (Up & Ul & Ur).
    rewrite (point_spec t _ p l r) by done. cbn [pt_line pt_col pt_offset]. split; [|done].
    rewrite (line_col_offset_spec t _ p l r) by done.
    assert (is_boundary l (o - length p) = true) as Bl.
    { rewrite (la_text _ _ _ _ _ L), boundary_app_r, boundary_app_l in Hb by (done || lia || by apply utf8_app). done. }
    destruct (utf8_split l (o - length p) Ul Bl) as [Ut Ud].
    assert (chars l = chars (take (o - length p) l) ++ chars (drop (o - length p) l)) as Ec
      by (by rewrite <- chars_app, take_drop).
    rewrite Ec, length_app, take_app_length, concat_chars, length_take by done.
    case_match; [f_equal; lia|lia].
  - intros line col o Hlc. apply line_col_boundary in Hlc as [? ?]; done.
Qed.

(** Loading in pages: appending the pages of a text one by one gives the
    well-formed text that holds all of them, and each refused page leaves the
    pages before it; [from_text] of the whole has the same bytes and the same
    line index. *)
Theorem append_pages vr t pages :
  text_wf t -> Forall utf8 pages ->
  let '(t', r) := append_all vr t pages in
  text_wf t' /\
  (exists k, text t' = text t ++ concat (take k pages) /\ (is_ok r = true -> k = length pages)) /\
  forall whole, from_text vr (text t ++ concat pages) = Ok whole -> is_ok r = true ->
    text whole = text t' /\ starts whole = starts t'.
Proof.
  intros Hwf Hp. assert (utf8 (concat pages)) as Uc.
  { clear Hwf. induction Hp; [constructor|]. by apply utf8_app. }
  assert (let '(t', r) := append_all vr t pages in text_wf t' /\
    exists k, text t' = text t ++ concat (take k pages) /\ (is_ok r = true -> k = length pages)) as K.
  { clear Uc. revert t Hwf. induction Hp as [|x pages Hx Hp IH]; intros t Hwf; cbn [append_all].
    - split; [done|]. exists 0. by rewrite app_nil_r.
    - pose proof (append_inv vr t x Hwf Hx) as A. destruct (append vr t x) as [t1 [u|e]]; destruct A as [W1 E1].
      + specialize (IH t1 W1). destruct (append_all vr t1 pages) as [t2 r]. destruct IH as (W & k & E & Hk).
        split; [done|]. exists (S k). cbn. rewrite E, E1, app_assoc. split; [done|]. intros. by rewrite Hk.
      + split; [done|]. exists 0. cbn. by rewrite app_nil_r. }
  destruct (append_all vr t pages) as [t' r]. destruct K as (W & k & E & Hk). split_and!; [done|by exists k|].
  intros whole Hf Hr. rewrite Hk, take_ge in E by done.
  apply from_text_inv in Hf as [Ww Ew]; [|apply utf8_app; [apply (twf_utf8 t Hwf)|done]].
  split; [congruence|]. rewrite (twf_starts whole Ww), (twf_starts t' W). congruence.
Qed.
End laws.

(** ** Witnesses *)

(** The text "aé\nb" in a gap buffer whose gap splits the é. *)
Definition split_text : Text GapBuffer :=
  mkText (mkGap [x61; xc3; x00; x00; xa9; x0a; x62; x00] LARGE_CAPACITY 5 2 2 0 0 true) [0; 4].

Abbreviation always2 := (fun _ _ => true).
Abbreviation always1 := (fun _ => true).
Abbreviation vm_store := (gap_store always1 always2 always1).
Abbreviation vm_laws := (gap_store_laws always1 always2 always1).

Lemma split_text_wf : text_wf (TS := vm_store) (SL := vm_laws) split_text.
Proof.
  split; [repeat split; cbn; lia|apply from_utf8_ok_iff; reflexivity|reflexivity|vm_compute; congruence..].
Qed.

Lemma text_reads_witness :
  read (TS := vm_store) split_text 1 5 [] = [xc3; xa9; x0a; x62].
Proof.
  destruct (text_reads (TS := vm_store) (SL := vm_laws) split_text split_text_wf) as (R & _).
  by rewrite R by (lia || reflexivity).
Defined.

Lemma prepare_commit_exact_witness :
  let seq := [mkEdit 3 1 (bs "--"); mkEdit 0 1 []] in
  text_wf (TS := vm_store) (SL := vm_laws) (prepare (TS := vm_store) always2 split_text seq).1 /\
  is_ok (prepare (TS := vm_store) always2 split_text seq).2 = true.
Proof.
  cbv zeta. pose proof (prepare_commit_exact (TS := vm_store) (SL := vm_laws) always2 split_text
    [mkEdit 3 1 (bs "--"); mkEdit 0 1 []] split_text_wf) as K.
  assert (is_ok (prepare (TS := vm_store) always2 split_text [mkEdit 3 1 (bs "--"); mkEdit 0 1 []]).2 = true) as E
    by (vm_compute; reflexivity).
  destruct (prepare _ _ _) as [t1 r]. split; [|exact E].
  apply K. repeat constructor; apply from_utf8_ok_iff; reflexivity.
Defined.

Definition flat_text : Text Flat := mkText (mkFlat (bs "one" ++ [NL] ++ bs "two")) [0; 4].

Lemma flat_text_wf : text_wf flat_text.
Proof. split; [done|apply from_utf8_ok_iff; reflexivity|reflexivity|vm_compute; congruence..]. Qed.

Lemma vm_memory : memory_granted GapBuffer (TS := vm_store) (SL := vm_laws) always2.
Proof. by apply gap_memory. Qed.

Lemma prepare_accepts_witness :
  exists t1 p, prepare (TS := vm_store) always2 split_text [mkEdit 4 1 (bs "2"); mkEdit 1 0 (bs "x")] = (t1, Ok p) /\
    p_sequence p = [mkEdit 4 1 (bs "2"); mkEdit 1 0 (bs "x")].
Proof.
  apply (prepare_accepts (TS := vm_store) (SL := vm_laws) always2 split_text _ vm_memory split_text_wf).
  - repeat constructor; apply from_utf8_ok_iff; reflexivity.
  - cbn. lia.
  - repeat constructor.
  - cbn -[Z.of_nat]. split_and!; try done; vm_compute; discriminate.
Defined.

Lemma point_line_col_inverse_witness :
  line_col_offset flat_text 2 3 = Some 6 /\ point flat_text 6 = mkPoint 6 2 3.
Proof.
  destruct (point_line_col_inverse flat_text flat_text_wf) as [_ K].
  split; [reflexivity|]. by apply (K 2 3 6).
Defined.

Lemma append_pages_witness :
  text (append_all always2 flat_text [bs "+"; [NL]]).1 = bs "one" ++ [NL] ++ bs "two+" ++ [NL] /\
  text_wf (append_all always2 flat_text [bs "+"; [NL]]).1.
Proof.
  split; [reflexivity|]. pose proof (append_pages always2 flat_text [bs "+"; [NL]] flat_text_wf) as K.
  destruct (append_all _ _ _) as [t' r]. apply K. repeat constructor; apply from_utf8_ok_iff; reflexivity.
Defined.
