(* ===== verification/History.v ===== *)
(** * The op log and undo lanes

    Models [cosmix-edit-core/src/history.rs]: the retained suffix of log
    entries, the per-lane undo and redo stacks, retention and lookup by
    revision. The [BTreeMap] of lanes is a finite map. *)

From S2P Require Import Prelude Utf8 EditBase.

Record Lane := mkLane { undo_stack : list Group; redo_stack : list Group }.
Definition Lane_default : Lane := mkLane [] [].

Record OpLog := mkOpLog {
  entries : list LogEntry;
  lanes : gmap Origin Lane;
  text_bytes : nat;
  base : Z;
}.
Definition OpLog_default : OpLog := mkOpLog [] ∅ 0 0.

Definition entry_text_bytes (e : LogEntry) : nat :=
  sum_list_with (fun x => length (e_insert x)) (le_edits e) + sum_list_with length (le_deleted e).

Definition oldest_rev (l : OpLog) : Z := base l.

(** The [while] loop of [push]: entries, stored bytes, base, whether it
    trimmed. *)
Fixpoint trim (es : list LogEntry) (bytes : nat) (b : Z) (trimmed : bool) : list LogEntry * nat * Z * bool :=
  if exceeds (length es) LOG_MAX_ENTRIES || exceeds bytes LOG_MAX_TEXT_BYTES then
    match es with
    | [] => (es, bytes, b, trimmed)
    | old :: es => trim es (bytes - entry_text_bytes old) (le_rev old) true
    end
  else (es, bytes, b, trimmed).

Definition retain_groups (b : Z) (gs : list Group) : list Group :=
  filter (fun g => (b < g_start g)%Z) gs.

Definition lane_nonempty (l : Lane) : bool :=
  negb (length (undo_stack l) =? 0) || negb (length (redo_stack l) =? 0).

Definition push (l : OpLog) (entry : LogEntry) : OpLog * option Z :=
  let '(es, bytes, b, trimmed) :=
    trim (entries l ++ [entry]) (text_bytes l + entry_text_bytes entry) (base l) false in
  if negb trimmed then (mkOpLog es (lanes l) bytes b, None)
  else
    let ls := (fun lane => mkLane (retain_groups b (undo_stack lane)) (retain_groups b (redo_stack lane))) <$> lanes l in
    (mkOpLog es (filter (fun kv => lane_nonempty kv.2 = true) ls) bytes b, Some b).

(** Revisions are contiguous, so the first entry after [rev] is found by index. *)
Definition after (l : OpLog) (rev : Z) : list LogEntry :=
  let skip := match entries l with
              | first :: _ => Z.to_nat (sat_sub64 (sat_add64 rev 1) (le_rev first))
              | [] => 0
              end in
  drop (min skip (length (entries l))) (entries l).

Definition since (l : OpLog) (since_rev : Z) (limit : nat) : list LogEntry := take limit (after l since_rev).

(** ** The invariant *)

(** The entries carry the revisions [b + 1, b + 2, ...]. *)
Fixpoint revs_from (b : Z) (es : list LogEntry) : Prop :=
  match es with [] => True | e :: es => le_rev e = (b + 1)%Z /\ revs_from (b + 1) es end.

Definition stored_bytes (es : list LogEntry) : nat := sum_list_with entry_text_bytes es.

Definition last_rev (l : OpLog) : Z := (base l + Z.of_nat (length (entries l)))%Z.

(** A group of revisions in [(lo, hi]]. *)
Definition group_in (lo hi : Z) (g : Group) : Prop := (lo < g_start g /\ g_start g <= g_end g <= hi)%Z.

Definition lanes_in (l : OpLog) (hi : Z) : Prop :=
  map_Forall (fun _ lane => Forall (group_in (base l) hi) (undo_stack lane) /\
                            Forall (group_in (base l) hi) (redo_stack lane)) (lanes l).

(** The entries alone. *)
Record log_core (l : OpLog) : Prop := {
  lw_revs : revs_from (base l) (entries l);
  lw_base : (0 <= base l)%Z;
  lw_bytes : text_bytes l = stored_bytes (entries l);
  lw_count : exceeds (length (entries l)) LOG_MAX_ENTRIES = false;
  lw_size : exceeds (text_bytes l) LOG_MAX_TEXT_BYTES = false;
}.

Definition log_wf (l : OpLog) : Prop := log_core l /\ lanes_in l (last_rev l).

Lemma revs_from_app b es fs :
  revs_from b (es ++ fs) <-> revs_from b es /\ revs_from (b + Z.of_nat (length es)) fs.
Proof.
  revert b; induction es as [|e es IH]; intros b; simpl.
  - rewrite Z.add_0_r. naive_solver.
  - rewrite IH. replace (b + Z.of_nat (S (length es)))%Z with (b + 1 + Z.of_nat (length es))%Z by lia. naive_solver.
Qed.

Lemma revs_from_Forall b es :
  revs_from b es -> Forall (fun e => b < le_rev e <= b + Z.of_nat (length es))%Z es.
Proof.
  revert b; induction es as [|e es IH]; intros b; simpl; [constructor|].
  intros [E H]. constructor; [lia|]. eapply Forall_impl; [by apply IH|]. simpl. lia.
Qed.

(** Looking up by index is looking up by revision. *)
Lemma revs_from_filter b es rev :
  revs_from b es ->
  filter (fun e => rev < le_rev e)%Z es = drop (Z.to_nat (rev - b)) es.
Proof.
  revert b; induction es as [|e es IH]; intros b; [by rewrite drop_nil|]. intros [E H].
  rewrite filter_cons. destruct (decide (rev < le_rev e)%Z) as [Hlt|Hge].
  - replace (Z.to_nat (rev - b)) with 0 by lia. rewrite drop_0. f_equal.
    rewrite (IH _ H). by replace (Z.to_nat (rev - (b + 1))) with 0 by lia.
  - replace (Z.to_nat (rev - b)) with (S (Z.to_nat (rev - (b + 1)))) by lia. by apply IH.
Qed.

Lemma after_filter l rev :
  log_core l -> (0 <= rev)%Z -> (last_rev l < U64_MAX)%Z ->
  after l rev = filter (fun e => rev < le_rev e)%Z (entries l).
Proof.
  intros Hwf Hr Hmax. pose proof (lw_revs l Hwf) as H. rewrite (revs_from_filter (base l)) by done.
  unfold after. destruct (entries l) as [|e es] eqn:E; [by rewrite !drop_nil|]. destruct H as [He H].
  unfold last_rev in Hmax. rewrite E in Hmax. simpl length in *.
  unfold sat_sub64, sat_add64. rewrite He.
  set (n := Z.to_nat _).
  assert (min n (S (length es)) = min (Z.to_nat (rev - base l)) (S (length es))) as -> by (unfold n; lia).
  destruct (decide (Z.to_nat (rev - base l) <= S (length es))); [by rewrite Nat.min_l by lia|].
  rewrite Nat.min_r by lia. rewrite !drop_ge by (simpl; lia). done.
Qed.

Lemma stored_bytes_cons e es : stored_bytes (e :: es) = entry_text_bytes e + stored_bytes es.
Proof. done. Qed.

Lemma stored_bytes_app a b : stored_bytes (a ++ b) = stored_bytes a + stored_bytes b.
Proof. unfold stored_bytes. induction a; simpl; lia. Qed.

(** What the trimming loop leaves: the shortest cut that respects the limits. *)
Lemma trim_spec es bytes b tr :
  bytes = stored_bytes es -> revs_from b es ->
  let '(es', bytes', b', tr') := trim es bytes b tr in
  exists old, es = old ++ es' /\ bytes' = stored_bytes es' /\ b' = (b + Z.of_nat (length old))%Z /\
    revs_from b' es' /\ tr' = (tr || negb (length old =? 0)) /\
    exceeds (length es') LOG_MAX_ENTRIES = false /\ exceeds bytes' LOG_MAX_TEXT_BYTES = false /\
    (forall o e, old = o ++ [e] ->
       exceeds (length (e :: es')) LOG_MAX_ENTRIES || exceeds (stored_bytes (e :: es')) LOG_MAX_TEXT_BYTES = true).
Proof.
  revert bytes b tr; induction es as [|e es IH]; intros bytes b tr Hb Hr; cbn [trim].
  - subst. cbn. exists []. cbn. rewrite orb_false_r. split_and!; try done; try lia. by intros [].
  - destruct (exceeds _ _ || exceeds _ _) eqn:E.
    + destruct Hr as [He Hr]. rewrite He.
      specialize (IH (bytes - entry_text_bytes e) (b + 1)%Z true). rewrite stored_bytes_cons in Hb.
      destruct (trim es _ _ true) as [[[es' bytes'] b'] tr'].
      destruct IH as (old & -> & I1 & I2 & I3 & I4 & I5 & I6 & I7); [lia|done|].
      exists (e :: old). cbn [length app]. split_and!; try done; try lia.
      * intros o e' Eo. destruct o as [|x o].
        -- cbn in Eo. injection Eo as -> ->. cbn [app] in *. by rewrite stored_bytes_cons, <- Hb.
        -- cbn in Eo. injection Eo as _ ->. by apply (I7 o).
    + apply orb_false_iff in E as [E1 E2]. exists []. cbn [length app]. rewrite orb_false_r.
      split_and!; try done; try lia. by intros [].
Qed.

Lemma retain_groups_in lo lo' hi gs : Forall (group_in lo hi) gs -> Forall (group_in lo' hi) (retain_groups lo' gs).
Proof.
  unfold retain_groups. intros H. apply Forall_forall. intros g Hg.
  apply list_elem_of_filter in Hg as [Hb Hg]. rewrite Forall_forall in H. specialize (H g Hg).
  unfold group_in in *. lia.
Qed.

Definition retain_lane (b : Z) (lane : Lane) : Lane :=
  mkLane (retain_groups b (undo_stack lane)) (retain_groups b (redo_stack lane)).

Lemma push_inv l entry :
  log_core l -> lanes_in l (le_rev entry) -> le_rev entry = (last_rev l + 1)%Z ->
  let '(l', r) := push l entry in
  log_wf l' /\ last_rev l' = le_rev entry /\
  (exists old, entries l ++ [entry] = old ++ entries l' /\ base l' = (base l + Z.of_nat (length old))%Z /\
    r = (if length old =? 0 then None else Some (base l')) /\
    (forall o e, old = o ++ [e] ->
       exceeds (length (e :: entries l')) LOG_MAX_ENTRIES ||
       exceeds (stored_bytes (e :: entries l')) LOG_MAX_TEXT_BYTES = true)) /\
  (forall k lane, lanes l' !! k = Some lane ->
     exists lane0, lanes l !! k = Some lane0 /\ (lane = lane0 \/ lane = retain_lane (base l') lane0)).
Proof.
  intros Hwf Hlanes He. unfold push.
  pose proof (trim_spec (entries l ++ [entry]) (text_bytes l + entry_text_bytes entry) (base l) false) as K.
  destruct (trim _ _ _ _) as [[[es bytes] b] tr]. destruct K as (old & E & Hb & Hbase & Hr & Htr & L1 & L2 & Hmin).
  { rewrite stored_bytes_app, (lw_bytes l Hwf). cbn. lia. }
  { apply revs_from_app. split; [apply Hwf|]. cbn. unfold last_rev in He. lia. }
  pose proof (f_equal length E) as Hlen. rewrite !length_app in Hlen. cbn in Hlen, Htr.
  pose proof (lw_base l Hwf).
  assert (forall ls, last_rev (mkOpLog es ls bytes b) = le_rev entry) as El by (intros; unfold last_rev in *; cbn; lia).
  assert (forall ls, log_core (mkOpLog es ls bytes b)) as Hcore by (intros; split; cbn; try done; lia).
  destruct (Nat.eqb_spec (length old) 0) as [H0|H0]; cbn in Htr; subst tr; cbn [negb].
  - assert (old = []) as -> by (by apply nil_length_inv). cbn in Hbase, E. rewrite Z.add_0_r in Hbase. subst b.
    split_and!; [split; [done|by rewrite El]|done| |cbn; by eauto].
    exists []. cbn. split_and!; [done|lia|done|]. by intros [].
  - split_and!; [|done|..].
    + split; [done|]. rewrite El. intros k lane Hk. cbn in Hk. apply map_lookup_filter_Some in Hk as [Hk _].
      rewrite lookup_fmap in Hk. destruct (lanes l !! k) as [lane0|] eqn:Ek; [|done]. injection Hk as <-.
      destruct (Hlanes k lane0 Ek). cbn. split; by apply (retain_groups_in (base l)).
    + exists old. split_and!; try done. by destruct (Nat.eqb_spec (length old) 0).
    + cbn. intros k lane Hk. apply map_lookup_filter_Some in Hk as [Hk _].
      rewrite lookup_fmap in Hk. destruct (lanes l !! k) as [lane0|] eqn:Ek; [|done]. injection Hk as <-. eauto.
Qed.

(** What pushing does to a lane that holds groups. *)
Lemma push_lane l entry k lane :
  lanes l !! k = Some lane ->
  let l' := (push l entry).1 in
  lanes l' !! k = Some lane \/
  lanes l' !! k = (if lane_nonempty (retain_lane (base l') lane) then Some (retain_lane (base l') lane) else None).
Proof.
  intros Hk. unfold push. destruct (trim _ _ _ _) as [[[es bytes] b] tr]. destruct (negb tr); cbn; [by left|right].
  rewrite map_lookup_filter, lookup_fmap, Hk. cbn. fold (retain_lane b lane).
  destruct (lane_nonempty _) eqn:En; [by rewrite option_guard_True|by rewrite option_guard_False by congruence].
Qed.

Lemma last_retain b gs g : (b < g_start g)%Z -> list.last gs = Some g -> list.last (retain_groups b gs) = Some g.
Proof.
  intros Hb Hl. apply last_Some in Hl as [xs ->]. unfold retain_groups.
  rewrite filter_app, filter_cons, decide_True by done. rewrite filter_nil. by rewrite last_snoc.
Qed.

(** A top group after the new base stays the top. *)
Lemma push_top l entry k lane :
  lanes l !! k = Some lane ->
  exists lane', (forall g, (base (push l entry).1 < g_start g)%Z ->
      (list.last (undo_stack lane) = Some g ->
         lanes (push l entry).1 !! k = Some lane' /\ list.last (undo_stack lane') = Some g) /\
      (list.last (redo_stack lane) = Some g ->
         lanes (push l entry).1 !! k = Some lane' /\ list.last (redo_stack lane') = Some g)).
Proof.
  intros Hk. destruct (push_lane l entry k lane Hk) as [E|E]; [by exists lane|].
  exists (retain_lane (base (push l entry).1) lane). intros g Hg.
  assert (forall gs, list.last gs = Some g -> length (retain_groups (base (push l entry).1) gs) <> 0) as Hne.
  { intros gs Hl. pose proof (last_retain _ _ _ Hg Hl) as K. by destruct (retain_groups _ gs). }
  split; intros Hl; rewrite E; unfold lane_nonempty; cbn [retain_lane undo_stack redo_stack];
    (split; [|by apply last_retain]); specialize (Hne _ Hl);
    destruct (Nat.eqb_spec (length (retain_groups (base (push l entry).1) (undo_stack lane))) 0); cbn; try done;
    destruct (Nat.eqb_spec (length (retain_groups (base (push l entry).1) (redo_stack lane))) 0); cbn; done.
Qed.

(** ** Properties *)

(** Lookup by revision: [after] returns exactly the retained entries with a
    greater revision, in order, for every revision, retained or not; [since]
    returns at most [limit] of them, oldest first. *)
Theorem after_exact l rev limit :
  log_wf l -> (0 <= rev)%Z -> (last_rev l < U64_MAX)%Z ->
  after l rev = filter (fun e => rev < le_rev e)%Z (entries l) /\
  since l rev limit = take limit (filter (fun e => rev < le_rev e)%Z (entries l)).
Proof. intros [Hwf _] Hr Hm. unfold since. rewrite after_filter by done. done. Qed.

(** Retention: pushing the next entry leaves the log well-formed (contiguous
    revisions, exact byte count, both limits, every undo and redo group within
    the retained revisions) when its lanes held groups of retained revisions and
    of the new one; what is retained is the longest suffix that the
    limits allow; it answers the new oldest revision exactly when it trimmed. *)
Theorem push_retention l entry :
  log_core l -> lanes_in l (le_rev entry) -> le_rev entry = (last_rev l + 1)%Z ->
  let '(l', r) := push l entry in
  log_wf l' /\ last_rev l' = le_rev entry /\
  exists old, entries l ++ [entry] = old ++ entries l' /\
    r = (if length old =? 0 then None else Some (oldest_rev l')) /\
    oldest_rev l' = (oldest_rev l + Z.of_nat (length old))%Z /\
    (forall o e, old = o ++ [e] ->
       exceeds (length (e :: entries l')) LOG_MAX_ENTRIES ||
       exceeds (stored_bytes (e :: entries l')) LOG_MAX_TEXT_BYTES = true).
Proof.
  intros Hwf Hl He. pose proof (push_inv l entry Hwf Hl He) as K. destruct (push l entry) as [l' r].
  destruct K as (W & L & (old & E & B & R & M) & _). split_and!; try done. by exists old.
Qed.

Definition sample_log_entry (rev : Z) : LogEntry :=
  mkLogEntry rev (mkOrigin Human (bs "a")) (mkOrigin Human (bs "a")) KEdit [mkEdit 0 0 (bs "x")] [[]]
    (mkVia None (bs "local") None None) None 0.

Definition sample_log : OpLog :=
  mkOpLog [sample_log_entry 5; sample_log_entry 6]
    {[ mkOrigin Human (bs "a") := mkLane [mkGroup 5 6; mkGroup 7 7] [] ]} 2 4.

Lemma sample_log_core : log_core sample_log.
Proof. split; [repeat split; lia|done|reflexivity|reflexivity|reflexivity]. Qed.

Lemma sample_log_lanes : lanes_in sample_log 7.
Proof.
  apply map_Forall_singleton. split; [|constructor].
  repeat constructor; cbn; lia.
Qed.

Lemma push_retention_witness :
  log_wf (push sample_log (sample_log_entry 7)).1 /\ (push sample_log (sample_log_entry 7)).2 = None.
Proof.
  pose proof (push_retention sample_log (sample_log_entry 7) sample_log_core sample_log_lanes eq_refl) as K.
  split; [|reflexivity]. destruct (push _ _) as [l' r]. apply K.
Defined.

Lemma after_exact_witness :
  log_wf (mkOpLog [sample_log_entry 5; sample_log_entry 6] ∅ 2 4) /\
  after (mkOpLog [sample_log_entry 5; sample_log_entry 6] ∅ 2 4) 5 = [sample_log_entry 6].
Proof.
  assert (log_wf (mkOpLog [sample_log_entry 5; sample_log_entry 6] ∅ 2 4)) as W.
  { split; [split; [repeat split; lia|done|reflexivity|reflexivity|reflexivity]|by apply map_Forall_empty]. }
  split; [exact W|]. destruct (after_exact _ 5 1 W) as [-> _]; [lia|vm_compute; reflexivity|reflexivity].
Defined.
