(* ===== verification/Buffer.v ===== *)
(** * The buffer façade: text, op log, anchors and selections

    Models [cosmix-edit-core/src/buffer.rs] except [Buffer::find] (regular
    expression search). Operations that mutate return the buffer they leave
    with their answer, so what a refusal leaves behind is part of the model;
    [None] where the code would panic. [vec_reserve] answers the
    [try_reserve]s. The [BTreeMap]s of lanes and selections are finite maps. *)

From S2P Require Import Prelude Utf8 EditBase Ot Anchor GapBuffer Text History.

(** ** Requests and answers *)

Inductive Eol := Lf | Crlf | Mixed | NoEol.
Record FileMeta := mkFileMeta { bom : bool; eol : Eol }.

Inductive OpSpec :=
| OpInsert (at_ : PosSpec) (text : bytes)
| OpDelete (range : RangeSpec)
| OpReplace (range : RangeSpec) (text : bytes).

Inductive Cas := Latest | ExpectRev (r : Z) | BaseRev (b : Z).

Record TxnRequest := mkTxnRequest {
  rq_ops : list OpSpec;
  rq_cas : Cas;
  rq_coalesce : bool;
  rq_cursor : option PosSpec;
  rq_op_id : option bytes;
}.

Record Applied := mkApplied {
  ap_rev : Z;
  ap_base_rev : Z;
  ap_kind : EntryKind;
  ap_edits : list Edit;
  ap_changed : list range;
  ap_rebased : bool;
  ap_op_id : option bytes;
  ap_inserted_bytes : nat;
  ap_deleted_bytes : nat;
  ap_history_trimmed_to : option Z;
}.

Inductive LaneSel := Own | All | OneLane (o : Origin).

(** One resolved op or undo item: base range, replacement, list index. *)
Record Resolved := mkResolved { r_s : nat; r_e : nat; r_text : bytes; r_idx : nat }.

Record Commit := mkCommit {
  c_origin : Origin;
  c_lane : Origin;
  c_kind : EntryKind;
  c_via : Via;
  c_now_ms : Z;
  c_op_id : option bytes;
  c_coalesce : bool;
  c_cursor : option PosSpec;
  c_rebased : bool;
}.

Record Red := mkRed { red_entry : LogEntry; red_edits : list RawEdit }.

Record Composed (P : Type) := mkComposed { cp_range : range; cp_payload : P; cp_member : Z }.
Arguments mkComposed {P}.
Arguments cp_range {P}.
Arguments cp_payload {P}.
Arguments cp_member {P}.

Record UndoItem := mkUndoItem { u_range : range; u_restore : bytes; u_expect : bytes; u_member : Z }.

Definition invalid (r : string) : CoreError := CoreError_new InvalidArgument r.
Definition limit : CoreError := CoreError_new ResourceLimit reason.LIMIT.

(** ** Composing the inverses of a group *)

(** One older item through a newer member's edits: its range, and for each
    edit whether it lay left of the item. *)
Fixpoint through_member (r : range) (edits : list RawEdit) : option (range * list bool) :=
  match edits with
  | [] => Some (r, [])
  | ed :: edits =>
    '(r, side) ← transform_raw r ed ThroughFirst;
    '(r, sides) ← through_member r edits;
    Some (r, side :: sides)
  end.

Definition range_is_empty (r : range) : bool := snd r <=? fst r.

Section compose.
Context {P : Type}.

(** The merge loop: older items (with their sides) and the member's own. *)
Fixpoint merge_items (rev : Z) (old : list (Composed P * list bool))
    : list (nat * Composed P) -> result (list (Composed P)) (Z * Z) :=
  match old with
  | [] => fun new => Ok (map snd new)
  | (o, sides) :: old' =>
    fix merge_new (new : list (nat * Composed P)) : result (list (Composed P)) (Z * Z) :=
      match new with
      | [] => Ok (o :: map fst old')
      | (i, n) :: new' =>
        let? take_new :=
          (if negb (fst (cp_range o) =? fst (cp_range n)) then Ok (fst (cp_range n) <? fst (cp_range o))
           else match range_is_empty (cp_range o), range_is_empty (cp_range n) with
                | true, true => Ok (default false (sides !! i))
                | true, false => Ok false
                | false, true => Ok true
                | false, false => Err (cp_member o, rev)
                end) in
        if take_new : bool then let? rest := merge_new new' in Ok (n :: rest)
        else let? rest := merge_items rev old' new in Ok (o :: rest)
      end
  end.

Definition compose_member (items : list (Composed P)) (m : Z * list RawEdit * list P)
    : result (list (Composed P)) (Z * Z) :=
  let '(rev, edits, payloads) := m in
  let? old := mapM_res (fun it =>
      match through_member (cp_range it) edits with
      | Some (r, sides) => Ok (mkComposed r (cp_payload it) (cp_member it), sides)
      | None => Err (cp_member it, rev)
      end) items in
  let new := List.rev (imap (fun i rp => (i, mkComposed (fst rp) (snd rp) rev))
                            (zip (post_ranges_raw edits) payloads)) in
  merge_items rev old new.

Definition compose_members (members : list (Z * list RawEdit * list P))
    : result (list (Composed P)) (Z * Z) :=
  foldM_res compose_member [] members.
End compose.

Definition range_len (r : range) : nat := snd r - fst r.

(** A range through a sequence of raw edits. *)
Fixpoint raw_range_seq (r : range) (edits : list RawEdit) (prio : Priority) : option range :=
  match edits with
  | [] => Some r
  | ed :: edits => '(r, _) ← transform_raw r ed prio; raw_range_seq r edits prio
  end.

(** The loop of [exclude] over the entries after the group. *)
Fixpoint exclude_rest (inv : list (range * nat)) (rest : list Red) : option (list Red) :=
  match rest with
  | [] => Some []
  | s :: rest =>
    let seq := map (fun rl => mkRaw (fst (fst rl)) (range_len (fst rl)) (snd rl)) (List.rev inv) in
    edits ← mapM (fun ed => r ← raw_range_seq (p ed, p ed + dd ed) seq SelfFirst;
                            Some (mkRaw (fst r) (dd ed) (ii ed))) (red_edits s);
    inv ← mapM (fun rl => r ← raw_range_seq (fst rl) (red_edits s) ThroughFirst; Some (r, snd rl)) inv;
    out ← exclude_rest inv rest;
    Some (mkRed (red_entry s) edits :: out)
  end.

Definition exclude (group rest : list Red) : option (list Red) :=
  let members := map (fun r => (le_rev (red_entry r), red_edits r, map dd (red_edits r))) group in
  match compose_members members with
  | Err _ => None
  | Ok composed => exclude_rest (map (fun c => (cp_range c, cp_payload c)) composed) rest
  end.

(** ** Small helpers *)

Definition BOM : bytes := [xef; xbb; xbf].

(** Whether [next] continues [prev] as one typing (or deleting) run. *)
Definition contiguous (prev next : Edit) : bool :=
  let pure_insert e := (e_delete e =? 0) && negb (length (e_insert e) =? 0) in
  let pure_delete e := (0 <? e_delete e) && (length (e_insert e) =? 0) in
  if pure_insert prev && pure_insert next then e_offset next =? e_offset prev + length (e_insert prev)
  else if pure_delete prev && pure_delete next then
    (e_offset next + e_delete next =? e_offset prev) || (e_offset next =? e_offset prev)
  else false.

Definition check_overlap (items : list Resolved) : res unit :=
  match first_overlap (map (fun r => (r_s r, r_e r)) items) with
  | Some _ => Err (invalid reason.OVERLAP_IN_TXN)
  | None => Ok tt
  end.

Definition resolved_key (r : Resolved) : nat * nat * nat := (r_s r, r_e r, r_idx r).

Definition canonical (items : list Resolved) : list Resolved :=
  stable_sort (fun a b => canonical_leb (resolved_key a) (resolved_key b)) items.

Definition resolved_edit (r : Resolved) : Edit := mkEdit (r_s r) (r_e r - r_s r) (r_text r).

(** ** The text after a canonical sequence *)

Inductive Seg := SBase (a b : nat) | SIns (s : bytes).

Definition Seg_len (s : Seg) : nat := match s with SBase a b => b - a | SIns s => length s end.

Record PostView := mkPostView { segs : list (nat * Seg); pv_len : nat }.

Definition pv_push (v : PostView) (s : Seg) : PostView :=
  let n := Seg_len s in
  if 0 <? n then mkPostView (segs v ++ [(pv_len v, s)]) (pv_len v + n) else v.

Fixpoint pv_edits (v : PostView) (pos : nat) (seq : list Edit) : PostView * nat :=
  match seq with
  | [] => (v, pos)
  | e :: seq => pv_edits (pv_push (pv_push v (SBase pos (e_offset e))) (SIns (e_insert e)))
                         (e_offset e + e_delete e) seq
  end.

Definition PostView_new (len : nat) (seq : list Edit) : PostView :=
  let '(v, pos) := pv_edits (mkPostView [] 0) 0 (List.rev seq) in
  pv_push v (SBase pos len).

(** The walk of [after_cols] over the scalars of one piece: offset, columns
    left, whether to go on. *)
Fixpoint step_chars (cs : list bytes) (off remaining : nat) : nat * nat * bool :=
  match cs with
  | [] => (off, remaining, true)
  | c :: cs =>
    if decide (c = [NL]) then (off, remaining, false)
    else
      let off := off + length c in
      let remaining := remaining - 1 in
      if 0 <? remaining then step_chars cs off remaining else (off, remaining, false)
  end.

(** ** The buffer *)

Record Buffer (G : Type) := mkBuffer {
  b_text : Text G;
  b_log : OpLog;
  b_rev : Z;
  saved_rev : option Z;
  anchors : list NamedAnchor;
  selections : gmap Origin (list Selection);
}.
Arguments mkBuffer {G}.
Arguments b_text {G}.
Arguments b_log {G}.
Arguments b_rev {G}.
Arguments saved_rev {G}.
Arguments anchors {G}.
Arguments selections {G}.

Section buffer.
Context {G : Type} {TS : TextStore G} (vec_reserve : nat -> nat -> bool).
Implicit Types b : Buffer G.

Definition with_text (t : Text G) : Buffer G := mkBuffer t OpLog_default 0 None [] ∅.
Definition set_text b (t : Text G) : Buffer G :=
  mkBuffer t (b_log b) (b_rev b) (saved_rev b) (anchors b) (selections b).
Definition set_log b (l : OpLog) : Buffer G :=
  mkBuffer (b_text b) l (b_rev b) (saved_rev b) (anchors b) (selections b).

Definition Buffer_new : res (Buffer G) := let? t := Text_new in Ok (with_text t).

(** [strip_prefix(BOM)] *)
Definition strip_bom (s : bytes) : bool * bytes :=
  if decide (take 3 s = BOM) then (true, drop 3 s) else (false, s).

(** [s.matches("\r\n").count()] *)
Fixpoint count_crlf (s : bytes) : nat :=
  match s with
  | [] => 0
  | a :: r =>
    match r with
    | c :: r' => if Byte.eqb a CR && Byte.eqb c NL then S (count_crlf r') else count_crlf r
    | [] => 0
    end
  end.

Definition from_bytes (s : bytes) : res (Buffer G * FileMeta) :=
  let '(bom, body) := strip_bom s in
  if negb (from_utf8_ok body) then
    Err (with_num (invalid reason.NOT_UTF8) "offset" (valid_up_to body + if bom then length BOM else 0))
  else
    let? t := from_text vec_reserve body in
    let lf := count_newlines body in
    let crlf := count_crlf body in
    let eol := if lf =? 0 then NoEol else if lf =? crlf then Crlf else if crlf =? 0 then Lf else Mixed in
    Ok (with_text t, mkFileMeta bom eol).

Definition to_bytes b (meta : FileMeta) : bytes :=
  (if bom meta then BOM else []) ++ to_string_lossless (b_text b).

Definition Buffer_len b : nat := len (b_text b).

Definition check_offset b (o : nat) : res nat :=
  if Buffer_len b <? o then
    Err (with_num (with_num (invalid reason.OFFSET_OUT_OF_RANGE) "offset" o) "bytes" (Buffer_len b))
  else if negb (is_char_boundary (b_text b) o) then
    Err (with_num (invalid reason.NOT_CHAR_BOUNDARY) "offset" o)
  else Ok o.

Definition check_line b (line : nat) : res unit :=
  if (line =? 0) || (line_count (b_text b) <? line) then
    Err (with_num (with_num (invalid reason.LINE_OUT_OF_RANGE) "line" line) "lines" (line_count (b_text b)))
  else Ok tt.

Definition unknown_anchor (name : bytes) : CoreError :=
  CoreError_with (CoreError_new NotFound reason.UNKNOWN_ANCHOR) "name" (CStr name).

Definition anchor b (name : bytes) : option NamedAnchor :=
  find (fun a => bool_decide (a_name a = name)) (anchors b).

Definition resolve_pos b (p : PosSpec) : res nat :=
  match p with
  | Offset o => check_offset b o
  | Named Start => Ok 0
  | Named End_ => Ok (Buffer_len b)
  | LineCol line col =>
    let? _ := check_line b line in
    let col := default 1 col in
    ok_or (line_col_offset (b_text b) line col)
      (with_num (with_num (invalid reason.COL_OUT_OF_RANGE) "line" line) "col" col)
  | PAnchor name => ok_or ((fun a => a_offset (a_start a)) <$> anchor b name) (unknown_anchor name)
  end.

Definition ordered (s e : nat) : res range :=
  if e <? s then Err (invalid reason.BAD_ARGS) else Ok (s, e).

Definition resolve_range b (r : RangeSpec) : res range :=
  match r with
  | Offsets s e => let? s := check_offset b s in let? e := check_offset b e in ordered s e
  | Span start stop => let? s := resolve_pos b start in let? e := resolve_pos b stop in ordered s e
  | Lines a c =>
    let? _ := check_line b a in
    let? _ := check_line b c in
    if c <? a then Err (with_num (invalid reason.LINE_OUT_OF_RANGE) "line" a)
    else
      let s := default 0 (line_start (b_text b) a) in
      let e := default (Buffer_len b) (line_start (b_text b) (c + 1)) in
      Ok (s, e)
  | RAnchor name =>
    let? a := ok_or (anchor b name) (unknown_anchor name) in
    Ok (a_offset (a_start a), match a_end a with Some e => a_offset e | None => a_offset (a_start a) end)
  | RAll => Ok (0, Buffer_len b)
  end.

Definition snapshot b : bytes := to_string_lossless (b_text b).

Definition conflict b (r : string) : CoreError :=
  CoreError_with (CoreError_new Conflict r) "rev" (CNum (b_rev b)).

(** ** Resolving a request *)

Definition offsets_only (op : OpSpec) : bool :=
  match op with
  | OpInsert (Offset _) _ | OpDelete (Offsets _ _) | OpReplace (Offsets _ _) _ => true
  | _ => false
  end.

(** The revision to rebase from, or the CAS refusal. *)
Definition rebase_from b (cas : Cas) : res (option Z) :=
  match cas with
  | Latest => Ok None
  | ExpectRev r => if negb (r =? b_rev b)%Z then Err (conflict b reason.STALE_REV) else Ok None
  | BaseRev r =>
    if (b_rev b <? r)%Z then
      Err (CoreError_with (invalid reason.BASE_REV_IN_FUTURE) "rev" (CNum (b_rev b)))
    else if (r <? oldest_rev (b_log b))%Z then
      Err (CoreError_with (conflict b reason.HISTORY_TRIMMED) "oldest_rev" (CNum (oldest_rev (b_log b))))
    else Ok (if (r <? b_rev b)%Z then Some r else None)
  end.

Definition resolve_op b (op : OpSpec) : res (range * bytes) :=
  match op with
  | OpInsert at_ text => let? p := resolve_pos b at_ in Ok ((p, p), text)
  | OpDelete range => let? r := resolve_range b range in Ok (r, [])
  | OpReplace range text => let? r := resolve_range b range in Ok (r, text)
  end.

(** Length of the text at rev [r], from the net size of every later entry. *)
Definition hist_len b (r : Z) : Z :=
  foldl (fun n entry => foldl (fun n e => n + Z.of_nat (e_delete e) - Z.of_nat (length (e_insert e)))%Z n (le_edits entry))
    (Z.of_nat (Buffer_len b)) (after (b_log b) r).

(** An op of a [base_rev] request; other shapes were refused before. *)
Definition resolve_base_op (n : Z) (op : OpSpec) : res (range * bytes) :=
  let '(s, e, text) :=
    match op with
    | OpInsert (Offset p) text => (p, p, text)
    | OpDelete (Offsets s e) => (s, e, [])
    | OpReplace (Offsets s e) text => (s, e, text)
    | _ => (0, 0, [])
    end in
  if (n <? Z.of_nat e)%Z || (n <? Z.of_nat s)%Z then
    Err (with_num (invalid reason.OFFSET_OUT_OF_RANGE) "offset" (max s e))
  else if e <? s then Err (invalid reason.BAD_ARGS)
  else Ok ((s, e), text).

Definition rebase_conflict b (entry : LogEntry) : CoreError :=
  CoreError_with (CoreError_with (conflict b reason.OVERLAP) "intervening_rev" (CNum (le_rev entry)))
    "intervening_origin" (CStr (Origin_to_string (le_origin entry))).

(** A base range through the entries after the base revision. *)
Fixpoint rebase_range b (r : range) (es : list LogEntry) : res range :=
  match es with
  | [] => Ok r
  | entry :: es =>
    let? r := ok_or (transform_range_seq r (le_edits entry) ThroughFirst) (rebase_conflict b entry) in
    rebase_range b r es
  end.

Definition rebase_item b (es : list LogEntry) (it : Resolved) : res Resolved :=
  let? r := rebase_range b (r_s it, r_e it) es in
  let? _ := check_offset b (fst r) in
  let? _ := check_offset b (snd r) in
  Ok (mkResolved (fst r) (snd r) (r_text it) (r_idx it)).

Definition number (items : list (range * bytes)) : list Resolved :=
  imap (fun i it => mkResolved (fst (fst it)) (snd (fst it)) (snd it) i) items.

Definition resolve_items b (from : option Z) (ops : list OpSpec) : res (list Resolved) :=
  match from with
  | None =>
    let? its := mapM_res (resolve_op b) ops in
    let items := number its in
    let? _ := check_overlap items in
    Ok items
  | Some r =>
    let n := hist_len b r in
    let? its := mapM_res (resolve_base_op n) ops in
    let items := number its in
    let? _ := check_overlap items in
    mapM_res (rebase_item b (after (b_log b) r)) items
  end.

Definition resolve_txn b (req : TxnRequest) : res (list Resolved) :=
  if length (rq_ops req) =? 0 then Err (invalid reason.BAD_ARGS) else
  let? _ := (match rq_cas req with
             | BaseRev _ => if negb (forallb offsets_only (rq_ops req))
                            then Err (invalid reason.BASE_REV_NEEDS_OFFSETS) else Ok tt
             | _ => Ok tt
             end) in
  let? from := rebase_from b (rq_cas req) in
  let? items := resolve_items b from (rq_ops req) in
  if exceeds (length (rq_ops req)) MAX_OPS_PER_TXN then
    Err (CoreError_with limit "limit" (CNum MAX_OPS_PER_TXN))
  else if exceeds (sum_list_with (fun r => length (r_text r)) items) MAX_REQUEST_TEXT_BYTES then
    Err (CoreError_with (CoreError_new ResourceLimit reason.TOO_LARGE) "limit" (CNum MAX_REQUEST_TEXT_BYTES))
  else Ok items.

(** ** The post-edit cursor *)

Definition pv_is_char_boundary (t : Text G) (v : PostView) (o : nat) : bool :=
  if pv_len v <=? o then o =? pv_len v else
  let i := partition_point (fun s => s <=? o) (map fst (segs v)) - 1 in
  match segs v !! i with
  | Some (start, SBase a _) => is_char_boundary t (a + (o - start))
  | Some (start, SIns s) => is_boundary s (o - start)
  | None => false
  end.

(** The [want]-th newline of an inserted string: the offset after it, or how
    many are still wanted. *)
Fixpoint ins_line_start (s : bytes) (j want : nat) : option nat * nat :=
  match s with
  | [] => (None, want)
  | c :: s =>
    if is_nl c then
      let want := want - 1 in
      if want =? 0 then (Some (j + 1), 0) else ins_line_start s (j + 1) want
    else ins_line_start s (j + 1) want
  end.

Fixpoint pv_line_start_from (t : Text G) (sg : list (nat * Seg)) (want : nat) : option nat :=
  match sg with
  | [] => None
  | (start, SBase a b) :: sg =>
    let ls := starts_in t a b in
    if want <=? length ls then Some (start + (default 0 (ls !! (want - 1)) - a))
    else pv_line_start_from t sg (want - length ls)
  | (start, SIns s) :: sg =>
    match ins_line_start s 0 want with
    | (Some j, _) => Some (start + j)
    | (None, want) => pv_line_start_from t sg want
    end
  end.

Definition pv_line_start (t : Text G) (v : PostView) (line : nat) : option nat :=
  if line =? 1 then Some 0 else pv_line_start_from t (segs v) (line - 1).

Definition col_closure (st : nat * nat * bool) (s : bytes) : (nat * nat * bool) * bool :=
  let '(off, remaining, _) := st in
  let st := step_chars (chars s) off remaining in
  (st, snd st).

Fixpoint pv_walk_cols (t : Text G) (sg : list (nat * Seg)) (from off remaining : nat) : nat * nat :=
  match sg with
  | [] => (off, remaining)
  | (start, seg) :: sg =>
    if start + Seg_len seg <=? from then pv_walk_cols t sg from off remaining else
    let local := from - start in
    let '(off, remaining, go) :=
      match seg with
      | SBase a b => for_each_str t (a + local) b col_closure (off, remaining, true)
      | SIns s => step_chars (chars (drop local s)) off remaining
      end in
    if go : bool then pv_walk_cols t sg from off remaining else (off, remaining)
  end.

Definition pv_after_cols (t : Text G) (v : PostView) (from cols : nat) : option nat :=
  if cols =? 0 then Some from else
  let '(off, remaining) := pv_walk_cols t (segs v) from from cols in
  if remaining =? 0 then Some off else None.

Definition resolve_post b (p : PosSpec) (seq : list Edit) (final_lines : nat) : res nat :=
  let view := PostView_new (Buffer_len b) seq in
  let t := b_text b in
  match p with
  | Offset o =>
    if pv_len view <? o then Err (with_num (invalid reason.OFFSET_OUT_OF_RANGE) "offset" o)
    else if negb (pv_is_char_boundary t view o) then Err (with_num (invalid reason.NOT_CHAR_BOUNDARY) "offset" o)
    else Ok o
  | Named Start => Ok 0
  | Named End_ => Ok (pv_len view)
  | LineCol line col =>
    if (line =? 0) || (final_lines <? line) then
      Err (with_num (invalid reason.LINE_OUT_OF_RANGE) "line" line)
    else
      let col := default 1 col in
      let start := default (pv_len view) (pv_line_start t view line) in
      let at_ := if 1 <=? col then pv_after_cols t view start (col - 1) else None in
      ok_or at_ (with_num (with_num (invalid reason.COL_OUT_OF_RANGE) "line" line) "col" col)
  | PAnchor name =>
    let? a := ok_or (anchor b name) (unknown_anchor name) in
    Ok (a_offset (a_start (NamedAnchor_map a seq (b_rev b + 1))))
  end.

(** ** Committing a transaction *)

Definition selection_room b (o : Origin) : bool :=
  match selections b !! o with
  | Some _ => true
  | None => negb (MAX_SELECTION_ORIGINS <=? Z.of_nat (size (selections b)))%Z
  end.

(** Validation that needs the post-edit shape: the cursor's offset. *)
Definition txn_cursor b (c : Commit) (seq : list Edit) : res (option nat) :=
  let? sim := simulate (b_text b) seq in
  match c_cursor c with
  | None => Ok None
  | Some p =>
    let? at_ := resolve_post b p seq (final_lines sim) in
    if negb (selection_room b (c_origin c)) then
      Err (CoreError_with limit "limit" (CNum MAX_SELECTION_ORIGINS))
    else Ok (Some at_)
  end.

Definition get_lane (l : OpLog) (o : Origin) : Lane := default Lane_default (lanes l !! o).
Definition set_lane (l : OpLog) (o : Origin) (lane : Lane) : OpLog :=
  mkOpLog (entries l) (<[o := lane]> (lanes l)) (text_bytes l) (base l).

Definition coalesced b (c : Commit) (seq : list Edit) : bool :=
  c_coalesce c && bool_decide (c_kind c = KEdit) &&
  match seq with
  | [e] =>
    match list.last (undo_stack (get_lane (b_log b) (c_lane c))) with
    | Some g => (g_end g =? b_rev b)%Z
    | None => false
    end &&
    match list.last (entries (b_log b)) with
    | Some prev =>
      (le_rev prev =? b_rev b)%Z && bool_decide (le_kind prev = KEdit) && bool_decide (le_lane prev = c_lane c) &&
      match le_edits prev with [pe] => contiguous pe e | _ => false end
    | None => false
    end
  | _ => false
  end.

Definition removelast_group (gs : list Group) : list Group := take (length gs - 1) gs.

(** The lane after the new entry [new_rev]. *)
Definition lane_after (lane : Lane) (k : EntryKind) (co : bool) (new_rev : Z) : Lane :=
  let g := mkGroup new_rev new_rev in
  match k with
  | KEdit | KReload =>
    match list.last (undo_stack lane) with
    | Some top => if co then mkLane (removelast_group (undo_stack lane) ++ [mkGroup (g_start top) new_rev]) []
                  else mkLane (undo_stack lane ++ [g]) []
    | None => mkLane (undo_stack lane ++ [g]) []
    end
  | KUndo _ => mkLane (removelast_group (undo_stack lane)) (redo_stack lane ++ [g])
  | KRedo _ => mkLane (undo_stack lane ++ [g]) (removelast_group (redo_stack lane))
  end.

Definition map_selections b (o : Origin) (seq : list Edit) : gmap Origin (list Selection) :=
  map_imap (fun k sels =>
    let bias := if decide (k = o) then After else Before in
    Some (map (fun s => Selection_map s seq bias) sels)) (selections b).

(** Phase 2, after [Text::commit]: anchors, selections, lanes, log, revision. *)
Definition record_txn b (t : Text G) (c : Commit) (seq : list Edit) (deleted : list bytes) (cursor : option nat)
    : Buffer G * Applied :=
  let base_rev := b_rev b in
  let new_rev := (base_rev + 1)%Z in
  let ans := map (fun a => NamedAnchor_map a seq new_rev) (anchors b) in
  let sels := map_selections b (c_origin c) seq in
  let sels := match cursor with Some at_ => <[c_origin c := [mkSelection at_ at_]]> sels | None => sels end in
  let changed := stable_sort (fun x y => fst x <=? fst y) (filter (fun r => range_is_empty r = false) (post_ranges seq)) in
  let co := coalesced b c seq in
  let log := set_lane (b_log b) (c_lane c) (lane_after (get_lane (b_log b) (c_lane c)) (c_kind c) co new_rev) in
  let entry := mkLogEntry new_rev (c_origin c) (c_lane c) (c_kind c) seq deleted (c_via c) (c_op_id c) (c_now_ms c) in
  let '(log, trimmed) := push log entry in
  (mkBuffer t log new_rev (saved_rev b) ans sels,
   mkApplied new_rev base_rev (c_kind c) seq changed (c_rebased c) (c_op_id c)
     (sum_list_with (fun e => length (e_insert e)) seq) (sum_list_with e_delete seq) trimmed).

Definition commit_txn b (items : list Resolved) (c : Commit) : option (Buffer G * res Applied) :=
  let items := canonical items in
  let deleted := map (fun r => read (b_text b) (r_s r) (r_e r) []) items in
  let seq := map resolved_edit items in
  match txn_cursor b c seq with
  | Err e => Some (b, Err e)
  | Ok cursor =>
    let '(t1, prep) := prepare vec_reserve (b_text b) seq in
    let b := set_text b t1 in
    match prep with
    | Err e => Some (b, Err e)
    | Ok prepared =>
      if negb (vec_reserve (length (entries (b_log b))) 1) then Some (b, Err oom) else
      let lane := get_lane (b_log b) (c_lane c) in
      let b := set_log b (set_lane (b_log b) (c_lane c) lane) in
      if negb (vec_reserve (length (undo_stack lane)) 1) then Some (b, Err oom)
      else if negb (vec_reserve (length (redo_stack lane)) 1) then Some (b, Err oom)
      else
        t2 ← commit t1 prepared;
        let '(b, applied) := record_txn b t2 c seq deleted cursor in
        Some (b, Ok applied)
    end
  end.

Definition apply b (req : TxnRequest) (origin : Origin) (via : Via) (now_ms : Z) : option (Buffer G * res Applied) :=
  match resolve_txn b req with
  | Err e => Some (b, Err e)
  | Ok items =>
    let rebased := match rq_cas req with BaseRev r => (r <? b_rev b)%Z | _ => false end in
    commit_txn b items (mkCommit origin origin KEdit via now_ms (rq_op_id req) (rq_coalesce req) (rq_cursor req) rebased)
  end.

Definition cost_of b (items : list Resolved) : res nat :=
  let seq := map resolved_edit (canonical items) in
  let? sim := simulate (b_text b) seq in
  let log_text := sum_list_with (fun e => length (e_insert e) + e_delete e) seq in
  Ok (peak_len sim - Buffer_len b + log_text).

Definition apply_cost b (req : TxnRequest) : res nat :=
  let? items := resolve_txn b req in cost_of b items.

(** ** Undo and redo *)

Definition top_group b (redo : bool) (o : Origin) : option Group :=
  lane ← lanes (b_log b) !! o; list.last (if redo then redo_stack lane else undo_stack lane).

(** [max_by_key] of the lanes' top revisions. *)
Definition newest_lane b (redo : bool) : option (Z * Origin) :=
  foldl (fun best kv =>
    match top_group b redo kv.1 with
    | None => best
    | Some g => match best with
                | Some (e, _) => if (e <=? g_end g)%Z then Some (g_end g, kv.1) else best
                | None => Some (g_end g, kv.1)
                end
    end) None (map_to_list (lanes (b_log b))).

Definition pick_lane b (sel : LaneSel) (caller : Origin) (redo : bool) : res Origin :=
  let lane := match sel with
              | Own => caller
              | OneLane o => o
              | All => default caller (snd <$> newest_lane b redo)
              end in
  match top_group b redo lane with
  | Some _ => Ok lane
  | None =>
    let r := if redo then reason.NOTHING_TO_REDO else reason.NOTHING_TO_UNDO in
    let lane_name := match sel with All => bs "*" | _ => Origin_to_string lane end in
    Err (CoreError_with (CoreError_with (CoreError_new NotFound r) "lane" (CStr lane_name)) "rev" (CNum (b_rev b)))
  end.

Definition undo_conflict b (lane : Origin) (entry : option LogEntry) : CoreError :=
  let err := match entry with
             | Some e => CoreError_with (CoreError_with (conflict b reason.UNDO_CONFLICT)
                           "intervening_rev" (CNum (le_rev e)))
                           "intervening_origin" (CStr (Origin_to_string (le_origin e)))
             | None => conflict b reason.UNDO_CONFLICT
             end in
  CoreError_with err "lane" (CStr (Origin_to_string lane)).

Definition entry_at b (rev : Z) : option LogEntry :=
  e ← head (after (b_log b) (sat_sub64 rev 1)); if (le_rev e =? rev)%Z then Some e else None.

Definition zrange (a b : Z) : list Z := map (fun i => a + Z.of_nat i)%Z (seq 0 (Z.to_nat (b - a + 1))).

(** The entries of [red] that [undo] of [a..=b] cancels against, and the
    rewritten rest. *)
Definition cancel (red : list Red) (g : Group) : option (list Red) :=
  let n := Z.to_nat (sat_add64 (sat_sub64 (g_end g) (g_start g)) 1) in
  '(pos, _) ← list_find (fun r => le_rev (red_entry r) = g_start g) red;
  if length red <? pos + n then None else
  let grp := slice pos (pos + n) red in
  if forallb (fun rz => (le_rev (red_entry rz.1) =? rz.2)%Z) (zip grp (zrange (g_start g) (g_end g))) then
    rest ← exclude grp (drop (pos + n) red); Some (take pos red ++ rest)
  else None.

Definition reduce_step (red : list Red) (entry : LogEntry) : list Red :=
  let keep := red ++ [mkRed entry (map RawEdit_of (le_edits entry))] in
  match le_kind entry with
  | KUndo g | KRedo g => default keep (cancel red g)
  | _ => keep
  end.

Definition reduced_after b (last : Z) : list Red := foldl reduce_step [] (after (b_log b) last).

Definition member_of (e : LogEntry) : Z * list RawEdit * list (bytes * bytes) :=
  (le_rev e, map RawEdit_of (le_edits e),
   imap (fun i ed => (default [] (le_deleted e !! i), e_insert ed)) (le_edits e)).

Fixpoint take_members (last : Z) (es : list LogEntry) : list LogEntry :=
  match es with
  | [] => []
  | e :: es => if (le_rev e <=? last)%Z then e :: take_members last es else []
  end.

Definition through_red b (lane : Origin) (items : list UndoItem) (r : Red) : res (list UndoItem) :=
  mapM_res (fun it =>
    match raw_range_seq (u_range it) (red_edits r) ThroughFirst with
    | Some rg => Ok (mkUndoItem rg (u_restore it) (u_expect it) (u_member it))
    | None => Err (undo_conflict b lane (Some (red_entry r)))
    end) items.

(** Step 3: the union must itself be overlap-free. *)
Fixpoint union_ok (max_e : nat) (items : list UndoItem) : bool :=
  match items with
  | [] => true
  | it :: items =>
    if fst (u_range it) <? max_e then false
    else union_ok (if range_is_empty (u_range it) then max_e else snd (u_range it)) items
  end.

Definition compose_inverse b (group : Group) (lane : Origin) : res (list UndoItem) :=
  let first := g_start group in
  let last := g_end group in
  if (first <=? oldest_rev (b_log b))%Z then
    Err (CoreError_with (conflict b reason.HISTORY_TRIMMED) "oldest_rev" (CNum (oldest_rev (b_log b))))
  else
    let members := map member_of (take_members last (after (b_log b) (first - 1))) in
    let? composed := map_err (fun mr => undo_conflict b lane (entry_at b mr.2)) (compose_members members) in
    let items := map (fun c => mkUndoItem (cp_range c) (cp_payload c).1 (cp_payload c).2 (cp_member c)) composed in
    let? items := foldM_res (through_red b lane) items (reduced_after b last) in
    if negb (union_ok 0 items) then Err (undo_conflict b lane None)
    else if negb (forallb (fun it => bool_decide (read (b_text b) (fst (u_range it)) (snd (u_range it)) [] = u_expect it)) items)
    then Err (undo_conflict b lane None)
    else Ok items.

Definition undo_plan b (sel : LaneSel) (caller : Origin) (redo : bool) : res (Origin * Group * list Resolved) :=
  let? lane := pick_lane b sel caller redo in
  let group := default (mkGroup 0 0) (top_group b redo lane) in
  let? items := compose_inverse b group lane in
  Ok (lane, group, imap (fun i it => mkResolved (fst (u_range it)) (snd (u_range it)) (u_restore it) i) items).

Definition undo_redo b (sel : LaneSel) (caller : Origin) (via : Via) (now_ms : Z) (redo : bool) (op_id : option bytes)
    : option (Buffer G * res Applied) :=
  match undo_plan b sel caller redo with
  | Err e => Some (b, Err e)
  | Ok (lane, group, resolved) =>
    let k := if redo then KRedo group else KUndo group in
    commit_txn b resolved (mkCommit caller lane k via now_ms op_id false None false)
  end.

Definition undo b sel caller via now_ms := undo_redo b sel caller via now_ms false None.
Definition redo b sel caller via now_ms := undo_redo b sel caller via now_ms true None.

Definition undo_cost b (sel : LaneSel) (caller : Origin) (redo : bool) : res nat :=
  let? (_, _, resolved) := undo_plan b sel caller redo in cost_of b resolved.

(** ** Reload *)

Fixpoint common_prefix (a b : bytes) : nat :=
  match a, b with
  | x :: a, y :: b => if Byte.eqb x y then S (common_prefix a b) else 0
  | _, _ => 0
  end.

(** [while !cur.is_char_boundary(pre) || !new.is_char_boundary(pre) { pre -= 1 }] *)
Fixpoint floor_prefix (cur new : bytes) (pre : nat) : nat :=
  if is_boundary cur pre && is_boundary new pre then pre
  else match pre with 0 => 0 | S pre => floor_prefix cur new pre end.

Fixpoint floor_suffix (cur new : bytes) (suf : nat) : nat :=
  if is_boundary cur (length cur - suf) && is_boundary new (length new - suf) then suf
  else match suf with 0 => 0 | S suf => floor_suffix cur new suf end.

(** The kept prefix and suffix, or [None] when the texts are identical. *)
Definition reload_item (cur new_text : bytes) : option Resolved :=
  let pre := floor_prefix cur new_text (common_prefix cur new_text) in
  if (pre =? length cur) && (pre =? length new_text) then None else
  let room := min (length cur) (length new_text) - pre in
  let suf := common_prefix (take room (List.rev cur)) (take room (List.rev new_text)) in
  let suf := floor_suffix cur new_text suf in
  Some (mkResolved pre (length cur - suf) (slice pre (length new_text - suf) new_text) 0).

Definition disk : Origin := mkOrigin Tool (bs "disk").

Definition reload_minimal b (new_text : bytes) (via : Via) (now_ms : Z) : option (Buffer G * res (option Applied)) :=
  let '(t, cur) := Text.contiguous (b_text b) in
  let b := set_text b t in
  match reload_item cur new_text with
  | None => Some (b, Ok None)
  | Some item =>
    '(b, r) ← commit_txn b [item] (mkCommit disk disk KReload via now_ms None false None false);
    Some (b, let? a := r in Ok (Some a))
  end.

(** ** Selections and anchors *)

Definition set_selections b (origin : Origin) (sels : list Selection) : Buffer G * res unit :=
  let upd m := mkBuffer (b_text b) (b_log b) (b_rev b) (saved_rev b) (anchors b) m in
  if exceeds (length sels) MAX_SELECTIONS_PER_ORIGIN then
    (b, Err (CoreError_with limit "limit" (CNum MAX_SELECTIONS_PER_ORIGIN)))
  else
    match mapM_res (fun s => let? _ := check_offset b (sel_anchor s) in check_offset b (sel_head s)) sels with
    | Err e => (b, Err e)
    | Ok _ =>
      if length sels =? 0 then (upd (delete origin (selections b)), Ok tt)
      else if negb (selection_room b origin) then
        (b, Err (CoreError_with limit "limit" (CNum MAX_SELECTION_ORIGINS)))
      else (upd (<[origin := sels]> (selections b)), Ok tt)
    end.

Definition build_anchor b (name : bytes) (spec : AnchorSpec) : res NamedAnchor :=
  match sp_at spec, sp_range spec with
  | Some at_, None =>
    let? o := resolve_pos b at_ in
    Ok (mkNamedAnchor name (mkAnchor o (default Before (sp_bias spec)) None) None)
  | None, Some range =>
    let? r := resolve_range b range in
    Ok (mkNamedAnchor name (mkAnchor (fst r) After None) (Some (mkAnchor (snd r) Before None)))
  | _, _ => Err (invalid reason.BAD_ARGS)
  end.

(** [find(|a| a.name == name)] replaced in place, or [None]. *)
Fixpoint replace_anchor (name : bytes) (a : NamedAnchor) (l : list NamedAnchor) : option (list NamedAnchor) :=
  match l with
  | [] => None
  | x :: l => if decide (a_name x = name) then Some (a :: l)
              else (fun l => x :: l) <$> replace_anchor name a l
  end.

Definition anchor_set b (name : bytes) (spec : AnchorSpec) : Buffer G * res unit :=
  let upd l := mkBuffer (b_text b) (b_log b) (b_rev b) (saved_rev b) l (selections b) in
  if negb (is_valid_name name) then (b, Err (invalid reason.BAD_NAME)) else
  match build_anchor b name spec with
  | Err e => (b, Err e)
  | Ok a =>
    match replace_anchor name a (anchors b) with
    | Some l => (upd l, Ok tt)
    | None =>
      if (MAX_ANCHORS <=? Z.of_nat (length (anchors b)))%Z then
        (b, Err (CoreError_with limit "limit" (CNum MAX_ANCHORS)))
      else (upd (anchors b ++ [a]), Ok tt)
    end
  end.

Definition anchor_clear b (name : bytes) : Buffer G * bool :=
  let l := filter (fun a => a_name a <> name) (anchors b) in
  (mkBuffer (b_text b) (b_log b) (b_rev b) (saved_rev b) l (selections b),
   negb (length l =? length (anchors b))).

Definition mark_saved b : Buffer G :=
  mkBuffer (b_text b) (b_log b) (b_rev b) (Some (b_rev b)) (anchors b) (selections b).

Definition is_dirty b : bool := negb (bool_decide (saved_rev b = Some (b_rev b))).

Definition history b (since_rev : Z) (limit : nat) : list LogEntry := since (b_log b) since_rev limit.

Definition lane_stacks b (o : Origin) : list Group * list Group :=
  let lane := get_lane (b_log b) o in (undo_stack lane, redo_stack lane).
End buffer.
