(* ===== verification/Cursor.v ===== *)
(** * The post-edit cursor

    [Buffer::resolve_post] resolves a position in the text a transaction will
    make, before it is made, over a list of segments ([PostView]). This file
    proves the segments to be that text and the resolution to be the one the
    edited buffer would give. *)

From S2P Require Import Prelude Utf8 EditBase Ot Anchor GapBuffer Text History Buffer.

(** A boundary of a slice is a boundary of the text. *)
Lemma slice_boundary t a b k :
  is_boundary t a = true -> k < b - a -> is_boundary (slice a b t) k = is_boundary t (a + k).
Proof.
  intros Ha Hk. unfold is_boundary at 1 2, slice. rewrite lookup_take_lt, lookup_drop by done.
  destruct (Nat.eqb_spec k 0) as [->|Hk0].
  - rewrite Nat.add_0_r. unfold is_boundary in Ha. destruct (t !! a) eqn:E; [by rewrite Ha|].
    rewrite Ha. rewrite length_take, length_drop. apply Nat.eqb_eq in Ha. lia.
  - destruct (t !! (a + k)) eqn:E; [by destruct (Nat.eqb_spec (a + k) 0); [lia|]|].
    apply lookup_ge_None in E. rewrite length_take, length_drop. lia.
Qed.

(** The [want]-th newline of an inserted string. *)
Lemma ins_line_start_spec s j want :
  1 <= want ->
  ins_line_start s j want =
  match newline_starts j s !! (want - 1) with
  | Some k => (Some k, 0)
  | None => (None, want - count_newlines s)
  end.
Proof.
  revert j want; induction s as [|c s IH]; intros j want Hw; cbn [ins_line_start newline_starts].
  { cbn. by rewrite Nat.sub_0_r. }
  rewrite count_newlines_cons, Nat.add_1_r. destruct (is_nl c) eqn:Ec; [|by rewrite IH by done].
  destruct (Nat.eqb_spec (want - 1) 0) as [->|Hne]; [done|].
  rewrite IH by lia. replace (want - 1) with (S (want - 1 - 1)) at 2 by lia. cbn [lookup list_lookup].
  change (list_lookup (want - 1 - 1) (newline_starts (S j) s)) with (newline_starts (S j) s !! (want - 1 - 1)).
  destruct (newline_starts (S j) s !! (want - 1 - 1)); [done|]. f_equal. lia.
Qed.

Lemma step_chars_app xs ys off rem :
  step_chars (xs ++ ys) off rem =
  let '(off', rem', go) := step_chars xs off rem in
  if go then step_chars ys off' rem' else (off', rem', false).
Proof.
  revert off rem; induction xs as [|c xs IH]; intros off rem; cbn [app step_chars]; [done|].
  destruct (decide (c = [NL])); [done|]. destruct (0 <? rem - 1); [apply IH|done].
Qed.

(** Columns walked from the start of a line's rest. *)
Lemma step_chars_line cl cr off rem :
  Forall (fun c => c <> [NL]) cl -> head cr = Some [NL] \/ cr = [] -> 0 < rem ->
  fst (step_chars (cl ++ cr) off rem) = (off + length (concat (take rem cl)), rem - length cl).
Proof.
  intros Hcl Hcr. revert off rem; induction Hcl as [|c cl Hc Hcl IH]; intros off rem Hr; cbn [app].
  - rewrite take_nil. cbn [concat length]. rewrite Nat.add_0_r, Nat.sub_0_r.
    destruct Hcr as [Hcr| ->]; [|done]. destruct cr as [|c cr]; [done|]. cbn in Hcr. injection Hcr as ->.
    cbn [step_chars]. by rewrite decide_True.
  - cbn [step_chars]. rewrite decide_False by done. destruct rem as [|rem]; [lia|].
    cbn [take concat]. rewrite length_app. cbn [length]. rewrite Nat.sub_succ, Nat.sub_0_r.
    destruct (Nat.ltb_spec 0 rem) as [Hr'|Hr'].
    + rewrite IH by done. f_equal; lia.
    + assert (rem = 0) as -> by lia. rewrite take_0. cbn. f_equal; lia.
Qed.

Lemma count_newlines_chars l :
  utf8 l -> count_newlines l = 0 -> Forall (fun c => c <> [NL]) (chars l).
Proof.
  intros Hl. induction Hl as [|c s Hc Hs IH]; [constructor|].
  rewrite count_newlines_app, chars_scalar by done. intros H. constructor; [|apply IH; lia].
  intros ->. change (count_newlines [NL]) with 1 in H. lia.
Qed.

Lemma fold_col_closure ps off rem go :
  Forall utf8 ps ->
  fst (fold_stop col_closure (off, rem, go) ps) = fst (step_chars (chars (concat ps)) off rem) /\
  (snd (fold_stop col_closure (off, rem, go) ps) = snd (step_chars (chars (concat ps)) off rem) \/ ps = []).
Proof.
  intros Hps; revert off rem go; induction Hps as [|x ps Hx Hps IH]; intros off rem go; [by split; [|right]|].
  cbn [fold_stop concat]. rewrite chars_app, step_chars_app by done. unfold col_closure at 1 3.
  destruct (step_chars (chars x) off rem) as [[off' rem'] go'] eqn:E. cbn [snd].
  destruct go'; [|by split; [|left]]. destruct (IH off' rem' true) as [I1 I2]. split; [done|]. left.
  destruct I2 as [I2| ->]; [done|]. cbn. done.
Qed.

Section cursor.
Context {G : Type} {TS : TextStore G} {SL : TextStoreLaws G}.
Implicit Types t : Text G.

Definition seg_bytes t (s : Seg) : bytes :=
  match s with SBase a b => slice a b (text t) | SIns s => s end.

Definition seg_ok t (s : Seg) : Prop :=
  match s with
  | SBase a b => a <= b /\ is_boundary (text t) a = true /\ is_boundary (text t) b = true
  | SIns s => utf8 s
  end.

Lemma seg_len_bytes t s : seg_ok t s -> length (seg_bytes t s) = Seg_len s.
Proof. destruct s as [a b|s]; cbn; [|done]. intros (? & _ & ?%is_boundary_le). by apply length_slice. Qed.

Lemma seg_utf8 t s : utf8 (text t) -> seg_ok t s -> utf8 (seg_bytes t s).
Proof. destruct s as [a b|s]; cbn; [|done]. intros Hu (? & ? & ?). by apply utf8_slice. Qed.

(** The segments, the first at [start], hold the text [x]. *)
Fixpoint segs_rep t (start : nat) (sg : list (nat * Seg)) (x : bytes) : Prop :=
  match sg with
  | [] => x = []
  | (st, seg) :: sg =>
    st = start /\ seg_ok t seg /\ 0 < Seg_len seg /\
    exists y, x = seg_bytes t seg ++ y /\ segs_rep t (start + Seg_len seg) sg y
  end.

Lemma segs_rep_snoc t start sg x seg :
  segs_rep t start sg x -> seg_ok t seg -> 0 < Seg_len seg ->
  segs_rep t start (sg ++ [(start + length x, seg)]) (x ++ seg_bytes t seg).
Proof.
  intros R Hs Hl; revert start x R; induction sg as [|[st s] sg IH]; intros start x R; cbn [app segs_rep] in *.
  - subst x. cbn. rewrite Nat.add_0_r. split_and!; try done. exists []. by rewrite app_nil_r.
  - destruct R as (-> & Ho & Hp & y & -> & R). split_and!; try done. exists (y ++ seg_bytes t seg).
    rewrite app_assoc. split; [done|]. rewrite length_app, (seg_len_bytes t s Ho).
    replace (start + (Seg_len s + length y)) with (start + Seg_len s + length y) by lia. by apply IH.
Qed.

Lemma segs_rep_utf8 t start sg x : utf8 (text t) -> segs_rep t start sg x -> utf8 x.
Proof.
  intros Hu; revert start x; induction sg as [|[st s] sg IH]; intros start x; cbn.
  - intros ->. constructor.
  - intros (_ & Ho & _ & y & -> & R). apply utf8_app; [by apply seg_utf8|by eapply IH].
Qed.

Definition pv_rep t (v : PostView) (x : bytes) : Prop := segs_rep t 0 (segs v) x /\ pv_len v = length x.

Lemma pv_push_rep t v x s : pv_rep t v x -> seg_ok t s -> pv_rep t (pv_push v s) (x ++ seg_bytes t s).
Proof.
  intros [R L] Hs. unfold pv_push, pv_rep. pose proof (seg_len_bytes t s Hs) as Hl.
  destruct (Nat.ltb_spec 0 (Seg_len s)) as [Hp|Hz]; cbn [segs pv_len].
  - rewrite L. split; [by apply (segs_rep_snoc t 0)|]. rewrite length_app. lia.
  - assert (seg_bytes t s = []) as -> by (apply nil_length_inv; lia). by rewrite app_nil_r.
Qed.

Lemma pv_edits_rep t es pos v x :
  text_wf t -> pv_rep t v x -> is_boundary (text t) pos = true ->
  reading pos (map edit_item es) (length (text t)) -> base_boundaries (text t) es -> inserts_utf8 es ->
  let '(v', pos') := pv_edits v pos es in
  exists y, pv_rep t v' (x ++ y) /\ is_boundary (text t) pos' = true /\
    rewrite_from (text t) pos (map edit_item es) = y ++ drop pos' (text t).
Proof.
  intros Hwf. revert pos v x; induction es as [|e es IH]; intros pos v x R Hb Hr Hbs Hi; cbn [pv_edits map].
  - exists []. rewrite app_nil_r. done.
  - inversion Hbs as [|? ? [B1 B2] Hbs']; subst. inversion Hi as [|? ? Hie Hi']; subst.
    cbn [map edit_item reading] in Hr. destruct Hr as (H1 & H2 & H3).
    assert (pv_rep t (pv_push (pv_push v (SBase pos (e_offset e))) (SIns (e_insert e)))
              ((x ++ slice pos (e_offset e) (text t)) ++ e_insert e)) as R'.
    { apply (pv_push_rep t _ _ (SIns (e_insert e))); [|done]. by apply (pv_push_rep t v x (SBase pos (e_offset e))). }
    specialize (IH (e_offset e + e_delete e) _ _ R' B2 H3 Hbs' Hi').
    destruct (pv_edits _ _ es) as [v' pos']. destruct IH as (y & Ry & Hp & Ey).
    exists (slice pos (e_offset e) (text t) ++ e_insert e ++ y). split_and!; [|done|].
    + by rewrite !app_assoc in *.
    + cbn [rewrite_from edit_item]. rewrite Ey, <- !app_assoc. done.
Qed.

Lemma PostView_rep t seq :
  text_wf t -> canonical_seq (length (text t)) seq -> base_boundaries (text t) seq -> inserts_utf8 seq ->
  pv_rep t (PostView_new (len t) seq) (apply_seq (text t) seq).
Proof.
  intros Hwf Hc Hb Hi. rewrite apply_seq_rewrite, <- map_rev by done.
  pose proof (canonical_reading _ _ 0 Hc eq_refl) as Hr. rewrite <- map_rev in Hr.
  assert (base_boundaries (text t) (rev seq)) as Hb' by (unfold base_boundaries; by rewrite <- Permutation_rev).
  assert (inserts_utf8 (rev seq)) as Hi' by (unfold inserts_utf8; by rewrite <- Permutation_rev).
  unfold PostView_new. assert (pv_rep t (mkPostView [] 0) []) as R0 by done.
  pose proof (pv_edits_rep t (rev seq) 0 _ _ Hwf R0 (is_boundary_0 _) Hr Hb' Hi') as K.
  destruct (pv_edits _ _ _) as [v pos]. destruct K as (y & R & Hp & ->). cbn [app] in R.
  rewrite len_text by apply Hwf.
  replace (drop pos (text t)) with (seg_bytes t (SBase pos (length (text t)))).
  - apply pv_push_rep; [done|]. pose proof (is_boundary_le _ _ Hp). split_and!; [done|done|apply is_boundary_len].
  - cbn. unfold slice. apply take_ge. rewrite length_drop. lia.
Qed.

(** ** Boundaries *)

Lemma segs_rep_starts t start sg x :
  segs_rep t start sg x -> Forall (fun s => start <= s) (map fst sg).
Proof.
  revert start x; induction sg as [|[st s] sg IH]; intros start x; cbn; [constructor|].
  intros (-> & _ & _ & y & _ & R). constructor; [done|].
  eapply Forall_impl; [by eapply IH|]. cbn. lia.
Qed.

Lemma partition_point_none p l : Forall (fun x => p x = false) l -> partition_point p l = 0.
Proof. destruct 1 as [|x l Hx]; cbn; [done|by rewrite Hx]. Qed.

(** The segment an offset falls into. *)
Lemma segs_rep_boundary t start sg x o :
  text_wf t -> segs_rep t start sg x -> start <= o -> o < start + length x ->
  match sg !! (partition_point (fun s => s <=? o) (map fst sg) - 1) with
  | Some (st, SBase a _) => is_char_boundary t (a + (o - st))
  | Some (st, SIns s) => is_boundary s (o - st)
  | None => false
  end = is_boundary x (o - start).
Proof.
  intros Hwf. revert start x; induction sg as [|[st s] sg IH]; intros start x R Ho Hx; cbn [segs_rep map] in *.
  { subst x. cbn in Hx. lia. }
  destruct R as (-> & Hok & Hp & y & -> & R). pose proof (seg_len_bytes t s Hok) as Hl.
  pose proof (segs_rep_utf8 t _ _ _ (twf_utf8 t Hwf) R) as Uy. rewrite length_app in Hx.
  cbn [partition_point fst]. destruct (Nat.leb_spec start o); [|lia].
  destruct (decide (o < start + Seg_len s)) as [Hin|Hout].
  - rewrite partition_point_none.
    2: { eapply Forall_impl; [by eapply segs_rep_starts|]. cbn. lia. }
    cbn [Nat.sub lookup list_lookup]. rewrite boundary_app_l by (done || lia).
    destruct s as [a b|s]; [|done]. cbn [seg_bytes seg_ok Seg_len] in *.
    rewrite is_char_boundary_spec, slice_boundary by (done || lia || apply Hok). done.
  - assert (0 < partition_point (fun s => s <=? o) (map fst sg)) as Hpp.
    { destruct sg as [|[st' s'] sg']; [cbn in R; subst y; cbn in Hx; lia|]. destruct R as (-> & _).
      cbn [map fst partition_point]. destruct (Nat.leb_spec (start + Seg_len s) o); lia. }
    specialize (IH _ _ R ltac:(lia) ltac:(lia)).
    replace (S (partition_point (fun s => s <=? o) (map fst sg)) - 1)
      with (S (partition_point (fun s => s <=? o) (map fst sg) - 1)) by lia.
    cbn [lookup list_lookup]. etrans; [exact IH|]. rewrite boundary_app_r by (done || lia). f_equal. lia.
Qed.

Lemma pv_boundary t v x o :
  text_wf t -> pv_rep t v x -> o <= pv_len v -> pv_is_char_boundary t v o = is_boundary x o.
Proof.
  intros Hwf [R L] Ho. unfold pv_is_char_boundary. rewrite L in *.
  destruct (Nat.leb_spec (length x) o).
  - assert (o = length x) as -> by lia. by rewrite Nat.eqb_refl, is_boundary_len.
  - rewrite (segs_rep_boundary t 0 (segs v) x) by (done || lia). by rewrite Nat.sub_0_r.
Qed.

(** ** Line starts *)

Lemma starts_in_spec t a b :
  text_wf t -> a <= b -> b <= length (text t) -> starts_in t a b = newline_starts a (slice a b (text t)).
Proof.
  intros Hwf Hab Hb. unfold starts_in. rewrite !partition_take by (done || lia).
  destruct (cut2 (text t) a b) as (p & q & r & E & Hp & Hq); [done..|].
  rewrite (twf_starts t Hwf), E.
  rewrite (take_app_len p), (app_assoc p q), (take_app_len (p ++ q)), <- (app_assoc p q), (slice_app p q r) by len.
  unfold line_starts. rewrite !newline_starts_app, app_comm_cons. cbn [Nat.add]. rewrite Hp.
  apply slice_app; cbn; rewrite !length_newline_starts, ?count_newlines_app; lia.
Qed.

Lemma pv_line_start_spec t start sg x want :
  text_wf t -> segs_rep t start sg x -> 1 <= want ->
  pv_line_start_from t sg want = newline_starts start x !! (want - 1).
Proof.
  intros Hwf. revert start x want; induction sg as [|[st s] sg IH]; intros start x want R Hw; cbn [segs_rep pv_line_start_from] in *.
  { by subst x. }
  destruct R as (-> & Hok & Hp & y & -> & R). rewrite newline_starts_app, (seg_len_bytes t s Hok).
  destruct s as [a b|s]; cbn [seg_bytes].
  - destruct Hok as (Hab & _ & Hb%is_boundary_le). rewrite starts_in_spec by done.
    rewrite length_newline_starts. set (sl := slice a b (text t)).
    destruct (Nat.leb_spec want (count_newlines sl)) as [Hle|Hgt].
    + rewrite lookup_app_l by (rewrite length_newline_starts; lia).
      pose proof (newline_starts_shift 0 a sl) as Ea. pose proof (newline_starts_shift 0 start sl) as Es. cbn in Ea, Es.
      rewrite Ea, Es, !list_lookup_fmap.
      destruct (newline_starts 0 sl !! (want - 1)) as [k|] eqn:Ek; [cbn; f_equal; lia|].
      apply lookup_ge_None in Ek. rewrite length_newline_starts in Ek. lia.
    + rewrite lookup_app_r by (rewrite length_newline_starts; lia). rewrite length_newline_starts.
      rewrite (IH _ _ _ R) by lia. f_equal. lia.
  - rewrite ins_line_start_spec by done.
    pose proof (newline_starts_shift 0 start s) as Es. cbn in Es.
    destruct (newline_starts 0 s !! (want - 1)) as [k|] eqn:Ek.
    + rewrite lookup_app_l.
      * rewrite Es, list_lookup_fmap, Ek. cbn. f_equal. lia.
      * apply lookup_lt_Some in Ek. by rewrite !length_newline_starts in *.
    + apply lookup_ge_None in Ek. rewrite length_newline_starts in Ek.
      rewrite lookup_app_r by (rewrite length_newline_starts; lia). rewrite length_newline_starts.
      rewrite (IH _ _ _ R) by lia. f_equal. lia.
Qed.

(** ** Columns *)

Lemma pv_walk_cols_spec t start sg x from off rem :
  text_wf t -> segs_rep t start sg x -> from <= start + length x -> is_boundary x (from - start) = true ->
  pv_walk_cols t sg from off rem = fst (step_chars (chars (drop (from - start) x)) off rem).
Proof.
  intros Hwf. revert start x off rem; induction sg as [|[st s] sg IH]; intros start x off rem R Hf Hb; cbn [segs_rep pv_walk_cols] in *.
  { subst x. by rewrite drop_nil. }
  destruct R as (-> & Hok & Hp & y & -> & R). pose proof (seg_len_bytes t s Hok) as Hl.
  pose proof (segs_rep_utf8 t _ _ _ (twf_utf8 t Hwf) R) as Uy. rewrite length_app in Hf.
  pose proof (seg_utf8 t s (twf_utf8 t Hwf) Hok) as Us.
  destruct (Nat.leb_spec (start + Seg_len s) from) as [Hle|Hgt].
  - rewrite (IH _ _ _ _ R); [|lia|].
    + rewrite (drop_app_ge (seg_bytes t s)) by lia.
      by replace (from - start - length (seg_bytes t s)) with (from - (start + Seg_len s)) by lia.
    + rewrite boundary_app_r in Hb by (done || lia). by replace (from - (start + Seg_len s)) with (from - start - length (seg_bytes t s)) by lia.
  - rewrite boundary_app_l in Hb by (done || lia). destruct (utf8_split _ _ Us Hb) as [_ Ud].
    rewrite (drop_app_le (seg_bytes t s)), chars_app, step_chars_app by (done || lia).
    assert (forall off' rem', pv_walk_cols t sg from off' rem' = fst (step_chars (chars y) off' rem')) as Hrest.
    { intros. rewrite (IH _ _ _ _ R); [|lia|].
      - replace (from - (start + Seg_len s)) with 0 by lia. by rewrite drop_0.
      - replace (from - (start + Seg_len s)) with 0 by lia. apply is_boundary_0. }
    assert (match s with
            | SBase a b => for_each_str t (a + (from - start)) b col_closure (off, rem, true)
            | SIns s => step_chars (chars (drop (from - start) s)) off rem
            end = step_chars (chars (drop (from - start) (seg_bytes t s))) off rem) as ->.
    { destruct s as [a b|s]; [|done]. cbn [seg_bytes Seg_len] in *. destruct Hok as (Hab & B1 & B2).
      destruct (for_each_str_pieces t (a + (from - start)) b) as (ps & Ep & Fp & ->); [done|lia| |done|].
      { rewrite <- (slice_boundary _ a b) by (done || lia). done. }
      assert (concat ps = drop (from - start) (slice a b (text t))) as Ec.
      { rewrite Ep. unfold slice. rewrite skipn_firstn_comm, drop_drop. f_equal; lia. }
      destruct (fold_col_closure ps off rem true Fp) as [C1 C2]. rewrite Ec in *.
      destruct C2 as [C2| ->]; [by apply injective_projections|].
      cbn in Ec. apply (f_equal length) in Ec. rewrite length_drop, length_slice in Ec by (lia || by apply is_boundary_le).
      cbn in Ec. lia. }
    destruct (step_chars (chars (drop (from - start) (seg_bytes t s))) off rem) as [[off' rem'] []]; [apply Hrest|done].
Qed.

(** ** Resolution *)

Lemma pv_line_col t v t' line col :
  text_wf t -> text_wf t' -> pv_rep t v (text t') -> 1 <= line -> line <= line_count t' ->
  (if 1 <=? col then pv_after_cols t v (default (pv_len v) (pv_line_start t v line)) (col - 1) else None)
  = line_col_offset t' line col.
Proof.
  intros Hwf Hwf' [R L] H1 H2. destruct line as [|i]; [lia|]. unfold line_count in H2.
  rewrite (twf_starts t' Hwf') in H2. destruct (line_exists (text t') i H2) as (p & l & r & La).
  assert (pv_line_start t v (S i) = Some (length p)) as ->.
  { pose proof (line_start_at _ _ _ _ _ La) as Es. unfold pv_line_start.
    destruct (Nat.eqb_spec (S i) 1) as [E|E].
    - assert (i = 0) as -> by lia. exact Es.
    - rewrite (pv_line_start_spec t 0 (segs v) (text t')) by (done || lia).
      destruct i as [|i]; [lia|]. by replace (S (S i) - 1 - 1) with i by lia. }
  destruct (line_at_utf8 _ _ _ _ _ (twf_utf8 t' Hwf') La) as (Up & Ul & Ur).
  destruct (line_bounds t' i p l r Hwf' La) as (_ & _ & Bp & _). cbn [default from_option id].
  destruct col as [|col].
  { unfold line_col_offset. by destruct (line_start t' (S i)), (line_end t' (S i)). }
  rewrite (line_col_offset_spec t' i p l r) by done.
  replace (S col - 1) with col by lia. cbn [Nat.leb]. unfold pv_after_cols.
  destruct (Nat.eqb_spec col 0) as [->|Hc]; [cbn; by rewrite Nat.add_0_r|].
  rewrite (pv_walk_cols_spec t 0 (segs v) (text t')) by (rewrite ?Nat.sub_0_r; try done; apply is_boundary_le in Bp; lia).
  rewrite Nat.sub_0_r, (la_text _ _ _ _ _ La), drop_app_length, chars_app by done.
  rewrite step_chars_line; [|by apply count_newlines_chars, La| |lia].
  - destruct (Nat.eqb_spec (col - length (chars l)) 0), (Nat.leb_spec col (length (chars l))); lia || done.
  - destruct (la_stop _ _ _ _ _ La) as [->|[r' ->]]; [by right|left].
    change (NL :: r') with ([NL] ++ r'). by rewrite (chars_scalar [NL] r').
Qed.

Lemma anchor_find_map name l seq rev :
  find (fun a => bool_decide (a_name a = name)) (map (fun a => NamedAnchor_map a seq rev) l) =
  (fun a => NamedAnchor_map a seq rev) <$> find (fun a => bool_decide (a_name a = name)) l.
Proof.
  induction l as [|a l IH]; cbn; [done|].
  assert (a_name (NamedAnchor_map a seq rev) = a_name a) as ->
    by (unfold NamedAnchor_map; repeat case_match; done).
  by destruct (bool_decide (a_name a = name)).
Qed.

Lemma resolve_post_pos (b b' : Buffer G) p seq o :
  text_wf (b_text b) -> text_wf (b_text b') ->
  canonical_seq (length (text (b_text b))) seq -> base_boundaries (text (b_text b)) seq -> inserts_utf8 seq ->
  text (b_text b') = apply_seq (text (b_text b)) seq ->
  anchors b' = map (fun a => NamedAnchor_map a seq (b_rev b + 1)) (anchors b) ->
  resolve_post b p seq (line_count (b_text b')) = Ok o <-> resolve_pos b' p = Ok o.
Proof.
  intros Hwf Hwf' Hc Hb Hi Ht Ha.
  assert (pv_rep (b_text b) (PostView_new (Buffer_len b) seq) (text (b_text b'))) as R
    by (rewrite Ht; by apply PostView_rep).
  assert (pv_len (PostView_new (Buffer_len b) seq) = Buffer_len b') as L.
  { unfold Buffer_len. rewrite (len_text (b_text b')) by apply Hwf'. apply R. }
  unfold resolve_post, resolve_pos. rewrite L. destruct p as [n|[]|line col|name]; try done.
  - unfold check_offset. destruct (Nat.ltb_spec (Buffer_len b') n); [done|].
    rewrite (pv_boundary _ _ (text (b_text b'))), is_char_boundary_spec by (done || lia).
    by destruct (negb _).
  - unfold check_line. destruct (Nat.eqb_spec line 0); [done|].
    destruct (Nat.ltb_spec (line_count (b_text b')) line); [done|]. cbn [orb result_bind].
    rewrite <- L, (pv_line_col _ _ (b_text b')) by (done || lia). done.
  - unfold anchor. rewrite Ha, anchor_find_map.
    destruct (find _ (anchors b)); cbn; [done|]. by split.
Qed.
End cursor.
