(* ===== verification/BufferSpec.v ===== *)
(** * The buffer's invariant and what its transactions mean

    The well-formedness of a buffer, that a committed transaction keeps it and
    a refused one changes nothing that can be observed, and the meaning of
    requests: simultaneous rewrites, rebases, undo, reload. *)

From S2P Require Import Prelude Utf8 EditBase Ot Anchor GapBuffer Text History Buffer Cursor.

(** ** Histories *)

(** An entry recorded when it was applied to [t]. *)
Record entry_of (t : bytes) (e : LogEntry) : Prop := {
  eo_canonical : canonical_seq (length t) (le_edits e);
  eo_boundaries : base_boundaries t (le_edits e);
  eo_utf8 : inserts_utf8 (le_edits e);
  eo_deleted : le_deleted e = deleted_of t (le_edits e);
}.

(** The entries take the text [t0] to [t]. *)
Fixpoint replays (t0 : bytes) (es : list LogEntry) (t : bytes) : Prop :=
  match es with
  | [] => t0 = t
  | e :: es => entry_of t0 e /\ replays (apply_seq t0 (le_edits e)) es t
  end.

Lemma replays_app t0 es fs t :
  replays t0 (es ++ fs) t <-> exists m, replays t0 es m /\ replays m fs t.
Proof.
  revert t0; induction es as [|e es IH]; intros t0; simpl.
  - split; [intros H; by exists t0|intros (m & -> & H); done].
  - rewrite IH. naive_solver.
Qed.

Definition sel_in (t : bytes) (s : Selection) : Prop :=
  is_boundary t (sel_anchor s) = true /\ is_boundary t (sel_head s) = true.

(** The groups of a lane hold revisions of that lane. *)
Definition owned (l : OpLog) (o : Origin) (g : Group) : Prop :=
  Forall (fun e => g_start g <= le_rev e <= g_end g -> le_lane e = o)%Z (entries l).

Definition lanes_owned (l : OpLog) : Prop :=
  map_Forall (fun o lane => Forall (owned l o) (undo_stack lane) /\ Forall (owned l o) (redo_stack lane)) (lanes l).

(** Steps that stay in a prefix are on its boundaries. *)
Lemma base_boundaries_prefix p q seq hi :
  utf8 q -> canonical_seq hi seq -> hi <= length p -> base_boundaries (p ++ q) seq -> base_boundaries p seq.
Proof.
  intros Hq. revert hi; induction seq as [|e seq IH]; intros hi Hc Hhi Hb; [constructor|]. destruct Hc as [H1 H2].
  inversion Hb as [|? ? [B1 B2] Hb']; subst. constructor; [|apply (IH (e_offset e)); [done|lia|done]].
  rewrite boundary_app_l in B1, B2 by (done || lia). done.
Qed.

(** Steps in canonical order on boundaries of the base text meet boundaries
    when they apply. *)
Lemma canonical_edits_ok pre post seq :
  utf8 pre -> utf8 post -> canonical_seq (length pre) seq -> base_boundaries pre seq -> inserts_utf8 seq ->
  edits_ok (pre ++ post) seq.
Proof.
  revert pre post; induction seq as [|e seq IH]; intros pre post Hp Hq Hc Hb Hi; [done|].
  destruct Hc as [Hle Hc]. inversion Hb as [|? ? [B1 B2] Hb']; subst. inversion Hi as [|? ? Hie Hi']; subst.
  cbn [edits_ok]. split.
  { split_and!; [done|by rewrite boundary_app_l by (done || lia)..]. }
  destruct (utf8_cut2 pre (e_offset e) (e_offset e + e_delete e)) as (p1 & d & p2 & -> & L1 & Ld & U1 & Ud & U2); [done|lia|done..|].
  assert (apply_edit ((p1 ++ d ++ p2) ++ post) e = p1 ++ e_insert e ++ p2 ++ post) as ->.
  { unfold apply_edit. rewrite <- !app_assoc. apply splice_app; lia. }
  apply IH; [done|by repeat apply utf8_app|by rewrite L1| |done].
  apply (base_boundaries_prefix p1 (d ++ p2) seq (e_offset e)); [by apply utf8_app|done|lia|done].
Qed.

Lemma entry_of_ok t e : utf8 t -> entry_of t e -> edits_ok t (le_edits e).
Proof.
  intros Ht [H1 H2 H3 _]. rewrite <- (app_nil_r t). apply canonical_edits_ok; try done. constructor.
Qed.

Lemma edits_ok_utf8 t seq : utf8 t -> edits_ok t seq -> utf8 (apply_seq t seq).
Proof.
  revert t; induction seq as [|e seq IH]; intros t Ht He; [done|]. destruct He as [He Hs].
  cbn. apply IH; [by apply apply_edit_utf8|done].
Qed.

Lemma replays_utf8 t0 es t : utf8 t0 -> replays t0 es t -> utf8 t.
Proof.
  revert t0; induction es as [|e es IH]; intros t0 Ht; [by intros <-|]. intros [He H].
  apply (IH (apply_seq t0 (le_edits e))); [|done]. apply edits_ok_utf8; [done|]. by apply entry_of_ok.
Qed.

(** A suffix of the entries replays from the text at its start. *)
Lemma replays_suffix t0 es old es' entry t t' :
  utf8 t0 -> replays t0 es t -> es ++ [entry] = old ++ es' -> entry_of t entry ->
  t' = apply_seq t (le_edits entry) -> exists m, utf8 m /\ replays m es' t'.
Proof.
  intros Hu H E He ->. assert (replays t0 (old ++ es') (apply_seq t (le_edits entry))) as R.
  { rewrite <- E. apply replays_app. exists t. split; [done|by split]. }
  apply replays_app in R as (m & R1 & R2). exists m. split; [by eapply replays_utf8|done].
Qed.

Section spec.
Context {G : Type} {TS : TextStore G} {SL : TextStoreLaws G}.
Implicit Types b : Buffer G.

Definition content b : bytes := text (b_text b).

Record buf_wf b : Prop := {
  bw_text : text_wf (b_text b);
  bw_log : log_wf (b_log b);
  bw_rev : last_rev (b_log b) = b_rev b;
  bw_history : exists t0, utf8 t0 /\ replays t0 (entries (b_log b)) (content b);
  bw_lanes : lanes_owned (b_log b);
  bw_anchors : Forall (anchor_in (content b)) (anchors b);
  bw_anchor_count : (Z.of_nat (length (anchors b)) <= MAX_ANCHORS)%Z;
  bw_sels : map_Forall (fun _ l => Forall (sel_in (content b)) l /\
                                   (Z.of_nat (length l) <= MAX_SELECTIONS_PER_ORIGIN)%Z) (selections b);
  bw_sel_count : (Z.of_nat (size (selections b)) <= MAX_SELECTION_ORIGINS)%Z;
}.

(** What a refusal may leave behind: everything a caller can see is as it
    was (committed memory and an empty lane entry cannot be seen). *)
Record unchanged b b' : Prop := {
  un_text : content b' = content b;
  un_starts : starts (b_text b') = starts (b_text b);
  un_entries : entries (b_log b') = entries (b_log b);
  un_bytes : text_bytes (b_log b') = text_bytes (b_log b);
  un_base : base (b_log b') = base (b_log b);
  un_lanes : forall o, lane_stacks b' o = lane_stacks b o;
  un_rev : b_rev b' = b_rev b;
  un_saved : saved_rev b' = saved_rev b;
  un_anchors : anchors b' = anchors b;
  un_sels : selections b' = selections b;
}.

Lemma unchanged_refl b : unchanged b b.
Proof. by split. Qed.

(** ** Items a transaction may carry *)

Definition item_ok (t : bytes) (r : Resolved) : Prop :=
  r_s r <= r_e r /\ is_boundary t (r_s r) = true /\ is_boundary t (r_e r) = true /\ utf8 (r_text r).

Lemma canonical_perm items : canonical items ≡ₚ items.
Proof. apply stable_sort_perm. Qed.

(** What every caller of [commit_txn] guarantees of its items; that they lie on
    boundaries is checked by the simulation. *)
Definition item_fit (r : Resolved) : Prop := r_s r <= r_e r /\ utf8 (r_text r).

Lemma item_fit_edit r : item_fit r -> e_offset (resolved_edit r) + e_delete (resolved_edit r) = r_e r.
Proof. intros (? & _). cbn. lia. Qed.

Lemma item_ok_fit t items : Forall (item_ok t) items -> Forall item_fit items.
Proof. intros H. eapply Forall_impl; [exact H|]. by intros r (? & _ & _ & ?). Qed.

Lemma items_utf8 items : Forall item_fit items -> inserts_utf8 (map resolved_edit (canonical items)).
Proof.
  intros H. unfold inserts_utf8. rewrite Forall_map, canonical_perm.
  eapply Forall_impl; [exact H|]. by intros r (_ & ?).
Qed.

Lemma seq_fits_ok n t seq : inserts_utf8 seq -> seq_fits n t seq -> edits_ok t seq.
Proof.
  intros Hi; revert t; induction Hi as [|e seq He Hi IH]; intros t; [done|].
  cbn. intros (_ & B1 & B2 & _ & _ & _ & Hf). split; [by split_and!|by apply IH].
Qed.

Lemma deleted_read b items :
  text_wf (b_text b) -> Forall item_fit items -> base_boundaries (content b) (map resolved_edit items) ->
  map (fun r => read (b_text b) (r_s r) (r_e r) []) items = deleted_of (content b) (map resolved_edit items).
Proof.
  intros Hwf Hi Hb. unfold deleted_of. rewrite map_map. apply map_ext_Forall. unfold base_boundaries in Hb.
  rewrite Forall_map in Hb. rewrite Forall_forall in *. intros r Hr. specialize (Hi r Hr). specialize (Hb r Hr).
  rewrite (item_fit_edit _ Hi) in *. destruct Hb as [B1 B2]. destruct Hi as [Hi _]. rewrite read_exact by done. done.
Qed.

(** ** Lanes after a new entry *)

Lemma last_Some_elem {A} (l : list A) x : list.last l = Some x -> x ∈ l.
Proof. intros H. apply last_Some in H as [k ->]. set_solver. Qed.

Lemma Forall_removelast (P : Group -> Prop) gs : Forall P gs -> Forall P (removelast_group gs).
Proof. apply Forall_take. Qed.

(** A property of groups that the lane's groups have, and that the new
    singleton and an extended top group get, holds of the lane after. *)
Lemma lane_after_Forall (P Q : Group -> Prop) lane k co rev :
  Forall P (undo_stack lane) -> Forall P (redo_stack lane) ->
  (forall g, P g -> Q g) -> Q (mkGroup rev rev) ->
  (forall top, co = true -> list.last (undo_stack lane) = Some top -> Q (mkGroup (g_start top) rev)) ->
  Forall Q (undo_stack (lane_after lane k co rev)) /\ Forall Q (redo_stack (lane_after lane k co rev)).
Proof.
  intros Hu Hr HPQ Hq Hco.
  assert (Forall Q (undo_stack lane)) as Qu by (eapply Forall_impl; eauto).
  assert (Forall Q (redo_stack lane)) as Qr by (eapply Forall_impl; eauto).
  assert (Forall Q [mkGroup rev rev]) as Q1 by by constructor.
  assert (forall l, Forall Q l -> Forall Q (l ++ [mkGroup rev rev])) as Qapp by (intros; by apply Forall_app).
  unfold lane_after. destruct k; cbn [undo_stack redo_stack].
  2,3: split; by auto using Forall_removelast.
  all: destruct (list.last (undo_stack lane)) as [top|] eqn:El; cbn; [|split; [by auto|constructor]].
  all: destruct co; cbn; [|split; [by auto|constructor]].
  all: split; [|constructor]; apply Forall_app; split; [by apply Forall_removelast|].
  all: constructor; [by apply Hco|constructor].
Qed.

Lemma get_lane_Forall (P : Group -> Prop) l o :
  map_Forall (fun _ lane => Forall P (undo_stack lane) /\ Forall P (redo_stack lane)) (lanes l) ->
  Forall P (undo_stack (get_lane l o)) /\ Forall P (redo_stack (get_lane l o)).
Proof.
  intros H. unfold get_lane. destruct (lanes l !! o) as [lane|] eqn:E; cbn; [by apply (H o)|by split].
Qed.

Lemma owned_get_lane l o :
  lanes_owned l -> Forall (owned l o) (undo_stack (get_lane l o)) /\ Forall (owned l o) (redo_stack (get_lane l o)).
Proof.
  intros H. unfold get_lane. destruct (lanes l !! o) as [lane|] eqn:E; cbn; [by apply (H o)|by split].
Qed.

(** A top group that a coalesced edit extends ends at the current revision. *)
Lemma coalesced_top b c seq top :
  coalesced b c seq = true -> list.last (undo_stack (get_lane (b_log b) (c_lane c))) = Some top ->
  g_end top = b_rev b.
Proof.
  unfold coalesced. intros H E. rewrite E in H. destruct seq as [|e [|]]; rewrite ?andb_false_r in H; try done.
  apply andb_prop in H as [_ H]. apply andb_prop in H as [H _]. lia.
Qed.

Lemma Forall_retain (P : Group -> Prop) z gs : Forall P gs -> Forall P (retain_groups z gs).
Proof.
  unfold retain_groups. rewrite !Forall_forall. intros H g Hg. apply list_elem_of_filter in Hg as [_ Hg]. auto.
Qed.

(** [es]'s entries in the revisions of [g] belong to [o]. *)
Definition owned_in (es : list LogEntry) (o : Origin) (g : Group) : Prop :=
  Forall (fun e => g_start g <= le_rev e <= g_end g -> le_lane e = o)%Z es.

(** A group good for the log with one more entry. *)
Definition group_good l entry (o : Origin) (g : Group) : Prop :=
  group_in (base l) (le_rev entry) g /\ owned_in (entries l ++ [entry]) o g.

Lemma group_good_keep l entry o g :
  le_rev entry = (last_rev l + 1)%Z -> group_in (base l) (last_rev l) g -> owned l o g -> group_good l entry o g.
Proof.
  intros He Hg Hown. unfold group_good, owned_in, group_in in *. split; [lia|].
  apply Forall_app. split; [done|]. constructor; [lia|constructor].
Qed.

(** The lane of the new entry. *)
Lemma lane_after_good l o k co entry :
  log_wf l -> lanes_owned l -> le_rev entry = (last_rev l + 1)%Z -> le_lane entry = o ->
  (forall top, co = true -> list.last (undo_stack (get_lane l o)) = Some top -> g_end top = last_rev l) ->
  let lane := lane_after (get_lane l o) k co (le_rev entry) in
  Forall (group_good l entry o) (undo_stack lane) /\ Forall (group_good l entry o) (redo_stack lane).
Proof.
  intros [Hcore Hin] Hown He Hlane Hco.
  destruct (get_lane_Forall _ _ o Hin) as [Gu Gr]. destruct (owned_get_lane _ o Hown) as [Ou Or].
  pose proof (revs_from_Forall _ _ (lw_revs l Hcore)) as Hr.
  apply (lane_after_Forall (fun g => group_in (base l) (last_rev l) g /\ owned l o g)).
  - by apply Forall_and.
  - by apply Forall_and.
  - intros g [? ?]. by apply group_good_keep.
  - split; [unfold group_in, last_rev in *; cbn; lia|]. apply Forall_app. split; [|by constructor].
    eapply Forall_impl; [exact Hr|]. unfold last_rev in *. cbn. lia.
  - intros top Ec El. pose proof (Hco top Ec El) as Ht. apply last_Some_elem in El.
    rewrite Forall_forall in Ou, Gu. specialize (Ou top El). specialize (Gu top El).
    split; [unfold group_in in *; cbn; lia|]. apply Forall_app. split; [|by constructor].
    unfold owned in Ou. rewrite Forall_forall in *. intros e Hein Hge. apply (Ou e Hein).
    specialize (Hr e Hein). cbn in Hge. unfold last_rev in *. lia.
Qed.

(** The log after a transaction: well-formed, one revision on, its entries a
    suffix of the old ones with the new entry, its groups owned by their lanes. *)
Lemma record_log l o k co entry :
  log_wf l -> lanes_owned l -> le_rev entry = (last_rev l + 1)%Z -> le_lane entry = o ->
  (forall top, co = true -> list.last (undo_stack (get_lane l o)) = Some top -> g_end top = last_rev l) ->
  let '(l', r) := push (set_lane l o (lane_after (get_lane l o) k co (le_rev entry))) entry in
  log_wf l' /\ last_rev l' = le_rev entry /\ lanes_owned l' /\
  exists old, entries l ++ [entry] = old ++ entries l'.
Proof.
  intros Hwf Hown He Hlane Hco. pose proof (lane_after_good l o k co entry Hwf Hown He Hlane Hco) as Hnew.
  set (lane := lane_after _ _ _ _) in *. set (l1 := set_lane l o lane).
  assert (forall k' lane', lanes l1 !! k' = Some lane' ->
    Forall (group_good l entry k') (undo_stack lane') /\ Forall (group_good l entry k') (redo_stack lane')) as L1.
  { intros k' lane' Hk. cbn in Hk. destruct (decide (k' = o)) as [->|Hne].
    - rewrite lookup_insert_eq in Hk. injection Hk as <-. done.
    - rewrite lookup_insert_ne in Hk by done. destruct (proj2 Hwf k' lane' Hk) as [I1 I2].
      destruct (Hown k' lane' Hk) as [W1 W2]. rewrite !Forall_forall in *.
      split; intros g Hg; apply group_good_keep; auto. }
  pose proof (push_inv l1 entry) as K. destruct (push l1 entry) as [l' r].
  destruct K as (W & Lr & (old & Eo & _) & Hl').
  { destruct Hwf as [[] _]. by split. }
  { intros k' lane' Hk. destruct (L1 k' lane' Hk) as [G1 G2].
    split; (eapply Forall_impl; [eassumption|]); by intros g [? _]. }
  { done. }
  split_and!; try done; [|by exists old].
  intros k' lane' Hk. destruct (Hl' k' lane' Hk) as (lane0 & Hk0 & Hcase). destruct (L1 k' lane0 Hk0) as [O1 O2].
  assert (forall gs, Forall (group_good l entry k') gs -> Forall (owned l' k') gs) as Sub.
  { intros gs Hgs. eapply Forall_impl; [exact Hgs|]. intros g [_ Hog]. unfold owned_in in Hog.
    change (entries l) with (entries l1) in Hog. rewrite Eo in Hog. by apply Forall_app in Hog as [_ ?]. }
  destruct Hcase as [->| ->]; cbn; split; auto using Forall_retain.
Qed.

(** ** Positions after a transaction *)

Lemma map_anchors_in t seq l rev :
  utf8 t -> edits_ok t seq -> Forall (anchor_in t) l ->
  Forall (anchor_in (apply_seq t seq)) (map (fun a => NamedAnchor_map a seq rev) l).
Proof.
  intros Ht He Hl. apply Forall_map. eapply Forall_impl; [exact Hl|]. intros a Ha. by apply NamedAnchor_map_in.
Qed.

Lemma map_selections_lookup b o seq k sels :
  map_selections b o seq !! k = Some sels ->
  exists sels0, selections b !! k = Some sels0 /\
    sels = map (fun s => Selection_map s seq (if decide (k = o) then After else Before)) sels0.
Proof.
  unfold map_selections. rewrite map_lookup_imap. destruct (selections b !! k) as [sels0|]; [|done].
  cbn. intros [= <-]. eauto.
Qed.

Lemma size_map_selections b o seq : size (map_selections b o seq) = size (selections b).
Proof.
  rewrite <- !size_dom. f_equal. apply dom_imap_L. intros k. rewrite elem_of_dom. cbn. split; [intros [x Hx]; eauto|intros (x & Hx & _); by exists x].
Qed.

Definition sels_ok (t : bytes) (l : list Selection) : Prop :=
  Forall (sel_in t) l /\ (Z.of_nat (length l) <= MAX_SELECTIONS_PER_ORIGIN)%Z.

Lemma map_selections_ok b o seq :
  utf8 (content b) -> edits_ok (content b) seq ->
  map_Forall (fun _ => sels_ok (content b)) (selections b) ->
  map_Forall (fun _ => sels_ok (apply_seq (content b) seq)) (map_selections b o seq).
Proof.
  intros Hu He Hs k sels Hk. apply map_selections_lookup in Hk as (sels0 & Hk & ->).
  destruct (Hs k sels0 Hk) as [F L]. split; [|by rewrite length_map].
  apply Forall_map. eapply Forall_impl; [exact F|]. intros s [H1 H2].
  split; cbn; by apply map_through_boundary.
Qed.

Lemma txn_cursor_Ok b c seq cur :
  txn_cursor b c seq = Ok cur ->
  exists sim, simulate (b_text b) seq = Ok sim /\
  match c_cursor c with
  | None => cur = None
  | Some p => exists at_, cur = Some at_ /\ resolve_post b p seq (final_lines sim) = Ok at_ /\
                          selection_room b (c_origin c) = true
  end.
Proof.
  unfold txn_cursor. intros H. apply result_bind_Ok in H as (sim & Hs & H). exists sim. split; [done|].
  destruct (c_cursor c) as [p|]; [|by injection H as <-]. run_inv H. subst.
  apply negb_false_iff in E. eauto.
Qed.

Lemma resolve_pos_boundary b p o :
  text_wf (b_text b) -> Forall (anchor_in (content b)) (anchors b) ->
  resolve_pos b p = Ok o -> is_boundary (content b) o = true.
Proof.
  intros Hwf Ha. destruct p as [n|[]|line col|name]; cbn [resolve_pos].
  - unfold check_offset. intros H. run_inv H. subst. rewrite is_char_boundary_spec in E0 by done.
    by apply negb_false_iff.
  - intros [= <-]. apply is_boundary_0.
  - intros [= <-]. unfold Buffer_len. rewrite len_text by apply Hwf. apply is_boundary_len.
  - intros H. run_inv H. apply ok_or_Ok in H. by apply line_col_boundary in H as [? _].
  - intros H. apply ok_or_Ok in H. unfold anchor in H. destruct (find _ (anchors b)) as [a|] eqn:E; [|done].
    injection H as <-. apply find_some in E as [Hin _]. rewrite Forall_forall in Ha.
    apply list_elem_of_In in Hin. by apply (Ha a Hin).
Qed.

Lemma insert_selection_size (m : gmap Origin (list Selection)) o l b :
  size m = size (selections b) -> (forall k, m !! k = None <-> selections b !! k = None) ->
  selection_room b o = true -> (Z.of_nat (size (selections b)) <= MAX_SELECTION_ORIGINS)%Z ->
  (Z.of_nat (size (<[o := l]> m)) <= MAX_SELECTION_ORIGINS)%Z.
Proof.
  intros Es Hk Hroom Hmax. unfold selection_room in Hroom.
  destruct (m !! o) as [x|] eqn:Em.
  - rewrite map_size_insert_Some by eauto. lia.
  - rewrite map_size_insert_None by done. rewrite (proj1 (Hk o) Em) in Hroom. lia.
Qed.

(** ** Committing *)

Lemma get_set_lane l o lane : get_lane (set_lane l o lane) o = lane.
Proof. unfold get_lane. cbn. by rewrite lookup_insert_eq. Qed.

Lemma set_set_lane l o x y : set_lane (set_lane l o x) o y = set_lane l o y.
Proof. unfold set_lane. cbn. f_equal. apply insert_insert_eq. Qed.

(** The lane entry phase 1 makes is not seen by phase 2. *)
Lemma record_txn_reserved b t1 t2 c seq deleted cur :
  record_txn (set_log (set_text b t1) (set_lane (b_log b) (c_lane c) (get_lane (b_log b) (c_lane c)))) t2 c seq deleted cur
  = record_txn b t2 c seq deleted cur.
Proof.
  unfold record_txn. cbn [b_rev set_log set_text b_log anchors saved_rev].
  rewrite get_set_lane, set_set_lane.
  assert (forall l', coalesced (set_log (set_text b t1) (set_lane (b_log b) (c_lane c) (get_lane (b_log b) (c_lane c)))) c l' = coalesced b c l') as ->.
  { intros l'. unfold coalesced. cbn [b_log set_log set_text b_rev]. by rewrite get_set_lane. }
  done.
Qed.

Definition txn_entry b (c : Commit) (seq : list Edit) (deleted : list bytes) : LogEntry :=
  mkLogEntry (b_rev b + 1) (c_origin c) (c_lane c) (c_kind c) seq deleted (c_via c) (c_op_id c) (c_now_ms c).

Definition txn_log b (c : Commit) (seq : list Edit) (deleted : list bytes) : OpLog :=
  (push (set_lane (b_log b) (c_lane c)
          (lane_after (get_lane (b_log b) (c_lane c)) (c_kind c) (coalesced b c seq) (b_rev b + 1)))
     (txn_entry b c seq deleted)).1.

Lemma record_txn_wf b t2 c seq deleted cur :
  buf_wf b -> text_wf t2 -> text t2 = apply_seq (content b) seq ->
  canonical_seq (length (content b)) seq -> base_boundaries (content b) seq -> inserts_utf8 seq ->
  deleted = deleted_of (content b) seq ->
  match cur with
  | Some at_ => is_boundary (apply_seq (content b) seq) at_ = true /\ selection_room b (c_origin c) = true
  | None => True
  end ->
  let '(b', a) := record_txn b t2 c seq deleted cur in
  buf_wf b' /\ content b' = apply_seq (content b) seq /\ b_rev b' = (b_rev b + 1)%Z /\
  b_log b' = txn_log b c seq deleted /\ saved_rev b' = saved_rev b /\
  anchors b' = map (fun x => NamedAnchor_map x seq (b_rev b + 1)) (anchors b) /\
  ap_edits a = seq /\ ap_rev a = b_rev b' /\ ap_base_rev a = b_rev b.
Proof.
  intros Hwf Ht2 Et Hc Hb Hi Hd Hcur. pose proof (twf_utf8 _ (bw_text b Hwf)) as Hu. fold (content b) in Hu.
  assert (edits_ok (content b) seq) as Hok.
  { rewrite <- (app_nil_r (content b)). apply canonical_edits_ok; try done. constructor. }
  pose proof (record_log (b_log b) (c_lane c) (c_kind c) (coalesced b c seq) (txn_entry b c seq deleted)
    (bw_log b Hwf) (bw_lanes b Hwf)) as K. rewrite (bw_rev b Hwf) in K. cbn [le_rev txn_entry] in K.
  specialize (K eq_refl eq_refl (fun top E L => coalesced_top b c seq top E L)).
  unfold record_txn, txn_log. destruct (push _ _) as [l' tr]. destruct K as (W & Lr & Own & old & Eo).
  destruct (bw_history b Hwf) as (t0 & Hu0 & Hr).
  split_and!; try done. split; cbn [b_text b_log b_rev anchors selections]; unfold content; cbn [b_text]; rewrite ?Et; try done.
  - eapply (replays_suffix t0); [done|exact Hr|exact Eo|by split|done].
  - apply map_anchors_in; [done..|apply Hwf].
  - rewrite length_map. apply Hwf.
  - pose proof (map_selections_ok b (c_origin c) seq Hu Hok (bw_sels b Hwf)) as Hs.
    destruct cur as [at_|]; [|exact Hs]. apply map_Forall_insert_2; [|exact Hs].
    split; [by repeat constructor; cbn; destruct Hcur|by cbn].
  - destruct cur as [at_|]; [|rewrite size_map_selections; apply Hwf].
    apply (insert_selection_size _ _ _ b); [apply size_map_selections| |apply Hcur|apply Hwf].
    intros k. unfold map_selections. rewrite map_lookup_imap. by destruct (selections b !! k).
Qed.

Definition txn_seq (items : list Resolved) : list Edit := map resolved_edit (canonical items).

Lemma unchanged_text b t1 : text t1 = content b -> starts t1 = starts (b_text b) -> unchanged b (set_text b t1).
Proof. intros. by split. Qed.

Lemma wf_set_text b t1 : buf_wf b -> text_wf t1 -> text t1 = content b -> buf_wf (set_text b t1).
Proof. intros [] Ht E. split; unfold content; cbn; rewrite ?E; done. Qed.

Lemma unchanged_lane b o : unchanged b (set_log b (set_lane (b_log b) o (get_lane (b_log b) o))).
Proof.
  split; try done. intros k. unfold lane_stacks, get_lane at 1 3. cbn.
  destruct (decide (k = o)) as [->|Hne]; [by rewrite lookup_insert_eq|by rewrite lookup_insert_ne].
Qed.

Lemma wf_lane b o : buf_wf b -> buf_wf (set_log b (set_lane (b_log b) o (get_lane (b_log b) o))).
Proof.
  intros [H1 [H2a H2b] H3 H4 H5 H6 H7 H8 H9]. split; try done; cbn.
  - split; [by destruct H2a|]. intros k lane Hk. cbn in Hk.
    destruct (decide (k = o)) as [->|Hne]; [rewrite lookup_insert_eq in Hk|rewrite lookup_insert_ne in Hk by done; by apply (H2b k)].
    injection Hk as <-. exact (get_lane_Forall _ _ o H2b).
  - intros k lane Hk. cbn in Hk.
    destruct (decide (k = o)) as [->|Hne]; [rewrite lookup_insert_eq in Hk|rewrite lookup_insert_ne in Hk by done; by apply (H5 k)].
    injection Hk as <-. exact (owned_get_lane _ o H5).
Qed.

Lemma unchanged_trans b1 b2 b3 : unchanged b1 b2 -> unchanged b2 b3 -> unchanged b1 b3.
Proof. intros [] []. split; try congruence. Qed.

(** What a committed transaction leaves. *)
Definition committed b (items : list Resolved) (c : Commit) b' (a : Applied) : Prop :=
  let seq := txn_seq items in
  buf_wf b' /\ content b' = apply_seq (content b) seq /\ b_rev b' = (b_rev b + 1)%Z /\
  b_log b' = txn_log b c seq (deleted_of (content b) seq) /\ saved_rev b' = saved_rev b /\
  anchors b' = map (fun x => NamedAnchor_map x seq (b_rev b + 1)) (anchors b) /\
  ap_edits a = seq /\ ap_rev a = b_rev b' /\ ap_base_rev a = b_rev b /\
  canonical_seq (length (content b)) seq /\ base_boundaries (content b) seq /\ inserts_utf8 seq.

(** A transaction commits whole or is refused with nothing changed; it never
    panics. *)
Lemma commit_txn_inv vr b items c :
  buf_wf b -> Forall item_fit items ->
  exists b' r, commit_txn vr b items c = Some (b', r) /\ buf_wf b' /\
    match r with Ok a => committed b items c b' a | Err _ => unchanged b b' end.
Proof.
  intros Hwf Hit. pose proof (items_utf8 _ Hit) as Hi. fold (txn_seq items) in Hi.
  assert (Forall item_fit (canonical items)) as Hit' by (by rewrite canonical_perm).
  unfold commit_txn. fold (txn_seq items). set (seq := txn_seq items) in *.
  destruct (txn_cursor b c seq) as [cur|e] eqn:Ecur; [|exists b, (Err e); by split_and!; [| |apply unchanged_refl]].
  apply txn_cursor_Ok in Ecur as (sim & Hsim & Hcur).
  destruct (simulate_inv _ _ _ (bw_text b Hwf) Hi Hsim) as (Fl & Fn & Hc & Hfit & Hb).
  rewrite (deleted_read b (canonical items)) by (done || apply Hwf). fold (txn_seq items) seq.
  pose proof (prepare_inv vr (b_text b) seq (bw_text b Hwf) Hi) as P.
  pose proof (prepare_starts vr (b_text b) seq) as Pst.
  destruct (prepare vr (b_text b) seq) as [t1 prep]. destruct P as (W1 & E1 & P). cbn [fst] in Pst.
  pose proof (wf_set_text b t1 Hwf W1 E1) as Hwf1. pose proof (unchanged_text b t1 E1 Pst) as Un1.
  destruct prep as [prepared|e]; [|by exists (set_text b t1), (Err e)].
  destruct (negb (vr _ 1)); [by exists (set_text b t1), (Err oom)|].
  cbn [b_log set_text]. set (b2 := set_log (set_text b t1) _).
  assert (buf_wf b2) as Hwf2 by apply (wf_lane (set_text b t1) (c_lane c) Hwf1).
  assert (unchanged b b2) as Un2.
  { eapply unchanged_trans; [exact Un1|]. apply (unchanged_lane (set_text b t1) (c_lane c)). }
  destruct (negb (vr _ 1)); [by exists b2, (Err oom)|]. destruct (negb (vr _ 1)); [by exists b2, (Err oom)|].
  destruct P as (Ep & _ & _ & _ & _ & n & Fit & Room). unfold commit. rewrite Ep.
  destruct (commit_fits t1 n seq W1 Hi Room) as (t2 & C & W2 & E2 & _); [by rewrite E1|].
  rewrite C. cbn [mbind option_bind]. unfold b2. rewrite record_txn_reserved. rewrite E1 in E2.
  pose proof (record_txn_wf b t2 c seq (deleted_of (content b) seq) cur Hwf W2 E2 Hc Hb Hi eq_refl) as K.
  destruct (record_txn _ _ _ _ _ _) as [b' a]. destruct K as (K1 & K).
  { destruct (c_cursor c) as [p|]; [|by subst cur]. destruct Hcur as (at_ & -> & Hp & Hroom). split; [|done].
    assert (final_lines sim = line_count t2) as Efl.
    { unfold line_count. rewrite Fn, (twf_starts t2 W2), length_line_starts, E2. done. }
    rewrite Efl in Hp.
    set (b3 := mkBuffer t2 (b_log b) (b_rev b) (saved_rev b) (map (fun x => NamedAnchor_map x seq (b_rev b + 1)) (anchors b)) ∅).
    apply (resolve_post_pos b b3) in Hp; try done; [|apply Hwf].
    apply resolve_pos_boundary in Hp; [unfold content in Hp; cbn in Hp; by rewrite E2 in Hp|done|].
    unfold content; cbn. rewrite E2. apply map_anchors_in; [apply Hwf|by eapply seq_fits_ok|apply Hwf]. }
  exists b', (Ok a). split_and!; try done. unfold committed. naive_solver.
Qed.

(** ** Resolving positions and ranges *)

Definition range_ok (t : bytes) (r : range) : Prop :=
  fst r <= snd r /\ is_boundary t (fst r) = true /\ is_boundary t (snd r) = true.

Lemma check_offset_Ok b o o' :
  text_wf (b_text b) -> check_offset b o = Ok o' -> o' = o /\ is_boundary (content b) o = true.
Proof. intros Hwf Hc. pose proof (resolve_pos_boundary b (Offset o)) as K. cbn in K. unfold check_offset in *.
  run_inv Hc. subst. rewrite is_char_boundary_spec in E0 by done. by apply negb_false_iff in E0.
Qed.

Lemma ordered_Ok s e r : ordered s e = Ok r -> r = (s, e) /\ s <= e.
Proof. unfold ordered. destruct (Nat.ltb_spec e s); [done|]. intros [= <-]. done. Qed.

Lemma resolve_range_ok b r rg :
  text_wf (b_text b) -> Forall (anchor_in (content b)) (anchors b) ->
  resolve_range b r = Ok rg -> range_ok (content b) rg.
Proof.
  intros Hwf Ha. destruct r as [s e|start stop|a c|name|]; cbn [resolve_range]; intros Hr.
  - run_inv Hr. apply check_offset_Ok in Hx as [-> B1]; [|done]. apply check_offset_Ok in Hx0 as [-> B2]; [|done].
    apply ordered_Ok in Hr as [-> ?]. done.
  - run_inv Hr. apply resolve_pos_boundary in Hx; [|done..]. apply resolve_pos_boundary in Hx0; [|done..].
    apply ordered_Ok in Hr as [-> ?]. done.
  - run_inv Hr. subst rg. unfold check_line in Hx, Hx0. run_inv Hx. run_inv Hx0.
    apply orb_false_iff in E0 as [A1 A2], E1 as [C1 C2]. unfold line_count in *.
    destruct a as [|i]; [done|]. pose proof (twf_starts _ Hwf) as Es.
    destruct (line_exists (content b) i) as (p & l & r & La); [unfold content; rewrite <- Es; lia|].
    destruct (line_bounds _ i p l r Hwf La) as (Ls & _ & B1 & _). rewrite Ls. cbn [default from_option id].
    destruct (line_start (b_text b) (c + 1)) as [e|] eqn:Ee; cbn.
    + destruct (line_start_Some _ _ _ Hwf Ee) as (j & p' & l' & r' & Ej & La').
      rewrite Ej in Ee. destruct (line_bounds _ j p' l' r' Hwf La') as (Ls' & _ & B1' & _).
      rewrite Ls' in Ee. injection Ee as <-. split_and!; [|done|done].
      apply (line_at_le _ _ _ _ _ _ _ _ _ La La'). lia.
    + unfold Buffer_len. rewrite len_text by apply Hwf. split_and!; [by apply is_boundary_le|done|apply is_boundary_len].
  - run_inv Hr. subst rg. apply ok_or_Ok in Hx. unfold anchor in Hx. apply find_some in Hx as [Hin _].
    rewrite Forall_forall in Ha. apply list_elem_of_In in Hin. destruct (Ha _ Hin) as [B1 B2]. unfold range_ok. cbn.
    destruct (a_end x); [by destruct B2|]. done.
  - injection Hr as <-. unfold Buffer_len. rewrite len_text by apply Hwf.
    split_and!; cbn; [lia|apply is_boundary_0|apply is_boundary_len].
Qed.

Definition op_utf8 (op : OpSpec) : Prop :=
  match op with OpInsert _ x => utf8 x | OpDelete _ => True | OpReplace _ x => utf8 x end.

Definition pair_ok (t : bytes) (it : range * bytes) : Prop := range_ok t (fst it) /\ utf8 (snd it).

Lemma resolve_op_ok b op it :
  text_wf (b_text b) -> Forall (anchor_in (content b)) (anchors b) -> op_utf8 op ->
  resolve_op b op = Ok it -> pair_ok (content b) it.
Proof.
  intros Hwf Ha Hu. destruct op as [at_ x|r|r x]; cbn [resolve_op]; intros Hr; run_inv Hr; subst it.
  - apply resolve_pos_boundary in Hx; [|done..]. by repeat split.
  - apply resolve_range_ok in Hx; [|done..]. split; [done|constructor].
  - apply resolve_range_ok in Hx; [|done..]. by split.
Qed.

Definition mk_resolved (x : nat * (range * bytes)) : Resolved :=
  mkResolved (fst (fst (snd x))) (snd (fst (snd x))) (snd (snd x)) (fst x).

Lemma number_indexed its : number its = map mk_resolved (indexed its).
Proof.
  unfold number, indexed. change (map mk_resolved ?l) with (mk_resolved <$> l).
  apply list_eq. intros i. rewrite list_lookup_imap, list_lookup_fmap, lookup_zip_with.
  destruct (its !! i) as [it|] eqn:E.
  - rewrite lookup_seq_lt by (by eapply lookup_lt_Some). cbn. done.
  - destruct (seq 0 (length its) !! i); done.
Qed.

(** The steps of numbered items are the transaction's steps. *)
Lemma txn_seq_number its :
  txn_seq (number its) = map (fun x => item_edit (snd x))
    (stable_sort (fun x y => canonical_leb (txn_key x) (txn_key y)) (indexed its)).
Proof.
  unfold txn_seq, canonical. rewrite number_indexed.
  rewrite <- (stable_sort_map mk_resolved (fun x y => canonical_leb (txn_key x) (txn_key y))).
  - rewrite map_map. apply map_ext. by intros [i [[s e] x]].
  - by intros [i [[s e] x]] [j [[s' e'] x']].
Qed.

Lemma number_ok t its : Forall (pair_ok t) its -> Forall (item_ok t) (number its).
Proof.
  intros H. unfold number. apply Forall_lookup. intros i r Hr. rewrite list_lookup_imap in Hr.
  destruct (its !! i) as [it|] eqn:E; [|done]. injection Hr as <-. rewrite Forall_lookup in H.
  destruct (H i it E) as [(? & ? & ?) ?]. done.
Qed.

Lemma number_ranges its : map (fun r => (r_s r, r_e r)) (number its) = map fst its.
Proof.
  rewrite number_indexed, map_map. transitivity (map fst (map snd (indexed its))); [|by rewrite indexed_snd].
  rewrite map_map. apply map_ext. by intros [i [[s e] x]].
Qed.

Lemma check_overlap_Ok its u :
  Forall (fun it => fst (fst it) <= snd (fst it)) its -> check_overlap (number its) = Ok u -> pairwise_apart (map fst its).
Proof.
  unfold check_overlap. rewrite number_ranges. intros F. destruct (first_overlap _) eqn:E; [done|].
  intros _. apply first_overlap_None; [|done]. by rewrite Forall_map.
Qed.
End spec.
