(* ===== verification/BufferTxn.v ===== *)
(** * What a request means

    Resolution of a transaction against the current text or, for a [base_rev]
    request, against the text of an earlier revision; and the meaning of an
    applied request as one simultaneous rewrite. *)

From S2P Require Import Prelude Utf8 EditBase Ot Anchor GapBuffer Text History Buffer Cursor BufferSpec.

(** ** Ranges through the history *)

Lemma edits_ok_in t es : edits_ok t es -> edits_in t es.
Proof.
  revert t; induction es as [|e es IH]; intros t; [done|]. intros [He Hes].
  split; [by apply edit_ok_in|by apply IH].
Qed.

Lemma transform_range_seq_apart es prio a b a' b' :
  fst a <= snd a -> fst b <= snd b ->
  transform_range_seq a es prio = Some a' -> transform_range_seq b es prio = Some b' ->
  ~ ranges_overlap a b -> ~ ranges_overlap a' b'.
Proof.
  revert a b; induction es as [|e es IH]; intros a b Ha Hb; cbn [transform_range_seq].
  { by intros [= <-] [= <-]. }
  unfold transform_range.
  destruct (transform_raw a (RawEdit_of e) prio) as [[a1 la]|] eqn:Ea; cbn; [|done].
  destruct (transform_raw b (RawEdit_of e) prio) as [[b1 lb]|] eqn:Eb; cbn; [|done].
  intros H1 H2 Hno. pose proof (transform_raw_apart _ _ _ _ _ _ _ _ Ha Hb Ea Eb Hno) as Hno1.
  destruct a as [s e0], a1 as [s1 e1]. apply transform_raw_length in Ea as [La _]; [|done].
  destruct b as [u v], b1 as [u1 v1]. apply transform_raw_length in Eb as [Lb _]; [|done].
  by apply (IH (s1, e1) (u1, v1)).
Qed.

Lemma transform_range_seq_ordered es prio a a' :
  fst a <= snd a -> transform_range_seq a es prio = Some a' -> fst a' <= snd a'.
Proof.
  revert a; induction es as [|e es IH]; intros a Ha; cbn [transform_range_seq].
  { by intros [= <-]. }
  unfold transform_range. destruct (transform_raw a (RawEdit_of e) prio) as [[[s1 e1] la]|] eqn:Ea; cbn; [|done].
  destruct a as [s e0]. apply transform_raw_length in Ea as [La _]; [|done]. by apply IH.
Qed.

(** ** What it means to carry a range through edits

    A range of a text is its middle [m] between the text [l] before it and the text [r] after it.
    An edit that ends at or before the range rewrites [l]; one that starts at or after its end
    rewrites [r]; an insertion at an empty range counts as before it. No edit touches [m]. *)

Definition moved_left (n : nat) (e : Edit) : Edit := mkEdit (e_offset e - n) (e_delete e) (e_insert e).

Inductive carried : list Edit -> bytes * bytes * bytes -> bytes * bytes * bytes -> Prop :=
| carried_done x : carried [] x x
| carried_before l m r e es x :
    e_offset e + e_delete e <= length l -> carried es (apply_edit l e, m, r) x -> carried (e :: es) (l, m, r) x
| carried_after l m r e es x :
    length (l ++ m) <= e_offset e -> length l < e_offset e + e_delete e ->
    carried es (l, m, apply_edit r (moved_left (length (l ++ m)) e)) x -> carried (e :: es) (l, m, r) x.

(** The range [rg] of [t] is the range [rg'] of [t'] after the edits. *)
Definition carried_range (es : list Edit) (t : bytes) (rg : range) (t' : bytes) (rg' : range) : Prop :=
  exists l m r l' r', t = l ++ m ++ r /\ rg = (length l, length (l ++ m)) /\
    carried es (l, m, r) (l', m, r') /\ t' = l' ++ m ++ r' /\ rg' = (length l', length (l' ++ m)).

(** At most one place a range is carried to. *)
Lemma carried_functional es x y y' : carried es x y -> carried es x y' -> y = y'.
Proof.
  intros C; revert y'. induction C as [x|l m r e es x Hb C IH|l m r e es x Ha Ha' C IH]; intros y' C'; inversion C'; subst; try done; try lia; by apply IH.
Qed.

Lemma apply_edit_left l x e : e_offset e + e_delete e <= length l -> apply_edit (l ++ x) e = apply_edit l e ++ x.
Proof. intros H. unfold apply_edit, splice. rewrite take_app_le, drop_app_le by lia. by rewrite <- !app_assoc. Qed.

Lemma apply_edit_right l r e : length l <= e_offset e -> apply_edit (l ++ r) e = l ++ apply_edit r (moved_left (length l) e).
Proof.
  intros H. unfold apply_edit, splice, moved_left. cbn [e_offset e_delete e_insert]. rewrite take_app_ge, drop_app_ge, <- !app_assoc by lia.
  by replace (e_offset e + e_delete e - length l) with (e_offset e - length l + e_delete e) by lia.
Qed.

Lemma length_apply_edit t e : edit_in t e -> length (apply_edit t e) + e_delete e = length t + length (e_insert e).
Proof. unfold edit_in, apply_edit, splice. intros H. rewrite !length_app, length_take, length_drop. lia. Qed.

(** Transforming the offsets of a range through edits carries it. *)
Lemma transform_carries es : forall l m r rg',
  edits_in (l ++ m ++ r) es -> transform_range_seq (length l, length (l ++ m)) es ThroughFirst = Some rg' ->
  exists l' r', carried es (l, m, r) (l', m, r') /\ apply_seq (l ++ m ++ r) es = l' ++ m ++ r' /\
    rg' = (length l', length (l' ++ m)).
Proof.
  induction es as [|e es IH]; intros l m r rg' Hin H; cbn [transform_range_seq edits_in] in *.
  { injection H as <-. exists l, r. split_and!; [constructor|done|done]. }
  destruct Hin as [He Hes]. unfold transform_range in H.
  destruct (transform_raw (length l, length (l ++ m)) (RawEdit_of e) ThroughFirst) as [[[s1 z1] lf]|] eqn:Et;
    cbn [fmap option_fmap option_map fst mbind option_bind] in H; [|done].
  assert (e_offset e + e_delete e <= length l \/ length (l ++ m) <= e_offset e /\ length l < e_offset e + e_delete e) as [Hb|[Ha Ha']].
  { clear -Et. unfold transform_raw in Et. rewrite length_app in *. cbn [RawEdit_of] in Et. guards; try discriminate Et; lia. }
  - assert ((s1, z1) = (length (apply_edit l e), length (apply_edit l e ++ m))) as E1.
    { pose proof (length_apply_edit l e Hb) as La. rewrite length_app in *. clear -Et La Hb. unfold transform_raw in Et. cbn [RawEdit_of] in Et. guards; try discriminate Et; injection Et as <- <- _; f_equal; lia. }
    rewrite E1 in H. rewrite apply_edit_left in Hes by done. destruct (IH _ _ _ _ Hes H) as (l' & r' & C & Ea & Er).
    exists l', r'. split_and!; [by apply carried_before| |done]. cbn. by rewrite apply_edit_left.
  - assert ((s1, z1) = (length l, length (l ++ m))) as E1.
    { clear -Et Ha Ha'. unfold transform_raw in Et. rewrite length_app in *. cbn [RawEdit_of] in Et. guards; try discriminate Et; injection Et as <- <- _; f_equal; lia. }
    rewrite E1 in H. rewrite app_assoc, apply_edit_right, <- app_assoc in Hes by done. destruct (IH _ _ _ _ Hes H) as (l' & r' & C & Ea & Er).
    exists l', r'. split_and!; [by apply carried_after| |done]. cbn. by rewrite app_assoc, apply_edit_right, <- app_assoc.
Qed.

Lemma transform_carries_range t es rg rg' :
  edits_in t es -> fst rg <= snd rg <= length t -> transform_range_seq rg es ThroughFirst = Some rg' ->
  carried_range es t rg (apply_seq t es) rg'.
Proof.
  destruct rg as [s z]. cbn [fst snd]. intros Hin Hr H. destruct (cut2 t s z) as (l & m & r & -> & Ll & Lm); [lia..|].
  assert ((s, z) = (length l, length (l ++ m))) as E by (f_equal; len). rewrite E in *.
  destruct (transform_carries es l m r rg' Hin H) as (l' & r' & C & Ea & Er). by exists l, m, r, l', r'.
Qed.

Section txn.
Context {G : Type} {TS : TextStore G} {SL : TextStoreLaws G}.
Implicit Types b : Buffer G.

(** Fewer revisions than a [u64] counts. *)
Definition rev_room b : Prop := (b_rev b + 1 < U64_MAX)%Z.

(** The text of a retained revision. *)
Lemma text_at_rev b r :
  buf_wf b -> rev_room b -> (oldest_rev (b_log b) <= r)%Z ->
  exists t, utf8 t /\ replays t (after (b_log b) r) (content b).
Proof.
  intros Hwf Hroom Hr. destruct (bw_history b Hwf) as (t0 & Hu & H).
  destruct (bw_log b Hwf) as [Hcore _]. pose proof (lw_base _ Hcore) as Hb0. unfold oldest_rev in Hr.
  pose proof (bw_rev b Hwf) as Hrev. unfold rev_room in Hroom. rewrite after_filter by (done || lia).
  rewrite (revs_from_filter (base (b_log b))) by apply Hcore. set (k := Z.to_nat _).
  rewrite <- (take_drop k (entries (b_log b))) in H. apply replays_app in H as (m & H1 & H2).
  exists m. split; [by eapply replays_utf8|done].
Qed.

Lemma foldl_edits_len es n :
  foldl (fun n e => n + Z.of_nat (e_delete e) - Z.of_nat (length (e_insert e)))%Z n es =
  (n + Z.of_nat (list_sum (map e_delete es)) - Z.of_nat (list_sum (map (fun e => length (e_insert e)) es)))%Z.
Proof.
  revert n; induction es as [|e es IH]; intros n; cbn [foldl map]; [cbn; lia|]. rewrite IH.
  cbn [list_sum foldr]. change (foldr Nat.add 0) with list_sum. lia.
Qed.

(** The length of the base text, computed from the entries after it. *)
Lemma hist_len_spec b r t : text_wf (b_text b) -> replays t (after (b_log b) r) (content b) -> hist_len b r = Z.of_nat (length t).
Proof.
  intros Hwf. unfold hist_len, Buffer_len. rewrite len_text by apply Hwf. fold (content b).
  generalize (after (b_log b) r). generalize (content b). intros c es.
  assert (forall es t n, replays t es c ->
    foldl (fun n entry => foldl (fun n e => n + Z.of_nat (e_delete e) - Z.of_nat (length (e_insert e)))%Z n (le_edits entry)) n es
    = (n + Z.of_nat (length t) - Z.of_nat (length c))%Z) as K.
  { clear. induction es as [|e es IH]; intros t n; cbn [foldl replays]; [intros ->; lia|].
    intros [He H]. rewrite (IH _ _ H), foldl_edits_len.
    pose proof (length_apply_seq t (le_edits e) (eo_canonical _ _ He)). lia. }
  intros H. rewrite (K es t _ H). lia.
Qed.

Lemma rebase_range_content b es t c r r' :
  utf8 t -> replays t es c -> fst r <= snd r <= length t -> rebase_range b r es = Ok r' ->
  fst r' <= snd r' <= length c /\ slice (fst r') (snd r') c = slice (fst r) (snd r) t.
Proof.
  revert t r; induction es as [|e es IH]; intros t r Hu H Hr Hok; cbn [rebase_range replays] in *.
  - injection Hok as <-. by subst c.
  - destruct H as [He H]. apply result_bind_Ok in Hok as (r1 & H1 & Hok). apply ok_or_Ok in H1.
    pose proof (entry_of_ok t e Hu He) as Eok.
    destruct (transform_range_seq_content t (le_edits e) ThroughFirst r r1) as [K1 K2]; [by apply edits_ok_in|done|done|].
    destruct (IH (apply_seq t (le_edits e)) r1) as [I1 I2]; [by apply edits_ok_utf8|done..|].
    split; [done|congruence].
Qed.

Lemma rebase_range_seq b r es r' :
  rebase_range b r es = Ok r' -> transform_range_seq r (concat (map le_edits es)) ThroughFirst = Some r'.
Proof.
  revert r; induction es as [|e es IH]; intros r; cbn [rebase_range map concat]; [by intros [= ->]|].
  intros E. run_inv E. rewrite transform_range_seq_app. apply ok_or_Ok in Hx as ->. by apply IH.
Qed.

(** The entries between two texts, as one sequence of edits. *)
Lemma replays_edits t es c :
  utf8 t -> replays t es c -> edits_in t (concat (map le_edits es)) /\ apply_seq t (concat (map le_edits es)) = c.
Proof.
  revert t; induction es as [|e es IH]; intros t Hu H; cbn [replays map concat] in *; [done|]. destruct H as [He H].
  pose proof (entry_of_ok t e Hu He) as Eok. destruct (IH (apply_seq t (le_edits e))) as [K1 K2]; [by apply edits_ok_utf8|done|].
  rewrite apply_seq_app. split; [|done]. apply edits_in_app. split; [by apply edits_ok_in|done].
Qed.

Lemma rebase_range_carried b es t c r r' :
  utf8 t -> replays t es c -> fst r <= snd r <= length t -> rebase_range b r es = Ok r' ->
  carried_range (concat (map le_edits es)) t r c r'.
Proof.
  intros Hu H Hr Hok. destruct (replays_edits t es c Hu H) as [Hin <-].
  apply transform_carries_range; [done|done|by eapply rebase_range_seq].
Qed.

Lemma rebase_range_apart b es x y x' y' :
  fst x <= snd x -> fst y <= snd y ->
  rebase_range b x es = Ok x' -> rebase_range b y es = Ok y' -> ~ ranges_overlap x y -> ~ ranges_overlap x' y'.
Proof.
  revert x y; induction es as [|e es IH]; intros x y Hx Hy; cbn [rebase_range].
  { by intros [= <-] [= <-]. }
  intros H1 H2 Hno. apply result_bind_Ok in H1 as (x1 & Ex & H1). apply result_bind_Ok in H2 as (y1 & Ey & H2).
  apply ok_or_Ok in Ex, Ey.
  pose proof (transform_range_seq_ordered _ _ _ _ Hx Ex). pose proof (transform_range_seq_ordered _ _ _ _ Hy Ey).
  pose proof (transform_range_seq_apart (le_edits e) ThroughFirst x y x1 y1 Hx Hy Ex Ey Hno). by apply (IH x1 y1).
Qed.

Lemma rebase_apart b es (its its' : list (range * bytes)) (t c : bytes) :
  Forall (fun it => fst (fst it) <= snd (fst it) <= length t /\ utf8 (snd it)) its ->
  Forall2 (fun it it' => snd it' = snd it /\ rebase_range b (fst it) es = Ok (fst it') /\
      slice (fst (fst it')) (snd (fst it')) c = slice (fst (fst it)) (snd (fst it)) t /\
      pair_ok c it') its its' ->
  pairwise_apart (map fst its) -> pairwise_apart (map fst its').
Proof.
  intros F F2. revert F; induction F2 as [|it it' its its' (_ & Hr & _ & _) F2 IH]; intros F; cbn [map]; [done|].
  inversion F as [|? ? [Fl _] F']; subst. rewrite !pairwise_apart_cons. intros [H1 H2]. split; [|by apply IH].
  intros y Hy. apply list_elem_of_fmap in Hy as (y' & -> & Hy). apply list_elem_of_lookup in Hy as [i Hi].
  destruct (Forall2_lookup_r _ _ _ _ _ F2 Hi) as (x & Hx & _ & Hrx & _).
  rewrite Forall_lookup in F'. destruct (F' i x Hx) as [Fx _].
  apply (rebase_range_apart b es (fst it) (fst x)); try done; [lia..|].
  apply H1. apply list_elem_of_fmap. exists x. split; [done|]. by eapply list_elem_of_lookup_2.
Qed.

(** Rebased items, with the pairs they carry. *)
Definition pair_of (r : Resolved) : range * bytes := ((r_s r, r_e r), r_text r).

Lemma number_pairs l : (forall i r, l !! i = Some r -> r_idx r = i) -> number (map pair_of l) = l.
Proof.
  intros H. unfold number. apply list_eq. intros i. rewrite list_lookup_imap.
  change (map pair_of l) with (pair_of <$> l). rewrite list_lookup_fmap.
  destruct (l !! i) as [r|] eqn:E; [|done]. cbn. specialize (H i r E). destruct r as [s e x idx]. cbn in *. by subst.
Qed.

Lemma rebase_items b es t its items :
  text_wf (b_text b) -> utf8 t -> replays t es (content b) ->
  Forall (fun it => fst (fst it) <= snd (fst it) <= length t /\ utf8 (snd it)) its ->
  pairwise_apart (map fst its) ->
  mapM_res (rebase_item b es) (number its) = Ok items ->
  exists its', items = number its' /\ Forall (pair_ok (content b)) its' /\ pairwise_apart (map fst its') /\
    Forall2 (fun it it' => snd it' = snd it /\ rebase_range b (fst it) es = Ok (fst it') /\
      slice (fst (fst it')) (snd (fst it')) (content b) = slice (fst (fst it)) (snd (fst it)) t) its its'.
Proof.
  intros Hwf Hu Hrep F Hap H. apply mapM_res_Ok in H. exists (map pair_of items).
  assert (forall i it r', its !! i = Some it -> items !! i = Some r' ->
    rebase_range b (fst it) es = Ok (r_s r', r_e r') /\ r_text r' = snd it /\ r_idx r' = i /\
    is_boundary (content b) (r_s r') = true /\ is_boundary (content b) (r_e r') = true) as K.
  { intros i it r' Hi Hi'. assert (number its !! i = Some (mkResolved (fst (fst it)) (snd (fst it)) (snd it) i)) as Hn.
    { unfold number. by rewrite list_lookup_imap, Hi. }
    pose proof (Forall2_lookup_lr _ _ _ _ _ _ H Hn Hi') as Hr. unfold rebase_item in Hr. run_inv Hr. subst r'.
    apply check_offset_Ok in Hx0 as [_ B1]; [|done]. apply check_offset_Ok in Hx1 as [_ B2]; [|done].
    cbn in *. destruct it as [[s e] tx], x as [s' e']. done. }
  pose proof (Forall2_length _ _ _ H) as Hlen. unfold number in Hlen. rewrite length_imap in Hlen.
  assert (forall i r', items !! i = Some r' -> exists it, its !! i = Some it) as Hex.
  { intros i r' Hr. apply lookup_lt_Some in Hr. apply lookup_lt_is_Some. lia. }
  assert (Forall2 (fun it it' => snd it' = snd it /\ rebase_range b (fst it) es = Ok (fst it') /\
      slice (fst (fst it')) (snd (fst it')) (content b) = slice (fst (fst it)) (snd (fst it)) t /\
      pair_ok (content b) it') its (map pair_of items)) as F2.
  { apply Forall2_same_length_lookup. rewrite length_map. split; [done|]. intros i it it' Hi Hi'.
    change (map pair_of items) with (pair_of <$> items) in Hi'. rewrite list_lookup_fmap in Hi'.
    destruct (items !! i) as [r'|] eqn:Er; [|done]. injection Hi' as <-.
    destruct (K i it r' Hi Er) as (K1 & K2 & K3 & K4 & K5).
    rewrite Forall_lookup in F. destruct (F i it Hi) as [Fr Fu].
    destruct (rebase_range_content b es t (content b) (fst it) _ Hu Hrep Fr K1) as [R1 R2]. cbn in *.
    split_and!; try done. split; [split_and!; cbn; [lia|done|done]|cbn; by rewrite K2]. }
  split_and!.
  - symmetry. apply number_pairs. intros i r Hr. destruct (Hex i r Hr) as [it Hi]. by apply (K i it r).
  - apply Forall_lookup. intros i it' Hi'. destruct (Forall2_lookup_r _ _ _ _ _ F2 Hi') as (it & _ & Hit). naive_solver.
  - by apply (rebase_apart b es its (map pair_of items) t (content b)).
  - eapply Forall2_impl; [exact F2|]. naive_solver.
Qed.

Lemma resolve_base_op_ok n op it :
  op_utf8 op -> resolve_base_op (Z.of_nat n) op = Ok it ->
  fst (fst it) <= snd (fst it) <= n /\ utf8 (snd it).
Proof.
  intros Hu. unfold resolve_base_op.
  assert (forall s e x, utf8 x ->
    (if (Z.of_nat n <? Z.of_nat e)%Z || (Z.of_nat n <? Z.of_nat s)%Z
     then Err (with_num (invalid reason.OFFSET_OUT_OF_RANGE) "offset" (max s e))
     else if e <? s then Err (invalid reason.BAD_ARGS) else Ok ((s, e), x)) = Ok it ->
    fst (fst it) <= snd (fst it) <= n /\ utf8 (snd it)) as K.
  { intros s e x Hx H. run_inv H. subst it. cbn. split; [lia|done]. }
  destruct op as [[]|[]|[]]; cbn in Hu; apply K; try done; constructor.
Qed.

Lemma mapM_res_Forall {A B E} (P : A -> Prop) (Q : B -> Prop) (f : A -> result B E) l k :
  Forall P l -> (forall x y, P x -> f x = Ok y -> Q y) -> mapM_res f l = Ok k -> Forall Q k.
Proof.
  intros Hl Hf H. apply mapM_res_Ok in H. induction H as [|x y l k Hxy H IH]; [constructor|].
  inversion Hl; subst. constructor; [by eapply Hf|by apply IH].
Qed.

(** How the pairs of a request sit in the text they name and in the current
    one: the same for a request on the current text. *)
Definition resolves b (from : option Z) (ops : list OpSpec) (t : bytes) (its its' : list (range * bytes)) : Prop :=
  match from with
  | None => t = content b /\ its' = its /\ mapM_res (resolve_op b) ops = Ok its
  | Some r =>
    utf8 t /\ replays t (after (b_log b) r) (content b) /\
    mapM_res (resolve_base_op (Z.of_nat (length t))) ops = Ok its /\
    Forall2 (fun it it' => snd it' = snd it /\ rebase_range b (fst it) (after (b_log b) r) = Ok (fst it') /\
      slice (fst (fst it')) (snd (fst it')) (content b) = slice (fst (fst it)) (snd (fst it)) t) its its'
  end.

Lemma rebase_from_oldest b cas r : rebase_from b cas = Ok (Some r) -> (oldest_rev (b_log b) <= r < b_rev b)%Z.
Proof.
  destruct cas as [|q|q]; cbn; intros H; run_inv H; try done.
  destruct (Z.ltb_spec q (b_rev b)); [|done]. injection H as <-. lia.
Qed.

Lemma resolve_txn_inv b req items :
  buf_wf b -> rev_room b -> Forall op_utf8 (rq_ops req) -> resolve_txn b req = Ok items ->
  exists from t its its', rebase_from b (rq_cas req) = Ok from /\ resolves b from (rq_ops req) t its its' /\
    items = number its' /\ Forall (pair_ok (content b)) its' /\ pairwise_apart (map fst its').
Proof.
  intros Hwf Hroom Hu H. unfold resolve_txn in H. run_inv H. subst items. pose proof (bw_text b Hwf) as Hwt.
  unfold resolve_items in Hx1. destruct x0 as [r|].
  - destruct (text_at_rev b r Hwf Hroom) as (t & Ut & Rt); [apply rebase_from_oldest in Hx0; lia|].
    rewrite (hist_len_spec b r t Hwt Rt) in Hx1. run_inv Hx1.
    assert (Forall (fun it => fst (fst it) <= snd (fst it) <= length t /\ utf8 (snd it)) x0) as F.
    { by apply (mapM_res_Forall op_utf8 _ _ _ _ Hu (resolve_base_op_ok (length t))) in Hx2. }
    assert (pairwise_apart (map fst x0)) as Hap.
    { eapply check_overlap_Ok; [|exact Hx3]. eapply Forall_impl; [exact F|]. cbn. lia. }
    destruct (rebase_items b _ t x0 x1 Hwt Ut Rt F Hap Hx1) as (its' & -> & K1 & K2 & K3).
    exists (Some r), t, x0, its'. by split_and!.
  - run_inv Hx1. subst x1.
    assert (Forall (pair_ok (content b)) x0) as F.
    { refine (mapM_res_Forall op_utf8 _ _ _ _ Hu _ Hx2). intros op it Ho. apply resolve_op_ok; [done|apply Hwf|done]. }
    exists None, (content b), x0, x0. split_and!; try done.
    eapply check_overlap_Ok; [|exact Hx3]. eapply Forall_impl; [exact F|]. by intros it [(? & _) _].
Qed.

Definition apply_commit b (req : TxnRequest) (origin : Origin) (via : Via) (now_ms : Z) : Commit :=
  mkCommit origin origin KEdit via now_ms (rq_op_id req) (rq_coalesce req) (rq_cursor req)
    (match rq_cas req with BaseRev r => (r <? b_rev b)%Z | _ => false end).

Lemma apply_inv vr b req origin via now_ms :
  buf_wf b -> rev_room b -> Forall op_utf8 (rq_ops req) ->
  exists b' r, apply vr b req origin via now_ms = Some (b', r) /\ buf_wf b' /\
    match r with
    | Err _ => unchanged b b'
    | Ok a => exists from t its its', rebase_from b (rq_cas req) = Ok from /\ resolves b from (rq_ops req) t its its' /\
        Forall (pair_ok (content b)) its' /\ pairwise_apart (map fst its') /\
        committed b (number its') (apply_commit b req origin via now_ms) b' a /\
        content b' = rewrite_from (content b) 0 (txn_reading its')
    end.
Proof.
  intros Hwf Hroom Hu. unfold apply. destruct (resolve_txn b req) as [items|e] eqn:E.
  2: { exists b, (Err e). split_and!; [done|done|apply unchanged_refl]. }
  destruct (resolve_txn_inv b req items Hwf Hroom Hu E) as (from & t & its & its' & Hf & Hres & -> & F & Hap).
  destruct (commit_txn_inv vr b (number its') (apply_commit b req origin via now_ms) Hwf) as (b' & r & Ec & W & Hr).
  { by eapply item_ok_fit, number_ok. }
  exists b', r. split_and!; [done|done|]. destruct r as [a|e]; [|done].
  exists from, t, its, its'. split_and!; try done.
  destruct Hr as (_ & Et & _). rewrite Et, txn_seq_number.
  apply (txn_order_rewrite (content b) its'); [|done].
  eapply Forall_impl; [exact F|]. intros it [(? & _ & ?%is_boundary_le) _]. done.
Qed.
End txn.
