(* ===== verification/BufferUndo.v ===== *)
(** * Undo, redo and reload

    The composed inverse of a group, that undo and redo commit whole or change
    nothing, that undoing the newest entry restores the text before it, and
    that a reload yields the new file text. *)

From S2P Require Import Prelude Utf8 EditBase Ot Anchor GapBuffer Text History Buffer Cursor BufferSpec BufferTxn.

(** ** Ranges stay ordered *)

Definition ordered_range (r : range) : Prop := fst r <= snd r.

Lemma transform_raw_ordered r t prio r' side :
  ordered_range r -> transform_raw r t prio = Some (r', side) -> ordered_range r'.
Proof. destruct r, r'. unfold ordered_range. cbn. intros H E. by apply transform_raw_length in E as [? _]. Qed.

Lemma through_member_ordered r edits r' sides :
  ordered_range r -> through_member r edits = Some (r', sides) -> ordered_range r'.
Proof.
  revert r sides; induction edits as [|ed edits IH]; intros r sides Hr; cbn [through_member].
  { by intros [= <- _]. }
  destruct (transform_raw r ed ThroughFirst) as [[r1 s1]|] eqn:E; cbn; [|done].
  destruct (through_member r1 edits) as [[r2 ss]|] eqn:E2; cbn; [|done]. intros [= <- _].
  apply (IH r1 ss); [by eapply transform_raw_ordered|done].
Qed.

Lemma raw_range_seq_ordered r edits prio r' :
  ordered_range r -> raw_range_seq r edits prio = Some r' -> ordered_range r'.
Proof.
  revert r; induction edits as [|ed edits IH]; intros r Hr; cbn [raw_range_seq].
  { by intros [= <-]. }
  destruct (transform_raw r ed prio) as [[r1 s1]|] eqn:E; cbn; [|done].
  apply IH. by eapply transform_raw_ordered.
Qed.

Lemma post_range_ordered r later : ordered_range r -> ordered_range (post_range r later).
Proof.
  revert r; induction later as [|e later IH]; intros r Hr; cbn [post_range]; [done|].
  destruct (transform_raw r e ThroughFirst) as [[r1 s1]|] eqn:E; apply IH; [by eapply transform_raw_ordered|done].
Qed.

Lemma post_ranges_raw_ordered edits : Forall ordered_range (post_ranges_raw edits).
Proof.
  induction edits as [|e edits IH]; cbn; constructor; [|done]. apply post_range_ordered. unfold ordered_range. cbn. lia.
Qed.

(** ** The composition keeps what its items carry *)

Section compose.
Context {P : Type} (Q : P -> Prop).

Definition item_good (c : Composed P) : Prop := ordered_range (cp_range c) /\ Q (cp_payload c).

Lemma merge_items_Forall rev old new l :
  Forall (fun o => item_good o.1) old -> Forall (fun n => item_good n.2) new ->
  merge_items rev old new = Ok l -> Forall item_good l.
Proof.
  intros Ho; revert new l; induction Ho as [|[o sides] old Ho Hold IH]; intros new l Hn.
  { cbn. intros [= <-]. by apply Forall_map. }
  revert l; induction Hn as [|[i n] new Hn Hnew IHn]; intros l H; cbn [merge_items] in H.
  - injection H as <-. constructor; [done|]. by apply Forall_map.
  - apply result_bind_Ok in H as (tk & _ & H). destruct tk; apply result_bind_Ok in H as (rest & H1 & H); injection H as <-.
    + constructor; [done|]. by apply IHn.
    + constructor; [done|]. apply (IH ((i, n) :: new)); [by constructor|done].
Qed.

Lemma compose_members_Forall members items :
  Forall (fun m => Forall Q m.2) members -> compose_members members = Ok items -> Forall item_good items.
Proof.
  unfold compose_members. assert (Forall item_good []) as H0 by constructor. revert H0. generalize (@nil (Composed P)).
  induction members as [|[[rev edits] payloads] members IH]; intros acc Hacc Hm; cbn [foldM_res].
  { by intros [= <-]. }
  inversion Hm as [|? ? Hp Hm']; subst. intros H. apply result_bind_Ok in H as (acc' & H1 & H).
  apply (IH acc'); [|done|done]. unfold compose_member in H1. apply result_bind_Ok in H1 as (old & Hold & H1).
  refine (merge_items_Forall rev old _ acc' _ _ H1).
  - refine (mapM_res_Forall item_good _ _ _ _ Hacc _ Hold). intros it o [Hr Hq] Ho.
    destruct (through_member (cp_range it) edits) as [[r sides]|] eqn:E; [|done]. injection Ho as <-.
    split; [by eapply through_member_ordered|done].
  - apply Forall_forall. intros n Hn. rewrite <- (Permutation_rev (imap _ _)) in Hn.
    apply list_elem_of_lookup in Hn as [i Hn]. rewrite list_lookup_imap in Hn.
    destruct (zip _ _ !! i) as [[r pl]|] eqn:Ez; [|done]. injection Hn as <-.
    apply lookup_zip_Some in Ez as [Er Ep]. cbn in Hp. split; cbn.
    + pose proof (post_ranges_raw_ordered edits) as Ho. rewrite Forall_lookup in Ho. by apply (Ho i).
    + rewrite Forall_lookup in Hp. by apply (Hp i).
Qed.
End compose.

(** The texts an entry removed are well-formed. *)
Lemma entry_of_deleted t e : utf8 t -> entry_of t e -> Forall utf8 (le_deleted e).
Proof.
  intros Hu [_ Hb _ ->]. unfold deleted_of. apply Forall_map. eapply Forall_impl; [exact Hb|].
  intros ed [B1 B2]. apply utf8_slice; try done. lia.
Qed.

Lemma replays_deleted t0 es t : utf8 t0 -> replays t0 es t -> Forall (fun e => Forall utf8 (le_deleted e)) es.
Proof.
  revert t0; induction es as [|e es IH]; intros t0 Hu; [constructor|]. intros [He H].
  constructor; [by eapply entry_of_deleted|]. apply (IH (apply_seq t0 (le_edits e))); [|done].
  apply edits_ok_utf8; [done|by apply entry_of_ok].
Qed.

(** ** The inverse of an entry *)

(** What an entry inserted lies between boundaries of the text it made. *)
Lemma post_ranges_boundaries t es :
  utf8 t -> canonical_seq (length t) es -> base_boundaries t es -> inserts_utf8 es ->
  Forall (range_ok (apply_seq t es)) (post_ranges es).
Proof.
  intros Hu Hc Hb Hi. revert t Hu Hc Hb. induction Hi as [|e es He Hi IH]; intros t Hu Hc Hb; [constructor|].
  rewrite (post_ranges_cons t), apply_seq_cons by done. pose proof Hc as [Hle Hc'].
  inversion Hb as [|? ? [B1 B2] Hb']; subst. destruct (utf8_split t _ Hu B1) as [U1 _]. destruct (utf8_split t _ Hu B2) as [_ U2].
  set (a := take (e_offset e) t) in *. assert (length a = e_offset e) as La by (unfold a; rewrite length_take_le; lia).
  assert (utf8 (drop (e_offset e) t)) as Ud by (by apply utf8_split).
  assert (base_boundaries a es) as Hba.
  { apply (base_boundaries_prefix a (drop (e_offset e) t) es (e_offset e)); [done|done|lia|].
    unfold a. by rewrite take_drop. }
  rewrite <- La in Hc'. specialize (IH a U1 Hc' Hba).
  assert (edits_ok a es) as Ho by (rewrite <- (app_nil_r a); apply canonical_edits_ok; try done; constructor).
  pose proof (edits_ok_utf8 a es U1 Ho) as Ua. set (x := apply_seq a es) in *.
  assert (utf8 (e_insert e ++ drop (e_offset e + e_delete e) t)) as Uy by (by apply utf8_app).
  constructor.
  - cbv zeta. split_and!; cbn; [lia| |].
    + rewrite boundary_app_l by (done || lia). apply is_boundary_len.
    + rewrite app_assoc, boundary_app_l by (done || len). rewrite <- length_app. apply is_boundary_len.
  - eapply Forall_impl; [exact IH|]. intros [s1 e1] (H1 & H2 & H3). cbn in *.
    pose proof (is_boundary_le _ _ H3). split_and!; cbn; [done|by rewrite boundary_app_l by (done || lia)..].
Qed.

(** Items in reading order are apart, and reading order is the order a
    transaction gives them. *)
Lemma reading_apart pos its hi : reading pos its hi -> pairwise_apart (map fst its).
Proof.
  revert pos; induction its as [|[[s e] x] its IH]; intros pos; cbn [map reading].
  { intros _ a b rest H. by apply Permutation_nil_cons in H. }
  intros (H1 & H2 & H). apply pairwise_apart_cons. split; [|by eapply IH].
  intros [u v] Hin. cbn [fst]. enough (e <= u) by (unfold ranges_overlap; cbn; lia).
  clear -H Hin. revert e H Hin; induction its as [|[[s2 e2] y] its IH]; intros e H Hin; cbn in Hin; [by apply not_elem_of_nil in Hin|].
  destruct H as (A & B & C). apply elem_of_cons in Hin as [E|Hin]; [cbn in E; injection E as -> ->; done|].
  specialize (IH _ C Hin). lia.
Qed.

Lemma reading_sorted pos its hi n :
  reading pos its hi ->
  StronglySorted (fun a b => reading_leb (txn_key a) (txn_key b) = true) (zip (seq n (length its)) its).
Proof.
  revert pos n; induction its as [|[[s e] x] its IH]; intros pos n; cbn [length seq zip zip_with reading]; [constructor|].
  intros (H1 & H2 & H). constructor; [by eapply IH|]. apply Forall_lookup. intros i [j [[u v] y]] Hj.
  apply lookup_zip_Some in Hj as [Hj Hi]. apply lookup_seq in Hj as [-> _].
  assert (e <= u /\ u <= v) as [].
  { clear -H Hi. revert e i H Hi; induction its as [|[[s2 e2] z] its IH]; intros e i H Hi; [done|].
    destruct H as (A & B & C). destruct i as [|i]; cbn in Hi; [injection Hi as -> -> ->; done|].
    specialize (IH _ _ C Hi). lia. }
  unfold reading_leb, txn_key. cbn. rewrite canonical_leb_spec. lia.
Qed.

Lemma txn_reading_id pos its hi : reading pos its hi -> txn_reading its = its.
Proof.
  intros H. unfold txn_reading. rewrite stable_sort_id by (by eapply reading_sorted). apply indexed_snd.
Qed.

Section undo.
Context {G : Type} {TS : TextStore G} {SL : TextStoreLaws G}.
Implicit Types b : Buffer G.

Definition undo_fit (it : UndoItem) : Prop := ordered_range (u_range it) /\ utf8 (u_restore it).

Lemma through_red_fit b lane items r items' :
  Forall undo_fit items -> through_red b lane items r = Ok items' -> Forall undo_fit items'.
Proof.
  intros Hi H. refine (mapM_res_Forall undo_fit _ _ _ _ Hi _ H). intros it it' [Hr Hu] E.
  destruct (raw_range_seq _ _ _) as [rg|] eqn:Er; [|done]. injection E as <-.
  split; [by eapply raw_range_seq_ordered|done].
Qed.

Lemma take_members_subset last es : take_members last es ⊆ es.
Proof.
  induction es as [|e es IH]; cbn; [done|]. destruct (_ <=? _)%Z; [|apply list_subseteq_nil].
  by apply list_subseteq_skip.
Qed.

Lemma compose_inverse_fit b group lane items :
  buf_wf b -> compose_inverse b group lane = Ok items -> Forall undo_fit items.
Proof.
  intros Hwf H. destruct (bw_history b Hwf) as (t0 & Hu & Hrep).
  pose proof (replays_deleted _ _ _ Hu Hrep) as Hdel.
  unfold compose_inverse in H. run_inv H. subst items. apply map_err_Ok in Hx.
  assert (Forall (item_good (fun pl : bytes * bytes => utf8 pl.1)) x) as Hg.
  { eapply compose_members_Forall; [|exact Hx]. apply Forall_map, Forall_forall. intros e He.
    apply take_members_subset in He. unfold after in He.
    assert (e ∈ entries (b_log b)) as Hin.
    { revert He. set (k := min _ _). intros He. rewrite <- (take_drop k (entries (b_log b))).
      apply elem_of_app. by right. }
    rewrite Forall_forall in Hdel. specialize (Hdel e Hin). cbn. apply Forall_lookup. intros i pl Hp.
    rewrite list_lookup_imap in Hp. destruct (le_edits e !! i); [|done]. injection Hp as <-. cbn.
    destruct (le_deleted e !! i) as [d|] eqn:Ed; [|constructor]. rewrite Forall_lookup in Hdel. by apply (Hdel i). }
  assert (Forall undo_fit (map (fun c => mkUndoItem (cp_range c) (cp_payload c).1 (cp_payload c).2 (cp_member c)) x)) as Hi.
  { apply Forall_map. eapply Forall_impl; [exact Hg|]. by intros c [? ?]. }
  clear -Hi Hx0. revert Hi Hx0. generalize (map (fun c => mkUndoItem (cp_range c) (cp_payload c).1 (cp_payload c).2 (cp_member c)) x).
  induction (reduced_after b (g_end group)) as [|r red IH]; intros l Hl Hf; cbn in Hf; [by injection Hf as <-|].
  apply result_bind_Ok in Hf as (l1 & H1 & Hf). apply (IH l1); [by eapply through_red_fit|done].
Qed.

Definition undo_pairs (items : list UndoItem) : list (range * bytes) := map (fun it => (u_range it, u_restore it)) items.

Lemma undo_plan_number items :
  imap (fun i it => mkResolved (fst (u_range it)) (snd (u_range it)) (u_restore it) i) items = number (undo_pairs items).
Proof.
  unfold number, undo_pairs. change (map (fun it => (u_range it, u_restore it)) items)
    with ((fun it => (u_range it, u_restore it)) <$> items). by rewrite imap_fmap.
Qed.

Lemma number_fit its : Forall (fun it => ordered_range (fst it) /\ utf8 (snd it)) its -> Forall item_fit (number its).
Proof.
  intros H. unfold number. apply Forall_lookup. intros i r Hr. rewrite list_lookup_imap in Hr.
  destruct (its !! i) as [it|] eqn:E; [|done]. injection Hr as <-. rewrite Forall_lookup in H.
  by destruct (H i it E).
Qed.

Definition undo_commit (caller lane : Origin) (redo : bool) (group : Group) (via : Via) (now_ms : Z) (op_id : option bytes) : Commit :=
  mkCommit caller lane (if redo then KRedo group else KUndo group) via now_ms op_id false None false.

(** Undo and redo commit the composed inverse or change nothing. *)
Lemma undo_redo_inv vr b sel caller via now_ms redo op_id :
  buf_wf b ->
  exists b' r, undo_redo vr b sel caller via now_ms redo op_id = Some (b', r) /\ buf_wf b' /\
    match r with
    | Err _ => unchanged b b'
    | Ok a => exists lane group items, pick_lane b sel caller redo = Ok lane /\ top_group b redo lane = Some group /\
        compose_inverse b group lane = Ok items /\
        committed b (number (undo_pairs items)) (undo_commit caller lane redo group via now_ms op_id) b' a
    end.
Proof.
  intros Hwf. unfold undo_redo. destruct (undo_plan b sel caller redo) as [[[lane group] resolved]|e] eqn:E.
  2: { exists b, (Err e). split_and!; [done|done|apply unchanged_refl]. }
  unfold undo_plan in E. apply result_bind_Ok in E as (x & Hx & E). apply result_bind_Ok in E as (x0 & Hx0 & E).
  injection E as -> <- <-.
  assert (exists g, top_group b redo lane = Some g) as [g Hg].
  { unfold pick_lane in Hx. destruct (top_group b redo _) eqn:Et; [|done]. injection Hx as <-. eauto. }
  rewrite Hg in *. cbn [default from_option id] in *. rewrite undo_plan_number.
  destruct (commit_txn_inv vr b (number (undo_pairs x0)) (undo_commit caller lane redo g via now_ms op_id) Hwf) as (b' & r & Ec & W & Hr).
  { apply number_fit. unfold undo_pairs. apply Forall_map. by eapply compose_inverse_fit. }
  exists b', r. split_and!; [done|done|]. destruct r as [a|]; [|done]. by exists lane, g, x0.
Qed.

(** ** Undoing the newest entry *)

Lemma after_newest b es e :
  buf_wf b -> rev_room b -> entries (b_log b) = es ++ [e] ->
  le_rev e = b_rev b /\ (0 <= oldest_rev (b_log b) < b_rev b)%Z /\
  after (b_log b) (b_rev b - 1) = [e] /\ after (b_log b) (b_rev b) = [].
Proof.
  intros Hwf Hroom He. destruct (bw_log b Hwf) as [Hcore _]. pose proof (bw_rev b Hwf) as Hrev.
  pose proof (lw_base _ Hcore) as Hb0. pose proof (lw_revs _ Hcore) as Hr. unfold rev_room, last_rev, oldest_rev in *.
  rewrite He in Hr, Hrev. rewrite length_app in Hrev. cbn in Hrev.
  apply revs_from_app in Hr as [Hr1 [Hr2 _]].
  rewrite !after_filter by (done || (unfold last_rev; rewrite ?He, ?length_app; cbn; lia)).
  rewrite He, !filter_app. rewrite !(revs_from_filter (base (b_log b)) es) by done.
  rewrite !drop_ge by lia. cbn [app]. rewrite !filter_cons, !filter_nil.
  rewrite decide_True, decide_False by lia. split_and!; try done; lia.
Qed.

(** Members' items of a single entry: its inverse, in reading order. *)
Definition newest_items (e : LogEntry) : list UndoItem :=
  List.rev (imap (fun i rp => mkUndoItem (fst rp) (fst (snd rp)) (snd (snd rp)) (le_rev e))
    (zip (post_ranges (le_edits e)) (imap (fun i ed => (default [] (le_deleted e !! i), e_insert ed)) (le_edits e)))).

Lemma compose_one e :
  map (fun c => mkUndoItem (cp_range c) (cp_payload c).1 (cp_payload c).2 (cp_member c))
    <$> (match compose_members [member_of e] with Ok l => Some l | Err _ => None end) = Some (newest_items e).
Proof.
  unfold compose_members, member_of, newest_items. cbn [foldM_res compose_member mapM_res result_bind merge_items].
  cbn [fmap option_fmap option_map]. f_equal. rewrite !map_rev. f_equal. unfold post_ranges.
  rewrite map_map. apply list_eq. intros i. change (map ?f ?l) with (f <$> l).
  rewrite list_lookup_fmap, !list_lookup_imap. by destruct (zip _ _ !! i).
Qed.

Lemma newest_items_lookup e i it :
  newest_items e !! i = Some it -> length (le_deleted e) = length (le_edits e) ->
  exists j r ed d, post_ranges (le_edits e) !! j = Some r /\ le_edits e !! j = Some ed /\ le_deleted e !! j = Some d /\
    it = mkUndoItem r d (e_insert ed) (le_rev e).
Proof.
  intros H Hl. apply list_elem_of_lookup_2 in H. unfold newest_items in H. rewrite <- (Permutation_rev (imap _ _)) in H.
  apply list_elem_of_lookup in H as [j H]. rewrite list_lookup_imap in H.
  destruct (zip _ _ !! j) as [[r [d x]]|] eqn:E; [|done]. apply lookup_zip_Some in E as [Er Ep].
  rewrite list_lookup_imap in Ep. destruct (le_edits e !! j) as [ed|] eqn:Ee; [|done]. cbn in Ep. injection Ep as <- <-.
  pose proof (lookup_lt_Some _ _ _ Ee) as Hj. rewrite <- Hl in Hj. apply lookup_lt_is_Some in Hj as [d Hd].
  rewrite Hd in H. cbn in H. injection H as <-. by exists j, r, ed, d.
Qed.

Lemma length_post_ranges es : length (post_ranges es) = length es.
Proof. unfold post_ranges. induction es as [|e es IH]; cbn; [done|by rewrite IH]. Qed.

Lemma newest_pairs e t :
  le_deleted e = deleted_of t (le_edits e) ->
  undo_pairs (newest_items e) = inverse_items (le_edits e) (deleted_of t (le_edits e)).
Proof.
  intros E. assert (length (le_deleted e) = length (le_edits e)) as Hl by (rewrite E; apply length_map).
  rewrite <- E. unfold undo_pairs, newest_items, inverse_items. rewrite map_rev. f_equal.
  apply list_eq. intros i. change (map ?f ?l) with (f <$> l).
  rewrite list_lookup_fmap, list_lookup_imap, !lookup_zip_with, list_lookup_imap.
  destruct (post_ranges (le_edits e) !! i) as [r|] eqn:Er; cbn; [|done].
  apply lookup_lt_Some in Er as Hi. rewrite length_post_ranges in Hi.
  destruct (lookup_lt_is_Some_2 (le_edits e) i Hi) as [ed ->]. rewrite <- Hl in Hi.
  by destruct (lookup_lt_is_Some_2 (le_deleted e) i Hi) as [d ->].
Qed.

(** Reading order passes the union check. *)
Lemma union_ok_reading its pos hi m :
  reading pos (undo_pairs its) hi -> m <= pos -> union_ok m its = true.
Proof.
  revert pos m; induction its as [|it its IH]; intros pos m; cbn [undo_pairs map reading union_ok]; [done|].
  destruct (u_range it) as [s e] eqn:Er. intros (H1 & H2 & H) Hm. cbn [fst snd].
  destruct (Nat.ltb_spec s m); [lia|]. apply (IH e); [done|]. unfold range_is_empty. cbn. case_match; lia.
Qed.

(** The composed inverse of the newest entry is its inverse: nothing conflicts
    with it. *)
Lemma compose_newest b es e t lane :
  buf_wf b -> rev_room b -> entries (b_log b) = es ++ [e] -> utf8 t -> entry_of t e ->
  content b = apply_seq t (le_edits e) ->
  compose_inverse b (mkGroup (b_rev b) (b_rev b)) lane = Ok (newest_items e).
Proof.
  intros Hwf Hroom He Hu Heo Ec. destruct (after_newest b es e Hwf Hroom He) as (Hrev & Hold & A1 & A2).
  unfold compose_inverse. cbn [g_start g_end]. destruct (Z.leb_spec (b_rev b) (oldest_rev (b_log b))); [lia|].
  rewrite A1. cbn [take_members map]. rewrite Hrev, Z.leb_refl. cbn [map].
  pose proof (compose_one e) as C. destruct (compose_members [member_of e]) as [l|]; [|done].
  cbn in C. injection C as C. cbn [map_err result_bind]. unfold reduced_after. rewrite A2. cbn [foldl foldM_res result_bind].
  rewrite C. destruct (inverse_restores t (le_edits e) (eo_canonical _ _ Heo)) as (R & W & F).
  rewrite (union_ok_reading _ 0 (length (apply_seq t (le_edits e))) 0) by (rewrite ?(newest_pairs e t) by apply Heo; done). cbn [negb].
  assert (forallb (fun it => bool_decide (read (b_text b) (fst (u_range it)) (snd (u_range it)) [] = u_expect it)) (newest_items e) = true) as ->.
  2: done.
  apply forallb_forall. intros it Hit. apply list_elem_of_In, list_elem_of_lookup in Hit as [i Hit].
  apply newest_items_lookup in Hit as (j & r & ed & d & Hr & Hed & Hd & ->); [|rewrite (eo_deleted _ _ Heo); apply length_map].
  apply bool_decide_eq_true_2. cbn [u_range u_expect].
  pose proof (post_ranges_boundaries t (le_edits e) Hu (eo_canonical _ _ Heo) (eo_boundaries _ _ Heo) (eo_utf8 _ _ Heo)) as Hpb.
  rewrite Forall_lookup in Hpb. destruct (Hpb j r Hr) as (B1 & B2 & B3). rewrite <- Ec in *.
  rewrite read_exact by (done || apply Hwf). fold (content b).
  destruct (Forall2_lookup_lr _ _ _ _ _ _ F Hr Hed) as [_ Fs]. exact Fs.
Qed.

(** A transaction whose items are in reading order on boundaries is refused
    for want of room only. *)
Lemma commit_txn_err vr b its c b' err :
  buf_wf b -> Forall (pair_ok (content b)) its -> pairwise_apart (map fst its) -> c_cursor c = None ->
  commit_txn vr b (number its) c = Some (b', Err err) -> code err = ResourceLimit.
Proof.
  intros Hwf F Hap Hcur H. pose proof (items_utf8 _ (item_ok_fit _ _ (number_ok _ _ F))) as Hi.
  fold (txn_seq (number its)) in Hi.
  destruct (txn_order_rewrite (content b) its) as [Hc _].
  { eapply Forall_impl; [exact F|]. by intros it [(? & _ & ?%is_boundary_le) _]. }
  { done. }
  rewrite <- txn_seq_number in Hc.
  assert (base_boundaries (content b) (txn_seq (number its))) as Hb.
  { unfold base_boundaries, txn_seq. rewrite Forall_map, canonical_perm. eapply Forall_impl; [by apply number_ok|].
    intros r (H1 & H2 & H3 & _). cbn. split; [done|]. by replace (r_s r + (r_e r - r_s r)) with (r_e r) by lia. }
  pose proof (bw_text b Hwf) as Hwt. unfold commit_txn in H. fold (txn_seq (number its)) in H.
  unfold txn_cursor in H. rewrite Hcur in H. destruct (simulate _ _) as [sim|e] eqn:Es; cbn [result_bind] in H.
  2: { injection H as _ <-. by eapply simulate_err. }
  pose proof (prepare_err vr (b_text b) (txn_seq (number its))) as Pe.
  destruct (prepare _ _ _) as [t1 [prepared|e]]; [|injection H as _ <-; by apply Pe].
  repeat (destruct (negb _); [by injection H as _ <-|]).
  destruct (commit _ _); [|done]. cbn in H. by destruct (record_txn _ _ _ _ _ _).
Qed.

(** Undoing (or redoing) a group that is the newest entry restores the text
    the entry was applied to; it can be refused for want of room only. *)
Lemma undo_newest vr b sel caller via now_ms redo op_id es e lane :
  buf_wf b -> rev_room b -> entries (b_log b) = es ++ [e] ->
  pick_lane b sel caller redo = Ok lane -> top_group b redo lane = Some (mkGroup (b_rev b) (b_rev b)) ->
  exists t b' r, utf8 t /\ entry_of t e /\ content b = apply_seq t (le_edits e) /\
    undo_redo vr b sel caller via now_ms redo op_id = Some (b', r) /\ buf_wf b' /\
    match r with
    | Ok a => content b' = t /\
        committed b (number (undo_pairs (newest_items e)))
          (undo_commit caller lane redo (mkGroup (b_rev b) (b_rev b)) via now_ms op_id) b' a
    | Err err => code err = ResourceLimit /\ unchanged b b'
    end.
Proof.
  intros Hwf Hroom He Hpick Htop. destruct (bw_history b Hwf) as (t0 & Hu0 & Hrep). rewrite He in Hrep.
  apply replays_app in Hrep as (t & R1 & [Heo Ec]). pose proof (replays_utf8 _ _ _ Hu0 R1) as Hu.
  pose proof (compose_newest b es e t lane Hwf Hroom He Hu Heo (eq_sym Ec)) as Hcomp.
  destruct (inverse_restores t (le_edits e) (eo_canonical _ _ Heo)) as (R & W & F). rewrite Ec in R, W.
  set (its := undo_pairs (newest_items e)). assert (its = inverse_items (le_edits e) (deleted_of t (le_edits e))) as Eits
    by (apply newest_pairs, Heo). rewrite <- Eits in R, W.
  assert (Forall (pair_ok (content b)) its) as Hok.
  { unfold its, undo_pairs. apply Forall_map, Forall_lookup. intros i it Hit.
    apply newest_items_lookup in Hit as (j & r & ed & d & Hr & _ & Hd & ->); [|rewrite (eo_deleted _ _ Heo); apply length_map].
    pose proof (post_ranges_boundaries t (le_edits e) Hu (eo_canonical _ _ Heo) (eo_boundaries _ _ Heo) (eo_utf8 _ _ Heo)) as Hpb.
    pose proof (entry_of_deleted t e Hu Heo) as Hdl. rewrite Forall_lookup in Hpb. rewrite Forall_lookup in Hdl. rewrite Ec in Hpb.
    split; cbn; [by apply (Hpb j)|by apply (Hdl j)]. }
  pose proof (reading_apart _ _ _ R) as Hap.
  destruct (undo_redo_inv vr b sel caller via now_ms redo op_id Hwf) as (b' & r & Eu & Wf & Hr).
  exists t, b', r. split_and!; try done. destruct r as [a|err].
  - destruct Hr as (lane' & g & items & P1 & P2 & P3 & Hcm). rewrite Hpick in P1. injection P1 as <-.
    rewrite Htop in P2. injection P2 as <-. rewrite Hcomp in P3. injection P3 as <-. fold its in Hcm. split; [|done].
    destruct Hcm as (_ & -> & _). rewrite txn_seq_number.
    destruct (txn_order_rewrite (content b) its) as [_ ->]; [|done|].
    { eapply Forall_impl; [exact Hok|]. by intros it [(? & _ & ?%is_boundary_le) _]. }
    rewrite (txn_reading_id 0 its (length (content b))) by done. done.
  - split; [|done]. unfold undo_redo, undo_plan in Eu. rewrite Hpick in Eu. cbn [result_bind] in Eu.
    rewrite Htop in Eu. cbn [default from_option id] in Eu. rewrite Hcomp in Eu. cbn [result_bind] in Eu.
    rewrite undo_plan_number in Eu. by eapply commit_txn_err in Eu.
Qed.
End undo.
