(* ===== verification/BufferOps.v ===== *)
(** * The buffer as a state machine

    Every operation of the façade as a step, the reachable buffers, and the
    claims about them: the invariant, refusals that change nothing, the meaning
    of requests, undo and redo, reload, and loading and saving. *)

From S2P Require Import Prelude Utf8 EditBase Ot Anchor GapBuffer Text History Buffer Cursor.
From S2P Require Import BufferSpec BufferTxn BufferUndo.

(** ** The kept ends of a reload *)

Lemma common_prefix_spec a b :
  common_prefix a b <= length a /\ common_prefix a b <= length b /\
  take (common_prefix a b) a = take (common_prefix a b) b.
Proof.
  revert b; induction a as [|x a IH]; intros [|y b]; cbn; [repeat split; lia..|].
  destruct (Byte.eqb x y) eqn:E; [|cbn; repeat split; lia]. apply Byte.byte_dec_bl in E as ->.
  destruct (IH b) as (H1 & H2 & H3). cbn. rewrite H3. repeat split; lia.
Qed.

Lemma floor_prefix_spec cur new pre :
  floor_prefix cur new pre <= pre /\
  is_boundary cur (floor_prefix cur new pre) = true /\ is_boundary new (floor_prefix cur new pre) = true.
Proof.
  induction pre as [|pre IH]; cbn [floor_prefix].
  - assert ((if is_boundary cur 0 && is_boundary new 0 then 0 else 0) = 0) as -> by by destruct (_ && _).
    split_and!; [lia|apply is_boundary_0..].
  - destruct (is_boundary cur (S pre) && is_boundary new (S pre)) eqn:E.
    + apply andb_prop in E as [E1 E2]. by rewrite E1, E2.
    + destruct IH as (? & ? & ?). split_and!; [lia|done|done].
Qed.

Lemma floor_suffix_spec cur new suf :
  floor_suffix cur new suf <= suf /\
  is_boundary cur (length cur - floor_suffix cur new suf) = true /\
  is_boundary new (length new - floor_suffix cur new suf) = true.
Proof.
  induction suf as [|suf IH]; cbn [floor_suffix].
  - assert ((if is_boundary cur (length cur - 0) && is_boundary new (length new - 0) then 0 else 0) = 0) as -> by by destruct (_ && _).
    rewrite !Nat.sub_0_r. split_and!; [lia|apply is_boundary_len..].
  - destruct (is_boundary cur (length cur - S suf) && is_boundary new (length new - S suf)) eqn:E.
    + apply andb_prop in E as [E1 E2]. by rewrite E1, E2.
    + destruct IH as (? & ? & ?). split_and!; [lia|done|done].
Qed.

Lemma take_eq_le {A} (a b : list A) n k : k <= n -> take n a = take n b -> take k a = take k b.
Proof. intros Hk E. rewrite <- (Nat.min_l k n Hk), <- !take_take. by rewrite E. Qed.

(** Equal prefixes of the reversed texts are equal suffixes of the texts. *)
Lemma rev_suffix {A} (a b : list A) n :
  n <= length a -> n <= length b -> take n (rev a) = take n (rev b) ->
  drop (length a - n) a = drop (length b - n) b.
Proof.
  intros Ha Hb E. rewrite !firstn_rev in E. by apply rev_inj in E.
Qed.

(** What a reload replaces: between a common prefix and a common suffix, on
    boundaries of both texts. *)
Lemma reload_item_spec cur new :
  utf8 cur -> utf8 new ->
  match reload_item cur new with
  | None => cur = new
  | Some r => item_ok cur r /\ apply_edit cur (resolved_edit r) = new
  end.
Proof.
  intros Hc Hn. unfold reload_item. destruct (common_prefix_spec cur new) as (C1 & C2 & C3).
  destruct (floor_prefix_spec cur new (common_prefix cur new)) as (F1 & F2 & F3).
  set (pre := floor_prefix cur new (common_prefix cur new)) in *.
  pose proof (take_eq_le _ _ _ _ F1 C3) as Epre.
  destruct ((pre =? length cur) && (pre =? length new)) eqn:E.
  { apply andb_prop in E as [E1%Nat.eqb_eq E2%Nat.eqb_eq]. rewrite E1 in Epre at 1. rewrite E2 in Epre.
    by rewrite !take_ge in Epre by lia. }
  set (room := min (length cur) (length new) - pre).
  destruct (common_prefix_spec (take room (rev cur)) (take room (rev new))) as (D1 & D2 & D3).
  set (suf0 := common_prefix (take room (rev cur)) (take room (rev new))) in *. rewrite length_take, length_rev in D1, D2.
  destruct (floor_suffix_spec cur new suf0) as (S1 & S2 & S3). set (suf := floor_suffix cur new suf0) in *.
  assert (drop (length cur - suf) cur = drop (length new - suf) new) as Esuf.
  { apply rev_suffix; [lia..|]. apply (take_eq_le _ _ suf0); [done|]. rewrite !take_take in D3.
    by rewrite (Nat.min_l suf0 room) in D3 by lia. }
  unfold item_ok, apply_edit; cbn [resolved_edit r_s r_e r_text e_offset e_delete e_insert]. split.
  - split_and!; [lia|done|done|]. apply utf8_slice; [done|lia|done|done].
  - replace (pre + (length cur - suf - pre)) with (length cur - suf) by lia.
    unfold splice. rewrite Epre, Esuf. apply (splice_same new pre (length new - suf)); lia.
Qed.

Lemma reload_item_same cur : reload_item cur cur = None.
Proof.
  unfold reload_item. assert (common_prefix cur cur = length cur) as ->.
  { induction cur as [|x l IH]; cbn; [done|]. assert (Byte.eqb x x = true) as -> by by destruct x. by rewrite IH. }
  assert (floor_prefix cur cur (length cur) = length cur) as ->; [|by rewrite Nat.eqb_refl].
  pose proof (is_boundary_len cur) as B. destruct (length cur); cbn [floor_prefix]; by rewrite ?B.
Qed.

Section ops.
Context {G : Type} {TS : TextStore G} {SL : TextStoreLaws G} (vr : nat -> nat -> bool).
Implicit Types b : Buffer G.

Lemma txn_seq_one r : txn_seq [r] = [resolved_edit r].
Proof. done. Qed.

Lemma reload_inv b new via now_ms :
  buf_wf b -> utf8 new ->
  exists b' r, reload_minimal vr b new via now_ms = Some (b', r) /\ buf_wf b' /\
    match r with
    | Ok None => content b = new /\ unchanged b b'
    | Ok (Some a) => content b' = new /\ length (ap_edits a) = 1 /\ content b <> new /\ b_rev b' = (b_rev b + 1)%Z
    | Err _ => unchanged b b'
    end.
Proof.
  intros Hwf Hn. unfold reload_minimal. destruct (contiguous_exact (b_text b) (bw_text b Hwf)) as (W & E1 & E2).
  assert (starts (Text.contiguous (b_text b)).1 = starts (b_text b)) as Es.
  { unfold Text.contiguous. by destruct (gs_allocate_gap _ _ _ _). }
  destruct (Text.contiguous (b_text b)) as [t cur]. cbn [fst snd] in *. fold (content b) in E1, E2. subst cur.
  pose proof (wf_set_text b t Hwf W E1) as Hwf1. pose proof (unchanged_text b t E1 Es) as Un.
  pose proof (reload_item_spec (content b) new (twf_utf8 _ (bw_text b Hwf)) Hn) as K.
  assert (content (set_text b t) = content b) as Ec by done.
  destruct (reload_item (content b) new) as [item|] eqn:Ei.
  2: { exists (set_text b t), (Ok None). by split_and!. }
  destruct K as [Hok Ha].
  destruct (commit_txn_inv vr (set_text b t) [item] (mkCommit disk disk KReload via now_ms None false None false) Hwf1) as (b' & r & Ecm & W' & Hr).
  { constructor; [|constructor]. by destruct Hok as (? & _ & _ & ?). }
  rewrite Ecm. cbn [mbind option_bind]. exists b', (let? a := r in Ok (Some a)). split_and!; [done|done|].
  destruct r as [a|e]; cbn; [|by eapply unchanged_trans].
  destruct Hr as (_ & Et & Er & _ & _ & _ & Ee & _). rewrite Ee, txn_seq_one. rewrite txn_seq_one, Ec in Et.
  change (apply_seq (content b) [resolved_edit item]) with (apply_edit (content b) (resolved_edit item)) in Et.
  split_and!; [by rewrite Et|done| |done].
  intros Heq. by rewrite <- Heq, reload_item_same in Ei.
Qed.

(** ** Selections and anchors *)

Lemma set_selections_inv b o sels :
  buf_wf b ->
  let '(b', r) := set_selections b o sels in
  buf_wf b' /\ content b' = content b /\
  match r with
  | Ok _ => selections b' = (if length sels =? 0 then delete o (selections b) else <[o := sels]> (selections b))
  | Err _ => unchanged b b'
  end.
Proof.
  intros Hwf. unfold set_selections. destruct (exceeds _ _) eqn:El; [split_and!; [done..|apply unchanged_refl]|].
  rewrite exceeds_false in El.
  destruct (mapM_res _ sels) as [os|e] eqn:Em; [|split_and!; [done..|apply unchanged_refl]].
  assert (Forall (sel_in (content b)) sels) as Hs.
  { apply mapM_res_Ok in Em. clear -Em Hwf. induction Em as [|s o sels os Hso Hr IH]; constructor; [|done].
    run_inv Hso. apply check_offset_Ok in Hx as [_ B1]; [|apply Hwf]. apply check_offset_Ok in Hso as [_ B2]; [|apply Hwf]. done. }
  destruct (length sels =? 0) eqn:E0.
  - split_and!; [|done|done]. destruct Hwf as [H1 H2 H3 H4 H5 H6 H7 H8 H9].
    split; try done; cbn; [by apply map_Forall_delete|].
    rewrite map_size_delete. destruct (selections b !! o); unfold id; lia.
  - destruct (selection_room b o) eqn:Er; cbn [negb]; [|split_and!; [done..|apply unchanged_refl]].
    split_and!; [|done|done]. pose proof Hwf as [H1 H2 H3 H4 H5 H6 H7 H8 H9].
    split; try done; cbn; [by apply map_Forall_insert_2|].
    by apply (insert_selection_size _ _ _ b).
Qed.

Lemma replace_anchor_Forall (P : NamedAnchor -> Prop) name a l l' :
  P a -> Forall P l -> replace_anchor name a l = Some l' -> Forall P l' /\ length l' = length l.
Proof.
  intros Ha Hl. revert l'; induction Hl as [|x l Hx Hl IH]; intros l'; cbn; [done|].
  destruct (decide (a_name x = name)); [intros [= <-]; split; [by constructor|done]|].
  destruct (replace_anchor name a l) as [l1|]; cbn; [|done]. intros [= <-].
  destruct (IH l1 eq_refl) as [I1 I2]. split; [by constructor|cbn; lia].
Qed.

Lemma build_anchor_in b name spec a :
  buf_wf b -> build_anchor b name spec = Ok a -> anchor_in (content b) a.
Proof.
  intros Hwf. unfold build_anchor. destruct (sp_at spec) as [p|], (sp_range spec) as [r|]; try done; intros H; run_inv H; subst a.
  - apply resolve_pos_boundary in Hx; [|apply Hwf..]. by split.
  - apply resolve_range_ok in Hx as (? & ? & ?); [|apply Hwf..]. by split.
Qed.

Lemma anchor_set_inv b name spec :
  buf_wf b ->
  let '(b', r) := anchor_set b name spec in
  buf_wf b' /\ content b' = content b /\ match r with Ok _ => True | Err _ => unchanged b b' end.
Proof.
  intros Hwf. unfold anchor_set. destruct (negb _); [split_and!; [done..|apply unchanged_refl]|].
  destruct (build_anchor b name spec) as [a|e] eqn:Eb; [|split_and!; [done..|apply unchanged_refl]].
  apply (build_anchor_in b name spec a Hwf) in Eb as Ha. pose proof Hwf as [H1 H2 H3 H4 H5 H6 H7 H8 H9].
  destruct (replace_anchor name a (anchors b)) as [l|] eqn:Er.
  - apply (replace_anchor_Forall (anchor_in (content b))) in Er as [F L]; [|done..].
    split_and!; try done. split; try done; cbn. by rewrite L.
  - destruct (Z.leb_spec MAX_ANCHORS (Z.of_nat (length (anchors b)))); [split_and!; [done..|apply unchanged_refl]|].
    split_and!; try done. split; try done; cbn.
    + apply Forall_app. split; [done|by constructor].
    + rewrite length_app. cbn. lia.
Qed.

Lemma anchor_clear_inv b name : buf_wf b -> buf_wf (anchor_clear b name).1 /\ content (anchor_clear b name).1 = content b.
Proof.
  intros [H1 H2 H3 H4 H5 H6 H7 H8 H9]. split; [|done]. split; try done; cbn.
  - apply Forall_forall. intros a Ha. apply list_elem_of_filter in Ha as [_ Ha]. rewrite Forall_forall in H6. auto.
  - pose proof (length_filter (fun a => a_name a <> name) (anchors b)). lia.
Qed.

(** ** The newest entry after a transaction *)

Lemma committed_newest b items c b' a :
  buf_wf b -> committed b items c b' a -> (oldest_rev (b_log b') < b_rev b')%Z ->
  exists es, entries (b_log b') = es ++ [txn_entry b c (txn_seq items) (deleted_of (content b) (txn_seq items))].
Proof.
  intros Hwf (W & _ & Er & El & _) Hold. set (e := txn_entry _ _ _ _).
  pose proof (record_log (b_log b) (c_lane c) (c_kind c) (coalesced b c (txn_seq items)) e (bw_log b Hwf) (bw_lanes b Hwf)) as K.
  rewrite (bw_rev b Hwf) in K. specialize (K eq_refl eq_refl (fun top E L => coalesced_top b c _ top E L)).
  rewrite El in Hold |- *. unfold txn_log in *. cbn [le_rev e txn_entry] in K.
  destruct (push _ _) as [l' r]. destruct K as (_ & Lr & _ & old & Eo). cbn [fst] in *.
  unfold last_rev, oldest_rev in *. rewrite Er in Hold.
  destruct (entries l') as [|x es'] eqn:Ee using rev_ind; [cbn in Lr; lia|].
  rewrite app_assoc in Eo. apply app_inj_tail in Eo as [_ <-]. by exists es'.
Qed.

Lemma lane_after_top lane k rev :
  list.last (if match k with KUndo _ => true | _ => false end
             then redo_stack (lane_after lane k false rev) else undo_stack (lane_after lane k false rev)) = Some (mkGroup rev rev).
Proof.
  unfold lane_after. destruct k; cbn; try (by rewrite last_snoc);
    destruct (list.last (undo_stack lane)); cbn; by rewrite last_snoc.
Qed.

(** Unless it was coalesced, the new entry is its lane's newest group. *)
Lemma committed_top b items c b' a :
  buf_wf b -> committed b items c b' a -> (oldest_rev (b_log b') < b_rev b')%Z ->
  coalesced b c (txn_seq items) = false ->
  top_group b' (match c_kind c with KUndo _ => true | _ => false end) (c_lane c) = Some (mkGroup (b_rev b') (b_rev b')).
Proof.
  intros Hwf (W & _ & Er & El & _) Hold Hco. rewrite Er in *. rewrite El in Hold. unfold top_group. rewrite El. unfold txn_log in *.
  rewrite Hco in *. set (lane := lane_after _ _ _ _) in *. set (l1 := set_lane _ _ _) in *.
  destruct (push_top l1 (txn_entry b c (txn_seq items) (deleted_of (content b) (txn_seq items))) (c_lane c) lane) as (lane' & Hl).
  { cbn. apply lookup_insert_eq. }
  destruct (Hl (mkGroup (b_rev b + 1) (b_rev b + 1)) Hold) as [Hu Hr].
  pose proof (lane_after_top (get_lane (b_log b) (c_lane c)) (c_kind c) (b_rev b + 1)) as T. fold lane in T.
  destruct (c_kind c); [destruct (Hu T) as [-> K]|destruct (Hr T) as [-> K]|destruct (Hu T) as [-> K]|destruct (Hu T) as [-> K]]; exact K.
Qed.

(** The text an entry was applied to is determined by the text it made. *)
Lemma entry_base_unique t t' e :
  entry_of t e -> entry_of t' e -> apply_seq t (le_edits e) = apply_seq t' (le_edits e) -> t = t'.
Proof.
  intros H H' E. destruct (inverse_restores t (le_edits e) (eo_canonical _ _ H)) as (_ & W & _).
  destruct (inverse_restores t' (le_edits e) (eo_canonical _ _ H')) as (_ & W' & _).
  rewrite <- (eo_deleted _ _ H) in W. rewrite <- (eo_deleted _ _ H') in W'. congruence.
Qed.

Lemma committed_entry b items c b' a :
  committed b items c b' a -> entry_of (content b) (txn_entry b c (txn_seq items) (deleted_of (content b) (txn_seq items))).
Proof. intros (_ & _ & _ & _ & _ & _ & _ & _ & _ & Hc & Hb & Hi). by split. Qed.

(** Undoing (or redoing) right after a transaction takes the text back. *)
Lemma undo_after b items c b1 a via now_ms op_id :
  buf_wf b -> committed b items c b1 a -> rev_room b1 -> (oldest_rev (b_log b1) < b_rev b1)%Z ->
  coalesced b c (txn_seq items) = false ->
  let redo := match c_kind c with KUndo _ => true | _ => false end in
  exists b2 r, undo_redo vr b1 Own (c_lane c) via now_ms redo op_id = Some (b2, r) /\ buf_wf b2 /\
    match r with
    | Ok a2 => content b2 = content b /\ exists its,
        committed b1 its (undo_commit (c_lane c) (c_lane c) redo (mkGroup (b_rev b1) (b_rev b1)) via now_ms op_id) b2 a2
    | Err e => code e = ResourceLimit /\ unchanged b1 b2
    end.
Proof.
  intros Hwf Hcm Hroom Hold Hco redo. destruct (committed_newest b items c b1 a Hwf Hcm Hold) as [es He].
  pose proof (committed_top b items c b1 a Hwf Hcm Hold Hco) as Htop. fold redo in Htop.
  assert (buf_wf b1) as Hwf1 by apply Hcm.
  assert (pick_lane b1 Own (c_lane c) redo = Ok (c_lane c)) as Hp by (unfold pick_lane; by rewrite Htop).
  destruct (undo_newest vr b1 Own (c_lane c) via now_ms redo op_id es _ (c_lane c) Hwf1 Hroom He Hp Htop)
    as (t & b2 & r & Ut & Heo & Ec & Eu & W & Hr).
  exists b2, r. split_and!; try done. destruct r as [a2|e]; [|done]. destruct Hr as [-> Hcm2]. split; [|eauto].
  eapply (entry_base_unique t); [exact Heo|by eapply committed_entry|]. rewrite <- Ec. by destruct Hcm as (_ & -> & _).
Qed.
End ops.
