(* ===== verification/BufferClaims.v ===== *)
(** * The claims about the edit core's buffer *)

From S2P Require Import Prelude Utf8 EditBase Ot Anchor GapBuffer Memory Text History Buffer Cursor.
From S2P Require Import BufferSpec BufferTxn BufferUndo BufferOps.

Section claims.
Context {G : Type} {TS : TextStore G} {SL : TextStoreLaws G}.
Implicit Types b : Buffer G.

(** ** The operations as steps *)

Inductive buf_op :=
| DoApply (req : TxnRequest) (origin : Origin) (via : Via) (now_ms : Z)
| DoUndoRedo (sel : LaneSel) (caller : Origin) (via : Via) (now_ms : Z) (redo : bool) (op_id : option bytes)
| DoReload (new_text : bytes) (via : Via) (now_ms : Z)
| DoSelect (origin : Origin) (sels : list Selection)
| DoAnchor (name : bytes) (spec : AnchorSpec)
| DoClear (name : bytes)
| DoSave.

(** The texts of a request are strings. *)
Definition op_ok (op : buf_op) : Prop :=
  match op with
  | DoApply req _ _ _ => Forall op_utf8 (rq_ops req)
  | DoReload new _ _ => utf8 new
  | _ => True
  end.

(** An operation and whether it was accepted; [None] where it panics. *)
Definition run_op (vr : nat -> nat -> bool) b (op : buf_op) : option (Buffer G * bool) :=
  match op with
  | DoApply req o via now => '(b', r) ← apply vr b req o via now; Some (b', is_ok r)
  | DoUndoRedo sel o via now redo id => '(b', r) ← undo_redo vr b sel o via now redo id; Some (b', is_ok r)
  | DoReload new via now => '(b', r) ← reload_minimal vr b new via now; Some (b', is_ok r)
  | DoSelect o sels => let '(b', r) := set_selections b o sels in Some (b', is_ok r)
  | DoAnchor name spec => let '(b', r) := anchor_set b name spec in Some (b', is_ok r)
  | DoClear name => Some ((anchor_clear b name).1, true)
  | DoSave => Some (mark_saved b, true)
  end.

Lemma run_op_inv vr b op :
  buf_wf b -> rev_room b -> op_ok op ->
  exists b' ok, run_op vr b op = Some (b', ok) /\ buf_wf b' /\ (ok = false -> unchanged b b').
Proof.
  intros Hwf Hroom Hop. destruct op as [req o via now|sel o via now redo id|new via now|o sels|name spec|name|]; cbn [run_op].
  - destruct (apply_inv vr b req o via now Hwf Hroom Hop) as (b' & r & -> & W & Hr). cbn. exists b', (is_ok r).
    split_and!; [done..|]. by destruct r.
  - destruct (undo_redo_inv vr b sel o via now redo id Hwf) as (b' & r & -> & W & Hr). cbn. exists b', (is_ok r).
    split_and!; [done..|]. by destruct r.
  - destruct (reload_inv vr b new via now Hwf Hop) as (b' & r & -> & W & Hr). cbn. exists b', (is_ok r).
    split_and!; [done..|]. by destruct r.
  - pose proof (set_selections_inv b o sels Hwf) as K. destruct (set_selections b o sels) as [b' r].
    destruct K as (W & _ & Hr). exists b', (is_ok r). split_and!; [done..|]. by destruct r.
  - pose proof (anchor_set_inv b name spec Hwf) as K. destruct (anchor_set b name spec) as [b' r].
    destruct K as (W & _ & Hr). exists b', (is_ok r). split_and!; [done..|]. by destruct r.
  - exists (anchor_clear b name).1, true. split_and!; [done|by apply anchor_clear_inv|done].
  - exists (mark_saved b), true. split_and!; [done| |done]. by destruct Hwf; split.
Qed.

Lemma with_text_wf t : text_wf t -> buf_wf (with_text t).
Proof.
  intros Ht. split; try done; cbn. exists (text t). split; [apply Ht|done].
Qed.

Lemma strip_bom_spec s : (if (strip_bom s).1 then BOM else []) ++ (strip_bom s).2 = s.
Proof.
  unfold strip_bom. destruct (decide (take 3 s = BOM)) as [E|]; cbn [fst snd]; [|done].
  rewrite <- E. apply take_drop.
Qed.

Lemma from_bytes_inv vr s b meta :
  from_bytes vr s = Ok (b, meta) ->
  exists t, b = with_text t /\ text_wf t /\ text t = (strip_bom s).2 /\ bom meta = (strip_bom s).1.
Proof.
  unfold from_bytes. destruct (strip_bom s) as [bm body]. intros H.
  destruct (from_utf8_ok body) eqn:Eu; cbn [negb] in H; [|done]. apply from_utf8_ok_iff in Eu.
  apply result_bind_Ok in H as (t & Ht & H). injection H as <- <-.
  apply from_text_inv in Ht as [W E]; [|done]. by exists t.
Qed.

(** The buffers the façade can reach; the allocator may answer differently at
    every step. *)
Inductive reachable : Buffer G -> Prop :=
| reach_new b : Buffer_new = Ok b -> reachable b
| reach_load vr s b meta : from_bytes vr s = Ok (b, meta) -> reachable b
| reach_step vr b op b' ok :
    reachable b -> rev_room b -> op_ok op -> run_op vr b op = Some (b', ok) -> reachable b'.

(** C5 The buffer's invariant: from an empty or loaded buffer, every sequence
    of transactions, undos, redos, reloads, selection and anchor changes and
    saves, accepted or refused, whatever the allocator answers, leaves a buffer
    whose text is UTF-8 within the limits with an exact line index, whose log is
    contiguous, within retention and replays to the current text, whose undo and
    redo groups hold revisions of their own lane, and whose anchors and
    selections lie on character boundaries within their counts. *)
Theorem reachable_wf b : reachable b -> buf_wf b.
Proof.
  induction 1 as [b Hn|vr s b meta Hl|vr b op b' ok Hr IH Hroom Hop Hs].
  - unfold Buffer_new, Text_new in Hn. destruct gs_new as [g|] eqn:E; [|done]. injection Hn as <-.
    apply gs_new_spec in E as [W Eb]. apply with_text_wf. split; unfold text; cbn; rewrite ?Eb; try done. constructor.
  - apply from_bytes_inv in Hl as (t & -> & W & _). by apply with_text_wf.
  - destruct (run_op_inv vr b op IH Hroom Hop) as (b1 & ok1 & E & W & _). rewrite Hs in E. by injection E as <- <-.
Qed.

(** C19 Every operation answers, and a refusal changes nothing: on a well-formed
    buffer no operation panics (the memory assertion of the commit phase never
    fires), and one that is refused, for whatever reason at whatever point,
    leaves the text, the line index, the log, the undo and redo stacks, the
    revision, the saved revision, the anchors and the selections as they were. *)
Theorem operations_are_atomic vr b op :
  buf_wf b -> rev_room b -> op_ok op ->
  exists b' ok, run_op vr b op = Some (b', ok) /\ (ok = false -> unchanged b b').
Proof.
  intros Hwf Hroom Hop. destruct (run_op_inv vr b op Hwf Hroom Hop) as (b' & ok & E & _ & H). eauto.
Qed.

(** C12 An applied request is one simultaneous rewrite: when a request on the
    current text ([Latest], a matching [ExpectRev] or a [BaseRev] of the current
    revision) is accepted, its ops resolved against the text before it, none
    overlapped another, and the new text is that text with every range replaced
    at once, read left to right with inserts at one offset in request order and
    before a range starting there; the revision moves by one. *)
Theorem apply_rewrites vr b req origin via now_ms b' a :
  buf_wf b -> rev_room b -> Forall op_utf8 (rq_ops req) -> rebase_from b (rq_cas req) = Ok None ->
  apply vr b req origin via now_ms = Some (b', Ok a) ->
  exists its, mapM_res (resolve_op b) (rq_ops req) = Ok its /\ pairwise_apart (map fst its) /\
    content b' = rewrite_from (content b) 0 (txn_reading its) /\
    b_rev b' = (b_rev b + 1)%Z /\ content b' = apply_seq (content b) (ap_edits a).
Proof.
  intros Hwf Hroom Hu Hf Ha. destruct (apply_inv vr b req origin via now_ms Hwf Hroom Hu) as (b1 & r & E & W & Hr).
  rewrite Ha in E. injection E as <- <-. destruct Hr as (from & t & its & its' & Hf' & Hres & _ & Hap & Hcm & Ec).
  rewrite Hf in Hf'. injection Hf' as <-. destruct Hres as (_ & -> & Hm).
  destruct Hcm as (_ & Ec2 & Er & _ & _ & _ & Ee & _). exists its. split_and!; try done. by rewrite Ee.
Qed.

(** C18 A rebased request edits what it named: when a [BaseRev] request for an
    older retained revision is accepted, its ops are ranges of that revision's
    text, and each is carried through the edits made since ([carried_range]): the
    text before it and the text after it are edited, what it covers is not, and
    an insertion of theirs at the very place of one of its inserts stays in front
    of it. The new text is the current one with the carried ranges replaced at
    once, each by its own op's text. *)
Theorem apply_rebases vr b req origin via now_ms b' a rv :
  buf_wf b -> rev_room b -> Forall op_utf8 (rq_ops req) -> rebase_from b (rq_cas req) = Ok (Some rv) ->
  apply vr b req origin via now_ms = Some (b', Ok a) ->
  exists t its its', replays t (after (b_log b) rv) (content b) /\
    mapM_res (resolve_base_op (Z.of_nat (length t))) (rq_ops req) = Ok its /\
    Forall2 (fun it it' => snd it' = snd it /\
      carried_range (concat (map le_edits (after (b_log b) rv))) t (fst it) (content b) (fst it')) its its' /\
    content b' = rewrite_from (content b) 0 (txn_reading its') /\ b_rev b' = (b_rev b + 1)%Z.
Proof.
  intros Hwf Hroom Hu Hf Ha. destruct (apply_inv vr b req origin via now_ms Hwf Hroom Hu) as (b1 & r & E & W & Hr).
  rewrite Ha in E. injection E as <- <-. destruct Hr as (from & t & its & its' & Hf' & Hres & _ & Hap & Hcm & Ec).
  rewrite Hf in Hf'. injection Hf' as <-. destruct Hres as (Ut & Hrep & Hm & F2).
  destruct Hcm as (_ & _ & Er & _). exists t, its, its'. split_and!; try done.
  pose proof (mapM_res_Forall _ _ _ _ _ Hu (resolve_base_op_ok (length t)) Hm) as F.
  clear -F F2 Ut Hrep. revert F. induction F2 as [|it it' its its' (Ex & Eb & _) F2 IH]; intros F; inversion F as [|? ? [Fb _] F']; subst; constructor.
  - split; [done|]. by eapply rebase_range_carried.
  - by apply IH.
Qed.

(** C17 Undo takes a transaction back and redo brings it again: right after an
    accepted request that opened an undo group of its own (it was not coalesced
    into the group before it, whose undo takes the whole group back), with its
    entry still retained in the log and four revisions left before [2^64 - 1],
    [undo] in the same lane never meets a conflict; it restores the text before
    the request or is refused for want of room with nothing changed. When it
    succeeded and its own entry is retained, [redo] likewise restores the text
    the request had made. *)
Theorem apply_undo_redo vr b req origin via now_ms b1 a1 via2 now2 via3 now3 :
  buf_wf b -> (b_rev b + 4 < U64_MAX)%Z -> Forall op_utf8 (rq_ops req) ->
  apply vr b req origin via now_ms = Some (b1, Ok a1) ->
  coalesced b (apply_commit b req origin via now_ms) (ap_edits a1) = false ->
  (oldest_rev (b_log b1) < b_rev b1)%Z ->
  exists b2 r2, undo vr b1 Own origin via2 now2 = Some (b2, r2) /\
  match r2 with
  | Err e => code e = ResourceLimit /\ unchanged b1 b2
  | Ok _ => content b2 = content b /\ ((oldest_rev (b_log b2) < b_rev b2)%Z ->
      exists b3 r3, redo vr b2 Own origin via3 now3 = Some (b3, r3) /\
      match r3 with
      | Err e => code e = ResourceLimit /\ unchanged b2 b3
      | Ok _ => content b3 = content b1
      end)
  end.
Proof.
  intros Hwf Hmax Hu Ha Hco Hold. assert (rev_room b) as Hroom by (unfold rev_room; lia).
  destruct (apply_inv vr b req origin via now_ms Hwf Hroom Hu) as (b1' & r & E & W1 & Hr).
  rewrite Ha in E. injection E as <- <-. destruct Hr as (from & t & its & its' & _ & _ & _ & _ & Hcm & _).
  assert (b_rev b1 = b_rev b + 1)%Z as Er1 by (by destruct Hcm as (_ & _ & ? & _)).
  assert (ap_edits a1 = txn_seq (number its')) as Ee by (by destruct Hcm as (_ & _ & _ & _ & _ & _ & ? & _)).
  rewrite Ee in Hco.
  destruct (undo_after vr b _ _ b1 a1 via2 now2 None Hwf Hcm) as (b2 & r2 & Eu & W2 & Hr2); [unfold rev_room; lia|done|done|].
  exists b2, r2. split; [exact Eu|]. destruct r2 as [a2|e]; [|done]. destruct Hr2 as [Ec2 [its2 Hcm2]]. split; [done|].
  intros Hold2. assert (b_rev b2 = b_rev b1 + 1)%Z as Er2 by (by destruct Hcm2 as (_ & _ & ? & _)).
  destruct (undo_after vr b1 _ _ b2 a2 via3 now3 None W1 Hcm2) as (b3 & r3 & Ed & W3 & Hr3); [unfold rev_room; lia|done|done|].
  exists b3, r3. split; [exact Ed|]. destruct r3 as [a3|e]; [|done]. by destruct Hr3 as [-> _].
Qed.

(** A reload yields the file's text by one edit: it answers nothing exactly
    when the text is already the file's, and otherwise, when accepted, leaves
    the file's text, in one step of one edit. *)
Theorem reload_exact vr b new via now_ms :
  buf_wf b -> utf8 new ->
  exists b' r, reload_minimal vr b new via now_ms = Some (b', r) /\
  match r with
  | Ok None => content b = new /\ unchanged b b'
  | Ok (Some a) => content b' = new /\ content b <> new /\ length (ap_edits a) = 1 /\ b_rev b' = (b_rev b + 1)%Z
  | Err _ => unchanged b b'
  end.
Proof.
  intros Hwf Hn. destruct (reload_inv vr b new via now_ms Hwf Hn) as (b' & r & E & _ & Hr).
  exists b', r. split; [done|]. destruct r as [[a|]|e]; naive_solver.
Qed.

(** C36 A cursor resolves before the edit as it would after it: resolving a
    position against the segments of the text to come gives an offset exactly
    when the edited buffer, with its anchors mapped, resolves it to that
    offset. *)
Theorem cursor_resolves_in_edited_text b b' p seq o :
  text_wf (b_text b) -> text_wf (b_text b') ->
  canonical_seq (length (content b)) seq -> base_boundaries (content b) seq -> inserts_utf8 seq ->
  content b' = apply_seq (content b) seq ->
  anchors b' = map (fun x => NamedAnchor_map x seq (b_rev b + 1)) (anchors b) ->
  resolve_post b p seq (line_count (b_text b')) = Ok o <-> resolve_pos b' p = Ok o.
Proof. apply resolve_post_pos. Qed.

(** Loading and saving: a loaded file saves back to the bytes it was loaded
    from, byte-order mark included; it starts at revision 0, dirty; and every
    file of valid UTF-8 within the size and line limits loads when memory is
    granted. *)
Theorem load_save_roundtrip vr s :
  (forall b meta, from_bytes vr s = Ok (b, meta) ->
     to_bytes b meta = s /\ buf_wf b /\ b_rev b = 0%Z /\ is_dirty b = true) /\
  (utf8 (strip_bom s).2 -> (Z.of_nat (length (strip_bom s).2) <= MAX_BUFFER_BYTES)%Z ->
   (Z.of_nat (S (count_newlines (strip_bom s).2)) <= MAX_LINES)%Z ->
   memory_granted G vr -> exists b meta, from_bytes vr s = Ok (b, meta)).
Proof.
  split.
  - intros b meta H. apply from_bytes_inv in H as (t & -> & W & Et & Em). unfold to_bytes. cbn [b_text with_text].
    rewrite to_string_lossless_exact, Et, Em by done. split_and!; [apply strip_bom_spec|by apply with_text_wf|done|done].
  - intros Hu Hlen Hlines Hm. unfold from_bytes. destruct (strip_bom s) as [bm body]. cbn [fst snd] in *.
    rewrite (proj2 (from_utf8_ok_iff body) Hu). cbn [negb].
    destruct (from_text_granted vr body Hm Hu Hlen Hlines) as (t & -> & _). cbn. eauto.
Qed.
End claims.

(** ** Witnesses: a two-line buffer over the plain byte vector *)

Definition sample_buffer : Buffer Flat := with_text flat_text.
Definition who : Origin := mkOrigin Human (bs "ann").
Definition via0 : Via := mkVia None (bs "local") None None.
Definition sample_req : TxnRequest :=
  mkTxnRequest [OpReplace (Offsets 0 3) (bs "1"); OpInsert (Offset 7) (bs "!"); OpInsert (LineCol 2 (Some 2)) (bs "W")]
    Latest false (Some (Named End_)) None.
Definition old_req : TxnRequest :=
  mkTxnRequest [OpReplace (Offsets 4 5) (bs "T"); OpInsert (Offset 7) (bs "?")] (BaseRev 0) true None None.

Definition sample_applied := apply always2 sample_buffer sample_req who via0 0.
Definition sample_buffer1 : Buffer Flat := match sample_applied with Some (b', Ok _) => b' | _ => sample_buffer end.
Definition no_applied : Applied := mkApplied 0 0 KEdit [] [] false None 0 0 None.
Definition sample_answer1 : Applied := match sample_applied with Some (_, Ok a) => a | _ => no_applied end.

Lemma sample_applied_eq : sample_applied = Some (sample_buffer1, Ok sample_answer1).
Proof. reflexivity. Qed.

Lemma sample_buffer_wf : buf_wf sample_buffer.
Proof. apply with_text_wf, flat_text_wf. Qed.

Lemma sample_req_utf8 : Forall op_utf8 (rq_ops sample_req).
Proof. repeat constructor; apply from_utf8_ok_iff; reflexivity. Qed.

Lemma sample_buffer1_wf : buf_wf sample_buffer1.
Proof.
  destruct (run_op_inv always2 sample_buffer (DoApply sample_req who via0 0) sample_buffer_wf) as (b' & ok & E & W & _);
    [reflexivity|apply sample_req_utf8|].
  cbn [run_op] in E. fold sample_applied in E. rewrite sample_applied_eq in E. by injection E as <- _.
Qed.

Lemma reachable_wf_witness : reachable sample_buffer1 /\ buf_wf sample_buffer1.
Proof.
  assert (reachable sample_buffer1) as R.
  { apply (reach_step always2 sample_buffer (DoApply sample_req who via0 0) _ true);
      [|reflexivity|apply sample_req_utf8|reflexivity].
    apply (reach_load always2 (bs "one" ++ [NL] ++ bs "two") _ (mkFileMeta false Lf)). reflexivity. }
  split; [exact R|exact (reachable_wf _ R)].
Defined.

Lemma operations_are_atomic_witness :
  exists b' ok, run_op always2 sample_buffer (DoApply old_req who via0 0) = Some (b', ok) /\
    (ok = false -> unchanged sample_buffer b').
Proof.
  apply (operations_are_atomic always2 sample_buffer (DoApply old_req who via0 0) sample_buffer_wf);
    [reflexivity|repeat constructor; apply from_utf8_ok_iff; reflexivity].
Defined.

Lemma apply_rewrites_witness :
  exists its, mapM_res (resolve_op sample_buffer) (rq_ops sample_req) = Ok its /\
    content sample_buffer1 = rewrite_from (content sample_buffer) 0 (txn_reading its).
Proof.
  destruct (apply_rewrites always2 sample_buffer sample_req who via0 0 sample_buffer1 sample_answer1
    sample_buffer_wf eq_refl sample_req_utf8 eq_refl sample_applied_eq) as (its & H1 & _ & H2 & _).
  by exists its.
Defined.

Lemma apply_rebases_witness :
  exists b' a t its', apply always2 sample_buffer1 old_req who via0 0 = Some (b', Ok a) /\
    replays t (after (b_log sample_buffer1) 0) (content sample_buffer1) /\
    content b' = rewrite_from (content sample_buffer1) 0 (txn_reading its') /\
    content sample_buffer1 = bs "1" ++ [NL] ++ bs "tWwo!" /\ content b' = bs "1" ++ [NL] ++ bs "TWwo!?".
Proof.
  assert ((fun p : Buffer Flat * res Applied => is_ok p.2) <$> apply always2 sample_buffer1 old_req who via0 0 = Some true) as K
    by (vm_compute; reflexivity).
  destruct (apply always2 sample_buffer1 old_req who via0 0) as [[b' [a|e]]|] eqn:E; [|discriminate K..].
  destruct (apply_rebases always2 sample_buffer1 old_req who via0 0 b' a 0 sample_buffer1_wf) as (t & its & its' & H1 & _ & _ & H2 & _);
    [reflexivity|repeat constructor; apply from_utf8_ok_iff; reflexivity|reflexivity|exact E|].
  assert ((fun p : Buffer Flat * res Applied => content p.1) <$> apply always2 sample_buffer1 old_req who via0 0 = Some (bs "1" ++ [NL] ++ bs "TWwo!?")) as Kc
    by (vm_compute; reflexivity).
  rewrite E in Kc. injection Kc as Kc. exists b', a, t, its'. split_and!; [exact eq_refl|exact H1|exact H2|reflexivity|exact Kc].
Defined.

Lemma apply_undo_redo_witness :
  exists b2 r2, undo always2 sample_buffer1 Own who via0 1 = Some (b2, r2) /\ is_ok r2 = true /\
    content b2 = content sample_buffer.
Proof.
  destruct (apply_undo_redo always2 sample_buffer sample_req who via0 0 sample_buffer1 sample_answer1 via0 1 via0 2
    sample_buffer_wf eq_refl sample_req_utf8 sample_applied_eq) as (b2 & r2 & E & H); [reflexivity|reflexivity|].
  exists b2, r2. split; [exact E|].
  assert (is_ok r2 = true) as Hok.
  { assert ((fun p : Buffer Flat * res Applied => is_ok p.2) <$> undo always2 sample_buffer1 Own who via0 1 = Some true) as K
      by (vm_compute; reflexivity). rewrite E in K. by injection K. }
  split; [exact Hok|]. destruct r2; [apply H|discriminate Hok].
Defined.

Lemma reload_exact_witness :
  exists b' r, reload_minimal always2 sample_buffer (bs "one" ++ [NL] ++ bs "too") via0 0 = Some (b', r) /\
    match r with
    | Ok None => content sample_buffer = bs "one" ++ [NL] ++ bs "too" /\ unchanged sample_buffer b'
    | Ok (Some a) => content b' = bs "one" ++ [NL] ++ bs "too" /\ content sample_buffer <> bs "one" ++ [NL] ++ bs "too" /\
                     length (ap_edits a) = 1 /\ b_rev b' = (b_rev sample_buffer + 1)%Z
    | Err _ => unchanged sample_buffer b'
    end.
Proof.
  apply (reload_exact always2 sample_buffer (bs "one" ++ [NL] ++ bs "too") via0 0 sample_buffer_wf).
  apply from_utf8_ok_iff. reflexivity.
Defined.

Lemma cursor_resolves_witness :
  resolve_post sample_buffer (LineCol 2 (Some 2)) [mkEdit 0 3 (bs "1")] 2 = Ok 3 <->
  resolve_pos (set_text sample_buffer (mkText (mkFlat (bs "1" ++ [NL] ++ bs "two")) [0; 2])) (LineCol 2 (Some 2)) = Ok 3.
Proof.
  apply (cursor_resolves_in_edited_text sample_buffer
    (set_text sample_buffer (mkText (mkFlat (bs "1" ++ [NL] ++ bs "two")) [0; 2]))).
  - apply flat_text_wf.
  - split; [done|apply from_utf8_ok_iff; reflexivity|reflexivity|vm_compute; congruence..].
  - cbn. lia.
  - repeat constructor.
  - repeat constructor; apply from_utf8_ok_iff; reflexivity.
  - reflexivity.
  - reflexivity.
Defined.

Lemma load_save_roundtrip_witness :
  exists b meta, from_bytes (TS := vm_store) always2 (BOM ++ bs "hi" ++ [CR; NL]) = Ok (b, meta) /\
    to_bytes (TS := vm_store) b meta = BOM ++ bs "hi" ++ [CR; NL].
Proof.
  destruct (load_save_roundtrip (TS := vm_store) (SL := vm_laws) always2 (BOM ++ bs "hi" ++ [CR; NL])) as [H1 H2].
  destruct H2 as (b & meta & E).
  - apply from_utf8_ok_iff. reflexivity.
  - vm_compute. congruence.
  - vm_compute. congruence.
  - exact vm_memory.
  - exists b, meta. split; [exact E|by apply (H1 b meta)].
Defined.
