(* ===== verification/Str.v ===== *)
(** * More of Rust's [str]

    The string operations the message formats use: white space and trimming,
    prefixes and suffixes, splitting at a substring or a character, lines, and
    the parsing of unsigned decimals.  Strings are UTF-8 byte vectors and a
    [char] is its encoding, as in the file on UTF-8. *)

From S2P Require Import Prelude Utf8.
From Stdlib Require Import NArith.

(** [char::is_whitespace] (the Unicode property White_Space). *)
Definition is_whitespace (c : bytes) : bool :=
  match c with
  | [b] => in_range 0x09 0x0d b || Byte.eqb b x20
  | [xc2; b] => Byte.eqb b x85 || Byte.eqb b xa0
  | [xe1; x9a; x80] => true
  | [xe2; x80; b] => in_range 0x80 0x8a b || in_range 0xa8 0xa9 b || Byte.eqb b xaf
  | [xe2; x81; x9f] => true
  | [xe3; x80; x80] => true
  | _ => false
  end.

Fixpoint drop_ws (cs : list bytes) : list bytes :=
  match cs with
  | [] => []
  | c :: cs' => if is_whitespace c then drop_ws cs' else cs
  end.

Definition trim_start (s : bytes) : bytes := concat (drop_ws (chars s)).
Definition trim_end (s : bytes) : bytes := concat (rev (drop_ws (rev (chars s)))).
Definition trim (s : bytes) : bytes := trim_end (trim_start s).

(** [s.contains(char::is_whitespace)] *)
Definition has_whitespace (s : bytes) : bool := existsb is_whitespace (chars s).
(** [s.starts_with(char::is_whitespace)] *)
Definition starts_ws (s : bytes) : bool :=
  match chars s with [] => false | c :: _ => is_whitespace c end.

Fixpoint strip_prefix (p s : bytes) : option bytes :=
  match p, s with
  | [], _ => Some s
  | x :: p', y :: s' => if Byte.eqb x y then strip_prefix p' s' else None
  | _ :: _, [] => None
  end.
Definition starts_with (p s : bytes) : bool :=
  match strip_prefix p s with Some _ => true | None => false end.

Definition strip_suffix (p s : bytes) : option bytes :=
  match strip_prefix (rev p) (rev s) with Some r => Some (rev r) | None => None end.
Definition ends_with (p s : bytes) : bool :=
  match strip_suffix p s with Some _ => true | None => false end.

(** [s.split_once(pat)] for a string pattern: at its first occurrence. *)
Fixpoint split_once_str (pat s : bytes) : option (bytes * bytes) :=
  match strip_prefix pat s with
  | Some r => Some ([], r)
  | None =>
    match s with
    | [] => None
    | b :: s' =>
      match split_once_str pat s' with Some (x, y) => Some (b :: x, y) | None => None end
    end
  end.

(** [s.split(c)] for one ASCII character. *)
Fixpoint split_char (c : byte) (s : bytes) : list bytes :=
  match s with
  | [] => [[]]
  | b :: s' =>
    if Byte.eqb b c then [] :: split_char c s'
    else match split_char c s' with [] => [[b]] | p :: ps => (b :: p) :: ps end
  end.

(** The line without the [\r] of a [\r\n]. *)
Definition strip_cr (l : bytes) : bytes :=
  match strip_suffix [CR] l with Some l' => l' | None => l end.

(** [s.lines()]; [acc] holds the bytes of the line being read. *)
Fixpoint lines_from (acc s : bytes) : list bytes :=
  match s with
  | [] => match acc with [] => [] | _ => [acc] end
  | b :: s' => if is_nl b then strip_cr acc :: lines_from [] s' else lines_from (acc ++ [b]) s'
  end.
Definition lines (s : bytes) : list bytes := lines_from [] s.

Definition is_ascii_digit (b : byte) : bool := in_range 0x30 0x39 b.
Definition is_ascii_lowercase (b : byte) : bool := in_range 0x61 0x7a b.

Fixpoint digits_val (acc : N) (s : bytes) : option N :=
  match s with
  | [] => Some acc
  | b :: s' => if is_ascii_digit b then digits_val (10 * acc + (b2n b - 0x30)) s' else None
  end.

(** [s.parse::<u8>()], [<u32>] and the like: an optional [+], at least one
    digit, no value above [max]. *)
Definition parse_unsigned (max : N) (s : bytes) : option N :=
  let d := match s with x2b :: r => r | _ => s end in
  match d with
  | [] => None
  | _ => match digits_val 0 d with Some n => if (n <=? max)%N then Some n else None | None => None end
  end.

(** ** Prefixes and splits *)

(** [n as u8] for a number below 256. *)
Definition byte_of (n : N) : byte := default x00 (Byte.of_N n).
Lemma byte_of_inj m n : (m < 256)%N -> (n < 256)%N -> byte_of m = byte_of n -> m = n.
Proof.
  unfold byte_of. intros Hm Hn. destruct (Byte.of_N m) as [x|] eqn:Ex, (Byte.of_N n) as [y|] eqn:Ey; cbn;
    try (apply Byte.of_N_None_iff in Ex; lia); try (apply Byte.of_N_None_iff in Ey; lia).
  intros ->. apply Byte.to_of_N in Ex, Ey. congruence.
Qed.

Lemma byte_eqb_eq (x y : byte) : Byte.eqb x y = true <-> x = y.
Proof. split; [apply Byte.byte_dec_bl|apply Byte.byte_dec_lb]. Qed.

Lemma byte_eqb_refl (x : byte) : Byte.eqb x x = true.
Proof. by apply byte_eqb_eq. Qed.

Lemma byte_eqb_ne (x y : byte) : Byte.eqb x y = false <-> x <> y.
Proof. rewrite <- byte_eqb_eq. by destruct (Byte.eqb x y). Qed.

Lemma strip_prefix_Some p s r : strip_prefix p s = Some r <-> s = p ++ r.
Proof.
  revert s; induction p as [|x p IH]; intros s; cbn; [split; congruence|].
  destruct s as [|y s]; [done|]. destruct (Byte.eqb x y) eqn:E.
  - apply byte_eqb_eq in E as ->. rewrite IH. split; congruence.
  - apply byte_eqb_ne in E. split; congruence.
Qed.

Lemma strip_prefix_app p s : strip_prefix p (p ++ s) = Some s.
Proof. by apply strip_prefix_Some. Qed.

Lemma strip_prefix_None p s : strip_prefix p s = None <-> forall r, s <> p ++ r.
Proof.
  rewrite eq_None_not_Some. split.
  - intros H r ->. apply H. rewrite strip_prefix_app. eauto.
  - intros H [r E%strip_prefix_Some]. by apply (H r).
Qed.

Lemma starts_with_spec p s : starts_with p s = true <-> exists r, s = p ++ r.
Proof.
  unfold starts_with. destruct (strip_prefix p s) as [r|] eqn:E.
  - apply strip_prefix_Some in E as ->. naive_solver.
  - rewrite strip_prefix_None in E. naive_solver.
Qed.

Lemma strip_suffix_Some p s r : strip_suffix p s = Some r <-> s = r ++ p.
Proof.
  unfold strip_suffix. destruct (strip_prefix (rev p) (rev s)) as [q|] eqn:E.
  - apply strip_prefix_Some in E. split; [intros [= <-]|intros ->].
    + apply (f_equal (@rev byte)) in E. rewrite rev_involutive, rev_app_distr, rev_involutive in E. done.
    + rewrite rev_app_distr in E. apply app_inv_head in E as <-. by rewrite rev_involutive.
  - split; [done|]. intros ->. rewrite rev_app_distr, strip_prefix_app in E. done.
Qed.

Lemma strip_suffix_app s p : strip_suffix p (s ++ p) = Some s.
Proof. by apply strip_suffix_Some. Qed.

Lemma strip_suffix_None p s : strip_suffix p s = None <-> forall r, s <> r ++ p.
Proof.
  rewrite eq_None_not_Some. split.
  - intros H r ->. apply H. rewrite strip_suffix_app. eauto.
  - intros H [r E%strip_suffix_Some]. by apply (H r).
Qed.

Lemma split_once_str_cons pat b s :
  split_once_str pat (b :: s) =
  match strip_prefix pat (b :: s) with
  | Some r => Some ([], r)
  | None => match split_once_str pat s with Some (x, y) => Some (b :: x, y) | None => None end
  end.
Proof. reflexivity. Qed.

Lemma split_once_str_Some pat s x y : split_once_str pat s = Some (x, y) -> s = x ++ pat ++ y.
Proof.
  revert x y; induction s as [|b s IH]; intros x y; cbn [split_once_str];
    (destruct (strip_prefix pat _) as [r|] eqn:E; [intros [= <- <-]; by apply strip_prefix_Some in E|]); [done|].
  destruct (split_once_str pat s) as [[x' y']|]; [|done]. intros [= <- <-]. cbn. by rewrite (IH x' y').
Qed.

Lemma split_once_str_None pat s : split_once_str pat s = None -> forall x y, s <> x ++ pat ++ y.
Proof.
  intros H x; revert s H; induction x as [|a x IH]; intros s H y E.
  - destruct s; cbn [split_once_str] in H; rewrite E in H; cbn in H; rewrite strip_prefix_app in H; done.
  - destruct s as [|b s]; [done|]. cbn [split_once_str] in H.
    destruct (strip_prefix pat _); [done|]. destruct (split_once_str pat s) as [[? ?]|] eqn:E2; [done|].
    injection E as -> E. by apply (IH s E2 y).
Qed.

(** A prefix in which the pattern's first byte does not occur is passed over. *)
Lemma split_once_str_skip p pat l s :
  p ∉ l ->
  split_once_str (p :: pat) (l ++ s) =
  match split_once_str (p :: pat) s with Some (x, y) => Some (l ++ x, y) | None => None end.
Proof.
  induction l as [|b l IH]; intros Hp; cbn [app].
  { by destruct (split_once_str _ s) as [[? ?]|]. }
  apply not_elem_of_cons in Hp as [Hb Hl].
  cbn [split_once_str strip_prefix]. assert (Byte.eqb p b = false) as -> by by apply byte_eqb_ne.
  rewrite IH by done. by destruct (split_once_str _ s) as [[? ?]|].
Qed.

(** ** Characters and white space *)

(** An ASCII byte of a string is one of its characters. *)
Lemma ascii_char s b : utf8 s -> seq1 b = true -> b ∈ s -> [b] ∈ chars s.
Proof.
  intros Hs Hb. induction Hs as [|c s Hc Hs IH]; [by intros ?%not_elem_of_nil|].
  rewrite chars_scalar, elem_of_cons, elem_of_app by done. intros [Hin|]; [left|auto].
  destruct (scalar_inv c Hc) as (b0 & t & -> & H0 & Ht & Hl).
  pose proof (cont_utf8_len_lead b Hb) as [L1 L2].
  apply elem_of_cons in Hin as [->|Hin].
  - destruct t as [|? t]; [done|]. rewrite L1 in Hl. done.
  - rewrite Forall_forall in Ht. apply Ht in Hin. congruence.
Qed.

Lemma chars_app_cut s t : utf8 s -> utf8 t -> chars (s ++ t) = chars s ++ chars t.
Proof. intros. by apply chars_app. Qed.

Lemma drop_ws_suffix cs : exists w, cs = w ++ drop_ws cs /\ Forall (fun c => is_whitespace c = true) w.
Proof.
  induction cs as [|c cs [w [E Hw]]]; cbn; [by exists []|].
  destruct (is_whitespace c) eqn:Ec; [|by exists []].
  exists (c :: w). split; [cbn; by rewrite <- E|by constructor].
Qed.

Lemma drop_ws_idem cs : drop_ws (drop_ws cs) = drop_ws cs.
Proof. induction cs as [|c cs IH]; cbn; [done|]. destruct (is_whitespace c) eqn:E; [done|]. cbn. by rewrite E. Qed.

(** Trimming keeps a sublist of the characters. *)
Lemma trim_start_chars s : utf8 s -> utf8 (trim_start s) /\ chars (trim_start s) = drop_ws (chars s).
Proof.
  intros Hs. apply chars_concat. destruct (drop_ws_suffix (chars s)) as (w & E & _).
  pose proof (chars_Forall s Hs) as F. rewrite E in F. by apply Forall_app in F as [_ F].
Qed.

Lemma trim_end_chars s :
  utf8 s -> utf8 (trim_end s) /\ chars (trim_end s) = rev (drop_ws (rev (chars s))).
Proof.
  intros Hs. apply chars_concat, Forall_rev. destruct (drop_ws_suffix (rev (chars s))) as (w & E & _).
  pose proof (chars_Forall s Hs) as F. apply Forall_rev in F. rewrite E in F. by apply Forall_app in F as [_ F].
Qed.

Lemma trim_utf8 s : utf8 s -> utf8 (trim s).
Proof. intros [H _]%trim_start_chars. by apply trim_end_chars in H as [? _]. Qed.

Lemma trim_end_idem s : utf8 s -> trim_end (trim_end s) = trim_end s.
Proof.
  intros Hs. destruct (trim_end_chars s Hs) as [U E]. unfold trim_end at 1.
  rewrite E, rev_involutive, drop_ws_idem, <- E. by apply concat_chars.
Qed.

Lemma trim_end_app_ws s c :
  utf8 s -> scalar c = true -> is_whitespace c = true -> trim_end (s ++ c) = trim_end s.
Proof.
  intros Hs Hc Hw. unfold trim_end. rewrite chars_app, <- (app_nil_r c), chars_scalar by done.
  cbn. rewrite rev_app_distr. cbn. by rewrite Hw.
Qed.

(** The bytes of a trimmed string come from the string. *)
Lemma trim_end_prefix s : utf8 s -> exists w, s = trim_end s ++ w.
Proof.
  intros Hs. destruct (drop_ws_suffix (rev (chars s))) as (w & E & _).
  exists (concat (rev w)). unfold trim_end. rewrite <- concat_app, <- rev_app_distr, <- E, rev_involutive.
  by rewrite concat_chars.
Qed.

Lemma trim_start_suffix s : utf8 s -> exists w, s = w ++ trim_start s.
Proof.
  intros Hs. destruct (drop_ws_suffix (chars s)) as (w & E & _).
  exists (concat w). unfold trim_start. rewrite <- concat_app, <- E. by rewrite concat_chars.
Qed.

Lemma trim_subset s b : utf8 s -> b ∈ trim s -> b ∈ s.
Proof.
  intros Hs. destruct (trim_start_chars s Hs) as [U _].
  destruct (trim_start_suffix s Hs) as [w E]. destruct (trim_end_prefix _ U) as [w' E'].
  unfold trim. intros H. rewrite E, E'. apply elem_of_app. right. apply elem_of_app. by left.
Qed.

Lemma drop_ws_prefix a b : drop_ws (a ++ b) = a ++ b -> drop_ws a = a.
Proof.
  destruct a as [|c a]; [done|]. cbn. destruct (is_whitespace c) eqn:E; [|done]. intros H. exfalso.
  destruct (drop_ws_suffix (a ++ b)) as (w & E2 & _).
  assert (length (a ++ b) = length (w ++ drop_ws (a ++ b))) as L by by rewrite <- E2.
  rewrite H, (length_app w) in L. cbn in L. lia.
Qed.

Lemma trim_idem s : utf8 s -> trim (trim s) = trim s.
Proof.
  intros Hs. destruct (trim_start_chars s Hs) as [U1 E1]. destruct (trim_end_chars _ U1) as [U2 E2].
  assert (trim_start (trim s) = trim s) as E.
  { unfold trim_start at 1. unfold trim at 1. rewrite E2.
    destruct (drop_ws_suffix (rev (chars (trim_start s)))) as (w & Ew & _).
    apply (f_equal (@rev bytes)) in Ew. rewrite rev_involutive, rev_app_distr, E1 in Ew.
    rewrite E1, (drop_ws_prefix _ (rev w)) by (rewrite <- Ew; apply drop_ws_idem).
    rewrite <- E1, <- E2. by apply concat_chars. }
  unfold trim at 1. rewrite E. unfold trim. by apply trim_end_idem.
Qed.

Lemma drop_ws_none cs : existsb is_whitespace cs = false -> drop_ws cs = cs.
Proof. destruct cs as [|c cs]; [done|]. cbn. by intros [-> _]%orb_false_iff. Qed.

Lemma existsb_rev {A} (p : A -> bool) l : existsb p (rev l) = existsb p l.
Proof.
  induction l as [|x l IH]; [done|]. cbn. rewrite existsb_app, IH. cbn.
  rewrite orb_false_r. apply orb_comm.
Qed.

(** A string without white space is its own trim. *)
Lemma trim_no_ws s : utf8 s -> has_whitespace s = false -> trim s = s.
Proof.
  unfold has_whitespace. intros Hs Hw.
  assert (trim_start s = s) as E.
  { unfold trim_start. rewrite drop_ws_none by done. by apply concat_chars. }
  unfold trim. rewrite E. unfold trim_end. rewrite drop_ws_none, rev_involutive by (by rewrite existsb_rev).
  by apply concat_chars.
Qed.

Lemma no_ws_ascii s b :
  utf8 s -> has_whitespace s = false -> seq1 b = true -> is_whitespace [b] = true -> b ∉ s.
Proof.
  unfold has_whitespace. intros Hs Hw Hb Hwb Hin.
  apply (ascii_char s b Hs Hb) in Hin.
  assert (existsb is_whitespace (chars s) = true); [|congruence].
  apply existsb_exists. exists [b]. split; [by apply list_elem_of_In|done].
Qed.

(** A trimmed string does not end in a given white-space byte. *)
Lemma trim_end_last s b :
  utf8 s -> trim_end s = s -> seq1 b = true -> is_whitespace [b] = true -> forall r, s <> r ++ [b].
Proof.
  intros Hs Ht Hb Hw r ->.
  assert (utf8 r) as Hr.
  { pose proof (utf8_split _ (length r) Hs) as U. rewrite take_app_length in U. apply U.
    unfold is_boundary. rewrite lookup_app_r, Nat.sub_diag by lia. cbn.
    apply cont_utf8_len_lead in Hb as [_ ->]. by destruct (length r =? 0). }
  rewrite trim_end_app_ws in Ht by done.
  destruct (trim_end_prefix r Hr) as [w E]. rewrite Ht, <- !app_assoc in E.
  rewrite <- (app_nil_r r) in E at 1. apply app_inv_head in E. done.
Qed.

(** ** Cutting at ASCII *)

Lemma utf8_ascii_cut a b r : seq1 b = true -> utf8 (a ++ b :: r) -> utf8 a /\ utf8 r.
Proof.
  intros Hb Hs. pose proof (utf8_split _ (length a) Hs) as U.
  rewrite take_app_length, drop_app_length in U.
  destruct U as [Ua Ur].
  { unfold is_boundary. rewrite lookup_app_r, Nat.sub_diag by lia. cbn.
    apply cont_utf8_len_lead in Hb as [_ ->]. by destruct (length a =? 0). }
  split; [done|]. apply (utf8_app_inv [b]); [|done]. by apply utf8_scalar.
Qed.

Lemma utf8_ascii s : forallb seq1 s = true -> utf8 s.
Proof.
  induction s as [|b s IH]; [constructor|]. cbn. intros [Hb Hs]%andb_prop.
  apply (utf8_cons [b] s); auto.
Qed.

Lemma utf8_pat_cut a pat r : pat <> [] -> forallb seq1 pat = true -> utf8 (a ++ pat ++ r) -> utf8 a /\ utf8 r.
Proof.
  intros Hne Hp Hs. destruct pat as [|b pat]; [done|]. cbn in Hp. apply andb_prop in Hp as [Hb Hp].
  cbn in Hs. apply utf8_ascii_cut in Hs as [Ha Hr]; [|done]. split; [done|].
  apply (utf8_app_inv pat); [by apply utf8_ascii|done].
Qed.

(** ** Lines *)

(** Lines joined by newlines. *)
Fixpoint join_lines (ls : list bytes) : bytes :=
  match ls with
  | [] => []
  | [l] => l
  | l :: ls' => l ++ NL :: join_lines ls'
  end.

Lemma is_nl_NL b : is_nl b = true <-> b = NL.
Proof. apply byte_eqb_eq. Qed.

Lemma lines_from_skip acc l s : NL ∉ l -> lines_from acc (l ++ s) = lines_from (acc ++ l) s.
Proof.
  revert acc; induction l as [|b l IH]; intros acc Hl; cbn [app lines_from]; [by rewrite app_nil_r|].
  apply not_elem_of_cons in Hl as [Hb Hl].
  assert (is_nl b = false) as -> by (apply byte_eqb_ne; congruence).
  rewrite IH by done. by rewrite <- app_assoc.
Qed.

Lemma strip_cr_id l : (forall r, l <> r ++ [CR]) -> strip_cr l = l.
Proof. intros H. unfold strip_cr. by rewrite (proj2 (strip_suffix_None [CR] l) H). Qed.

(** Reading back joined lines, none of them empty or ending in [\r]. *)
Lemma lines_join ls :
  Forall (fun l => l <> [] /\ (NL ∉ l) /\ (forall r, l <> r ++ [CR])) ls -> lines (join_lines ls) = ls.
Proof.
  unfold lines. induction 1 as [|l ls (Hne & Hnl & Hcr) Hls IH]; [done|].
  destruct ls as [|l2 ls].
  - cbn [join_lines]. rewrite <- (app_nil_r l) at 1. rewrite lines_from_skip by done. cbn. by destruct l.
  - change (join_lines (l :: l2 :: ls)) with (l ++ NL :: join_lines (l2 :: ls)).
    rewrite lines_from_skip by done. cbn [app lines_from]. rewrite (proj2 (is_nl_NL NL) eq_refl).
    rewrite strip_cr_id by done. by rewrite IH.
Qed.

Lemma lines_from_ok acc s :
  NL ∉ acc -> utf8 (acc ++ s) -> Forall (fun l => (NL ∉ l) /\ utf8 l) (lines_from acc s).
Proof.
  revert acc; induction s as [|b s IH]; intros acc Ha Hs; cbn [lines_from].
  - rewrite app_nil_r in Hs. destruct acc; by repeat constructor.
  - destruct (is_nl b) eqn:E.
    + apply is_nl_NL in E as ->. apply utf8_ascii_cut in Hs as [Ua Us]; [|done].
      constructor; [|apply IH; [set_solver|done]].
      unfold strip_cr. destruct (strip_suffix [CR] acc) as [l|] eqn:E; [|done].
      apply strip_suffix_Some in E as ->. split; [set_solver|].
      by apply (utf8_ascii_cut l CR []) in Ua as [? _].
    + apply IH; [|by rewrite <- app_assoc].
      apply byte_eqb_ne in E. set_solver.
Qed.

Lemma lines_ok s : utf8 s -> Forall (fun l => (NL ∉ l) /\ utf8 l) (lines s).
Proof. intros. apply lines_from_ok; [set_solver|done]. Qed.

Lemma split_once_has c x y : split_once c (x ++ c :: y) <> None.
Proof.
  induction x as [|b x IH]; simpl.
  - assert (Byte.eqb c c = true) as -> by by destruct c. done.
  - destruct (Byte.eqb b c); [done|]. by destruct (split_once c (x ++ c :: y)) as [[? ?]|].
Qed.
