(* ===== verification/BTree.v ===== *)
(** * Ordered maps

    Rust's [BTreeMap] as the list of its entries in iteration order: strictly
    ascending keys under the key type's [Ord].  Insertion replaces the value of
    a present key and otherwise inserts at the key's place; strings compare by
    their bytes.  A [HashMap] is a finite map; the order its entries come in is
    an interface. *)

From S2P Require Import Prelude Utf8.
From Stdlib Require Import NArith.

(** The entries of a [HashMap] in an order of its own. *)
Class HashIter := {
  hash_iter {V : Type} : gmap bytes V -> list (bytes * V);
  hash_iter_perm {V} (m : gmap bytes V) : hash_iter m ≡ₚ map_to_list m }.
Definition hash_values `{HashIter} {V} (m : gmap bytes V) : list V := snd <$> hash_iter m.

(** A total order given by a three-way comparison. *)
Class KeyOrd (K : Type) := kcmp : K -> K -> comparison.
Class KeyOrdLaws (K : Type) `{KeyOrd K} := {
  kcmp_eq : forall a b, kcmp a b = Eq <-> a = b;
  kcmp_antisym : forall a b, kcmp b a = CompOpp (kcmp a b);
  kcmp_trans : forall a b c, kcmp a b = Lt -> kcmp b c = Lt -> kcmp a c = Lt }.

(** [Ord for str]: lexicographic on the bytes. *)
Fixpoint bytes_cmp (a b : bytes) : comparison :=
  match a, b with
  | [], [] => Eq
  | [], _ :: _ => Lt
  | _ :: _, [] => Gt
  | x :: a', y :: b' => match N.compare (b2n x) (b2n y) with Eq => bytes_cmp a' b' | c => c end
  end.
#[export] Instance bytes_ord : KeyOrd bytes := bytes_cmp.

Section btree.
Context {K V : Type} `{KO : KeyOrd K} {KL : KeyOrdLaws K}.
Implicit Types m : list (K * V).

Fixpoint bt_insert (k : K) (v : V) m : list (K * V) :=
  match m with
  | [] => [(k, v)]
  | (k', v') :: m' =>
    match kcmp k k' with
    | Lt => (k, v) :: m
    | Eq => (k', v) :: m'
    | Gt => (k', v') :: bt_insert k v m'
    end
  end.

Fixpoint bt_get (k : K) m : option V :=
  match m with
  | [] => None
  | (k', v') :: m' => match kcmp k k' with Eq => Some v' | _ => bt_get k m' end
  end.

Fixpoint bt_remove (k : K) m : list (K * V) :=
  match m with
  | [] => []
  | (k', v') :: m' => match kcmp k k' with Eq => m' | _ => (k', v') :: bt_remove k m' end
  end.

(** The keys ascend strictly. *)
Definition bt_wf m : Prop := StronglySorted (fun x y => kcmp x y = Lt) (map fst m).

Lemma kcmp_refl a : kcmp a a = Eq.
Proof. by apply kcmp_eq. Qed.

Lemma bt_wf_cons k v m :
  bt_wf ((k, v) :: m) <-> bt_wf m /\ Forall (fun x => kcmp k x = Lt) (map fst m).
Proof.
  split; [intros H; by inversion H|intros [H1 H2]; by constructor].
Qed.

Lemma bt_insert_keys k v m (P : K -> Prop) :
  P k -> Forall P (map fst m) -> Forall P (map fst (bt_insert k v m)).
Proof.
  intros Hk. induction m as [|[k' v'] m IH]; cbn; [by constructor|]. intros [H1 H2]%Forall_cons.
  destruct (kcmp k k'); cbn; constructor; auto.
Qed.

Lemma bt_insert_Forall k v m (P : K * V -> Prop) :
  P (k, v) -> Forall P m -> Forall P (bt_insert k v m).
Proof.
  intros Hk. induction m as [|[k' v'] m IH]; cbn; [by constructor|]. intros [H1 H2]%Forall_cons.
  destruct (kcmp k k') eqn:E; [|by repeat constructor|by constructor; auto].
  apply kcmp_eq in E as <-. by constructor.
Qed.

Lemma bt_insert_wf k v m : bt_wf m -> bt_wf (bt_insert k v m).
Proof.
  induction m as [|[k' v'] m IH]; cbn [bt_insert]; intros Hm.
  { repeat constructor. }
  apply bt_wf_cons in Hm as [Hm Hk']. destruct (kcmp k k') eqn:E.
  - by apply bt_wf_cons.
  - apply bt_wf_cons. split; [by apply bt_wf_cons|]. cbn. constructor; [done|].
    eapply Forall_impl; [exact Hk'|]. intros x ?. by eapply kcmp_trans.
  - apply bt_wf_cons. split; [auto|]. apply bt_insert_keys; [|done].
    rewrite kcmp_antisym, E. done.
Qed.

Lemma bt_get_None k m : Forall (fun x => kcmp k x = Lt) (map fst m) -> bt_get k m = None.
Proof.
  induction m as [|[k' v'] m IH]; cbn; [done|]. intros [E H]%Forall_cons. rewrite E. auto.
Qed.

Lemma bt_get_insert k v m : bt_get k (bt_insert k v m) = Some v.
Proof.
  induction m as [|[k' v'] m IH]; cbn; [by rewrite kcmp_refl|].
  destruct (kcmp k k') eqn:E; cbn; rewrite ?kcmp_refl, ?E; done.
Qed.

Lemma bt_get_insert_ne k k2 v m : k2 <> k -> bt_get k2 (bt_insert k v m) = bt_get k2 m.
Proof.
  intros Hne. assert (kcmp k2 k <> Eq) as Hc by (by rewrite kcmp_eq).
  induction m as [|[k' v'] m IH]; cbn; [by destruct (kcmp k2 k)|].
  destruct (kcmp k k') eqn:E; cbn.
  - apply kcmp_eq in E as <-. by destruct (kcmp k2 k).
  - by destruct (kcmp k2 k).
  - by rewrite IH.
Qed.

(** Appending a greater key is insertion. *)
Lemma bt_insert_last k v m :
  Forall (fun x => kcmp x k = Lt) (map fst m) -> bt_insert k v m = m ++ [(k, v)].
Proof.
  induction m as [|[k' v'] m IH]; cbn; [done|]. intros [E H]%Forall_cons.
  rewrite (kcmp_antisym k' k), E. cbn. by rewrite IH.
Qed.

Lemma bt_insert_length k v m : length (bt_insert k v m) <= S (length m).
Proof. induction m as [|[k' v'] m IH]; cbn; [lia|]. destruct (kcmp k k'); cbn; lia. Qed.

Lemma bt_get_elem k v m : bt_wf m -> bt_get k m = Some v <-> (k, v) ∈ m.
Proof.
  induction m as [|[k' v'] m IH]; intros Hm; cbn [bt_get]; [set_solver|].
  apply bt_wf_cons in Hm as [Hm Hk']. rewrite elem_of_cons.
  destruct (kcmp k k') eqn:E.
  - apply kcmp_eq in E as <-. split; [intros [= ->]; auto|].
    intros [[= ->]|Hin]; [done|]. rewrite Forall_forall in Hk'.
    apply (list_elem_of_fmap_2 fst) in Hin. apply Hk' in Hin. cbn in Hin. by rewrite kcmp_refl in Hin.
  - rewrite IH by done. split; [auto|]. intros [[= -> ->]|]; [|done]. by rewrite kcmp_refl in E.
  - rewrite IH by done. split; [auto|]. intros [[= -> ->]|]; [|done]. by rewrite kcmp_refl in E.
Qed.

(** Building a map from entries in key order gives those entries. *)
Lemma bt_of_sorted m0 m :
  bt_wf (m0 ++ m) -> foldl (fun acc kv => bt_insert (fst kv) (snd kv) acc) m0 m = m0 ++ m.
Proof.
  revert m0; induction m as [|[k v] m IH]; intros m0 Hm; cbn; [by rewrite app_nil_r|].
  rewrite bt_insert_last.
  - rewrite IH; [by rewrite <- app_assoc|]. by rewrite <- app_assoc.
  - clear IH. induction m0 as [|[k' v'] m0 IH]; cbn; [constructor|].
    apply bt_wf_cons in Hm as [Hm Hk]. constructor; [|auto].
    rewrite map_app, Forall_app in Hk. destruct Hk as [_ Hk]. by inversion Hk.
Qed.

(** Insertion of a new key adds an entry; building a map from its entries in any
    order gives the map. *)
Lemma bt_insert_perm k v m : k ∉ map fst m -> bt_insert k v m ≡ₚ (k, v) :: m.
Proof.
  induction m as [|[k' v'] m IH]; cbn; [done|]. intros [Hk Hm]%not_elem_of_cons.
  destruct (kcmp k k') eqn:E; [by apply kcmp_eq in E|done|]. rewrite IH by done. apply perm_swap.
Qed.

Lemma bt_wf_keys m : bt_wf m -> NoDup (map fst m).
Proof.
  induction m as [|[k v] m IH]; [constructor|]. intros [Hm Hk]%bt_wf_cons. cbn. constructor; [|auto].
  intros Hin. rewrite Forall_forall in Hk. apply Hk in Hin. by rewrite kcmp_refl in Hin.
Qed.

Lemma bt_unique m1 m2 : bt_wf m1 -> bt_wf m2 -> m1 ≡ₚ m2 -> m1 = m2.
Proof.
  revert m2; induction m1 as [|[k1 v1] m1 IH]; intros m2 H1 H2 P.
  { by apply Permutation_nil_l in P. }
  destruct m2 as [|[k2 v2] m2]; [by apply Permutation_nil_r in P|].
  apply bt_wf_cons in H1 as [H1 F1]. apply bt_wf_cons in H2 as [H2 F2]. rewrite Forall_forall in F1, F2.
  assert ((k1, v1) = (k2, v2)) as E.
  { assert ((k1, v1) ∈ (k2, v2) :: m2) as I1 by (rewrite <- P; by left).
    assert ((k2, v2) ∈ (k1, v1) :: m1) as I2 by (rewrite P; by left).
    apply elem_of_cons in I1 as [|I1]; [done|]. apply elem_of_cons in I2 as [|I2]; [done|].
    apply (list_elem_of_fmap_2 fst), F2 in I1. apply (list_elem_of_fmap_2 fst), F1 in I2.
    cbn in I1, I2. rewrite kcmp_antisym, I1 in I2. done. }
  injection E as -> ->. f_equal. apply IH; [done..|]. by apply Permutation_cons_inv in P.
Qed.

Lemma foldl_insert_wf l acc : bt_wf acc -> bt_wf (foldl (fun acc kv => bt_insert (fst kv) (snd kv) acc) acc l).
Proof. revert acc; induction l as [|[k v] l IH]; intros acc H; cbn; [done|]. by apply IH, bt_insert_wf. Qed.

Lemma bt_of_perm l m : bt_wf m -> l ≡ₚ m -> foldl (fun acc kv => bt_insert (fst kv) (snd kv) acc) [] l = m.
Proof.
  intros Hm P. apply bt_unique; [by apply foldl_insert_wf; constructor|done|].
  assert (forall acc, NoDup (map fst (acc ++ l)) ->
    foldl (fun acc kv => bt_insert (fst kv) (snd kv) acc) acc l ≡ₚ acc ++ l) as Hf.
  { clear P. induction l as [|[k v] l IH]; intros acc Hd; cbn; [by rewrite app_nil_r|].
    assert (k ∉ map fst acc) as Hk.
    { rewrite map_app in Hd. cbn in Hd. apply NoDup_app in Hd as (_ & Hd & _).
      intros Hin. apply (Hd k Hin). by left. }
    pose proof (bt_insert_perm k v acc Hk) as Hp. rewrite IH.
    - rewrite Hp. cbn. apply Permutation_middle.
    - assert (map fst (bt_insert k v acc ++ l) ≡ₚ map fst (acc ++ (k, v) :: l)) as ->; [|done].
      rewrite !map_app, Hp. cbn. apply Permutation_middle. }
  rewrite (Hf []); [done|]. cbn. rewrite P. by apply bt_wf_keys.
Qed.

Lemma bt_remove_subset k m kv : kv ∈ bt_remove k m -> kv ∈ m.
Proof.
  induction m as [|[k' v'] m IH]; cbn; [done|]. destruct (kcmp k k'); rewrite ?elem_of_cons; intuition.
Qed.

Lemma bt_remove_wf k m : bt_wf m -> bt_wf (bt_remove k m).
Proof.
  induction m as [|[k' v'] m IH]; cbn; [done|]. intros [Hm Hk]%bt_wf_cons.
  destruct (kcmp k k'); [done| |]; (apply bt_wf_cons; split; [auto|]);
    rewrite Forall_forall in Hk |- *; intros x Hx; apply Hk;
    apply list_elem_of_fmap in Hx as (kv & -> & Hx); apply bt_remove_subset in Hx; by apply (list_elem_of_fmap_2 fst) in Hx.
Qed.

Lemma bt_get_remove k m : bt_wf m -> bt_get k (bt_remove k m) = None.
Proof.
  induction m as [|[k' v'] m IH]; cbn; [done|]. intros [Hm Hk]%bt_wf_cons.
  destruct (kcmp k k') eqn:E; cbn; rewrite ?E; auto. apply kcmp_eq in E as ->. by apply bt_get_None.
Qed.

Lemma bt_get_remove_ne k k2 m : k2 <> k -> bt_get k2 (bt_remove k m) = bt_get k2 m.
Proof.
  intros Hne. assert (kcmp k2 k <> Eq) as Hc by (by rewrite kcmp_eq).
  induction m as [|[k' v'] m IH]; cbn; [done|]. destruct (kcmp k k') eqn:E; cbn; rewrite ?IH; try done.
  apply kcmp_eq in E as <-. by destruct (kcmp k2 k).
Qed.
End btree.

Lemma b2n_inj x y : b2n x = b2n y -> x = y.
Proof.
  intros H. assert (Byte.of_N (b2n x) = Byte.of_N (b2n y)) as E by congruence.
  unfold b2n in E. rewrite !Byte.of_to_N in E. by injection E.
Qed.

#[export] Instance bytes_ord_laws : KeyOrdLaws bytes.
Proof.
  split.
  - intros a; induction a as [|x a IH]; intros [|y b]; cbn; try done.
    destruct (N.compare_spec (b2n x) (b2n y)) as [E|E|E].
    + apply b2n_inj in E as ->. unfold kcmp, bytes_ord in IH. rewrite IH. split; congruence.
    + split; [done|]. intros [= -> ->]. lia.
    + split; [done|]. intros [= -> ->]. lia.
  - intros a; induction a as [|x a IH]; intros [|y b]; cbn; try done.
    rewrite (N.compare_antisym (b2n x) (b2n y)). destruct (N.compare (b2n x) (b2n y)); cbn; [apply IH|done|done].
  - intros a; induction a as [|x a IH]; intros [|y b] [|z c]; cbn; try done.
    destruct (N.compare_spec (b2n x) (b2n y)) as [E1|E1|E1]; try done;
    destruct (N.compare_spec (b2n y) (b2n z)) as [E2|E2|E2]; try done; intros H1 H2.
    + apply b2n_inj in E1 as ->. apply b2n_inj in E2 as ->. rewrite N.compare_refl. by eapply IH.
    + apply b2n_inj in E1 as ->. apply N.compare_lt_iff in E2. by rewrite E2.
    + apply b2n_inj in E2 as ->. apply N.compare_lt_iff in E1. by rewrite E1.
    + assert (b2n x < b2n z)%N as E by lia. apply N.compare_lt_iff in E. by rewrite E.
Qed.
