(* ===== verification/BusWire.v ===== *)
(** * The bus wire format ([cosmix-lib-bus/src/bus.rs])

    A bus message is a block of [key: value] header lines between [---] lines,
    and a body.  Headers are an ordered map from key to value.  Parsing answers
    [None] where the code panics (it slices the rejected input for its error
    message at byte 40), [Some (Err _)] where it returns an error.  JSON is the
    [serde_json] crate's: the parser and the two accessors the code uses are
    parameters.  Error texts are represented by what they are made of. *)

From S2P Require Import Prelude Utf8 Str BTree.
From Stdlib Require Import NArith.

Abbreviation headers_map := (list (bytes * bytes)).

Record BusMessage := mkMessage { headers : headers_map; body : bytes }.

Definition BusMessage_new : BusMessage := mkMessage [] [].
Definition with_header (m : BusMessage) (key value : bytes) : BusMessage :=
  mkMessage (bt_insert key value (headers m)) (body m).
Definition with_body (m : BusMessage) (b : bytes) : BusMessage := mkMessage (headers m) b.
Definition set (m : BusMessage) (key value : bytes) : BusMessage := with_header m key value.
Definition get (m : BusMessage) (key : bytes) : option bytes := bt_get key (headers m).
Definition command (hs : list (bytes * bytes)) : BusMessage :=
  mkMessage (foldl (fun acc kv => bt_insert (fst kv) (snd kv) acc) [] hs) [].

Definition is_nil (s : bytes) : bool := match s with [] => true | _ => false end.
Definition is_empty_message (m : BusMessage) : bool :=
  match headers m with [] => is_nil (body m) | _ => false end.

Definition is_ui_command (m : BusMessage) : bool :=
  match get m (bs "command") with Some c => starts_with (bs "ui.") c | None => false end.

(** [to_wire] *)
Definition FENCE : bytes := bs "---" ++ [NL].
Definition header_text (kv : bytes * bytes) : bytes := fst kv ++ bs ": " ++ snd kv.
Definition to_wire (m : BusMessage) : bytes :=
  FENCE ++ concat (map (fun kv => header_text kv ++ [NL]) (headers m)) ++ FENCE ++
  (if is_nil (body m) then []
   else body m ++ (if ends_with [NL] (body m) then [] else [NL])).

(** ** Parsing *)

Definition MAX_MESSAGE_BYTES : Z := 16 * 1024 * 1024.
Definition MAX_HEADERS : nat := 4096.

Record ParseReport := mkReport {
  skipped_lines : list (nat * bytes);
  json_parse_errors : list (bytes * bytes) }.
Definition empty_report : ParseReport := mkReport [] [].
Definition report_is_empty (r : ParseReport) : bool :=
  match skipped_lines r, json_parse_errors r with [], [] => true | _, _ => false end.
Definition push_skipped (r : ParseReport) (idx : nat) (l : bytes) : ParseReport :=
  mkReport (skipped_lines r ++ [(idx, l)]) (json_parse_errors r).
Definition push_json (r : ParseReport) (key val : bytes) : ParseReport :=
  mkReport (skipped_lines r) (json_parse_errors r ++ [(key, val)]).

(** What the errors of the parsers carry. *)
Inductive ParseError :=
| MissingFence (shown : bytes)
| NonCompliant (skipped jsons : nat) (first : option (nat * bytes + bytes * bytes)).

Definition OVERFLOW_NOTE : bytes := bs "header line count exceeds 4096; remaining lines skipped".

(** The header block and the body of what follows the opening fence. *)
Definition split_blocks (content : bytes) : bytes * bytes :=
  match split_once_str (NL :: FENCE) content with
  | Some (h, b) => (h, b)
  | None =>
    (match strip_suffix (NL :: FENCE) content with
     | Some h => h
     | None =>
       match strip_suffix (NL :: bs "---") content with
       | Some h => h
       | None =>
         match strip_suffix FENCE content with
         | Some h => h
         | None => match strip_suffix (bs "---") content with Some h => h | None => content end
         end
       end
     end, [])
  end.

Section json.
(** [serde_json::from_str::<Value>], [Value::get] and [Value::as_str]. *)
Context {J : Type} (from_str : bytes -> option J) (j_get : J -> bytes -> option J) (as_str : J -> option bytes).

Definition json_err (s : bytes) : bool := match from_str s with Some _ => false | None => true end.

(** The first character that is not white space is [\[] or [{]. *)
Definition json_like (val : bytes) : bool :=
  match List.find (fun c => negb (is_whitespace c)) (chars val) with
  | Some [x5b] | Some [x7b] => true
  | _ => false
  end.

(** One header line. *)
Definition parse_line (idx : nat) (line : bytes) (hs : headers_map) (rep : ParseReport) :
    headers_map * ParseReport :=
  match split_once_str (bs ": ") line with
  | Some (k, v) =>
    let key := trim k in let val := trim v in
    let rep := if starts_ws line || is_nil key || has_whitespace key
               then push_skipped rep (idx + 1) line else rep in
    let rep := if json_like val && json_err val then push_json rep key val else rep in
    (bt_insert key val hs, rep)
  | None => (hs, push_skipped rep (idx + 1) line)
  end.

Fixpoint parse_headers (idx processed : nat) (ls : list bytes) (hs : headers_map) (rep : ParseReport) :
    headers_map * ParseReport :=
  match ls with
  | [] => (hs, rep)
  | line :: ls' =>
    if is_nil line then parse_headers (S idx) processed ls' hs rep
    else if MAX_HEADERS <=? processed then (hs, push_skipped rep (idx + 1) OVERFLOW_NOTE)
    else let '(hs', rep') := parse_line idx line hs rep in
         parse_headers (S idx) (S processed) ls' hs' rep'
  end.

Definition parse_lenient (raw : bytes) : option (result (BusMessage * ParseReport) ParseError) :=
  match strip_prefix FENCE raw with
  | None =>
    let n := Nat.min (length raw) 40 in
    if is_boundary raw n then Some (Err (MissingFence (take n raw))) else None
  | Some content =>
    let '(header_block, b) := split_blocks content in
    let '(hs, rep) := parse_headers 0 0 (lines header_block) [] empty_report in
    Some (Ok (mkMessage hs (trim_end b), rep))
  end.

Definition parse_strict (raw : bytes) : option (result BusMessage ParseError) :=
  match parse_lenient raw with
  | None => None
  | Some (Err e) => Some (Err e)
  | Some (Ok (msg, report)) =>
    Some (if report_is_empty report then Ok msg
          else Err (NonCompliant (length (skipped_lines report)) (length (json_parse_errors report))
                 (head (map inl (skipped_lines report) ++ map inr (json_parse_errors report)))))
  end.

Definition parse (raw : bytes) : option (result BusMessage ParseError) :=
  match parse_lenient raw with
  | None => None
  | Some (Err e) => Some (Err e)
  | Some (Ok (msg, _)) => Some (Ok msg)
  end.

(** What [read_from_stream] does with the bytes read up to EOF ([take]n one past
    the limit). *)
Inductive ReadError := EmptyMessage | TooLong | NotUtf8 | Unparsable (e : ParseError).
Definition read_message (buf : bytes) : option (result BusMessage ReadError) :=
  if is_nil buf then Some (Err EmptyMessage)
  else if exceeds (length buf) MAX_MESSAGE_BYTES then Some (Err TooLong)
  else if negb (from_utf8_ok buf) then Some (Err NotUtf8)
  else option_map (map_err Unparsable) (parse buf).

(** [error_message] *)
Definition error_message (m : BusMessage) : bytes :=
  match get m (bs "error") with
  | Some e => e
  | None =>
    let b := trim (body m) in
    if negb (is_nil b) then
      match from_str b with
      | Some v =>
        match (j ← j_get v (bs "error_code"); as_str j), (j ← j_get v (bs "message"); as_str j) with
        | Some code, Some message => code ++ bs ": " ++ message
        | _, _ => match (j ← j_get v (bs "error"); as_str j) with Some e => e | None => b end
        end
      | None => b
      end
    else bs "unknown error"
  end.

(** ** Validation *)

Inductive Warning :=
| UnknownHeader (key : bytes) | InvalidType (t : bytes) | ArgsNotJson | JsonNotJson
| RcNotInteger (rc : bytes) | TtlNotInteger (ttl : bytes).

Definition KNOWN_HEADERS : list bytes :=
  map bs ["bus"; "type"; "id"; "from"; "to"; "command"; "args"; "json"; "reply-to"; "ttl"; "error";
    "timestamp"; "rc";
    "parent"; "title"; "width"; "height"; "position"; "decorations"; "layer"; "sticky";
    "layout"; "gap"; "padding"; "align"; "scrollable"; "overflow";
    "background"; "text_color"; "border_color"; "border_width"; "border_radius"; "font_size"; "opacity";
    "target"; "source"; "name"; "source_peer"; "permissions"]%string.
Definition VALID_TYPES : list bytes := map bs ["request"; "response"; "event"; "stream"]%string.

Definition contains (l : list bytes) (x : bytes) : bool := existsb (fun y => bool_decide (x = y)) l.

Definition U8_MAX : N := 255.
Definition U32_MAX : N := 2 ^ 32 - 1.

Definition warn_if {A} (o : option A) (bad : A -> bool) (w : A -> Warning) : list Warning :=
  match o with Some x => if bad x then [w x] else [] | None => [] end.

Definition validate (m : BusMessage) : list Warning :=
  if is_empty_message m then []
  else map UnknownHeader (filter (fun k => contains KNOWN_HEADERS k = false) (map fst (headers m))) ++
    warn_if (get m (bs "type")) (fun t => negb (contains VALID_TYPES t)) InvalidType ++
    warn_if (get m (bs "args")) json_err (fun _ => ArgsNotJson) ++
    warn_if (get m (bs "json")) json_err (fun _ => JsonNotJson) ++
    warn_if (get m (bs "rc")) (fun r => bool_decide (parse_unsigned U8_MAX r = None)) RcNotInteger ++
    warn_if (get m (bs "ttl")) (fun t => bool_decide (parse_unsigned U32_MAX t = None)) TtlNotInteger.
End json.

(** ** Header lines *)

Lemma is_nil_false s : is_nil s = false <-> s <> [].
Proof. by destruct s. Qed.

(** The separator [": "] after a text without spaces is found where it is. *)
Lemma split_sep k v : x20 ∉ k -> split_once_str (bs ": ") (k ++ bs ": " ++ v) = Some (k, v).
Proof.
  change (bs ": ") with [x3a; x20]. induction k as [|b k IH]; intros Hk; [done|].
  apply not_elem_of_cons in Hk as [Hb Hk]. cbn [app split_once_str].
  assert (strip_prefix [x3a; x20] (b :: k ++ x3a :: x20 :: v) = None) as ->.
  { cbn [strip_prefix]. destruct (Byte.eqb x3a b) eqn:E1; [|done].
    destruct k as [|c k]; cbn [strip_prefix app]; [done|]. apply not_elem_of_cons in Hk as [Hc _].
    assert (Byte.eqb x20 c = false) as -> by by apply byte_eqb_ne. done. }
  cbn [app] in IH. by rewrite IH.
Qed.

(** Texts of one line separated by newlines agree line by line. *)
Lemma line_eq a b x y : NL ∉ a -> NL ∉ b -> a ++ NL :: x = b ++ NL :: y -> a = b /\ x = y.
Proof.
  revert b; induction a as [|c a IH]; intros [|d b] Ha Hb; cbn.
  - by intros [= ->].
  - intros [= <- _]. set_solver.
  - intros [= -> _]. set_solver.
  - intros [= -> H]. apply not_elem_of_cons in Ha as [_ Ha]. apply not_elem_of_cons in Hb as [_ Hb].
    by destruct (IH b Ha Hb H) as [-> ->].
Qed.

(** The closing fence is found behind lines that are not fences. *)
Lemma split_fence ls rest :
  ls <> [] -> Forall (fun l => (NL ∉ l) /\ l <> bs "---") ls ->
  split_once_str (NL :: FENCE) (join_lines ls ++ (NL :: FENCE) ++ rest) = Some (join_lines ls, rest).
Proof.
  intros Hne F. induction F as [|l ls [Hl Hf] F IH]; [done|].
  destruct ls as [|l2 ls].
  - cbn [join_lines]. rewrite split_once_str_skip by done. cbn. by rewrite app_nil_r.
  - specialize (IH ltac:(done)). set (s := join_lines (l2 :: ls) ++ (NL :: FENCE) ++ rest) in *.
    change (join_lines (l :: l2 :: ls)) with (l ++ NL :: join_lines (l2 :: ls)).
    assert ((l ++ NL :: join_lines (l2 :: ls)) ++ (NL :: FENCE) ++ rest = l ++ NL :: s) as ->
      by (by rewrite <- app_assoc).
    rewrite split_once_str_skip, split_once_str_cons by done.
    assert (strip_prefix (NL :: FENCE) (NL :: s) = None) as ->; [|by rewrite IH].
    change (strip_prefix (NL :: FENCE) (NL :: s)) with (strip_prefix FENCE s).
    apply strip_prefix_None. intros r Er. apply Forall_cons in F as [[Hn2 Hf2] _]. apply Hf2.
    assert (exists s', s = l2 ++ NL :: s') as [s' Es].
    { unfold s. destruct ls as [|l3 ls].
      - exists (FENCE ++ rest). done.
      - exists (join_lines (l3 :: ls) ++ (NL :: FENCE) ++ rest).
        change (join_lines (l2 :: l3 :: ls)) with (l2 ++ NL :: join_lines (l3 :: ls)).
        by rewrite <- app_assoc. }
    rewrite Es in Er. unfold FENCE in Er. rewrite <- app_assoc in Er.
    apply line_eq in Er as [-> _]; [done|done|]. clear. set_solver.
Qed.

Section wire.
Context {J : Type} (from_str : bytes -> option J).
Implicit Types m : BusMessage.

(** A header the wire format can carry. *)
Record header_ok (kv : bytes * bytes) : Prop := {
  ho_key : utf8 (fst kv);
  ho_nonempty : fst kv <> [];
  ho_no_ws : has_whitespace (fst kv) = false;
  ho_val : utf8 (snd kv);
  ho_one_line : NL ∉ snd kv;
  ho_trimmed : trim (snd kv) = snd kv;
  ho_json : json_like (snd kv) = true -> json_err from_str (snd kv) = false }.

(** A message the wire format can carry. *)
Record message_ok m : Prop := {
  mo_sorted : bt_wf (headers m);
  mo_headers : Forall header_ok (headers m);
  mo_count : length (headers m) <= MAX_HEADERS;
  mo_body : utf8 (body m);
  mo_trimmed : trim_end (body m) = body m }.

Lemma trim_trim_end v : utf8 v -> trim v = v -> trim_end v = v.
Proof.
  intros Hv E. rewrite <- E at 2. rewrite <- E at 1. unfold trim at 1.
  apply trim_end_idem. by apply trim_start_chars in Hv as [? _].
Qed.

Lemma header_text_line kv :
  header_ok kv -> header_text kv <> [] /\ (NL ∉ header_text kv) /\ (forall r, header_text kv <> r ++ [CR]).
Proof.
  destruct kv as [k v]. intros [Hk Hne Hw Hv Hnl Ht _]. unfold header_text. cbn [fst snd] in *. split_and!.
  - by destruct k.
  - assert (NL ∉ k) as H by (by apply no_ws_ascii). change (bs ": ") with [x3a; x20]. set_solver.
  - intros r E. change (bs ": ") with [x3a; x20] in E.
    destruct (decide (v = [])) as [->|Hv0].
    + rewrite app_nil_r in E. cbn in E. replace (k ++ [x3a; x20]) with ((k ++ [x3a]) ++ [x20]) in E by (by rewrite <- app_assoc).
      by apply app_inj_tail in E as [_ ?].
    + destruct (exists_last Hv0) as (v' & b & ->). rewrite !app_assoc in E. apply app_inj_tail in E as [_ ->].
      by apply (trim_end_last (v' ++ [CR]) CR) with v'; [|apply trim_trim_end|..].
Qed.

Lemma header_text_not_fence kv : header_text kv <> bs "---".
Proof.
  intros E. assert (x20 ∈ header_text kv) as H.
  { unfold header_text. change (bs ": ") with [x3a; x20]. set_solver. }
  rewrite E in H. revert H. change (bs "---") with [x2d; x2d; x2d]. set_solver.
Qed.

Lemma parse_line_ok idx kv hs rep :
  header_ok kv -> parse_line from_str idx (header_text kv) hs rep = (bt_insert (fst kv) (snd kv) hs, rep).
Proof.
  destruct kv as [k v]. intros [Hk Hne Hw Hv Hnl Ht Hj]. cbn [fst snd] in *. unfold parse_line, header_text. cbn [fst snd].
  rewrite split_sep by (by apply no_ws_ascii). rewrite (trim_no_ws k) by done. rewrite Ht.
  assert (starts_ws (k ++ bs ": " ++ v) = false) as ->.
  { unfold starts_ws. rewrite chars_app by done. unfold has_whitespace in Hw.
    destruct (chars k) as [|c cs] eqn:E; cbn in *; [|by apply orb_false_iff in Hw as [-> _]].
    pose proof (concat_chars k Hk) as K. rewrite E in K. by subst k. }
  rewrite (proj2 (is_nil_false k) Hne), Hw. cbn [orb].
  destruct (json_like v) eqn:El; [|done]. by rewrite Hj.
Qed.

Lemma parse_headers_ok idx processed hs acc rep :
  Forall header_ok hs -> processed + length hs <= MAX_HEADERS ->
  parse_headers from_str idx processed (map header_text hs) acc rep =
  (foldl (fun acc kv => bt_insert (fst kv) (snd kv) acc) acc hs, rep).
Proof.
  revert idx processed acc. induction hs as [|kv hs IH]; intros idx processed acc F Hn; [done|].
  apply Forall_cons in F as [Hkv F]. cbn [map parse_headers length] in *.
  destruct (header_text_line kv Hkv) as (Hne & _). rewrite (proj2 (is_nil_false _) Hne).
  assert ((MAX_HEADERS <=? processed) = false) as -> by lia.
  rewrite parse_line_ok by done. rewrite IH by (done || lia). done.
Qed.

Lemma concat_join hs :
  hs <> [] -> concat (map (fun kv => header_text kv ++ [NL]) hs) = join_lines (map header_text hs) ++ [NL].
Proof.
  intros Hne. induction hs as [|kv hs IH]; [done|]. destruct hs as [|kv2 hs].
  - cbn. by rewrite app_nil_r.
  - change (concat (map (fun kv => header_text kv ++ [NL]) (kv :: kv2 :: hs)))
      with ((header_text kv ++ [NL]) ++ concat (map (fun kv => header_text kv ++ [NL]) (kv2 :: hs))).
    rewrite IH by done.
    change (join_lines (map header_text (kv :: kv2 :: hs)))
      with (header_text kv ++ NL :: join_lines (map header_text (kv2 :: hs))).
    by rewrite <- !app_assoc.
Qed.

(** The body as the wire carries it and as it is read back. *)
Definition wire_body (b : bytes) : bytes :=
  if is_nil b then [] else b ++ (if ends_with [NL] b then [] else [NL]).

Lemma wire_body_trim b : utf8 b -> trim_end b = b -> trim_end (wire_body b) = b.
Proof.
  intros Hb Ht. unfold wire_body. destruct (is_nil b) eqn:E; [by destruct b|].
  unfold ends_with. destruct (strip_suffix [NL] b); [by rewrite app_nil_r|]. by rewrite trim_end_app_ws.
Qed.

Lemma split_blocks_wire hs rest :
  hs <> [] -> Forall header_ok hs ->
  split_blocks (concat (map (fun kv => header_text kv ++ [NL]) hs) ++ FENCE ++ rest) =
  (join_lines (map header_text hs), rest).
Proof.
  intros Hne F. unfold split_blocks. rewrite concat_join by done. rewrite <- app_assoc.
  change ([NL] ++ FENCE ++ rest) with ((NL :: FENCE) ++ rest). rewrite split_fence; [done|by destruct hs|].
  apply Forall_map. eapply Forall_impl; [exact F|]. intros kv H.
  split; [by apply header_text_line|apply header_text_not_fence].
Qed.

(** Serialising and parsing: what [message_ok] allows comes back unchanged. *)
Lemma wire_parse m :
  message_ok m -> headers m <> [] \/ body m = [] ->
  parse_lenient from_str (to_wire m) = Some (Ok (m, empty_report)).
Proof.
  intros [Hs Hh Hn Hb Ht] Hcase. unfold parse_lenient, to_wire. rewrite strip_prefix_app.
  fold (wire_body (body m)). destruct m as [hs b]. cbn [headers body] in *.
  destruct (decide (hs = [])) as [->|Hne].
  - destruct Hcase as [| ->]; [done|]. reflexivity.
  - rewrite split_blocks_wire by done. rewrite lines_join.
    + rewrite parse_headers_ok by done. rewrite wire_body_trim by done.
      by rewrite (bt_of_sorted [] hs) by done.
    + apply Forall_map. eapply Forall_impl; [exact Hh|]. intros kv H. by apply header_text_line.
Qed.

(** ** What strict parsing accepts *)

Lemma report_empty r : report_is_empty r = true <-> r = empty_report.
Proof. destruct r as [[|] [|]]; cbn; split; (done || by intros [=]). Qed.

Lemma push_skipped_nonempty r i l : push_skipped r i l <> empty_report.
Proof. destruct r as [[|] ?]; by intros [=]. Qed.
Lemma push_json_nonempty r k v : push_json r k v <> empty_report.
Proof. destruct r as [? [|]]; by intros [=]. Qed.

Lemma parse_line_strict idx line hs rep hs' :
  utf8 line -> NL ∉ line -> parse_line from_str idx line hs rep = (hs', empty_report) ->
  rep = empty_report /\ exists kv, header_ok kv /\ hs' = bt_insert (fst kv) (snd kv) hs.
Proof.
  unfold parse_line. intros Hu Hnl. destruct (split_once_str (bs ": ") line) as [[k v]|] eqn:E.
  2:{ intros [<- H]%pair_equal_spec. by apply push_skipped_nonempty in H. }
  apply split_once_str_Some in E as ->.
  apply utf8_pat_cut in Hu as [Uk Uv]; [|done..].
  destruct (starts_ws _ || is_nil (trim k) || has_whitespace (trim k)) eqn:Ew.
  { destruct (json_like (trim v) && _) eqn:Ej; intros [<- H]%pair_equal_spec;
      [by apply push_json_nonempty in H|by apply push_skipped_nonempty in H]. }
  destruct (json_like (trim v) && _) eqn:Ej; intros [<- H]%pair_equal_spec; [by apply push_json_nonempty in H|].
  split; [done|]. apply orb_false_iff in Ew as [[_ Ek]%orb_false_iff Ew].
  exists (trim k, trim v). split; [|done]. split; cbn [fst snd].
  - by apply trim_utf8.
  - by apply is_nil_false.
  - done.
  - by apply trim_utf8.
  - intros ?%trim_subset; [|done]. apply Hnl. set_solver.
  - by apply trim_idem.
  - intros El. by rewrite El in Ej.
Qed.

(** Parsing never removes an entry of the report. *)
Lemma parse_headers_report idx processed ls hs rep hs' :
  parse_headers from_str idx processed ls hs rep = (hs', empty_report) -> rep = empty_report.
Proof.
  revert idx processed hs rep. induction ls as [|l ls IH]; intros idx processed hs rep; cbn [parse_headers].
  { by intros [= _ ->]. }
  destruct (is_nil l); [apply IH|]. destruct (MAX_HEADERS <=? processed).
  { intros [_ H]%pair_equal_spec. by apply push_skipped_nonempty in H. }
  destruct (parse_line from_str idx l hs rep) as [hs1 rep1] eqn:E. intros H. apply IH in H as ->.
  revert E. unfold parse_line. destruct (split_once_str _ _) as [[k v]|].
  - cbn zeta. repeat case_match; intros [_ Hp]%pair_equal_spec;
      first [by apply push_json_nonempty in Hp|by apply push_skipped_nonempty in Hp|done].
  - intros [_ H]%pair_equal_spec. by apply push_skipped_nonempty in H.
Qed.

Lemma parse_headers_strict idx processed ls hs rep hs' :
  Forall (fun l => (NL ∉ l) /\ utf8 l) ls -> bt_wf hs -> Forall header_ok hs -> length hs <= processed <= MAX_HEADERS ->
  parse_headers from_str idx processed ls hs rep = (hs', empty_report) ->
  bt_wf hs' /\ Forall header_ok hs' /\ length hs' <= MAX_HEADERS.
Proof.
  revert idx processed hs rep. induction ls as [|l ls IH]; intros idx processed hs rep F Hs Ho Hn; cbn [parse_headers].
  { intros [= <- _]. split_and!; [done..|lia]. }
  apply Forall_cons in F as [[Hl Hu] F]. destruct (is_nil l); [by apply IH|].
  destruct (MAX_HEADERS <=? processed) eqn:Ep.
  { intros [_ H]%pair_equal_spec. by apply push_skipped_nonempty in H. }
  destruct (parse_line from_str idx l hs rep) as [hs1 rep1] eqn:E. intros H.
  pose proof (parse_headers_report _ _ _ _ _ _ H) as ->.
  apply parse_line_strict in E as (_ & kv & Hkv & ->); [|done..].
  pose proof (bt_insert_length (fst kv) (snd kv) hs).
  eapply IH; [done| | | |exact H]; [by apply bt_insert_wf|apply bt_insert_Forall; by destruct kv|lia].
Qed.

Lemma split_blocks_utf8 content h b : utf8 content -> split_blocks content = (h, b) -> utf8 h /\ utf8 b.
Proof.
  unfold split_blocks. intros Hu. destruct (split_once_str _ _) as [[h' b']|] eqn:E.
  { intros [= <- <-]. apply split_once_str_Some in E as ->. by apply utf8_pat_cut in Hu. }
  intros [= <- <-]. split; [|constructor].
  repeat (match goal with |- context [strip_suffix ?p content] =>
    let E := fresh "E" in destruct (strip_suffix p content) as [x|] eqn:E;
    [apply strip_suffix_Some in E; rewrite E in Hu; rewrite <- (app_nil_r p) in Hu; by apply utf8_pat_cut in Hu as [? _]|] end).
  done.
Qed.

Lemma strict_message_ok raw m : utf8 raw -> parse_strict from_str raw = Some (Ok m) -> message_ok m.
Proof.
  unfold parse_strict, parse_lenient. intros Hu. destruct (strip_prefix FENCE raw) as [content|] eqn:E.
  2:{ by destruct (is_boundary _ _). }
  apply strip_prefix_Some in E as ->. apply utf8_app_inv in Hu; [|by apply utf8_ascii].
  destruct (split_blocks content) as [h b] eqn:Eb. apply split_blocks_utf8 in Eb as [Uh Ub]; [|done].
  destruct (parse_headers _ _ _ _ _ _) as [hs rep] eqn:Eh. destruct (report_is_empty rep) eqn:Er; [|done].
  apply report_empty in Er as ->. intros [= <-].
  apply parse_headers_strict in Eh as (H1 & H2 & H3); [|by apply lines_ok|constructor|constructor|cbn; lia].
  split; cbn [headers body]; [done..| |]; [by apply trim_end_chars|by apply trim_end_idem].
Qed.

(** ** Bounds on lenient parsing *)

Lemma parse_line_grows idx line hs rep hs' rep' :
  parse_line from_str idx line hs rep = (hs', rep') ->
  length hs' <= S (length hs) /\ length (skipped_lines rep') <= S (length (skipped_lines rep)) /\
  length (json_parse_errors rep') <= S (length (json_parse_errors rep)).
Proof.
  unfold parse_line. destruct (split_once_str _ _) as [[k v]|].
  - pose proof (bt_insert_length (trim k) (trim v) hs). cbn zeta.
    repeat case_match; intros [= <- <-]; cbn; rewrite ?length_app; cbn; lia.
  - intros [= <- <-]. cbn. rewrite length_app. cbn. lia.
Qed.

(** The lines a header block counts. *)
Definition nonempty_lines (ls : list bytes) : nat := length (filter (fun l => is_nil l = false) ls).

Lemma parse_headers_bound idx processed ls hs rep hs' rep' :
  processed <= MAX_HEADERS -> parse_headers from_str idx processed ls hs rep = (hs', rep') ->
  let n := nonempty_lines ls in let room := MAX_HEADERS - processed in
  length hs' <= length hs + min n room /\ length (json_parse_errors rep') <= length (json_parse_errors rep) + min n room /\
  length (skipped_lines rep') <= length (skipped_lines rep) + min n (S room).
Proof.
  unfold nonempty_lines. revert idx processed hs rep. induction ls as [|l ls IH]; intros idx processed hs rep H0; cbn [parse_headers].
  { intros [= <- <-]. lia. }
  rewrite filter_cons. destruct (is_nil l); [rewrite decide_False by done; by apply IH|]. rewrite decide_True by done. cbn [length].
  destruct (Nat.leb_spec MAX_HEADERS processed) as [E|E].
  { intros [= <- <-]. cbn. rewrite length_app. cbn [length]. lia. }
  destruct (parse_line from_str idx l hs rep) as [hs1 rep1] eqn:El. apply parse_line_grows in El.
  intros H. apply IH in H; [|lia]. cbn zeta in H. lia.
Qed.

(** A line is read as a header or reported, and nothing read or reported before is lost. *)
Lemma parse_line_account idx line hs rep hs' rep' :
  parse_line from_str idx line hs rep = (hs', rep') ->
  (forall k, is_Some (bt_get k hs) -> is_Some (bt_get k hs')) /\ skipped_lines rep ⊆ skipped_lines rep' /\
  ((exists k v, split_once_str (bs ": ") line = Some (k, v) /\ is_Some (bt_get (trim k) hs')) \/
   (idx + 1, line) ∈ skipped_lines rep').
Proof.
  unfold parse_line. destruct (split_once_str _ _) as [[k v]|].
  - cbn zeta. intros [= <- <-]. split_and!.
    + intros k' Hk'. destruct (decide (k' = trim k)) as [->|Hne]; [rewrite bt_get_insert; by eexists|by rewrite bt_get_insert_ne].
    + repeat case_match; cbn; set_solver.
    + left. exists k, v. split; [done|]. rewrite bt_get_insert. by eexists.
  - intros [= <- <-]. cbn. split_and!; [done|set_solver|right]. apply elem_of_app. right. by left.
Qed.

Lemma parse_headers_account idx processed ls hs rep hs' rep' :
  processed <= MAX_HEADERS -> parse_headers from_str idx processed ls hs rep = (hs', rep') ->
  (forall k, is_Some (bt_get k hs) -> is_Some (bt_get k hs')) /\ skipped_lines rep ⊆ skipped_lines rep' /\
  forall i line, ls !! i = Some line -> line <> [] ->
    (exists k v, split_once_str (bs ": ") line = Some (k, v) /\ is_Some (bt_get (trim k) hs')) \/
    (idx + i + 1, line) ∈ skipped_lines rep' \/
    MAX_HEADERS < processed + nonempty_lines ls /\ exists j, j <= i /\ (idx + j + 1, OVERFLOW_NOTE) ∈ skipped_lines rep'.
Proof.
  unfold nonempty_lines. revert idx processed hs rep. induction ls as [|l ls IH]; intros idx processed hs rep H0; cbn [parse_headers].
  { intros [= <- <-]. split_and!; try done. }
  rewrite filter_cons. destruct (is_nil l) eqn:En.
  { rewrite decide_False by done. intros H. destruct (IH _ _ _ _ H0 H) as (K1 & K2 & K3). split_and!; [done|done|]. intros [|i] line Hl Hne; cbn in Hl.
    - injection Hl as <-. by destruct l.
    - destruct (K3 i line Hl Hne) as [?|[?|(? & j & ? & ?)]]; [by left|right; left; by replace (idx + S i + 1) with (S idx + i + 1) by lia|].
      right; right; split; [done|]; exists (S j). replace (idx + S j + 1) with (S idx + j + 1) by lia. split; [lia|done]. }
  rewrite decide_True by done. cbn [length]. destruct (Nat.leb_spec MAX_HEADERS processed) as [E|E].
  { intros [= <- <-]. cbn [skipped_lines push_skipped]. split_and!; [done|set_solver|]. intros i line _ _. right. right.
    split; [lia|]. exists 0. split; [lia|]. rewrite Nat.add_0_r. apply elem_of_app. right. by left. }
  destruct (parse_line from_str idx l hs rep) as [hs1 rep1] eqn:El. apply parse_line_account in El as (J1 & J2 & J3).
  intros H. destruct (IH (S idx) (S processed) hs1 rep1 ltac:(lia) H) as (K1 & K2 & K3). split_and!; [auto|set_solver|]. intros [|i] line Hl Hne; cbn in Hl.
  - injection Hl as <-. destruct J3 as [(k & v & Ek & Hk)|Hin]; [left; exists k, v; auto|]. right. left. rewrite Nat.add_0_r. by apply K2.
  - destruct (K3 i line Hl Hne) as [?|[?|(? & j & ? & ?)]]; [by left|right; left; by replace (idx + S i + 1) with (S idx + i + 1) by lia|].
    right; right; split; [lia|]; exists (S j). replace (idx + S j + 1) with (S idx + j + 1) by lia. split; [lia|done].
Qed.

(** ** A body without headers *)

Lemma fence_first_line h : exists ls, lines (FENCE ++ h) = bs "---" :: ls.
Proof.
  exists (lines h). unfold lines, FENCE. rewrite <- app_assoc, lines_from_skip by (clear; set_solver). done.
Qed.

(** A header block that opens with a fence line is not compliant. *)
Lemma fence_line_skipped ls : (parse_headers from_str 0 0 (bs "---" :: ls) [] empty_report).2 <> empty_report.
Proof.
  destruct (parse_headers _ _ _ _ _ _) as [hs rep] eqn:E. cbn [snd]. intros ->.
  change (parse_headers from_str 1 1 ls [] (push_skipped empty_report 1 (bs "---")) = (hs, empty_report)) in E.
  apply parse_headers_report in E. by apply push_skipped_nonempty in E.
Qed.

Lemma no_nl_fence : NL ∉ bs "---".
Proof. change (bs "---") with [x2d; x2d; x2d]. set_solver. Qed.

(** The head of a text that opens with a fence: part of its first line or past it. *)
Lemma fence_head x t w : x ++ t = FENCE ++ w -> (exists x2, x = FENCE ++ x2) \/ NL ∉ x.
Proof.
  intros E. destruct (split_once NL x) as [[x1 x2]|] eqn:Es.
  - left. assert (NL ∉ x1) as Hx1.
    { clear E. revert x1 x2 Es. induction x as [|b x IH]; intros x1 x2; cbn [split_once]; [done|].
      destruct (Byte.eqb b NL) eqn:Eb; [intros [= <- <-]; set_solver|].
      destruct (split_once NL x) as [[y1 y2]|]; [|done]. intros [= <- <-].
      apply byte_eqb_ne in Eb. pose proof (IH y1 y2 eq_refl). set_solver. }
    apply split_once_Some in Es as ->. unfold FENCE in E. rewrite <- !app_assoc in E. cbn [app] in E.
    apply line_eq in E as [-> _]; [|done|apply no_nl_fence]. exists x2. unfold FENCE. by rewrite <- app_assoc.
  - right. intros (a & b & ->)%list_elem_of_split. by apply split_once_has in Es.
Qed.

Lemma wire_body_last b : b <> [] -> exists w, wire_body b = w ++ [NL] /\ length w <= length b.
Proof.
  intros Hb. unfold wire_body. rewrite (proj2 (is_nil_false b) Hb). unfold ends_with.
  destruct (strip_suffix [NL] b) as [w|] eqn:E.
  - apply strip_suffix_Some in E as ->. exists w. rewrite app_nil_r, length_app. split; [done|lia].
  - exists b. done.
Qed.

(** The blocks of a headerless message with a body: its opening fence becomes a
    header line and at least that much is missing from the body. *)
Lemma split_blocks_headerless w h y :
  split_blocks (FENCE ++ w ++ [NL]) = (h, y) ->
  (h = bs "---" \/ exists h2, h = FENCE ++ h2) /\ (y = [] \/ length y + 4 <= length (w ++ [NL])).
Proof.
  unfold split_blocks. destruct (split_once_str (NL :: FENCE) _) as [[x z]|] eqn:E.
  { intros [= <- <-]. apply split_once_str_Some in E. symmetry in E. split.
    - destruct (fence_head _ _ _ E) as [|Hx]; [auto|]. left.
      unfold FENCE in E. rewrite <- !app_assoc in E. cbn [app] in E.
      by apply line_eq in E as [-> _]; [|done|apply no_nl_fence].
    - right. destruct (fence_head _ _ _ E) as [[h2 ->]|Hx].
      + apply (f_equal length) in E. rewrite !length_app in E. rewrite length_app. cbn [length] in *.
        change (length FENCE) with 4 in E. lia.
      + unfold FENCE in E. rewrite <- !app_assoc in E. cbn [app] in E.
        apply line_eq in E as [_ E]; [|done|apply no_nl_fence]. rewrite <- E, length_app. cbn. lia. }
  assert (forall r p b, FENCE ++ w ++ [NL] = r ++ p ++ [b] -> b = NL) as Hlast.
  { intros r p b K. rewrite !app_assoc in K. by apply app_inj_tail in K as [_ <-]. }
  intros [<- <-]%pair_equal_spec. split; [|auto].
  destruct (strip_suffix (NL :: FENCE) _) as [r|] eqn:E1.
  { exfalso. apply strip_suffix_Some in E1. apply (split_once_str_None _ _ E r []). by rewrite app_nil_r. }
  destruct (strip_suffix (NL :: bs "---") _) as [r|] eqn:E2.
  { exfalso. apply strip_suffix_Some in E2. by apply (Hlast r [NL; x2d; x2d] x2d) in E2. }
  destruct (strip_suffix FENCE _) as [r|] eqn:E3.
  { apply strip_suffix_Some in E3. destruct (fence_head r FENCE _ (eq_sym E3)) as [|Hr]; [auto|]. exfalso.
    unfold FENCE in E3. rewrite <- !app_assoc in E3. cbn [app] in E3.
    rewrite (app_assoc r) in E3. apply line_eq in E3 as [_ E3]; [by destruct w|apply no_nl_fence|].
    rewrite not_elem_of_app. split; [done|apply no_nl_fence]. }
  destruct (strip_suffix (bs "---") _) as [r|] eqn:E4; [|eauto].
  exfalso. apply strip_suffix_Some in E4. by apply (Hlast r [x2d; x2d] x2d) in E4.
Qed.

(** ** Claims *)

(** C37 The wire format round trip: a message of at most 4096 headers, whose keys
    are non-empty words, whose values are trimmed single lines that parse as JSON
    where they open like JSON, whose body ends in no white space, and which has a
    header or no body, serialises to a text every parser reads back as that
    message, with nothing to report. *)
Theorem wire_roundtrip m :
  message_ok m -> headers m <> [] \/ body m = [] ->
  parse_lenient from_str (to_wire m) = Some (Ok (m, empty_report)) /\
  parse_strict from_str (to_wire m) = Some (Ok m) /\ parse from_str (to_wire m) = Some (Ok m).
Proof.
  intros Hm Hc. pose proof (wire_parse m Hm Hc) as E. unfold parse_strict, parse. by rewrite E.
Qed.

(** Strict parsing is canonical: whatever text it accepts, the message it
    gives is one the wire format carries, so serialising that message and
    parsing it again gives it back. *)
Theorem strict_canonical raw m :
  utf8 raw -> parse_strict from_str raw = Some (Ok m) -> headers m <> [] \/ body m = [] ->
  message_ok m /\ parse_strict from_str (to_wire m) = Some (Ok m).
Proof.
  intros Hu Hp Hc. pose proof (strict_message_ok raw m Hu Hp) as Hm. split; [done|].
  unfold parse_strict. by rewrite (wire_parse m Hm Hc).
Qed.

(** C38 Parsing is bounded and drops nothing silently. A text that does not open
    with the fence is refused with its first forty bytes, except that the parser
    panics exactly when it is longer than that and byte 40 falls inside a
    character. A text that does is never refused: of the [n] non-empty lines of
    its header block at most 4096 become headers and at most 4096 JSON entries of
    the report, at most 4097 skipped-line entries, and never more than [n] of
    each; and each of those lines is a header of the message under its key, or is
    reported with its number, or comes, in a block of more than 4096, at or after
    a line where the report says that the rest was skipped. *)
Theorem parse_lenient_bounded raw :
  match parse_lenient from_str raw with
  | None => starts_with FENCE raw = false /\ 40 < length raw /\ is_boundary raw 40 = false
  | Some (Err e) =>
    starts_with FENCE raw = false /\ (length raw <= 40 \/ is_boundary raw 40 = true) /\ e = MissingFence (take 40 raw)
  | Some (Ok (m, rep)) =>
    exists content, raw = FENCE ++ content /\
    let ls := lines (split_blocks content).1 in let n := nonempty_lines ls in
    length (headers m) <= min n MAX_HEADERS /\ length (json_parse_errors rep) <= min n MAX_HEADERS /\
    length (skipped_lines rep) <= min n (S MAX_HEADERS) /\
    forall i line, ls !! i = Some line -> line <> [] ->
      (exists k v, split_once_str (bs ": ") line = Some (k, v) /\ is_Some (bt_get (trim k) (headers m))) \/
      (i + 1, line) ∈ skipped_lines rep \/
      MAX_HEADERS < n /\ exists j, j <= i /\ (j + 1, OVERFLOW_NOTE) ∈ skipped_lines rep
  end.
Proof.
  unfold parse_lenient, starts_with. destruct (strip_prefix FENCE raw) as [content|] eqn:E.
  - apply strip_prefix_Some in E. destruct (split_blocks content) as [h b] eqn:Es.
    destruct (parse_headers _ _ _ _ _ _) as [hs rep] eqn:Eh.
    exists content. split; [done|]. rewrite Es. cbn [fst headers].
    pose proof (parse_headers_bound 0 0 _ _ _ _ _ ltac:(lia) Eh) as (B1 & B2 & B3). rewrite Nat.sub_0_r in *.
    pose proof (parse_headers_account 0 0 _ _ _ _ _ ltac:(lia) Eh) as (_ & _ & A). by split_and!.
  - destruct (decide (length raw <= 40)) as [H|H].
    + rewrite Nat.min_l, is_boundary_len, !take_ge by lia. split_and!; [done|by left|done].
    + rewrite Nat.min_r by lia. destruct (is_boundary raw 40); split_and!; try done; [by right|lia].
Qed.

(** C39 A body without headers does not survive: the serialised form of a message
    with a body and no headers parses to a message with a shorter body, reported
    as not compliant, and strict parsing refuses it. *)
Theorem headerless_body_lost b :
  utf8 b -> b <> [] ->
  exists m rep, parse_lenient from_str (to_wire (mkMessage [] b)) = Some (Ok (m, rep)) /\
    length (body m) < length b /\ rep <> empty_report /\
    exists e, parse_strict from_str (to_wire (mkMessage [] b)) = Some (Err e).
Proof.
  intros Hu Hb. destruct (wire_body_last b Hb) as (w & Ew & Hw).
  assert (exists m rep, parse_lenient from_str (to_wire (mkMessage [] b)) = Some (Ok (m, rep)) /\
    length (body m) < length b /\ rep <> empty_report) as (m & rep & E & H1 & H2).
  - unfold parse_lenient, to_wire. rewrite strip_prefix_app. cbn [headers body map concat app].
    fold (wire_body b). destruct (split_blocks (FENCE ++ wire_body b)) as [h y] eqn:Es.
    assert (utf8 (FENCE ++ wire_body b)) as Uc.
    { apply utf8_app; [by apply utf8_ascii|]. unfold wire_body. case_match; [constructor|].
      apply utf8_app; [done|]. case_match; [constructor|by apply utf8_scalar]. }
    pose proof (split_blocks_utf8 _ _ _ Uc Es) as [_ Uy].
    rewrite Ew in Es. apply split_blocks_headerless in Es as [Hh Hy].
    assert (exists ls, lines h = bs "---" :: ls) as [ls El].
    { destruct Hh as [->|[h2 ->]]; [by exists []|apply fence_first_line]. }
    rewrite El. pose proof (fence_line_skipped ls) as Hr.
    destruct (parse_headers _ _ _ _ _ _) as [hs rep]. do 2 eexists. split; [done|]. split; [|done].
    cbn [body]. destruct (trim_end_prefix y Uy) as [z Ez].
    assert (length (trim_end y) <= length y) as Hlen by (rewrite Ez at 2; rewrite length_app; lia).
    destruct Hy as [->|Hy]; [destruct b; [done|cbn; lia]|]. rewrite length_app in Hy. cbn in Hy. lia.
  - exists m, rep. split_and!; [done..|]. unfold parse_strict. rewrite E.
    destruct (report_is_empty rep) eqn:Er; [by apply report_empty in Er|eauto].
Qed.
End wire.

(** ** Witnesses *)

Definition any_json (s : bytes) : option unit := Some tt.
Definition sample_message : BusMessage :=
  mkMessage [(bs "args", bs "{}"); (bs "command", bs "edit.apply"); (bs "to", bs "editd.alpha.bus")] (bs "hello").

Lemma one_line s : forallb (fun b => negb (is_nl b)) s = true -> NL ∉ s.
Proof. rewrite forallb_forall. intros H Hin. apply list_elem_of_In, H in Hin. done. Qed.

Lemma sample_message_ok : message_ok any_json sample_message.
Proof.
  split; cbn [headers body sample_message].
  - repeat constructor.
  - repeat (apply Forall_cons; split); [..|constructor]; (split; cbn [fst snd];
      [by apply utf8_ascii|done|done|by apply utf8_ascii|by apply one_line|done|done]).
  - cbn. unfold MAX_HEADERS. lia.
  - by apply utf8_ascii.
  - done.
Qed.

Lemma wire_roundtrip_witness :
  parse_lenient any_json (to_wire sample_message) = Some (Ok (sample_message, empty_report)).
Proof. apply (wire_roundtrip any_json sample_message sample_message_ok). by left. Defined.

Definition sample_raw : bytes := bs "---" ++ NL :: bs "to:   a.b " ++ NL :: bs "---" ++ [NL].
Definition sample_to : BusMessage := mkMessage [(bs "to", bs "a.b")] [].

Lemma strict_canonical_witness :
  parse_strict any_json sample_raw = Some (Ok sample_to) /\
  parse_strict any_json (to_wire sample_to) = Some (Ok sample_to).
Proof.
  assert (parse_strict any_json sample_raw = Some (Ok sample_to)) as E by reflexivity.
  split; [exact E|]. apply (strict_canonical any_json sample_raw sample_to (utf8_ascii sample_raw eq_refl) E). by left.
Defined.

Lemma headerless_body_lost_witness :
  exists m rep, parse_lenient any_json (to_wire (mkMessage [] (bs "hello"))) = Some (Ok (m, rep)) /\
    length (body m) < 5.
Proof.
  destruct (headerless_body_lost any_json (bs "hello") (utf8_ascii (bs "hello") eq_refl) ltac:(done)) as (m & rep & H1 & H2 & _).
  exists m, rep. by split.
Defined.

(** A text whose fortieth byte is inside a two-byte character: rejecting it panics. *)
Definition panicking_input : bytes := List.repeat x61 39 ++ [xc3; xa9].
(** A block with a header, a header under a key with a space, and a line that is none. *)
Definition mixed_input : bytes :=
  FENCE ++ bs "to: a.b" ++ NL :: bs "a key: [1" ++ NL :: bs "- item" ++ NL :: FENCE.

Lemma parse_lenient_bounded_witness :
  (exists m rep, parse_lenient (fun _ => None (A := unit)) mixed_input = Some (Ok (m, rep)) /\
     length (headers m) = 2 /\ skipped_lines rep = [(2, bs "a key: [1"); (3, bs "- item")] /\
     length (json_parse_errors rep) <= 3) /\
  40 < length panicking_input /\ is_boundary panicking_input 40 = false.
Proof.
  split.
  - destruct (parse_lenient (fun _ => None (A := unit)) mixed_input) as [[[m rep]|e]|] eqn:E; [|discriminate E..].
    pose proof (parse_lenient_bounded (fun _ => None (A := unit)) mixed_input) as K. rewrite E in K.
    destruct K as (c & Ec & _ & K & _). apply (app_inv_head FENCE) in Ec. subst c.
    exists m, rep. split; [exact eq_refl|]. injection E as <- <-. split_and!; [reflexivity|reflexivity|exact (Nat.le_trans _ _ _ K (Nat.le_min_l _ _))].
  - exact (proj2 (parse_lenient_bounded any_json panicking_input)).
Defined.

Lemma panicking_input_panics : utf8 panicking_input /\ parse any_json panicking_input = None.
Proof. split; [by apply from_utf8_ok_iff|reflexivity]. Qed.
