(* ===== verification/BusAddress.v ===== *)
(** * Bus addresses ([cosmix-lib-bus/src/bus.rs])

    Local addresses [<sub>.<service>.<node>.bus] with the [.bus] suffix optional
    where there is more than one label, and targets that add [@<mesh-fqdn>].
    Parsing and printing are shown inverse, and the accepted strings are
    described exactly. *)

From S2P Require Import Prelude Utf8 Str.

Definition MAX_LABEL_LEN : nat := 63.
Definition MAX_ADDRESS_LEN : nat := 253.

Record BusAddress := mkAddress { sub : option bytes; service : option bytes; node : bytes }.

Inductive BusTarget :=
| Local (a : BusAddress)
| CrossMesh (local : BusAddress) (mesh_fqdn : bytes).

Definition DOT : byte := x2e.
Definition AT : byte := x40.
Definition HYPHEN : byte := x2d.
Definition label_byte (b : byte) : bool := is_ascii_lowercase b || is_ascii_digit b || Byte.eqb b HYPHEN.

(** [is_valid_label] *)
Definition is_valid_label (label : bytes) : bool :=
  match label with
  | [] => false
  | b0 :: _ =>
    if MAX_LABEL_LEN <? length label then false
    else if Byte.eqb b0 HYPHEN || Byte.eqb (List.last label x00) HYPHEN then false
    else forallb label_byte label
  end.

(** [s.contains(c)] for an ASCII character. *)
Definition contains_byte (c : byte) (s : bytes) : bool := existsb (Byte.eqb c) s.

Definition is_empty (s : bytes) : bool := match s with [] => true | _ => false end.

(** [validate_mesh_fqdn] *)
Definition validate_mesh_fqdn (fqdn : bytes) : option bytes :=
  if is_empty fqdn || (MAX_ADDRESS_LEN <? length fqdn) then None
  else if negb (contains_byte DOT fqdn) || ends_with [DOT] fqdn then None
  else if forallb (fun l => is_valid_label l && negb (starts_with (bs "xn--") l)) (split_char DOT fqdn)
       then Some fqdn else None.

(** The labels of an address stripped of its suffix. *)
Definition parse_parts (parts : list bytes) (had_bus_suffix : bool) : option BusAddress :=
  if existsb is_empty parts || (3 <? length parts) then None
  else if negb (forallb is_valid_label parts) then None
  else match parts with
       | [n] => if had_bus_suffix then Some (mkAddress None None n) else None
       | [s; n] => Some (mkAddress None (Some s) n)
       | [u; s; n] => Some (mkAddress (Some u) (Some s) n)
       | _ => None
       end.

(** [BusAddress::parse_local] *)
Definition parse_local (s : bytes) : option BusAddress :=
  if is_empty s || contains_byte AT s then None
  else
    let '(stem, had_bus_suffix) :=
      match strip_suffix (bs ".bus") s with Some stripped => (stripped, true) | None => (s, false) end in
    if is_empty stem then None else parse_parts (split_char DOT stem) had_bus_suffix.

(** [BusTarget::parse] *)
Definition parse_target (s : bytes) : option BusTarget :=
  if is_empty s || (MAX_ADDRESS_LEN <? length s) then None
  else
    match split_once AT s with
    | Some (l, r) =>
      if contains_byte AT r || is_empty r || is_empty l then None
      else match parse_local l with
           | None => None
           | Some local =>
             match validate_mesh_fqdn r with Some n => Some (CrossMesh local n) | None => None end
           end
    | None => match parse_local s with Some local => Some (Local local) | None => None end
    end.

Definition target_local (t : BusTarget) : BusAddress :=
  match t with Local a => a | CrossMesh a _ => a end.
Definition is_cross_mesh (t : BusTarget) : bool :=
  match t with Local _ => false | CrossMesh _ _ => true end.
Definition is_for_node (a : BusAddress) (node_name : bytes) : bool := bool_decide (node a = node_name).

(** [impl Display for BusAddress], [impl Display for BusTarget] *)
Definition dotted (o : option bytes) : bytes := match o with Some x => x ++ [DOT] | None => [] end.
Definition address_stem (a : BusAddress) : bytes := dotted (sub a) ++ dotted (service a) ++ node a.
Definition address_to_string (a : BusAddress) : bytes := address_stem a ++ bs ".bus".
Definition target_to_string (t : BusTarget) : bytes :=
  match t with
  | Local a => address_to_string a
  | CrossMesh a f => address_to_string a ++ AT :: f
  end.

(** ** The addresses parsing can give *)

Definition address_ok (a : BusAddress) : Prop :=
  is_valid_label (node a) = true /\
  match service a with Some s => is_valid_label s = true | None => sub a = None end /\
  match sub a with Some u => is_valid_label u = true | None => True end.

Definition fqdn_ok (f : bytes) : Prop := validate_mesh_fqdn f = Some f.

Lemma contains_byte_false c s : contains_byte c s = false <-> c ∉ s.
Proof.
  unfold contains_byte. rewrite <- not_true_iff_false, existsb_exists. split.
  - intros H Hin. apply H. exists c. split; [by apply list_elem_of_In|apply byte_eqb_refl].
  - intros H (x & Hx & E%byte_eqb_eq). subst. by apply list_elem_of_In in Hx.
Qed.

Lemma label_not_byte c l : label_byte c = false -> is_valid_label l = true -> c ∉ l.
Proof.
  unfold is_valid_label. intros Hc. destruct l as [|b0 l]; [done|].
  destruct (_ <? _); [done|]. destruct (_ || _); [done|]. rewrite forallb_forall.
  intros H Hin. apply list_elem_of_In, H in Hin. congruence.
Qed.

Lemma label_nonempty l : is_valid_label l = true -> l <> [].
Proof. by destruct l. Qed.

Lemma label_length l : is_valid_label l = true -> 1 <= length l <= 63.
Proof.
  unfold is_valid_label, MAX_LABEL_LEN. destruct l as [|b l]; [done|]. destruct (_ <? _) eqn:E; [done|]. cbn [length] in *. lia.
Qed.

(** ** Labels joined by dots *)

Lemma split_char_none c s : c ∉ s -> split_char c s = [s].
Proof.
  induction s as [|b s IH]; [done|]. intros [Hb Hs]%not_elem_of_cons. cbn [split_char].
  assert (Byte.eqb b c = false) as -> by (apply byte_eqb_ne; congruence). by rewrite IH.
Qed.

Lemma split_char_cons c l s : c ∉ l -> split_char c (l ++ c :: s) = l :: split_char c s.
Proof.
  induction l as [|b l IH]; intros Hl; cbn [app split_char].
  - by rewrite byte_eqb_refl.
  - apply not_elem_of_cons in Hl as [Hb Hl].
    assert (Byte.eqb b c = false) as -> by (apply byte_eqb_ne; congruence). by rewrite IH.
Qed.

Lemma split_char_join c s ls :
  split_char c s = ls ->
  match ls with
  | [a] => s = a
  | [a; b] => s = a ++ c :: b
  | [a; b; d] => s = a ++ c :: b ++ c :: d
  | _ => True
  end /\ ls <> [].
Proof.
  revert ls; induction s as [|x s IH]; intros ls; cbn [split_char]; [by intros <-|].
  destruct (Byte.eqb x c) eqn:E.
  - apply byte_eqb_eq in E as ->. intros <-. split; [|done].
    destruct (IH _ eq_refl) as [H Hne]. destruct (split_char c s) as [|a [|b [|d [|e ?]]]]; naive_solver.
  - destruct (IH _ eq_refl) as [H Hne]. destruct (split_char c s) as [|a [|b [|d [|e ?]]]]; intros <-; naive_solver.
Qed.

(** A byte of the string other than the separator is in one of the parts. *)
Lemma split_char_elem c b s : b <> c -> b ∈ s -> exists l, l ∈ split_char c s /\ b ∈ l.
Proof.
  intros Hbc. induction s as [|x s IH]; cbn [split_char]; [by intros ?%not_elem_of_nil|].
  intros Hin. destruct (split_char_join c s _ eq_refl) as [_ Hne]. destruct (Byte.eqb x c) eqn:E.
  - apply byte_eqb_eq in E as ->. apply elem_of_cons in Hin as [?|Hin]; [done|].
    destruct (IH Hin) as (l & Hl & ?). exists l. split; [by apply elem_of_cons; right|done].
  - destruct (split_char c s) as [|p ps]; [done|]. apply elem_of_cons in Hin as [->|Hin].
    + exists (x :: p). split; [by apply elem_of_cons; left|set_solver].
    + destruct (IH Hin) as (l & Hl & ?). apply elem_of_cons in Hl as [->|Hl].
      * exists (x :: p). split; [by apply elem_of_cons; left|set_solver].
      * exists l. split; [by apply elem_of_cons; right|done].
Qed.

Lemma dot_not_label : label_byte DOT = false. Proof. reflexivity. Qed.
Lemma at_not_label : label_byte AT = false. Proof. reflexivity. Qed.

(** The labels of a well-formed address. *)
Definition labels (a : BusAddress) : list bytes :=
  match sub a, service a with
  | Some u, Some s => [u; s; node a]
  | None, Some s => [s; node a]
  | _, None => [node a]
  end.

Lemma labels_valid a : address_ok a -> forallb is_valid_label (labels a) = true.
Proof.
  intros (Hn & Hs & Hu). unfold labels.
  destruct (sub a), (service a); cbn; rewrite ?Hn, ?Hs, ?Hu; done.
Qed.

Lemma stem_split a : address_ok a -> split_char DOT (address_stem a) = labels a.
Proof.
  intros (Hn & Hs & Hu). unfold address_stem, labels, dotted.
  pose proof (fun l => label_not_byte DOT l dot_not_label) as D.
  destruct (sub a) as [u|], (service a) as [s|]; try done; cbn [app];
    rewrite <- ?app_assoc; cbn [app]; rewrite ?split_char_cons by auto; rewrite split_char_none by auto; done.
Qed.

Lemma stem_no_at a : address_ok a -> AT ∉ address_stem a.
Proof.
  intros (Hn & Hs & Hu). pose proof (fun l => label_not_byte AT l at_not_label) as D.
  unfold address_stem, dotted. rewrite !not_elem_of_app.
  split_and!; [destruct (sub a)|destruct (service a)|by apply D]; rewrite ?not_elem_of_app, ?not_elem_of_cons;
    try (split; [by apply D|split; [done|]]); apply not_elem_of_nil.
Qed.

Lemma stem_nonempty a : address_ok a -> address_stem a <> [].
Proof.
  intros (Hn%label_nonempty & _) H. unfold address_stem in H.
  apply app_eq_nil in H as [_ H]. by apply app_eq_nil in H as [_ H].
Qed.

(** From the labels of a stem back to the address. *)
Lemma parse_stem stem had a :
  stem <> [] ->
  parse_parts (split_char DOT stem) had = Some a <->
  address_ok a /\ stem = address_stem a /\ (had = false -> service a <> None).
Proof.
  intros Hne. unfold parse_parts. split.
  - destruct (existsb _ _ || _) eqn:E; [done|]. destruct (forallb _ _) eqn:F; cbn [negb]; [|done].
    destruct (split_char_join DOT stem _ eq_refl) as [J _].
    destruct (split_char DOT stem) as [|x [|y [|z [|? ?]]]]; try done; cbn in F;
      repeat apply andb_prop in F as [? F]; [destruct had; [|done]|..]; intros [= <-];
      (split_and!; cbn; [by split_and!|subst; unfold address_stem, dotted; cbn; by rewrite <- ?app_assoc|done]).
  - intros (Ha & -> & Hh). pose proof (stem_split a Ha) as Es. rewrite Es.
    pose proof (labels_valid a Ha) as F.
    assert (existsb is_empty (labels a) = false) as ->.
    { apply not_true_iff_false. intros (x & Hx & E)%existsb_exists. rewrite forallb_forall in F.
      apply F in Hx. by destruct x. }
    rewrite F. destruct Ha as (_ & Hs & _). destruct a as [[u|] [s|] n]; unfold labels; cbn in *; try done.
    destruct had; [done|]. by destruct (Hh eq_refl).
Qed.

Lemma is_empty_false s : is_empty s = false <-> s <> [].
Proof. by destruct s. Qed.

Lemma bus_no_at : AT ∉ bs ".bus".
Proof. change (bs ".bus") with [x2e; x62; x75; x73]. set_solver. Qed.

Lemma parse_local_spec s a :
  parse_local s = Some a <->
  address_ok a /\ (s = address_to_string a \/
    s = address_stem a /\ service a <> None /\ strip_suffix (bs ".bus") s = None).
Proof.
  unfold parse_local. split.
  - destruct (is_empty s || contains_byte AT s); [done|].
    destruct (strip_suffix (bs ".bus") s) as [stem|] eqn:Es.
    + apply strip_suffix_Some in Es as ->. destruct (is_empty stem) eqn:Ee; [done|].
      intros H. apply parse_stem in H as (Ha & -> & _); [|by apply is_empty_false]. auto.
    + destruct (is_empty s) eqn:Ee; [done|].
      intros H. apply parse_stem in H as (Ha & -> & Hs); [|by apply is_empty_false]. auto 6.
  - intros [Ha Hs]. pose proof (stem_no_at a Ha) as Hat. pose proof (stem_nonempty a Ha) as Hne.
    assert (s <> [] /\ AT ∉ s) as [Hs0 Hsat].
    { destruct Hs as [->|[-> _]]; [|done]. unfold address_to_string. rewrite not_elem_of_app.
      split; [|split; [done|apply bus_no_at]]. by destruct (address_stem a). }
    rewrite (proj2 (is_empty_false s) Hs0), (proj2 (contains_byte_false AT s) Hsat). cbn [orb].
    destruct Hs as [->|(-> & Hsv & Hnone)].
    + unfold address_to_string. rewrite strip_suffix_app, (proj2 (is_empty_false _) Hne).
      by apply parse_stem.
    + rewrite Hnone, (proj2 (is_empty_false _) Hne). by apply parse_stem.
Qed.

Lemma split_once_None_iff c s : split_once c s = None <-> c ∉ s.
Proof.
  split.
  - intros H (x & y & ->)%list_elem_of_split. by apply split_once_has in H.
  - intros H. destruct (split_once c s) as [[x y]|] eqn:E; [|done]. apply split_once_Some in E as ->. set_solver.
Qed.

Lemma fqdn_no_at f : fqdn_ok f -> (AT ∉ f) /\ f <> [].
Proof.
  unfold fqdn_ok, validate_mesh_fqdn. destruct (is_empty f || _) eqn:E0; [done|].
  apply orb_false_iff in E0 as [E0%is_empty_false _].
  destruct (_ || _); [done|]. destruct (forallb _ _) eqn:F; [|done]. intros _. split; [|done].
  clear E0. revert F. generalize (split_char_elem DOT AT f). intros H F Hin.
  destruct (H ltac:(done) Hin) as (l & Hl & Hal). rewrite forallb_forall in F.
  apply list_elem_of_In, F, andb_prop in Hl as [Hl _]. by apply (label_not_byte AT l).
Qed.

Lemma parse_target_spec s t :
  parse_target s = Some t <->
  s <> [] /\ length s <= MAX_ADDRESS_LEN /\
  match t with
  | Local a => parse_local s = Some a
  | CrossMesh a f => fqdn_ok f /\ exists l, s = l ++ AT :: f /\ parse_local l = Some a
  end.
Proof.
  unfold parse_target. destruct (is_empty s || _) eqn:E0.
  { split; [done|]. intros (Hs%is_empty_false & Hl & _). rewrite Hs in E0. cbn [orb] in E0. lia. }
  apply orb_false_iff in E0 as [Hs%is_empty_false Hlen].
  assert (length s <= MAX_ADDRESS_LEN) as Hl by lia. clear Hlen.
  assert (forall l a, parse_local l = Some a -> (AT ∉ l) /\ l <> []) as Hloc.
  { intros l a. unfold parse_local. destruct (is_empty l || contains_byte AT l) eqn:E; [done|].
    intros _. apply orb_false_iff in E as [?%is_empty_false ?%contains_byte_false]. done. }
  destruct (split_once AT s) as [[l r]|] eqn:Es.
  - assert (AT ∈ s) as Hin by (apply split_once_Some in Es as ->; set_solver).
    destruct t as [a|a f].
    + split; [|intros (_ & _ & [? _]%Hloc); done].
      repeat case_match; naive_solver.
    + split.
      * destruct (_ || is_empty l); [done|]. destruct (parse_local l) as [a'|] eqn:El; [|done].
        destruct (validate_mesh_fqdn r) as [n|] eqn:Er; [|done]. intros [= <- <-].
        assert (n = r) as -> by (revert Er; unfold validate_mesh_fqdn; repeat case_match; naive_solver).
        apply split_once_Some in Es. split_and!; [done..|]. exists l. done.
      * intros (_ & _ & Hf & l' & E & Hp). destruct (Hloc _ _ Hp) as [Hl' Hne].
        rewrite E, split_once_app in Es by (apply Forall_forall; intros x Hx; apply byte_eqb_ne; congruence).
        injection Es as <- <-. destruct (fqdn_no_at f Hf) as [Hfa Hf0].
        rewrite (proj2 (contains_byte_false AT f) Hfa), (proj2 (is_empty_false f) Hf0), (proj2 (is_empty_false l') Hne).
        cbn [orb]. rewrite Hp, Hf. done.
  - apply split_once_None_iff in Es. destruct t as [a|a f].
    + destruct (parse_local s); naive_solver.
    + split; [destruct (parse_local s); done|]. intros (_ & _ & _ & l & -> & _). set_solver.
Qed.

Definition target_ok (t : BusTarget) : Prop :=
  match t with Local a => address_ok a | CrossMesh a f => address_ok a /\ fqdn_ok f end.

Lemma length_stem a : address_ok a -> length (address_stem a) <= 191.
Proof.
  intros (Hn%label_length & Hs & Hu). unfold address_stem, dotted. rewrite !length_app.
  destruct (sub a) as [u|], (service a) as [s|]; rewrite ?length_app; cbn [length];
    try apply label_length in Hu; try apply label_length in Hs; lia.
Qed.

(** ** Claims *)

(** The local address grammar, exactly: a string parses to an address iff the
    address has valid labels (a sub-label only with a service) and the string is
    its printed form, or that form without [.bus] where there is a service and
    the rest does not itself end in [.bus]. *)
Theorem parse_local_exact s a :
  parse_local s = Some a <->
  address_ok a /\ (s = address_to_string a \/
    s = address_stem a /\ service a <> None /\ strip_suffix (bs ".bus") s = None).
Proof. apply parse_local_spec. Qed.

(** Targets: what parses is well formed, has at most 253 bytes, and is
    in-mesh exactly when it holds no [@], so no cross-mesh address is taken for a
    local one; a well-formed target that prints within 253 bytes, and every
    in-mesh one does, parses back to itself. *)
Theorem target_roundtrip :
  (forall s t, parse_target s = Some t ->
     target_ok t /\ length s <= 253 /\ (is_cross_mesh t = true <-> AT ∈ s)) /\
  (forall t, target_ok t ->
     (parse_target (target_to_string t) = Some t <-> length (target_to_string t) <= 253) /\
     (is_cross_mesh t = false -> parse_target (target_to_string t) = Some t)).
Proof.
  split.
  - intros s t (Hs & Hl & H)%parse_target_spec. destruct t as [a|a f]; cbn [is_cross_mesh].
    + apply parse_local_spec in H as [Ha Hs']. split_and!; [done|done|]. split; [done|]. intros Hin. exfalso.
      pose proof (stem_no_at a Ha). pose proof bus_no_at.
      destruct Hs' as [->|[-> _]]; [|done]. unfold address_to_string in Hin. set_solver.
    + destruct H as (Hf & l & -> & [Ha _]%parse_local_spec). split_and!; [done|done|]. split; [set_solver|done].
  - intros t Ht.
    assert (length (target_to_string t) <= 253 -> parse_target (target_to_string t) = Some t) as K.
    { intros Hlen. apply parse_target_spec. split_and!; [|done|].
      - destruct t as [a|a f]; cbn; unfold address_to_string; by destruct (address_stem _).
      - destruct t as [a|a f]; cbn in *; [apply parse_local_spec; auto|].
        destruct Ht as [Ha Hf]. split; [done|]. exists (address_to_string a).
        split; [done|]. apply parse_local_spec; auto. }
    split.
    + split; [by intros (_ & ? & _)%parse_target_spec|done].
    + intros Hc. apply K. destruct t as [a|]; [|done]. cbn. unfold address_to_string.
      rewrite length_app. pose proof (length_stem a Ht). change (length (bs ".bus")) with 4. lia.
Qed.

(** ** An accepted target whose printed form is refused *)

Definition long_label : bytes := List.repeat x61 63.
Definition long_fqdn : bytes :=
  long_label ++ DOT :: long_label ++ DOT :: long_label ++ DOT :: List.repeat x61 57.
Definition long_target : BusTarget := CrossMesh (mkAddress None (Some (bs "a")) (bs "b")) long_fqdn.

(** The parser's length limit counts the string it is given: an accepted
    target of 253 bytes without [.bus] prints to 257 bytes, which it refuses. *)
Lemma printed_target_refused :
  parse_target (bs "a.b@" ++ long_fqdn) = Some long_target /\
  target_ok long_target /\ parse_target (target_to_string long_target) = None.
Proof. split_and!; vm_compute; (done || by split_and!). Qed.
