(* ===== verification/TrustCaps.v ===== *)
(** * Cross-mesh capabilities ([cosmix-lib-mesh-trust])

    Which capabilities a caller from another mesh gets: the resolver of
    [caps.rs] over the trust store interface, the in-memory store of [cache.rs]
    that implements it, the policy wrapper of [combinator.rs], the key selection
    of [sig.rs] and the time window of [freshness.rs].

    Instants are nanoseconds and durations differences of them; what the code
    uses of the [chrono] crate that is not exact arithmetic (range checks and
    RFC 3339 parsing) is an interface with its documented behaviour as laws. *)

From S2P Require Import Prelude Utf8 Str.

Definition NANOS : Z := 1000000000.
Definition I64_MAX : Z := 2 ^ 63 - 1.

Class Chrono := {
  try_seconds : Z -> option Z;
  checked_add_signed : Z -> Z -> option Z;
  parse_from_rfc3339 : bytes -> option Z }.

(** [TimeDelta::try_seconds] and [DateTime::checked_add_signed] are exact where
    they answer. *)
Class ChronoLaws {CH : Chrono} := {
  try_seconds_exact : forall s d, try_seconds s = Some d -> d = (s * NANOS)%Z;
  checked_add_exact : forall t d t', checked_add_signed t d = Some t' -> t' = (t + d)%Z }.

(** ** caps.rs *)

Abbreviation Cap := bytes.
Abbreviation CapabilitySet := (gset bytes).

Record TrustedMesh := mkTrustedMesh {
  tm_mesh_fqdn : bytes;
  current_pubkey : bytes;
  current_selector : bytes;
  previous_pubkey : option bytes;
  previous_selector : option bytes;
  previous_pubkey_valid_until : option Z;
  last_verified_at : Z;
  max_pubkey_age_secs : Z;
  tm_enabled : bool }.

Record Grant := mkGrant {
  grant_id : bytes;
  g_mesh_fqdn : bytes;
  capabilities : CapabilitySet;
  valid_from : Z;
  valid_until : Z;
  g_enabled : bool }.

(** The trait [TrustStore]. *)
Class TrustStore (S : Type) := {
  trusted_mesh : S -> bytes -> option TrustedMesh;
  grants_for_mesh : S -> bytes -> list Grant;
  exposable_for_namespace : S -> bytes -> CapabilitySet }.

Definition MESH_PREFIX : bytes := bs "mesh:".

(** [starts with a grant whose window holds now] *)
Definition grant_current (now : Z) (g : Grant) : bool :=
  g_enabled g && negb ((now <? valid_from g)%Z || (valid_until g <? now)%Z).

Definition add_grant (now : Z) (acc : CapabilitySet) (g : Grant) : CapabilitySet :=
  if grant_current now g then acc ∪ capabilities g else acc.

Section caps.
Context {CH : Chrono}.

(** The freshness gate: [last_verified_at + max_pubkey_age_secs >= now], with
    the conversions that can overflow failing closed. *)
Definition trust_is_fresh (t : TrustedMesh) (now : Z) : bool :=
  let clamped := Z.min (max_pubkey_age_secs t) I64_MAX in
  match try_seconds clamped with
  | None => false
  | Some max_age =>
    match checked_add_signed (last_verified_at t) max_age with
    | Some d => (now <=? d)%Z
    | None => false
    end
  end.

Definition resolve_cross_mesh_caps {S} `{TrustStore S} (store : S) (signed_ident namespace_id : bytes) (now : Z) :
    CapabilitySet :=
  match strip_prefix MESH_PREFIX signed_ident with
  | None => ∅
  | Some fqdn =>
    match trusted_mesh store fqdn with
    | None => ∅
    | Some trusted =>
      if negb (tm_enabled trusted) then ∅
      else if negb (trust_is_fresh trusted now) then ∅
      else foldl (add_grant now) ∅ (grants_for_mesh store fqdn) ∩ exposable_for_namespace store namespace_id
    end
  end.

(** ** sig.rs *)

Inductive KeySelectError :=
| Disabled | StaleTrust | SelectorMismatch (caller_selector : bytes) | PreviousKeyExpired.

Definition select_pubkey (t : TrustedMesh) (caller_selector : bytes) (now : Z) : result bytes KeySelectError :=
  if negb (tm_enabled t) then Err Disabled
  else if negb (trust_is_fresh t now) then Err StaleTrust
  else if bool_decide (current_selector t = caller_selector) then Ok (current_pubkey t)
  else
    match previous_selector t, previous_pubkey t with
    | Some prev_sel, Some prev_key =>
      if bool_decide (prev_sel = caller_selector) then
        match previous_pubkey_valid_until t with
        | Some deadline => if (now <=? deadline)%Z then Ok prev_key else Err PreviousKeyExpired
        | None => Err PreviousKeyExpired
        end
      else Err (SelectorMismatch caller_selector)
    | _, _ => Err (SelectorMismatch caller_selector)
    end.

(** ** freshness.rs *)

Inductive FreshnessError := InvalidTimestamp | OutsideWindow (drift_secs window_secs : Z).
Definition DEFAULT_FRESHNESS_WINDOW_SECS : Z := 5 * 60.

Definition parse_rfc3339 (s : bytes) : result Z FreshnessError :=
  ok_or (parse_from_rfc3339 s) InvalidTimestamp.

Definition num_seconds (d : Z) : Z := Z.quot d NANOS.

Definition check_freshness (envelope_ts now window : Z) : result unit FreshnessError :=
  let drift := Z.abs (now - envelope_ts) in
  if (window <? drift)%Z then Err (OutsideWindow (num_seconds drift) (num_seconds window)) else Ok tt.

Definition check_envelope_ts (envelope_ts : bytes) (now window : Z) : result unit FreshnessError :=
  let? ts := parse_rfc3339 envelope_ts in check_freshness ts now window.
End caps.

(** ** cache.rs *)

Record Snapshot := mkSnapshot {
  trusted : gmap bytes TrustedMesh;
  grants_by_mesh : gmap bytes (list Grant);
  exposable : gmap bytes CapabilitySet }.
Definition Snapshot_default : Snapshot := mkSnapshot ∅ ∅ ∅.

(** [entry(k).or_default().push(g)] *)
Definition push_grant (m : gmap bytes (list Grant)) (g : Grant) : gmap bytes (list Grant) :=
  <[g_mesh_fqdn g := default [] (m !! g_mesh_fqdn g) ++ [g]]> m.

Definition insert_trusted (m : gmap bytes TrustedMesh) (t : TrustedMesh) : gmap bytes TrustedMesh :=
  <[tm_mesh_fqdn t := t]> m.

Definition from_parts (ts : list TrustedMesh) (gs : list Grant) (es : list (bytes * CapabilitySet)) : Snapshot :=
  mkSnapshot (foldl insert_trusted ∅ ts) (foldl push_grant ∅ gs)
    (foldl (fun m e => <[fst e := snd e]> m) ∅ es).

(** [TrustGrantsCacheHandle] *)
#[export] Instance snapshot_store : TrustStore Snapshot := {
  trusted_mesh s fqdn := trusted s !! fqdn;
  grants_for_mesh s fqdn := default [] (grants_by_mesh s !! fqdn);
  exposable_for_namespace s ns_id := default ∅ (exposable s !! ns_id) }.

(** ** combinator.rs *)

Record PeerIdentity := mkPeer {
  unix_uid : option Z;
  unix_gid : option Z;
  unix_groups : list bytes;
  wg_peer : option bytes;
  signed_ident : option bytes;
  service_name : option bytes }.

Abbreviation AuthPolicy := (PeerIdentity -> gset bytes).

(** [Capability::new] refuses the empty token. *)
Definition Capability_new (s : bytes) : option bytes := match s with [] => None | _ => Some s end.

(** [now] is the wall clock at the call. *)
Definition with_cross_mesh_grants `{Chrono} {S} `{TrustStore S} (base : AuthPolicy) (namespace_id : bytes)
    (cache : S) (now : Z) : AuthPolicy := fun peer =>
  match signed_ident peer with
  | None => base peer
  | Some ident =>
    if negb (starts_with MESH_PREFIX ident) then base peer
    else list_to_set (omap Capability_new (elements (resolve_cross_mesh_caps cache ident namespace_id now)))
  end.

(** ** Claims *)

Section claims.
Context {CH : Chrono} {Str : Type} {TS : TrustStore Str}.

Lemma foldl_grants now gs acc c :
  c ∈ foldl (add_grant now) acc gs <->
  c ∈ acc \/ exists g, g ∈ gs /\ grant_current now g = true /\ c ∈ capabilities g.
Proof.
  revert acc; induction gs as [|g gs IH]; intros acc; cbn [foldl].
  - split; [auto|]. intros [?|(g & ?%not_elem_of_nil & _)]; done.
  - rewrite IH. assert (c ∈ add_grant now acc g <-> c ∈ acc \/ (grant_current now g = true /\ c ∈ capabilities g)) as ->.
    { unfold add_grant. destruct (grant_current now g); rewrite ?elem_of_union; intuition congruence. }
    setoid_rewrite elem_of_cons. split.
    + intros [[?|[? ?]]|(x & ? & ? & ?)]; [by left|right; exists g; auto|right; exists x; auto].
    + intros [?|(x & [->|?] & ? & ?)]; [auto|auto|right; exists x; auto].
Qed.

(** The entitlement of a mesh to a capability in a namespace, as the plan states
    it: a trusted, enabled, fresh mesh; an enabled grant to it whose window holds
    now and which lists the capability; and the namespace exposing it. *)
Definition entitled (store : Str) (ident ns : bytes) (now : Z) (c : Cap) : Prop :=
  exists fqdn t g,
    ident = MESH_PREFIX ++ fqdn /\ trusted_mesh store fqdn = Some t /\ tm_enabled t = true /\
    trust_is_fresh t now = true /\
    g ∈ grants_for_mesh store fqdn /\ g_enabled g = true /\ (valid_from g <= now <= valid_until g)%Z /\
    c ∈ capabilities g /\ c ∈ exposable_for_namespace store ns.

Lemma resolve_entitled store ident ns now c :
  c ∈ resolve_cross_mesh_caps store ident ns now <-> entitled store ident ns now c.
Proof.
  unfold resolve_cross_mesh_caps, entitled. split.
  - destruct (strip_prefix MESH_PREFIX ident) as [fqdn|] eqn:E; [|set_solver]. apply strip_prefix_Some in E as ->.
    destruct (trusted_mesh store fqdn) as [t|] eqn:Et; [|set_solver].
    destruct (tm_enabled t) eqn:Ee; [|set_solver]. destruct (trust_is_fresh t now) eqn:Ef; [|set_solver].
    cbn [negb]. rewrite elem_of_intersection, foldl_grants. intros [[?|(g & Hg & Hc & Hin)] Hex]; [set_solver|].
    apply andb_prop in Hc as [Hen Hw%negb_true_iff]. exists fqdn, t, g. split_and!; try done; lia.
  - intros (fqdn & t & g & -> & Et & Ee & Ef & Hg & Hen & Hw & Hin & Hex).
    rewrite strip_prefix_app, Et, Ee, Ef. cbn [negb]. rewrite elem_of_intersection, foldl_grants.
    split; [|done]. right. exists g. split_and!; [done| |done].
    unfold grant_current. rewrite Hen. lia.
Qed.

(** The policy wrapper keeps the two worlds apart: a caller without a [mesh:]
    identity gets exactly the base policy's answer; a caller with one never sees
    the base policy, only the non-empty capabilities it is entitled to. *)
Theorem cross_mesh_dispatch base ns cache now peer :
  (forall ident, signed_ident peer = Some ident -> starts_with MESH_PREFIX ident = true ->
     forall c, c ∈ with_cross_mesh_grants base ns cache now peer <-> c <> [] /\ entitled cache ident ns now c) /\
  ((forall ident, signed_ident peer = Some ident -> starts_with MESH_PREFIX ident = false) ->
     with_cross_mesh_grants base ns cache now peer = base peer).
Proof.
  unfold with_cross_mesh_grants. split.
  - intros ident -> ->. cbn [negb]. intros c. rewrite elem_of_list_to_set, list_elem_of_omap. split.
    + intros (x & Hx & E). apply elem_of_elements, resolve_entitled in Hx. by destruct x; [|injection E as <-].
    + intros [Hne He]. exists c. split; [by apply elem_of_elements, resolve_entitled|by destruct c].
  - intros H. destruct (signed_ident peer) as [ident|]; [|done]. by rewrite (H ident eq_refl).
Qed.

(** Key selection: a key is returned only for an enabled mesh whose trust is
    fresh, and it is the current key under the current selector, or the previous
    key under the previous selector up to its deadline; under that condition it
    is returned. *)
Theorem select_pubkey_exact t sel now k :
  select_pubkey t sel now = Ok k <->
  tm_enabled t = true /\ trust_is_fresh t now = true /\
  (sel = current_selector t /\ k = current_pubkey t \/
   sel <> current_selector t /\ previous_selector t = Some sel /\ previous_pubkey t = Some k /\
   exists deadline, previous_pubkey_valid_until t = Some deadline /\ (now <= deadline)%Z).
Proof.
  unfold select_pubkey. destruct (tm_enabled t); cbn [negb]; [|naive_solver].
  destruct (trust_is_fresh t now); cbn [negb]; [|naive_solver].
  destruct (bool_decide_reflect (current_selector t = sel)) as [<-|Hne]; [naive_solver|].
  destruct (previous_selector t) as [ps|] eqn:Ep; [|naive_solver].
  destruct (previous_pubkey t) as [pk|]; [|naive_solver].
  destruct (bool_decide_reflect (ps = sel)) as [<-|Hne2]; [|naive_solver].
  destruct (previous_pubkey_valid_until t) as [d|]; [|naive_solver].
  destruct (now <=? d)%Z eqn:E; naive_solver lia.
Qed.

Context {CL : ChronoLaws}.

(** What the freshness gate says, given exact time arithmetic: nothing older than
    the record's own limit passes. *)
Lemma trust_is_fresh_bound t now :
  trust_is_fresh t now = true ->
  (now <= last_verified_at t + Z.min (max_pubkey_age_secs t) I64_MAX * NANOS)%Z.
Proof.
  unfold trust_is_fresh. destruct (try_seconds _) as [d|] eqn:E1; [|done].
  destruct (checked_add_signed _ _) as [x|] eqn:E2; [|done]. intros H.
  apply try_seconds_exact in E1 as ->. apply checked_add_exact in E2 as ->. lia.
Qed.

(** C40 Cross-mesh resolution grants exactly the entitlements, and what it grants
    was verified no longer ago than the mesh's maximum key age. *)
Theorem resolve_exact store ident ns now c :
  (c ∈ resolve_cross_mesh_caps store ident ns now <-> entitled store ident ns now c) /\
  (c ∈ resolve_cross_mesh_caps store ident ns now ->
   exists fqdn t, ident = MESH_PREFIX ++ fqdn /\ trusted_mesh store fqdn = Some t /\
     (now <= last_verified_at t + Z.min (max_pubkey_age_secs t) I64_MAX * NANOS)%Z).
Proof.
  split; [apply resolve_entitled|]. intros (fqdn & t & g & E & Et & _ & Hf & _)%resolve_entitled.
  exists fqdn, t. split_and!; [done..|]. by apply trust_is_fresh_bound.
Qed.

End claims.

(** ** Witnesses: a clock without bounds but the millisecond range of durations *)

#[local] Instance plain_chrono : Chrono := {
  try_seconds s := if (Z.abs (s * 1000) <=? I64_MAX)%Z then Some (s * NANOS)%Z else None;
  checked_add_signed t d := Some (t + d)%Z;
  parse_from_rfc3339 _ := None }.

#[local] Instance plain_chrono_laws : ChronoLaws.
Proof. split; cbn; intros *; [case_match; congruence|congruence]. Qed.

Definition sample_cap : Cap := bs "props.read:maild.accounts".
Definition sample_store : Snapshot :=
  from_parts [mkTrustedMesh (bs "peer.net") [] (bs "k2") (Some [x01]) (Some (bs "k1")) (Some 50)%Z 0 100 true]
    [mkGrant (bs "g1") (bs "peer.net") {[sample_cap; bs "other"]} 0 10 true]
    [(bs "maild.accounts", {[sample_cap]})].

Lemma resolve_exact_witness :
  sample_cap ∈ resolve_cross_mesh_caps sample_store (bs "mesh:peer.net") (bs "maild.accounts") 5 /\
  ~ (bs "other" ∈ resolve_cross_mesh_caps sample_store (bs "mesh:peer.net") (bs "maild.accounts") 5) /\
  exists fqdn t, bs "mesh:peer.net" = MESH_PREFIX ++ fqdn /\ trusted sample_store !! fqdn = Some t /\
    (5 <= last_verified_at t + Z.min (max_pubkey_age_secs t) I64_MAX * NANOS)%Z.
Proof.
  assert (sample_cap ∈ resolve_cross_mesh_caps sample_store (bs "mesh:peer.net") (bs "maild.accounts") 5) as H
    by (apply (bool_decide_unpack _); vm_compute; exact I).
  split; [exact H|]. split; [apply (bool_decide_unpack _); vm_compute; exact I|].
  exact (proj2 (resolve_exact sample_store (bs "mesh:peer.net") (bs "maild.accounts") 5 sample_cap) H).
Defined.

Lemma cross_mesh_dispatch_witness :
  with_cross_mesh_grants (fun _ => {[bs "local"]}) (bs "maild.accounts") sample_store 5
    (mkPeer None None [] None (Some (bs "wg:10.0.0.1")) None) = {[bs "local"]} /\
  sample_cap ∈ with_cross_mesh_grants (fun _ => {[bs "local"]}) (bs "maild.accounts") sample_store 5
    (mkPeer None None [] None (Some (bs "mesh:peer.net")) None).
Proof.
  split.
  - apply (proj2 (cross_mesh_dispatch (fun _ => {[bs "local"]}) (bs "maild.accounts") sample_store 5
      (mkPeer None None [] None (Some (bs "wg:10.0.0.1")) None))). by intros ident [= <-].
  - apply (proj1 (cross_mesh_dispatch (fun _ => {[bs "local"]}) (bs "maild.accounts") sample_store 5
      (mkPeer None None [] None (Some (bs "mesh:peer.net")) None)) _ eq_refl eq_refl).
    split; [done|]. apply resolve_entitled. apply (bool_decide_unpack _); vm_compute; exact I.
Defined.
