(* ===== verification/TrustRecords.v ===== *)
(** * Property records and the trust records in them

    The value and record types of the property store
    ([cosmix-lib-props-core/src/value.rs], [cosmix-lib-props-store/src/record.rs],
    [lifecycle.rs]) and the conversions of [cosmix-lib-mesh-trust/src/wgd_records.rs]
    from a record to the trust, grant and exposable entries the resolver reads.
    An [f64] is represented by its bit pattern.  The base64 decoder is a
    parameter; error texts of other crates are not modelled. *)

From S2P Require Import Prelude Utf8 Str BTree TrustCaps.

(** ** Values and records *)

Inductive PropValue :=
| PNull
| PBool (b : bool)
| PInt (n : Z)
| PUInt (n : Z)
| PFloat (bits : Z)
| PString (s : bytes)
| PList (l : list PropValue)
| PObject (m : list (bytes * PropValue)).

Definition type_name (v : PropValue) : bytes :=
  match v with
  | PNull => bs "null" | PBool _ => bs "bool" | PInt _ => bs "i64" | PUInt _ => bs "u64"
  | PFloat _ => bs "f64" | PString _ => bs "string" | PList _ => bs "list" | PObject _ => bs "object"
  end.

Inductive FieldPathSegment := Field (s : bytes) | Index (i : Z).
Record RecordKey := mkRecordKey { rk_namespace : bytes; rk_key : bytes; field_path : list FieldPathSegment }.
Inductive Lifecycle := Provisioning | Active | Failed (reason : bytes).
Record PropRecord := mkPropRecord {
  r_key : RecordKey; r_value : PropValue; r_version : Z; r_nseq : Z; r_lifecycle : option Lifecycle }.

(** ** Conversions *)

Inductive WgdParseError :=
| NotAnObject
| MissingField (field : bytes)
| WrongType (field expected got : bytes)
| BadTimestamp (field : bytes)
| BadListItem (field : bytes) (index : nat) (expected got : bytes).

Abbreviation parsed A := (result A WgdParseError).

Class Base64 := b64_decode : bytes -> option bytes.

Definition as_object (v : PropValue) : parsed (list (bytes * PropValue)) :=
  match v with PObject m => Ok m | _ => Err NotAnObject end.

Definition require (obj : list (bytes * PropValue)) (field : bytes) : parsed PropValue :=
  ok_or (bt_get field obj) (MissingField field).

Definition as_string (field : bytes) (v : PropValue) : parsed bytes :=
  match v with PString s => Ok s | other => Err (WrongType field (bs "string") (type_name other)) end.

Definition as_bool (field : bytes) (v : PropValue) : parsed bool :=
  match v with PBool b => Ok b | other => Err (WrongType field (bs "bool") (type_name other)) end.

Definition as_u64 (field : bytes) (v : PropValue) : parsed Z :=
  match v with
  | PUInt n => Ok n
  | PInt n => if (0 <=? n)%Z then Ok n else Err (WrongType field (bs "u64") (type_name v))
  | other => Err (WrongType field (bs "u64") (type_name other))
  end.

Fixpoint strings_from (field : bytes) (i : nat) (l : list PropValue) : parsed (list bytes) :=
  match l with
  | [] => Ok []
  | PString s :: l' => let? out := strings_from field (S i) l' in Ok (s :: out)
  | other :: _ => Err (BadListItem field i (bs "string") (type_name other))
  end.

Definition as_list_of_strings (field : bytes) (v : PropValue) : parsed (list bytes) :=
  match v with
  | PList l => strings_from field 0 l
  | other => Err (WrongType field (bs "list<string>") (type_name other))
  end.

(** [optional]: absent and [Null] alike. *)
Definition optional (obj : list (bytes * PropValue)) (field : bytes) : option PropValue :=
  match bt_get field obj with Some PNull | None => None | Some v => Some v end.

(** [.map(f).transpose()?] *)
Definition transpose {A} (f : PropValue -> parsed A) (o : option PropValue) : parsed (option A) :=
  match o with None => Ok None | Some v => let? a := f v in Ok (Some a) end.

Section conversions.
Context {CH : Chrono} {B64 : Base64}.

Definition as_bytes (field : bytes) (v : PropValue) : parsed bytes :=
  match v with
  | PString s => ok_or (b64_decode s) (WrongType field (bs "bytes (base64)") (bs "invalid base64"))
  | other => Err (WrongType field (bs "bytes (base64 string)") (type_name other))
  end.

Definition as_timestamp (field : bytes) (v : PropValue) : parsed Z :=
  let? s := as_string field v in map_err (fun _ => BadTimestamp field) (parse_rfc3339 s).

Definition parse_trusted_mesh (r : PropRecord) : parsed TrustedMesh :=
  let? obj := as_object (r_value r) in
  let? v := require obj (bs "mesh_fqdn") in
  let? fqdn := as_string (bs "mesh_fqdn") v in
  let? v := require obj (bs "current_pubkey") in
  let? pubkey := as_bytes (bs "current_pubkey") v in
  let? v := require obj (bs "current_selector") in
  let? selector := as_string (bs "current_selector") v in
  let? prev := transpose (as_bytes (bs "previous_pubkey")) (optional obj (bs "previous_pubkey")) in
  let? prev_sel := transpose (as_string (bs "previous_selector")) (optional obj (bs "previous_selector")) in
  let? prev_until := transpose (as_timestamp (bs "previous_pubkey_valid_until"))
    (optional obj (bs "previous_pubkey_valid_until")) in
  let? v := require obj (bs "last_verified_at") in
  let? verified := as_timestamp (bs "last_verified_at") v in
  let? v := require obj (bs "max_pubkey_age_secs") in
  let? age := as_u64 (bs "max_pubkey_age_secs") v in
  let? v := require obj (bs "enabled") in
  let? enabled := as_bool (bs "enabled") v in
  Ok (mkTrustedMesh fqdn pubkey selector prev prev_sel prev_until verified age enabled).

Definition parse_grant (r : PropRecord) : parsed Grant :=
  let? obj := as_object (r_value r) in
  let? v := require obj (bs "grant_id") in
  let? id := as_string (bs "grant_id") v in
  let? v := require obj (bs "mesh_fqdn") in
  let? fqdn := as_string (bs "mesh_fqdn") v in
  let? v := require obj (bs "capabilities") in
  let? caps := as_list_of_strings (bs "capabilities") v in
  let? v := require obj (bs "valid_from") in
  let? vfrom := as_timestamp (bs "valid_from") v in
  let? v := require obj (bs "valid_until") in
  let? vuntil := as_timestamp (bs "valid_until") v in
  let? v := require obj (bs "enabled") in
  let? enabled := as_bool (bs "enabled") v in
  Ok (mkGrant id fqdn (list_to_set caps) vfrom vuntil enabled).

Definition parse_exposable_entry (r : PropRecord) : parsed (bytes * Cap) :=
  let? obj := as_object (r_value r) in
  let? v := require obj (bs "cap_namespace_prefix") in
  let? prefix := as_string (bs "cap_namespace_prefix") v in
  let? v := require obj (bs "cap_token") in
  let? token := as_string (bs "cap_token") v in
  Ok (prefix, token).
End conversions.
