(* ===== verification/TrustSubscriber.v ===== *)
(** * The trust cache subscriber ([cosmix-lib-mesh-trust/src/subscriber.rs])

    Three tasks, one per wgd namespace, each list, watch and reseed, and each
    writes its own slice of the shared snapshot; the cache is ready when every
    task has seen a caught-up marker.  The state of the three tasks and what they
    share is a record; a step is one task receiving one answer of its client (or
    waking from its back-off), so a run is any interleaving of the tasks. *)

From S2P Require Import Prelude Utf8 Str BTree TrustCaps TrustRecords.
From Stdlib Require Import Sorting.Permutation.

Inductive Kind := KTrusted | KGrants | KExposable.
#[export] Instance Kind_eq_dec : EqDecision Kind.
Proof. solve_decision. Defined.

Inductive WatchEvent := Upsert (r : PropRecord) | Delete (k : RecordKey) | CaughtUp (nseq : Z).
Record Listing := mkListing { l_records : list PropRecord; l_nseq : Z }.

(** ** [NsState] *)

Abbreviation NsState := (list (bytes * PropRecord)).

Definition ns_upsert (st : NsState) (r : PropRecord) : NsState := bt_insert (rk_key (r_key r)) r st.
Definition ns_delete (st : NsState) (k : RecordKey) : NsState := bt_remove (rk_key k) st.
Definition ns_replace_from (rs : list PropRecord) : NsState := foldl ns_upsert [] rs.

(** ** Tasks *)

Definition INITIAL_BACKOFF : Z := 250.
Definition MAX_BACKOFF : Z := 8000.

(** Where [run_namespace]'s loop is: awaiting the list, the watch, the next event
    of the watch (with the marker seen on it), or the end of the sleep. *)
Inductive Phase := AwaitList | AwaitWatch (since : Z) | Watching (marker : option Z) | Sleeping.

Record Task := mkTask { state : NsState; first_seeded : bool; backoff : Z; phase : Phase }.
Definition Task_start : Task := mkTask [] false INITIAL_BACKOFF AwaitList.

Record Sub := mkSub {
  snap : Snapshot;
  pending : Z;
  is_ready : bool;
  t_trusted : Task; t_grants : Task; t_exposable : Task }.
Definition Sub_start : Sub := mkSub Snapshot_default 3 false Task_start Task_start Task_start.

Definition task (s : Sub) (k : Kind) : Task :=
  match k with KTrusted => t_trusted s | KGrants => t_grants s | KExposable => t_exposable s end.
Definition set_task (s : Sub) (k : Kind) (t : Task) : Sub :=
  match k with
  | KTrusted => mkSub (snap s) (pending s) (is_ready s) t (t_grants s) (t_exposable s)
  | KGrants => mkSub (snap s) (pending s) (is_ready s) (t_trusted s) t (t_exposable s)
  | KExposable => mkSub (snap s) (pending s) (is_ready s) (t_trusted s) (t_grants s) t
  end.
Definition with_phase (t : Task) (p : Phase) : Task := mkTask (state t) (first_seeded t) (backoff t) p.
Definition with_state (t : Task) (st : NsState) : Task := mkTask st (first_seeded t) (backoff t) (phase t).

Section subscriber.
Context {CH : Chrono} {B64 : Base64}.

(** ** The slices *)

Definition derive_trusted (st : NsState) : gmap bytes TrustedMesh :=
  foldl (fun out r => match parse_trusted_mesh r with Ok t => insert_trusted out t | Err _ => out end)
    ∅ (map snd st).

Definition derive_grants (st : NsState) : gmap bytes (list Grant) :=
  foldl (fun out r => match parse_grant r with Ok g => push_grant out g | Err _ => out end) ∅ (map snd st).

Definition insert_cap (out : gmap bytes CapabilitySet) (e : bytes * Cap) : gmap bytes CapabilitySet :=
  <[fst e := {[snd e]} ∪ default ∅ (out !! fst e)]> out.
Definition derive_exposable (st : NsState) : gmap bytes CapabilitySet :=
  foldl (fun out r => match parse_exposable_entry r with Ok e => insert_cap out e | Err _ => out end)
    ∅ (map snd st).

Definition apply_namespace_slice (s : Snapshot) (k : Kind) (st : NsState) : Snapshot :=
  match k with
  | KTrusted => mkSnapshot (derive_trusted st) (grants_by_mesh s) (exposable s)
  | KGrants => mkSnapshot (trusted s) (derive_grants st) (exposable s)
  | KExposable => mkSnapshot (trusted s) (grants_by_mesh s) (derive_exposable st)
  end.

(** ** [run_namespace] *)

(** What a task is waiting for arrives. *)
Inductive Input :=
| ListAnswer (a : option Listing)
| WatchAnswer (ok : bool)
| StreamItem (e : option (option WatchEvent))
| Wake.

(** The task's records change and its slice follows. *)
Definition update_records (s : Sub) (k : Kind) (st : NsState) : Sub :=
  let s := set_task s k (with_state (task s k) st) in
  mkSub (apply_namespace_slice (snap s) k st) (pending s) (is_ready s) (t_trusted s) (t_grants s) (t_exposable s).

(** The first marker of a task: the last of the three makes the cache ready. *)
Definition seed (s : Sub) (k : Kind) (nseq : Z) : Sub :=
  let t := task s k in
  let s' := set_task s k (mkTask (state t) true (backoff t) (Watching (Some nseq))) in
  if first_seeded t then s'
  else mkSub (snap s') (pending s' - 1) (if (pending s' =? 1)%Z then true else is_ready s')
         (t_trusted s') (t_grants s') (t_exposable s').

Definition step (s : Sub) (k : Kind) (i : Input) : option Sub :=
  let t := task s k in
  let goto p := Some (set_task s k (with_phase t p)) in
  match phase t, i with
  | AwaitList, ListAnswer None => goto Sleeping
  | AwaitList, ListAnswer (Some listing) =>
    let s1 := update_records s k (ns_replace_from (l_records listing)) in
    let t1 := task s1 k in
    Some (set_task s1 k (mkTask (state t1) (first_seeded t1) INITIAL_BACKOFF (AwaitWatch (l_nseq listing))))
  | AwaitWatch _, WatchAnswer false => goto Sleeping
  | AwaitWatch _, WatchAnswer true => goto (Watching None)
  | Watching _, StreamItem None => goto Sleeping
  | Watching _, StreamItem (Some None) => goto Sleeping
  | Watching _, StreamItem (Some (Some (Upsert r))) => Some (update_records s k (ns_upsert (state t) r))
  | Watching _, StreamItem (Some (Some (Delete key))) => Some (update_records s k (ns_delete (state t) key))
  | Watching (Some prev), StreamItem (Some (Some (CaughtUp n))) => if (prev =? n)%Z then Some s else goto Sleeping
  | Watching None, StreamItem (Some (Some (CaughtUp n))) => Some (seed s k n)
  | Sleeping, Wake =>
    Some (set_task s k (mkTask (state t) (first_seeded t) (Z.min (backoff t * 2) MAX_BACKOFF) AwaitList))
  | _, _ => None
  end.

(** Any interleaving of the three tasks. *)
Inductive reach : Sub -> Prop :=
| reach_start : reach Sub_start
| reach_task s k i s' : reach s -> step s k i = Some s' -> reach s'.

(** ** What a step changes *)

(** The slice of a namespace is derived from its task's records. *)
Definition slice_derived (s : Sub) (k : Kind) : Prop :=
  match k with
  | KTrusted => trusted (snap s) = derive_trusted (state (t_trusted s))
  | KGrants => grants_by_mesh (snap s) = derive_grants (state (t_grants s))
  | KExposable => exposable (snap s) = derive_exposable (state (t_exposable s))
  end.

Lemma task_set_eq s k t : task (set_task s k t) k = t.
Proof. by destruct k. Qed.
Lemma task_set_ne s k k' t : k' <> k -> task (set_task s k t) k' = task s k'.
Proof. by destruct k, k'. Qed.
Lemma snap_set s k t : snap (set_task s k t) = snap s.
Proof. by destruct k. Qed.

(** The records a task holds after an input. *)
Definition next_state (t : Task) (i : Input) : NsState :=
  match phase t, i with
  | AwaitList, ListAnswer (Some listing) => ns_replace_from (l_records listing)
  | Watching _, StreamItem (Some (Some (Upsert r))) => ns_upsert (state t) r
  | Watching _, StreamItem (Some (Some (Delete key))) => ns_delete (state t) key
  | _, _ => state t
  end.

Lemma step_tasks s k i s' :
  step s k i = Some s' ->
  state (task s' k) = next_state (task s k) i /\ (forall k', k' <> k -> task s' k' = task s k').
Proof.
  unfold step, next_state. intros H.
  destruct (phase (task s k)) as [|since|[m|]|] eqn:Ep, i as [[l|]|[]|[[[r|key|n]|]|]|]; try discriminate H;
    try (destruct (m =? n)%Z); injection H as <-;
    (split; [by destruct k; cbn; unfold seed; cbn; repeat case_match|intros k' Hk'; unfold seed;
      destruct k, k'; cbn; repeat case_match; done]).
Qed.

Lemma step_slices s k i s' : step s k i = Some s' -> (forall k', slice_derived s k') -> forall k', slice_derived s' k'.
Proof.
  unfold step. intros H Hs k'. pose proof (Hs KTrusted) as H1. pose proof (Hs KGrants) as H2.
  pose proof (Hs KExposable) as H3. cbn in H1, H2, H3.
  destruct (phase (task s k)) as [|since|[m|]|] eqn:Ep, i as [[l|]|[]|[[[r|key|n]|]|]|]; try discriminate H;
    try (destruct (m =? n)%Z); injection H as <-; unfold seed;
    destruct k, k'; cbn; repeat case_match; done.
Qed.

Definition kinds : list Kind := [KTrusted; KGrants; KExposable].
Definition unseeded (s : Sub) : nat := length (filter (fun k => first_seeded (task s k) = false) kinds).

(** The invariant of the three tasks. *)
Record sub_inv (s : Sub) : Prop := {
  si_slices : forall k, slice_derived s k;
  si_pending : pending s = Z.of_nat (unseeded s);
  si_ready : is_ready s = true <-> forall k, first_seeded (task s k) = true;
  si_backoff : forall k, (INITIAL_BACKOFF <= backoff (task s k) <= MAX_BACKOFF)%Z }.

Lemma all_kinds (P : Kind -> Prop) : (forall k, P k) <-> P KTrusted /\ P KGrants /\ P KExposable.
Proof. split; [auto|]. by intros (? & ? & ?) []. Qed.

Lemma sub_start_inv : sub_inv Sub_start.
Proof.
  split; [intros []; reflexivity|reflexivity| |intros []; cbn; unfold INITIAL_BACKOFF, MAX_BACKOFF; lia].
  rewrite all_kinds. cbn. intuition congruence.
Qed.

(** Steps other than the first marker leave the count and the flag alone. *)
Lemma step_seeded s k i s' :
  step s k i = Some s' ->
  (pending s' = pending s /\ is_ready s' = is_ready s /\ first_seeded (task s' k) = first_seeded (task s k)) \/
  (first_seeded (task s k) = false /\ first_seeded (task s' k) = true /\ pending s' = (pending s - 1)%Z /\
   is_ready s' = if (pending s =? 1)%Z then true else is_ready s).
Proof.
  unfold step. intros H.
  destruct (phase (task s k)) as [|since|[m|]|] eqn:Ep, i as [[l|]|[]|[[[r|key|n]|]|]|]; try discriminate H;
    try (destruct (m =? n)%Z); injection H as <-; try (left; destruct k; cbn; done).
  unfold seed. destruct (first_seeded (task s k)) eqn:E; [left|right]; destruct k; cbn in *; done.
Qed.

Lemma step_backoff s k i s' :
  step s k i = Some s' -> (INITIAL_BACKOFF <= backoff (task s k) <= MAX_BACKOFF)%Z ->
  (INITIAL_BACKOFF <= backoff (task s' k) <= MAX_BACKOFF)%Z.
Proof.
  unfold step. intros H Hb.
  destruct (phase (task s k)) as [|since|[m|]|] eqn:Ep, i as [[l|]|[]|[[[r|key|n]|]|]|]; try discriminate H;
    try (destruct (m =? n)%Z); injection H as <-; unfold seed; destruct k; cbn in *; repeat case_match; cbn;
    unfold INITIAL_BACKOFF, MAX_BACKOFF in *; lia.
Qed.

Lemma step_inv s k i s' : step s k i = Some s' -> sub_inv s -> sub_inv s'.
Proof.
  intros H [Hs Hp Hr Hb]. destruct (step_tasks _ _ _ _ H) as [_ Ho]. split.
  - by eapply step_slices.
  - destruct (step_seeded _ _ _ _ H) as [(-> & _ & E)|(E1 & E2 & -> & _)]; rewrite Hp; unfold unseeded, kinds;
      destruct k; cbn [filter list_filter] in *;
      rewrite ?(Ho KTrusted), ?(Ho KGrants), ?(Ho KExposable), ?E, ?E1, ?E2 in * by done;
      repeat (case_decide || case_match); cbn; congruence || lia.
  - destruct (step_seeded _ _ _ _ H) as [(_ & -> & E)|(E1 & E2 & Ep & ->)].
    + rewrite Hr. split; intros F k'; pose proof (F k') as Fk; destruct (decide (k' = k)) as [->|Hne];
        rewrite ?(Ho k' Hne) in *; congruence.
    + rewrite Hp. split.
      * destruct (Z.of_nat (unseeded s) =? 1)%Z eqn:E; [intros _|intros F; apply Hr with k in F; congruence].
        assert (unseeded s = 1) as E3 by lia. clear Hr Hp E. intros k'. destruct (decide (k' = k)) as [->|Hne]; [done|].
        rewrite Ho by done. clear Ho Hs Hb. revert E3. unfold unseeded, kinds.
        destruct k, k'; try done; cbn in *; repeat (case_decide || case_match); cbn;
          try congruence; intros _; by apply not_false_is_true.
      * intros F. assert (unseeded s = 1) as ->; [|done]. unfold unseeded, kinds. cbn.
        assert (forall k', k' <> k -> first_seeded (task s k') = true) as G.
        { intros k' Hne. rewrite <- (Ho k' Hne). apply F. }
        destruct k; pose proof (G KTrusted) as G1; pose proof (G KGrants) as G2; pose proof (G KExposable) as G3;
          cbn in *; repeat case_decide; cbn; try done; exfalso; naive_solver congruence.
  - intros k'. destruct (decide (k' = k)) as [->|Hne]; [by eapply step_backoff|]. rewrite Ho by done. apply Hb.
Qed.

Lemma reach_inv s : reach s -> sub_inv s.
Proof. induction 1 as [|s k i s' _ IH H]; [apply sub_start_inv|by eapply step_inv]. Qed.

(** ** What the slices hold *)

Lemma derive_trusted_lookup st f t :
  derive_trusted st !! f = Some t ->
  exists r, r ∈ map snd st /\ parse_trusted_mesh r = Ok t /\ tm_mesh_fqdn t = f.
Proof.
  unfold derive_trusted. generalize (map snd st). intros l.
  assert (forall m, foldl (fun out r => match parse_trusted_mesh r with Ok t => insert_trusted out t | Err _ => out end) m l !! f
      = Some t -> m !! f = Some t \/ exists r, r ∈ l /\ parse_trusted_mesh r = Ok t /\ tm_mesh_fqdn t = f) as H.
  { induction l as [|r l IH]; intros m; cbn; [auto|]. intros H%IH. setoid_rewrite elem_of_cons.
    destruct H as [H|(x & Hx & ?)]; [|right; exists x; auto].
    destruct (parse_trusted_mesh r) as [t'|e] eqn:E; [|auto]. unfold insert_trusted in H.
    destruct (decide (tm_mesh_fqdn t' = f)) as [Ef|Hne].
    - rewrite Ef, lookup_insert_eq in H. injection H as ->. right. exists r. auto.
    - rewrite lookup_insert_ne in H by done. auto. }
  intros [He|]%H; [|done]. by rewrite lookup_empty in He.
Qed.

Lemma derive_grants_lookup st f g :
  g ∈ default [] (derive_grants st !! f) <->
  exists r, r ∈ map snd st /\ parse_grant r = Ok g /\ g_mesh_fqdn g = f.
Proof.
  unfold derive_grants. generalize (map snd st). intros l.
  assert (forall m, g ∈ default [] (foldl (fun out r => match parse_grant r with Ok g => push_grant out g | Err _ => out end) m l !! f)
      <-> g ∈ default [] (m !! f) \/ exists r, r ∈ l /\ parse_grant r = Ok g /\ g_mesh_fqdn g = f) as H.
  { induction l as [|r l IH]; intros m; cbn; [split; [auto|]; by intros [|(? & ?%not_elem_of_nil & _)]|].
    rewrite IH. setoid_rewrite elem_of_cons.
    assert (g ∈ default [] (match parse_grant r with Ok g => push_grant m g | Err _ => m end !! f) <->
      g ∈ default [] (m !! f) \/ (parse_grant r = Ok g /\ g_mesh_fqdn g = f)) as ->.
    { destruct (parse_grant r) as [g'|e]; [|naive_solver]. unfold push_grant.
      destruct (decide (g_mesh_fqdn g' = f)) as [<-|Hne].
      - rewrite lookup_insert_eq. cbn. rewrite elem_of_app, list_elem_of_singleton. naive_solver.
      - rewrite lookup_insert_ne by done. naive_solver. }
    split.
    - intros [[?|?]|(x & ? & ?)]; [auto|right; exists r; auto|right; exists x; auto].
    - intros [?|(x & [->|?] & ?)]; [auto|auto|right; exists x; auto]. }
  rewrite H, lookup_empty. cbn. split; [|auto]. by intros [?%not_elem_of_nil|].
Qed.

Lemma derive_exposable_lookup st ns c :
  c ∈ default (∅ : CapabilitySet) (derive_exposable st !! ns) <->
  exists r, r ∈ map snd st /\ parse_exposable_entry r = Ok (ns, c).
Proof.
  unfold derive_exposable. generalize (map snd st). intros l.
  assert (forall m, c ∈ default (∅ : CapabilitySet) (foldl (fun out r => match parse_exposable_entry r with Ok e => insert_cap out e | Err _ => out end) m l !! ns)
      <-> c ∈ default (∅ : CapabilitySet) (m !! ns) \/ exists r, r ∈ l /\ parse_exposable_entry r = Ok (ns, c)) as H.
  { induction l as [|r l IH]; intros m; cbn; [split; [auto|]; by intros [|(? & ?%not_elem_of_nil & _)]|].
    rewrite IH. setoid_rewrite elem_of_cons.
    assert (c ∈ default (∅ : CapabilitySet) (match parse_exposable_entry r with Ok e => insert_cap m e | Err _ => m end !! ns) <->
      c ∈ default (∅ : CapabilitySet) (m !! ns) \/ parse_exposable_entry r = Ok (ns, c)) as ->.
    { destruct (parse_exposable_entry r) as [[ns' c']|e]; [|naive_solver]. unfold insert_cap. cbn [fst snd].
      destruct (decide (ns' = ns)) as [<-|Hne].
      - rewrite lookup_insert_eq. cbn. rewrite elem_of_union, elem_of_singleton. naive_solver.
      - rewrite lookup_insert_ne by done. naive_solver. }
    split.
    - intros [[?|?]|(x & ? & ?)]; [auto|right; exists r; auto|right; exists x; auto].
    - intros [?|(x & [->|?] & ?)]; [auto|auto|right; exists x; auto]. }
  rewrite H, lookup_empty. cbn. split; [|auto]. intros [?|]; [set_solver|done].
Qed.

(** ** Claims *)

(** The subscriber's invariant, over every interleaving of its three tasks and
    whatever their clients answer: each slice of the snapshot is the derivation of
    the records its own task holds, the pending count is the number of tasks that
    have not seen a marker, the cache is ready exactly when all three have, and
    the back-off stays between 250 ms and 8 s. *)
Theorem subscriber_invariant s :
  reach s ->
  trusted (snap s) = derive_trusted (state (t_trusted s)) /\
  grants_by_mesh (snap s) = derive_grants (state (t_grants s)) /\
  exposable (snap s) = derive_exposable (state (t_exposable s)) /\
  pending s = Z.of_nat (unseeded s) /\
  (is_ready s = true <-> forall k, first_seeded (task s k) = true) /\
  forall k, (INITIAL_BACKOFF <= backoff (task s k) <= MAX_BACKOFF)%Z.
Proof.
  intros [Hs Hp Hr Hb]%reach_inv.
  split_and!; [exact (Hs KTrusted)|exact (Hs KGrants)|exact (Hs KExposable)|done..].
Qed.

(** No capability without records: what the resolver grants from the
    subscriber's snapshot, at any moment, rests on a trust record, a grant record
    and an exposable record its tasks hold, each well formed, the trust record
    enabled and fresh, the grant to that mesh, enabled, in its window and listing
    the capability, the exposable record naming the namespace and the capability. *)
Theorem granted_by_records s ident ns now c :
  reach s -> c ∈ resolve_cross_mesh_caps (snap s) ident ns now ->
  exists rt t rg g re,
    rt ∈ map snd (state (t_trusted s)) /\ parse_trusted_mesh rt = Ok t /\ ident = MESH_PREFIX ++ tm_mesh_fqdn t /\
    tm_enabled t = true /\ trust_is_fresh t now = true /\
    rg ∈ map snd (state (t_grants s)) /\ parse_grant rg = Ok g /\ g_mesh_fqdn g = tm_mesh_fqdn t /\
    g_enabled g = true /\ (valid_from g <= now <= valid_until g)%Z /\ c ∈ capabilities g /\
    re ∈ map snd (state (t_exposable s)) /\ parse_exposable_entry re = Ok (ns, c).
Proof.
  intros [Hs _ _ _]%reach_inv Hc.
  destruct (proj1 (resolve_entitled (snap s) ident ns now c) Hc) as
    (fqdn & t & g & E & Et & Ee & Ef & Hg & Hen & Hw & Hin & Hex).
  cbn in Et, Hg, Hex. pose proof (Hs KTrusted) as S1. pose proof (Hs KGrants) as S2. pose proof (Hs KExposable) as S3.
  cbn in S1, S2, S3. rewrite S1 in Et. rewrite S2 in Hg. rewrite S3 in Hex.
  apply derive_trusted_lookup in Et as (rt & Hrt & Pt & Efq).
  apply derive_grants_lookup in Hg as (rg & Hrg & Pg & Egq).
  apply derive_exposable_lookup in Hex as (re & Hre & Pe).
  exists rt, t, rg, g, re. rewrite Efq. split_and!; done || lia.
Qed.
End subscriber.

(** ** Witnesses *)

#[local] Instance witness_chrono : Chrono := {
  try_seconds s := Some (s * NANOS)%Z;
  checked_add_signed t d := Some (t + d)%Z;
  parse_from_rfc3339 _ := Some 7%Z }.
#[local] Instance witness_base64 : Base64 := fun s => Some s.

Definition field (k : string) (v : PropValue) : bytes * PropValue := (bs k, v).
Definition sample_record (ns key : string) (fields : list (bytes * PropValue)) : PropRecord :=
  mkPropRecord (mkRecordKey (bs ns) (bs key) [])
    (PObject (foldl (fun m kv => bt_insert (fst kv) (snd kv) m) [] fields)) 1 1 None.
Definition sample_trust_record : PropRecord :=
  sample_record "wgd.trusted_meshes" "peer.net"
    [field "mesh_fqdn" (PString (bs "peer.net")); field "current_pubkey" (PString (bs "k"));
     field "current_selector" (PString (bs "2026")); field "last_verified_at" (PString []);
     field "max_pubkey_age_secs" (PInt 60); field "enabled" (PBool true)].
Definition sample_grant_record : PropRecord :=
  sample_record "wgd.grants" "g1"
    [field "grant_id" (PString (bs "g1")); field "mesh_fqdn" (PString (bs "peer.net"));
     field "capabilities" (PList [PString (bs "read")]); field "valid_from" (PString []);
     field "valid_until" (PString []); field "enabled" (PBool true)].
Definition sample_expose_record : PropRecord :=
  sample_record "wgd.cross_mesh_exposable" "e1"
    [field "cap_namespace_prefix" (PString (bs "maild.accounts")); field "cap_token" (PString (bs "read"))].

Fixpoint run (s : Sub) (l : list (Kind * Input)) : option Sub :=
  match l with
  | [] => Some s
  | (k, i) :: l' => match step s k i with Some s' => run s' l' | None => None end
  end.

Lemma run_reach l s s' : reach s -> run s l = Some s' -> reach s'.
Proof.
  revert s. induction l as [|[k i] l IH]; intros s R H; cbn in H; [by injection H as <-|].
  destruct (step s k i) as [s1|] eqn:E; [|done]. eapply IH; [|exact H]. by econstructor.
Qed.

(** Each task lists an empty namespace, watches, receives its record, then its
    marker, the tasks interleaved. *)
Definition sample_run : list (Kind * Input) :=
  let list_empty := ListAnswer (Some (mkListing [] 0)) in
  let put r := StreamItem (Some (Some (Upsert r))) in
  let mark := StreamItem (Some (Some (CaughtUp 1))) in
  [(KTrusted, list_empty); (KGrants, list_empty); (KTrusted, WatchAnswer true); (KExposable, list_empty);
   (KTrusted, put sample_trust_record); (KGrants, WatchAnswer true); (KTrusted, mark);
   (KExposable, WatchAnswer true); (KExposable, put sample_expose_record); (KGrants, put sample_grant_record);
   (KGrants, mark); (KExposable, mark)].

Definition sample_end : Sub := default Sub_start (run Sub_start sample_run).

Lemma sample_run_end : run Sub_start sample_run = Some sample_end.
Proof. vm_compute. reflexivity. Qed.

Lemma sample_reach : reach sample_end.
Proof. apply (run_reach sample_run Sub_start); [constructor|apply sample_run_end]. Qed.

Lemma subscriber_invariant_witness :
  reach sample_end /\ is_ready sample_end = true /\ pending sample_end = Z.of_nat (unseeded sample_end).
Proof.
  split; [exact sample_reach|]. split; [vm_compute; reflexivity|].
  exact (proj1 (proj2 (proj2 (proj2 (subscriber_invariant sample_end sample_reach))))).
Defined.

Lemma granted_by_records_witness :
  exists rt, rt ∈ map snd (state (t_trusted sample_end)) /\ is_ok (parse_trusted_mesh rt) = true.
Proof.
  destruct (granted_by_records sample_end (bs "mesh:peer.net") (bs "maild.accounts") 7 (bs "read") sample_reach)
    as (rt & t & _ & _ & _ & H1 & H2 & _).
  - apply (bool_decide_unpack _). vm_compute. exact I.
  - exists rt. split; [exact H1|]. rewrite H2. reflexivity.
Defined.
