(* ===== verification/TrustServer.v ===== *)
(** * The trust subscriber against a wgd server

    A wgd server as [subscriber.rs] and [wgd_records.rs] document it (the code of wgd is another
    program): per namespace a log of commits; a listing is the records the log leaves at that moment
    and its length as [nseq]; a watch from [since] is a stream of the commits after [since], one by
    one, with a caught-up marker at the length the log had when the watch was installed.  What the
    three tasks of [TrustSubscriber] make of it: the snapshot shows, at all times, records the log
    held at some point, and, once ready, at a point past a watch's installation. *)

From S2P Require Import Prelude Utf8 Str BTree TrustCaps TrustRecords TrustSubscriber.

(** ** The server *)

Inductive Change := Put (r : PropRecord) | Remove (k : RecordKey).
Definition change_key (c : Change) : bytes := match c with Put r => rk_key (r_key r) | Remove k => rk_key k end.
Definition change_event (c : Change) : WatchEvent := match c with Put r => Upsert r | Remove k => Delete k end.

(** The record a log leaves under a key: what the last change to the key wrote. *)
Definition latest (log : list Change) (key : bytes) : option PropRecord :=
  match list_find (fun c => change_key c = key) (rev log) with Some (_, Put r) => Some r | _ => None end.

(** A watch: the commits delivered so far, and the length of the log at its installation. *)
Record Stream := mkStream { delivered : nat; high : nat }.

(** What the server may answer a task in phase [ph], and the task's stream after it. *)
Inductive serves (log : list Change) (ph : Phase) : option Stream -> Input -> option Stream -> Prop :=
| serves_list l st :
    l_nseq l = Z.of_nat (length log) -> (forall r, r ∈ l_records l <-> latest log (rk_key (r_key r)) = Some r) ->
    serves log ph st (ListAnswer (Some l)) st
| serves_watch since st :
    ph = AwaitWatch since -> serves log ph st (WatchAnswer true) (Some (mkStream (Z.to_nat since) (length log)))
| serves_change d h c :
    log !! d = Some c ->
    serves log ph (Some (mkStream d h)) (StreamItem (Some (Some (change_event c)))) (Some (mkStream (S d) h))
| serves_caught_up d h :
    h <= d -> serves log ph (Some (mkStream d h)) (StreamItem (Some (Some (CaughtUp (Z.of_nat h))))) (Some (mkStream d h))
| serves_failure i st :
    i ∈ [ListAnswer None; WatchAnswer false; StreamItem None; StreamItem (Some None); Wake] -> serves log ph st i st.

(** ** The two together *)

Record World := mkWorld {
  w_log : Kind -> list Change;
  w_stream : Kind -> option Stream;
  w_installed : Kind -> list nat;   (* the lengths of the log at which watches were installed *)
  w_sub : Sub }.

Definition upd {A} (f : Kind -> A) (k : Kind) (a : A) : Kind -> A := fun k' => if decide (k' = k) then a else f k'.

Definition started (log : Kind -> list Change) : World := mkWorld log (fun _ => None) (fun _ => []) Sub_start.

Section world.
Context {CH : Chrono} {B64 : Base64}.

Inductive world_step : World -> World -> Prop :=
| commits w k c :
    world_step w (mkWorld (upd (w_log w) k (w_log w k ++ [c])) (w_stream w) (w_installed w) (w_sub w))
| receives w k i st s' :
    serves (w_log w k) (phase (task (w_sub w) k)) (w_stream w k) i st -> step (w_sub w) k i = Some s' ->
    world_step w (mkWorld (w_log w) (upd (w_stream w) k st)
      (match i with WatchAnswer true => upd (w_installed w) k (length (w_log w k) :: w_installed w k) | _ => w_installed w end) s').

(** What the snapshot shows of the records under the keys of each namespace: of the trust records
    that name one mesh, the one with the greatest key. *)
Definition shows (S : Snapshot) (recs : Kind -> bytes -> option PropRecord) : Prop :=
  (forall f t, trusted S !! f = Some t <->
    exists key r, recs KTrusted key = Some r /\ parse_trusted_mesh r = Ok t /\ tm_mesh_fqdn t = f /\
      forall key' r' t', recs KTrusted key' = Some r' -> parse_trusted_mesh r' = Ok t' -> tm_mesh_fqdn t' = f ->
        bytes_cmp key key' <> Lt) /\
  (forall f g, g ∈ default [] (grants_by_mesh S !! f) <->
    exists key r, recs KGrants key = Some r /\ parse_grant r = Ok g /\ g_mesh_fqdn g = f) /\
  (forall ns c, c ∈ default (∅ : CapabilitySet) (exposable S !! ns) <->
    exists key r, recs KExposable key = Some r /\ parse_exposable_entry r = Ok (ns, c)).

(** ** Logs and records *)

Lemma latest_snoc log c key :
  latest (log ++ [c]) key = if decide (change_key c = key) then match c with Put r => Some r | Remove _ => None end else latest log key.
Proof.
  unfold latest. rewrite rev_app_distr. cbn. case_decide as E; [by destruct c|].
  by destruct (list_find _ (rev log)) as [[i []]|].
Qed.

Lemma latest_key log key r : latest log key = Some r -> rk_key (r_key r) = key.
Proof.
  unfold latest. destruct (list_find _ (rev log)) as [[i [r'|]]|] eqn:E; [|done|done]. intros [= <-].
  by apply list_find_Some in E as (_ & E & _).
Qed.

(** A task holds the records [recs]. *)
Definition holds (st : NsState) (recs : bytes -> option PropRecord) : Prop :=
  bt_wf st /\ forall key, bt_get key st = recs key.

Lemma holds_upsert st log r : holds st (latest log) -> holds (ns_upsert st r) (latest (log ++ [Put r])).
Proof.
  intros [W H]. split; [by apply bt_insert_wf|]. intros key. rewrite latest_snoc. cbn. unfold ns_upsert.
  case_decide as E; [subst; apply bt_get_insert|]. by rewrite bt_get_insert_ne.
Qed.

Lemma holds_delete st log k : holds st (latest log) -> holds (ns_delete st k) (latest (log ++ [Remove k])).
Proof.
  intros [W H]. split; [by apply bt_remove_wf|]. intros key. rewrite latest_snoc. cbn. unfold ns_delete.
  case_decide as E; [subst; by apply bt_get_remove|]. by rewrite bt_get_remove_ne.
Qed.

Lemma foldl_upsert_get rs st key :
  bt_get key (foldl ns_upsert st rs) = bt_get key st /\ (forall r, r ∈ rs -> rk_key (r_key r) <> key) \/
  exists r, r ∈ rs /\ rk_key (r_key r) = key /\ bt_get key (foldl ns_upsert st rs) = Some r.
Proof.
  revert st; induction rs as [|r rs IH]; intros st; cbn [foldl]; [left; split; [done|]; by intros r ?%not_elem_of_nil|].
  destruct (IH (ns_upsert st r)) as [[E H]|(r' & Hr & Hk & E)]; [|right; exists r'; split_and!; [by right|done|done]].
  destruct (decide (rk_key (r_key r) = key)) as [Ek|Ek].
  - right. exists r. split_and!; [by left|done|]. rewrite E, <- Ek. apply bt_get_insert.
  - left. split; [rewrite E; unfold ns_upsert; by rewrite bt_get_insert_ne|]. intros r' [->|Hr']%elem_of_cons; [done|auto].
Qed.

Lemma foldl_upsert_wf rs st : bt_wf st -> bt_wf (foldl ns_upsert st rs).
Proof. revert st; induction rs as [|r rs IH]; intros st H; cbn; [done|]. by apply IH, bt_insert_wf. Qed.

Lemma holds_listing log rs :
  (forall r, r ∈ rs <-> latest log (rk_key (r_key r)) = Some r) -> holds (ns_replace_from rs) (latest log).
Proof.
  intros H. split; [apply foldl_upsert_wf; constructor|]. intros key. unfold ns_replace_from.
  destruct (foldl_upsert_get rs [] key) as [[-> Hn]|(r & Hr & <- & ->)]; [|symmetry; by apply H].
  cbn. destruct (latest log key) as [r|] eqn:E; [|done]. pose proof (latest_key _ _ _ E) as <-.
  exfalso. by apply (Hn r); [apply H|].
Qed.

(** ** What a slice shows *)

Lemma derive_trusted_exact st f t :
  bt_wf st ->
  derive_trusted st !! f = Some t <->
  exists key r, (key, r) ∈ st /\ parse_trusted_mesh r = Ok t /\ tm_mesh_fqdn t = f /\
    forall key' r' t', (key', r') ∈ st -> parse_trusted_mesh r' = Ok t' -> tm_mesh_fqdn t' = f -> bytes_cmp key key' <> Lt.
Proof.
  induction st as [|[k r] st IH] using rev_ind; intros W.
  { split; [done|]. by intros (? & ? & ?%not_elem_of_nil & _). }
  unfold bt_wf in W. rewrite map_app in W. apply StronglySorted_app in W as (Wlt & W & _).
  assert (forall key' r', (key', r') ∈ st -> bytes_cmp key' k = Lt) as Hlt.
  { intros key' r' Hin. apply Wlt; [|by left]. apply list_elem_of_fmap. by exists (key', r'). }
  specialize (IH W). unfold derive_trusted in *. rewrite map_app, foldl_app. cbn [map foldl snd].
  setoid_rewrite elem_of_app. setoid_rewrite list_elem_of_singleton.
  destruct (parse_trusted_mesh r) as [t0|e] eqn:Ep.
  2: { rewrite IH. split; intros (key & r1 & H1 & H2 & H3 & H4).
       - exists key, r1. split_and!; [by left|done|done|]. intros key' r' t' [?|[= -> ->]]; [by eapply H4|congruence].
       - destruct H1 as [?|[= -> ->]]; [|congruence]. exists key, r1. split_and!; try done. intros; eapply H4; eauto. }
  unfold insert_trusted. destruct (decide (tm_mesh_fqdn t0 = f)) as [Ef|Ef].
  - rewrite Ef, lookup_insert_eq. split.
    + intros [= <-]. exists k, r. split_and!; [by right|done|done|]. intros key' r' t' [Hin|[= -> ->]] _ _ E.
      * specialize (Hlt _ _ Hin). pose proof (kcmp_antisym key' k) as A. unfold kcmp, bytes_ord in A. rewrite Hlt, E in A. done.
      * pose proof (kcmp_refl k) as A. unfold kcmp, bytes_ord in A. congruence.
    + intros (key & r1 & [Hin|[= -> ->]] & H2 & H3 & H4); [|congruence].
      exfalso. apply (H4 k r t0); [by right|done|done|]. by eapply Hlt.
  - rewrite lookup_insert_ne by done. rewrite IH. split; intros (key & r1 & H1 & H2 & H3 & H4).
    + exists key, r1. split_and!; [by left|done|done|]. intros key' r' t' [?|[= -> ->]]; [by eapply H4|congruence].
    + destruct H1 as [?|[= -> ->]]; [|congruence]. exists key, r1. split_and!; try done. intros; eapply H4; eauto.
Qed.

Lemma held_records st recs r : holds st recs -> r ∈ map snd st <-> exists key, recs key = Some r.
Proof.
  intros [W H]. rewrite list_elem_of_fmap. split.
  - intros ([key r'] & -> & Hin). exists key. by rewrite <- H, bt_get_elem.
  - intros [key E]. rewrite <- H, bt_get_elem in E by done. by exists (key, r).
Qed.

Lemma slices_show s recs :
  (forall k, slice_derived s k) -> (forall k, holds (state (task s k)) (recs k)) -> shows (snap s) recs.
Proof.
  intros Hs Hh. pose proof (Hs KTrusted) as S1. pose proof (Hs KGrants) as S2. pose proof (Hs KExposable) as S3.
  pose proof (Hh KTrusted) as H1. pose proof (Hh KGrants) as H2. pose proof (Hh KExposable) as H3.
  cbn in S1, S2, S3, H1, H2, H3. unfold shows. rewrite S1, S2, S3. split_and!.
  - intros f t. destruct H1 as [W H1]. rewrite derive_trusted_exact by done.
    repeat setoid_rewrite <- (bt_get_elem _ _ _ W). by repeat setoid_rewrite H1.
  - intros f g. rewrite derive_grants_lookup. setoid_rewrite (held_records _ _ _ H2). naive_solver.
  - intros ns c. rewrite derive_exposable_lookup. setoid_rewrite (held_records _ _ _ H3). naive_solver.
Qed.

(** ** The invariant *)

(** A task's records are those of the first [pos] commits. *)
Record task_inv (log : list Change) (n0 : nat) (st : option Stream) (installed : list nat) (t : Task) (pos : nat) : Prop := {
  ti_state : holds (state t) (latest (take pos log));
  ti_pos : pos <= length log;
  ti_old : n0 <= length log /\ Forall (fun h => n0 <= h) installed;
  ti_seeded : first_seeded t = true -> exists h, h ∈ installed /\ h <= pos;
  ti_phase : match phase t with
             | AwaitWatch since => since = Z.of_nat pos
             | Watching _ => exists h, st = Some (mkStream pos h) /\ h ∈ installed
             | _ => True
             end }.

Definition world_inv (log0 : Kind -> list Change) (w : World) : Prop :=
  sub_inv (w_sub w) /\
  exists pos, forall k, task_inv (w_log w k) (length (log0 k)) (w_stream w k) (w_installed w k) (task (w_sub w) k) (pos k).

Lemma task_inv_commit log n0 st ins t pos c : task_inv log n0 st ins t pos -> task_inv (log ++ [c]) n0 st ins t pos.
Proof.
  intros [H1 H2 [H3 H3'] H4 H5]. split; try done; rewrite ?length_app; [by rewrite take_app_le|lia|split; [lia|done]].
Qed.

(** A step as its own task sees it. *)
Definition next_task (t : Task) (i : Input) : option Task :=
  match phase t, i with
  | AwaitList, ListAnswer None => Some (with_phase t Sleeping)
  | AwaitList, ListAnswer (Some l) =>
    Some (mkTask (ns_replace_from (l_records l)) (first_seeded t) INITIAL_BACKOFF (AwaitWatch (l_nseq l)))
  | AwaitWatch _, WatchAnswer false => Some (with_phase t Sleeping)
  | AwaitWatch _, WatchAnswer true => Some (with_phase t (Watching None))
  | Watching _, StreamItem None | Watching _, StreamItem (Some None) => Some (with_phase t Sleeping)
  | Watching _, StreamItem (Some (Some (Upsert r))) => Some (with_state t (ns_upsert (state t) r))
  | Watching _, StreamItem (Some (Some (Delete key))) => Some (with_state t (ns_delete (state t) key))
  | Watching (Some prev), StreamItem (Some (Some (CaughtUp n))) => Some (if (prev =? n)%Z then t else with_phase t Sleeping)
  | Watching None, StreamItem (Some (Some (CaughtUp n))) => Some (mkTask (state t) true (backoff t) (Watching (Some n)))
  | Sleeping, Wake => Some (mkTask (state t) (first_seeded t) (Z.min (backoff t * 2) MAX_BACKOFF) AwaitList)
  | _, _ => None
  end.

Lemma step_task s k i s' : step s k i = Some s' -> next_task (task s k) i = Some (task s' k).
Proof.
  unfold step, next_task. intros H.
  destruct (phase (task s k)) as [|since|[m|]|] eqn:Ep, i as [[l|]|[]|[[[r|key|n]|]|]|]; try discriminate H;
    try (destruct (m =? n)%Z); injection H as <-; unfold seed; destruct k; cbn; repeat case_match; done.
Qed.

Lemma task_inv_receive log n0 st ins t pos i st' t' :
  task_inv log n0 st ins t pos -> serves log (phase t) st i st' -> next_task t i = Some t' ->
  exists pos', task_inv log n0 st' (match i with WatchAnswer true => length log :: ins | _ => ins end) t' pos'.
Proof.
  intros [H1 H2 [H3 H3'] H4 H5] Hs Hn. unfold next_task in Hn.
  destruct Hs as [l st Hl Hr|since st Ep|d h c Hc|d h Hh|i st Hi].
  - destruct (phase t) as [| |[]|]; try discriminate Hn. injection Hn as <-. exists (length log). split; cbn; try done.
    + rewrite take_ge by lia. by apply holds_listing.
    + intros Hf. destruct (H4 Hf) as (h & Hin & Hle). exists h. split; [done|lia].
  - rewrite Ep in Hn, H5. injection Hn as <-. exists pos. split; cbn; try done.
    + split; [done|]. by constructor.
    + intros Hf. destruct (H4 Hf) as (h & Hin & Hle). exists h. split; [by right|done].
    + exists (length log). rewrite H5, Nat2Z.id. split; [done|by left].
  - destruct (phase t) as [| |m|] eqn:Ep; try (by destruct c; discriminate Hn). destruct H5 as (h' & [= -> ->] & Hin).
    exists (S pos). pose proof (take_S_r _ _ _ Hc) as Et. pose proof (lookup_lt_Some _ _ _ Hc).
    destruct c as [r|key], m; cbn [change_event] in Hn; injection Hn as <-; (split; cbn; [rewrite Et|lia|done| |]);
      try (by apply holds_upsert); try (by apply holds_delete);
      try (intros Hf; destruct (H4 Hf) as (h & Hin' & Hle); exists h; split; [done|lia]);
      rewrite Ep; by exists h'.
  - destruct (phase t) as [| |m|] eqn:Ep; try discriminate Hn. destruct H5 as (h' & [= -> ->] & Hin). exists pos.
    destruct m as [m|]; [destruct (m =? _)%Z|]; injection Hn as <-; split; cbn; rewrite ?Ep; try done; eauto.
  - exists pos. rewrite !elem_of_cons in Hi. destruct Hi as [->|[->|[->|[->|[->|[]%elem_of_nil]]]]];
      destruct (phase t) as [| |[m|]|] eqn:Ep; try discriminate Hn; injection Hn as <-; split; cbn; try done; rewrite ?Ep; try done.
Qed.

Lemma world_step_inv log0 w w' : world_step w w' -> world_inv log0 w -> world_inv log0 w'.
Proof.
  intros [w0 k c|w0 k i st s' Hs Hi] [Hsub [pos Hp]]; (split; cbn).
  - done.
  - exists pos. intros k'. unfold upd. case_decide as E; [subst; by apply task_inv_commit|done].
  - by eapply step_inv.
  - destruct (task_inv_receive _ _ _ _ _ _ _ _ _ (Hp k) Hs (step_task _ _ _ _ Hi)) as [p K].
    destruct (step_tasks _ _ _ _ Hi) as [_ Ho]. exists (upd pos k p). intros k'. unfold upd at 1 2 3.
    case_decide as E; [subst|]; [|rewrite Ho by done; specialize (Hp k'); destruct i as [?|[]|?|]; try done; unfold upd; by rewrite decide_False].
    destruct i as [?|[]|?|]; try done. unfold upd. by rewrite decide_True.
Qed.

Lemma started_inv log0 : world_inv log0 (started log0).
Proof.
  split; [apply sub_start_inv|]. exists (fun _ => 0). intros k. destruct k; (split; cbn; [|lia|by split|done|done]);
    (split; [constructor|]; by intros []).
Qed.

Lemma world_run_inv log0 w w' : rtc world_step w w' -> world_inv log0 w -> world_inv log0 w'.
Proof. induction 1 as [|w w1 w2 Hs _ IH]; [done|]. intros I. apply IH. by eapply world_step_inv. Qed.

(** ** The claim *)

(** C23 The snapshot follows the server. Let a wgd server, holding the commits [log0] when the
    subscriber starts, answer as documented while more commits arrive, each of the three tasks in
    any order and with failures at any point. Then at every moment the snapshot shows, namespace by
    namespace, the records some prefix of the server's log leaves; and once the cache is ready that
    prefix contains, in every namespace, all the commits made before some watch was installed (so
    all of [log0]): the marker was waited for, and no commit between the listing and the watch is
    missing. *)
Theorem snapshot_follows_server log0 w :
  rtc world_step (started log0) w ->
  exists pos,
    (forall k, pos k <= length (w_log w k)) /\
    shows (snap (w_sub w)) (fun k => latest (take (pos k) (w_log w k))) /\
    (is_ready (w_sub w) = true -> forall k, exists h, h ∈ w_installed w k /\ length (log0 k) <= h <= pos k).
Proof.
  intros Hw. assert (world_inv log0 w) as [Hsub [pos Hp]].
  { eapply world_run_inv; [exact Hw|apply started_inv]. }
  exists pos. split_and!.
  - intros k. apply Hp.
  - apply slices_show; [apply Hsub|]. intros k. apply Hp.
  - intros Hr k. destruct Hsub as [_ _ Hrd _]. destruct (ti_seeded _ _ _ _ _ _ (Hp k)) as (h & Hin & Hle); [by apply Hrd|].
    exists h. split; [done|]. split; [|done]. destruct (ti_old _ _ _ _ _ _ (Hp k)) as [_ F]. rewrite Forall_forall in F. by apply F.
Qed.
End world.

(** ** Witness

    The trust record is there at the start; the other two are committed after the listings, the
    grant's before its watch is installed and the exposable one while it is open. *)

Module Example.
#[local] Instance ex_chrono : Chrono := witness_chrono.
#[local] Instance ex_base64 : Base64 := witness_base64.

Definition ex_log0 (k : Kind) : list Change := match k with KTrusted => [Put sample_trust_record] | _ => [] end.

Inductive Action := Commit_ (k : Kind) (c : Change) | Receive (k : Kind) (i : Input) (st : option Stream).

Definition act (w : World) (a : Action) : World :=
  match a with
  | Commit_ k c => mkWorld (upd (w_log w) k (w_log w k ++ [c])) (w_stream w) (w_installed w) (w_sub w)
  | Receive k i st =>
    mkWorld (w_log w) (upd (w_stream w) k st)
      (match i with WatchAnswer true => upd (w_installed w) k (length (w_log w k) :: w_installed w k) | _ => w_installed w end)
      (default (w_sub w) (step (w_sub w) k i))
  end.

Definition allowed (w : World) (a : Action) : Prop :=
  match a with
  | Commit_ _ _ => True
  | Receive k i st => serves (w_log w k) (phase (task (w_sub w) k)) (w_stream w k) i st /\ is_Some (step (w_sub w) k i)
  end.

Fixpoint all_allowed (w : World) (l : list Action) : Prop :=
  match l with [] => True | a :: l => allowed w a /\ all_allowed (act w a) l end.

Lemma act_run l w : all_allowed w l -> rtc world_step w (foldl act w l).
Proof.
  revert w; induction l as [|a l IH]; intros w; [intros _; apply rtc_refl|]. cbn [all_allowed foldl]. intros [Ha Hl].
  eapply rtc_l; [|by apply IH]. destruct a as [k c|k i st]; [apply commits|]. destruct Ha as [Hs [s' E]]. cbn [act]. rewrite E.
  by apply receives.
Qed.

Definition change (c : Change) : Input := StreamItem (Some (Some (change_event c))).
Definition mark (n : nat) : Input := StreamItem (Some (Some (CaughtUp (Z.of_nat n)))).
Definition grant_put : Change := Put sample_grant_record.
Definition expose_put : Change := Put sample_expose_record.

Definition ex_run : list Action :=
  [Receive KTrusted (ListAnswer (Some (mkListing [sample_trust_record] 1))) None;
   Receive KGrants (ListAnswer (Some (mkListing [] 0))) None;
   Receive KExposable (ListAnswer None) None;
   Commit_ KGrants grant_put;
   Receive KGrants (WatchAnswer true) (Some (mkStream 0 1));
   Receive KTrusted (WatchAnswer true) (Some (mkStream 1 1));
   Receive KExposable Wake None;
   Receive KTrusted (mark 1) (Some (mkStream 1 1));
   Receive KGrants (change grant_put) (Some (mkStream 1 1));
   Receive KGrants (mark 1) (Some (mkStream 1 1));
   Receive KExposable (ListAnswer (Some (mkListing [] 0))) None;
   Receive KExposable (WatchAnswer true) (Some (mkStream 0 0));
   Commit_ KExposable expose_put;
   Receive KExposable (mark 0) (Some (mkStream 0 0));
   Receive KExposable (change expose_put) (Some (mkStream 1 0))].

Definition ex_world : World := foldl act (started ex_log0) ex_run.

Lemma ex_listing_empty r : r ∈ [] <-> latest [] (rk_key (r_key r)) = Some r.
Proof. split; [by intros ?%not_elem_of_nil|done]. Qed.

Lemma ex_listing_trust r : r ∈ [sample_trust_record] <-> latest [Put sample_trust_record] (rk_key (r_key r)) = Some r.
Proof.
  rewrite list_elem_of_singleton. change [Put sample_trust_record] with ([] ++ [Put sample_trust_record]). rewrite latest_snoc.
  split; [intros ->; by rewrite decide_True|]. case_decide; [by intros [= ->]|done].
Qed.

Lemma step_defined {A} (o : option A) : (match o with Some _ => true | None => false end) = true -> is_Some o.
Proof. destruct o; [by eexists|discriminate]. Qed.

Ltac received := split; [split; [|apply step_defined; vm_compute; reflexivity]|].

Lemma ex_allowed : all_allowed (started ex_log0) ex_run.
Proof.
  received. { apply serves_list; [reflexivity|exact ex_listing_trust]. }
  received. { apply serves_list; [reflexivity|exact ex_listing_empty]. }
  received. { apply serves_failure. by left. }
  split; [exact I|].
  received. { refine (serves_watch _ _ 0%Z _ _). vm_compute. reflexivity. }
  received. { refine (serves_watch _ _ 1%Z _ _). vm_compute. reflexivity. }
  received. { apply serves_failure. do 4 right. by left. }
  received. { refine (serves_caught_up _ _ 1 1 _). lia. }
  received. { refine (serves_change _ _ 0 1 grant_put _). reflexivity. }
  received. { refine (serves_caught_up _ _ 1 1 _). lia. }
  received. { apply serves_list; [reflexivity|exact ex_listing_empty]. }
  received. { refine (serves_watch _ _ 0%Z _ _). vm_compute. reflexivity. }
  split; [exact I|].
  received. { refine (serves_caught_up _ _ 0 0 _). lia. }
  received. { refine (serves_change _ _ 0 0 expose_put _). reflexivity. }
  exact I.
Qed.

Lemma snapshot_follows_server_witness :
  is_ready (w_sub ex_world) = true /\
  exists pos, shows (snap (w_sub ex_world)) (fun k => latest (take (pos k) (w_log ex_world k))) /\
    forall k, exists h, h ∈ w_installed ex_world k /\ length (ex_log0 k) <= h <= pos k.
Proof.
  assert (is_ready (w_sub ex_world) = true) as Hr by (vm_compute; reflexivity). split; [exact Hr|].
  destruct (snapshot_follows_server ex_log0 ex_world (act_run ex_run (started ex_log0) ex_allowed)) as (pos & _ & Hs & Hp).
  exists pos. split; [exact Hs|exact (Hp Hr)].
Defined.
End Example.
