(* ===== verification/Json.v ===== *)
(** * JSON values as an interface

    The signed inventory is read through [serde_json::Value]'s accessors; that
    crate is not part of the program, so the accessors are an interface.  A plain
    inductive type of JSON values with the accessors' documented meaning shows
    that the interface can be implemented and serves the witnesses. *)

From S2P Require Import Prelude Utf8 Str.

Class Json (J : Type) := {
  j_get : J -> bytes -> option J;
  j_as_str : J -> option bytes;
  j_as_bool : J -> option bool;
  j_as_u64 : J -> option Z;
  j_as_array : J -> option (list J);
  j_is_null : J -> bool }.

(** [v.get(f).and_then(Value::as_str)] and the like. *)
Definition str_field {J} `{Json J} (v : J) (f : bytes) : option bytes := x ← j_get v f; j_as_str x.
Definition bool_field {J} `{Json J} (v : J) (f : bytes) : option bool := x ← j_get v f; j_as_bool x.
Definition u64_field {J} `{Json J} (v : J) (f : bytes) : option Z := x ← j_get v f; j_as_u64 x.
Definition array_field {J} `{Json J} (v : J) (f : bytes) : option (list J) := x ← j_get v f; j_as_array x.

(** [serde_json::Value]: a number is an integer of [i64] or [u64], or an [f64] (its
    bit pattern here); an object is its entries. *)
Inductive JsonTree :=
| JNull | JBool (b : bool) | JNum (n : Z) | JFloat (bits : Z) | JStr (s : bytes)
| JArr (l : list JsonTree) | JObj (m : list (bytes * JsonTree)).

Fixpoint assoc {A} (k : bytes) (m : list (bytes * A)) : option A :=
  match m with [] => None | (k', v) :: m' => if bool_decide (k = k') then Some v else assoc k m' end.

#[export] Instance json_tree : Json JsonTree := {
  j_get v f := match v with JObj m => assoc f m | _ => None end;
  j_as_str v := match v with JStr s => Some s | _ => None end;
  j_as_bool v := match v with JBool b => Some b | _ => None end;
  j_as_u64 v := match v with JNum n => if (0 <=? n)%Z && (n <=? U64_MAX)%Z then Some n else None | _ => None end;
  j_as_array v := match v with JArr l => Some l | _ => None end;
  j_is_null v := match v with JNull => true | _ => false end }.
