(* ===== verification/Canonical.v ===== *)
(** * Canonical JSON ([cosmix-lib-mesh-trust/src/canonical.rs])

    The one serialiser every signature is computed over: object keys in order,
    minimal escapes, no white space.  [emit_value] gives the bytes the source's
    function of that name appends to its output vector.  The text of an [f64] is
    the [ryu] crate's and is an interface ([FloatText]) with its documented
    behaviour as laws.  The theorem is that the bytes determine the value, up to
    the order of object keys, which they do not depend on. *)

From S2P Require Import Prelude Utf8 Str BTree Json.
From Stdlib Require Import DecimalString DecimalZ.

(** ** Numbers *)

(** The decimal text of an integer. *)
Definition dec (n : Z) : bytes := bs (NilEmpty.string_of_int (Z.to_int n)).

Class FloatText := fmt_f64 : Z -> bytes.

Definition f64_finite (bits : Z) : bool :=
  (0 <=? bits)%Z && (bits <=? U64_MAX)%Z && negb (Z.land (Z.shiftr bits 52) 0x7ff =? 0x7ff)%Z.

Definition is_number_byte (b : byte) : bool :=
  is_ascii_digit b || bool_decide (b ∈ [x2b; x2d; x2e; x65]).

(** Shortest text that reads back as the number; a text with a point or an
    exponent, so never an integer's. *)
Class FloatTextLaws {FT : FloatText} := {
  fmt_f64_inj : forall x y, f64_finite x = true -> f64_finite y = true -> fmt_f64 x = fmt_f64 y -> x = y;
  fmt_f64_bytes : forall x, f64_finite x = true -> forallb is_number_byte (fmt_f64 x) = true;
  fmt_f64_mark : forall x, f64_finite x = true -> x2e ∈ fmt_f64 x \/ x65 ∈ fmt_f64 x }.

(** ** The serialiser *)

Definition hex_digit (n : N) : byte := if (n <? 10)%N then byte_of (0x30 + n) else byte_of (0x57 + n).

(** [write!(out, "\\u{:04x}", c)] *)
Definition unicode_escape (n : N) : bytes :=
  [x5c; x75; hex_digit (n / 4096 mod 16); hex_digit (n / 256 mod 16); hex_digit (n / 16 mod 16); hex_digit (n mod 16)].

(** One character of a string. *)
Definition emit_char (c : bytes) : bytes :=
  match c with
  | [x22] => [x5c; x22]
  | [x5c] => [x5c; x5c]
  | [x0a] => [x5c; x6e]
  | [x0d] => [x5c; x72]
  | [x09] => [x5c; x74]
  | [x08] => [x5c; x62]
  | [x0c] => [x5c; x66]
  | [b] => if (b2n b <? 0x20)%N then unicode_escape (b2n b) else c
  | _ => c
  end.

Definition emit_json_string (s : bytes) : bytes := x22 :: concat (map emit_char (chars s)) ++ [x22].

(** The loop with its [first] flag: a comma before every item but the first. *)
Definition comma_sep (items : list bytes) : bytes :=
  match items with [] => [] | i :: rest => i ++ concat (map (cons x2c) rest) end.

Definition key_leb (a b : bytes) : bool := match bytes_cmp a b with Gt => false | _ => true end.

Section emit.
Context {FT : FloatText}.

Fixpoint emit_value (v : JsonTree) : bytes :=
  match v with
  | JNull => bs "null"
  | JBool true => bs "true"
  | JBool false => bs "false"
  | JNum n => dec n
  | JFloat f => fmt_f64 f
  | JStr s => emit_json_string s
  | JArr l => x5b :: comma_sep (map emit_value l) ++ [x5d]
  | JObj m =>
    let obj := map (fun kv => (fst kv, emit_value (snd kv))) m in
    let keys := stable_sort key_leb (map fst m) in
    x7b :: comma_sep (map (fun k => emit_json_string k ++ x3a :: default [] (assoc k obj)) keys) ++ [x7d]
  end.

Definition to_canonical_bytes (v : JsonTree) : bytes := emit_value v.
End emit.

(** ** What the bytes stand for *)

(** A value [serde_json] can hold: integers of [i64] or [u64], finite floats,
    UTF-8 strings, no key twice in an object. *)
Fixpoint json_wf (v : JsonTree) : bool :=
  match v with
  | JNull | JBool _ => true
  | JNum n => (- 2 ^ 63 <=? n)%Z && (n <=? U64_MAX)%Z
  | JFloat f => f64_finite f
  | JStr s => from_utf8_ok s
  | JArr l => forallb json_wf l
  | JObj m =>
    bool_decide (NoDup (map fst m)) && forallb (fun kv => from_utf8_ok (fst kv) && json_wf (snd kv)) m
  end.

Definition entry_leb {A} (x y : bytes * A) : bool := key_leb (fst x) (fst y).

(** The value with the keys of every object in order: two values have the same
    [canon] when they differ in the order of keys only. *)
Fixpoint canon (v : JsonTree) : JsonTree :=
  match v with
  | JArr l => JArr (map canon l)
  | JObj m => JObj (stable_sort entry_leb (map (fun kv => (fst kv, canon (snd kv))) m))
  | _ => v
  end.

(** ** The strict reader *)

Inductive StrictError := NonFiniteFloat | DuplicateKey (k : bytes).

(** [deserialize_strict_value] on what the JSON parser delivers, in order: the tree
    stands for the sequence of its visitor calls, so an object may come with a
    key twice. *)
Fixpoint deserialize_strict_value (raw : JsonTree) : result JsonTree StrictError :=
  match raw with
  | JFloat f => if f64_finite f then Ok (JFloat f) else Err NonFiniteFloat
  | JArr l =>
    let? arr := (fix visit_seq (l : list JsonTree) (arr : list JsonTree) :=
      match l with
      | [] => Ok arr
      | x :: l' => let? item := deserialize_strict_value x in visit_seq l' (arr ++ [item])
      end) l [] in
    Ok (JArr arr)
  | JObj m =>
    let? obj := (fix visit_map (m : list (bytes * JsonTree)) (obj : list (bytes * JsonTree)) :=
      match m with
      | [] => Ok obj
      | (k, x) :: m' =>
        let? v := deserialize_strict_value x in
        if bool_decide (k ∈ map fst obj) then Err (DuplicateKey k) else visit_map m' (obj ++ [(k, v)])
      end) m [] in
    Ok (JObj obj)
  | v => Ok v
  end.

(** What the parser's own types guarantee: integers of their width, floats of 64
    bits, UTF-8 strings. *)
Fixpoint raw_ok (v : JsonTree) : bool :=
  match v with
  | JNull | JBool _ | JFloat _ => true
  | JNum n => (- 2 ^ 63 <=? n)%Z && (n <=? U64_MAX)%Z
  | JStr s => from_utf8_ok s
  | JArr l => forallb raw_ok l
  | JObj m => forallb (fun kv => from_utf8_ok (fst kv) && raw_ok (snd kv)) m
  end.

(** Induction with the members of arrays and objects. *)
Lemma json_ind (P : JsonTree -> Prop) :
  P JNull -> (forall b, P (JBool b)) -> (forall n, P (JNum n)) -> (forall f, P (JFloat f)) -> (forall s, P (JStr s)) ->
  (forall l, Forall P l -> P (JArr l)) -> (forall m, Forall (fun kv => P (snd kv)) m -> P (JObj m)) -> forall v, P v.
Proof.
  intros Hn Hb Hi Hf Hs Ha Ho. fix go 1. intros [|b|n|f|s|l|m]; [done|done|done|done|done| |].
  - apply Ha. induction l as [|x l IH]; constructor; [apply go|exact IH].
  - apply Ho. induction m as [|[k x] m IH]; constructor; [apply go|exact IH].
Qed.

(** The two loops, as functions of what a member reads as. *)
Definition strict_seq (f : JsonTree -> result JsonTree StrictError) :=
  fix visit_seq (l : list JsonTree) (arr : list JsonTree) :=
    match l with [] => Ok arr | x :: l' => let? item := f x in visit_seq l' (arr ++ [item]) end.
Definition strict_map (f : JsonTree -> result JsonTree StrictError) :=
  fix visit_map (m : list (bytes * JsonTree)) (obj : list (bytes * JsonTree)) :=
    match m with
    | [] => Ok obj
    | (k, x) :: m' =>
      let? v := f x in if bool_decide (k ∈ map fst obj) then Err (DuplicateKey k) else visit_map m' (obj ++ [(k, v)])
    end.

Definition strict_spec (raw : JsonTree) : Prop :=
  raw_ok raw = true -> forall v, deserialize_strict_value raw = Ok v <-> v = raw /\ json_wf raw = true.

Lemma strict_seq_spec l : Forall strict_spec l -> forallb raw_ok l = true -> forall acc v,
  strict_seq deserialize_strict_value l acc = Ok v <-> v = acc ++ l /\ forallb json_wf l = true.
Proof.
  induction 1 as [|x l Hx Hl IH]; cbn [strict_seq forallb]; intros Hr acc v.
  { rewrite app_nil_r. naive_solver. }
  apply andb_true_iff in Hr as [Hr1 Hr2]. rewrite result_bind_Ok, andb_true_iff. setoid_rewrite (Hx Hr1).
  setoid_rewrite (IH Hr2). setoid_rewrite <- app_assoc. naive_solver.
Qed.

Lemma strict_map_spec m : Forall (fun kv => strict_spec (snd kv)) m ->
  forallb (fun kv => from_utf8_ok (fst kv) && raw_ok (snd kv)) m = true -> forall acc v, NoDup (map fst acc) ->
  strict_map deserialize_strict_value m acc = Ok v <->
  v = acc ++ m /\ NoDup (map fst (acc ++ m)) /\ forallb (fun kv => from_utf8_ok (fst kv) && json_wf (snd kv)) m = true.
Proof.
  induction 1 as [|[k x] m Hx Hm IH]; cbn [strict_map forallb fst snd]; intros Hr acc v Hd.
  { rewrite app_nil_r. naive_solver. }
  rewrite !andb_true_iff in Hr. destruct Hr as [[Hk Hr1] Hr2]. rewrite result_bind_Ok, !andb_true_iff.
  setoid_rewrite (Hx Hr1). change ((k, x) :: m) with ([(k, x)] ++ m). rewrite (app_assoc acc). cbn [fst snd] in *.
  split.
  - intros (y & [-> Hy] & H). case_bool_decide as Hin; [done|]. apply IH in H; [naive_solver|done|].
    rewrite map_app. apply NoDup_app. cbn. split_and!; [done|intros z Hz ->%list_elem_of_singleton; done|apply NoDup_singleton].
  - intros (-> & Hd' & [_ Hy] & Hf). exists x. split; [done|].
    assert (NoDup (map fst (acc ++ [(k, x)]))) as Hd1 by (rewrite map_app in Hd'; by apply NoDup_app in Hd' as [? _]).
    rewrite bool_decide_eq_false_2; [by apply IH|]. rewrite map_app in Hd1. apply NoDup_app in Hd1 as (_ & H & _).
    intros Hin. apply (H _ Hin). cbn. constructor.
Qed.

Lemma strict_all raw : strict_spec raw.
Proof.
  induction raw as [| | | | |l IH|m IH] using json_ind; intros Hr v.
  1,2,3,5: split; [intros [= <-]; by split|by intros [-> _]].
  - cbn. destruct (f64_finite f); naive_solver.
  - cbn [deserialize_strict_value json_wf]. rewrite result_bind_Ok. fold (strict_seq deserialize_strict_value).
    setoid_rewrite (strict_seq_spec l IH Hr). naive_solver.
  - cbn [deserialize_strict_value json_wf]. rewrite result_bind_Ok. fold (strict_map deserialize_strict_value).
    rewrite andb_true_iff, bool_decide_eq_true.
    assert (forall a, strict_map deserialize_strict_value m [] = Ok a <->
      a = m /\ NoDup (map fst m) /\ forallb (fun kv => from_utf8_ok (fst kv) && json_wf (snd kv)) m = true) as Hs
      by (intros a; apply strict_map_spec; [done|done|constructor]).
    setoid_rewrite Hs. naive_solver.
Qed.

(** The strict reader is exact: what a parser delivers is accepted iff no object in
    it has a key twice and no float is NaN or infinite, and it is then returned
    unchanged, so what is signed or verified is a well-formed value. *)
Theorem strict_reader_exact raw v : raw_ok raw = true ->
  deserialize_strict_value raw = Ok v <-> v = raw /\ json_wf raw = true.
Proof. intros Hr. by apply strict_all. Qed.

Lemma strict_reader_exact_witness :
  deserialize_strict_value (JArr [JObj [(bs "a", JNull); (bs "b", JNum 1)]]) = Ok (JArr [JObj [(bs "a", JNull); (bs "b", JNum 1)]]) /\
  deserialize_strict_value (JObj [(bs "a", JNull); (bs "a", JNum 1)]) = Err (DuplicateKey (bs "a")).
Proof.
  split; [|vm_compute; reflexivity].
  apply (strict_reader_exact (JArr [JObj [(bs "a", JNull); (bs "b", JNum 1)]])); [vm_compute; reflexivity|].
  split; [reflexivity|vm_compute; reflexivity].
Defined.

(** ** Strings are cut off unambiguously *)

Lemma scalar_cut c d x y : scalar c = true -> scalar d = true -> c ++ x = d ++ y -> c = d /\ x = y.
Proof.
  intros Hc Hd E. apply scalar_inv in Hc as (bc & rc & -> & ? & ? & ? ). apply scalar_inv in Hd as (bd & rd & -> & ? & ? & ?).
  injection E as -> E. apply app_inj_1 in E as [-> ->]; [done|]. cbn in *. lia.
Qed.

(** Of two texts with a common extension one is a prefix of the other. *)
Lemma prefix_cmp (u v x y : bytes) : u ++ x = v ++ y -> starts_with u v = true \/ starts_with v u = true.
Proof.
  rewrite !starts_with_spec. revert v; induction u as [|b u IH]; intros [|c v] E; [left; by eexists|left; by eexists|right; by eexists|].
  cbn in E. injection E as -> E. destruct (IH v E) as [[r ->]|[r ->]]; [left|right]; by eexists.
Qed.

Lemma emit_ascii_cut b c x y : emit_char [b] ++ x = emit_char [c] ++ y -> b = c /\ x = y.
Proof.
  intros E. assert (b = c) as ->; [|split; [done|by apply app_inv_head in E]].
  pose proof (byte_forall (fun b => forallb (fun c => negb (starts_with (emit_char [b]) (emit_char [c])
    || starts_with (emit_char [c]) (emit_char [b])) || Byte.eqb b c) all_bytes) ltac:(by vm_compute) b) as H.
  cbn beta in H. rewrite forallb_forall in H. specialize (H c (all_bytes_In c)).
  apply orb_true_iff in H as [H|H]; [|by apply byte_eqb_eq]. apply negb_true_iff, orb_false_iff in H as [H1 H2].
  destruct (prefix_cmp _ _ _ _ E); congruence.
Qed.

(** A character is emitted as itself or as an escape that starts with a
    backslash; never as a quote. *)
Lemma emit_char_head c : scalar c = true ->
  (exists b r, emit_char c = b :: r /\ b <> x22) /\
  ((exists b, c = [b] /\ seq1 b = true) \/ (emit_char c = c /\ exists b r, c = b :: r /\ seq1 b = false)).
Proof.
  intros Hc. destruct c as [|b [|b1 r]]; [done| |].
  - split; [|left; eexists; split; [done|exact Hc]].
    pose proof (byte_forall (fun b => match emit_char [b] with [] => false | h :: _ => negb (Byte.eqb h x22) end)
      ltac:(by vm_compute) b) as H. cbn beta in H. destruct (emit_char [b]) as [|h t]; [done|].
    exists h, t. split; [done|]. by apply byte_eqb_ne, negb_true_iff.
  - assert (seq1 b = false) as Hb.
    { destruct r as [|b2 [|b3 [|]]]; cbn in Hc; [by eapply lead_not_cont| | |done].
      - destruct (seq1 b) eqn:E; [|done]. apply cont_utf8_len_lead in E as [E _].
        apply seq3_inv in Hc. naive_solver congruence.
      - destruct (seq1 b) eqn:E; [|done]. apply cont_utf8_len_lead in E as [E _].
        apply seq4_inv in Hc. naive_solver congruence. }
    assert (emit_char (b :: b1 :: r) = b :: b1 :: r) as E by (by destruct b).
    rewrite E. split; [|right; split; [done|by eexists _, _]]. eexists _, _. split; [done|]. intros ->. by cbn in Hb.
Qed.

Lemma emit_ascii_head b : seq1 b = true -> exists h r, emit_char [b] = h :: r /\ seq1 h = true.
Proof.
  intros Hb. pose proof (byte_forall (fun b => negb (seq1 b) || match emit_char [b] with [] => false | h :: _ => seq1 h end)
    ltac:(by vm_compute) b) as H. cbn beta in H. rewrite Hb in H. destruct (emit_char [b]); [done|]. eauto.
Qed.

Lemma emit_char_cut c d x y : scalar c = true -> scalar d = true ->
  emit_char c ++ x = emit_char d ++ y -> c = d /\ x = y.
Proof.
  intros Hc Hd E. destruct (emit_char_head c Hc) as [_ [(b & -> & Hb)|(Ec & b & r & -> & Hb)]],
    (emit_char_head d Hd) as [_ [(b' & -> & Hb')|(Ed & b' & r' & -> & Hb')]].
  - apply emit_ascii_cut in E as [-> ->]. done.
  - destruct (emit_ascii_head b Hb) as (h & t & Eh & Hh). rewrite Eh, Ed in E. injection E as -> _. congruence.
  - destruct (emit_ascii_head b' Hb') as (h & t & Eh & Hh). rewrite Eh, Ec in E. injection E as <- _. congruence.
  - rewrite Ec, Ed in E. by apply scalar_cut in E.
Qed.

Lemma emit_chars_cut cs ds x y :
  Forall (fun c => scalar c = true) cs -> Forall (fun c => scalar c = true) ds ->
  concat (map emit_char cs) ++ x22 :: x = concat (map emit_char ds) ++ x22 :: y -> cs = ds /\ x = y.
Proof.
  intros Fc; revert ds; induction Fc as [|c cs Hc Fc IH]; intros ds Fd E; destruct Fd as [|d ds Hd Fd]; cbn in E.
  - by injection E as ->.
  - destruct (emit_char_head d Hd) as [(b & r & Er & Hb) _]. rewrite Er in E. injection E as <- _. done.
  - destruct (emit_char_head c Hc) as [(b & r & Er & Hb) _]. rewrite Er in E. injection E as -> _. done.
  - rewrite <- !app_assoc in E. apply emit_char_cut in E as [-> E]; [|done..]. by apply IH in E as [-> ->].
Qed.

Lemma emit_string_cut s t x y : utf8 s -> utf8 t ->
  emit_json_string s ++ x = emit_json_string t ++ y -> s = t /\ x = y.
Proof.
  intros Hs Ht E. unfold emit_json_string in E. cbn in E. rewrite <- !app_assoc in E. injection E as E.
  apply emit_chars_cut in E as [E ->]; [|by apply chars_Forall..].
  by rewrite <- (concat_chars s Hs), <- (concat_chars t Ht), E.
Qed.

(** ** Numbers are cut off where no number byte follows *)

(** What may follow a value: nothing, or a separator or closing bracket. *)
Definition after_value (x : bytes) : Prop :=
  match x with [] => True | b :: _ => b = x2c \/ b = x5d \/ b = x7d end.

Lemma span_cut (p : byte -> bool) u v x y :
  forallb p u = true -> forallb p v = true ->
  match x with [] => True | b :: _ => p b = false end -> match y with [] => True | b :: _ => p b = false end ->
  u ++ x = v ++ y -> u = v /\ x = y.
Proof.
  revert v; induction u as [|b u IH]; intros [|c v] Hu Hv Hx Hy E; cbn in *.
  - done.
  - apply andb_true_iff in Hv as [Hc _]. rewrite E in Hx. congruence.
  - apply andb_true_iff in Hu as [Hb _]. rewrite <- E in Hy. congruence.
  - apply andb_true_iff in Hu as [_ Hu], Hv as [_ Hv]. injection E as -> E. by apply IH in E as [-> ->].
Qed.

Lemma after_value_number x : after_value x -> match x with [] => True | b :: _ => is_number_byte b = false end.
Proof. destruct x as [|b x]; cbn; [done|]. by intros [->|[->| ->]]. Qed.

Lemma dec_inj m n : dec m = dec n -> m = n.
Proof.
  unfold dec, bs. intros E. apply (f_equal String.string_of_list_byte) in E.
  rewrite !String.string_of_list_byte_of_string in E. apply (f_equal NilEmpty.int_of_string) in E.
  rewrite !NilEmpty.isi in E. injection E as E. apply (f_equal Z.of_int) in E. by rewrite !DecimalZ.of_to in E.
Qed.

Lemma dec_bytes n : forallb (fun b => is_ascii_digit b || Byte.eqb b x2d) (dec n) = true.
Proof.
  assert (forall d, forallb is_ascii_digit (bs (NilEmpty.string_of_uint d)) = true) as Hu
    by (intros d; induction d; cbn in *; done).
  unfold dec. assert (forall s, forallb is_ascii_digit (bs s) = true ->
    forallb (fun b => is_ascii_digit b || Byte.eqb b x2d) (bs s) = true) as Hi.
  { intros s. rewrite !forallb_forall. intros H b Hb. by rewrite (H b Hb). }
  destruct (Z.to_int n) as [d|d]; cbn [NilEmpty.string_of_int]; [by apply Hi|].
  unfold bs in *. cbn. by apply Hi.
Qed.

Lemma dec_number n : forallb is_number_byte (dec n) = true.
Proof.
  pose proof (dec_bytes n) as H. rewrite forallb_forall in H |- *. intros b Hb. specialize (H b Hb).
  unfold is_number_byte. apply orb_true_iff in H as [->|H%byte_eqb_eq]; [done|]. by subst b.
Qed.

Lemma dec_nonempty n : dec n <> [].
Proof.
  intros E. apply (f_equal length) in E. unfold dec in E.
  destruct n as [|p|p]; [done| |]; cbn in E.
  - destruct (Pos.to_uint p) eqn:Ep; cbn in E; try done. pose proof (DecimalPos.Unsigned.to_uint_nonnil p). congruence.
  - done.
Qed.

(** ** Lists of items *)

Lemma comma_rest_cut {A B} (pr : A -> bytes) (f : A -> B) (l k : list A) c x y :
  c = x5d \/ c = x7d ->
  (forall a b u v, a ∈ l -> b ∈ k -> after_value u -> after_value v -> pr a ++ u = pr b ++ v -> f a = f b /\ u = v) ->
  concat (map (cons x2c) (map pr l)) ++ c :: x = concat (map (cons x2c) (map pr k)) ++ c :: y ->
  map f l = map f k /\ x = y.
Proof.
  intros Hc. revert k; induction l as [|a l IH]; intros [|b k] H E; cbn in E.
  - by injection E.
  - injection E as -> _. by destruct Hc.
  - injection E as <- _. by destruct Hc.
  - rewrite <- !app_assoc in E. injection E as E.
    assert (forall (l : list A) x, after_value (concat (map (cons x2c) (map pr l)) ++ c :: x)) as Ha.
    { intros [|? ?] ?; cbn; [naive_solver|by left]. }
    apply H in E as [Hf E]; [|apply elem_of_cons; by left|apply elem_of_cons; by left|apply Ha|apply Ha].
    apply IH in E as [Em ->]; [cbn; by rewrite Hf, Em|]. intros; apply H; [by apply elem_of_cons; right..|done|done|done].
Qed.

Lemma comma_cut {A B} (pr : A -> bytes) (f : A -> B) (l k : list A) c x y :
  c = x5d \/ c = x7d ->
  (forall a, a ∈ l \/ a ∈ k -> exists h r, pr a = h :: r /\ h <> x5d /\ h <> x7d) ->
  (forall a b u v, a ∈ l -> b ∈ k -> after_value u -> after_value v -> pr a ++ u = pr b ++ v -> f a = f b /\ u = v) ->
  comma_sep (map pr l) ++ c :: x = comma_sep (map pr k) ++ c :: y -> map f l = map f k /\ x = y.
Proof.
  intros Hc Hh H E. destruct l as [|a l], k as [|b k]; cbn [map comma_sep] in E.
  - by injection E.
  - destruct (Hh b) as (h & r & Eh & ? & ?); [right; constructor|]. rewrite Eh in E. injection E as -> _. by destruct Hc.
  - destruct (Hh a) as (h & r & Eh & ? & ?); [left; constructor|]. rewrite Eh in E. injection E as <- _. by destruct Hc.
  - apply (comma_rest_cut pr f (a :: l) (b :: k) c x y Hc H). cbn. by rewrite E.
Qed.

Lemma assoc_map {A B} (f : A -> B) k m : assoc k (map (fun kv => (fst kv, f (snd kv))) m) = f <$> assoc k m.
Proof. induction m as [|[k' v] m IH]; cbn; [done|]. by case_bool_decide. Qed.

Lemma assoc_elem {A} k (v : A) m : NoDup (map fst m) -> (k, v) ∈ m -> assoc k m = Some v.
Proof.
  induction m as [|[k' v'] m IH]; cbn; [by intros _ ?%not_elem_of_nil|]. intros [Hk Hm]%NoDup_cons [[= -> ->]|Hin]%elem_of_cons.
  - by rewrite bool_decide_eq_true_2.
  - rewrite bool_decide_eq_false_2; [by apply IH|]. intros ->. apply Hk. by apply (list_elem_of_fmap_2 fst) in Hin.
Qed.

Lemma canon_obj m : canon (JObj m) = JObj (map (fun kv => (fst kv, canon (snd kv))) (stable_sort entry_leb m)).
Proof. cbn [canon]. f_equal. symmetry. by apply stable_sort_map. Qed.

Lemma assoc_None {A} k (m : list (bytes * A)) : assoc k m = None <-> k ∉ map fst m.
Proof.
  induction m as [|[k' v] m IH]; cbn; [split; [intros _; apply not_elem_of_nil|done]|]. rewrite not_elem_of_cons.
  case_bool_decide; [naive_solver|]. rewrite IH. naive_solver.
Qed.

Lemma assoc_Some {A} k (v : A) m : assoc k m = Some v -> (k, v) ∈ m.
Proof.
  induction m as [|[k' v'] m IH]; cbn; [done|]. case_bool_decide as E; [|intros; apply elem_of_cons; auto].
  intros [= <-]. subst. constructor.
Qed.

Lemma assoc_perm {A} k (m m' : list (bytes * A)) : NoDup (map fst m) -> m ≡ₚ m' -> assoc k m = assoc k m'.
Proof.
  intros Hd Hp. destruct (assoc k m') as [v|] eqn:E.
  - apply assoc_Some in E. apply assoc_elem; [done|]. by rewrite Hp.
  - apply assoc_None in E. apply assoc_None. by rewrite Hp.
Qed.

(** Objects with one canonical form have equal fields. *)
Lemma canon_field k m m' : NoDup (map fst m) -> NoDup (map fst m') -> canon (JObj m) = canon (JObj m') ->
  canon <$> assoc k m = canon <$> assoc k m'.
Proof.
  intros Hd Hd'. rewrite !canon_obj. intros [= E].
  rewrite <- (assoc_perm k (stable_sort entry_leb m) m), <- (assoc_perm k (stable_sort entry_leb m') m')
    by (rewrite ?stable_sort_perm; done).
  rewrite <- !assoc_map. by rewrite E.
Qed.

Lemma assoc_hit {A} k (v : A) m : assoc k ((k, v) :: m) = Some v.
Proof. cbn. by rewrite bool_decide_eq_true_2. Qed.
Lemma assoc_miss {A} k k' (v : A) m : bool_decide (k = k') = false -> assoc k ((k', v) :: m) = assoc k m.
Proof. cbn. by intros ->. Qed.
Lemma assoc_nil {A} k : assoc k (@nil (bytes * A)) = None.
Proof. done. Qed.

(** The field [k] of two literal objects with one canonical form. *)
Ltac field_eq H k :=
  lazymatch type of H with
  | canon (JObj ?m) = canon (JObj ?m') =>
    let E := fresh "E" in
    pose proof (canon_field (bs k) m m' ltac:(apply (bool_decide_unpack _); vm_compute; exact I)
      ltac:(apply (bool_decide_unpack _); vm_compute; exact I) H) as E;
    repeat first [rewrite assoc_hit in E | rewrite assoc_miss in E by (vm_compute; reflexivity) | rewrite assoc_nil in E];
    cbn [fmap option_fmap option_map canon] in E; try injection E as E
  end.

Section cut.
Context {FT : FloatText} {FL : FloatTextLaws}.

Definition emit_entry (kv : bytes * JsonTree) : bytes := emit_json_string (fst kv) ++ x3a :: emit_value (snd kv).

Lemma emit_obj m : NoDup (map fst m) ->
  emit_value (JObj m) = x7b :: comma_sep (map emit_entry (stable_sort entry_leb m)) ++ [x7d].
Proof.
  intros Hm. cbn [emit_value]. rewrite <- (stable_sort_map fst entry_leb key_leb m) by done.
  rewrite map_map. do 3 f_equal. apply map_ext_in. intros [k v] Hin%list_elem_of_In. rewrite stable_sort_perm in Hin.
  rewrite assoc_map, (assoc_elem k v) by done. done.
Qed.

(** The first byte tells the kind of a value. *)
Definition kind (v : JsonTree) : nat :=
  match v with
  | JNull => 1 | JBool true => 2 | JBool false => 3 | JNum _ | JFloat _ => 4 | JStr _ => 5 | JArr _ => 6 | JObj _ => 7
  end.
Definition byte_kind (b : byte) : nat :=
  match b with
  | x6e => 1 | x74 => 2 | x66 => 3 | x22 => 5 | x5b => 6 | x7b => 7 | _ => if is_number_byte b then 4 else 0
  end.

Lemma number_kind b : is_number_byte b = true -> byte_kind b = 4.
Proof.
  intros Hb. pose proof (byte_forall (fun b => negb (is_number_byte b) || (byte_kind b =? 4)) ltac:(by vm_compute) b) as H.
  cbn beta in H. rewrite Hb in H. by apply Nat.eqb_eq.
Qed.

Lemma number_text v : json_wf v = true -> kind v = 4 -> forallb is_number_byte (emit_value v) = true /\ emit_value v <> [].
Proof.
  destruct v as [|[]|n|f| | |]; try done; intros Hv _; cbn [emit_value].
  - split; [apply dec_number|apply dec_nonempty].
  - split; [by apply fmt_f64_bytes|]. intros E. destruct (fmt_f64_mark f Hv) as [H|H]; rewrite E in H; by apply not_elem_of_nil in H.
Qed.

Lemma emit_head v : json_wf v = true -> exists h r, emit_value v = h :: r /\ byte_kind h = kind v.
Proof.
  intros Hv. destruct (Nat.eq_dec (kind v) 4) as [Hk|Hk].
  - destruct (number_text v Hv Hk) as [Hn He]. destruct (emit_value v) as [|h r]; [done|].
    exists h, r. cbn in Hn. apply andb_true_iff in Hn as [Hn _]. by rewrite Hk, (number_kind h).
  - destruct v as [|[]|n|f|s|l|m]; try done; by eexists _, _.
Qed.

Lemma number_cut v w x y : json_wf v = true -> json_wf w = true -> kind v = 4 -> kind w = 4 ->
  after_value x -> after_value y -> emit_value v ++ x = emit_value w ++ y -> v = w /\ x = y.
Proof.
  intros Hv Hw Kv Kw Hx Hy E. apply (span_cut is_number_byte) in E as [E ->];
    [|by apply number_text|by apply number_text|by apply after_value_number..].
  split; [|done].
  assert (forall n f, f64_finite f = true -> dec n = fmt_f64 f -> False) as Hmix.
  { intros n f Hf En. pose proof (dec_bytes n) as Hd. rewrite En, forallb_forall in Hd.
    destruct (fmt_f64_mark f Hf) as [H%list_elem_of_In|H%list_elem_of_In]; by specialize (Hd _ H). }
  destruct v as [|[]|n|f| | |], w as [|[]|n'|f'| | |]; try done; cbn in E, Hv, Hw.
  - f_equal. by apply dec_inj.
  - by apply Hmix in E.
  - symmetry in E. by apply Hmix in E.
  - f_equal. by apply fmt_f64_inj.
Qed.

Lemma emit_same_kind v w x y : json_wf v = true -> json_wf w = true ->
  emit_value v ++ x = emit_value w ++ y -> kind v = kind w.
Proof.
  intros Hv Hw E. destruct (emit_head v Hv) as (h & r & Eh & <-), (emit_head w Hw) as (h' & r' & Eh' & <-).
  rewrite Eh, Eh' in E. by injection E as ->.
Qed.

(** What is to be shown of a value. *)
Definition cuts (v : JsonTree) : Prop := forall w x y,
  json_wf v = true -> json_wf w = true -> after_value x -> after_value y ->
  emit_value v ++ x = emit_value w ++ y -> canon v = canon w /\ x = y.

Lemma array_cuts l : Forall cuts l -> forall k x y,
  forallb json_wf l = true -> forallb json_wf k = true ->
  emit_value (JArr l) ++ x = emit_value (JArr k) ++ y -> canon (JArr l) = canon (JArr k) /\ x = y.
Proof.
  intros IH k x y Hl Hk E. cbn in E. rewrite <- !app_assoc in E. injection E as E. rewrite forallb_forall in Hl, Hk.
  apply (comma_cut emit_value canon) in E as [E ->].
  - split; [|done]. cbn. by rewrite E.
  - by left.
  - intros a Ha. assert (json_wf a = true) as Hw by (destruct Ha as [Ha%list_elem_of_In|Ha%list_elem_of_In]; auto).
    destruct (emit_head a Hw) as (h & r & Eh & Hh). exists h, r. split; [done|].
    split; intros ->; by destruct a as [|[]| | | | |].
  - intros a b u v Ha Hb Hu Hv Eab. rewrite Forall_forall in IH. apply list_elem_of_In in Hb.
    apply (IH a Ha b); auto. apply Hl. by apply list_elem_of_In.
Qed.

Lemma object_cuts m : Forall (fun kv => cuts (snd kv)) m -> forall m' x y,
  json_wf (JObj m) = true -> json_wf (JObj m') = true ->
  emit_value (JObj m) ++ x = emit_value (JObj m') ++ y -> canon (JObj m) = canon (JObj m') /\ x = y.
Proof.
  intros IH m' x y [Hd Hm]%andb_true_iff [Hd' Hm']%andb_true_iff E. apply bool_decide_eq_true in Hd, Hd'.
  rewrite forallb_forall in Hm, Hm'. rewrite Forall_forall in IH. rewrite !emit_obj, !canon_obj in *; [|done..].
  cbn in E. rewrite <- !app_assoc in E. injection E as E.
  apply (comma_cut emit_entry (fun kv => (fst kv, canon (snd kv)))) in E as [-> ->]; [done|by right| |].
  - intros a _. by eexists _, _.
  - intros [k1 v1] [k2 v2] u v Ha Hb Hu Hv Eab. rewrite stable_sort_perm in Ha, Hb.
    specialize (IH _ Ha). apply list_elem_of_In in Ha, Hb.
    specialize (Hm _ Ha). specialize (Hm' _ Hb). apply andb_true_iff in Hm as [H1 H2], Hm' as [H3 H4].
    unfold emit_entry in Eab. cbn [fst snd] in *. rewrite <- !app_assoc in Eab.
    apply emit_string_cut in Eab as [-> Eab]; [|by apply from_utf8_ok_iff..]. injection Eab as Eab.
    apply IH in Eab as [-> ->]; done.
Qed.

(** A value is told apart from what follows it. *)
Lemma emit_cut v : cuts v.
Proof.
  induction v as [|b|n|f|s|l IH|m IH] using json_ind; intros w x y Hv Hw Hx Hy E;
    pose proof (emit_same_kind _ _ _ _ Hv Hw E) as Hk.
  - destruct w as [|[]| | | | |]; try done. by apply app_inv_head in E.
  - destruct b, w as [|[]| | | | |]; try done; by apply app_inv_head in E.
  - apply number_cut in E as [<- ->]; done.
  - apply number_cut in E as [<- ->]; done.
  - destruct w as [|[]| | |s'| |]; try done. cbn in Hv, Hw, E. apply emit_string_cut in E as [-> ->]; [done|by apply from_utf8_ok_iff..].
  - destruct w as [|[]| | | |l'|]; try done. by apply array_cuts in E.
  - destruct w as [|[]| | | | |m']; try done. by apply object_cuts in E.
Qed.

(** ** The order of keys does not matter *)

Lemma key_leb_total a b : key_leb a b = true \/ key_leb b a = true.
Proof. unfold key_leb. pose proof (kcmp_antisym a b) as H. unfold kcmp, bytes_ord in H. rewrite H. destruct (bytes_cmp a b); auto. Qed.

Lemma key_leb_spec a b : key_leb a b = true <-> a = b \/ bytes_cmp a b = Lt.
Proof.
  unfold key_leb. pose proof (kcmp_eq a b) as H. unfold kcmp, bytes_ord in H. destruct (bytes_cmp a b); naive_solver.
Qed.

Lemma key_leb_trans a b c : key_leb a b = true -> key_leb b c = true -> key_leb a c = true.
Proof.
  rewrite !key_leb_spec. intros [->|H1] [->|H2]; auto. right. by apply (kcmp_trans a b c).
Qed.

Lemma key_leb_antisym a b : key_leb a b = true -> key_leb b a = true -> a = b.
Proof.
  rewrite !key_leb_spec. intros [->|H1] [H2|H2]; [done|done|done|].
  pose proof (kcmp_antisym a b) as H. unfold kcmp, bytes_ord in H. rewrite H1, H2 in H. done.
Qed.

Lemma sorted_entries (m : list (bytes * JsonTree)) :
  StronglySorted (fun a b => entry_leb a b = true) (stable_sort entry_leb m).
Proof.
  apply stable_sort_sorted; unfold entry_leb; [intros x y z; apply key_leb_trans|intros x y; apply key_leb_total].
Qed.

Lemma emit_canon v : json_wf v = true -> emit_value (canon v) = emit_value v.
Proof.
  induction v as [| | | | |l IH|m IH] using json_ind; intros Hv; try done.
  - cbn in *. do 3 f_equal. rewrite map_map. apply map_ext_in. intros a Ha. rewrite forallb_forall in Hv.
    rewrite Forall_forall in IH. apply IH; [by apply list_elem_of_In|auto].
  - cbn [json_wf] in Hv. apply andb_true_iff in Hv as [Hd Hm]. apply bool_decide_eq_true in Hd.
    rewrite canon_obj. rewrite !emit_obj; [|done|by rewrite map_map, stable_sort_perm].
    do 3 f_equal. rewrite <- (stable_sort_map _ entry_leb entry_leb) by done.
    rewrite (stable_sort_id entry_leb (stable_sort entry_leb m)) by apply sorted_entries.
    rewrite map_map. apply map_ext_in. intros [k v] Hin%list_elem_of_In. rewrite stable_sort_perm in Hin.
    unfold emit_entry. cbn [fst snd]. f_equal. f_equal. rewrite Forall_forall in IH. apply (IH _ Hin).
    rewrite forallb_forall in Hm. apply list_elem_of_In in Hin. specialize (Hm _ Hin). by apply andb_true_iff in Hm as [_ ?].
Qed.

(** Objects with the same entries in another order have one canonical form. *)
Lemma canon_perm m m' : NoDup (map fst m) -> m ≡ₚ m' -> canon (JObj m) = canon (JObj m').
Proof.
  intros Hd Hp. rewrite !canon_obj. do 2 f_equal.
  apply (sorted_perm_unique (fun a b => entry_leb a b = true)); [|apply sorted_entries|apply sorted_entries|by rewrite !stable_sort_perm].
  intros [k v] [k' v'] H1 H2 L1 L2. unfold entry_leb in *. cbn in *. pose proof (key_leb_antisym _ _ L1 L2) as <-.
  rewrite stable_sort_perm in H1, H2. apply assoc_elem in H1, H2; congruence.
Qed.

(** C26 The canonical bytes are exactly the value: two JSON values have the same
    canonical bytes iff they are the same value up to the order of the keys of
    their objects, so a signature covers one value, whatever order a parser kept
    its keys in; and no canonical text is the beginning of another one followed by
    a separator. *)
Theorem canonical_exact v w : json_wf v = true -> json_wf w = true ->
  (to_canonical_bytes v = to_canonical_bytes w <-> canon v = canon w) /\
  (forall x y, after_value x -> after_value y ->
     to_canonical_bytes v ++ x = to_canonical_bytes w ++ y -> canon v = canon w /\ x = y) /\
  (forall m m', v = JObj m -> w = JObj m' -> m ≡ₚ m' -> to_canonical_bytes v = to_canonical_bytes w).
Proof.
  intros Hv Hw. unfold to_canonical_bytes. split_and!.
  - split; intros E.
    + apply (emit_cut v w [] []); [done..|]. by rewrite E.
    + by rewrite <- (emit_canon v Hv), E, emit_canon.
  - intros x y Hx Hy E. by apply (emit_cut v w x y).
  - intros m m' -> -> Hp. rewrite <- (emit_canon _ Hv), <- (emit_canon _ Hw). f_equal. apply canon_perm; [|done].
    cbn in Hv. apply andb_true_iff in Hv as [Hd _]. by apply bool_decide_eq_true in Hd.
Qed.
End cut.

(** ** Witness: a float text that satisfies the laws *)

Definition bits_float_text : FloatText := fun x => dec x ++ [x2e; x30].
Lemma bits_float_laws : @FloatTextLaws bits_float_text.
Proof.
  split; unfold fmt_f64, bits_float_text.
  - intros x y _ _ E. apply app_inj_2 in E as [E _]; [by apply dec_inj|done].
  - intros x _. by rewrite forallb_app, dec_number.
  - intros x _. left. rewrite elem_of_app. right. constructor.
Qed.

#[local] Existing Instances bits_float_text bits_float_laws.

Definition sample_json : JsonTree :=
  JObj [(bs "b", JArr [JNum (-5); JFloat 3; JStr [x22; x01]]); (bs "a", JNull)].

Lemma canonical_exact_witness :
  to_canonical_bytes sample_json = to_canonical_bytes (canon sample_json) /\
  to_canonical_bytes sample_json <> to_canonical_bytes (JObj [(bs "a", JNull)]).
Proof.
  destruct (canonical_exact sample_json (canon sample_json)) as [[_ H1] _]; [reflexivity|reflexivity|].
  destruct (canonical_exact sample_json (JObj [(bs "a", JNull)])) as [[H2 _] _]; [reflexivity|reflexivity|].
  split; [apply H1; reflexivity|]. intros E. specialize (H2 E). discriminate H2.
Defined.
