(* ===== verification/Envelope.v ===== *)
(** * The cross-mesh envelope ([cosmix-lib-mesh-trust/src/envelope.rs])

    The signed payload of a cross-mesh call: its structural checks and the bytes
    its signature covers.  The wire parse is the JSON library's derived decoder, an
    argument of [parse]. *)

From S2P Require Import Prelude Utf8 Str BTree Json Canonical.

Definition ENVELOPE_VERSION_V1 : bytes := bs "v1".

Record Envelope := mkEnvelope {
  envelope_version : bytes;
  target_mesh : bytes;
  target_service : bytes;
  target_endpoint : bytes;
  caller_mesh : bytes;
  caller_selector : bytes;
  caller_node_id : bytes;
  env_command : bytes;
  env_headers : JsonTree;
  env_body : JsonTree;
  ts : bytes;
  nonce : bytes }.

Record SignedEnvelope := mkSignedEnvelope { envelope : Envelope; signature : bytes }.

Inductive EnvelopeError :=
| EnvelopeJson
| UnsupportedVersion (v : bytes)
| EmptyField (name : bytes)
| HeadersNotObject (got : bytes).

Definition required (e : Envelope) : list (bytes * bytes) :=
  [(bs "target_mesh", target_mesh e); (bs "target_service", target_service e); (bs "target_endpoint", target_endpoint e);
   (bs "caller_mesh", caller_mesh e); (bs "caller_selector", caller_selector e); (bs "caller_node_id", caller_node_id e);
   (bs "command", env_command e); (bs "ts", ts e); (bs "nonce", nonce e)].

(** The loop over the required fields. *)
Fixpoint check_required (fields : list (bytes * bytes)) : result unit EnvelopeError :=
  match fields with
  | [] => Ok tt
  | (name, val) :: rest => match val with [] => Err (EmptyField name) | _ => check_required rest end
  end.

Definition validate (e : Envelope) : result unit EnvelopeError :=
  if negb (bool_decide (envelope_version e = ENVELOPE_VERSION_V1)) then Err (UnsupportedVersion (envelope_version e))
  else
  let? _ := check_required (required e) in
  match env_headers e with
  | JObj _ => Ok tt
  | JNull => Err (HeadersNotObject (bs "null"))
  | JBool _ => Err (HeadersNotObject (bs "bool"))
  | JNum _ | JFloat _ => Err (HeadersNotObject (bs "number"))
  | JStr _ => Err (HeadersNotObject (bs "string"))
  | JArr _ => Err (HeadersNotObject (bs "array"))
  end.

Definition parse_envelope (from_slice : bytes -> option SignedEnvelope) (wire : bytes) : result SignedEnvelope EnvelopeError :=
  let? parsed := ok_or (from_slice wire) EnvelopeJson in
  let? _ := validate (envelope parsed) in
  Ok parsed.

Definition envelope_fields (e : Envelope) : list (bytes * JsonTree) :=
  [(bs "body", env_body e); (bs "caller_mesh", JStr (caller_mesh e)); (bs "caller_node_id", JStr (caller_node_id e));
   (bs "caller_selector", JStr (caller_selector e)); (bs "command", JStr (env_command e));
   (bs "envelope_version", JStr (envelope_version e)); (bs "headers", env_headers e); (bs "nonce", JStr (nonce e));
   (bs "target_endpoint", JStr (target_endpoint e)); (bs "target_mesh", JStr (target_mesh e));
   (bs "target_service", JStr (target_service e)); (bs "ts", JStr (ts e))].

Section bytes.
Context {FT : FloatText}.

(** [Envelope::canonical_bytes]: the fields collected into a [BTreeMap] and
    printed in its order. *)
Definition envelope_bytes (e : Envelope) : bytes :=
  let map := foldl (fun acc kv => bt_insert (fst kv) (snd kv) acc) [] (envelope_fields e) in
  x7b :: comma_sep (List.map (fun kv => emit_json_string (fst kv) ++ x3a :: emit_value (snd kv)) map) ++ [x7d].

Lemma envelope_bytes_value e : envelope_bytes e = emit_value (JObj (envelope_fields e)).
Proof.
  rewrite emit_obj by (apply (bool_decide_unpack _); vm_compute; exact I). unfold envelope_bytes.
  assert (foldl (fun acc kv => bt_insert (fst kv) (snd kv) acc) [] (envelope_fields e) = envelope_fields e) as ->
    by (vm_compute; reflexivity).
  assert (stable_sort entry_leb (envelope_fields e) = envelope_fields e) as -> by (vm_compute; reflexivity). done.
Qed.
End bytes.

(** The same envelope, headers and body up to the order of their keys. *)
Definition envelope_same (e f : Envelope) : Prop :=
  envelope_version e = envelope_version f /\ target_mesh e = target_mesh f /\ target_service e = target_service f /\
  target_endpoint e = target_endpoint f /\ caller_mesh e = caller_mesh f /\ caller_selector e = caller_selector f /\
  caller_node_id e = caller_node_id f /\ env_command e = env_command f /\ canon (env_headers e) = canon (env_headers f) /\
  canon (env_body e) = canon (env_body f) /\ ts e = ts f /\ nonce e = nonce f.

Lemma envelope_canon e f : canon (JObj (envelope_fields e)) = canon (JObj (envelope_fields f)) <-> envelope_same e f.
Proof.
  unfold envelope_same, envelope_fields. split.
  - intros H. field_eq H "envelope_version"%string. field_eq H "target_mesh"%string. field_eq H "target_service"%string.
    field_eq H "target_endpoint"%string. field_eq H "caller_mesh"%string. field_eq H "caller_selector"%string.
    field_eq H "caller_node_id"%string. field_eq H "command"%string. field_eq H "headers"%string. field_eq H "body"%string.
    field_eq H "ts"%string. field_eq H "nonce"%string. split_and!; done.
  - intros (-> & -> & -> & -> & -> & -> & -> & -> & Hh & Hb & -> & ->). cbn [canon]. do 2 f_equal.
    cbn [map fst snd]. by rewrite Hh, Hb.
Qed.

Lemma validate_exact e : validate e = Ok tt <->
  envelope_version e = ENVELOPE_VERSION_V1 /\ Forall (fun nv => snd nv <> []) (required e) /\ exists m, env_headers e = JObj m.
Proof.
  assert (forall fs, check_required fs = Ok tt <-> Forall (fun nv => snd nv <> []) fs) as Hc.
  { induction fs as [|[n [|b v]] fs IH]; cbn; [split; [constructor|done]| |]; rewrite Forall_cons; [naive_solver|].
    rewrite IH. naive_solver. }
  unfold validate. case_bool_decide as Hv; cbn [negb]; [|naive_solver]. rewrite result_bind_Ok.
  setoid_rewrite <- Hc. split.
  - intros ([] & H1 & H2). split_and!; [done..|]. destruct (env_headers e); naive_solver.
  - intros (_ & H1 & m & Hm). exists tt. by rewrite Hm.
Qed.

(** An envelope's signature covers exactly the envelope: the wire is accepted iff
    it decodes to version v1 with no empty required field and an object of headers,
    and two envelopes have the same signed bytes iff all twelve fields are equal,
    headers and body up to the order of their keys. *)
Theorem envelope_exact {FT : FloatText} {FL : FloatTextLaws} e f from_slice wire s :
  (parse_envelope from_slice wire = Ok s <->
     from_slice wire = Some s /\ envelope_version (envelope s) = ENVELOPE_VERSION_V1 /\
     Forall (fun nv => snd nv <> []) (required (envelope s)) /\ exists m, env_headers (envelope s) = JObj m) /\
  (json_wf (JObj (envelope_fields e)) = true -> json_wf (JObj (envelope_fields f)) = true ->
     envelope_bytes e = envelope_bytes f <-> envelope_same e f).
Proof.
  split.
  - unfold parse_envelope. rewrite result_bind_Ok. setoid_rewrite ok_or_Ok. setoid_rewrite result_bind_Ok.
    rewrite <- validate_exact. split; [intros (x & H1 & [] & H2 & [= ->]); done|].
    intros [H1 H2]. exists s. split; [done|]. by exists tt.
  - intros He Hf. rewrite !envelope_bytes_value, <- envelope_canon. split; intros E.
    + apply (emit_cut _ _ [] []); [done..|]. by rewrite E.
    + by rewrite <- (emit_canon _ He), E, emit_canon.
Qed.

#[local] Existing Instances bits_float_text bits_float_laws.

Definition sample_envelope (cmd : bytes) : Envelope :=
  mkEnvelope ENVELOPE_VERSION_V1 (bs "a.net") (bs "maild") (bs "/v1") (bs "b.net") (bs "2026q3") (bs "n1") cmd
    (JObj [(bs "namespace", JStr (bs "accounts"))]) JNull (bs "t") (bs "AAAA").

Lemma envelope_exact_witness :
  envelope_bytes (sample_envelope (bs "list")) <> envelope_bytes (sample_envelope (bs "set")).
Proof.
  intros E. destruct (envelope_exact (sample_envelope (bs "list")) (sample_envelope (bs "set")) (fun _ => None) []
    (mkSignedEnvelope (sample_envelope []) [])) as [_ H].
  destruct (proj1 (H ltac:(vm_compute; reflexivity) ltac:(vm_compute; reflexivity)) E) as (_ & _ & _ & _ & _ & _ & _ & Hc & _).
  discriminate Hc.
Defined.
