(* ===== verification/IpAddr.v ===== *)
(** * [std::net::IpAddr] and its parser

    The standard library's address type and the recursive-descent parser behind
    [str::parse::<IpAddr>], as the routing view uses them.  A parser takes the
    text left and gives its result with what it leaves; one that fails consumes
    nothing ([read_atomically]).  An address is its family and its bits. *)

From S2P Require Import Prelude Utf8 Str.
From Stdlib Require Import NArith.

Inductive IpAddr := V4 (bits : N) | V6 (bits : N).
#[export] Instance IpAddr_eq_dec : EqDecision IpAddr.
Proof. solve_decision. Defined.

Definition is_ipv4 (ip : IpAddr) : bool := match ip with V4 _ => true | V6 _ => false end.

Abbreviation parser A := (bytes -> option (A * bytes)).

(** [char::to_digit] *)
Definition to_digit (radix : N) (b : byte) : option N :=
  let d := if in_range 0x30 0x39 b then Some (b2n b - 0x30)%N
           else if in_range 0x61 0x7a b then Some (b2n b - 0x61 + 10)%N
           else if in_range 0x41 0x5a b then Some (b2n b - 0x41 + 10)%N else None in
  n ← d; if (n <? radix)%N then Some n else None.

Fixpoint read_digits (radix : N) (max_digits count : nat) (acc : N) (s : bytes) : option (N * nat * bytes) :=
  match s with
  | [] => Some (acc, count, s)
  | b :: r =>
    match to_digit radix b with
    | None => Some (acc, count, s)
    | Some d => if max_digits <? S count then None else read_digits radix max_digits (S count) (radix * acc + d) r
    end
  end.

(** [max] is the bound of the integer type. *)
Definition read_number (radix : N) (max_digits : nat) (allow_zero_prefix : bool) (max : N) : parser N := fun s =>
  let has_leading_zero := match s with x30 :: _ => true | _ => false end in
  '(result, digit_count, r) ← read_digits radix max_digits 0 0 s;
  if digit_count =? 0 then None
  else if negb allow_zero_prefix && has_leading_zero && (1 <? digit_count) then None
  else if (result <=? max)%N then Some (result, r) else None.

Definition read_given_char (c : byte) : parser unit := fun s =>
  match s with b :: r => if Byte.eqb b c then Some (tt, r) else None | [] => None end.

Definition read_separator {A} (sep : byte) (index : nat) (inner : parser A) : parser A := fun s =>
  if index =? 0 then inner s else '(_, r) ← read_given_char sep s; inner r.

Definition read_octet (index : nat) : parser N := read_separator x2e index (read_number 10 3 false 255).

Definition read_ipv4_addr : parser N := fun s =>
  '(a, s) ← read_octet 0 s; '(b, s) ← read_octet 1 s; '(c, s) ← read_octet 2 s; '(d, s) ← read_octet 3 s;
  Some (((a * 256 + b) * 256 + c) * 256 + d, s)%N.

(** [read_groups] over the [n] groups left, [i] of them read: the groups, whether
    an IPv4 address ended them, and the text left. *)
Fixpoint read_groups (n i : nat) (s : bytes) : list N * bool * bytes :=
  match n with
  | 0 => ([], false, s)
  | S n' =>
    match (if 1 <=? n' then read_separator x3a i read_ipv4_addr s else None) with
    | Some (v4, r) => ([v4 / 65536; v4 mod 65536]%N, true, r)
    | None =>
      match read_separator x3a i (read_number 16 4 true 65535) s with
      | Some (g, r) => let '(gs, v4, r') := read_groups n' (S i) r in (g :: gs, v4, r')
      | None => ([], false, s)
      end
    end
  end.

Definition groups_bits (gs : list N) : N := foldl (fun acc g => acc * 65536 + g)%N 0%N gs.

Definition read_ipv6_addr : parser N := fun s =>
  let '(head, head_ipv4, r) := read_groups 8 0 s in
  if length head =? 8 then Some (groups_bits head, r)
  else if head_ipv4 then None
  else
    '(_, r) ← read_given_char x3a r; '(_, r) ← read_given_char x3a r;
    let '(tail, _, r) := read_groups (8 - (length head + 1)) 0 r in
    Some (groups_bits (head ++ List.repeat 0%N (8 - length head - length tail) ++ tail), r).

Definition read_ip_addr : parser IpAddr := fun s =>
  match read_ipv4_addr s with
  | Some (n, r) => Some (V4 n, r)
  | None => '(n, r) ← read_ipv6_addr s; Some (V6 n, r)
  end.

(** [s.parse::<IpAddr>()] *)
Definition parse_ip (s : bytes) : option IpAddr :=
  match read_ip_addr s with Some (ip, []) => Some ip | _ => None end.

(** ** Addresses fit their width *)

Definition width (ip : IpAddr) : N := match ip with V4 _ => 32 | V6 _ => 128 end.
Definition bits (ip : IpAddr) : N := match ip with V4 n | V6 n => n end.
Definition ip_wf (ip : IpAddr) : Prop := (bits ip < 2 ^ width ip)%N.

Lemma read_number_bound radix md z max s n r : read_number radix md z max s = Some (n, r) -> (n <= max)%N.
Proof.
  unfold read_number. destruct (read_digits radix md 0 0 s) as [[[result c] r']|]; [|done]. cbn [mbind option_bind].
  destruct (c =? 0); [done|]. destruct (_ && _ && _); [done|].
  destruct (N.leb_spec result max); [|done]. by intros [= <- <-].
Qed.

Lemma read_separator_inv {A} sep i (inner : parser A) s x :
  read_separator sep i inner s = Some x -> exists s', inner s' = Some x.
Proof.
  unfold read_separator. destruct (i =? 0); [eauto|]. destruct (read_given_char sep s) as [[[] r]|]; [|done]. cbn. eauto.
Qed.

Lemma read_octet_bound i s n r : read_octet i s = Some (n, r) -> (n < 256)%N.
Proof. intros (s' & H%read_number_bound)%read_separator_inv. lia. Qed.

Lemma read_ipv4_bound s n r : read_ipv4_addr s = Some (n, r) -> (n < 2 ^ 32)%N.
Proof.
  unfold read_ipv4_addr.
  destruct (read_octet 0 s) as [[a s1]|] eqn:E1; cbn [mbind option_bind]; [|done].
  destruct (read_octet 1 s1) as [[b s2]|] eqn:E2; cbn [mbind option_bind]; [|done].
  destruct (read_octet 2 s2) as [[c s3]|] eqn:E3; cbn [mbind option_bind]; [|done].
  destruct (read_octet 3 s3) as [[d s4]|] eqn:E4; cbn [mbind option_bind]; [|done]. intros [= <- <-].
  apply read_octet_bound in E1, E2, E3, E4. change (2 ^ 32)%N with 4294967296%N. lia.
Qed.

Lemma read_groups_bound n i s gs v4 r :
  read_groups n i s = (gs, v4, r) -> Forall (fun g => (g < 65536)%N) gs /\ length gs <= n.
Proof.
  revert i s gs v4 r; induction n as [|n IH]; intros i s gs v4 r; cbn [read_groups].
  { intros [= <- <- <-]. split; [constructor|done]. }
  destruct (if 1 <=? n then read_separator x3a i read_ipv4_addr s else None) as [[v r1]|] eqn:E4.
  - intros H. destruct (Nat.leb_spec 1 n); [|done].
    apply read_separator_inv in E4 as (s' & Hv%read_ipv4_bound). change (2 ^ 32)%N with (65536 * 65536)%N in Hv.
    injection H as <- <- <-. split; [|cbn; lia]. repeat constructor.
    + by apply N.Div0.div_lt_upper_bound.
    + by apply N.mod_lt.
  - destruct (read_separator x3a i (read_number 16 4 true 65535) s) as [[g r1]|] eqn:Eg.
    + destruct (read_groups n (S i) r1) as [[gs' v'] r'] eqn:Er. intros [= <- <- <-]. apply IH in Er as [Hf Hl].
      apply read_separator_inv in Eg as (s' & Hg%read_number_bound). split; [constructor; [lia|done]|cbn; lia].
    + intros [= <- <- <-]. split; [constructor|cbn; lia].
Qed.

Lemma groups_bits_bound gs : Forall (fun g => (g < 65536)%N) gs -> (groups_bits gs < 65536 ^ N.of_nat (length gs))%N.
Proof.
  unfold groups_bits. intros F. enough (forall acc b, (acc < b)%N ->
    (foldl (fun acc g => acc * 65536 + g)%N acc gs < b * 65536 ^ N.of_nat (length gs))%N) as H
    by (specialize (H 0%N 1%N ltac:(lia)); lia).
  induction F as [|g gs Hg F IH]; intros acc b Hb; cbn [foldl length].
  - change (65536 ^ N.of_nat 0)%N with 1%N. lia.
  - rewrite Nat2N.inj_succ, N.pow_succ_r'. specialize (IH (acc * 65536 + g)%N (b * 65536)%N ltac:(lia)). lia.
Qed.

Lemma read_ipv6_bound s n r : read_ipv6_addr s = Some (n, r) -> (n < 2 ^ 128)%N.
Proof.
  unfold read_ipv6_addr. destruct (read_groups 8 0 s) as [[h v] r1] eqn:Eh. apply read_groups_bound in Eh as [Hf Hl].
  assert (forall gs, length gs = 8 -> Forall (fun g => (g < 65536)%N) gs -> (groups_bits gs < 2 ^ 128)%N) as H8.
  { intros gs Hgs F. apply groups_bits_bound in F. rewrite Hgs in F. exact F. }
  destruct (Nat.eqb_spec (length h) 8) as [E8|E8]; [intros [= <- <-]; by apply H8|].
  destruct v; [done|]. destruct (read_given_char x3a r1) as [[[] r2]|]; [|done]. cbn [mbind option_bind].
  destruct (read_given_char x3a r2) as [[[] r3]|]; [|done]. cbn [mbind option_bind].
  destruct (read_groups (8 - (length h + 1)) 0 r3) as [[t v'] r4] eqn:Et. apply read_groups_bound in Et as [Hft Hlt].
  intros [= <- <-]. apply H8.
  - rewrite !length_app, repeat_length. lia.
  - rewrite !Forall_app. split_and!; [done| |done]. apply Forall_forall. intros x Hx%list_elem_of_In%repeat_spec. by subst.
Qed.

Lemma parse_ip_wf s ip : parse_ip s = Some ip -> ip_wf ip.
Proof.
  unfold parse_ip, read_ip_addr, ip_wf. destruct (read_ipv4_addr s) as [[n r]|] eqn:E4.
  - destruct r; [|done]. intros [= <-]. by apply read_ipv4_bound in E4.
  - destruct (read_ipv6_addr s) as [[n r]|] eqn:E6; cbn; [|done]. destruct r; [|done]. intros [= <-].
    by apply read_ipv6_bound in E6.
Qed.

Example parse_ip_samples :
  parse_ip (bs "192.0.2.5") = Some (V4 0xC0000205) /\ parse_ip (bs "::1") = Some (V6 1) /\
  parse_ip (bs "fd00::a:192.0.2.5") = Some (V6 0xfd000000000000000000000ac0000205) /\
  parse_ip (bs "1.2.3.04") = None /\ parse_ip (bs "256.1.1.1") = None /\ parse_ip (bs "1.2.3") = None /\
  parse_ip (bs "1::2::3") = None /\ parse_ip (bs "1:2:3:4:5:6:7:8") <> None /\ parse_ip (bs "1.2.3.4 ") = None.
Proof. vm_compute. repeat split. discriminate. Qed.
