(* ===== verification/Routing.v ===== *)
(** * The routing view of an inventory ([cosmix-lib-mesh-trust/src/routing.rs])

    [strict_routing_view] reads the signed member records into the members both
    the broker and the WireGuard daemon route by, or refuses all of them.  A
    reason's text is represented by its parts.  The theorems: a parsed subnet is
    an aligned range of addresses and containment is membership in it, and the
    view exists exactly when every record has one reading, names and active
    addresses are distinct and some member is on the bus. *)

From S2P Require Import Prelude Utf8 Str BusAddress Json IpAddr.
From Stdlib Require Import NArith.

Definition DEFAULT_NODED_PORT : N := 4200.

(** ** Subnets *)

Record Subnet := mkSubnet { network : IpAddr; prefix : N }.

(** [u32::MAX << k] and [u128::MAX << k]: bits above the width are lost. *)
Definition shl_max (w k : N) : N := (N.shiftl (N.ones w) k mod 2 ^ w)%N.

Definition prefix_mask (w p : N) : N := if (p =? 0)%N then 0%N else shl_max w (w - p).

Definition masked (s : Subnet) (ip : IpAddr) : IpAddr :=
  match ip with
  | V4 n => V4 (N.land n (prefix_mask 32 (prefix s)))
  | V6 n => V6 (N.land n (prefix_mask 128 (prefix s)))
  end.

Definition contains (s : Subnet) (ip : IpAddr) : bool :=
  Bool.eqb (is_ipv4 (network s)) (is_ipv4 ip) && bool_decide (masked s ip = network s).

Inductive SubnetReason :=
| ExpectedAddressPrefix | InvalidNetworkAddress (address : bytes) | InvalidPrefixLength (prefix : bytes)
| PrefixExceeds (prefix max : N) | HostBitsSet.

Definition Subnet_parse (text : bytes) : result Subnet SubnetReason :=
  match split_once x2f text with
  | None => Err ExpectedAddressPrefix
  | Some (address, pfx) =>
    if bool_decide (x2f ∈ pfx) then Err ExpectedAddressPrefix
    else
    let? net := ok_or (parse_ip address) (InvalidNetworkAddress address) in
    let? p := ok_or (parse_unsigned 255 pfx) (InvalidPrefixLength pfx) in
    let max := if is_ipv4 net then 32%N else 128%N in
    if (max <? p)%N then Err (PrefixExceeds p max)
    else
    let subnet := mkSubnet net p in
    if negb (contains subnet net) || negb (bool_decide (masked subnet net = net)) then Err HostBitsSet
    else Ok subnet
  end.

(** ** Members *)

Inductive Reason :=
| NotAnArray
| MissingName | InvalidLabel (name : bytes) | DuplicateName (name : bytes)
| MissingStatus | UnknownStatus (status : bytes)
| MissingBus | MissingMeshIp | InvalidMeshIp (text : bytes) | OutsideSubnet (ip : IpAddr)
| DuplicateMeshIp (ip : IpAddr) (first : bytes) | BadNodedPort.

Inductive RoutingMember :=
| ActiveBus (name : bytes) (mesh_ip : IpAddr) (noded_port : N)
| Tombstoned (name : bytes)
| TransportOnly (name : bytes) (mesh_ip : IpAddr)
| Malformed (name : option bytes) (index : option nat) (reason : Reason).

Inductive RoutingViewError :=
| BadSubnet (subnet : bytes) (reason : SubnetReason)
| MalformedMember (member : RoutingMember)
| ZeroActiveBus.

Definition malformed (name : option bytes) (index : option nat) (reason : Reason) : RoutingViewError :=
  MalformedMember (Malformed name index reason).

Definition is_active_bus (m : RoutingMember) : bool := match m with ActiveBus _ _ _ => true | _ => false end.

Section view.
Context {J : Type} {JS : Json J}.

Record ViewState := mkView { view : list RoutingMember; names : list bytes; active_ips : list (IpAddr * bytes) }.

Definition first_user (ip : IpAddr) (m : list (IpAddr * bytes)) : option bytes :=
  snd <$> List.find (fun kv => bool_decide (fst kv = ip)) m.

Definition noded_port_of (record : J) : option N :=
  match j_get record (bs "noded_port") with
  | None => Some DEFAULT_NODED_PORT
  | Some value =>
    port ← j_as_u64 value; if (1 <=? port)%Z && (port <=? 65535)%Z then Some (Z.to_N port) else None
  end.

(** The part of the loop body for an active record. *)
Definition view_active (sn : Subnet) (reject : Reason -> RoutingViewError) (st : ViewState) (seen : list bytes)
    (name : bytes) (record : J) : result ViewState RoutingViewError :=
  let? bus := ok_or (bool_field record (bs "bus")) (reject MissingBus) in
  let? mesh_ip_text := ok_or (str_field record (bs "mesh_ip")) (reject MissingMeshIp) in
  let? mesh_ip := ok_or (parse_ip mesh_ip_text) (reject (InvalidMeshIp mesh_ip_text)) in
  if negb (contains sn mesh_ip) then Err (reject (OutsideSubnet mesh_ip))
  else match first_user mesh_ip (active_ips st) with
  | Some first => Err (reject (DuplicateMeshIp mesh_ip first))
  | None =>
    let ips := (mesh_ip, name) :: active_ips st in
    if (bus : bool) then
      let? noded_port := ok_or (noded_port_of record) (reject BadNodedPort) in
      Ok (mkView (view st ++ [ActiveBus name mesh_ip noded_port]) seen ips)
    else Ok (mkView (view st ++ [TransportOnly name mesh_ip]) seen ips)
  end.

Definition view_record (sn : Subnet) (st : ViewState) (index : nat) (record : J) : result ViewState RoutingViewError :=
  let name := str_field record (bs "name") in
  let reject := malformed name (Some index) in
  match name with
  | None => Err (reject MissingName)
  | Some name_value =>
    if negb (is_valid_label name_value) then Err (reject (InvalidLabel name_value))
    else if bool_decide (name_value ∈ names st) then Err (reject (DuplicateName name_value))
    else
    let seen := name_value :: names st in
    let? status := ok_or (str_field record (bs "status")) (reject MissingStatus) in
    if bool_decide (status = bs "tombstoned") then Ok (mkView (view st ++ [Tombstoned name_value]) seen (active_ips st))
    else if bool_decide (status = bs "active") then view_active sn reject st seen name_value record
    else Err (reject (UnknownStatus status))
  end.

Definition strict_routing_view (members : J) (subnet : bytes) : result (list RoutingMember) RoutingViewError :=
  let? subnet_cidr := map_err (BadSubnet subnet) (Subnet_parse subnet) in
  match j_as_array members with
  | None => Err (malformed None None NotAnArray)
  | Some records =>
    let? st := foldM_res (fun st ir => view_record subnet_cidr st (fst ir) (snd ir)) (mkView [] [] [])
                 (combine (seq 0 (length records)) records) in
    if negb (existsb is_active_bus (view st)) then Err ZeroActiveBus else Ok (view st)
  end.
End view.

(** ** Masks *)

Lemma mask_floor w p n : (p <= w)%N -> (n < 2 ^ w)%N ->
  N.land n (prefix_mask w p) = (n / 2 ^ (w - p) * 2 ^ (w - p))%N.
Proof.
  intros Hp Hn. unfold prefix_mask, shl_max. rewrite <- N.shiftr_div_pow2, <- N.shiftl_mul_pow2.
  assert (forall i, (w <= i)%N -> N.testbit n i = false) as Hhi.
  { intros i Hi. destruct (N.eq_dec n 0) as [->|Hz]; [apply N.bits_0|]. apply N.bits_above_log2.
    apply N.log2_lt_pow2 in Hn; lia. }
  apply N.bits_inj. intros i. rewrite N.land_spec.
  destruct (N.ltb_spec i (w - p)) as [Hlo|Hhi'].
  - rewrite (N.shiftl_spec_low _ _ i) by done. apply andb_false_iff. right.
    destruct (N.eqb_spec p 0); [apply N.bits_0|].
    rewrite N.mod_pow2_bits_low by lia. by rewrite N.shiftl_spec_low.
  - rewrite (N.shiftl_spec_high' _ _ i) by done. rewrite N.shiftr_spec', N.sub_add by done.
    destruct (N.ltb_spec i w) as [Hi|Hi]; [|by rewrite Hhi].
    destruct (N.eqb_spec p 0); [lia|]. rewrite N.mod_pow2_bits_low, N.shiftl_spec_high' by done.
    rewrite N.ones_spec_low by lia. by rewrite andb_true_r.
Qed.

Definition block (s : Subnet) : N := (2 ^ (width (network s) - prefix s))%N.

(** A network address with no host bits. *)
Definition subnet_wf (s : Subnet) : Prop :=
  ip_wf (network s) /\ (prefix s <= width (network s))%N /\ (bits (network s) mod block s = 0)%N.

Lemma masked_bits s ip : (prefix s <= width ip)%N -> ip_wf ip ->
  bits (masked s ip) = (bits ip / 2 ^ (width ip - prefix s) * 2 ^ (width ip - prefix s))%N.
Proof. destruct ip as [n|n]; cbn [masked bits width]; apply mask_floor. Qed.

Lemma same_ip a b : is_ipv4 a = is_ipv4 b -> bits a = bits b -> a = b.
Proof. destruct a, b; cbn; congruence. Qed.
Lemma same_width a b : is_ipv4 a = is_ipv4 b -> width a = width b.
Proof. by destruct a, b. Qed.
Lemma masked_family s ip : is_ipv4 (masked s ip) = is_ipv4 ip.
Proof. by destruct ip. Qed.

(** Rounding down to a multiple of [b] gives [m] exactly on the block from [m]. *)
Lemma floor_block n m b : (0 < b)%N -> (m mod b = 0)%N -> (n / b * b = m <-> m <= n < m + b)%N.
Proof.
  intros Hb Hm. apply N.Div0.mod_divides in Hm as [q ->]. split.
  - intros E. pose proof (N.div_mod n b ltac:(lia)). pose proof (N.mod_lt n b ltac:(lia)). nia.
  - intros [H1 H2]. assert (n / b = q)%N as ->; [|lia].
    symmetry. apply (N.div_unique n b q (n - b * q)); lia.
Qed.

Lemma contains_block s ip : subnet_wf s -> ip_wf ip ->
  contains s ip = true <->
  is_ipv4 ip = is_ipv4 (network s) /\ (bits (network s) <= bits ip < bits (network s) + block s)%N.
Proof.
  intros (Hn & Hp & Hm) Hi. unfold contains. rewrite andb_true_iff, eqb_true_iff, bool_decide_eq_true. unfold block in *.
  assert (0 < 2 ^ (width (network s) - prefix s))%N as Hb by (apply N.neq_0_lt_0, N.pow_nonzero; lia). split.
  - intros [Hf E]. split; [done|]. apply floor_block; [done..|].
    rewrite <- E at 3. rewrite masked_bits; rewrite <- ?(same_width (network s) ip Hf); done.
  - intros [Hf Hr]. split; [done|]. apply same_ip; [by rewrite masked_family|].
    rewrite masked_bits; rewrite ?(same_width ip (network s) Hf); [|done|done]. by apply floor_block.
Qed.

Lemma Subnet_parse_wf text s : Subnet_parse text = Ok s ->
  subnet_wf s /\ exists address pfx, text = address ++ x2f :: pfx /\ parse_ip address = Some (network s) /\
    parse_unsigned 255 pfx = Some (prefix s).
Proof.
  unfold Subnet_parse. destruct (split_once x2f text) as [[address pfx]|] eqn:Es; [|done].
  case_bool_decide; [done|]. intros (net & En%ok_or_Ok & H1)%result_bind_Ok.
  apply result_bind_Ok in H1 as (p & Ep%ok_or_Ok & H1). cbn zeta in H1.
  destruct (N.ltb_spec (if is_ipv4 net then 32 else 128)%N p) as [Hp|Hp]; [done|].
  destruct (negb (contains _ net)) eqn:Ec; [done|]. cbn [orb] in H1. case_bool_decide as Em; [|done]. injection H1 as <-.
  apply split_once_Some in Es. pose proof (parse_ip_wf _ _ En) as Hw.
  assert (p <= width net)%N as Hp' by (by destruct net).
  split; [|eauto 10]. split_and!; [done|done|]. cbn [network]. unfold block. cbn [network prefix].
  rewrite <- Em at 1. rewrite masked_bits by done. cbn [prefix]. apply N.Div0.mod_mul.
Qed.

(** A subnet that parses is [address/prefix] with a network address that has no
    host bits, and contains exactly the addresses of its family in the block of
    2^(width - prefix) addresses that starts there. *)
Theorem subnet_exact text s : Subnet_parse text = Ok s ->
  (exists address pfx, text = address ++ x2f :: pfx /\ parse_ip address = Some (network s) /\
     parse_unsigned 255 pfx = Some (prefix s)) /\
  (prefix s <= width (network s))%N /\ (bits (network s) mod block s = 0)%N /\
  forall ip, ip_wf ip -> contains s ip = true <->
    is_ipv4 ip = is_ipv4 (network s) /\ (bits (network s) <= bits ip < bits (network s) + block s)%N.
Proof.
  intros [Hw Hx]%Subnet_parse_wf. destruct Hw as (Hn & Hp & Hm). split_and!; [done..|].
  intros ip Hi. by apply contains_block.
Qed.

Lemma subnet_exact_witness :
  exists s, Subnet_parse (bs "10.1.0.0/16") = Ok s /\ contains s (V4 0x0a01ffff) = true /\ contains s (V4 0x0a020000) = false.
Proof.
  exists (mkSubnet (V4 0x0a010000) 16). split; [vm_compute; reflexivity|].
  destruct (subnet_exact (bs "10.1.0.0/16") (mkSubnet (V4 0x0a010000) 16)) as (_ & _ & _ & H); [vm_compute; reflexivity|].
  split; [|vm_compute; reflexivity]. apply H; [vm_compute; reflexivity|]. vm_compute. repeat split; discriminate.
Defined.

(** ** The view *)

Section exact.
Context {J : Type} {JS : Json J}.

(** The one reading of a member record in a subnet. *)
Inductive reads (sn : Subnet) (record : J) : RoutingMember -> Prop :=
| reads_tombstoned name :
    str_field record (bs "name") = Some name -> is_valid_label name = true ->
    str_field record (bs "status") = Some (bs "tombstoned") -> reads sn record (Tombstoned name)
| reads_active_bus name text ip port :
    str_field record (bs "name") = Some name -> is_valid_label name = true ->
    str_field record (bs "status") = Some (bs "active") -> bool_field record (bs "bus") = Some true ->
    str_field record (bs "mesh_ip") = Some text -> parse_ip text = Some ip -> contains sn ip = true ->
    noded_port_of record = Some port -> reads sn record (ActiveBus name ip port)
| reads_transport name text ip :
    str_field record (bs "name") = Some name -> is_valid_label name = true ->
    str_field record (bs "status") = Some (bs "active") -> bool_field record (bs "bus") = Some false ->
    str_field record (bs "mesh_ip") = Some text -> parse_ip text = Some ip -> contains sn ip = true ->
    reads sn record (TransportOnly name ip).

Definition member_name (m : RoutingMember) : option bytes :=
  match m with ActiveBus n _ _ | Tombstoned n | TransportOnly n _ => Some n | Malformed n _ _ => n end.
Definition member_ip (m : RoutingMember) : option IpAddr :=
  match m with ActiveBus _ ip _ | TransportOnly _ ip => Some ip | _ => None end.

Definition distinct (v : list RoutingMember) : Prop := NoDup (omap member_name v) /\ NoDup (omap member_ip v).

(** What the loop has recorded beside the view. *)
Definition view_inv (st : ViewState) : Prop :=
  distinct (view st) /\ (forall n, n ∈ names st <-> n ∈ omap member_name (view st)) /\
  (forall ip, first_user ip (active_ips st) = None <-> ip ∉ omap member_ip (view st)).

Lemma first_user_cons ip ip' n m :
  first_user ip ((ip', n) :: m) = None <-> ip' <> ip /\ first_user ip m = None.
Proof. unfold first_user. cbn. case_bool_decide; naive_solver. Qed.

Lemma omap_snoc_NoDup {A B} (f : A -> option B) (l : list A) (x : A) :
  NoDup (omap f (l ++ [x])) <-> NoDup (omap f l) /\ (forall y, f x = Some y -> y ∉ omap f l).
Proof.
  rewrite omap_app. cbn. destruct (f x) as [y|]; cbn; rewrite ?app_nil_r; [|naive_solver].
  rewrite NoDup_app. split.
  - intros (H1 & H2 & _). split; [done|]. intros ? [= <-] Hin. by apply (H2 _ Hin), list_elem_of_singleton.
  - intros [H1 H2]. split_and!; [done|intros z Hz ->%list_elem_of_singleton; by apply (H2 y)|apply NoDup_singleton].
Qed.

Lemma view_inv_snoc st m seen ips :
  view_inv st -> distinct (view st ++ [m]) ->
  (forall n, n ∈ seen <-> member_name m = Some n \/ n ∈ names st) ->
  (forall ip, first_user ip ips = None <-> member_ip m <> Some ip /\ first_user ip (active_ips st) = None) ->
  view_inv (mkView (view st ++ [m]) seen ips).
Proof.
  intros (_ & Hn & Hi) Hd Hs Hips. split_and!; [done|..]; cbn [view names active_ips].
  - intros n. rewrite Hs, omap_app, elem_of_app, Hn. cbn.
    destruct (member_name m); cbn; rewrite ?list_elem_of_singleton, ?elem_of_nil; naive_solver.
  - intros ip. rewrite Hips, omap_app, not_elem_of_app, Hi. cbn.
    destruct (member_ip m) as [ip'|]; cbn; rewrite ?list_elem_of_singleton, ?elem_of_nil; naive_solver.
Qed.

Lemma view_record_sound sn st i r st' : view_inv st -> view_record sn st i r = Ok st' ->
  view_inv st' /\ exists m, reads sn r m /\ view st' = view st ++ [m].
Proof.
  intros Hv. pose proof Hv as ((Hd1 & Hd2) & Hn & Hi). unfold view_record.
  destruct (str_field r (bs "name")) as [name|] eqn:En; [|done].
  destruct (is_valid_label name) eqn:El; cbn [negb]; [|done].
  case_bool_decide as Hnew; [done|]. rewrite Hn in Hnew.
  intros (status & Es%ok_or_Ok & H)%result_bind_Ok.
  case_bool_decide as E1; [injection H as <-; subst status|case_bool_decide as E2; [subst status|done]].
  { split; [|exists (Tombstoned name); split; [by apply reads_tombstoned|done]].
    apply view_inv_snoc; [done|split; apply omap_snoc_NoDup; naive_solver|intros n; rewrite elem_of_cons; naive_solver|naive_solver]. }
  unfold view_active in H. apply result_bind_Ok in H as (bus & Eb%ok_or_Ok & H).
  apply result_bind_Ok in H as (text & Et%ok_or_Ok & H). apply result_bind_Ok in H as (ip & Eip%ok_or_Ok & H).
  destruct (contains sn ip) eqn:Ec; cbn [negb] in H; [|done].
  destruct (first_user ip (active_ips st)) eqn:Ef; [done|]. apply Hi in Ef.
  assert (forall m, member_name m = Some name -> member_ip m = Some ip ->
    view_inv (mkView (view st ++ [m]) (name :: names st) ((ip, name) :: active_ips st))) as Hinv.
  { intros m Hm1 Hm2. apply view_inv_snoc; [done|split; apply omap_snoc_NoDup; naive_solver| |].
    - intros n. rewrite elem_of_cons. naive_solver.
    - intros ip'. rewrite first_user_cons. naive_solver. }
  destruct bus.
  - apply result_bind_Ok in H as (port & Ep%ok_or_Ok & [= <-]). split; [by apply Hinv|].
    eexists. split; [by eapply reads_active_bus|done].
  - injection H as <-. split; [by apply Hinv|]. eexists. split; [by eapply reads_transport|done].
Qed.

Lemma view_record_complete sn st i r m : view_inv st -> reads sn r m -> distinct (view st ++ [m]) ->
  exists st', view_record sn st i r = Ok st' /\ view st' = view st ++ [m].
Proof.
  intros (_ & Hn & Hi) Hr [[_ H1]%omap_snoc_NoDup [_ H2]%omap_snoc_NoDup]. unfold view_record, view_active.
  destruct Hr as [name En El Es|name text ip port En El Es Eb Et Eip Ec Ep|name text ip En El Es Eb Et Eip Ec];
    rewrite En, El; cbn [negb]; rewrite bool_decide_eq_false_2 by (rewrite Hn; by apply H1); rewrite Es; cbn [ok_or result_bind].
  - rewrite bool_decide_eq_true_2 by done. eauto.
  - rewrite bool_decide_eq_false_2, bool_decide_eq_true_2 by done. rewrite Eb, Et. cbn [ok_or result_bind].
    rewrite Eip. cbn [ok_or result_bind]. rewrite Ec. cbn [negb]. rewrite (proj2 (Hi ip)) by (by apply H2).
    rewrite Ep. cbn. eauto.
  - rewrite bool_decide_eq_false_2, bool_decide_eq_true_2 by done. rewrite Eb, Et. cbn [ok_or result_bind].
    rewrite Eip. cbn [ok_or result_bind]. rewrite Ec. cbn [negb]. rewrite (proj2 (Hi ip)) by (by apply H2). eauto.
Qed.

Lemma distinct_prefix v w : distinct (v ++ w) -> distinct v.
Proof. unfold distinct. rewrite !omap_app, !NoDup_app. naive_solver. Qed.

Definition view_fold (sn : Subnet) (st : ViewState) (i : nat) (rs : list J) : result ViewState RoutingViewError :=
  foldM_res (fun st ir => view_record sn st (fst ir) (snd ir)) st (combine (seq i (length rs)) rs).

Lemma view_fold_sound sn rs st i st' : view_inv st -> view_fold sn st i rs = Ok st' ->
  view_inv st' /\ exists ms, Forall2 (reads sn) rs ms /\ view st' = view st ++ ms.
Proof.
  unfold view_fold. revert st i; induction rs as [|r rs IH]; intros st i Hv; cbn [length seq combine foldM_res fst snd].
  { intros [= <-]. split; [done|]. exists []. split; [constructor|by rewrite app_nil_r]. }
  intros (st1 & (Hv1 & m & Hm & Em)%view_record_sound & Hf)%result_bind_Ok; [|done].
  destruct (IH _ _ Hv1 Hf) as (Hv' & ms & Hms & Ems). split; [done|]. exists (m :: ms).
  split; [by constructor|]. by rewrite Ems, Em, <- app_assoc.
Qed.

Lemma view_fold_complete sn rs st i ms : view_inv st -> Forall2 (reads sn) rs ms -> distinct (view st ++ ms) ->
  exists st', view_fold sn st i rs = Ok st' /\ view st' = view st ++ ms.
Proof.
  unfold view_fold. intros Hv F; revert st i Hv; induction F as [|r m rs ms Hr F IH]; intros st i Hv Hd;
    cbn [length seq combine foldM_res fst snd]; [exists st; by rewrite app_nil_r|].
  change (m :: ms) with ([m] ++ ms) in Hd. rewrite (app_assoc _ [m]) in Hd. destruct (view_record_complete sn st i r m) as (st1 & E1 & Em); [done..|by eapply distinct_prefix|].
  rewrite E1. cbn [result_bind]. apply view_record_sound in E1 as [Hv1 _]; [|done]. rewrite <- Em in Hd.
  destruct (IH st1 (S i) Hv1 Hd) as (st' & E & Ev). exists st'. split; [done|]. by rewrite Ev, Em, <- app_assoc.
Qed.

(** C32 The routing view, exactly: it is returned iff the subnet parses, the members
    are an array, every record reads as a tombstone, a bus node or a transport-only
    node inside the subnet with a valid label, all names are distinct, all active
    addresses are distinct and some member is on the bus; and it then lists the
    members in the order of the records.  One bad record refuses the whole view. *)
Theorem routing_view_exact (members : J) subnet v :
  strict_routing_view members subnet = Ok v <->
  exists sn records, Subnet_parse subnet = Ok sn /\ j_as_array members = Some records /\
    Forall2 (reads sn) records v /\ distinct v /\ exists name ip port, ActiveBus name ip port ∈ v.
Proof.
  assert (view_inv (mkView [] [] [])) as H0.
  { split_and!; [split; constructor|done|]. intros ip. cbn. rewrite elem_of_nil. naive_solver. }
  assert (forall v, existsb is_active_bus v = true <-> exists name ip port, ActiveBus name ip port ∈ v) as Hx.
  { intros w. rewrite existsb_exists. setoid_rewrite <- list_elem_of_In. split; [intros ([] & ? & ?); naive_solver|].
    intros (n & ip & p & Hin). exists (ActiveBus n ip p). done. }
  unfold strict_routing_view. rewrite result_bind_Ok. setoid_rewrite map_err_Ok. split.
  - intros (sn & Es & H). destruct (j_as_array members) as [records|]; [|done].
    apply result_bind_Ok in H as (st & Hf & H). destruct (existsb is_active_bus (view st)) eqn:Ex; [|done].
    injection H as <-. apply view_fold_sound in Hf as [Hv (ms & Hms & Em)]; [|done]. cbn in Em. rewrite <- Em in Hms.
    exists sn, records. split_and!; [done..|apply Hv|by apply Hx].
  - intros (sn & records & Es & Ea & Hf & Hd & He). exists sn. split; [done|]. rewrite Ea.
    destruct (view_fold_complete sn records (mkView [] [] []) 0 v) as (st & E & Ev); [done..|].
    unfold view_fold in E. rewrite E. cbn [result_bind view] in *. rewrite Ev. cbn [app]. by rewrite (proj2 (Hx v) He).
Qed.
End exact.
