(* ===== verification/Admission.v ===== *)
(** * Broker admission ([cosmix-lib-mesh-trust/src/admission.rs], [sig.rs])

    The transcript a connecting node signs, the selection of a member's current
    credentials and the admission gate.  Ed25519 and base64 are interfaces with
    their documented behaviour; [canonical_bytes] answers [None] where
    [push_field] panics (a field of 2^32 bytes or more). *)

From S2P Require Import Prelude Utf8 Str Json TrustRecords.
From Stdlib Require Import NArith.

(** ** sig.rs *)

Definition PUBLIC_KEY_LENGTH : nat := 32.
Definition PRIVATE_KEY_LENGTH : nat := 32.
Definition SIGNATURE_LENGTH : nat := 64.

Inductive SigError :=
| InvalidKeyLength (got : nat) | InvalidSigLength (got : nat) | InvalidKey | VerifyFailed
| InvalidPrivateKeyLength (got : nat).

(** [VerifyingKey::from_bytes], [verify_strict], [SigningKey::from_bytes(..).sign]
    and the public key of a signing key. *)
Class Ed25519 := {
  vk_from_bytes : bytes -> bool;
  verify_strict : bytes -> bytes -> bytes -> bool;
  sk_sign : bytes -> bytes -> bytes;
  sk_public : bytes -> bytes }.

Class Ed25519Laws {ED : Ed25519} := {
  sk_public_valid : forall seed, length seed = PRIVATE_KEY_LENGTH ->
    length (sk_public seed) = PUBLIC_KEY_LENGTH /\ vk_from_bytes (sk_public seed) = true;
  sk_sign_length : forall seed msg, length seed = PRIVATE_KEY_LENGTH -> length (sk_sign seed msg) = SIGNATURE_LENGTH;
  sk_sign_verifies : forall seed msg, length seed = PRIVATE_KEY_LENGTH ->
    verify_strict (sk_public seed) msg (sk_sign seed msg) = true }.

Definition verify_ed25519 {ED : Ed25519} (public_key signature message : bytes) : result unit SigError :=
  if negb (length public_key =? PUBLIC_KEY_LENGTH) then Err (InvalidKeyLength (length public_key))
  else if negb (length signature =? SIGNATURE_LENGTH) then Err (InvalidSigLength (length signature))
  else if negb (vk_from_bytes public_key) then Err InvalidKey
  else if verify_strict public_key message signature then Ok tt else Err VerifyFailed.

Definition sign_ed25519 {ED : Ed25519} (private_key message : bytes) : result bytes SigError :=
  if negb (length private_key =? PRIVATE_KEY_LENGTH) then Err (InvalidPrivateKeyLength (length private_key))
  else Ok (sk_sign private_key message).

(** ** The transcript *)

Fixpoint le_bytes (w : nat) (n : N) : bytes :=
  match w with 0 => [] | S w' => byte_of (n mod 256) :: le_bytes w' (n / 256) end.
(** [to_be_bytes] of a [w]-byte integer. *)
Definition be_bytes (w : nat) (n : N) : bytes := rev (le_bytes w n).

Definition ADMIT_DOMAIN_V1 : bytes := bs "cosmix-d2-admit-v1".
Definition D2_CRED_KIND : bytes := bs "d2".
Definition WG_CRED_KIND : bytes := bs "wg".

Record AdmissionTranscript := mkTranscript {
  mesh_fqdn : bytes;
  claimed_source_node : bytes;
  verifying_broker_node : bytes;
  inventory_epoch : N;
  session_id : bytes;
  server_nonce : bytes;
  client_ephemeral : bytes;
  channel_binding_hash : bytes }.

Definition push_field (out : bytes) (field : bytes) : option bytes :=
  if (N.of_nat (length field) <? 2 ^ 32)%N
  then Some (out ++ be_bytes 4 (N.of_nat (length field)) ++ field) else None.

Fixpoint push_fields (out : bytes) (fields : list bytes) : option bytes :=
  match fields with [] => Some out | f :: fs => o ← push_field out f; push_fields o fs end.

Definition transcript_fields (t : AdmissionTranscript) : list bytes :=
  [ADMIT_DOMAIN_V1; mesh_fqdn t; claimed_source_node t; verifying_broker_node t;
   be_bytes 8 (inventory_epoch t); session_id t; server_nonce t; client_ephemeral t; channel_binding_hash t].

Definition canonical_bytes (t : AdmissionTranscript) : option bytes := push_fields [] (transcript_fields t).

(** ** Credentials *)

Section admission.
Context {J : Type} {JS : Json J} {B64 : Base64} {ED : Ed25519}.

(** [until_epoch]: absent or null is open-ended, otherwise half-open. *)
Definition until_check (current_epoch : Z) (c : J) : option unit :=
  match j_get c (bs "until_epoch") with
  | None => Some tt
  | Some v =>
    if j_is_null v then Some tt
    else until ← j_as_u64 v; if (until <=? current_epoch)%Z then None else Some tt
  end.

(** One entry of [credentials]: its key, if of this kind and current. *)
Definition credential_key (kind : bytes) (key_len : nat) (current_epoch : Z) (c : J) : option bytes :=
  if negb (bool_decide (str_field c (bs "kind") = Some kind)) then None
  else
    from ← u64_field c (bs "from_epoch");
    if (current_epoch <? from)%Z then None
    else
      _ ← until_check current_epoch c;
      text ← str_field c (bs "pubkey");
      pk ← b64_decode text;
      if length pk =? key_len then Some pk else None.

Definition select_pubkeys (kind : bytes) (key_len : nat) (member : J) (current_epoch : Z) : list bytes :=
  match array_field member (bs "credentials") with
  | None => []
  | Some creds => omap (credential_key kind key_len current_epoch) creds
  end.
Definition select_d2_pubkeys (member : J) (current_epoch : Z) : list bytes :=
  select_pubkeys D2_CRED_KIND 32 member current_epoch.
Definition select_wg_pubkeys (member : J) (current_epoch : Z) : list bytes :=
  select_pubkeys WG_CRED_KIND 32 member current_epoch.

(** ** The gate *)

Inductive AdmissionError :=
| SourceTombstoned (name : bytes)
| SourceBusFalse (name : bytes)
| NameMismatch (claimed record : bytes)
| EpochMismatch (transcript : N) (broker : Z)
| NoCurrentD2Credential (name : bytes)
| BadCredentialSignature (name : bytes)
| MalformedMember.

Definition sign_admission_transcript (d2_private_key : bytes) (t : AdmissionTranscript) : option (result bytes SigError) :=
  msg ← canonical_bytes t; Some (sign_ed25519 d2_private_key msg).

Definition broker_admit (member : J) (t : AdmissionTranscript) (signature : bytes) (current_epoch : Z) :
    option (result unit AdmissionError) :=
  match str_field member (bs "name") with
  | None => Some (Err MalformedMember)
  | Some name =>
    if negb (Z.of_N (inventory_epoch t) =? current_epoch)%Z then
      Some (Err (EpochMismatch (inventory_epoch t) current_epoch))
    else if negb (bool_decide (str_field member (bs "status") = Some (bs "active"))) then
      Some (Err (SourceTombstoned name))
    else if negb (bool_decide (bool_field member (bs "bus") = Some true)) then
      Some (Err (SourceBusFalse name))
    else if negb (bool_decide (name = claimed_source_node t)) then
      Some (Err (NameMismatch (claimed_source_node t) name))
    else
      match select_d2_pubkeys member current_epoch with
      | [] => Some (Err (NoCurrentD2Credential name))
      | d2_keys =>
        msg ← canonical_bytes t;
        Some (if existsb (fun pk => is_ok (verify_ed25519 pk signature msg)) d2_keys
              then Ok tt else Err (BadCredentialSignature name))
      end
  end.
End admission.

(** ** The encoding is injective *)

Lemma le_bytes_inj w m n :
  (m < 256 ^ N.of_nat w)%N -> (n < 256 ^ N.of_nat w)%N -> le_bytes w m = le_bytes w n -> m = n.
Proof.
  revert m n; induction w as [|w IH]; intros m n Hm Hn; [change (256 ^ N.of_nat 0)%N with 1%N in *; lia|].
  rewrite Nat2N.inj_succ, N.pow_succ_r' in Hm, Hn. cbn [le_bytes]. intros [= Hb Hr].
  apply byte_of_inj in Hb; [|apply N.mod_lt; lia..].
  apply IH in Hr; [|apply N.Div0.div_lt_upper_bound; lia..].
  pose proof (N.div_mod m 256 ltac:(lia)). pose proof (N.div_mod n 256 ltac:(lia)). congruence.
Qed.

Lemma length_be_bytes w n : length (be_bytes w n) = w.
Proof.
  unfold be_bytes. rewrite length_rev. revert n; induction w as [|w IH]; intros n; cbn; [done|]. by rewrite IH.
Qed.

Lemma be_bytes_inj w m n :
  (m < 256 ^ N.of_nat w)%N -> (n < 256 ^ N.of_nat w)%N -> be_bytes w m = be_bytes w n -> m = n.
Proof.
  unfold be_bytes. intros Hm Hn H. apply (f_equal (@rev byte)) in H. rewrite !rev_involutive in H.
  by eapply le_bytes_inj.
Qed.

Definition field_bytes (f : bytes) : bytes := be_bytes 4 (N.of_nat (length f)) ++ f.
Definition field_fits (f : bytes) : Prop := (N.of_nat (length f) < 2 ^ 32)%N.

Lemma push_fields_spec out fs b :
  push_fields out fs = Some b <-> Forall field_fits fs /\ b = out ++ concat (map field_bytes fs).
Proof.
  revert out; induction fs as [|f fs IH]; intros out; cbn [push_fields].
  { cbn. rewrite app_nil_r. split; [intros [= <-]; by split; [constructor|]|by intros [_ ->]]. }
  unfold push_field, field_fits. destruct (N.ltb_spec (N.of_nat (length f)) (2 ^ 32)) as [Hf|Hf]; cbn.
  - rewrite IH, Forall_cons. unfold field_bytes at 2. rewrite <- !app_assoc. naive_solver.
  - rewrite Forall_cons. split; [done|]. intros [[? _] _]. lia.
Qed.

(** A length-prefixed field is told apart from what follows it. *)
Lemma field_bytes_cut f g x y :
  field_fits f -> field_fits g -> field_bytes f ++ x = field_bytes g ++ y -> f = g /\ x = y.
Proof.
  unfold field_bytes, field_fits. intros Hf Hg E. rewrite <- !app_assoc in E.
  apply app_inj_1 in E as [El E]; [|by rewrite !length_be_bytes].
  apply be_bytes_inj in El; [|done..]. apply app_inj_1 in E; [done|lia].
Qed.

Lemma fields_inj fs gs :
  Forall field_fits fs -> Forall field_fits gs -> length fs = length gs ->
  concat (map field_bytes fs) = concat (map field_bytes gs) -> fs = gs.
Proof.
  intros Ff; revert gs; induction Ff as [|f fs Hf Ff IH]; intros [|g gs] Fg Hl E; try done.
  apply Forall_cons in Fg as [Hg Fg]. cbn in E. apply field_bytes_cut in E as [-> E]; [|done..].
  f_equal. apply IH; [done| |done]. by injection Hl.
Qed.

(** The signed transcript is unambiguous: two transcripts with the same signed
    bytes are the same transcript, so a signature covers exactly one claim of
    node, broker, epoch, session and nonce; and the bytes always exist while
    every field is shorter than 2^32 bytes. *)
Theorem transcript_injective t u :
  (inventory_epoch t < 2 ^ 64)%N -> (inventory_epoch u < 2 ^ 64)%N ->
  (canonical_bytes t <> None -> canonical_bytes t = canonical_bytes u -> t = u) /\
  (Forall field_fits (transcript_fields t) -> canonical_bytes t <> None).
Proof.
  intros Ht Hu. unfold canonical_bytes. split.
  - destruct (push_fields [] (transcript_fields t)) as [b|] eqn:E1; [intros _|done]. intros E2. symmetry in E2.
    apply push_fields_spec in E1 as [F1 ->]. apply push_fields_spec in E2 as [F2 E2].
    apply fields_inj in E2; [|done..]. unfold transcript_fields in E2. clear F1 F2.
    remember (be_bytes 8 (inventory_epoch t)) as bt eqn:Et. remember (be_bytes 8 (inventory_epoch u)) as bu eqn:Eu.
    injection E2 as H1 H2 H3 H4 H5 H6 H7 H8. rewrite Et, Eu in H4. apply be_bytes_inj in H4; [|done..].
    destruct t, u. cbn in *. congruence.
  - intros F E. by rewrite (proj2 (push_fields_spec [] _ _) (conj F eq_refl)) in E.
Qed.

(** ** Admission *)

Section claims.
Context {J : Type} {JS : Json J} {B64 : Base64} {ED : Ed25519}.

(** A credential of a kind that is current at an epoch: the half-open window
    [from, until), open-ended where [until_epoch] is absent or null. *)
Definition current_credential (kind : bytes) (epoch : Z) (c : J) (pk : bytes) : Prop :=
  str_field c (bs "kind") = Some kind /\
  (exists from, u64_field c (bs "from_epoch") = Some from /\ (from <= epoch)%Z) /\
  (forall v, j_get c (bs "until_epoch") = Some v -> j_is_null v = false ->
     exists until, j_as_u64 v = Some until /\ (epoch < until)%Z) /\
  (exists text, str_field c (bs "pubkey") = Some text /\ b64_decode text = Some pk) /\ length pk = 32.

(** The window's end. *)
Definition open_until (epoch : Z) (c : J) : Prop :=
  forall v, j_get c (bs "until_epoch") = Some v -> j_is_null v = false ->
    exists until, j_as_u64 v = Some until /\ (epoch < until)%Z.

Lemma until_check_exact epoch c :
  until_check epoch c = Some tt <-> open_until epoch c.
Proof.
  unfold until_check, open_until. destruct (j_get c (bs "until_epoch")) as [v|]; [|split; [by intros _ v|done]].
  destruct (j_is_null v) eqn:En; [split; [intros _ v' [= <-]; congruence|done]|].
  destruct (j_as_u64 v) as [u|] eqn:Eu; cbn [mbind option_bind].
  - destruct (Z.leb_spec u epoch) as [Hle|Hlt].
    + split; [done|]. intros H. destruct (H v eq_refl En) as (u' & E & ?). assert (u' = u) by congruence. lia.
    + split; [|done]. intros _ v' [= <-] _. eauto.
  - split; [done|]. intros H. destruct (H v eq_refl En) as (? & ? & _). congruence.
Qed.

Lemma credential_key_exact kind epoch c pk :
  credential_key kind 32 epoch c = Some pk <-> current_credential kind epoch c pk.
Proof.
  unfold credential_key, current_credential. fold (open_until epoch c). rewrite <- (until_check_exact epoch c).
  destruct (bool_decide_reflect (str_field c (bs "kind") = Some kind)) as [Hk|Hk]; cbn [negb];
    [|split; [done|]; by intros [? _]].
  destruct (u64_field c (bs "from_epoch")) as [from|]; cbn [mbind option_bind];
    [|split; [done|]; by intros (_ & (? & ? & _) & _)].
  destruct (Z.ltb_spec epoch from) as [Hf|Hf];
    [split; [done|]; intros (_ & (? & [= <-] & ?) & _); lia|].
  destruct (until_check epoch c) as [[]|]; cbn [mbind option_bind];
    [|split; [done|]; by intros (_ & _ & ? & _)].
  destruct (str_field c (bs "pubkey")) as [text|]; cbn [mbind option_bind];
    [|split; [done|]; by intros (_ & _ & _ & (? & ? & _) & _)].
  destruct (b64_decode text) as [k|] eqn:Eb; cbn [mbind option_bind];
    [|split; [done|]; intros (_ & _ & _ & (? & [= <-] & ?) & _); congruence].
  destruct (Nat.eqb_spec (length k) 32) as [Hl|Hl].
  - split; [intros [= <-]; split_and!; eauto|]. intros (_ & _ & _ & (? & [= <-] & ?) & _). congruence.
  - split; [done|]. intros (_ & _ & _ & (? & [= <-] & ?) & ?). congruence.
Qed.

Lemma select_d2_elem member epoch pk :
  pk ∈ select_d2_pubkeys member epoch <->
  exists creds c, array_field member (bs "credentials") = Some creds /\ c ∈ creds /\
    current_credential D2_CRED_KIND epoch c pk.
Proof.
  unfold select_d2_pubkeys, select_pubkeys. destruct (array_field member (bs "credentials")) as [creds|].
  - rewrite list_elem_of_omap. setoid_rewrite credential_key_exact. naive_solver.
  - split; [by intros ?%not_elem_of_nil|naive_solver].
Qed.

(** The member's side of admission. *)
Definition admissible (member : J) (t : AdmissionTranscript) (epoch : Z) : Prop :=
  str_field member (bs "name") = Some (claimed_source_node t) /\ Z.of_N (inventory_epoch t) = epoch /\
  str_field member (bs "status") = Some (bs "active") /\ bool_field member (bs "bus") = Some true.

Lemma admit_spec member t signature epoch :
  broker_admit member t signature epoch = Some (Ok tt) <->
  admissible member t epoch /\
  exists msg pk, canonical_bytes t = Some msg /\ pk ∈ select_d2_pubkeys member epoch /\
    verify_ed25519 pk signature msg = Ok tt.
Proof.
  unfold broker_admit, admissible. destruct (str_field member (bs "name")) as [name|]; [|naive_solver].
  destruct (Z.eqb_spec (Z.of_N (inventory_epoch t)) epoch) as [He|He]; cbn [negb]; [|naive_solver].
  destruct (bool_decide_reflect (str_field member (bs "status") = Some (bs "active"))); cbn [negb]; [|naive_solver].
  destruct (bool_decide_reflect (bool_field member (bs "bus") = Some true)); cbn [negb]; [|naive_solver].
  destruct (bool_decide_reflect (name = claimed_source_node t)) as [->|Hn]; cbn [negb]; [|naive_solver].
  destruct (select_d2_pubkeys member epoch) as [|k ks] eqn:Es.
  { split; [done|]. by intros (_ & ? & ? & _ & ?%not_elem_of_nil & _). }
  destruct (canonical_bytes t) as [msg|]; cbn [mbind option_bind]; [|naive_solver].
  assert (forall pk, is_ok (verify_ed25519 pk signature msg) = true <-> verify_ed25519 pk signature msg = Ok tt) as Hok
    by (intros pk; destruct (verify_ed25519 pk signature msg) as [[]|]; naive_solver).
  destruct (existsb _ (k :: ks)) eqn:Ex.
  - split; [|done]. intros _. apply existsb_exists in Ex as (pk & Hin & Hv%Hok). split; [done|].
    exists msg, pk. split_and!; [done|by apply list_elem_of_In|done].
  - split; [done|]. intros (_ & msg' & pk & [= <-] & Hin & Hv%Hok). exfalso.
    rewrite <- not_true_iff_false, existsb_exists in Ex. apply Ex. exists pk. by split; [apply list_elem_of_In|].
Qed.

(** C30 Admission, exactly: a session is admitted iff the member is the claimed
    node, active and on the bus, the transcript names the broker's epoch, and the
    signature verifies over the transcript under a [d2] key of the member whose
    window holds the epoch; and a node that signs with such a key is admitted. *)
Theorem admit_exact {EL : Ed25519Laws} member t epoch :
  (forall signature, broker_admit member t signature epoch = Some (Ok tt) <->
     admissible member t epoch /\
     exists msg creds c pk, canonical_bytes t = Some msg /\
       array_field member (bs "credentials") = Some creds /\ c ∈ creds /\
       current_credential D2_CRED_KIND epoch c pk /\ verify_ed25519 pk signature msg = Ok tt) /\
  (forall seed signature, length seed = PRIVATE_KEY_LENGTH -> admissible member t epoch ->
     sk_public seed ∈ select_d2_pubkeys member epoch ->
     sign_admission_transcript seed t = Some (Ok signature) -> broker_admit member t signature epoch = Some (Ok tt)).
Proof.
  split.
  - intros signature. rewrite admit_spec. setoid_rewrite select_d2_elem. naive_solver.
  - intros seed signature Hl Ha Hin Hs. apply admit_spec. split; [done|]. unfold sign_admission_transcript in Hs.
    destruct (canonical_bytes t) as [msg|]; [|done]. cbn in Hs. unfold sign_ed25519 in Hs.
    rewrite Hl, Nat.eqb_refl in Hs. injection Hs as <-. exists msg, (sk_public seed). split_and!; [done..|].
    unfold verify_ed25519. destruct (sk_public_valid seed Hl) as [-> ->].
    rewrite sk_sign_length, !Nat.eqb_refl by done. cbn [negb]. by rewrite sk_sign_verifies.
Qed.
End claims.

(** ** Witnesses: keys that sign by copying, to show the laws can hold *)

Definition toy_sign (seed msg : bytes) : bytes := take 64 (seed ++ msg ++ List.repeat x00 64).
#[local] Instance toy_ed25519 : Ed25519 := {
  vk_from_bytes pk := length pk =? 32;
  verify_strict pk msg sig := bool_decide (sig = toy_sign pk msg);
  sk_sign := toy_sign;
  sk_public seed := seed }.
#[local] Instance toy_ed25519_laws : Ed25519Laws.
Proof.
  split; cbn.
  - intros seed Hl. rewrite Hl. done.
  - intros seed msg _. unfold toy_sign, SIGNATURE_LENGTH. rewrite length_take, !length_app, repeat_length. lia.
  - intros seed msg _. by apply bool_decide_eq_true.
Qed.
#[local] Instance toy_base64 : Base64 := fun s => Some s.

Definition sample_seed : bytes := List.repeat x07 32.
Definition sample_member : JsonTree :=
  JObj [(bs "name", JStr (bs "alpha")); (bs "status", JStr (bs "active")); (bs "bus", JBool true);
    (bs "credentials", JArr [JObj [(bs "kind", JStr (bs "d2")); (bs "from_epoch", JNum 3);
       (bs "until_epoch", JNum 9); (bs "pubkey", JStr sample_seed)]])].
Definition sample_transcript : AdmissionTranscript :=
  mkTranscript (bs "mesh.net") (bs "alpha") (bs "hub") 5 [x01] [x02] [] [].
Definition sample_signature : bytes := toy_sign sample_seed (default [] (canonical_bytes sample_transcript)).

Lemma transcript_injective_witness :
  canonical_bytes sample_transcript <> None /\
  canonical_bytes sample_transcript <> canonical_bytes (mkTranscript (bs "mesh.net") (bs "alpha") (bs "hub") 6 [x01] [x02] [] []).
Proof.
  destruct (transcript_injective sample_transcript
    (mkTranscript (bs "mesh.net") (bs "alpha") (bs "hub") 6 [x01] [x02] [] [])) as [H1 H2]; [reflexivity|reflexivity|].
  assert (canonical_bytes sample_transcript <> None) as Hn.
  { apply H2. repeat constructor. }
  split; [exact Hn|]. intros E. specialize (H1 Hn E). discriminate H1.
Defined.

Lemma admit_exact_witness :
  broker_admit sample_member sample_transcript sample_signature 5 = Some (Ok tt) /\
  broker_admit sample_member sample_transcript sample_signature 9 <> Some (Ok tt).
Proof.
  split.
  - apply (proj2 (admit_exact sample_member sample_transcript 5) sample_seed); [reflexivity|split_and!; reflexivity| |reflexivity].
    apply (bool_decide_unpack _). vm_compute. exact I.
  - vm_compute. discriminate.
Defined.
