(* ===== verification/Inventory.v ===== *)
(** * The signed mesh inventory ([cosmix-lib-mesh-trust/src/inventory.rs])

    The authored document that declares mesh membership, its detached signatures
    and [SignedInventory::verify], the acceptance decision.  Every signature is
    over the canonical bytes of the payload's JSON value ([Canonical]).  Ed25519,
    base64, the float text and BLAKE3 are interfaces; of BLAKE3 nothing is assumed
    but that it is a function, and the theorem that needs two payloads to have
    different hashes says so of the payloads at hand. *)

From S2P Require Import Prelude Utf8 Str BTree Json Canonical TrustRecords Admission.

Definition SUPPORTED_SCHEMA_VERSION : Z := 1.
Definition CANONICAL_ENCODING_V1 : bytes := bs "json/rfc8785".
Definition ALG_ED25519 : bytes := bs "Ed25519".
Definition ED25519_PUBKEY_LEN : nat := 32.
Definition ED25519_SIG_LEN : nat := 64.
Definition SIGNER_OWNED_FIELDS : list bytes :=
  [bs "canonical_encoding"; bs "signed_at"; bs "valid_until"; bs "verify_keys"; bs "signatures"; bs "recovery";
   bs "recovery_generation"].

(** [blake3::hash(..).to_hex()] *)
Class Blake3 := blake3_hex : bytes -> bytes.

(** ** The document *)

Inductive KeyStatus := KeyActive | KeyRetiring.

Record VerifyKey := mkVerifyKey {
  vk_key_id : bytes; vk_pubkey : bytes; vk_key_type : bytes; vk_status : KeyStatus }.
Record InvSignature := mkInvSignature { is_key_id : bytes; is_alg : bytes; is_sig : bytes }.

Record InventoryPayload := mkPayload {
  schema_version : Z;
  canonical_encoding : bytes;
  inv_mesh : bytes;
  inv_subnet : bytes;
  inv_epoch : Z;
  signed_at : bytes;
  valid_until : bytes;
  hub : list bytes;
  verify_keys : list VerifyKey;
  members : JsonTree;
  recovery : option bool;
  recovery_generation : option Z }.

Record SignedInventory := mkSigned { payload : InventoryPayload; signatures : list InvSignature }.

(** [deserialize_lenient_signatures]: entries that are no signature are dropped;
    [from_value] is the derived decoder of one entry. *)
Definition deserialize_lenient_signatures (from_value : JsonTree -> option InvSignature) (raw : list JsonTree) :
    list InvSignature := omap from_value raw.

(** The derived serialisation. *)
Definition status_name (s : KeyStatus) : bytes :=
  match s with KeyActive => bs "active" | KeyRetiring => bs "retiring" end.
Definition verify_key_value (k : VerifyKey) : JsonTree :=
  JObj [(bs "key_id", JStr (vk_key_id k)); (bs "pubkey", JStr (vk_pubkey k));
        (bs "key_type", JStr (vk_key_type k)); (bs "status", JStr (status_name (vk_status k)))].
Definition payload_value (p : InventoryPayload) : JsonTree :=
  JObj ([(bs "schema_version", JNum (schema_version p));
         (bs "canonical_encoding", JStr (canonical_encoding p));
         (bs "mesh", JStr (inv_mesh p));
         (bs "subnet", JStr (inv_subnet p));
         (bs "epoch", JNum (inv_epoch p));
         (bs "signed_at", JStr (signed_at p));
         (bs "valid_until", JStr (valid_until p));
         (bs "hub", JArr (map JStr (hub p)));
         (bs "verify_keys", JArr (map verify_key_value (verify_keys p)));
         (bs "members", members p)]
    ++ match recovery p with Some r => [(bs "recovery", JBool r)] | None => [] end
    ++ match recovery_generation p with Some g => [(bs "recovery_generation", JNum g)] | None => [] end).

Section payload.
Context {FT : FloatText} {B3 : Blake3}.
Definition payload_bytes (p : InventoryPayload) : bytes := to_canonical_bytes (payload_value p).
Definition canonical_blake3 (p : InventoryPayload) : bytes := blake3_hex (payload_bytes p).

Definition authoring_blake3_for_value (v : JsonTree) : bytes :=
  let projected := match v with
    | JObj m => JObj (filter (fun kv => fst kv ∉ bs "unsigned" :: SIGNER_OWNED_FIELDS) m)
    | _ => v end in
  blake3_hex (to_canonical_bytes projected).
Definition authoring_blake3 (p : InventoryPayload) : bytes := authoring_blake3_for_value (payload_value p).
End payload.

(** ** Trust state and outcome *)

Record TrustedKey := mkTrustedKey { tk_key_id : bytes; tk_pubkey : bytes; tk_status : KeyStatus }.

Record NodeTrustState := mkTrustState {
  genesis_key_id : bytes;
  trusted_keys : list TrustedKey;
  last_epoch : Z;
  last_recovery_generation : Z;
  last_canonical_hash : option bytes }.

Definition trusted_pubkey (st : NodeTrustState) (key_id : bytes) : option bytes :=
  tk_pubkey <$> List.find (fun k => bool_decide (tk_key_id k = key_id)) (trusted_keys st).

Record AcceptedInventory := mkAccepted {
  acc_epoch : Z;
  acc_recovery_generation : Z;
  via_recovery : bool;
  verified_by : list bytes;
  adopt_verify_keys : list VerifyKey }.

Inductive VerifyError :=
| UnknownCanonicalEncoding (e : bytes)
| UnsupportedSchemaVersion (v : Z)
| MalformedPayload (what : bytes)
| NoVerifyKeys
| UnsupportedKeyType (key_id key_type : bytes)
| MalformedVerifyKey (key_id : bytes)
| DuplicateVerifyKeyId (key_id : bytes)
| NoTrustedSignature
| GenesisDropped (genesis_key_id : bytes)
| StaleEpoch (payload_epoch last_epoch : Z)
| RecoveryNotGenesisSigned
| NormalExplicitRecoveryFalse
| RecoveryMissingGeneration
| StaleRecovery (payload_generation last_generation : Z)
| RecoveryEqualGenerationUnpinned (generation : Z)
| RecoveryGenerationRollback (payload_generation last_generation : Z)
| NormalMissingRecoveryGeneration (last_generation : Z)
| RecoveryFloorRaiseRequiresGenesis (payload_generation last_generation : Z)
| BaselineHashMismatch (payload_epoch payload_generation : Z) (expected_hash payload_hash : bytes).

(** ** [SignedInventory::verify] *)

Section verify.
Context {FT : FloatText} {B3 : Blake3} {B64 : Base64} {ED : Ed25519}.

Definition decode_fixed (s : bytes) (len : nat) : option bytes :=
  b ← b64_decode s; if length b =? len then Some b else None.

(** (4): one entry of [verify_keys], with the ids seen before it. *)
Definition check_verify_key (ids : list bytes) (vk : VerifyKey) : result (list bytes) VerifyError :=
  if negb (bool_decide (vk_key_type vk = ALG_ED25519)) then Err (UnsupportedKeyType (vk_key_id vk) (vk_key_type vk))
  else if bool_decide (decode_fixed (vk_pubkey vk) ED25519_PUBKEY_LEN = None) then Err (MalformedVerifyKey (vk_key_id vk))
  else if bool_decide (vk_key_id vk ∈ ids) then Err (DuplicateVerifyKeyId (vk_key_id vk))
  else Ok (vk_key_id vk :: ids).

(** (6): one signature; [counted] is the set of ids of [verified_by]. *)
Record Tally := mkTally { t_verified_by : list bytes; t_counted : list bytes; genesis_verified : bool }.

Definition count_signature (st : NodeTrustState) (declared : list bytes) (msg : bytes) (t : Tally) (s : InvSignature) : Tally :=
  if negb (bool_decide (is_alg s = ALG_ED25519)) then t
  else if negb (bool_decide (is_key_id s ∈ declared)) then t
  else match trusted_pubkey st (is_key_id s) with
  | None => t
  | Some pubkey =>
    match decode_fixed (is_sig s) ED25519_SIG_LEN with
    | None => t
    | Some sig =>
      if negb (is_ok (verify_ed25519 pubkey sig msg)) then t
      else if bool_decide (is_key_id s ∈ t_counted t) then t
      else mkTally (t_verified_by t ++ [is_key_id s]) (is_key_id s :: t_counted t)
             (if bool_decide (is_key_id s = genesis_key_id st) then true else genesis_verified t)
    end
  end.

Definition tally (st : NodeTrustState) (p : InventoryPayload) (sigs : list InvSignature) : Tally :=
  foldl (count_signature st (map vk_key_id (verify_keys p)) (payload_bytes p)) (mkTally [] [] false) sigs.

(** (9): the recovery axis and the normal axis. *)
Definition recovery_axis (st : NodeTrustState) (p : InventoryPayload) (genesis : bool) : result Z VerifyError :=
  if negb genesis then Err RecoveryNotGenesisSigned
  else match recovery_generation p with
  | None => Err RecoveryMissingGeneration
  | Some generation =>
    if (generation <? last_recovery_generation st)%Z then Err (StaleRecovery generation (last_recovery_generation st))
    else if (generation =? last_recovery_generation st)%Z && bool_decide (last_canonical_hash st = None)
    then Err (RecoveryEqualGenerationUnpinned generation)
    else Ok generation
  end.

Definition normal_axis (st : NodeTrustState) (p : InventoryPayload) (genesis : bool) : result Z VerifyError :=
  if (inv_epoch p <? last_epoch st)%Z then Err (StaleEpoch (inv_epoch p) (last_epoch st))
  else match recovery_generation p with
  | None =>
    if (last_recovery_generation st =? 0)%Z then Ok 0%Z
    else Err (NormalMissingRecoveryGeneration (last_recovery_generation st))
  | Some generation =>
    if (generation =? last_recovery_generation st)%Z then Ok generation
    else if (generation <? last_recovery_generation st)%Z
    then Err (RecoveryGenerationRollback generation (last_recovery_generation st))
    else if genesis then Ok generation
    else Err (RecoveryFloorRaiseRequiresGenesis generation (last_recovery_generation st))
  end.

Definition recovery_flag (p : InventoryPayload) : result bool VerifyError :=
  match recovery p with None => Ok false | Some true => Ok true | Some false => Err NormalExplicitRecoveryFalse end.

Definition hash_check (st : NodeTrustState) (p : InventoryPayload) (fold_advanced : bool) (generation : Z) : result unit VerifyError :=
  match last_canonical_hash st with
  | Some expected_hash =>
    if negb fold_advanced && negb (bool_decide (canonical_blake3 p = expected_hash))
    then Err (BaselineHashMismatch (inv_epoch p) generation expected_hash (canonical_blake3 p)) else Ok tt
  | None => Ok tt
  end.

Definition verify (s : SignedInventory) (st : NodeTrustState) : result AcceptedInventory VerifyError :=
  let p := payload s in
  if negb (bool_decide (canonical_encoding p = CANONICAL_ENCODING_V1)) then Err (UnknownCanonicalEncoding (canonical_encoding p))
  else if negb (schema_version p =? SUPPORTED_SCHEMA_VERSION)%Z then Err (UnsupportedSchemaVersion (schema_version p))
  else if bool_decide (j_as_array (members p) = None) then Err (MalformedPayload (bs "members is not an array"))
  else if bool_decide (length (verify_keys p) = 0) then Err NoVerifyKeys
  else
  let? _ := foldM_res check_verify_key [] (verify_keys p) in
  let t := tally st p (signatures s) in
  if bool_decide (length (t_verified_by t) = 0) then Err NoTrustedSignature
  else if negb (existsb (fun vk => bool_decide (vk_key_id vk = genesis_key_id st)) (verify_keys p))
  then Err (GenesisDropped (genesis_key_id st))
  else
  let? rec := recovery_flag p in
  let? accepted_generation :=
    (if rec then recovery_axis st p (genesis_verified t) else normal_axis st p (genesis_verified t)) in
  let fold_advanced :=
    if rec then (last_recovery_generation st <? accepted_generation)%Z
    else (last_epoch st <? inv_epoch p)%Z || (last_recovery_generation st <? accepted_generation)%Z in
  let? _ := hash_check st p fold_advanced accepted_generation in
  Ok (mkAccepted (inv_epoch p) accepted_generation rec (t_verified_by t) (verify_keys p)).
End verify.

(** ** The canonical bytes cover every field *)

(** The same document: all fields equal, the members up to the order of keys. *)
Definition payload_same (p q : InventoryPayload) : Prop :=
  schema_version p = schema_version q /\ canonical_encoding p = canonical_encoding q /\ inv_mesh p = inv_mesh q /\
  inv_subnet p = inv_subnet q /\ inv_epoch p = inv_epoch q /\ signed_at p = signed_at q /\ valid_until p = valid_until q /\
  hub p = hub q /\ verify_keys p = verify_keys q /\ canon (members p) = canon (members q) /\
  recovery p = recovery q /\ recovery_generation p = recovery_generation q.

Lemma verify_key_value_inj k k' : canon (verify_key_value k) = canon (verify_key_value k') -> k = k'.
Proof.
  destruct k as [i p t s], k' as [i' p' t' s']. unfold verify_key_value. cbn [vk_key_id vk_pubkey vk_key_type vk_status]. intros H.
  field_eq H "key_id"%string. field_eq H "pubkey"%string. field_eq H "key_type"%string. field_eq H "status"%string.
  destruct s, s'; try done; congruence.
Qed.

Lemma canon_map_inj {A} (f : A -> JsonTree) l k :
  (forall a b, canon (f a) = canon (f b) -> a = b) -> map canon (map f l) = map canon (map f k) -> l = k.
Proof.
  intros Hf. revert k; induction l as [|a l IH]; intros [|b k]; cbn; intros E; try done.
  apply (f_equal (fun x => (head x, tail x))) in E. cbn in E. apply pair_equal_spec in E as [E1 E2].
  f_equal; [|by apply IH]. apply Hf. congruence.
Qed.

Lemma payload_value_canon p q : canon (payload_value p) = canon (payload_value q) <-> payload_same p q.
Proof.
  unfold payload_same, payload_value. split.
  - intros H. destruct p as [v1 v2 v3 v4 v5 v6 v7 v8 v9 v10 r g], q as [w1 w2 w3 w4 w5 w6 w7 w8 w9 w10 r' g'].
    cbn [schema_version canonical_encoding inv_mesh inv_subnet inv_epoch signed_at valid_until hub verify_keys members
      recovery recovery_generation] in *.
    destruct r as [r|], r' as [r'|], g as [g|], g' as [g'|]; cbn [app] in H;
    (field_eq H "recovery"%string; try discriminate; field_eq H "recovery_generation"%string; try discriminate;
     field_eq H "schema_version"%string; field_eq H "canonical_encoding"%string; field_eq H "mesh"%string;
     field_eq H "subnet"%string; field_eq H "epoch"%string; field_eq H "signed_at"%string; field_eq H "valid_until"%string;
     field_eq H "hub"%string; field_eq H "verify_keys"%string; field_eq H "members"%string;
     split_and!; try congruence;
     first [by eapply canon_map_inj; [apply verify_key_value_inj|eassumption]|
       by eapply (canon_map_inj JStr); [cbn; congruence|eassumption]]).
  - intros (-> & -> & -> & -> & -> & -> & -> & -> & -> & Hm & -> & ->). cbn [canon]. do 2 f_equal.
    rewrite !map_app. f_equal. cbn [map fst snd]. by rewrite Hm.
Qed.

Lemma payload_bytes_exact {FT : FloatText} {FL : FloatTextLaws} p q :
  json_wf (payload_value p) = true -> json_wf (payload_value q) = true ->
  payload_bytes p = payload_bytes q <-> payload_same p q.
Proof.
  intros Hp Hq. unfold payload_bytes, to_canonical_bytes. rewrite <- payload_value_canon. split; intros E.
  - apply (emit_cut _ _ [] []); [done..|]. by rewrite E.
  - by rewrite <- (emit_canon _ Hp), E, emit_canon.
Qed.

(** A signature over an inventory covers the whole document: two payloads have
    the same canonical bytes iff all their fields are equal, the opaque members up
    to the order of their keys, so an absent recovery field never stands for a
    present one and re-ordering keys never breaks a signature. *)
Theorem payload_signed_exactly {FT : FloatText} {FL : FloatTextLaws} p q :
  json_wf (payload_value p) = true -> json_wf (payload_value q) = true ->
  payload_bytes p = payload_bytes q <-> payload_same p q.
Proof. apply payload_bytes_exact. Qed.

(** ** What acceptance means *)

#[local] Opaque payload_bytes ALG_ED25519 CANONICAL_ENCODING_V1.

Section spec.
Context {FT : FloatText} {B3 : Blake3} {B64 : Base64} {ED : Ed25519}.
Implicit Types (st : NodeTrustState) (p : InventoryPayload) (sigs : list InvSignature).

(** A signature that counts: Ed25519 by a declared key, verified over the
    payload's canonical bytes under the key the node already trusts by that id. *)
Definition authoritative st p (s : InvSignature) : Prop :=
  is_alg s = ALG_ED25519 /\ is_key_id s ∈ map vk_key_id (verify_keys p) /\
  exists pubkey sig, trusted_pubkey st (is_key_id s) = Some pubkey /\
    decode_fixed (is_sig s) ED25519_SIG_LEN = Some sig /\ verify_ed25519 pubkey sig (payload_bytes p) = Ok tt.

Definition signed_by st p sigs (k : bytes) : Prop :=
  exists s, s ∈ sigs /\ is_key_id s = k /\ authoritative st p s.

Definition payload_ok p : Prop :=
  canonical_encoding p = CANONICAL_ENCODING_V1 /\ schema_version p = SUPPORTED_SCHEMA_VERSION /\
  (exists l, members p = JArr l) /\ verify_keys p <> [] /\
  Forall (fun vk => vk_key_type vk = ALG_ED25519 /\ exists b, decode_fixed (vk_pubkey vk) ED25519_PUBKEY_LEN = Some b)
    (verify_keys p) /\ NoDup (map vk_key_id (verify_keys p)).

(** The generation a normal payload stands for: silent only before the first
    recovery, raised only under genesis. *)
Definition resolves st p (genesis : Prop) (g : Z) : Prop :=
  match recovery_generation p with
  | None => last_recovery_generation st = 0%Z /\ g = 0%Z
  | Some n => g = n /\ (n = last_recovery_generation st \/ (last_recovery_generation st < n)%Z /\ genesis)
  end.

(** The accepting rows of the table that documents [NodeTrustState]. *)
Inductive table_row st p (genesis : Prop) (g : Z) : Prop :=
| row_normal_advance :
    recovery p = None -> resolves st p genesis g -> (last_epoch st <= inv_epoch p)%Z ->
    (last_epoch st < inv_epoch p)%Z \/ (last_recovery_generation st < g)%Z -> table_row st p genesis g
| row_normal_migration :
    recovery p = None -> resolves st p genesis g -> inv_epoch p = last_epoch st -> g = last_recovery_generation st ->
    last_canonical_hash st = None -> table_row st p genesis g
| row_normal_repush :
    recovery p = None -> resolves st p genesis g -> inv_epoch p = last_epoch st -> g = last_recovery_generation st ->
    last_canonical_hash st = Some (canonical_blake3 p) -> table_row st p genesis g
| row_recovery_override :
    recovery p = Some true -> recovery_generation p = Some g -> genesis -> (last_recovery_generation st < g)%Z ->
    table_row st p genesis g
| row_recovery_repush :
    recovery p = Some true -> recovery_generation p = Some g -> genesis -> g = last_recovery_generation st ->
    last_canonical_hash st = Some (canonical_blake3 p) -> table_row st p genesis g.

(** ** The signature count *)

Definition counts st p (s : InvSignature) : bool :=
  bool_decide (is_alg s = ALG_ED25519) && bool_decide (is_key_id s ∈ map vk_key_id (verify_keys p)) &&
  match trusted_pubkey st (is_key_id s), decode_fixed (is_sig s) ED25519_SIG_LEN with
  | Some pubkey, Some sig => is_ok (verify_ed25519 pubkey sig (payload_bytes p)) | _, _ => false end.

Lemma counts_spec st p s : counts st p s = true <-> authoritative st p s.
Proof.
  unfold counts, authoritative. rewrite !andb_true_iff, !bool_decide_eq_true.
  destruct (trusted_pubkey st (is_key_id s)) as [pk|]; [|naive_solver].
  destruct (decode_fixed (is_sig s) ED25519_SIG_LEN) as [sg|]; [|naive_solver].
  destruct (verify_ed25519 pk sg (payload_bytes p)) as [[]|] eqn:E; cbn [is_ok]; split.
  - intros [[? ?] _]. split_and!; [done..|]. eauto.
  - naive_solver.
  - by intros [_ ?].
  - intros (_ & _ & ? & ? & [= <-] & [= <-] & ?). congruence.
Qed.

Lemma count_signature_eq st p t s :
  count_signature st (map vk_key_id (verify_keys p)) (payload_bytes p) t s =
  if counts st p s then
    if bool_decide (is_key_id s ∈ t_counted t) then t
    else mkTally (t_verified_by t ++ [is_key_id s]) (is_key_id s :: t_counted t)
           (if bool_decide (is_key_id s = genesis_key_id st) then true else genesis_verified t)
  else t.
Proof.
  unfold count_signature, counts. destruct (bool_decide (is_alg s = ALG_ED25519)); cbn [negb andb]; [|done].
  destruct (bool_decide (is_key_id s ∈ map vk_key_id (verify_keys p))); cbn [negb andb]; [|done].
  destruct (trusted_pubkey st (is_key_id s)) as [pk|]; [|done].
  destruct (decode_fixed (is_sig s) ED25519_SIG_LEN) as [sg|]; [|done].
  by destruct (is_ok (verify_ed25519 pk sg (payload_bytes p))).
Qed.

Lemma tally_snoc st p sigs s :
  tally st p (sigs ++ [s]) = count_signature st (map vk_key_id (verify_keys p)) (payload_bytes p) (tally st p sigs) s.
Proof. unfold tally. by rewrite foldl_app. Qed.

(** The count is the set of the keys that signed, each once. *)
Lemma tally_spec st p sigs :
  NoDup (t_verified_by (tally st p sigs)) /\
  (forall k, k ∈ t_verified_by (tally st p sigs) <-> signed_by st p sigs k) /\
  (forall k, k ∈ t_counted (tally st p sigs) <-> signed_by st p sigs k) /\
  (genesis_verified (tally st p sigs) = true <-> signed_by st p sigs (genesis_key_id st)).
Proof.
  induction sigs as [|s sigs (Hd & Hv & Hc & Hg)] using rev_ind.
  { unfold signed_by. cbn. split_and!; [constructor|..]; intros; split; try done;
      try (by intros ?%not_elem_of_nil); by intros (? & ?%not_elem_of_nil & _). }
  assert (forall k, signed_by st p (sigs ++ [s]) k <-> signed_by st p sigs k \/ (is_key_id s = k /\ authoritative st p s)) as Hs.
  { intros k. unfold signed_by. setoid_rewrite elem_of_app. setoid_rewrite list_elem_of_singleton. naive_solver. }
  rewrite tally_snoc, count_signature_eq. setoid_rewrite Hs. pose proof (counts_spec st p s) as Ha.
  destruct (counts st p s).
  - pose proof (proj1 Ha eq_refl) as HA.
    destruct (bool_decide_reflect (is_key_id s ∈ t_counted (tally st p sigs))) as [Hin|Hout].
    + rewrite Hc in Hin. assert (forall k, signed_by st p sigs k <-> signed_by st p sigs k \/ is_key_id s = k /\ authoritative st p s) as Habs.
      { intros k. split; [by left|]. by intros [?|[<- _]]. }
      setoid_rewrite <- Habs. done.
    + rewrite Hc in Hout. cbn [t_verified_by t_counted genesis_verified]. split_and!.
      * apply NoDup_app. split_and!; [done|intros k Hk ->%list_elem_of_singleton; by rewrite Hv in Hk|apply NoDup_singleton].
      * intros k. rewrite elem_of_app, list_elem_of_singleton, Hv. clear -HA. intuition congruence.
      * intros k. rewrite elem_of_cons, Hc. clear -HA. intuition congruence.
      * case_bool_decide as Hg'; [split; [by right|done]|]. rewrite Hg. clear -HA Hg'. intuition congruence.
  - assert (~ authoritative st p s) as HA by (by intros ?%Ha).
    assert (forall k, signed_by st p sigs k <-> signed_by st p sigs k \/ is_key_id s = k /\ authoritative st p s) as Habs.
    { intros k. clear -HA. tauto. }
    setoid_rewrite <- Habs. done.
Qed.
(** ** The decision against the table *)

Lemma check_keys_spec l ids :
  (exists ids', foldM_res check_verify_key ids l = Ok ids') <->
  Forall (fun vk => vk_key_type vk = ALG_ED25519 /\ exists b, decode_fixed (vk_pubkey vk) ED25519_PUBKEY_LEN = Some b) l /\
  NoDup (map vk_key_id l) /\ forall k, k ∈ map vk_key_id l -> k ∉ ids.
Proof.
  revert ids; induction l as [|vk l IH]; intros ids; cbn [foldM_res map].
  { split; [intros _; split_and!; [constructor..|by intros ? ?%not_elem_of_nil]|eauto]. }
  unfold check_verify_key at 1. rewrite Forall_cons, NoDup_cons.
  destruct (bool_decide_reflect (vk_key_type vk = ALG_ED25519)) as [Ht|Ht]; cbn [negb result_bind]; [|naive_solver].
  destruct (bool_decide_reflect (decode_fixed (vk_pubkey vk) ED25519_PUBKEY_LEN = None)) as [Hp|Hp]; cbn [result_bind].
  { split; [by intros (? & ?)|]. rewrite Hp. intros ([[_ (? & ?)] _] & _). done. }
  assert (exists b, decode_fixed (vk_pubkey vk) ED25519_PUBKEY_LEN = Some b) as Hb
    by (destruct (decode_fixed (vk_pubkey vk) ED25519_PUBKEY_LEN); naive_solver).
  destruct (bool_decide_reflect (vk_key_id vk ∈ ids)) as [Hi|Hi]; cbn [result_bind].
  { split; [by intros (? & ?)|]. intros (_ & _ & H). exfalso. apply (H (vk_key_id vk)); [constructor|done]. }
  rewrite IH. setoid_rewrite elem_of_cons. split.
  - intros (Hf & Hn & Hk). split_and!; [done..|intros Hin; apply (Hk _ Hin); by left|done|].
    intros k [->|Hin] Hin'; [done|]. apply (Hk k Hin). by right.
  - intros ([_ Hf] & [Hn1 Hn2] & Hk). split_and!; [done..|]. intros k Hin [->|Hin']; [done|]. apply (Hk k); [by right|done].
Qed.

Lemma hash_check_spec st p adv g :
  hash_check st p adv g = Ok tt <->
  adv = true \/ last_canonical_hash st = None \/ last_canonical_hash st = Some (canonical_blake3 p).
Proof.
  unfold hash_check. destruct (last_canonical_hash st) as [h|]; [|naive_solver].
  destruct adv; cbn [negb andb]; [naive_solver|]. case_bool_decide as E; cbn [negb]; [subst h; naive_solver|].
  split; [done|]. intros [?|[?|[= ?]]]; done.
Qed.

Lemma recovery_axis_spec st p gen g :
  recovery_axis st p gen = Ok g <->
  gen = true /\ recovery_generation p = Some g /\ (last_recovery_generation st <= g)%Z /\
  (g = last_recovery_generation st -> last_canonical_hash st <> None).
Proof.
  unfold recovery_axis. destruct gen; cbn [negb]; [|naive_solver].
  destruct (recovery_generation p) as [n|]; [|naive_solver].
  destruct (Z.ltb_spec n (last_recovery_generation st)) as [Hl|Hl]; [split; [done|]; intros (_ & [= <-] & ? & _); lia|].
  destruct (Z.eqb_spec n (last_recovery_generation st)) as [He|He]; cbn [andb].
  - case_bool_decide as Hn; [split; [done|]; intros (_ & [= <-] & _ & H); by destruct (H He)|].
    split; [intros [= <-]; done|naive_solver].
  - split; [intros [= <-]; split_and!; [done..|lia]|naive_solver].
Qed.

Lemma normal_axis_spec st p gen g :
  normal_axis st p gen = Ok g <-> (last_epoch st <= inv_epoch p)%Z /\ resolves st p (gen = true) g.
Proof.
  unfold normal_axis, resolves. destruct (Z.ltb_spec (inv_epoch p) (last_epoch st)) as [Hl|Hl]; [split; [done|lia]|].
  destruct (recovery_generation p) as [n|].
  - destruct (Z.eqb_spec n (last_recovery_generation st)) as [He|He]; [naive_solver lia|].
    destruct (Z.ltb_spec n (last_recovery_generation st)) as [Hn|Hn]; [naive_solver lia|].
    destruct gen; [|naive_solver]. split; [intros [= <-]; split; [done|split; [done|right; split; [lia|done]]]|naive_solver].
  - destruct (Z.eqb_spec (last_recovery_generation st) 0); naive_solver.
Qed.

Lemma fold_spec st p gen g rec :
  recovery_flag p = Ok rec /\
  (if rec then recovery_axis st p gen else normal_axis st p gen) = Ok g /\
  hash_check st p (if rec then (last_recovery_generation st <? g)%Z
    else (last_epoch st <? inv_epoch p)%Z || (last_recovery_generation st <? g)%Z) g = Ok tt <->
  rec = bool_decide (recovery p = Some true) /\ table_row st p (gen = true) g.
Proof.
  rewrite hash_check_spec. unfold recovery_flag. split.
  - intros (Hr & Ha & Hh). destruct (recovery p) as [[]|] eqn:Er; [|done|]; injection Hr as <-; split; try done.
    + apply recovery_axis_spec in Ha as (Hg & Hn & Hle & Hpin). destruct Hh as [Hh|[Hh|Hh]].
      * apply Z.ltb_lt in Hh. by apply row_recovery_override.
      * destruct (decide (g = last_recovery_generation st)) as [E|E]; [by destruct (Hpin E)|].
        apply row_recovery_override; [done..|lia].
      * destruct (decide (g = last_recovery_generation st)) as [E|E]; [by apply row_recovery_repush|].
        apply row_recovery_override; [done..|lia].
    + apply normal_axis_spec in Ha as [He Hg]. destruct (decide (last_epoch st < inv_epoch p \/ last_recovery_generation st < g)%Z) as [Hadv|Hadv].
      { by apply row_normal_advance. }
      assert (inv_epoch p = last_epoch st) as Ee by lia.
      assert (g = last_recovery_generation st) as Eg.
      { unfold resolves in Hg. destruct (recovery_generation p); naive_solver lia. }
      destruct Hh as [Hh|[Hh|Hh]]; [exfalso; lia|by apply row_normal_migration|by apply row_normal_repush].
  - intros [-> Hrow]. destruct Hrow as [Hr Hg He Ha|Hr Hg He Ha Hn|Hr Hg He Ha Hn|Hr Hg Hgen Ha|Hr Hg Hgen Ha Hn]; rewrite Hr;
      cbn [bool_decide decide]; rewrite ?bool_decide_eq_false_2, ?bool_decide_eq_true_2 by done;
      rewrite ?recovery_axis_spec, ?normal_axis_spec; split_and!; try done; try lia; auto;
      intros E; first [congruence|exfalso; lia].
Qed.
Lemma table_row_mono st p (P Q : Prop) g : (P -> Q) -> table_row st p P g -> table_row st p Q g.
Proof.
  intros H. assert (resolves st p P g -> resolves st p Q g) as Hr
    by (unfold resolves; destruct (recovery_generation p); intuition).
  intros []; [eapply row_normal_advance|eapply row_normal_migration|eapply row_normal_repush|
    eapply row_recovery_override|eapply row_recovery_repush]; eauto.
Qed.

Lemma table_row_iff st p (P Q : Prop) g : (P <-> Q) -> table_row st p P g <-> table_row st p Q g.
Proof. intros [H1 H2]. split; by apply table_row_mono. Qed.

Lemma existsb_key_id k l : existsb (fun vk => bool_decide (vk_key_id vk = k)) l = true <-> k ∈ map vk_key_id l.
Proof.
  rewrite existsb_exists. setoid_rewrite bool_decide_eq_true. rewrite list_elem_of_fmap. setoid_rewrite list_elem_of_In. naive_solver.
Qed.

(** A run of the decision. *)
Lemma verify_Ok s st a :
  verify s st = Ok a <->
  payload_ok (payload s) /\ (exists k, signed_by st (payload s) (signatures s) k) /\
  genesis_key_id st ∈ map vk_key_id (verify_keys (payload s)) /\
  exists g, table_row st (payload s) (signed_by st (payload s) (signatures s) (genesis_key_id st)) g /\
    a = mkAccepted (inv_epoch (payload s)) g (bool_decide (recovery (payload s) = Some true))
          (t_verified_by (tally st (payload s) (signatures s))) (verify_keys (payload s)).
Proof.
  set (p := payload s). destruct (tally_spec st p (signatures s)) as (_ & Hv & _ & Hg).
  unfold verify, payload_ok. fold p.
  destruct (bool_decide_reflect (canonical_encoding p = CANONICAL_ENCODING_V1)) as [He|He]; cbn [negb]; [|naive_solver].
  destruct (Z.eqb_spec (schema_version p) SUPPORTED_SCHEMA_VERSION) as [Hs|Hs]; cbn [negb]; [|naive_solver].
  destruct (bool_decide_reflect (j_as_array (members p) = None)) as [Hm|Hm].
  { split; [done|]. intros ((_ & _ & (l & El) & _) & _). by rewrite El in Hm. }
  assert (exists l, members p = JArr l) as Hm' by (destruct (members p); naive_solver).
  destruct (bool_decide_reflect (length (verify_keys p) = 0)) as [Hk|Hk].
  { split; [done|]. intros ((_ & _ & _ & H & _) & _). by destruct (verify_keys p). }
  assert (verify_keys p <> []) as Hk' by (by intros E; rewrite E in Hk).
  pose proof (check_keys_spec (verify_keys p) []) as Hck.
  destruct (foldM_res check_verify_key [] (verify_keys p)) as [ids|e]; cbn [result_bind]; last first.
  { split; [done|]. intros ((_ & _ & _ & _ & H1 & H2) & _).
    destruct (proj2 Hck) as (? & ?); [|done]. split_and!; [done..|]. intros ? _ ?%not_elem_of_nil. done. }
  destruct (proj1 Hck (ex_intro _ ids eq_refl)) as (Hf & Hn & _).
  destruct (bool_decide_reflect (length (t_verified_by (tally st p (signatures s))) = 0)) as [Ht|Ht].
  { split; [done|]. intros (_ & (k & Hin) & _). rewrite <- Hv in Hin. destruct (t_verified_by _); [by apply not_elem_of_nil in Hin|done]. }
  assert (exists k, signed_by st p (signatures s) k) as Hsig.
  { destruct (t_verified_by (tally st p (signatures s))) as [|k r]; [done|]. exists k. apply Hv. constructor. }
  pose proof (existsb_key_id (genesis_key_id st) (verify_keys p)) as Hx.
  destruct (existsb _ (verify_keys p)); cbn [negb]; last first.
  { split; [done|]. intros (_ & _ & Hd%Hx & _). done. }
  assert (genesis_key_id st ∈ map vk_key_id (verify_keys p)) as Hd by (by apply Hx).
  setoid_rewrite result_bind_Ok. setoid_rewrite result_bind_Ok. setoid_rewrite result_bind_Ok. split.
  - intros (rec & Hr & g & Ha & [] & Hh & [= <-]).
    destruct (proj1 (fold_spec st p _ g rec) (conj Hr (conj Ha Hh))) as [-> Hrow].
    split_and!; try done. exists g. split; [|done]. by apply (table_row_iff _ _ _ _ _ Hg).
  - intros (_ & _ & _ & g & Hrow & ->). apply (table_row_iff _ _ _ _ _ (iff_sym Hg)) in Hrow.
    destruct (proj2 (fold_spec st p _ g (bool_decide (recovery p = Some true))) (conj eq_refl Hrow)) as (Hr & Ha & Hh).
    eexists. split; [exact Hr|]. eexists. split; [exact Ha|]. exists tt. split; [exact Hh|done].
Qed.
(** C13 Acceptance, exactly: an inventory is accepted iff its payload is well formed,
    some trusted and declared key's Ed25519 signature verifies over its canonical
    bytes under the key the node trusts, the genesis key stays declared and a row
    of the documented fold table applies.  What is accepted is the payload's epoch,
    the row's generation, the payload's keys and exactly the keys that signed,
    each once. *)
Theorem verify_exact s st :
  let p := payload s in let signed := signed_by st p (signatures s) in
  ((exists a, verify s st = Ok a) <->
     payload_ok p /\ (exists k, signed k) /\ genesis_key_id st ∈ map vk_key_id (verify_keys p) /\
     exists g, table_row st p (signed (genesis_key_id st)) g) /\
  (forall a, verify s st = Ok a ->
     table_row st p (signed (genesis_key_id st)) (acc_recovery_generation a) /\
     acc_epoch a = inv_epoch p /\ via_recovery a = bool_decide (recovery p = Some true) /\
     adopt_verify_keys a = verify_keys p /\ NoDup (verified_by a) /\ (forall k, k ∈ verified_by a <-> signed k)).
Proof.
  cbn zeta. setoid_rewrite verify_Ok. split; [naive_solver|].
  intros a (_ & _ & _ & g & Hrow & ->). destruct (tally_spec st (payload s) (signatures s)) as (Hd & Hv & _). done.
Qed.

Lemma tally_filter st p sigs : tally st p (filter (fun s => counts st p s = true) sigs) = tally st p sigs.
Proof.
  induction sigs as [|s sigs IH] using rev_ind; [done|]. rewrite filter_app, tally_snoc, count_signature_eq. cbn.
  case_decide as E; rewrite ?tally_snoc, ?count_signature_eq, ?app_nil_r, IH.
  - by rewrite E.
  - by destruct (counts st p s).
Qed.

Lemma table_row_generation st p G g : table_row st p G g -> g = default 0%Z (recovery_generation p).
Proof. intros [? Hr|? Hr|? Hr|? Hr|? Hr]; try (by rewrite Hr); unfold resolves in Hr; destruct (recovery_generation p); naive_solver. Qed.

Lemma signed_by_mono st p sigs sigs' k : sigs ⊆ sigs' -> signed_by st p sigs k -> signed_by st p sigs' k.
Proof. intros Hs (s & Hin & ? & ?). exists s. split; [by apply Hs|done]. Qed.

(** C31 Whoever carries an inventory cannot use the unsigned signature bag against it:
    entries that do not count never change the verdict, error included, and with
    whatever entries added an accepted inventory is accepted at the same epoch,
    generation and keys, by at least the same signers. *)
Theorem signature_bag_harmless p sigs st :
  verify (mkSigned p (filter (fun s => counts st p s = true) sigs)) st = verify (mkSigned p sigs) st /\
  (forall sigs' a, sigs ⊆ sigs' -> verify (mkSigned p sigs) st = Ok a ->
     exists by', verify (mkSigned p sigs') st =
       Ok (mkAccepted (acc_epoch a) (acc_recovery_generation a) (via_recovery a) by' (adopt_verify_keys a)) /\
       verified_by a ⊆ by').
Proof.
  split; [unfold verify; cbn [payload signatures]; by rewrite tally_filter|].
  intros sigs' a Hs Ha. apply verify_Ok in Ha as (Hp & (k & Hk) & Hd & g & Hrow & ->). cbn [payload signatures] in *.
  eexists. split.
  - apply verify_Ok. cbn [payload signatures]. split_and!; [done|exists k; by eapply signed_by_mono|done|].
    exists g. split; [|done]. eapply table_row_mono; [|exact Hrow]. by apply signed_by_mono.
  - cbn. intros k'. destruct (tally_spec st p sigs) as (_ & H1 & _), (tally_spec st p sigs') as (_ & H2 & _).
    rewrite H1, H2. by apply signed_by_mono.
Qed.
End spec.

(** ** Witnesses *)

#[local] Instance sample_b64 : Base64 := fun s => Some s.
#[local] Instance sample_blake3 : Blake3 := fun s => s.
#[local] Existing Instances bits_float_text bits_float_laws.
#[local] Instance sample_ed25519 : Ed25519 := {
  vk_from_bytes pk := true;
  verify_strict pk msg sig := bool_decide (sig = take 64 (pk ++ rev msg ++ List.repeat x00 64));
  sk_sign seed msg := take 64 (seed ++ rev msg ++ List.repeat x00 64);
  sk_public seed := seed }.

Definition genesis_key : bytes := List.repeat x07 32.
Definition sample_payload (epoch : Z) : InventoryPayload :=
  mkPayload 1 CANONICAL_ENCODING_V1 (bs "mesh") (bs "10.0.0.0/24") epoch (bs "t0") (bs "t1") []
    [mkVerifyKey (bs "genesis") genesis_key ALG_ED25519 KeyActive]
    (JArr [JObj [(bs "name", JStr (bs "alpha")); (bs "status", JStr (bs "active")); (bs "bus", JBool true);
       (bs "mesh_ip", JStr (bs "10.0.0.5"))]]) None (Some 2%Z).
Definition sample_inventory (epoch : Z) : SignedInventory :=
  mkSigned (sample_payload epoch)
    [mkInvSignature (bs "genesis") ALG_ED25519 (sk_sign genesis_key (payload_bytes (sample_payload epoch)))].
Definition sample_trust (epoch : Z) : NodeTrustState :=
  mkTrustState (bs "genesis") [mkTrustedKey (bs "genesis") genesis_key KeyActive] epoch 2 None.

Lemma verify_exact_witness :
  (exists a, verify (sample_inventory 5) (sample_trust 4) = Ok a) /\
  signed_by (sample_trust 4) (sample_payload 5) (signatures (sample_inventory 5)) (bs "genesis").
Proof.
  assert (exists a, verify (sample_inventory 5) (sample_trust 4) = Ok a) as H.
  { eexists. vm_compute. reflexivity. }
  split; [exact H|]. destruct H as [a Ha].
  destruct (verify_exact (sample_inventory 5) (sample_trust 4)) as [_ H2].
  destruct (H2 a Ha) as (_ & _ & _ & _ & _ & Hk). apply Hk.
  revert Ha. vm_compute. intros [= <-]. constructor.
Defined.

Lemma signature_bag_harmless_witness :
  exists by', verify (mkSigned (sample_payload 5)
      (mkInvSignature [] [] [] :: signatures (sample_inventory 5))) (sample_trust 4) =
    Ok (mkAccepted 5 2 false by' (verify_keys (sample_payload 5))).
Proof.
  destruct (proj2 (signature_bag_harmless (sample_payload 5) (signatures (sample_inventory 5)) (sample_trust 4))
    (mkInvSignature [] [] [] :: signatures (sample_inventory 5))
    (mkAccepted 5 2 false [bs "genesis"] (verify_keys (sample_payload 5)))) as (by' & H & _).
  - intros x Hx. by right.
  - vm_compute. reflexivity.
  - exists by'. exact H.
Defined.

Lemma payload_signed_exactly_witness :
  payload_bytes (sample_payload 5) <> payload_bytes (sample_payload 6).
Proof.
  intros E. apply (payload_signed_exactly (sample_payload 5) (sample_payload 6)) in E; [|reflexivity..].
  destruct E as (_ & _ & _ & _ & He & _). discriminate He.
Defined.
