(* ===== verification/Authority.v ===== *)
(** * The authority plane: noded's ratcheted trust root and wgd's reader of it
    ([cosmix-noded/src/authority.rs], [cosmix-wgd/src/trust.rs])

    The two daemons load the same three files: the genesis key, the signed
    inventory and the anti-rollback baseline.  noded verifies, reads the members,
    then re-verifies and rewrites the baseline under a file lock; wgd only reads,
    and wants the same baseline before and after.  What a process reads or is
    refused by the file system is an argument of the definitions ([None]: the read
    failed); reasons are represented by constructors.  [SerdeJson] is the JSON
    library: its parser, its printer and the derived inventory decoder. *)

From S2P Require Import Prelude Utf8 Str BTree BusAddress Json Canonical IpAddr Routing TrustRecords Admission Inventory.

Definition GENESIS_KEY_ID : bytes := bs "genesis".
Definition BASELINE_STABILITY_ATTEMPTS : nat := 3.

Class SerdeJson := {
  from_str : bytes -> option JsonTree;
  to_string : JsonTree -> bytes;
  inventory_from_slice : bytes -> option SignedInventory }.

(** ** Shared by both daemons *)

Record Baseline := mkBaseline { b_epoch : Z; b_generation : Z; b_hash : option bytes }.
#[export] Instance Baseline_eq_dec : EqDecision Baseline.
Proof. solve_decision. Defined.
Definition default_baseline : Baseline := mkBaseline 0 0 None.

Definition trust_state (genesis_pub : bytes) (b : Baseline) : NodeTrustState :=
  mkTrustState GENESIS_KEY_ID [mkTrustedKey GENESIS_KEY_ID genesis_pub KeyActive] (b_epoch b) (b_generation b) (b_hash b).

(** ** noded *)

Module Noded.
Section noded.
Context {FT : FloatText} {B3 : Blake3} {B64 : Base64} {ED : Ed25519} {SJ : SerdeJson}.

Record VerifyKeySummary := mkKeySummary { ks_key_id : bytes; ks_status : bytes }.
Record MemberSummary := mkSummary { ms_name : bytes; ms_mesh_ip : bytes; ms_bus : bool; ms_status : bytes }.

Record Accepted := mkAcceptedRoot {
  a_epoch : Z; a_recovery_generation : Z; a_via_recovery : bool; a_mesh : bytes; a_hash : bytes;
  a_verified_by : list bytes; a_verify_keys : list VerifyKeySummary; a_members : list MemberSummary;
  a_routing_view : list RoutingMember; a_members_full : list (bytes * JsonTree) }.

Inductive Unreason :=
| NoGenesis | GenesisNotBase64 | GenesisWrongLen (got : nat) | NoSignedCache | MalformedSigned
| VerificationFailed (e : VerifyError) | UnusableRoutingView (e : RoutingViewError)
| LockFailed | FreshFloorRefused (e : VerifyError) | BaselineWriteFailed.

Inductive Posture := Verified (a : Accepted) | Unverified (reason : Unreason).

Definition read_genesis_pub (file : option bytes) : result bytes Unreason :=
  let? text := ok_or file NoGenesis in
  let? b := ok_or (b64_decode (trim text)) GenesisNotBase64 in
  if length b =? ED25519_PUBKEY_LEN then Ok b else Err (GenesisWrongLen (length b)).

(** A missing or unreadable file, or one that is not JSON, is the cold-boot floor. *)
Definition read_baseline (file : option bytes) : Baseline :=
  match file ≫= from_str with
  | None => default_baseline
  | Some v => mkBaseline (default 0%Z (u64_field v (bs "epoch"))) (default 0%Z (u64_field v (bs "recovery_generation")))
                (str_field v (bs "hash"))
  end.

(** The text [write_baseline_file] writes. *)
Definition baseline_body (epoch generation : Z) (hash : bytes) : bytes :=
  to_string (JObj [(bs "epoch", JNum epoch); (bs "recovery_generation", JNum generation); (bs "hash", JStr hash)]) ++ [NL].

(** What the file system does with the write: it fails before the rename, or only
    in the directory sync after it, or succeeds. *)
Inductive WriteOutcome := WriteLost | WriteUnsynced | WriteDurable.

(** What [compare_and_ratchet_baseline] meets: whether it gets the lock, the file
    as it is while the lock is held, and the outcome of the write. *)
Record RatchetEnv := mkEnv { lock_ok : bool; fresh_file : option bytes; write : WriteOutcome }.

(** The result, and the text now in the file where it was replaced. *)
Definition compare_and_ratchet_baseline (signed : SignedInventory) (genesis_pub canonical_hash : bytes) (env : RatchetEnv) :
    result AcceptedInventory Unreason * option bytes :=
  if negb (lock_ok env) then (Err LockFailed, None)
  else match verify signed (trust_state genesis_pub (read_baseline (fresh_file env))) with
  | Err e => (Err (FreshFloorRefused e), None)
  | Ok accepted =>
    let body := baseline_body (acc_epoch accepted) (acc_recovery_generation accepted) canonical_hash in
    match write env with
    | WriteLost => (Err BaselineWriteFailed, None)
    | WriteUnsynced => (Err BaselineWriteFailed, Some body)
    | WriteDurable => (Ok accepted, Some body)
    end
  end.

Definition summarize_members (members : JsonTree) : list MemberSummary :=
  omap (fun m => name ← str_field m (bs "name");
          Some (mkSummary name (default [] (str_field m (bs "mesh_ip"))) (default false (bool_field m (bs "bus")))
                  (default [] (str_field m (bs "status")))))
    (default [] (j_as_array members)).

(** Collected into a [BTreeMap]: a later record replaces an earlier one. *)
Definition members_by_name (members : JsonTree) : list (bytes * JsonTree) :=
  foldl (fun acc kv => bt_insert (fst kv) (snd kv) acc) []
    (omap (fun m => name ← str_field m (bs "name"); Some (name, m)) (default [] (j_as_array members))).

(** [load_and_verify]: the posture, and the new text of the baseline file if it
    was replaced.  [baseline0] is what the first, unlocked read finds. *)
Definition load_and_verify (genesis signed_file baseline0 : option bytes) (env : RatchetEnv) : Posture * option bytes :=
  match read_genesis_pub genesis with
  | Err reason => (Unverified reason, None)
  | Ok genesis_pub =>
    match signed_file with
    | None => (Unverified NoSignedCache, None)
    | Some wire =>
      match inventory_from_slice wire with
      | None => (Unverified MalformedSigned, None)
      | Some signed =>
        match verify signed (trust_state genesis_pub (read_baseline baseline0)) with
        | Err e => (Unverified (VerificationFailed e), None)
        | Ok _ =>
          let p := payload signed in
          let canonical_hash := canonical_blake3 p in
          match strict_routing_view (members p) (inv_subnet p) with
          | Err e => (Unverified (UnusableRoutingView e), None)
          | Ok routing_view =>
            match compare_and_ratchet_baseline signed genesis_pub canonical_hash env with
            | (Err reason, written) => (Unverified reason, written)
            | (Ok accepted, written) =>
              (Verified (mkAcceptedRoot (acc_epoch accepted) (acc_recovery_generation accepted) (via_recovery accepted)
                 (inv_mesh p) canonical_hash (verified_by accepted)
                 (map (fun k => mkKeySummary (vk_key_id k) (status_name (vk_status k))) (adopt_verify_keys accepted))
                 (summarize_members (members p)) routing_view (members_by_name (members p))), written)
            end
          end
        end
      end
    end
  end.
End noded.
End Noded.

(** ** wgd *)

Module Wgd.
Section wgd.
Context {FT : FloatText} {B3 : Blake3} {B64 : Base64} {ED : Ed25519} {SJ : SerdeJson}.

Inductive TrustError :=
| GenesisRead | GenesisDecode | GenesisWrongLen (got : nat) | SignedRead | SignedParse
| Verify (e : VerifyError) | RoutingView (e : RoutingViewError)
| BaselineRead | BaselineParse | BaselineMalformed | BaselineChanged (attempts : nat).

Record VerifiedInventory := mkVerified {
  v_signed : SignedInventory; v_epoch : Z; v_via_recovery : bool; v_verified_by : list bytes;
  v_routing_view : list RoutingMember }.

Definition read_genesis_pub (file : option bytes) : result bytes TrustError :=
  let? text := ok_or file GenesisRead in
  let? b := ok_or (b64_decode (trim text)) GenesisDecode in
  if length b =? ED25519_PUBKEY_LEN then Ok b else Err (GenesisWrongLen (length b)).

(** A read of the baseline file. *)
Inductive FileRead := ReadText (text : bytes) | NotFound | ReadError.

Definition read_baseline (file : FileRead) : result Baseline TrustError :=
  match file with
  | NotFound => Ok default_baseline
  | ReadError => Err BaselineRead
  | ReadText text =>
    let? v := ok_or (from_str text) BaselineParse in
    let? epoch := ok_or (u64_field v (bs "epoch")) BaselineMalformed in
    Ok (mkBaseline epoch (default 0%Z (u64_field v (bs "recovery_generation"))) (str_field v (bs "hash")))
  end.

(** The loop, with [left] attempts to go; [read n] is the [n]th read of the file. *)
Fixpoint stable_attempts (signed : SignedInventory) (genesis_pub : bytes) (read : nat -> FileRead) (attempts_left n : nat) :
    result (AcceptedInventory * list RoutingMember) TrustError :=
  match attempts_left with
  | 0 => Err (BaselineChanged BASELINE_STABILITY_ATTEMPTS)
  | S left' =>
    let? before := read_baseline (read n) in
    let? accepted := map_err Verify (verify signed (trust_state genesis_pub before)) in
    let? routing_view := map_err RoutingView (strict_routing_view (members (payload signed)) (inv_subnet (payload signed))) in
    let? after := read_baseline (read (S n)) in
    if bool_decide (before = after) then Ok (accepted, routing_view)
    else stable_attempts signed genesis_pub read left' (S (S n))
  end.
Definition verify_with_stable_baseline (signed : SignedInventory) (genesis_pub : bytes) (read : nat -> FileRead) :=
  stable_attempts signed genesis_pub read BASELINE_STABILITY_ATTEMPTS 0.

Definition load_and_verify (genesis signed_file : option bytes) (read : nat -> FileRead) : result VerifiedInventory TrustError :=
  let? genesis_pub := read_genesis_pub genesis in
  let? wire := ok_or signed_file SignedRead in
  let? signed := ok_or (inventory_from_slice wire) SignedParse in
  let? ar := verify_with_stable_baseline signed genesis_pub read in
  let '(accepted, routing_view) := ar in
  Ok (mkVerified signed (acc_epoch accepted) (via_recovery accepted) (verified_by accepted) routing_view).
End wgd.
End Wgd.

(** ** The laws of the libraries *)

Definition flat_field (kv : bytes * JsonTree) : Prop := match snd kv with JNum _ | JStr _ => True | _ => False end.

(** A printed object of integers and strings parses back, trailing white space
    allowed; a decoded inventory holds values of its types. *)
Class SerdeLaws {SJ : SerdeJson} := {
  reads_back : forall m, Forall flat_field m -> json_wf (JObj m) = true ->
    exists m', from_str (to_string (JObj m) ++ [NL]) = Some (JObj m') /\ json_wf (JObj m') = true /\
      canon (JObj m') = canon (JObj m);
  decoded_wf : forall wire s, inventory_from_slice wire = Some s ->
    json_wf (payload_value (payload s)) = true /\ (0 <= inv_epoch (payload s))%Z /\
    forall g, recovery_generation (payload s) = Some g -> (0 <= g)%Z }.

(** A hash is written in hexadecimal. *)
Class Blake3Laws {B3 : Blake3} := blake3_ascii : forall x, forallb seq1 (blake3_hex x) = true.

(** ** Positions *)

Definition generation_of (p : InventoryPayload) : Z := default 0%Z (recovery_generation p).
(** Recovery generation first, then epoch. *)
Definition pos_lt (g e g' e' : Z) : Prop := (g < g')%Z \/ g = g' /\ (e < e')%Z.
Definition pos_le (g e g' e' : Z) : Prop := pos_lt g e g' e' \/ g = g' /\ e = e'.

(** What may follow an accepted payload: one at a later position, or itself. *)
Definition later (q p : InventoryPayload) : Prop :=
  pos_lt (generation_of q) (inv_epoch q) (generation_of p) (inv_epoch p) \/ payload_same q p.

Lemma payload_same_pos q p : payload_same q p -> generation_of q = generation_of p /\ inv_epoch q = inv_epoch p.
Proof. unfold payload_same, generation_of. intros H. decompose [and] H. split; congruence. Qed.

Lemma later_trans q p r : later q p -> later p r -> later q r.
Proof.
  unfold later, pos_lt. intros [H1|H1] [H2|H2].
  - left. lia.
  - apply payload_same_pos in H2. left. lia.
  - apply payload_same_pos in H1. left. lia.
  - right. unfold payload_same in *. decompose [and] H1. decompose [and] H2. split_and!; congruence.
Qed.

Section floor.
Context {FT : FloatText} {FL : FloatTextLaws} {B3 : Blake3} {B3L : Blake3Laws} {B64 : Base64} {ED : Ed25519}.
Context {SJ : SerdeJson} {SL : SerdeLaws}.

(** No two different documents of the list have one hash. *)
Definition collision_free (l : list InventoryPayload) : Prop :=
  forall p q, p ∈ l -> q ∈ l -> canonical_blake3 p = canonical_blake3 q -> payload_bytes p = payload_bytes q.

Definition genesis_signed (pub : bytes) (s : SignedInventory) : Prop :=
  exists sg sig, sg ∈ signatures s /\ decode_fixed (is_sig sg) ED25519_SIG_LEN = Some sig /\
    verify_ed25519 pub sig (payload_bytes (payload s)) = Ok tt.

(** What one acceptance under noded's trust state says. *)
Lemma verify_position s pub b a : verify s (trust_state pub b) = Ok a ->
  acc_epoch a = inv_epoch (payload s) /\ acc_recovery_generation a = generation_of (payload s) /\ genesis_signed pub s /\
  (pos_lt (b_generation b) (b_epoch b) (generation_of (payload s)) (inv_epoch (payload s)) \/
   (generation_of (payload s) = b_generation b /\ inv_epoch (payload s) = b_epoch b /\ b_hash b = None) \/
   b_hash b = Some (canonical_blake3 (payload s))).
Proof.
  intros (_ & (k & Hk) & _ & g & Hrow & ->)%verify_Ok. cbn [acc_epoch acc_recovery_generation].
  pose proof (table_row_generation _ _ _ _ Hrow) as Hg. fold (generation_of (payload s)) in Hg. split_and!; [done|done| |].
  - destruct Hk as (sg & Hin & _ & _ & _ & pk & sig & Hpk & Hd & Hv). exists sg, sig. split_and!; [done..|].
    unfold trusted_pubkey, trust_state in Hpk. cbn in Hpk. case_bool_decide; [|done]. by injection Hpk as ->.
  - unfold pos_lt. rewrite <- Hg. destruct Hrow as [Hr Hs He Ha|Hr Hs He Ha Hn|Hr Hs He Ha Hn|Hr Hs Hgen Ha|Hr Hs Hgen Ha Hn];
      cbn [last_epoch last_recovery_generation last_canonical_hash trust_state] in *; auto.
    left. assert (b_generation b <= g)%Z; [|lia]. unfold resolves in Hs. cbn in Hs. destruct (recovery_generation (payload s)); lia.
Qed.

(** Canonical forms keep leaves. *)
Lemma canon_leaf x (o o' : option JsonTree) : canon <$> o = canon <$> o' -> o' = Some x -> kind x < 6 -> o = Some x.
Proof. intros H -> Hk. destruct o as [y|]; [|done]. destruct x as [|[]| | | | |], y; cbn in H, Hk; try lia; congruence. Qed.

Lemma read_body e g h : (0 <= e <= U64_MAX)%Z -> (0 <= g <= U64_MAX)%Z -> forallb seq1 h = true ->
  Noded.read_baseline (Some (Noded.baseline_body e g h)) = mkBaseline e g (Some h).
Proof.
  intros He Hg Hh. unfold Noded.baseline_body.
  set (m := [(bs "epoch", JNum e); (bs "recovery_generation", JNum g); (bs "hash", JStr h)]).
  destruct (reads_back m) as (m' & Hm & Hw & Hc).
  { repeat constructor. }
  { unfold m. cbn [json_wf]. apply andb_true_iff. split; [by vm_compute|]. cbn [forallb fst snd json_wf].
    assert (from_utf8_ok h = true) as -> by (by apply from_utf8_ok_iff, utf8_ascii).
    rewrite !andb_true_iff. unfold U64_MAX in *. split_and!; first [lia|vm_compute; reflexivity]. }
  assert (forall k, canon <$> assoc k m' = canon <$> assoc k m) as Hf.
  { intros k. apply canon_field; [| |done].
    - cbn in Hw. apply andb_true_iff in Hw as [Hd _]. by apply bool_decide_eq_true in Hd.
    - apply (bool_decide_unpack _). vm_compute. exact I. }
  unfold Noded.read_baseline. cbn [mbind option_bind]. rewrite Hm. unfold u64_field, str_field. cbn [j_get json_tree].
  rewrite (canon_leaf (JNum e) _ _ (Hf (bs "epoch"))), (canon_leaf (JNum g) _ _ (Hf (bs "recovery_generation"))),
    (canon_leaf (JStr h) _ _ (Hf (bs "hash"))) by first [reflexivity|cbn; lia].
  cbn [mbind option_bind j_as_u64 j_as_str json_tree].
  rewrite (proj2 (andb_true_iff (0 <=? e) (e <=? U64_MAX)))%Z by lia.
  rewrite (proj2 (andb_true_iff (0 <=? g) (g <=? U64_MAX)))%Z by lia. done.
Qed.

(** ** Runs of noded *)

(** What a load that replaced the baseline file accepted. *)
Definition ratcheted (signed_file written : option bytes) : list SignedInventory :=
  match written, signed_file ≫= inventory_from_slice with Some _, Some s => [s] | _, _ => [] end.

(** Loads of any number of noded processes, in the order in which they held the
    lock; the first read of each may have seen any older text, and lock, write and
    sync may fail.  The read under the lock sees the file: had it failed there,
    [read_baseline] would have given the floor of a cold boot
    ([unreadable_floor_lost]). *)
Inductive noded_run (genesis f0 : option bytes) : list SignedInventory -> option bytes -> Prop :=
| run_start : noded_run genesis f0 [] f0
| run_load l f signed_file baseline0 lock w posture written :
    noded_run genesis f0 l f ->
    Noded.load_and_verify genesis signed_file baseline0 (Noded.mkEnv lock f w) = (posture, written) ->
    noded_run genesis f0 (l ++ ratcheted signed_file written) (match written with Some t => Some t | None => f end).

Lemma load_written genesis signed_file baseline0 lock f w posture t :
  Noded.load_and_verify genesis signed_file baseline0 (Noded.mkEnv lock f w) = (posture, Some t) ->
  exists pub wire s a, Noded.read_genesis_pub genesis = Ok pub /\ signed_file = Some wire /\ inventory_from_slice wire = Some s /\
    verify s (trust_state pub (Noded.read_baseline f)) = Ok a /\
    t = Noded.baseline_body (acc_epoch a) (acc_recovery_generation a) (canonical_blake3 (payload s)).
Proof.
  unfold Noded.load_and_verify. destruct (Noded.read_genesis_pub genesis) as [pub|] eqn:Eg; [|done].
  destruct signed_file as [wire|]; [|done]. destruct (inventory_from_slice wire) as [s|] eqn:Es; [|done].
  destruct (verify s (trust_state pub (Noded.read_baseline baseline0))) as [a0|]; [|done].
  destruct (strict_routing_view (members (payload s)) (inv_subnet (payload s))) as [rv|]; [|done].
  unfold Noded.compare_and_ratchet_baseline. cbn [Noded.lock_ok Noded.fresh_file Noded.write].
  destruct lock; cbn [negb]; [|done].
  destruct (verify s (trust_state pub (Noded.read_baseline f))) as [a|] eqn:Ea; [|done].
  destruct w; try done; intros [= _ <-]; by eexists pub, wire, s, a.
Qed.

Lemma sorted_snoc {A} (R : A -> A -> Prop) (l : list A) (x : A) :
  (forall a b c, R a b -> R b c -> R a c) -> StronglySorted R l ->
  match last l with None => True | Some y => R y x end -> StronglySorted R (l ++ [x]).
Proof.
  intros Ht Hs. induction Hs as [|y l Hs IH Hy]; intros Hl; cbn; [repeat constructor|].
  destruct l as [|z l]; [repeat constructor; done|]. cbn [last] in Hl. constructor; [by apply IH|].
  apply Forall_app. split; [done|]. constructor; [|constructor]. rewrite Forall_forall in Hy.
  destruct (last (z :: l)) as [u|] eqn:El; [|by apply last_None in El]. apply (Ht y u); [|done].
  apply Hy. by apply last_Some_elem_of.
Qed.

Record run_facts (genesis f0 : option bytes) (l : list SignedInventory) (f : option bytes) : Prop := mkFacts {
  facts_sorted : StronglySorted later (map payload l);
  facts_floor : Forall (fun p => pos_le (b_generation (Noded.read_baseline f0)) (b_epoch (Noded.read_baseline f0))
    (generation_of p) (inv_epoch p)) (map payload l);
  facts_file : match last (map payload l) with
    | None => f = f0
    | Some p => Noded.read_baseline f = mkBaseline (inv_epoch p) (generation_of p) (Some (canonical_blake3 p)) end;
  facts_signed : Forall (fun s => exists pub, Noded.read_genesis_pub genesis = Ok pub /\ genesis_signed pub s) l;
  facts_wf : Forall (fun p => json_wf (payload_value p) = true) (map payload l) }.

Lemma json_wf_field m k v : json_wf (JObj m) = true -> In (k, v) m -> json_wf v = true.
Proof.
  cbn [json_wf]. intros [_ H]%andb_true_iff Hin. rewrite forallb_forall in H. specialize (H _ Hin).
  by apply andb_true_iff in H as [_ ?].
Qed.

Lemma decoded_ranges wire s : inventory_from_slice wire = Some s ->
  (0 <= inv_epoch (payload s) <= U64_MAX)%Z /\ (0 <= generation_of (payload s) <= U64_MAX)%Z.
Proof.
  intros (Hw & He & Hg)%decoded_wf. unfold payload_value in Hw.
  pose proof (json_wf_field _ (bs "epoch") (JNum (inv_epoch (payload s))) Hw) as H1. split.
  - cbn [json_wf] in H1. specialize (H1 ltac:(apply in_or_app; left; do 4 right; left; done)). clear Hw Hg. lia.
  - clear H1. unfold generation_of. destruct (recovery_generation (payload s)) as [g|]; [|unfold U64_MAX; cbn; lia].
    specialize (Hg g eq_refl). pose proof (json_wf_field _ (bs "recovery_generation") (JNum g) Hw) as H2.
    cbn [json_wf] in H2. specialize (H2 ltac:(do 2 (apply in_or_app; right); left; done)). clear Hw. change (default 0%Z (Some g)) with g. lia.
Qed.

(** One more acceptance, at or after everything before it. *)
Lemma facts_step genesis f0 l f pub wire s a :
  b_hash (Noded.read_baseline f0) = None -> collision_free (map payload (l ++ [s])) -> run_facts genesis f0 l f ->
  Noded.read_genesis_pub genesis = Ok pub -> inventory_from_slice wire = Some s ->
  verify s (trust_state pub (Noded.read_baseline f)) = Ok a ->
  run_facts genesis f0 (l ++ [s])
    (Some (Noded.baseline_body (acc_epoch a) (acc_recovery_generation a) (canonical_blake3 (payload s)))).
Proof.
  intros Hh Hcf [Hs Hfl Hfile Hsig Hwf] Hpub Hwire Ha. destruct (decoded_wf _ _ Hwire) as [Hw _].
  destruct (verify_position _ _ _ _ Ha) as (-> & -> & Hgs & Hpos). destruct (decoded_ranges _ _ Hwire) as [He Hg].
  assert (match last (map payload l) with None => True | Some q => later q (payload s) end) as Hlast.
  { destruct (last (map payload l)) as [q|] eqn:El; [|done]. rewrite Hfile in Hpos. cbn in Hpos.
    destruct Hpos as [Hlt|[(_ & _ & ?)|[= Hb]]]; [by left|done|]. right.
    assert (q ∈ map payload l) as Hq by (by apply last_Some_elem_of).
    apply payload_bytes_exact; [by rewrite Forall_forall in Hwf; apply Hwf|done|].
    apply Hcf; [..|done]; rewrite map_app, elem_of_app; [by left|right; constructor]. }
  split.
  - rewrite map_app. by apply sorted_snoc; [apply later_trans|..].
  - rewrite map_app, Forall_app. split; [done|]. constructor; [|constructor].
    destruct (last (map payload l)) as [q|] eqn:El.
    + rewrite Forall_forall in Hfl. apply last_Some_elem_of, Hfl in El. unfold pos_le, pos_lt in *.
      destruct Hlast as [Hlt|?%payload_same_pos]; unfold pos_lt in *; lia.
    + subst f. unfold pos_le. destruct Hpos as [?|[(? & ? & _)|?]]; [by left|right; by split|congruence].
  - rewrite map_app. cbn [map]. rewrite last_snoc. apply read_body; [done..|apply blake3_ascii].
  - apply Forall_app. split; [done|]. repeat constructor. eauto.
  - rewrite map_app, Forall_app. split; [done|]. by repeat constructor.
Qed.

Lemma collision_free_prefix l k : collision_free (l ++ k) -> collision_free l.
Proof. intros H p q Hp Hq. apply H; rewrite elem_of_app; by left. Qed.

Lemma run_facts_hold genesis f0 l f :
  b_hash (Noded.read_baseline f0) = None -> noded_run genesis f0 l f -> collision_free (map payload l) ->
  run_facts genesis f0 l f.
Proof.
  intros Hh. induction 1 as [|l f signed_file baseline0 lock w posture written Hrun IH Hload]; intros Hcf.
  { split; cbn; [constructor|constructor|done|constructor|constructor]. }
  destruct written as [t|]; cbn [ratcheted] in *; [|rewrite app_nil_r in *; by apply IH].
  apply load_written in Hload as (pub & wire & s & a & Hg & -> & Hw & Ha & ->).
  unfold ratcheted in *. cbn [mbind option_bind] in *. rewrite Hw in *.
  eapply facts_step; [done|done| |done|done|done]. apply IH. rewrite map_app in Hcf. by eapply collision_free_prefix.
Qed.

(** C7 The rollback floor ratchets: over the loads of any number of noded processes,
    with failing locks and writes and stale first reads, the inventories that
    replaced the baseline are all signed by the genesis key, lie at or above the
    first floor and follow one another: each later one is at a greater (recovery
    generation, epoch) or is the same document; and the file holds the position and
    hash of the last.  (The inventories' hashes do not collide; the first floor
    has no pinned hash, as on cold boot; and the read under the lock is not one that
    fails, which would be taken for a missing file.) *)
Theorem floor_ratchets genesis f0 l f :
  b_hash (Noded.read_baseline f0) = None -> noded_run genesis f0 l f -> collision_free (map payload l) ->
  StronglySorted later (map payload l) /\
  Forall (fun p => pos_le (b_generation (Noded.read_baseline f0)) (b_epoch (Noded.read_baseline f0))
    (generation_of p) (inv_epoch p)) (map payload l) /\
  Forall (fun s => exists pub, Noded.read_genesis_pub genesis = Ok pub /\ genesis_signed pub s) l /\
  match last (map payload l) with
  | None => f = f0
  | Some p => Noded.read_baseline f = mkBaseline (inv_epoch p) (generation_of p) (Some (canonical_blake3 p))
  end.
Proof. intros Hh Hrun Hcf. by destruct (run_facts_hold genesis f0 l f Hh Hrun Hcf). Qed.
End floor.

(** ** wgd reads what noded accepts *)

Section agree.
Context {FT : FloatText} {B3 : Blake3} {B64 : Base64} {ED : Ed25519} {SJ : SerdeJson}.

(** The file as noded's reader sees it. *)
Definition as_file (r : Wgd.FileRead) : option bytes := match r with Wgd.ReadText t => Some t | _ => None end.

Definition same_root (v : Wgd.VerifiedInventory) (a : Noded.Accepted) : Prop :=
  Wgd.v_epoch v = Noded.a_epoch a /\ Wgd.v_via_recovery v = Noded.a_via_recovery a /\
  Wgd.v_verified_by v = Noded.a_verified_by a /\ Wgd.v_routing_view v = Noded.a_routing_view a /\
  canonical_blake3 (payload (Wgd.v_signed v)) = Noded.a_hash a.

Definition baseline_refused (e : Wgd.TrustError) : Prop :=
  e = Wgd.BaselineRead \/ e = Wgd.BaselineParse \/ e = Wgd.BaselineMalformed.

Lemma read_baseline_agrees r b : Wgd.read_baseline r = Ok b -> Noded.read_baseline (as_file r) = b.
Proof.
  destruct r as [t| |]; cbn [Wgd.read_baseline as_file]; [|by intros [= <-]|done].
  intros (v & Ev%ok_or_Ok & H)%result_bind_Ok. apply result_bind_Ok in H as (e & Ee%ok_or_Ok & [= <-]).
  unfold Noded.read_baseline. cbn [mbind option_bind]. by rewrite Ev, Ee.
Qed.

Lemma read_baseline_refuses r e : Wgd.read_baseline r = Err e -> baseline_refused e.
Proof.
  unfold baseline_refused. destruct r as [t| |]; cbn [Wgd.read_baseline]; [|done|intros [= <-]; auto].
  destruct (from_str t) as [v|]; cbn [ok_or result_bind]; [|intros [= <-]; auto].
  destruct (u64_field v (bs "epoch")); cbn [ok_or result_bind]; [done|intros [= <-]; auto].
Qed.

Lemma genesis_agrees g pub : Wgd.read_genesis_pub g = Ok pub <-> Noded.read_genesis_pub g = Ok pub.
Proof.
  unfold Wgd.read_genesis_pub, Noded.read_genesis_pub. rewrite !result_bind_Ok. setoid_rewrite ok_or_Ok.
  setoid_rewrite result_bind_Ok. setoid_rewrite ok_or_Ok.
  split; intros (t & Et & b & Eb & H); exists t; (split; [done|]); exists b; (split; [done|]);
    destruct (length b =? ED25519_PUBKEY_LEN); congruence.
Qed.

(** What the bounded loop returns was checked against one baseline read twice. *)
Lemma stable_attempts_Ok signed pub read k n a rv : Wgd.stable_attempts signed pub read k n = Ok (a, rv) ->
  exists m b, n <= m < n + 2 * k /\ Wgd.read_baseline (read m) = Ok b /\ Wgd.read_baseline (read (S m)) = Ok b /\
    verify signed (trust_state pub b) = Ok a /\ strict_routing_view (members (payload signed)) (inv_subnet (payload signed)) = Ok rv.
Proof.
  revert n; induction k as [|k IH]; intros n; cbn [Wgd.stable_attempts]; [done|].
  intros (b & Eb & H)%result_bind_Ok. apply result_bind_Ok in H as (a' & Ea%map_err_Ok & H).
  apply result_bind_Ok in H as (rv' & Er%map_err_Ok & H). apply result_bind_Ok in H as (b' & Eb' & H).
  case_bool_decide as E.
  - subst b'. injection H as -> ->. exists n, b. split_and!; [lia|lia|done..].
  - apply IH in H as (m & b2 & Hm & H). exists m, b2. split_and!; [lia|lia|apply H..].
Qed.

(** C24 The two daemons agree on the trust root.  Whatever wgd accepts, it accepted
    against a baseline that it read twice in a row within its six reads, and noded, given
    the same files, accepts the same epoch, signers, document and routing view.
    Whatever noded accepts from files that stay as they are, wgd accepts alike,
    unless it cannot read the baseline as one, which noded takes for a cold boot
    and wgd refuses. *)
Theorem wgd_agrees genesis signed_file :
  (forall read v, Wgd.load_and_verify genesis signed_file read = Ok v ->
     exists n b a written, n < 6 /\ Wgd.read_baseline (read n) = Ok b /\ Wgd.read_baseline (read (S n)) = Ok b /\
       Noded.load_and_verify genesis signed_file (as_file (read n)) (Noded.mkEnv true (as_file (read n)) Noded.WriteDurable)
         = (Noded.Verified a, written) /\ same_root v a) /\
  (forall r lock w a written,
     Noded.load_and_verify genesis signed_file (as_file r) (Noded.mkEnv lock (as_file r) w) = (Noded.Verified a, written) ->
     (exists v, Wgd.load_and_verify genesis signed_file (fun _ => r) = Ok v /\ same_root v a) \/
     (exists e, Wgd.load_and_verify genesis signed_file (fun _ => r) = Err e /\ baseline_refused e)).
Proof.
  split.
  - intros read v H. unfold Wgd.load_and_verify in H. apply result_bind_Ok in H as (pub & Hg & H).
    apply result_bind_Ok in H as (wire & ->%ok_or_Ok & H). apply result_bind_Ok in H as (s & Hs%ok_or_Ok & H).
    apply result_bind_Ok in H as ([acc rv] & Hv & [= <-]). apply stable_attempts_Ok in Hv as (n & b & Hn & Hb & Hb' & Ha & Hr).
    exists n, b. eexists _, _. split_and!; [cbn in Hn; lia|done|done| |].
    + unfold Noded.load_and_verify. apply genesis_agrees in Hg. rewrite Hg, Hs, (read_baseline_agrees _ _ Hb), Ha, Hr.
      unfold Noded.compare_and_ratchet_baseline. cbn [Noded.lock_ok Noded.fresh_file Noded.write negb].
      by rewrite (read_baseline_agrees _ _ Hb), Ha.
    + by split_and!.
  - intros r lock w a written H. unfold Noded.load_and_verify in H.
    destruct (Noded.read_genesis_pub genesis) as [pub|] eqn:Hg; [|done]. apply genesis_agrees in Hg.
    destruct signed_file as [wire|]; [|done]. destruct (inventory_from_slice wire) as [s|] eqn:Hs; [|done].
    destruct (verify s (trust_state pub (Noded.read_baseline (as_file r)))) as [acc|] eqn:Ha; [|done].
    destruct (strict_routing_view (members (payload s)) (inv_subnet (payload s))) as [rv|] eqn:Hr; [|done].
    unfold Noded.compare_and_ratchet_baseline in H. cbn [Noded.lock_ok Noded.fresh_file Noded.write] in H.
    rewrite Ha in H. destruct lock; cbn [negb] in H; [|done]. destruct w; try done. injection H as <- <-.
    unfold Wgd.load_and_verify. rewrite Hg. cbn [result_bind ok_or]. rewrite Hs. cbn [result_bind ok_or].
    unfold Wgd.verify_with_stable_baseline, BASELINE_STABILITY_ATTEMPTS. cbn [Wgd.stable_attempts].
    destruct (Wgd.read_baseline r) as [b|e] eqn:Hb; cbn [result_bind].
    + left. apply read_baseline_agrees in Hb. rewrite <- Hb, Ha, Hr. cbn [map_err result_bind].
      rewrite bool_decide_eq_true_2 by done. eexists. split; [done|]. by split_and!.
    + right. exists e. split; [done|]. by eapply read_baseline_refuses.
Qed.
End agree.

(** ** Witnesses *)

(** A text format for objects of integers and strings that reads back. *)
Fixpoint pos_text (p : positive) : bytes :=
  match p with xH => [] | xO q => x30 :: pos_text q | xI q => x31 :: pos_text q end.
Fixpoint text_pos (s : bytes) : positive :=
  match s with x30 :: r => xO (text_pos r) | x31 :: r => xI (text_pos r) | _ => xH end.
Lemma text_pos_text p : text_pos (pos_text p ++ [NL]) = p.
Proof. induction p; cbn; congruence. Qed.

Definition flat_entry (kv : bytes * JsonTree) : option (bytes * (Z + bytes)) :=
  match snd kv with JNum n => Some (fst kv, inl n) | JStr s => Some (fst kv, inr s) | _ => None end.
Definition entry_flat (kv : bytes * (Z + bytes)) : bytes * JsonTree :=
  match snd kv with inl n => (fst kv, JNum n) | inr s => (fst kv, JStr s) end.
Lemma flat_entries m : Forall flat_field m -> map entry_flat (omap flat_entry m) = m.
Proof.
  induction 1 as [|[k v] m Hv Hm IH]; [done|]. unfold flat_field in Hv. cbn in Hv.
  destruct v as [| | | | | |]; try done; exact (f_equal (cons _) IH).
Qed.

#[local] Existing Instances sample_b64 sample_ed25519 bits_float_text bits_float_laws.
#[local] Instance sum_hash : Blake3 := fun x => [byte_of (0x30 + foldr (fun b n => b2n b + n) 0 x mod 10)]%N.
#[local] Instance sum_hash_laws : Blake3Laws.
Proof.
  intros x. unfold blake3_hex, sum_hash. set (n := (foldr _ 0 x mod 10)%N).
  assert (n < 10)%N as Hn by (by apply N.mod_lt). cbn [forallb].
  assert (seq1 (byte_of (0x30 + n)) = true) as ->; [|done].
  do 10 (destruct n as [|n] using N.peano_ind; [done|clear IHn]). lia.
Qed.

#[local] Instance sample_serde : SerdeJson := {
  from_str s := l ← decode (text_pos s); Some (JObj (map entry_flat l));
  to_string v := match v with JObj m => pos_text (encode (omap flat_entry m)) | _ => [] end;
  inventory_from_slice wire :=
    if bool_decide (wire = bs "5") then Some (sample_inventory 5)
    else if bool_decide (wire = bs "6") then Some (sample_inventory 6) else None }.
#[local] Instance sample_serde_laws : SerdeLaws.
Proof.
  split.
  - intros m Hm Hw. exists m. cbn [from_str to_string sample_serde]. rewrite text_pos_text, decode_encode. cbn. by rewrite flat_entries.
  - intros wire s. cbn [inventory_from_slice sample_serde].
    repeat case_bool_decide; intros [= <-]; (split; [vm_compute; reflexivity|]); (split; [vm_compute; discriminate|]);
      intros g Hg; injection Hg as <-; vm_compute; discriminate.
Qed.

Definition file5 : bytes := Noded.baseline_body 5 2 (canonical_blake3 (sample_payload 5)).
Definition file6 : bytes := Noded.baseline_body 6 2 (canonical_blake3 (sample_payload 6)).

Lemma sample_run : noded_run (Some genesis_key) None [sample_inventory 5; sample_inventory 6] (Some file6).
Proof.
  change [sample_inventory 5; sample_inventory 6] with
    (([] ++ ratcheted (Some (bs "5")) (Some file5)) ++ ratcheted (Some (bs "6")) (Some file6)).
  eapply (run_load _ _ _ (Some file5) (Some (bs "6")) None true Noded.WriteUnsynced _ (Some file6)).
  - eapply (run_load _ _ _ None (Some (bs "5")) None true Noded.WriteDurable _ (Some file5)).
    + constructor.
    + vm_compute. reflexivity.
  - vm_compute. reflexivity.
Qed.

Lemma floor_ratchets_witness :
  later (sample_payload 5) (sample_payload 6) /\
  Noded.read_baseline (Some file6) = mkBaseline 6 2 (Some (canonical_blake3 (sample_payload 6))).
Proof.
  destruct (floor_ratchets (Some genesis_key) None [sample_inventory 5; sample_inventory 6] (Some file6)) as (H1 & _ & _ & H2).
  - reflexivity.
  - apply sample_run.
  - assert (canonical_blake3 (sample_payload 5) <> canonical_blake3 (sample_payload 6)) as Hne by (vm_compute; discriminate).
    intros p q Hp Hq E. cbn [map] in Hp, Hq. change (payload (sample_inventory 5)) with (sample_payload 5) in *.
    change (payload (sample_inventory 6)) with (sample_payload 6) in *.
    repeat apply elem_of_cons in Hp as [->|Hp]; [..|by apply not_elem_of_nil in Hp];
      (repeat apply elem_of_cons in Hq as [->|Hq]; [..|by apply not_elem_of_nil in Hq]);
      first [reflexivity|destruct (Hne E)|destruct (Hne (eq_sym E))].
  - split; [|exact H2]. inversion H1 as [|? ? _ H]. by inversion H.
Defined.

(** A baseline that cannot be read under the lock is no floor: with [file6] on the disk
    and the fresh read failing, the older inventory 5 is accepted and overwrites it. *)
Lemma unreadable_floor_lost :
  exists a, Noded.load_and_verify (Some genesis_key) (Some (bs "5")) None (Noded.mkEnv true None Noded.WriteDurable) =
    (Noded.Verified a, Some file5).
Proof. eexists. vm_compute. reflexivity. Qed.

Lemma wgd_agrees_witness :
  exists v a, Wgd.load_and_verify (Some genesis_key) (Some (bs "6")) (fun _ => Wgd.ReadText file5) = Ok v /\
    same_root v a /\ Wgd.v_epoch v = 6%Z.
Proof.
  destruct (proj2 (wgd_agrees (Some genesis_key) (Some (bs "6"))) (Wgd.ReadText file5) true Noded.WriteDurable
    (match fst (Noded.load_and_verify (Some genesis_key) (Some (bs "6")) (Some file5)
       (Noded.mkEnv true (Some file5) Noded.WriteDurable)) with
     | Noded.Verified a => a | Noded.Unverified _ => Noded.mkAcceptedRoot 0 0 false [] [] [] [] [] [] [] end)
    (Some file6)) as [(v & Hv & Hs)|(e & He & _)].
  - vm_compute. reflexivity.
  - eexists v, _. split; [exact Hv|]. split; [exact Hs|]. destruct Hs as [-> _]. vm_compute. reflexivity.
  - exfalso. revert He. vm_compute. discriminate.
Defined.
