(* ===== verification/DialogSchema.v ===== *)
(** * Dialog requests and results ([cosmix-interaction-schema/src/dialog.rs])

    The [dialog.v1] data types and their structural validation.  The wire decoding
    is derived by the JSON library and is not modelled.  Lengths are byte lengths;
    a prompt also counts characters.  Theorems: what a valid answer is, and that a
    valid dialog can always be answered, a choice of disabled items excepted. *)

From S2P Require Import Prelude Utf8 Str.

Definition MIN_DIALOG_DEADLINE_MS : Z := 300000.
Definition DIALOG_RAW_INGRESS_CAP : Z := 16 * 1024.
Definition MAX_DIALOG_REQUEST_BYTES : Z := DIALOG_RAW_INGRESS_CAP.
Definition MAX_DIALOG_RESULT_BYTES : Z := DIALOG_RAW_INGRESS_CAP.
Definition MAX_DIALOG_TITLE_BYTES : Z := 512.
Definition MAX_DIALOG_MESSAGE_BYTES : Z := 8 * 1024.
Definition MAX_DIALOG_DETAILS_BYTES : Z := 8 * 1024.
Definition MAX_DIALOG_TEXT_VIEW_BYTES : Z := 12 * 1024.
Definition MAX_DIALOG_LABEL_BYTES : Z := 128.
Definition MAX_DIALOG_KEY_BYTES : Z := 128.
Definition MAX_DIALOG_PATH_BYTES : Z := 4 * 1024.
Definition MAX_DIALOG_PROMPT_INITIAL_BYTES : Z := 4 * 1024.
Definition MAX_DIALOG_PROMPT_CHARS : Z := 4096.
Definition MAX_DIALOG_ITEMS : Z := 256.
Definition MAX_DIALOG_PATHS : Z := 256.
Definition MAX_DIALOG_ACTIONS : Z := 3.
Definition MAX_DIALOG_FILTERS : Z := 16.
Definition MAX_DIALOG_EXTENSIONS_PER_FILTER : Z := 32.

Inductive DialogValidationError :=
| EmptyField (field : bytes)
| TooLong (field : bytes) (max : Z)
| TooMany (field : bytes) (max : Z)
| InvalidDialogKey (field key : bytes)
| DuplicateDialogKey (field key : bytes)
| MultipleDefaults
| MultipleCancelActions
| DestructiveDefault
| UnknownDefaultKey (key : bytes)
| DisabledDefaultKey (key : bytes)
| InvalidProgress
| InvalidSlider
| InvalidSaveName
| InvalidExtension (ext : bytes)
| InvalidDeadline
| ResultKindMismatch
| UnknownResultKey (key : bytes)
| DisabledResultKey (key : bytes)
| DuplicateResultKey (key : bytes)
| RequestTooLarge (got : nat) (max : Z)
| ResultTooLarge (got : nat) (max : Z).

Inductive DialogSeverityV1 := SevInfo | SevSuccess | SevWarning | SevError.
Record DialogCommonV1 := mkCommon { title : bytes; message : option bytes; severity : DialogSeverityV1 }.

Inductive DialogActionRoleV1 := RoleAccept | RoleCancel | RoleDestructive | RoleAuxiliary.
#[export] Instance role_eq_dec : EqDecision DialogActionRoleV1.
Proof. solve_decision. Defined.
Record DialogActionV1 := mkAction { act_key : bytes; act_label : bytes; act_role : DialogActionRoleV1; is_default : bool }.
Record DialogChoiceItemV1 := mkItem { item_key : bytes; item_label : bytes; item_description : option bytes; item_enabled : bool }.
Record DialogTextInputV1 := mkInput { in_initial : option bytes; max_chars : nat; in_required : bool; multiline : bool }.
Inductive DialogProgressValueV1 := Indeterminate | Determinate (current total : Z).
#[export] Instance progress_eq_dec : EqDecision DialogProgressValueV1.
Proof. solve_decision. Defined.
Record DialogFileFilterV1 := mkFilter { filter_label : bytes; extensions : list bytes }.

Inductive DialogRequestV1 :=
| RMessage (common : DialogCommonV1) (details : option bytes)
| RConfirm (common : DialogCommonV1) (actions : list DialogActionV1)
| RPrompt (common : DialogCommonV1) (input : DialogTextInputV1)
| RChoice (common : DialogCommonV1) (items : list DialogChoiceItemV1) (initial : option bytes)
| RMultiChoice (common : DialogCommonV1) (items : list DialogChoiceItemV1) (initial : list bytes)
| RProgress (common : DialogCommonV1) (progress : DialogProgressValueV1) (cancellable : bool)
| RFileOpen (common : DialogCommonV1) (initial_directory : option bytes) (filters : list DialogFileFilterV1) (multiple : bool)
| RFileSave (common : DialogCommonV1) (initial_directory : option bytes) (filters : list DialogFileFilterV1)
    (suggested_name default_extension : option bytes)
| RDirSelect (common : DialogCommonV1) (initial_directory : option bytes)
| RSlider (common : DialogCommonV1) (min max step initial : Z)
| RTextView (common : DialogCommonV1) (text : bytes) (monospace : bool).

Definition common_of (r : DialogRequestV1) : DialogCommonV1 :=
  match r with
  | RMessage c _ | RConfirm c _ | RPrompt c _ | RChoice c _ _ | RMultiChoice c _ _ | RProgress c _ _
  | RFileOpen c _ _ _ | RFileSave c _ _ _ _ | RDirSelect c _ | RSlider c _ _ _ _ | RTextView c _ _ => c
  end.

Abbreviation checked := (result unit DialogValidationError).

(** ** The checks *)

Definition validate_len (field value : bytes) (max : Z) : checked :=
  if exceeds (length value) max then Err (TooLong field max) else Ok tt.
Definition validate_non_empty_len (field value : bytes) (max : Z) : checked :=
  match value with [] => Err (EmptyField field) | _ => validate_len field value max end.
Definition validate_optional_len (field : bytes) (value : option bytes) (max : Z) : checked :=
  match value with Some v => validate_len field v max | None => Ok tt end.
Definition validate_count (field : bytes) (actual : nat) (max : Z) : checked :=
  if exceeds actual max then Err (TooMany field max) else Ok tt.
Definition validate_optional_path (field : bytes) (value : option bytes) : checked :=
  match value with Some v => validate_non_empty_len field v MAX_DIALOG_PATH_BYTES | None => Ok tt end.

Definition is_key_byte (b : byte) : bool :=
  is_ascii_digit b || is_ascii_lowercase b || in_range 0x41 0x5a b || bool_decide (b ∈ [x2e; x5f; x2d]).
Definition validate_key (field key : bytes) : checked :=
  if bool_decide (length key = 0) || exceeds (length key) MAX_DIALOG_KEY_BYTES || negb (forallb seq1 key)
     || negb (forallb is_key_byte key)
  then Err (InvalidDialogKey field key) else Ok tt.

Definition validate_common (c : DialogCommonV1) : checked :=
  let? _ := validate_non_empty_len (bs "title") (title c) MAX_DIALOG_TITLE_BYTES in
  validate_optional_len (bs "message") (message c) MAX_DIALOG_MESSAGE_BYTES.

(** The loop of [validate_actions]: the keys so far, the defaults, the cancels. *)
Definition check_action (st : list bytes * nat * nat) (a : DialogActionV1) : result (list bytes * nat * nat) DialogValidationError :=
  let '(keys, defaults, cancels) := st in
  let? _ := validate_key (bs "actions") (act_key a) in
  let? _ := validate_non_empty_len (bs "action.label") (act_label a) MAX_DIALOG_LABEL_BYTES in
  if bool_decide (act_key a ∈ keys) then Err (DuplicateDialogKey (bs "actions") (act_key a))
  else if is_default a && bool_decide (act_role a = RoleDestructive) then Err DestructiveDefault
  else Ok (act_key a :: keys, if is_default a then S defaults else defaults,
           if bool_decide (act_role a = RoleCancel) then S cancels else cancels).
Definition validate_actions (actions : list DialogActionV1) : checked :=
  let? _ := validate_count (bs "actions") (length actions) MAX_DIALOG_ACTIONS in
  if bool_decide (length actions = 0) then Err (EmptyField (bs "actions"))
  else
  let? st := foldM_res check_action ([], 0, 0) actions in
  let '(_, defaults, cancels) := st in
  if 1 <? defaults then Err MultipleDefaults
  else if 1 <? cancels then Err MultipleCancelActions else Ok tt.

Definition validate_input (i : DialogTextInputV1) : checked :=
  if (max_chars i =? 0) || exceeds (max_chars i) MAX_DIALOG_PROMPT_CHARS then Err (TooLong (bs "max_chars") MAX_DIALOG_PROMPT_CHARS)
  else match in_initial i with
  | None => Ok tt
  | Some initial =>
    let? _ := validate_len (bs "input.initial") initial MAX_DIALOG_PROMPT_INITIAL_BYTES in
    if max_chars i <? length (chars initial) then Err (TooLong (bs "input.initial") (Z.of_nat (max_chars i))) else Ok tt
  end.

Definition check_item (keys : list bytes) (i : DialogChoiceItemV1) : result (list bytes) DialogValidationError :=
  let? _ := validate_key (bs "items") (item_key i) in
  let? _ := validate_non_empty_len (bs "item.label") (item_label i) MAX_DIALOG_LABEL_BYTES in
  let? _ := validate_optional_len (bs "item.description") (item_description i) MAX_DIALOG_MESSAGE_BYTES in
  if bool_decide (item_key i ∈ keys) then Err (DuplicateDialogKey (bs "items") (item_key i)) else Ok (item_key i :: keys).
Definition validate_items (items : list DialogChoiceItemV1) : checked :=
  let? _ := validate_count (bs "items") (length items) MAX_DIALOG_ITEMS in
  if bool_decide (length items = 0) then Err (EmptyField (bs "items"))
  else let? _ := foldM_res check_item [] items in Ok tt.

Definition find_item (items : list DialogChoiceItemV1) (key : bytes) : option DialogChoiceItemV1 :=
  List.find (fun i => bool_decide (item_key i = key)) items.
Definition validate_initial_key (items : list DialogChoiceItemV1) (key : bytes) : checked :=
  match find_item items key with
  | None => Err (UnknownDefaultKey key)
  | Some i => if item_enabled i then Ok tt else Err (DisabledDefaultKey key)
  end.
Definition validate_result_choice (items : list DialogChoiceItemV1) (key : bytes) : checked :=
  match find_item items key with
  | None => Err (UnknownResultKey key)
  | Some i => if item_enabled i then Ok tt else Err (DisabledResultKey key)
  end.

Definition validate_progress (p : DialogProgressValueV1) : checked :=
  match p with
  | Determinate current total => if (total =? 0)%Z || (total <? current)%Z then Err InvalidProgress else Ok tt
  | Indeterminate => Ok tt
  end.

(** [%] is Rust's remainder. *)
Definition validate_slider (min max step value : Z) : checked :=
  if (max <=? min)%Z || (step <=? 0)%Z || (value <? min)%Z || (max <? value)%Z then Err InvalidSlider
  else if negb (Z.rem (value - min) step =? 0)%Z then Err InvalidSlider else Ok tt.

Definition validate_save_name (name : bytes) : checked :=
  if bool_decide (length name = 0) || bool_decide (name = bs ".") || bool_decide (name = bs "..")
     || bool_decide (x2f ∈ name) || bool_decide (x5c ∈ name)
  then Err InvalidSaveName else validate_len (bs "suggested_name") name MAX_DIALOG_PATH_BYTES.

Definition is_extension_byte (b : byte) : bool := is_ascii_lowercase b || is_ascii_digit b || bool_decide (b ∈ [x2b; x2d]).
Definition validate_extension (e : bytes) : checked :=
  if bool_decide (length e = 0) || starts_with [x2e] e || negb (forallb is_extension_byte e) then Err (InvalidExtension e) else Ok tt.

Definition check_extension (seen : list bytes) (e : bytes) : result (list bytes) DialogValidationError :=
  let? _ := validate_extension e in
  if bool_decide (e ∈ seen) then Err (DuplicateDialogKey (bs "filter.extensions") e) else Ok (e :: seen).
Definition check_filter (all : list bytes) (f : DialogFileFilterV1) : result (list bytes) DialogValidationError :=
  let? _ := validate_non_empty_len (bs "filter.label") (filter_label f) MAX_DIALOG_LABEL_BYTES in
  let? _ := validate_count (bs "filter.extensions") (length (extensions f)) MAX_DIALOG_EXTENSIONS_PER_FILTER in
  if bool_decide (length (extensions f) = 0) then Err (EmptyField (bs "filter.extensions"))
  else let? seen := foldM_res check_extension [] (extensions f) in Ok (seen ++ all).
Definition validate_filters (filters : list DialogFileFilterV1) (default_extension : option bytes) : checked :=
  let? _ := validate_count (bs "filters") (length filters) MAX_DIALOG_FILTERS in
  let? all := foldM_res check_filter [] filters in
  match default_extension with
  | None => Ok tt
  | Some e =>
    let? _ := validate_extension e in
    if bool_decide (e ∈ all) then Ok tt else Err (UnknownDefaultKey e)
  end.

(** ** Requests *)

Definition opt_len (o : option bytes) : nat := match o with Some s => length s | None => 0 end.
Definition retained_item_bytes (items : list DialogChoiceItemV1) : nat :=
  list_sum (map (fun i => length (item_key i) + length (item_label i) + opt_len (item_description i)) items).
Definition retained_filter_bytes (filters : list DialogFileFilterV1) : nat :=
  list_sum (map (fun f => length (filter_label f) + list_sum (map length (extensions f))) filters).

Definition retained_bytes (r : DialogRequestV1) : nat :=
  length (title (common_of r)) + opt_len (message (common_of r)) +
  match r with
  | RMessage _ details => opt_len details
  | RConfirm _ actions => list_sum (map (fun a => length (act_key a) + length (act_label a)) actions)
  | RPrompt _ input => opt_len (in_initial input)
  | RChoice _ items initial => retained_item_bytes items + opt_len initial
  | RMultiChoice _ items initial => retained_item_bytes items + list_sum (map length initial)
  | RProgress _ _ _ | RSlider _ _ _ _ _ => 0
  | RFileOpen _ dir filters _ => opt_len dir + retained_filter_bytes filters
  | RFileSave _ dir filters name ext => opt_len dir + retained_filter_bytes filters + opt_len name + opt_len ext
  | RDirSelect _ dir => opt_len dir
  | RTextView _ text _ => length text
  end.

Definition check_initial (items : list DialogChoiceItemV1) (seen : list bytes) (key : bytes) : result (list bytes) DialogValidationError :=
  let? _ := validate_initial_key items key in
  if bool_decide (key ∈ seen) then Err (DuplicateDialogKey (bs "initial") key) else Ok (key :: seen).

Definition validate_kind (r : DialogRequestV1) : checked :=
  match r with
  | RMessage _ details => validate_optional_len (bs "details") details MAX_DIALOG_DETAILS_BYTES
  | RConfirm _ actions => validate_actions actions
  | RPrompt _ input => validate_input input
  | RChoice _ items initial =>
    let? _ := validate_items items in
    match initial with Some key => validate_initial_key items key | None => Ok tt end
  | RMultiChoice _ items initial =>
    let? _ := validate_items items in
    let? _ := validate_count (bs "initial") (length initial) MAX_DIALOG_ITEMS in
    let? _ := foldM_res (check_initial items) [] initial in Ok tt
  | RProgress _ progress _ => validate_progress progress
  | RFileOpen _ dir filters _ =>
    let? _ := validate_optional_path (bs "initial_directory") dir in validate_filters filters None
  | RFileSave _ dir filters name ext =>
    let? _ := validate_optional_path (bs "initial_directory") dir in
    let? _ := match name with Some n => validate_save_name n | None => Ok tt end in
    validate_filters filters ext
  | RDirSelect _ dir => validate_optional_path (bs "initial_directory") dir
  | RSlider _ min max step initial => validate_slider min max step initial
  | RTextView _ text _ => validate_non_empty_len (bs "text") text MAX_DIALOG_TEXT_VIEW_BYTES
  end.

Definition request_validate (r : DialogRequestV1) : checked :=
  let? _ := validate_common (common_of r) in
  let? _ := validate_kind r in
  let got := retained_bytes r in
  if exceeds got MAX_DIALOG_REQUEST_BYTES then Err (RequestTooLarge got MAX_DIALOG_REQUEST_BYTES) else Ok tt.

Record DialogOpenRequestV1 := mkOpen { dialog : DialogRequestV1; deadline_ms : option Z }.
Definition open_validate (o : DialogOpenRequestV1) : checked :=
  let? _ := request_validate (dialog o) in
  match deadline_ms o with
  | Some d => if (d <? MIN_DIALOG_DEADLINE_MS)%Z then Err InvalidDeadline else Ok tt
  | None => Ok tt
  end.

(** ** States, patches, completions *)

Inductive DialogStateV1 := Queued | Presenting | Presented | CancelRequested | Resolved | Cancelled | Expired | SFailed.
#[export] Instance state_eq_dec : EqDecision DialogStateV1.
Proof. solve_decision. Defined.
Definition is_terminal (s : DialogStateV1) : bool :=
  match s with Resolved | Cancelled | Expired | SFailed => true | _ => false end.

Record DialogProgressPatchV1 := mkPatch { patch_message : option bytes; patch_progress : option DialogProgressValueV1 }.
Definition patch_validate (p : DialogProgressPatchV1) : checked :=
  let? _ := validate_optional_len (bs "message") (patch_message p) MAX_DIALOG_MESSAGE_BYTES in
  match patch_progress p with Some v => validate_progress v | None => Ok tt end.

Inductive DialogProgressCompletionV1 := Succeeded | CompletionCancelled | CompletionFailed (message : bytes).
Definition completion_validate (c : DialogProgressCompletionV1) : checked :=
  match c with
  | CompletionFailed message => validate_non_empty_len (bs "message") message MAX_DIALOG_MESSAGE_BYTES
  | _ => Ok tt
  end.

(** ** Results *)

Inductive DialogValueV1 :=
| VMessage | VConfirm (action : bytes) | VPrompt (text : bytes) | VChoice (key : bytes) | VMultiChoice (keys : list bytes)
| VProgress (completion : DialogProgressCompletionV1) | VFileOpen (paths : list bytes) | VFileSave (path : bytes)
| VDirSelect (path : bytes) | VSlider (value : Z) | VTextView.

Definition value_bytes (v : DialogValueV1) : nat :=
  match v with
  | VMessage | VTextView | VSlider _ => 0
  | VConfirm s | VPrompt s | VChoice s | VFileSave s | VDirSelect s => length s
  | VMultiChoice l | VFileOpen l => list_sum (map length l)
  | VProgress (CompletionFailed message) => length message
  | VProgress _ => 0
  end.

Definition check_result (items : list DialogChoiceItemV1) (seen : list bytes) (key : bytes) : result (list bytes) DialogValidationError :=
  let? _ := validate_result_choice items key in
  if bool_decide (key ∈ seen) then Err (DuplicateResultKey key) else Ok (key :: seen).

(** The first [match] of [validate_for]: the answer's kind and its keys. *)
Definition validate_match (v : DialogValueV1) (r : DialogRequestV1) : checked :=
  match v, r with
  | VMessage, RMessage _ _ | VPrompt _, RPrompt _ _ | VProgress _, RProgress _ _ _ | VFileOpen _, RFileOpen _ _ _ _
  | VFileSave _, RFileSave _ _ _ _ _ | VDirSelect _, RDirSelect _ _ | VSlider _, RSlider _ _ _ _ _
  | VTextView, RTextView _ _ _ => Ok tt
  | VConfirm action, RConfirm _ actions =>
    if existsb (fun a => bool_decide (act_key a = action)) actions then Ok tt else Err (UnknownResultKey action)
  | VChoice key, RChoice _ items _ => validate_result_choice items key
  | VMultiChoice keys, RMultiChoice _ items _ =>
    let? _ := validate_count (bs "keys") (length keys) MAX_DIALOG_ITEMS in
    let? _ := foldM_res (check_result items) [] keys in Ok tt
  | _, _ => Err ResultKindMismatch
  end.

Definition check_path (_ : unit) (p : bytes) : checked := validate_non_empty_len (bs "path") p MAX_DIALOG_PATH_BYTES.

(** The second [match]: the answer's contents. *)
Definition validate_contents (v : DialogValueV1) (r : DialogRequestV1) : checked :=
  match v with
  | VPrompt text =>
    let? _ := validate_len (bs "text") text MAX_DIALOG_PROMPT_INITIAL_BYTES in
    match r with
    | RPrompt _ input =>
      if in_required input && bool_decide (length text = 0) then Err (EmptyField (bs "text"))
      else if max_chars input <? length (chars text) then Err (TooLong (bs "text") (Z.of_nat (max_chars input))) else Ok tt
    | _ => Ok tt
    end
  | VProgress completion => completion_validate completion
  | VFileOpen paths =>
    if bool_decide (length paths = 0) then Err (EmptyField (bs "paths"))
    else
    let? _ := validate_count (bs "paths") (length paths) MAX_DIALOG_PATHS in
    let? _ := match r with
              | RFileOpen _ _ _ multiple =>
                if negb multiple && negb (length paths =? 1) then Err (TooMany (bs "paths") 1) else Ok tt
              | _ => Ok tt end in
    foldM_res check_path tt paths
  | VFileSave path | VDirSelect path => validate_non_empty_len (bs "path") path MAX_DIALOG_PATH_BYTES
  | VSlider value => match r with RSlider _ min max step _ => validate_slider min max step value | _ => Ok tt end
  | _ => Ok tt
  end.

Definition validate_for (v : DialogValueV1) (r : DialogRequestV1) : checked :=
  let? _ := validate_match v r in
  let? _ := validate_contents v r in
  let got := value_bytes v in
  if exceeds got MAX_DIALOG_RESULT_BYTES then Err (ResultTooLarge got MAX_DIALOG_RESULT_BYTES) else Ok tt.

(** ** Every valid dialog has an answer *)

Lemma foldM_res_each {A S E} (f : S -> A -> result S E) l s s' x :
  foldM_res f s l = Ok s' -> x ∈ l -> exists t t', f t x = Ok t'.
Proof.
  revert s; induction l as [|y l IH]; intros s; cbn [foldM_res]; [by intros _ ?%not_elem_of_nil|].
  intros (t & Hy & Hl)%result_bind_Ok [->|Hin]%elem_of_cons; eauto.
Qed.

Lemma validate_key_len f k : validate_key f k = Ok tt -> (Z.of_nat (length k) <= MAX_DIALOG_KEY_BYTES)%Z.
Proof. unfold validate_key. destruct (exceeds (length k) MAX_DIALOG_KEY_BYTES) eqn:E; [|by rewrite exceeds_false in E]. by rewrite orb_true_r. Qed.

Lemma check_item_spec keys i keys' : check_item keys i = Ok keys' ->
  (Z.of_nat (length (item_key i)) <= MAX_DIALOG_KEY_BYTES)%Z /\ (item_key i ∉ keys) /\ keys' = item_key i :: keys.
Proof.
  unfold check_item. intros H. run_inv H. destruct x as [].
  split_and!; [by eapply validate_key_len|by apply bool_decide_eq_false in E|done].
Qed.

(** Validated items have distinct keys, so a key finds its own item. *)
Lemma items_find items i : validate_items items = Ok tt -> i ∈ items -> find_item items (item_key i) = Some i.
Proof.
  unfold validate_items. intros H Hin. run_inv H. clear H E x Hx. revert x0 Hx0 Hin. generalize (@nil bytes) as keys.
  induction items as [|j items IH]; intros keys ks Hf Hin; [by apply not_elem_of_nil in Hin|].
  cbn [foldM_res] in Hf. apply result_bind_Ok in Hf as (ks1 & (_ & Hj & ->)%check_item_spec & Hf).
  unfold find_item. cbn [List.find]. apply elem_of_cons in Hin as [->|Hin]; [by rewrite bool_decide_eq_true_2|].
  rewrite bool_decide_eq_false_2; [by eapply IH|]. intros Eq. clear IH.
  assert (forall l ks ks', foldM_res check_item ks l = Ok ks' -> forall x, x ∈ ks -> forall i, i ∈ l -> item_key i <> x) as Hne.
  { clear. induction l as [|y l IH]; intros ks ks' H x Hx i Hi; [by apply not_elem_of_nil in Hi|].
    cbn [foldM_res] in H. apply result_bind_Ok in H as (k1 & (_ & Hy & ->)%check_item_spec & H).
    apply elem_of_cons in Hi as [->|Hi]; [congruence|]. apply (IH _ _ H); [by right|done]. }
  apply (Hne _ _ _ Hf (item_key j) ltac:(constructor) i Hin). done.
Qed.

(** An answer to each kind of dialog. *)
Definition sample_answer (r : DialogRequestV1) : DialogValueV1 :=
  match r with
  | RMessage _ _ => VMessage
  | RConfirm _ actions => VConfirm (match actions with a :: _ => act_key a | [] => [] end)
  | RPrompt _ _ => VPrompt [x61]
  | RChoice _ items _ => VChoice (match List.find item_enabled items with Some i => item_key i | None => [] end)
  | RMultiChoice _ _ _ => VMultiChoice []
  | RProgress _ _ _ => VProgress Succeeded
  | RFileOpen _ _ _ _ => VFileOpen [[x2f]]
  | RFileSave _ _ _ _ _ => VFileSave [x2f]
  | RDirSelect _ _ => VDirSelect [x2f]
  | RSlider _ _ _ _ initial => VSlider initial
  | RTextView _ _ _ => VTextView
  end.

Lemma key_fits (k : bytes) : (Z.of_nat (length k) <= MAX_DIALOG_KEY_BYTES)%Z -> exceeds (length k) MAX_DIALOG_RESULT_BYTES = false.
Proof. rewrite exceeds_false. unfold MAX_DIALOG_KEY_BYTES, MAX_DIALOG_RESULT_BYTES, DIALOG_RAW_INGRESS_CAP. lia. Qed.

Lemma confirm_answer actions : validate_actions actions = Ok tt ->
  exists a rest, actions = a :: rest /\ (Z.of_nat (length (act_key a)) <= MAX_DIALOG_KEY_BYTES)%Z.
Proof.
  unfold validate_actions. intros H. run_inv H. destruct actions as [|a rest]; [done|]. exists a, rest. split; [done|].
  clear E H. apply (foldM_res_each _ _ _ _ a) in Hx0 as ([[ks d] c] & t' & Ha); [|constructor].
  unfold check_action in Ha. apply result_bind_Ok in Ha as ([] & Hk & _). by eapply validate_key_len.
Qed.

Lemma choice_answer items i : validate_items items = Ok tt -> List.find item_enabled items = Some i ->
  find_item items (item_key i) = Some i /\ (Z.of_nat (length (item_key i)) <= MAX_DIALOG_KEY_BYTES)%Z.
Proof.
  intros Hv Hf. apply List.find_some in Hf as [Hin _]. apply list_elem_of_In in Hin. split; [by apply items_find|].
  unfold validate_items in Hv. run_inv Hv. apply (foldM_res_each _ _ _ _ i) in Hx0 as (t & t' & Hi); [|done].
  by apply check_item_spec in Hi as [? _].
Qed.

(** A dialog that validates can be answered, whatever its kind: some result
    validates for it, except for a choice whose items are all disabled, which
    validates and which no result answers. *)
Theorem valid_request_answerable r : request_validate r = Ok tt ->
  (exists v, validate_for v r = Ok tt) <->
  (forall c items initial, r = RChoice c items initial -> exists i, i ∈ items /\ item_enabled i = true).
Proof.
  intros Hr. unfold request_validate in Hr. run_inv Hr. clear Hx Hr E x. destruct x0 as []. split.
  - intros (v & Hv) c items initial ->. unfold validate_for in Hv. run_inv Hv. destruct v; try done.
    cbn [validate_match] in Hx. unfold validate_result_choice in Hx. destruct (find_item items key) as [i|] eqn:Ef; [|done].
    destruct (item_enabled i) eqn:Ei; [|done]. unfold find_item in Ef. apply List.find_some in Ef as [Hin _].
    exists i. by split; [apply list_elem_of_In|].
  - intros Hc. exists (sample_answer r). unfold validate_for.
    destruct r as [c d|c actions|c input|c items ini|c items ini|c pr cb|c dir fs mu|c dir fs nm ex|c dir|c mn mx st ini|c tx mo];
      cbn [validate_kind] in Hx0; cbn [sample_answer validate_match validate_contents value_bytes result_bind]; try (by vm_compute).
    + apply confirm_answer in Hx0 as (a & rest & -> & Hk). cbn [existsb]. rewrite bool_decide_eq_true_2 by done. cbn [orb result_bind].
      by rewrite key_fits.
    + unfold validate_input in Hx0. destruct (Nat.eqb_spec (max_chars input) 0) as [|Hm]; [done|].
      change (length (chars [x61])) with 1. rewrite (proj2 (Nat.ltb_ge _ _)) by lia. cbn. by rewrite andb_false_r.
    + run_inv Hx0. destruct x as []. destruct (List.find item_enabled items) as [i|] eqn:Ef.
      * destruct (choice_answer items i Hx Ef) as [Hi Hk]. unfold validate_result_choice. rewrite Hi.
        apply List.find_some in Ef as [_ ->]. cbn [result_bind]. by rewrite key_fits.
      * exfalso. destruct (Hc c items ini eq_refl) as (i & Hin%list_elem_of_In & Hen).
        pose proof (List.find_none _ _ Ef i Hin). congruence.
    + by destruct mu.
    + rewrite Hx0. by vm_compute.
Qed.

Lemma valid_request_answerable_witness :
  (exists v, validate_for v (RSlider (mkCommon (bs "t") None SevInfo) 0 10 5 5) = Ok tt) /\
  ~ (exists v, validate_for v (RChoice (mkCommon (bs "t") None SevInfo) [mkItem (bs "a") (bs "A") None false] None) = Ok tt).
Proof.
  split.
  - apply (valid_request_answerable (RSlider (mkCommon (bs "t") None SevInfo) 0 10 5 5)); [vm_compute; reflexivity|].
    intros c items i H. discriminate H.
  - intros H.
    destruct (proj1 (valid_request_answerable (RChoice (mkCommon (bs "t") None SevInfo) [mkItem (bs "a") (bs "A") None false] None)
      ltac:(vm_compute; reflexivity)) H _ _ _ eq_refl) as (i & Hi & He).
    apply list_elem_of_singleton in Hi. subst i. discriminate He.
Defined.
