(* ===== verification/RateLimit.v ===== *)
(** * The interaction broker's rate limiter ([cosmix-interaction-broker/src/ratelimit.rs])

    A token bucket per origin and one for all of them.  Tokens are [f64]: IEEE 754
    binary64 arithmetic, executable, from the Standard Library's specification of
    floats, rounding to nearest even as the hardware does. *)

From S2P Require Import Prelude Utf8 Str BTree.
From Stdlib Require Import SpecFloat.

(** ** [f64] *)

Definition f64 : Type := spec_float.
Definition f64_add : f64 -> f64 -> f64 := SFadd 53 1024.
Definition f64_sub : f64 -> f64 -> f64 := SFsub 53 1024.
Definition f64_mul : f64 -> f64 -> f64 := SFmul 53 1024.
Definition f64_div : f64 -> f64 -> f64 := SFdiv 53 1024.
(** [n as f64] for a [u64] *)
Definition f64_of_u64 (n : Z) : f64 := binary_normalize 53 1024 n 0 false.
(** [a >= b] *)
Definition f64_ge (a b : f64) : bool := match SFcompare a b with Some Gt | Some Eq => true | _ => false end.
(** [a.min(b)]: the other one where one is NaN *)
Definition f64_min (a b : f64) : f64 :=
  match SFcompare a b with
  | Some Gt => b
  | Some _ => a
  | None => match a with S754_nan => b | _ => a end
  end.

(** ** The limiter *)

Definition BUCKET_IDLE_TTL_MS : Z := 15 * 60 * 1000.
Definition MAX_BUCKETS : nat := 4096.

Record RateConfig := mkRate { capacity : f64; refill_per_sec : f64 }.
Record Bucket := mkBucket { tokens : f64; last_ms : Z }.
Record RateLimiter := mkLimiter {
  rl_config : RateConfig; global_config : RateConfig; global : Bucket; buckets : gmap bytes Bucket }.

Definition DEFAULT_RATE : RateConfig := mkRate (f64_of_u64 5) (f64_of_u64 1).
Definition DEFAULT_GLOBAL_RATE : RateConfig := mkRate (f64_of_u64 30) (f64_of_u64 5).

Definition new_with_global (c g : RateConfig) : RateLimiter := mkLimiter c g (mkBucket (capacity g) 0) ∅.
Definition RateLimiter_new (c : RateConfig) : RateLimiter := new_with_global c DEFAULT_GLOBAL_RATE.

Definition refill (b : Bucket) (c : RateConfig) (now_ms : Z) : Bucket :=
  let elapsed_ms := sat_sub64 now_ms (last_ms b) in
  let replenished := f64_mul (f64_div (f64_of_u64 elapsed_ms) (f64_of_u64 1000)) (refill_per_sec c) in
  mkBucket (f64_min (f64_add (tokens b) replenished) (capacity c)) (Z.max (last_ms b) now_ms).

(** The order of [min_by]: last use, then name. *)
Definition older (x y : bytes * Bucket) : bool :=
  match Z.compare (last_ms (snd x)) (last_ms (snd y)) with
  | Lt => true | Gt => false
  | Eq => match bytes_cmp (fst x) (fst y) with Gt => false | _ => true end
  end.
Definition oldest (m : gmap bytes Bucket) : option bytes :=
  fst <$> foldr (fun x acc => match acc with Some y => Some (if older x y then x else y) | None => Some x end) None (map_to_list m).

(** The table before the lookup: idle buckets dropped, and one more where a new
    origin would exceed the bound. *)
Definition make_room (bs : gmap bytes Bucket) (origin : bytes) (now_ms : Z) : gmap bytes Bucket :=
  let bs := filter (fun kb => (sat_sub64 now_ms (last_ms (snd kb)) <= BUCKET_IDLE_TTL_MS)%Z) bs in
  if bool_decide (bs !! origin = None) && (MAX_BUCKETS <=? size bs)
  then match oldest bs with Some o => delete o bs | None => bs end
  else bs.

Definition try_consume (l : RateLimiter) (origin : bytes) (now_ms : Z) : RateLimiter * bool :=
  let bs := make_room (buckets l) origin now_ms in
  let origin_bucket := refill (default (mkBucket (capacity (rl_config l)) now_ms) (bs !! origin)) (rl_config l) now_ms in
  let g := refill (global l) (global_config l) now_ms in
  let one := f64_of_u64 1 in
  if f64_ge (tokens origin_bucket) one && f64_ge (tokens g) one
  then (mkLimiter (rl_config l) (global_config l) (mkBucket (f64_sub (tokens g) one) (last_ms g))
          (<[origin := mkBucket (f64_sub (tokens origin_bucket) one) (last_ms origin_bucket)]> bs), true)
  else (mkLimiter (rl_config l) (global_config l) g (<[origin := origin_bucket]> bs), false).

Definition forget (l : RateLimiter) (origin : bytes) : RateLimiter :=
  mkLimiter (rl_config l) (global_config l) (global l) (delete origin (buckets l)).

(** ** Its table is bounded *)

Definition limiter_ok (l : RateLimiter) : Prop := size (buckets l) <= MAX_BUCKETS.

Lemma oldest_some m k b : m !! k = Some b -> exists o b', oldest m = Some o /\ m !! o = Some b'.
Proof.
  intros Hk. unfold oldest. set (f := fun x acc => _).
  assert (forall l, l <> [] -> exists x, foldr f None l = Some x /\ x ∈ l) as Hp.
  { intros l. induction l as [|x l IH]; [done|]. intros _. destruct l as [|y l]; [exists x; split; [done|constructor]|].
    destruct IH as (z & Hz & Hin); [done|]. change (foldr f None (x :: y :: l)) with (f x (foldr f None (y :: l))). rewrite Hz.
    unfold f. destruct (older x z); eexists; (split; [done|]); [constructor|by right]. }
  destruct (Hp (map_to_list m)) as ([o b'] & Ho & Hin).
  { intros E. apply map_to_list_empty_iff in E. by rewrite E, lookup_empty in Hk. }
  exists o, b'. rewrite Ho. split; [done|]. by apply elem_of_map_to_list in Hin.
Qed.

Lemma make_room_bound bs origin now b : size bs <= MAX_BUCKETS ->
  size (<[origin := b]> (make_room bs origin now)) <= MAX_BUCKETS.
Proof.
  intros Hs. unfold make_room. set (m := filter _ bs).
  assert (size m <= MAX_BUCKETS) as Hm by (etrans; [apply map_subseteq_size, map_filter_subseteq|done]).
  destruct (m !! origin) as [x|] eqn:E.
  - rewrite bool_decide_eq_false_2 by done. cbn [andb]. by rewrite map_size_insert_Some by (by eexists).
  - rewrite bool_decide_eq_true_2 by done. cbn [andb].
    destruct (Nat.leb_spec MAX_BUCKETS (size m)) as [Hf|Hf].
    + destruct (map_choose m) as (k & y & Hk); [intros ->; rewrite map_size_empty in Hf; unfold MAX_BUCKETS in Hf; lia|].
      destruct (oldest_some m k y Hk) as (o & b' & -> & Hb').
      assert (o <> origin) by congruence.
      rewrite map_size_insert_None by (by rewrite lookup_delete_ne). rewrite map_size_delete_Some by (by eexists).
      pose proof (map_size_ne_0_lookup_2 m o ltac:(by eexists)). lia.
    + rewrite map_size_insert_None by done. lia.
Qed.

Lemma try_consume_ok l origin now : limiter_ok l -> limiter_ok (fst (try_consume l origin now)).
Proof.
  unfold limiter_ok, try_consume. intros Hl. cbv zeta. destruct (_ && _); cbn [fst buckets]; by apply make_room_bound.
Qed.
