(* ===== verification/Dialog.v ===== *)
(** * The dialog broker ([cosmix-interaction-broker/src/dialog.rs])

    The lifecycle of [dialog.v1] dialogs: the fair waiting queues, the presenter's
    lease and its attempts, expiry, retention and the bounded transition log.

    Every operation of [DialogBroker] is a definition on the broker's state.  [None]
    is a panic (an [expect] that fails) or a loop that has run out of its fuel; an
    operation's own refusal is [Err] of [DialogBrokerError].  Handles, tokens and
    services are the bytes of their strings, times and counters [u64] as [Z], the
    limits [usize] as [Z].  A [HashMap] is iterated in an order of its own, which
    the class [HashIter] leaves open. *)

From S2P Require Import Prelude Utf8 Str BTree DialogSchema RateLimit.

Definition DEFAULT_DIALOG_QUEUE_LIMIT : Z := 64.
Definition DEFAULT_DIALOG_ORIGIN_QUEUE_LIMIT : Z := 8.
Definition DEFAULT_DIALOG_ACTIVE_LIMIT : Z := 1.
Definition DEFAULT_DIALOG_TERMINAL_LIMIT : Z := 256.
Definition DEFAULT_DIALOG_TERMINAL_TTL_MS : Z := 15 * 60 * 1000.
Definition MAX_DIALOG_PRE_DISPLAY_REQUEUES : Z := 3.
Definition DIALOG_TRANSITION_MUTATION_HEADROOM : Z := 2.

Record DialogQueueLimits := mkLimits { total : Z; per_origin : Z }.
Record DialogRetentionPolicy := mkRetention { active : Z; terminal : Z; terminal_ttl_ms : Z }.
Definition default_limits : DialogQueueLimits := mkLimits DEFAULT_DIALOG_QUEUE_LIMIT DEFAULT_DIALOG_ORIGIN_QUEUE_LIMIT.
Definition default_retention : DialogRetentionPolicy :=
  mkRetention DEFAULT_DIALOG_ACTIVE_LIMIT DEFAULT_DIALOG_TERMINAL_LIMIT DEFAULT_DIALOG_TERMINAL_TTL_MS.

Record PresenterLease := mkLease { service : bytes; generation : Z; lease_epoch : Z }.
#[export] Instance lease_eq_dec : EqDecision PresenterLease.
Proof. solve_decision. Defined.

Record DialogProgressSnapshot := mkProgress { ps_message : option bytes; ps_progress : DialogProgressValueV1 }.
Record DialogPresentation := mkPresentation {
  pr_handle : bytes; pr_token : Z; pr_request : DialogOpenRequestV1;
  pr_progress : option DialogProgressSnapshot; pr_cancel_requested : bool }.

Inductive DialogBrokerError :=
| EInvalid (e : DialogValidationError)
| RateLimited | QueueFull (max : Z) | OriginQueueFull (max : Z) | DuplicateHandle | NotFound | WrongOwner
| NoPresenter | StaleLease | StaleAttempt | CounterExhausted | AlreadyTerminal | EExpired
| InvalidState (s : DialogStateV1)
| OwnerCannotResolve | ProgressPresenterResolution | NotProgress | NotCancellable.

Record ActiveAttempt := mkAttempt { at_generation : Z; at_token : Z }.

Record DialogRecord := mkRecord {
  handle : bytes; owner_service : bytes; owner_token : bytes; request : DialogOpenRequestV1;
  state : DialogStateV1; created_at_ms : Z; expires_at_ms : option Z; terminal_at_ms : option Z;
  attempt : option ActiveAttempt; progress : option DialogProgressSnapshot; cancel_requested : bool;
  ever_presented : bool; pre_display_requeues : Z; value : option DialogValueV1 }.

Inductive DialogTransitionCause :=
| COpen | CPresent | CMarkPresented | CResolve | CFail | CCancel | CProgressUpdate | CProgressComplete | CProgressCancel
| CReplace | CRelease | CExpire | CEvict | CWithdraw | CQuarantine.

Record DialogTransition := mkTransition {
  tr_handle : bytes; tr_from : option DialogStateV1; tr_to : option DialogStateV1; tr_cause : DialogTransitionCause }.

Record DialogBroker := mkBroker {
  rate_limiter : RateLimiter; limits : DialogQueueLimits; instance_epoch : Z;
  records : gmap bytes DialogRecord; queued_by_origin : gmap bytes (list bytes); origin_turns : list bytes;
  presenter : option PresenterLease; next_presenter_generation : Z; next_attempt_token : Z;
  retention : DialogRetentionPolicy; terminal_order : list bytes;
  pending_expirations : list bytes; pending_count_evictions : list bytes;
  pending_transitions : list DialogTransition; transition_limit : Z; transitions_overflowed : bool }.

(** ** Assignments to one field *)

Definition with_rate_limiter (b : DialogBroker) (x : RateLimiter) : DialogBroker :=
  mkBroker x (limits b) (instance_epoch b) (records b) (queued_by_origin b) (origin_turns b) (presenter b) (next_presenter_generation b) (next_attempt_token b) (retention b) (terminal_order b) (pending_expirations b) (pending_count_evictions b) (pending_transitions b) (transition_limit b) (transitions_overflowed b).
Definition with_records (b : DialogBroker) (x : gmap bytes DialogRecord) : DialogBroker :=
  mkBroker (rate_limiter b) (limits b) (instance_epoch b) x (queued_by_origin b) (origin_turns b) (presenter b) (next_presenter_generation b) (next_attempt_token b) (retention b) (terminal_order b) (pending_expirations b) (pending_count_evictions b) (pending_transitions b) (transition_limit b) (transitions_overflowed b).
Definition with_queued_by_origin (b : DialogBroker) (x : gmap bytes (list bytes)) : DialogBroker :=
  mkBroker (rate_limiter b) (limits b) (instance_epoch b) (records b) x (origin_turns b) (presenter b) (next_presenter_generation b) (next_attempt_token b) (retention b) (terminal_order b) (pending_expirations b) (pending_count_evictions b) (pending_transitions b) (transition_limit b) (transitions_overflowed b).
Definition with_origin_turns (b : DialogBroker) (x : list bytes) : DialogBroker :=
  mkBroker (rate_limiter b) (limits b) (instance_epoch b) (records b) (queued_by_origin b) x (presenter b) (next_presenter_generation b) (next_attempt_token b) (retention b) (terminal_order b) (pending_expirations b) (pending_count_evictions b) (pending_transitions b) (transition_limit b) (transitions_overflowed b).
Definition with_presenter (b : DialogBroker) (x : option PresenterLease) : DialogBroker :=
  mkBroker (rate_limiter b) (limits b) (instance_epoch b) (records b) (queued_by_origin b) (origin_turns b) x (next_presenter_generation b) (next_attempt_token b) (retention b) (terminal_order b) (pending_expirations b) (pending_count_evictions b) (pending_transitions b) (transition_limit b) (transitions_overflowed b).
Definition with_next_presenter_generation (b : DialogBroker) (x : Z) : DialogBroker :=
  mkBroker (rate_limiter b) (limits b) (instance_epoch b) (records b) (queued_by_origin b) (origin_turns b) (presenter b) x (next_attempt_token b) (retention b) (terminal_order b) (pending_expirations b) (pending_count_evictions b) (pending_transitions b) (transition_limit b) (transitions_overflowed b).
Definition with_next_attempt_token (b : DialogBroker) (x : Z) : DialogBroker :=
  mkBroker (rate_limiter b) (limits b) (instance_epoch b) (records b) (queued_by_origin b) (origin_turns b) (presenter b) (next_presenter_generation b) x (retention b) (terminal_order b) (pending_expirations b) (pending_count_evictions b) (pending_transitions b) (transition_limit b) (transitions_overflowed b).
Definition with_terminal_order (b : DialogBroker) (x : list bytes) : DialogBroker :=
  mkBroker (rate_limiter b) (limits b) (instance_epoch b) (records b) (queued_by_origin b) (origin_turns b) (presenter b) (next_presenter_generation b) (next_attempt_token b) (retention b) x (pending_expirations b) (pending_count_evictions b) (pending_transitions b) (transition_limit b) (transitions_overflowed b).
Definition with_pending_expirations (b : DialogBroker) (x : list bytes) : DialogBroker :=
  mkBroker (rate_limiter b) (limits b) (instance_epoch b) (records b) (queued_by_origin b) (origin_turns b) (presenter b) (next_presenter_generation b) (next_attempt_token b) (retention b) (terminal_order b) x (pending_count_evictions b) (pending_transitions b) (transition_limit b) (transitions_overflowed b).
Definition with_pending_count_evictions (b : DialogBroker) (x : list bytes) : DialogBroker :=
  mkBroker (rate_limiter b) (limits b) (instance_epoch b) (records b) (queued_by_origin b) (origin_turns b) (presenter b) (next_presenter_generation b) (next_attempt_token b) (retention b) (terminal_order b) (pending_expirations b) x (pending_transitions b) (transition_limit b) (transitions_overflowed b).
Definition with_transitions (b : DialogBroker) (x : list DialogTransition) (o : bool) : DialogBroker :=
  mkBroker (rate_limiter b) (limits b) (instance_epoch b) (records b) (queued_by_origin b) (origin_turns b) (presenter b) (next_presenter_generation b) (next_attempt_token b) (retention b) (terminal_order b) (pending_expirations b) (pending_count_evictions b) x (transition_limit b) o.

(** [record.attempt = a], [record.state = s] *)
Definition with_attempt (r : DialogRecord) (a : option ActiveAttempt) : DialogRecord :=
  mkRecord (handle r) (owner_service r) (owner_token r) (request r) (state r) (created_at_ms r) (expires_at_ms r)
    (terminal_at_ms r) a (progress r) (cancel_requested r) (ever_presented r) (pre_display_requeues r) (value r).
Definition with_state (r : DialogRecord) (s : DialogStateV1) : DialogRecord :=
  mkRecord (handle r) (owner_service r) (owner_token r) (request r) s (created_at_ms r) (expires_at_ms r)
    (terminal_at_ms r) (attempt r) (progress r) (cancel_requested r) (ever_presented r) (pre_display_requeues r) (value r).

(** ** Construction *)

Definition new_with_retention (l : RateLimiter) (lim : DialogQueueLimits) (ret : DialogRetentionPolicy) : DialogBroker :=
  let transition_limit :=
    sat_add64 (sat_mul64 (sat_add64 (sat_add64 (total lim) (active ret)) (terminal ret)) 2) DIALOG_TRANSITION_MUTATION_HEADROOM in
  mkBroker l lim 0 ∅ ∅ [] None 1 1 ret [] [] [] [] transition_limit false.
Definition broker_new (l : RateLimiter) (lim : DialogQueueLimits) : DialogBroker := new_with_retention l lim default_retention.
Definition with_instance_epoch (b : DialogBroker) (epoch : Z) : DialogBroker :=
  mkBroker (rate_limiter b) (limits b) epoch (records b) (queued_by_origin b) (origin_turns b) (presenter b)
    (next_presenter_generation b) (next_attempt_token b) (retention b) (terminal_order b) (pending_expirations b)
    (pending_count_evictions b) (pending_transitions b) (transition_limit b) (transitions_overflowed b).

(** ** Iteration, loops *)

(** [for x in l] over a state, where a panic ends it. *)
Fixpoint for_each {A S} (f : S -> A -> option S) (s : S) (l : list A) : option S :=
  match l with [] => Some s | x :: l => s' ← f s x; for_each f s' l end.

Definition is_none_or {A} (o : option A) (p : A -> bool) : bool := match o with Some x => p x | None => true end.
Definition is_some_and {A} (o : option A) (p : A -> bool) : bool := match o with Some x => p x | None => false end.

(** ** Reports and lengths *)

Record DialogGcOutcome := mkOutcome { gc_expired : list bytes; gc_evicted : list bytes }.
Definition drain_pending_report (b : DialogBroker) : DialogBroker * DialogGcOutcome :=
  (with_pending_count_evictions (with_pending_expirations b []) [], mkOutcome (pending_expirations b) (pending_count_evictions b)).

Definition queued_len (b : DialogBroker) : nat := map_fold (fun _ q n => length q + n) 0 (queued_by_origin b).
Definition is_active (s : DialogStateV1) : bool := match s with Presenting | Presented | CancelRequested => true | _ => false end.
Definition active_len (b : DialogBroker) : nat := size (filter (fun kr => is_active (state (snd kr)) = true) (records b)).
Definition terminal_len (b : DialogBroker) : nat := length (terminal_order b).

Definition record_transition (b : DialogBroker) (h : bytes) (from to : option DialogStateV1) (cause : DialogTransitionCause) : DialogBroker :=
  if (Z.of_nat (length (pending_transitions b)) <? transition_limit b)%Z
  then with_transitions b (pending_transitions b ++ [mkTransition h from to cause]) (transitions_overflowed b)
  else with_transitions b (pending_transitions b) true.

(** ** The waiting queues *)

Definition enqueue (b : DialogBroker) (origin h : bytes) : DialogBroker :=
  let queue := default [] (queued_by_origin b !! origin) in
  let b := match queue with [] => with_origin_turns b (origin_turns b ++ [origin]) | _ => b end in
  with_queued_by_origin b (<[origin := queue ++ [h]]> (queued_by_origin b)).

Fixpoint dequeue_loop (fuel : nat) (b : DialogBroker) : option (DialogBroker * option bytes) :=
  match origin_turns b with
  | [] => Some (b, None)
  | origin :: turns =>
    match fuel with
    | 0 => None
    | S fuel =>
      queue ← queued_by_origin b !! origin;
      let h := head queue in
      let queue := tail queue in
      let b := with_origin_turns b turns in
      let b :=
        match queue with
        | _ :: _ => with_origin_turns (with_queued_by_origin b (<[origin := queue]> (queued_by_origin b))) (turns ++ [origin])
        | [] => with_queued_by_origin b (delete origin (queued_by_origin b))
        end in
      match h with
      | Some h =>
        if is_some_and (records b !! h) (fun r => bool_decide (state r = Queued)) then Some (b, Some h)
        else dequeue_loop fuel b
      | None => dequeue_loop fuel b
      end
    end
  end.
Definition dequeue_fair (b : DialogBroker) : option (DialogBroker * option bytes) :=
  dequeue_loop (length (origin_turns b) + queued_len b) b.

Definition remove_from_queue (b : DialogBroker) (h : bytes) : DialogBroker :=
  match records b !! h with
  | None => b
  | Some r =>
    let origin := owner_service r in
    match queued_by_origin b !! origin with
    | None => b
    | Some queue =>
      match filter (fun candidate => candidate <> h) queue with
      | [] => with_origin_turns (with_queued_by_origin b (delete origin (queued_by_origin b)))
                (filter (fun candidate => candidate <> origin) (origin_turns b))
      | queue => with_queued_by_origin b (<[origin := queue]> (queued_by_origin b))
      end
    end
  end.

(** ** Terminal transitions and retention *)

(** The loop of [trim_terminal_count], with [order] what is left of
    [terminal_order]. *)
Fixpoint trim_loop (order : list bytes) (b : DialogBroker) : DialogBroker :=
  match order with
  | [] => with_terminal_order b []
  | h :: rest =>
    if (terminal (retention b) <? Z.of_nat (length order))%Z
    then trim_loop rest
      match records b !! h with
      | Some r =>
        let b := with_records b (delete h (records b)) in
        let b := record_transition b h (Some (state r)) None CEvict in
        with_pending_count_evictions b (pending_count_evictions b ++ [h])
      | None => b
      end
    else with_terminal_order b order
  end.
Definition trim_terminal_count (b : DialogBroker) : DialogBroker := trim_loop (terminal_order b) b.

Definition terminal_record (r : DialogRecord) (s : DialogStateV1) (v : option DialogValueV1) (now_ms : Z) : DialogRecord :=
  mkRecord (handle r) (owner_service r) (owner_token r) (request r) s (created_at_ms r) (expires_at_ms r)
    (Some now_ms) None (progress r) (cancel_requested r) (ever_presented r) (pre_display_requeues r) v.

Definition transition_terminal (b : DialogBroker) (h : bytes) (s : DialogStateV1) (v : option DialogValueV1) (now_ms : Z)
    (cause : DialogTransitionCause) : option DialogBroker :=
  if is_none_or (records b !! h) (fun r => is_terminal (state r)) then Some b
  else
    let b := remove_from_queue b h in
    r ← records b !! h;
    let b := with_records b (<[h := terminal_record r s v now_ms]> (records b)) in
    let b := with_terminal_order b (terminal_order b ++ [h]) in
    let b := if bool_decide (s = Expired) then with_pending_expirations b (pending_expirations b ++ [h]) else b in
    let b := record_transition b h (Some (state r)) (Some s) cause in
    Some (trim_terminal_count b).

Definition is_due (now_ms : Z) (r : DialogRecord) : bool :=
  negb (is_terminal (state r)) && is_some_and (expires_at_ms r) (fun deadline => deadline <=? now_ms)%Z.

Definition expire_due `{HashIter} (b : DialogBroker) (now_ms : Z) : option DialogBroker :=
  let expired := handle <$> filter (fun r => is_due now_ms r = true) (hash_values (records b)) in
  for_each (fun b h => transition_terminal b h Expired None now_ms CExpire) b expired.

Definition expire_handle_if_due (b : DialogBroker) (h : bytes) (now_ms : Z) : option (DialogBroker * bool) :=
  if is_some_and (records b !! h) (is_due now_ms)
  then b ← transition_terminal b h Expired None now_ms CExpire; Some (b, true)
  else Some (b, false).

Definition evict_one (b : DialogBroker) (h : bytes) : DialogBroker :=
  match records b !! h with
  | Some r => record_transition (with_records b (delete h (records b))) h (Some (state r)) None CEvict
  | None => b
  end.
Definition ttl_over (b : DialogBroker) (now_ms : Z) (h : bytes) : bool :=
  is_none_or (records b !! h) (fun r =>
    is_some_and (terminal_at_ms r) (fun t => terminal_ttl_ms (retention b) <=? sat_sub64 now_ms t)%Z).
Definition evict_terminal_ttl (b : DialogBroker) (now_ms : Z) : DialogBroker * list bytes :=
  let evicted := filter (fun h => ttl_over b now_ms h = true) (terminal_order b) in
  let b := foldl evict_one b evicted in
  (with_terminal_order b (filter (fun h => h ∉ evicted) (terminal_order b)), evicted).

Definition maintain `{HashIter} (b : DialogBroker) (now_ms : Z) : option DialogBroker :=
  b ← expire_due b now_ms;
  let (b, ttl_evictions) := evict_terminal_ttl b now_ms in
  Some (with_pending_count_evictions b (pending_count_evictions b ++ ttl_evictions)).

(** ** Requeueing *)

(** [created_at_ms], then the handle *)
Definition age_leb (x y : Z * bytes) : bool :=
  match Z.compare (fst x) (fst y) with
  | Lt => true | Gt => false
  | Eq => match bytes_cmp (snd x) (snd y) with Gt => false | _ => true end
  end.

(** [dedup_by]: drops an element equal to the last one kept. *)
Fixpoint dedup_after (kept : Z * bytes) (l : list (Z * bytes)) : list (Z * bytes) :=
  match l with
  | [] => []
  | x :: l => if bool_decide (snd x = snd kept) then dedup_after kept l else x :: dedup_after x l
  end.
Definition dedup_handles (l : list (Z * bytes)) : list (Z * bytes) :=
  match l with [] => [] | x :: l => x :: dedup_after x l end.

(** [min_by] keeps the first of equal ones. *)
Definition min_age (l : list (Z * bytes)) : option (Z * bytes) :=
  match l with
  | [] => None
  | x :: l => Some (foldl (fun m y => if age_leb m y then m else y) x l)
  end.
Definition oldest_queued `{HashIter} (b : DialogBroker) (origin : option bytes) : option bytes :=
  let candidates := filter (fun r => bool_decide (state r = Queued) &&
                              is_none_or origin (fun o => bool_decide (owner_service r = o)) = true) (hash_values (records b)) in
  snd <$> min_age ((fun r => (created_at_ms r, handle r)) <$> candidates).

(** The first loop of [requeue_protected]: attempts are taken back, and what was
    requeued too often before it was ever shown is put aside. *)
Definition take_back (st : DialogBroker * list (Z * bytes) * list bytes) (x : Z * bytes) :
    option (DialogBroker * list (Z * bytes) * list bytes) :=
  let '(b, eligible, quarantined) := st in
  let (created, h) := x in
  r ← records b !! h;
  let r := with_attempt r None in
  if ever_presented r then Some (with_records b (<[h := r]> (records b)), eligible ++ [(created, h)], quarantined)
  else if (MAX_DIALOG_PRE_DISPLAY_REQUEUES <=? pre_display_requeues r)%Z
  then Some (with_records b (<[h := r]> (records b)), eligible, quarantined ++ [h])
  else
    let r := mkRecord (handle r) (owner_service r) (owner_token r) (request r) (state r) (created_at_ms r) (expires_at_ms r)
               (terminal_at_ms r) (attempt r) (progress r) (cancel_requested r) (ever_presented r)
               (pre_display_requeues r + 1) (value r) in
    Some (with_records b (<[h := r]> (records b)), eligible ++ [(created, h)], quarantined).

Definition count_origin (b : DialogBroker) (m : gmap bytes nat) (h : bytes) : option (gmap bytes nat) :=
  r ← records b !! h;
  Some (<[owner_service r := S (default 0 (m !! owner_service r))]> m).

(** The three loops that fail waiting dialogs to make room. *)
Fixpoint fail_all_queued `{HashIter} (fuel : nat) (b : DialogBroker) (now_ms : Z) (cause : DialogTransitionCause) : option DialogBroker :=
  match oldest_queued b None with
  | None => Some b
  | Some h =>
    match fuel with
    | 0 => None
    | S fuel => b ← transition_terminal b h SFailed None now_ms cause; fail_all_queued fuel b now_ms cause
    end
  end.
Definition origin_queue_len (b : DialogBroker) (origin : bytes) : nat :=
  match queued_by_origin b !! origin with Some q => length q | None => 0 end.
Fixpoint fail_origin_overflow `{HashIter} (fuel : nat) (b : DialogBroker) (origin : bytes) (protected : nat) (now_ms : Z)
    (cause : DialogTransitionCause) : option DialogBroker :=
  if (per_origin (limits b) <? sat_add64 (Z.of_nat (origin_queue_len b origin)) (Z.of_nat protected))%Z
  then match fuel with
    | 0 => None
    | S fuel =>
      h ← oldest_queued b (Some origin);
      b ← transition_terminal b h SFailed None now_ms cause;
      fail_origin_overflow fuel b origin protected now_ms cause
    end
  else Some b.
Fixpoint fail_total_overflow `{HashIter} (fuel : nat) (b : DialogBroker) (protected : nat) (now_ms : Z)
    (cause : DialogTransitionCause) : option DialogBroker :=
  if (total (limits b) <? sat_add64 (Z.of_nat (queued_len b)) (Z.of_nat protected))%Z
  then match fuel with
    | 0 => None
    | S fuel =>
      h ← oldest_queued b None;
      b ← transition_terminal b h SFailed None now_ms cause;
      fail_total_overflow fuel b protected now_ms cause
    end
  else Some b.

(** One turn of the last loop: back into its queue, or failed. *)
Definition accept_one (now_ms : Z) (cause : DialogTransitionCause) (st : DialogBroker * nat * gmap bytes nat) (h : bytes) :
    option (DialogBroker * nat * gmap bytes nat) :=
  let '(b, accepted, per) := st in
  r ← records b !! h;
  let origin := owner_service r in
  let origin_count := default 0 (per !! origin) in
  if (Z.of_nat accepted <? total (limits b))%Z && (Z.of_nat origin_count <? per_origin (limits b))%Z
  then
    let b := with_records b (<[h := with_state r Queued]> (records b)) in
    let b := enqueue b origin h in
    Some (record_transition b h (Some (state r)) (Some Queued) cause, S accepted, <[origin := S origin_count]> per)
  else
    b ← transition_terminal b h SFailed None now_ms cause;
    Some (b, accepted, <[origin := origin_count]> per).

Definition make_queue_room `{HashIter} (b : DialogBroker) (handles : list bytes) (now_ms : Z) (cause : DialogTransitionCause) :
    option DialogBroker :=
  per ← for_each (count_origin b) ∅ handles;
  let fuel := size (records b) in
  if (total (limits b) <? Z.of_nat (length handles))%Z
     || existsb (fun count => per_origin (limits b) <? Z.of_nat count)%Z (hash_values per)
  then fail_all_queued fuel b now_ms cause
  else
    b ← for_each (fun b oc => fail_origin_overflow fuel b (fst oc) (snd oc) now_ms cause) b (hash_iter per);
    fail_total_overflow fuel b (length handles) now_ms cause.

Definition requeue_protected `{HashIter} (b : DialogBroker) (handles : list bytes) (now_ms : Z) (cause : DialogTransitionCause) :
    option DialogBroker :=
  let aged := omap (fun h => r ← records b !! h; if is_terminal (state r) then None else Some (created_at_ms r, h)) handles in
  let aged := dedup_handles (stable_sort age_leb aged) in
  st ← for_each take_back (b, [], []) aged;
  let '(b, eligible, quarantined) := st in
  b ← for_each (fun b h => transition_terminal b h SFailed None now_ms CQuarantine) b quarantined;
  let handles := snd <$> eligible in
  b ← make_queue_room b handles now_ms cause;
  st ← for_each (accept_one now_ms cause) (b, 0, ∅) handles;
  Some (fst (fst st)).

Definition requeue_generation `{HashIter} (b : DialogBroker) (g : Z) (now_ms : Z) (cause : DialogTransitionCause) : option DialogBroker :=
  let handles := handle <$> filter (fun r => negb (is_terminal (state r)) &&
                   is_some_and (attempt r) (fun a => bool_decide (at_generation a = g)) = true) (hash_values (records b)) in
  requeue_protected b handles now_ms cause.

(** ** Checks and counters *)

Definition check_lease (b : DialogBroker) (candidate : PresenterLease) : result unit DialogBrokerError :=
  match presenter b with
  | None => Err NoPresenter
  | Some current =>
    if negb (bool_decide (lease_epoch candidate = instance_epoch b)) || negb (bool_decide (current = candidate))
    then Err StaleLease else Ok tt
  end.
Definition check_owner (b : DialogBroker) (svc token h : bytes) : result unit DialogBrokerError :=
  let? r := ok_or (records b !! h) NotFound in
  let token_matches := bool_decide (owner_token r = token) in
  if negb (bool_decide (owner_service r = svc)) || negb token_matches then Err WrongOwner else Ok tt.
Definition check_current_attempt (b : DialogBroker) (h : bytes) (g token : Z) : result unit DialogBrokerError :=
  let? r := ok_or (records b !! h) NotFound in
  if is_some_and (attempt r) (fun a => bool_decide (at_generation a = g) && bool_decide (at_token a = token))
  then Ok tt else Err StaleAttempt.

Definition checked_succ64 (n : Z) : option Z := if (n <? U64_MAX)%Z then Some (n + 1)%Z else None.
Definition mint_presenter_generation (b : DialogBroker) : DialogBroker * result Z DialogBrokerError :=
  match checked_succ64 (next_presenter_generation b) with
  | Some n => (with_next_presenter_generation b n, Ok (next_presenter_generation b))
  | None => (b, Err CounterExhausted)
  end.
Definition mint_attempt_token (b : DialogBroker) : DialogBroker * result Z DialogBrokerError :=
  match checked_succ64 (next_attempt_token b) with
  | Some n => (with_next_attempt_token b n, Ok (next_attempt_token b))
  | None => (b, Err CounterExhausted)
  end.

Definition initial_progress (r : DialogRequestV1) : option DialogProgressSnapshot :=
  match r with RProgress common progress _ => Some (mkProgress (message common) progress) | _ => None end.

(** ** The operations *)

(** A reply: the broker after the call and what the call returns. *)
Abbreviation reply A := (option (DialogBroker * result A DialogBrokerError)).
(** [m?]: the call returns where [m] is an error. *)
Definition or_return {A B} (b : DialogBroker) (m : result A DialogBrokerError) (k : A -> reply B) : reply B :=
  match m with Ok x => k x | Err e => Some (b, Err e) end.
Notation "'let!' x := m 'on' b 'in' k" := (or_return b m (fun x => k)) (at level 10, x name, m at level 100, b at level 100, k at level 200).

Record DialogOpenResponse := mkOpened { op_handle : bytes; op_token : bytes; op_state : DialogStateV1 }.

Definition open `{HashIter} (b : DialogBroker) (svc token : bytes) (req : DialogOpenRequestV1) (now_ms : Z) (fresh : bytes) :
    reply DialogOpenResponse :=
  let b := fst (drain_pending_report b) in
  let! _ := map_err EInvalid (open_validate req) on b in
  b ← maintain b now_ms;
  if bool_decide (is_Some (records b !! fresh)) then Some (b, Err DuplicateHandle)
  else if (total (limits b) <=? Z.of_nat (queued_len b))%Z then Some (b, Err (QueueFull (total (limits b))))
  else if (per_origin (limits b) <=? Z.of_nat (origin_queue_len b svc))%Z
  then Some (b, Err (OriginQueueFull (per_origin (limits b))))
  else
    let (l, granted) := try_consume (rate_limiter b) svc now_ms in
    let b := with_rate_limiter b l in
    if negb granted then Some (b, Err RateLimited)
    else
      let expires_at := (fun d => sat_add64 now_ms d) <$> deadline_ms req in
      let r := mkRecord fresh svc token req Queued now_ms expires_at None None (initial_progress (dialog req)) false false 0 None in
      let b := with_records b (<[fresh := r]> (records b)) in
      let b := enqueue b svc fresh in
      let b := record_transition b fresh None (Some Queued) COpen in
      Some (b, Ok (mkOpened fresh token Queued)).

Definition register_presenter `{HashIter} (b : DialogBroker) (svc : bytes) (now_ms : Z) : reply PresenterLease :=
  let b := fst (drain_pending_report b) in
  b ← maintain b now_ms;
  let (b, minted) := mint_presenter_generation b in
  let! g := minted on b in
  let lease := mkLease svc g (instance_epoch b) in
  b ← match presenter b with
      | Some current => requeue_generation b (generation current) now_ms CReplace
      | None => Some b
      end;
  Some (with_presenter b (Some lease), Ok lease).

Definition release_presenter `{HashIter} (b : DialogBroker) (lease : PresenterLease) (now_ms : Z) : reply unit :=
  let b := fst (drain_pending_report b) in
  let! _ := check_lease b lease on b in
  b ← maintain b now_ms;
  b ← requeue_generation b (generation lease) now_ms CRelease;
  Some (with_presenter b None, Ok tt).

Definition next_presentation `{HashIter} (b : DialogBroker) (lease : PresenterLease) (now_ms : Z) : reply (option DialogPresentation) :=
  let b := fst (drain_pending_report b) in
  let! _ := check_lease b lease on b in
  b ← maintain b now_ms;
  if (active (retention b) <=? Z.of_nat (active_len b))%Z then Some (b, Ok None)
  else
    d ← dequeue_fair b;
    match d with
    | (b, None) => Some (b, Ok None)
    | (b, Some h) =>
      let (b, minted) := mint_attempt_token b in
      let! token := minted on b in
      r ← records b !! h;
      let r := with_attempt (with_state r Presenting) (Some (mkAttempt (generation lease) token)) in
      let b := with_records b (<[h := r]> (records b)) in
      let b := record_transition b h (Some Queued) (Some Presenting) CPresent in
      Some (b, Ok (Some (mkPresentation h token (request r) (progress r) (cancel_requested r))))
    end.

(** The prologue of the presenter's calls on one dialog. *)
Definition presenter_call {A} (b : DialogBroker) (lease : PresenterLease) (h : bytes) (token now_ms : Z)
    (k : DialogBroker -> DialogRecord -> reply A) : reply A :=
  let b := fst (drain_pending_report b) in
  let! _ := check_lease b lease on b in
  let! _ := check_current_attempt b h (generation lease) token on b in
  e ← expire_handle_if_due b h now_ms;
  let (b, expired) := (e : DialogBroker * bool) in
  if expired then Some (b, Err EExpired) else r ← records b !! h; k b r.

(** The prologue of the owner's calls on one dialog. *)
Definition owner_call {A} (b : DialogBroker) (svc token h : bytes) (now_ms : Z)
    (k : DialogBroker -> DialogRecord -> reply A) : reply A :=
  let b := fst (drain_pending_report b) in
  let! _ := check_owner b svc token h on b in
  e ← expire_handle_if_due b h now_ms;
  let (b, expired) := (e : DialogBroker * bool) in
  if expired then Some (b, Err EExpired) else r ← records b !! h; k b r.

Definition wrong_state (s : DialogStateV1) : DialogBrokerError := if is_terminal s then AlreadyTerminal else InvalidState s.

Definition mark_presented (b : DialogBroker) (lease : PresenterLease) (h : bytes) (token now_ms : Z) : reply unit :=
  presenter_call b lease h token now_ms (fun b r =>
    if negb (bool_decide (state r = Presenting)) then Some (b, Err (wrong_state (state r)))
    else
      let new_state := if cancel_requested r then CancelRequested else Presented in
      let r := mkRecord (handle r) (owner_service r) (owner_token r) (request r) new_state (created_at_ms r) (expires_at_ms r)
                 (terminal_at_ms r) (attempt r) (progress r) (cancel_requested r) true (pre_display_requeues r) (value r) in
      let b := with_records b (<[h := r]> (records b)) in
      Some (record_transition b h (Some Presenting) (Some new_state) CMarkPresented, Ok tt)).

(** Why a presenter's answer is refused, if it is. *)
Definition rejection (lease : PresenterLease) (r : DialogRecord) (v : DialogValueV1) : option DialogBrokerError :=
  if bool_decide (owner_service r = service lease) then Some OwnerCannotResolve
  else if is_terminal (state r) then Some AlreadyTerminal
  else if negb (bool_decide (state r = Presented) || bool_decide (state r = CancelRequested)) then Some (InvalidState (state r))
  else match dialog (request r) with
  | RProgress _ _ _ => Some ProgressPresenterResolution
  | d => match validate_for v d with Err e => Some (EInvalid e) | Ok _ => None end
  end.

Definition resolve `{HashIter} (b : DialogBroker) (lease : PresenterLease) (h : bytes) (token : Z) (v : DialogValueV1) (now_ms : Z) :
    reply unit :=
  presenter_call b lease h token now_ms (fun b r =>
    let b := with_records b (<[h := with_attempt r None]> (records b)) in
    match rejection lease r v with
    | Some error => b ← requeue_protected b [h] now_ms CResolve; Some (b, Err error)
    | None => b ← transition_terminal b h Resolved (Some v) now_ms CResolve; Some (b, Ok tt)
    end).

Definition resolve_as_owner (b : DialogBroker) (svc token h : bytes) : result unit DialogBrokerError :=
  let? _ := check_owner b svc token h in Err OwnerCannotResolve.

Definition fail_presentation (b : DialogBroker) (lease : PresenterLease) (h : bytes) (token now_ms : Z) : reply unit :=
  presenter_call b lease h token now_ms (fun b r =>
    let b := with_records b (<[h := with_attempt r None]> (records b)) in
    if is_terminal (state r) then Some (b, Err AlreadyTerminal)
    else b ← transition_terminal b h SFailed None now_ms CFail; Some (b, Ok tt)).

Definition cancel (b : DialogBroker) (svc token h : bytes) (now_ms : Z) : reply unit :=
  owner_call b svc token h now_ms (fun b r =>
    if is_terminal (state r) then Some (b, Err AlreadyTerminal)
    else b ← transition_terminal b h Cancelled None now_ms CCancel; Some (b, Ok tt)).

Definition request_progress_cancel (b : DialogBroker) (lease : PresenterLease) (h : bytes) (token now_ms : Z) : reply unit :=
  presenter_call b lease h token now_ms (fun b r =>
    match dialog (request r) with
    | RProgress _ _ cancellable =>
      if negb cancellable then Some (b, Err NotCancellable)
      else if bool_decide (state r = CancelRequested) then Some (b, Ok tt)
      else if negb (bool_decide (state r = Presented)) then Some (b, Err (wrong_state (state r)))
      else
        let r := mkRecord (handle r) (owner_service r) (owner_token r) (request r) CancelRequested (created_at_ms r) (expires_at_ms r)
                   (terminal_at_ms r) (attempt r) (progress r) true (ever_presented r) (pre_display_requeues r) (value r) in
        let b := with_records b (<[h := r]> (records b)) in
        Some (record_transition b h (Some Presented) (Some CancelRequested) CProgressCancel, Ok tt)
    | _ => Some (b, Err NotProgress)
    end).

Definition update_progress (b : DialogBroker) (svc token h : bytes) (patch : DialogProgressPatchV1) (now_ms : Z) : reply unit :=
  owner_call b svc token h now_ms (fun b r =>
    let! _ := map_err EInvalid (patch_validate patch) on b in
    if is_terminal (state r) then Some (b, Err AlreadyTerminal)
    else match progress r with
    | None => Some (b, Err NotProgress)
    | Some p =>
      let message_changed := is_some_and (patch_message patch) (fun m => negb (bool_decide (ps_message p = Some m))) in
      let value_changed := is_some_and (patch_progress patch) (fun v => negb (bool_decide (ps_progress p = v))) in
      if negb message_changed && negb value_changed then Some (b, Ok tt)
      else
        let p := mkProgress (match patch_message patch with Some m => Some m | None => ps_message p end)
                   (default (ps_progress p) (patch_progress patch)) in
        let r := mkRecord (handle r) (owner_service r) (owner_token r) (request r) (state r) (created_at_ms r) (expires_at_ms r)
                   (terminal_at_ms r) (attempt r) (Some p) (cancel_requested r) (ever_presented r) (pre_display_requeues r) (value r) in
        let b := with_records b (<[h := r]> (records b)) in
        Some (record_transition b h (Some (state r)) (Some (state r)) CProgressUpdate, Ok tt)
    end).

Definition complete_progress (b : DialogBroker) (svc token h : bytes) (completion : DialogProgressCompletionV1) (now_ms : Z) : reply unit :=
  owner_call b svc token h now_ms (fun b r =>
    let! _ := map_err EInvalid (completion_validate completion) on b in
    if is_terminal (state r) then Some (b, Err AlreadyTerminal)
    else match progress r with
    | None => Some (b, Err NotProgress)
    | Some _ => b ← transition_terminal b h Resolved (Some (VProgress completion)) now_ms CProgressComplete; Some (b, Ok tt)
    end).

Record DialogResultResponseV1 := mkResult { rs_handle : bytes; rs_state : DialogStateV1; rs_value : option DialogValueV1 }.
Definition broker_result (b : DialogBroker) (svc token h : bytes) : option (result DialogResultResponseV1 DialogBrokerError) :=
  match check_owner b svc token h with
  | Err e => Some (Err e)
  | Ok _ => r ← records b !! h; Some (Ok (mkResult h (state r) (value r)))
  end.

(** Insertion of handles in [as_str] order *)
Definition handle_leb (x y : bytes) : bool := match bytes_cmp x y with Gt => false | _ => true end.
Definition withdraw_owner `{HashIter} (b : DialogBroker) (svc : bytes) (now_ms : Z) : option (DialogBroker * list bytes) :=
  let b := fst (drain_pending_report b) in
  b ← maintain b now_ms;
  let live := filter (fun r => bool_decide (owner_service r = svc) && negb (is_terminal (state r)) = true) (hash_values (records b)) in
  let handles := stable_sort handle_leb (handle <$> live) in
  b ← for_each (fun b h => transition_terminal b h SFailed None now_ms CWithdraw) b handles;
  Some (b, handles).

Definition expire `{HashIter} (b : DialogBroker) (now_ms : Z) : option (DialogBroker * list bytes) :=
  let b := fst (drain_pending_report b) in
  b ← expire_due b now_ms;
  Some (with_pending_expirations b [], pending_expirations b).

Definition gc `{HashIter} (b : DialogBroker) (now_ms : Z) : option (DialogBroker * DialogGcOutcome) :=
  b ← maintain b now_ms; Some (drain_pending_report b).

Record DialogTransitionBatch := mkBatch { transitions : list DialogTransition; overflowed : bool }.
Definition drain_transitions (b : DialogBroker) : DialogBroker * DialogTransitionBatch :=
  (with_transitions b [] false, mkBatch (pending_transitions b) (transitions_overflowed b)).

(** [Iterator::min] on times *)
Definition min_time (l : list Z) : option Z :=
  match l with [] => None | x :: l => Some (foldl Z.min x l) end.
Definition next_maintenance_at_ms `{HashIter} (b : DialogBroker) : option Z :=
  let all := hash_values (records b) in
  let next_expiry := min_time (omap expires_at_ms (filter (fun r => is_terminal (state r) = false) all)) in
  let next_eviction := min_time (omap (fun r =>
      at_ms ← terminal_at_ms r;
      if (at_ms + terminal_ttl_ms (retention b) <=? U64_MAX)%Z then Some (at_ms + terminal_ttl_ms (retention b))%Z else None)
    (filter (fun r => is_terminal (state r) = true) all)) in
  match next_expiry, next_eviction with
  | Some expiry, Some eviction => Some (Z.min expiry eviction)
  | Some expiry, None => Some expiry
  | None, o => o
  end.

Record DialogSnapshot := mkSnapshot {
  sn_handle : bytes; sn_owner_service : bytes; sn_request : DialogOpenRequestV1; sn_state : DialogStateV1;
  sn_created_at_ms : Z; sn_expires_at_ms : option Z; sn_terminal_at_ms : option Z;
  sn_progress : option DialogProgressSnapshot; sn_cancel_requested : bool; sn_value : option DialogValueV1 }.
Definition snapshot_from_record (r : DialogRecord) : DialogSnapshot :=
  mkSnapshot (handle r) (owner_service r) (request r) (state r) (created_at_ms r) (expires_at_ms r) (terminal_at_ms r)
    (progress r) (cancel_requested r) (value r).
Definition broker_snapshot (b : DialogBroker) (h : bytes) : option DialogSnapshot := snapshot_from_record <$> records b !! h.

(** ** The broker as a machine *)

Inductive Op :=
| OOpen (svc token : bytes) (req : DialogOpenRequestV1) (now : Z) (fresh : bytes)
| ORegister (svc : bytes) (now : Z)
| ORelease (lease : PresenterLease) (now : Z)
| ONext (lease : PresenterLease) (now : Z)
| OMark (lease : PresenterLease) (h : bytes) (token now : Z)
| OResolve (lease : PresenterLease) (h : bytes) (token : Z) (v : DialogValueV1) (now : Z)
| OFail (lease : PresenterLease) (h : bytes) (token now : Z)
| OCancel (svc token h : bytes) (now : Z)
| OProgressCancel (lease : PresenterLease) (h : bytes) (token now : Z)
| OUpdate (svc token h : bytes) (patch : DialogProgressPatchV1) (now : Z)
| OComplete (svc token h : bytes) (completion : DialogProgressCompletionV1) (now : Z)
| OWithdraw (svc : bytes) (now : Z)
| OExpire (now : Z)
| OGc (now : Z)
| ODrain.

(** The broker after one call, whatever it replies. *)
Definition apply_op `{HashIter} (b : DialogBroker) (op : Op) : option DialogBroker :=
  match op with
  | OOpen svc token req now fresh => fst <$> open b svc token req now fresh
  | ORegister svc now => fst <$> register_presenter b svc now
  | ORelease lease now => fst <$> release_presenter b lease now
  | ONext lease now => fst <$> next_presentation b lease now
  | OMark lease h token now => fst <$> mark_presented b lease h token now
  | OResolve lease h token v now => fst <$> resolve b lease h token v now
  | OFail lease h token now => fst <$> fail_presentation b lease h token now
  | OCancel svc token h now => fst <$> cancel b svc token h now
  | OProgressCancel lease h token now => fst <$> request_progress_cancel b lease h token now
  | OUpdate svc token h patch now => fst <$> update_progress b svc token h patch now
  | OComplete svc token h completion now => fst <$> complete_progress b svc token h completion now
  | OWithdraw svc now => fst <$> withdraw_owner b svc now
  | OExpire now => fst <$> expire b now
  | OGc now => fst <$> gc b now
  | ODrain => Some (fst (drain_transitions b))
  end.

(** One call, in any iteration order of the maps. *)
Inductive op_step : DialogBroker -> DialogBroker -> Prop :=
| op_step_intro (HI : HashIter) b op b' : apply_op b op = Some b' -> op_step b b'.

(** ** A run, and one iteration order *)

Fixpoint run_ops `{HashIter} (b : DialogBroker) (ops : list Op) : option DialogBroker :=
  match ops with [] => Some b | op :: ops => b' ← apply_op b op; run_ops b' ops end.

Definition key_order : HashIter := {| hash_iter V (m : gmap bytes V) := map_to_list m; hash_iter_perm V m := reflexivity (map_to_list m) |}.

Lemma run_ops_reach `{HashIter} ops : forall b b', run_ops b ops = Some b' -> rtc op_step b b'.
Proof.
  induction ops as [|op ops IH]; intros b b'; cbn [run_ops]; [intros [= ->]; reflexivity|]. intros (b1 & H1 & H2)%bind_Some.
  eapply rtc_l; [by econstructor|by apply IH].
Qed.

(** Two services open a dialog each, a presenter shows and answers the first. *)
Definition sample_start : DialogBroker :=
  with_instance_epoch (new_with_retention (RateLimiter_new DEFAULT_RATE) default_limits default_retention) 7.
Definition sample_request : DialogOpenRequestV1 := mkOpen (RMessage (mkCommon (bs "Saved") None SevInfo) None) (Some 300000%Z).
Definition sample_lease : PresenterLease := mkLease (bs "ctkd") 1 7.
Definition sample_ops : list Op := [
  OOpen (bs "mail") (bs "secret") sample_request 10 (bs "d-1"); OOpen (bs "news") (bs "hidden") sample_request 11 (bs "d-2");
  ORegister (bs "ctkd") 12; ONext sample_lease 13; OMark sample_lease (bs "d-1") 1 14; OResolve sample_lease (bs "d-1") 1 VMessage 15].
Definition sample_at (n : nat) : DialogBroker :=
  default sample_start (run_ops (H := key_order) sample_start (take n sample_ops)).
