(* ===== verification/DialogInv.v ===== *)
(** * What the dialog broker keeps true ([cosmix-interaction-broker/src/dialog.rs])

    The invariant of [DialogBroker] and, for each helper that changes the state, that
    it keeps the invariant, does not panic and ends.  While attempts are being taken
    back a list of handles is in limbo: active without an attempt, in no queue. *)

From S2P Require Import Prelude Utf8 Str BTree DialogSchema RateLimit Dialog.

(** ** The waiting queues *)

Definition qsum (m : gmap bytes (list bytes)) : nat := map_fold (fun _ q n => length q + n) 0 m.

Lemma qsum_new m o q : m !! o = None -> qsum (<[o := q]> m) = length q + qsum m.
Proof. intros Ho. unfold qsum. rewrite map_fold_insert_L; [done| |done]. intros. lia. Qed.

Lemma qsum_delete m o q : m !! o = Some q -> qsum m = length q + qsum (delete o m).
Proof. intros Ho. rewrite <- (insert_delete_id m o q) at 1 by done. by apply qsum_new, lookup_delete_eq. Qed.

Lemma qsum_insert m o q q' : m !! o = Some q -> qsum (<[o := q']> m) + length q = length q' + qsum m.
Proof. intros Ho. rewrite <- insert_delete_eq, qsum_new by apply lookup_delete_eq. rewrite (qsum_delete m o q Ho). lia. Qed.

Lemma qsum_size m : (forall o q, m !! o = Some q -> q <> []) -> size m <= qsum m.
Proof.
  induction m as [|o q m Ho IH] using map_ind; [intros _; cbn; done|]. intros Hne.
  rewrite map_size_insert_None, qsum_new by done.
  assert (size m <= qsum m).
  { apply IH. intros o' q' Hq'. apply (Hne o'). rewrite lookup_insert_ne by congruence. done. }
  specialize (Hne o q (lookup_insert_eq _ _ _)). destruct q; [done|]. cbn. lia.
Qed.

(** A handle waits for an origin. *)
Definition queued_at (recs : gmap bytes DialogRecord) (h o : bytes) : Prop :=
  exists r, recs !! h = Some r /\ state r = Queued /\ owner_service r = o.

(** The queues hold exactly the handles that wait, by origin, within the limits;
    each origin with a queue has one turn.  Once the attempt counter is used up a
    waiting handle may have no queue: [full] is false then. *)
Record queues_ok (lim : DialogQueueLimits) (full : Prop) (Q : bytes -> bytes -> Prop)
    (m : gmap bytes (list bytes)) (turns : list bytes) : Prop := mkQueues {
  q_live : forall o q h, m !! o = Some q -> h ∈ q -> Q h o;
  q_shape : forall o q, m !! o = Some q -> q <> [] /\ NoDup q /\ (Z.of_nat (length q) <= per_origin lim)%Z;
  q_nodup : NoDup turns;
  q_turns : forall o, o ∈ turns <-> is_Some (m !! o);
  q_total : (Z.of_nat (qsum m) <= total lim)%Z;
  q_all : full -> forall h o, Q h o -> exists q, m !! o = Some q /\ h ∈ q }.

Lemma queues_ok_ext lim (full full' : Prop) (Q Q' : bytes -> bytes -> Prop) m turns :
  (forall h o, Q h o <-> Q' h o) -> (full' -> full) -> queues_ok lim full Q m turns -> queues_ok lim full' Q' m turns.
Proof. intros HQ Hf [H1 H2 H3 H4 H5 H6]. split; [|done|done|done|done|]; intros; [apply HQ|apply H6; [|apply HQ]]; eauto. Qed.

(** How many turns of the presenter a handle waits for, at most: [n] bounds the
    number of origins. *)
Definition waits (n : nat) (m : gmap bytes (list bytes)) (turns : list bytes) (h : bytes) (w : nat) : Prop :=
  exists o q i p, m !! o = Some q /\ q !! i = Some h /\ turns !! p = Some o /\ w = i * n + p.

Lemma filter_index {A} (P : A -> Prop) `{!forall x, Decision (P x)} (l : list A) i x :
  filter P l !! i = Some x -> exists j, i <= j /\ l !! j = Some x.
Proof.
  revert i. induction l as [|y l IH]; intros i; [done|]. rewrite filter_cons. destruct (decide (P y)).
  - destruct i as [|i]; cbn [lookup list_lookup]; [intros [= ->]; by exists 0|]. intros Hi. destruct (IH _ Hi) as (j & Hj & Hx). exists (S j). split; [lia|done].
  - intros Hi. destruct (IH _ Hi) as (j & Hj & Hx). exists (S j). split; [lia|done].
Qed.

(** *** Removal *)

Lemma remove_shape b h :
  exists m turns, remove_from_queue b h = with_origin_turns (with_queued_by_origin b m) turns.
Proof.
  assert (exists m turns, b = with_origin_turns (with_queued_by_origin b m) turns) as Hb.
  { exists (queued_by_origin b), (origin_turns b). by destruct b. }
  unfold remove_from_queue. destruct (records b !! h) as [r|]; [|exact Hb].
  destruct (queued_by_origin b !! owner_service r) as [q|]; [|exact Hb].
  destruct (filter _ q); by eexists _, _.
Qed.

Lemma remove_lens b h : queued_len (remove_from_queue b h) <= queued_len b /\
  forall o, origin_queue_len (remove_from_queue b h) o <= origin_queue_len b o.
Proof.
  unfold remove_from_queue. destruct (records b !! h) as [r|]; [|done]. destruct (queued_by_origin b !! owner_service r) as [q|] eqn:Hq; [|done].
  pose proof (length_filter (fun c => c <> h) q) as Hle. destruct (filter _ q) as [|x q'].
  - change (queued_len b) with (qsum (queued_by_origin b)). cbn [with_origin_turns with_queued_by_origin].
    match goal with |- queued_len ?b' <= _ /\ _ => change (queued_len b') with (qsum (queued_by_origin b')) end.
    unfold origin_queue_len. cbn [queued_by_origin with_origin_turns with_queued_by_origin]. split; [rewrite (qsum_delete _ _ _ Hq); lia|].
    intros o. destruct (decide (o = owner_service r)) as [->|]; [rewrite lookup_delete_eq; lia|by rewrite lookup_delete_ne].
  - change (queued_len b) with (qsum (queued_by_origin b)).
    match goal with |- queued_len ?b' <= _ /\ _ => change (queued_len b') with (qsum (queued_by_origin b')) end.
    unfold origin_queue_len. cbn [queued_by_origin with_origin_turns with_queued_by_origin]. split.
    + pose proof (qsum_insert _ _ _ (x :: q') Hq). lia.
    + intros o. destruct (decide (o = owner_service r)) as [->|]; [rewrite lookup_insert_eq, Hq; done|by rewrite lookup_insert_ne].
Qed.

Lemma remove_queues b h r lim full (Q : bytes -> bytes -> Prop) :
  records b !! h = Some r -> (forall o, Q h o -> o = owner_service r) ->
  queues_ok lim full Q (queued_by_origin b) (origin_turns b) ->
  queues_ok lim full (fun g o => g <> h /\ Q g o) (queued_by_origin (remove_from_queue b h)) (origin_turns (remove_from_queue b h)) /\
  (forall n g w, waits n (queued_by_origin (remove_from_queue b h)) (origin_turns (remove_from_queue b h)) g w ->
     exists w', w <= w' /\ waits n (queued_by_origin b) (origin_turns b) g w').
Proof.
  intros Hr HQ [H1 H2 H3 H4 H5 H6]. unfold remove_from_queue. rewrite Hr. set (o := owner_service r) in *.
  destruct (queued_by_origin b !! o) as [q|] eqn:Hq.
  2: { split; [|intros n g w Hw; by exists w]. split; try done.
       - intros o' q' g Hq' Hg. split; [|by eapply H1]. intros ->. rewrite (HQ _ (H1 _ _ _ Hq' Hg)) in Hq'. by rewrite Hq in Hq'.
       - intros Hf g o' [_ Hg]. by apply H6. }
  destruct (H2 _ _ Hq) as (Hne & Hnd & Hlen).
  assert (forall g, g ∈ filter (fun c => c <> h) q <-> g <> h /\ g ∈ q) as Hin by (intros g; by rewrite list_elem_of_filter).
  assert (forall o' q' g, o' <> o -> queued_by_origin b !! o' = Some q' -> g ∈ q' -> g <> h) as Hother.
  { intros o' q' g Hne' Hq' Hg ->. apply Hne'. by apply HQ, (H1 _ _ _ Hq'). }
  pose proof (length_filter (fun c => c <> h) q) as Hle.
  destruct (filter (fun c => c <> h) q) as [|x q'] eqn:Ef; cbn [queued_by_origin origin_turns with_origin_turns with_queued_by_origin].
  - split; [split|].
    + intros o' q0 g. rewrite lookup_delete_Some. intros [Hne' Hq'] Hg. split; [by eapply Hother|by eapply H1].
    + intros o' q0. rewrite lookup_delete_Some. intros [_ ?]. by eapply H2.
    + by apply NoDup_filter.
    + intros o'. rewrite list_elem_of_filter, H4. destruct (decide (o' = o)) as [->|Hne'].
      * rewrite lookup_delete_eq. split; [by intros []|by intros []].
      * rewrite lookup_delete_ne by done. tauto.
    + rewrite (qsum_delete _ _ _ Hq) in H5. lia.
    + intros Hf g o' [Hg Hgo]. destruct (H6 Hf g o' Hgo) as (q0 & Hq0 & Hgq). exists q0. split; [|done].
      rewrite lookup_delete_ne; [done|]. intros <-. rewrite Hq in Hq0. injection Hq0 as <-.
      assert (g ∈ @nil bytes) as []%elem_of_nil by (rewrite Hin; done).
    + intros n g w (o' & q0 & i & p & Hq0 & Hi & Hp & ->). apply lookup_delete_Some in Hq0 as [_ Hq0].
      apply filter_index in Hp as (p' & Hp' & Hp). exists (i * n + p'). split; [lia|]. by exists o', q0, i, p'.
  - split; [split|].
    + intros o' q0 g. rewrite lookup_insert_Some. intros [[<- <-]|[Hne' Hq']] Hg.
      * apply Hin in Hg as [Hg1 Hg2]. split; [done|by eapply H1].
      * split; [by eapply Hother|by eapply H1].
    + intros o' q0. rewrite lookup_insert_Some. intros [[<- <-]|[_ ?]]; [|by eapply H2].
      split; [done|]. split; [rewrite <- Ef; by apply NoDup_filter|lia].
    + done.
    + intros o'. rewrite H4. destruct (decide (o' = o)) as [->|Hne']; [|by rewrite lookup_insert_ne].
      rewrite lookup_insert_eq, Hq. split; by eexists.
    + pose proof (qsum_insert _ _ _ (x :: q') Hq). lia.
    + intros Hf g o' [Hg Hgo]. destruct (H6 Hf g o' Hgo) as (q0 & Hq0 & Hgq). destruct (decide (o' = o)) as [->|Hne'].
      * rewrite lookup_insert_eq. eexists. split; [done|]. apply Hin. rewrite Hq in Hq0. by injection Hq0 as ->.
      * rewrite lookup_insert_ne by done. by exists q0.
    + intros n g w (o' & q0 & i & p & Hq0 & Hi & Hp & ->). rewrite lookup_insert_Some in Hq0.
      destruct Hq0 as [[<- <-]|[Hne' Hq0]]; [|exists (i * n + p); split; [lia|]; by exists o', q0, i, p].
      rewrite <- Ef in Hi. apply filter_index in Hi as (j & Hj & Hi). exists (j * n + p). split; [nia|]. by exists o, q, j, p.
Qed.

(** *** Insertion *)

Lemma enqueue_shape b o h : exists m turns, enqueue b o h = with_origin_turns (with_queued_by_origin b m) turns.
Proof. unfold enqueue. destruct (default [] _); by eexists _, _. Qed.

Lemma enqueue_queues b o h lim full (Q : bytes -> bytes -> Prop) :
  (forall o', ~ Q h o') -> (Z.of_nat (queued_len b) < total lim)%Z -> (Z.of_nat (origin_queue_len b o) < per_origin lim)%Z ->
  queues_ok lim full Q (queued_by_origin b) (origin_turns b) ->
  queues_ok lim full (fun g o' => (g = h /\ o' = o) \/ Q g o') (queued_by_origin (enqueue b o h)) (origin_turns (enqueue b o h)) /\
  (forall n g w, g <> h -> waits n (queued_by_origin (enqueue b o h)) (origin_turns (enqueue b o h)) g w ->
     waits n (queued_by_origin b) (origin_turns b) g w).
Proof.
  intros HQ Htot Hper [H1 H2 H3 H4 H5 H6]. unfold enqueue. change (queued_len b) with (qsum (queued_by_origin b)) in Htot.
  unfold origin_queue_len in Hper.
  destruct (queued_by_origin b !! o) as [q|] eqn:Hq; cbn [default from_option id].
  - destruct (H2 _ _ Hq) as (Hne & Hnd & Hlen). destruct q as [|x q]; [done|]. set (q0 := x :: q) in *.
    cbn [queued_by_origin origin_turns with_origin_turns with_queued_by_origin].
    assert (h ∉ q0) as Hh by (intros Hin; by apply (HQ o), (H1 _ q0)).
    split; [split|].
    + intros o' q' g. rewrite lookup_insert_Some. intros [[<- <-]|[Hne' Hq']] Hg; [|right; by eapply H1].
      apply elem_of_app in Hg as [Hg|Hg%list_elem_of_singleton]; [right; by eapply H1|subst; by left].
    + intros o' q'. rewrite lookup_insert_Some. intros [[<- <-]|[_ ?]]; [|by eapply H2]. split; [done|].
      split; [|rewrite length_app; cbn in *; lia].
      apply NoDup_app. split; [done|]. split; [intros y Hy E%list_elem_of_singleton; by subst|apply NoDup_singleton].
    + done.
    + intros o'. rewrite H4. destruct (decide (o' = o)) as [->|]; [|by rewrite lookup_insert_ne].
      rewrite lookup_insert_eq, Hq. split; by eexists.
    + pose proof (qsum_insert _ _ _ (q0 ++ [h]) Hq) as Hs. rewrite length_app in Hs. cbn [length] in Hs. lia.
    + intros Hf g o' [[-> ->]|Hg].
      * rewrite lookup_insert_eq. eexists. split; [done|]. rewrite elem_of_app, list_elem_of_singleton. by right.
      * destruct (H6 Hf _ _ Hg) as (q1 & Hq1 & Hin). destruct (decide (o' = o)) as [->|]; [|rewrite lookup_insert_ne by done; by exists q1].
        rewrite lookup_insert_eq. eexists. split; [done|]. rewrite Hq in Hq1. injection Hq1 as <-. apply elem_of_app. by left.
    + intros n g w Hg (o' & q' & i & p & Hq' & Hi & Hp & ->). rewrite lookup_insert_Some in Hq'.
      destruct Hq' as [[<- <-]|[_ Hq']]; [|by exists o', q', i, p].
      apply lookup_app_Some in Hi as [Hi|[_ [_ ->]%list_lookup_singleton_Some]]; [by exists o, q0, i, p|done].
  - cbn [queued_by_origin origin_turns with_origin_turns with_queued_by_origin app].
    assert (o ∉ origin_turns b) as Ho by (rewrite H4, Hq; by intros []).
    split; [split|].
    + intros o' q' g. rewrite lookup_insert_Some. intros [[<- <-]|[Hne' Hq']] Hg; [|right; by eapply H1].
      apply list_elem_of_singleton in Hg as ->. by left.
    + intros o' q'. rewrite lookup_insert_Some. intros [[<- <-]|[_ ?]]; [|by eapply H2]. split; [done|].
      split; [apply NoDup_singleton|cbn in *; lia].
    + apply NoDup_app. split; [done|]. split; [intros y Hy E%list_elem_of_singleton; by subst|apply NoDup_singleton].
    + intros o'. rewrite elem_of_app, list_elem_of_singleton, H4. destruct (decide (o' = o)) as [->|].
      * rewrite lookup_insert_eq. split; [by eexists|by right].
      * rewrite lookup_insert_ne by done. naive_solver.
    + rewrite qsum_new by done. cbn [length]. lia.
    + intros Hf g o' [[-> ->]|Hg].
      * rewrite lookup_insert_eq. eexists. split; [done|]. by apply list_elem_of_singleton.
      * destruct (H6 Hf _ _ Hg) as (q1 & Hq1 & Hin). rewrite lookup_insert_ne by congruence. by exists q1.
    + intros n g w Hg (o' & q' & i & p & Hq' & Hi & Hp & ->). rewrite lookup_insert_Some in Hq'.
      destruct Hq' as [[<- <-]|[Hne' Hq']]; [by apply list_lookup_singleton_Some in Hi as [_ <-]|].
      apply lookup_app_Some in Hp as [Hp|[_ [_ ->]%list_lookup_singleton_Some]]; [by exists o', q', i, p|done].
Qed.

(** *** The fair choice *)

Lemma turns_bound lim full Q m turns : queues_ok lim full Q m turns -> (Z.of_nat (length turns) <= total lim)%Z.
Proof.
  intros [H1 H2 H3 H4 H5 H6]. assert (length turns <= size m); [|pose proof (qsum_size m ltac:(intros o q Hq; by apply (H2 o q))); lia].
  rewrite <- size_dom, <- (size_list_to_set (C:=gset bytes) turns) by done. apply subseteq_size. intros o. rewrite elem_of_list_to_set, elem_of_dom. apply H4.
Qed.

Lemma dequeue_spec b lim full :
  queues_ok lim full (queued_at (records b)) (queued_by_origin b) (origin_turns b) ->
  (origin_turns b = [] /\ dequeue_fair b = Some (b, None)) \/
  (exists o turns h q m turns',
     origin_turns b = o :: turns /\ queued_by_origin b !! o = Some (h :: q) /\
     let b' := with_origin_turns (with_queued_by_origin b m) turns' in
     dequeue_fair b = Some (b', Some h) /\
     queues_ok lim full (fun g o => g <> h /\ queued_at (records b) g o) m turns' /\
     forall n g w, length (origin_turns b) <= n -> g <> h -> waits n m turns' g w ->
       exists w', w < w' /\ waits n (queued_by_origin b) (origin_turns b) g w').
Proof.
  intros HI. pose proof HI as [H1 H2 H3 H4 H5 H6]. destruct (origin_turns b) as [|o turns] eqn:Et.
  { left. split; [done|]. unfold dequeue_fair. rewrite Et. cbn [length Nat.add]. by destruct (queued_len b); cbn [dequeue_loop]; rewrite Et. }
  right. destruct (proj1 (H4 o) ltac:(by left)) as [q0 Hq0]. destruct (H2 _ _ Hq0) as (Hne & Hnd & Hlen).
  destruct q0 as [|h q]; [done|]. apply NoDup_cons in Hnd as [Hh Hndq]. apply NoDup_cons in H3 as [Ho H3].
  destruct (H1 _ _ h Hq0 ltac:(by left)) as (r & Hr & Hst & Hown).
  set (m := match q with _ :: _ => <[o := q]> (queued_by_origin b) | [] => delete o (queued_by_origin b) end).
  set (turns' := match q with _ :: _ => turns ++ [o] | [] => turns end).
  exists o, turns, h, q, m, turns'. split; [done|]. split; [done|]. cbv zeta. split; [|split].
  - unfold dequeue_fair. rewrite Et. cbn [length Nat.add dequeue_loop]. rewrite Et, Hq0. cbn [mbind option_bind head tail].
    unfold m, turns'. destruct q as [|x q]; cbn [records with_origin_turns with_queued_by_origin]; rewrite Hr; cbn [is_some_and];
      rewrite bool_decide_eq_true_2 by done; done.
  - assert (forall o' q' g, o' <> o -> queued_by_origin b !! o' = Some q' -> g ∈ q' -> g <> h) as Hoth.
    { intros o' q' g Hne' Hq' Hg ->. destruct (H1 _ _ _ Hq' Hg) as (r' & Hr' & _ & Hown'). congruence. }
    split.
    + intros o' q' g Hq' Hg. unfold m in Hq'. destruct q as [|x q].
      * apply lookup_delete_Some in Hq' as [Hne' Hq']. split; [by eapply Hoth|by eapply H1].
      * rewrite lookup_insert_Some in Hq'. destruct Hq' as [[<- <-]|[Hne' Hq']]; [|split; [by eapply Hoth|by eapply H1]].
        split; [by intros ->|]. eapply H1; [done|]. by right.
    + intros o' q' Hq'. unfold m in Hq'. destruct q as [|x q].
      * apply lookup_delete_Some in Hq' as [_ Hq']. by eapply H2.
      * rewrite lookup_insert_Some in Hq'. destruct Hq' as [[<- <-]|[_ Hq']]; [|by eapply H2].
        split; [done|]. split; [done|]. cbn [length] in *. lia.
    + unfold turns'. destruct q; [done|]. apply NoDup_app. split; [done|]. split; [intros y Hy E%list_elem_of_singleton; by subst|apply NoDup_singleton].
    + intros o'. pose proof (H4 o') as Ho'. rewrite elem_of_cons in Ho'. unfold m, turns'. destruct (decide (o' = o)) as [->|Hne'].
      * destruct q; [rewrite lookup_delete_eq; split; [done|by intros []]|].
        rewrite lookup_insert_eq, elem_of_app, list_elem_of_singleton. split; [by eexists|by right].
      * destruct q; [rewrite lookup_delete_ne by done; tauto|].
        rewrite lookup_insert_ne, elem_of_app, list_elem_of_singleton by done. tauto.
    + unfold m. destruct q as [|x q].
      * rewrite (qsum_delete _ _ _ Hq0) in H5. lia.
      * pose proof (qsum_insert _ _ _ (x :: q) Hq0) as Hs. cbn [length] in *. lia.
    + intros Hf g o' [Hg Hgo]. destruct (H6 Hf _ _ Hgo) as (q' & Hq' & Hin). destruct (decide (o' = o)) as [->|Hne'].
      * rewrite Hq0 in Hq'. injection Hq' as <-. apply elem_of_cons in Hin as [->|Hin]; [done|]. unfold m.
        destruct q; [by apply elem_of_nil in Hin|]. rewrite lookup_insert_eq. by eexists.
      * exists q'. split; [|done]. unfold m. destruct q; [by rewrite lookup_delete_ne|by rewrite lookup_insert_ne].
  - intros n g w Hn Hg (o' & q' & i & p & Hq' & Hi & Hp & ->). unfold m, turns' in *. destruct (decide (o' = o)) as [->|Hne'].
    + destruct q as [|x q]; [by rewrite lookup_delete_eq in Hq'|]. rewrite lookup_insert_eq in Hq'. injection Hq' as <-.
      exists (S i * n + 0). split; [|exists o, (h :: x :: q), (S i), 0; done].
      apply lookup_lt_Some in Hp. rewrite length_app in Hp. cbn [length] in *. lia.
    + exists (i * n + S p). split; [lia|]. exists o', q', i, (S p). split; [|split; [done|split; [|done]]].
      * destruct q; [by apply lookup_delete_Some in Hq' as [_ ?]|by rewrite lookup_insert_ne in Hq'].
      * cbn [lookup list_lookup]. destruct q; [done|].
        apply lookup_app_Some in Hp as [Hp|[_ [_ ->]%list_lookup_singleton_Some]]; [done|done].
Qed.

(** ** The invariant *)

Definition is_progress (d : DialogRequestV1) : bool := match d with RProgress _ _ _ => true | _ => false end.

(** One record: what is fixed at [open], and that an attempt, a value and a terminal
    time are there in exactly the states that have one. *)
Record record_ok (pres : option PresenterLease) (next : Z) (limbo : Prop) (h : bytes) (r : DialogRecord) : Prop := mkRecordOk {
  r_handle : handle r = h;
  r_valid : open_validate (request r) = Ok tt;
  r_progress : is_Some (progress r) <-> is_progress (dialog (request r)) = true;
  r_terminal : is_Some (terminal_at_ms r) <-> is_terminal (state r) = true;
  r_value : match value r with
            | Some v => state r = Resolved /\ validate_for v (dialog (request r)) = Ok tt
            | None => state r <> Resolved end;
  r_requeues : (0 <= pre_display_requeues r <= MAX_DIALOG_PRE_DISPLAY_REQUEUES)%Z;
  r_attempt : is_Some (attempt r) <-> is_active (state r) = true /\ ~ limbo;
  r_current : forall a, attempt r = Some a ->
    (exists l, pres = Some l /\ at_generation a = generation l) /\ (at_token a < next)%Z }.

Definition tokens_distinct (recs : gmap bytes DialogRecord) : Prop :=
  forall h1 h2 r1 r2 a1 a2, recs !! h1 = Some r1 -> recs !! h2 = Some r2 -> attempt r1 = Some a1 -> attempt r2 = Some a2 ->
    at_token a1 = at_token a2 -> h1 = h2.

Definition terminals_ok (recs : gmap bytes DialogRecord) (order : list bytes) : Prop :=
  NoDup order /\ forall h, h ∈ order <-> exists r, recs !! h = Some r /\ is_terminal (state r) = true.

(** Limits that can be counted up to. *)
Definition config_ok (lim : DialogQueueLimits) (ret : DialogRetentionPolicy) : Prop :=
  (0 <= total lim /\ 0 <= per_origin lim /\ 0 <= active ret /\ 0 <= terminal ret /\ total lim + active ret <= USIZE_MAX)%Z.

Record Inv0 (L : list bytes) (b : DialogBroker) : Prop := mkInv {
  i_config : config_ok (limits b) (retention b);
  i_record : forall h r, records b !! h = Some r -> record_ok (presenter b) (next_attempt_token b) (h ∈ L) h r;
  i_tokens : tokens_distinct (records b);
  i_queues : queues_ok (limits b) (next_attempt_token b < U64_MAX)%Z (queued_at (records b)) (queued_by_origin b) (origin_turns b);
  i_active : (Z.of_nat (active_len b) <= active (retention b))%Z;
  i_terminal : terminals_ok (records b) (terminal_order b);
  i_limbo : forall h, h ∈ L -> exists r, records b !! h = Some r /\ is_active (state r) = true;
  i_lease : forall l, presenter b = Some l -> lease_epoch l = instance_epoch b /\ (generation l < next_presenter_generation b)%Z;
  i_counters : (next_attempt_token b <= U64_MAX /\ next_presenter_generation b <= U64_MAX)%Z;
  i_log : (Z.of_nat (length (pending_transitions b)) <= transition_limit b)%Z }.
Definition retained (b : DialogBroker) : Prop := (Z.of_nat (length (terminal_order b)) <= terminal (retention b))%Z.
(** [L] is what is in limbo; between operations it is empty. *)
Definition Inv (L : list bytes) (b : DialogBroker) : Prop := Inv0 L b /\ retained b.

(** ** How a record may change without an owner's or a presenter's decision *)

Definition identity (r : DialogRecord) : bytes * bytes * bytes * DialogOpenRequestV1 * Z * option Z :=
  (handle r, owner_service r, owner_token r, request r, created_at_ms r, expires_at_ms r).

Definition follows (r r' : DialogRecord) : Prop :=
  identity r' = identity r /\
  if is_terminal (state r) then r' = r
  else if is_active (state r) then state r' <> Resolved
  else r' = r \/ (is_terminal (state r') = true /\ state r' <> Resolved).

(** The parts of the broker that only the constructor sets. *)
Definition settings (b : DialogBroker) : DialogQueueLimits * DialogRetentionPolicy * Z * Z :=
  (limits b, retention b, instance_epoch b, transition_limit b).
Definition lease_part (b : DialogBroker) : option PresenterLease * Z * Z :=
  (presenter b, next_presenter_generation b, next_attempt_token b).
Definition wait_of (b : DialogBroker) : bytes -> nat -> Prop :=
  waits (Z.to_nat (total (limits b))) (queued_by_origin b) (origin_turns b).

(** Records follow, none appears, and no waiting handle is passed. *)
Record evolves (b b' : DialogBroker) : Prop := mkEvolves {
  e_settings : settings b' = settings b;
  e_lease : lease_part b' = lease_part b;
  e_follows : forall h r', records b' !! h = Some r' -> exists r, records b !! h = Some r /\ follows r r';
  e_waits : forall h r w, records b !! h = Some r -> state r = Queued -> wait_of b' h w -> records b' !! h = Some r ->
    exists w', w <= w' /\ wait_of b h w' }.

Lemma active_not_terminal s : is_active s = true -> is_terminal s = false.
Proof. by destruct s. Qed.

Lemma follows_refl r : follows r r.
Proof. unfold follows. split; [done|]. destruct (state r); cbn; auto; discriminate. Qed.
Lemma follows_trans r1 r2 r3 : follows r1 r2 -> follows r2 r3 -> follows r1 r3.
Proof.
  unfold follows. intros [I1 F1] [I2 F2]. split; [congruence|].
  destruct (is_terminal (state r1)) eqn:T1; [subst; by rewrite T1 in F2|].
  destruct (is_active (state r1)) eqn:A1.
  - destruct (is_terminal (state r2)) eqn:T2; [by subst|]. destruct (is_active (state r2)) eqn:A2; [done|]. destruct F2 as [->|[_ ?]]; done.
  - destruct F1 as [->|[T2 N2]]; [by rewrite T1, A1 in F2|]. rewrite T2 in F2. subst. by right.
Qed.
Lemma follows_queued r r' : follows r r' -> state r = Queued -> is_terminal (state r') = false -> r' = r.
Proof. unfold follows. intros [_ F] E T. rewrite E in F. cbn in F. destruct F as [->|[T' _]]; [done|congruence]. Qed.
Lemma follows_active r r' : follows r r' -> is_active (state r') = true -> is_active (state r) = true.
Proof.
  unfold follows. intros [_ F] A. destruct (is_terminal (state r)) eqn:T; [by subst|]. destruct (is_active (state r)) eqn:A'; [done|].
  destruct F as [->|[T' _]]; [congruence|]. by rewrite active_not_terminal in T'.
Qed.

#[export] Instance evolves_preorder : PreOrder evolves.
Proof.
  split.
  - intros b. split; [done|done|intros h r ->; exists r; split; [done|apply follows_refl]|]. intros h r w _ _ Hw _. by exists w.
  - intros b1 b2 b3 [S1 L1 F1 W1] [S2 L2 F2 W2]. split; [congruence|congruence| |].
    + intros h r3 H3. destruct (F2 _ _ H3) as (r2 & H2 & F23). destruct (F1 _ _ H2) as (r1 & H1 & F12).
      exists r1. split; [done|]. by eapply follows_trans.
    + intros h r w H1 E Hw H3. destruct (F2 _ _ H3) as (r2 & H2 & F23). destruct (F1 _ _ H2) as (r1 & H1' & F12).
      assert (r1 = r) as -> by congruence. assert (r2 = r) as ->.
      { apply follows_queued; [done|done|]. destruct (is_terminal (state r2)) eqn:T; [|done].
        unfold follows in F23. rewrite T in F23. destruct F23 as [_ ->]. by rewrite E in T. }
      destruct (W2 _ _ _ H2 E Hw H3) as (w2 & Hle & Hw2). destruct (W1 _ _ _ H1 E Hw2 H2) as (w1 & Hle1 & Hw1). exists w1. split; [lia|done].
Qed.

Lemma active_mono (m m' : gmap bytes DialogRecord) :
  (forall h r', m' !! h = Some r' -> is_active (state r') = true -> exists r, m !! h = Some r /\ is_active (state r) = true) ->
  size (filter (fun kr => is_active (state (snd kr)) = true) m') <= size (filter (fun kr => is_active (state (snd kr)) = true) m).
Proof.
  intros Hm. rewrite <- !size_dom. apply subseteq_size. intros h. rewrite !elem_of_dom. intros [r' [H' A']%map_lookup_filter_Some].
  destruct (Hm _ _ H' A') as (r & Hr & Ar). exists r. by apply map_lookup_filter_Some.
Qed.

(** ** Reports, the log, eviction *)

Definition body (b : DialogBroker) :=
  (records b, queued_by_origin b, origin_turns b, terminal_order b, settings b, lease_part b).
Definition log_ok (b : DialogBroker) : Prop := (Z.of_nat (length (pending_transitions b)) <= transition_limit b)%Z.

Lemma inv0_body L b b' : body b' = body b -> log_ok b' -> Inv0 L b -> Inv0 L b'.
Proof.
  unfold body, settings, lease_part. intros [= E1 E2 E3 E4 E5 E6 E7 E8 E9 E10 E11] Hlog [H1 H2 H3 H4 H5 H6 H7 H8 H9 H10].
  split; unfold active_len; rewrite ?E1, ?E2, ?E3, ?E4, ?E5, ?E6, ?E7, ?E9, ?E10, ?E11; done.
Qed.
Lemma inv_body L b b' : body b' = body b -> log_ok b' -> Inv L b -> Inv L b'.
Proof.
  intros E Hlog [HI Hr]. split; [by eapply inv0_body|]. revert E Hr. unfold body, settings, retained. by intros [= _ _ _ -> _ -> _ _ _].
Qed.
Lemma evolves_body b b' : body b' = body b -> evolves b b'.
Proof.
  unfold body. intros (E & EL)%pair_equal_spec. apply pair_equal_spec in E as [E ES]. apply pair_equal_spec in E as [E _].
  apply pair_equal_spec in E as [E ET]. apply pair_equal_spec in E as [ER EQ]. split; [done|done| |].
  - intros h r Hr. rewrite ER in Hr. exists r. split; [done|apply follows_refl].
  - intros h r w _ _ Hw _. exists w. split; [done|]. unfold wait_of in *. rewrite EQ, ET in Hw.
    unfold settings in ES. injection ES as El _ _ _. by rewrite El in Hw.
Qed.

Lemma record_transition_body b h f t c : body (record_transition b h f t c) = body b.
Proof. unfold record_transition. by destruct (_ <? _)%Z. Qed.
Lemma record_transition_log b h f t c : log_ok b -> log_ok (record_transition b h f t c).
Proof.
  unfold record_transition, log_ok. destruct (Z.ltb_spec (Z.of_nat (length (pending_transitions b))) (transition_limit b));
    cbn [pending_transitions transition_limit with_transitions]; [rewrite length_app; cbn [length]; lia|done].
Qed.

(** What an eviction leaves. *)
Definition rest_of (b : DialogBroker) := (queued_by_origin b, origin_turns b, settings b, lease_part b).

Record evicts (E : list bytes) (b b' : DialogBroker) : Prop := mkEvicts {
  v_records : forall h, records b' !! h = if decide (h ∈ E) then None else records b !! h;
  v_rest : rest_of b' = rest_of b;
  v_log : log_ok b -> log_ok b' }.

Lemma evicts_trans E1 E2 b1 b2 b3 : evicts E1 b1 b2 -> evicts E2 b2 b3 -> evicts (E1 ++ E2) b1 b3.
Proof.
  intros [R1 S1 L1] [R2 S2 L2]. split; [|congruence|auto]. intros h. rewrite R2, R1.
  repeat case_decide; rewrite ?elem_of_app in *; tauto.
Qed.

Lemma evict_evicts b h : evicts [h] b (evict_one b h) /\ terminal_order (evict_one b h) = terminal_order b.
Proof.
  unfold evict_one. destruct (records b !! h) as [r|] eqn:Hr.
  - pose proof (record_transition_body (with_records b (delete h (records b))) h (Some (state r)) None CEvict) as Hb.
    unfold body in Hb. repeat (apply pair_equal_spec in Hb as [Hb ?]). split; [|done]. split.
    + intros g. rewrite Hb. cbn [records with_records]. case_decide as Hg; rewrite list_elem_of_singleton in Hg; [subst; apply lookup_delete_eq|by apply lookup_delete_ne].
    + unfold record_transition. by destruct (_ <? _)%Z.
    + intros Hl. by apply record_transition_log.
  - split; [|done]. split; [|done|done]. intros g. case_decide as Hg; rewrite list_elem_of_singleton in Hg; by subst.
Qed.

Lemma trim_evicts order : forall b, (0 <= terminal (retention b))%Z ->
  exists k, evicts (take k order) b (trim_loop order b) /\ terminal_order (trim_loop order b) = drop k order /\ retained (trim_loop order b) /\
    ((1 <= terminal (retention b))%Z -> order <> [] -> drop k order <> []).
Proof.
  induction order as [|h order IH]; intros b Hb; [exists 0; by split|]. cbn [trim_loop].
  destruct (Z.ltb_spec (terminal (retention b)) (Z.of_nat (length (h :: order)))).
  - match goal with |- context [trim_loop order ?x] => set (b1 := x) end.
    assert (evicts [h] b b1) as H1.
    { destruct (evict_evicts b h) as [[R1 S1 L1] _]. revert R1 S1 L1. unfold b1, evict_one. destruct (records b !! h); intros R1 S1 L1; split; done. }
    assert (retention b1 = retention b) as Hret.
    { pose proof (v_rest _ _ _ H1) as Hs. unfold rest_of, settings in Hs. congruence. }
    destruct (IH b1) as (k & Hk & Ht & Hr & Hne); [by rewrite Hret|]. exists (S k). split; [|split; [done|split; [done|]]].
    + change (take (S k) (h :: order)) with ([h] ++ take k order). by eapply evicts_trans.
    + intros H1' _. apply Hne; [by rewrite Hret|]. intros ->. cbn in *. lia.
  - exists 0. split; [|split; [done|split; [exact H|done]]]. by split.
Qed.

Lemma fold_evicts E : forall b, evicts E b (foldl evict_one b E) /\ terminal_order (foldl evict_one b E) = terminal_order b.
Proof.
  induction E as [|h E IH]; intros b; [by split|]. cbn [foldl]. destruct (evict_evicts b h) as [H1 T1]. destruct (IH (evict_one b h)) as [H2 T2].
  split; [|congruence]. change (h :: E) with ([h] ++ E). by eapply evicts_trans.
Qed.

Lemma evict_inv0 L E b b' :
  evicts E b b' -> (forall h, h ∈ E -> h ∈ terminal_order b) -> NoDup (terminal_order b') ->
  (forall h, h ∈ terminal_order b' <-> h ∈ terminal_order b /\ h ∉ E) -> Inv0 L b -> Inv0 L b' /\ evolves b b'.
Proof.
  intros [HR HS HL] HE Hnd Hin [H1 H2 H3 H4 H5 [H6 H6'] H7 H8 H9 H10].
  assert (forall h r, records b' !! h = Some r -> records b !! h = Some r) as Hsub by (intros h r; rewrite HR; by case_decide).
  assert (forall h r, records b !! h = Some r -> is_terminal (state r) = false -> records b' !! h = Some r) as Hkeep.
  { intros h r Hr T. rewrite HR. case_decide as Hh; [|done]. apply HE, H6' in Hh as (r' & Hr' & T'). congruence. }
  unfold rest_of in HS. apply pair_equal_spec in HS as [HS ElL]. apply pair_equal_spec in HS as [HS ES]. apply pair_equal_spec in HS as [EQ ET].
  unfold settings in ES. injection ES as E1 E2 E3 E4. unfold lease_part in ElL. injection ElL as E5 E6 E7. split; [split|split].
  - by rewrite E1, E2.
  - intros h r Hr. rewrite E5, E7. apply H2. by apply Hsub.
  - intros h1 h2 r1 r2 a1 a2 Hr1 Hr2. apply (H3 h1 h2 r1 r2 a1 a2); by apply Hsub.
  - rewrite E1, E7, EQ, ET. apply (queues_ok_ext _ (next_attempt_token b < U64_MAX)%Z _ (queued_at (records b))); [|done|done].
    intros h o. split; intros (r & Hr & S & O); exists r; (split; [|done]); [apply Hkeep; [done|by rewrite S]|by apply Hsub].
  - rewrite E2. etrans; [|exact H5]. apply Nat2Z.inj_le, active_mono. intros h r Hr A. exists r. split; [by apply Hsub|done].
  - split; [done|]. intros h. rewrite Hin, H6'. split.
    + intros [(r & Hr & T) Hh]. exists r. rewrite HR, decide_False by done. done.
    + intros (r & Hr & T). split; [exists r; split; [by apply Hsub|done]|]. intros Hh. rewrite HR, decide_True in Hr by done. done.
  - intros h Hh. destruct (H7 h Hh) as (r & Hr & A). exists r.
    split; [apply Hkeep; [done|by apply active_not_terminal]|done].
  - rewrite E5, E3, E6. done.
  - by rewrite E6, E7.
  - by apply HL.
  - unfold settings. congruence.
  - unfold lease_part. congruence.
  - intros h r Hr. exists r. split; [by apply Hsub|apply follows_refl].
  - intros h r w _ _ Hw _. exists w. split; [done|]. unfold wait_of in *. by rewrite E1, EQ, ET in Hw.
Qed.

(** ** Terminal transitions *)

Definition value_ok (s : DialogStateV1) (v : option DialogValueV1) (r : DialogRecord) : Prop :=
  match v with Some v => s = Resolved /\ validate_for v (dialog (request r)) = Ok tt | None => s <> Resolved end.

(** [h] ends as [rt], or is evicted at once; other records stay or are evicted. *)
Record ends (h : bytes) (rt : DialogRecord) (b b' : DialogBroker) : Prop := mkEnds {
  n_settings : settings b' = settings b;
  n_lease : lease_part b' = lease_part b;
  n_records : forall g r', records b' !! g = Some r' -> if decide (g = h) then r' = rt else records b !! g = Some r';
  n_kept : forall g r, records b !! g = Some r -> is_terminal (state r) = false -> g <> h -> records b' !! g = Some r;
  n_waits : forall g w, wait_of b' g w -> exists w', w <= w' /\ wait_of b g w';
  n_total : queued_len b' <= queued_len b;
  n_origin : forall o, origin_queue_len b' o <= origin_queue_len b o;
  n_end : (1 <= terminal (retention b))%Z -> records b' !! h = Some rt }.

Lemma finish_inv0 L b h r s v now :
  Inv0 L b -> records b !! h = Some r -> is_terminal (state r) = false -> is_terminal s = true -> value_ok s v r ->
  let b0 := remove_from_queue b h in
  let b1 := with_terminal_order (with_records b0 (<[h := terminal_record r s v now]> (records b0))) (terminal_order b0 ++ [h]) in
  Inv0 (filter (fun g => g <> h) L) b1 /\ ends h (terminal_record r s v now) b b1 /\ retention b1 = retention b.
Proof.
  intros [H1 H2 H3 H4 H5 [H6 H6'] H7 H8 H9 H10] Hr T Ts Hv b0 b1.
  pose proof (H2 _ _ Hr) as [R1 R2 R3 R4 R5 R6 R7 R8].
  assert (forall o, queued_at (records b) h o -> o = owner_service r) as Hown by (intros o (r' & Hr' & _ & <-); congruence).
  destruct (remove_queues b h r _ _ _ Hr Hown H4) as [HQ HW]. fold b0 in HQ, HW.
  destruct (remove_shape b h) as (m & turns & Hb0). fold b0 in Hb0.
  assert (records b1 = <[h := terminal_record r s v now]> (records b)) as Er by (unfold b1; by rewrite Hb0).
  assert (settings b1 = settings b /\ lease_part b1 = lease_part b) as [ES EL] by (unfold b1; by rewrite Hb0).
  assert (queued_by_origin b1 = queued_by_origin b0 /\ origin_turns b1 = origin_turns b0) as [EQ ET] by done.
  assert (terminal_order b1 = terminal_order b ++ [h]) as EO by (unfold b1; by rewrite Hb0).
  assert (pending_transitions b1 = pending_transitions b) as EP by (unfold b1; by rewrite Hb0).
  clearbody b1. clear Hb0. pose proof ES as ES'. pose proof EL as EL'.
  unfold settings in ES. injection ES as E1 E2 E3 E4. unfold lease_part in EL. injection EL as E5 E6 E7. split; [split|split; [split|done]].
  - by rewrite E1, E2.
  - intros g r'. rewrite Er, E5, E7, lookup_insert_Some. intros [[<- <-]|[Hne Hg]].
    + split; cbn [handle request progress terminal_at_ms state value pre_display_requeues attempt terminal_record]; try done.
      * split; [by intros []|]. intros [A _]. apply active_not_terminal in A. congruence.
    + destruct (H2 _ _ Hg) as [S1 S2 S3 S4 S5 S6 S7 S8]. split; try done. rewrite list_elem_of_filter, S7. split; intros [A B]; (split; [done|]); [|].
      * tauto.
      * intros Hin. apply B. split; [by apply not_eq_sym|done].
  - intros h1 h2 r1 r2 a1 a2. rewrite Er, !lookup_insert_Some. intros [[<- <-]|[_ Hr1]]; [done|]. intros [[<- <-]|[_ Hr2]]; [done|]. by apply H3.
  - rewrite E1, E7, EQ, ET. refine (queues_ok_ext _ _ _ _ _ _ _ _ _ HQ); [|done]. intros g o. split.
    + intros [Hne (r' & Hr' & S & O)]. exists r'. split; [|done]. by rewrite Er, lookup_insert_ne.
    + intros (r' & Hr' & S & O). rewrite Er, lookup_insert_Some in Hr'. destruct Hr' as [[<- <-]|[Hne Hr']].
      * cbn in S. by rewrite S in Ts.
      * split; [done|]. by exists r'.
  - rewrite E2. etrans; [|exact H5]. apply Nat2Z.inj_le, active_mono. intros g r'. rewrite Er, lookup_insert_Some.
    intros [[<- <-]|[_ Hg]] A; [cbn in A; apply active_not_terminal in A; congruence|by exists r'].
  - rewrite EO. split.
    + apply NoDup_app. split; [done|]. split; [|apply NoDup_singleton]. intros g Hg E%list_elem_of_singleton. subst g.
      apply H6' in Hg as (r' & Hr' & T'). congruence.
    + intros g. rewrite elem_of_app, list_elem_of_singleton, H6', Er. destruct (decide (g = h)) as [->|Hne].
      * rewrite lookup_insert_eq. split; [by eexists|by right].
      * rewrite lookup_insert_ne by done. split; [by intros [?|?]|by left].
  - intros g [Hne Hg]%list_elem_of_filter. rewrite Er, lookup_insert_ne by done. by apply H7.
  - rewrite E5, E3, E6. done.
  - by rewrite E6, E7.
  - rewrite EP, E4. done.
  - done.
  - done.
  - intros g r'. rewrite Er, lookup_insert_Some. intros [[<- <-]|[Hne Hg]]; [by rewrite decide_True|by rewrite decide_False].
  - intros g r' Hg _ Hne. by rewrite Er, lookup_insert_ne.
  - intros g w. unfold wait_of. rewrite E1, EQ, ET. apply HW.
  - unfold queued_len. rewrite EQ. apply remove_lens.
  - intros o. unfold origin_queue_len. rewrite EQ. apply remove_lens.
  - intros _. rewrite Er. apply lookup_insert_eq.
Qed.

Lemma body_evicts b b' : body b' = body b -> (log_ok b -> log_ok b') -> evicts [] b b'.
Proof.
  unfold body. intros (E & EL)%pair_equal_spec Hl. apply pair_equal_spec in E as [E ES]. apply pair_equal_spec in E as [E _].
  apply pair_equal_spec in E as [E ET]. apply pair_equal_spec in E as [ER EQ]. split; [|unfold rest_of; congruence|done].
  intros h. rewrite ER. case_decide as Hh; [by apply elem_of_nil in Hh|done].
Qed.

Lemma ends_evicts L h rt E b b1 b2 :
  ends h rt b b1 -> Inv0 L b1 -> evicts E b1 b2 -> (forall g, g ∈ E -> g ∈ terminal_order b1) ->
  ((1 <= terminal (retention b))%Z -> h ∉ E) -> ends h rt b b2.
Proof.
  intros [E1 E2 E3 E4 E5 E6 E7 E8] HI [R S _] HE Hh. unfold rest_of in S. apply pair_equal_spec in S as [S SL]. apply pair_equal_spec in S as [S SS].
  apply pair_equal_spec in S as [SQ ST]. split; [congruence|congruence| | | | | |].
  - intros g r' Hg. apply E3. rewrite R in Hg. by case_decide.
  - intros g r Hg T Hne. rewrite R, decide_False; [by apply E4|]. intros (r' & Hr' & T')%HE%(i_terminal _ _ HI).
    rewrite (E4 _ _ Hg T Hne) in Hr'. congruence.
  - intros g w Hw. apply E5. unfold wait_of in *. rewrite SQ, ST in Hw. unfold settings in SS. injection SS as El _ _ _. by rewrite El in Hw.
  - unfold queued_len in *. by rewrite SQ.
  - intros o. specialize (E7 o). unfold origin_queue_len in *. by rewrite SQ.
  - intros H1. rewrite R, decide_False by auto. auto.
Qed.

Lemma terminal_spec L b h r s v now cause :
  Inv L b -> records b !! h = Some r -> is_terminal (state r) = false -> is_terminal s = true -> value_ok s v r ->
  exists b', transition_terminal b h s v now cause = Some b' /\ Inv (filter (fun g => g <> h) L) b' /\
    ends h (terminal_record r s v now) b b'.
Proof.
  intros [HI Hret] Hr T Ts Hv. destruct (finish_inv0 L b h r s v now HI Hr T Ts Hv) as (HI1 & HE & Ert). cbv zeta in *.
  unfold transition_terminal. rewrite Hr. cbn [is_none_or]. rewrite T.
  assert (records (remove_from_queue b h) !! h = Some r) as -> by (destruct (remove_shape b h) as (m & t & ->); done). cbn [mbind option_bind].
  set (b1 := with_terminal_order _ _) in *. match goal with |- context [trim_terminal_count ?x] => set (b2 := x) end.
  assert (body b2 = body b1) as Hbody by (unfold b2; rewrite record_transition_body; by case_bool_decide).
  assert (log_ok b1 -> log_ok b2) as Hlog by (intros Hl; unfold b2; apply record_transition_log; by case_bool_decide).
  assert (terminal_order b2 = terminal_order b1 /\ retention b2 = retention b) as [EO ER].
  { rewrite <- Ert. revert Hbody. unfold body, settings. by intros [= _ _ _ ? _ ? _ _ _ _ _]. }
  destruct (trim_evicts (terminal_order b2) b2) as (k & Hk & Ht & Hr2 & Hne).
  { rewrite ER. apply (i_config _ _ HI). }
  fold (trim_terminal_count b2) in Hk, Ht, Hr2. rewrite EO in Hk, Ht, Hne. rewrite ER in Hne.
  pose proof (evicts_trans _ _ _ _ _ (body_evicts _ _ Hbody Hlog) Hk) as Hev. cbn [app] in Hev.
  assert (NoDup (terminal_order b1)) as Hnd by apply (i_terminal _ _ HI1).
  assert (forall g, g ∈ take k (terminal_order b1) -> g ∈ terminal_order b1) as Hin by (intros g (i & Hi & _)%elem_of_take; by eapply list_elem_of_lookup_2).
  assert (terminal_order b1 = terminal_order (remove_from_queue b h) ++ [h]) as EO1 by done.
  eexists. split; [done|]. split; [|eapply ends_evicts; try done].
  2: { intros H1. rewrite <- (take_drop k (terminal_order b1)) in Hnd. apply NoDup_app in Hnd as (_ & Hd & _). intros Hin1. apply (Hd h Hin1).
       assert (terminal_order b1 <> []) as Hn by (rewrite EO1; by destruct (terminal_order (remove_from_queue b h))).
       specialize (Hne H1 Hn). destruct (exists_last Hne) as (l & x & El).
       assert (last (terminal_order b1) = Some x) as Hl by (rewrite <- (take_drop k (terminal_order b1)), El, app_assoc; apply last_snoc).
       rewrite EO1, last_snoc in Hl. injection Hl as <-. rewrite El. apply elem_of_app. right. by left. }
  split; [|done].
  eapply (evict_inv0 _ _ b1); [exact Hev|done| | |done].
  - rewrite Ht. rewrite <- (take_drop k (terminal_order b1)) in Hnd. by apply NoDup_app in Hnd as (_ & _ & ?).
  - intros g. rewrite Ht. rewrite <- (take_drop k (terminal_order b1)) in Hnd |- * at 2. apply NoDup_app in Hnd as (_ & Hd & _).
    rewrite elem_of_app. split; [intros Hg; split; [by right|intros Hg'; by eapply Hd]|by intros [[?|?] ?]].
Qed.

Lemma ends_evolves h r rt b b' : records b !! h = Some r -> is_terminal (state r) = false -> identity rt = identity r ->
  is_terminal (state rt) = true -> state rt <> Resolved -> ends h rt b b' -> evolves b b'.
Proof.
  intros Hr T Hid Trt Nrt [E1 E2 E3 E4 E5 _ _ _]. split; [done|done| |].
  - intros g r' Hg. specialize (E3 _ _ Hg). case_decide as Hgh; [subst|exists r'; split; [done|apply follows_refl]].
    exists r. split; [done|]. split; [done|]. rewrite T. destruct (is_active (state r)); auto.
  - intros g r' w _ _ Hw _. by apply E5.
Qed.

Lemma inv_limbo_ext L L' b : (forall h, h ∈ L <-> h ∈ L') -> Inv L b -> Inv L' b.
Proof.
  intros HL [[H1 H2 H3 H4 H5 H6 H7 H8 H9 H10] Hr]. split; [split; try done|done].
  - intros h r Hh. destruct (H2 _ _ Hh) as [S1 S2 S3 S4 S5 S6 S7 S8]. split; try done. by rewrite <- HL.
  - intros h Hh. by apply H7, HL.
Qed.

(** A transition that is nobody's answer, on any handle. *)
Record fails (h : bytes) (b b' : DialogBroker) : Prop := mkFails {
  f_evolves : evolves b b';
  f_over : forall r, records b' !! h = Some r -> is_terminal (state r) = true;
  f_kept : forall g r, records b !! g = Some r -> is_terminal (state r) = false -> g <> h -> records b' !! g = Some r;
  f_sub : forall g r, records b' !! g = Some r -> is_terminal (state r) = false -> records b !! g = Some r;
  f_total : queued_len b' <= queued_len b;
  f_origin : forall o, origin_queue_len b' o <= origin_queue_len b o }.

Lemma fail_spec L b h s now cause : Inv L b -> is_terminal s = true -> s <> Resolved ->
  exists b', transition_terminal b h s None now cause = Some b' /\ Inv (filter (fun g => g <> h) L) b' /\ fails h b b'.
Proof.
  intros HI Ts Ns. destruct (is_none_or (records b !! h) (fun r => is_terminal (state r))) eqn:E.
  - exists b. unfold transition_terminal. rewrite E. split; [done|]. split.
    + apply (inv_limbo_ext L); [|done]. intros g. rewrite list_elem_of_filter. split; [|by intros [_ ?]]. intros Hg. split; [|done]. intros ->.
      destruct (i_limbo _ _ (proj1 HI) _ Hg) as (r & Hr & A). rewrite Hr in E. cbn in E. apply active_not_terminal in A. congruence.
    + split; try done. intros r Hr. by rewrite Hr in E.
  - destruct (records b !! h) as [r|] eqn:Hr; [|done]. cbn in E.
    destruct (terminal_spec L b h r s None now cause HI Hr E Ts Ns) as (b' & Hb' & HI' & HE). exists b'. split; [done|]. split; [done|].
    split.
    + by apply (ends_evolves h r (terminal_record r s None now)).
    + intros r' Hr'. apply (n_records _ _ _ _ HE) in Hr'. rewrite decide_True in Hr' by done. by subst.
    + apply HE.
    + intros g r' Hr' T. apply (n_records _ _ _ _ HE) in Hr'. case_decide; [subst; cbn in T; congruence|done].
    + apply HE.
    + apply HE.
Qed.

(** A run of them. *)
Record fails_all (hs : list bytes) (b b' : DialogBroker) : Prop := mkFailsAll {
  fa_evolves : evolves b b';
  fa_over : forall h r, h ∈ hs -> records b' !! h = Some r -> is_terminal (state r) = true;
  fa_kept : forall g r, records b !! g = Some r -> is_terminal (state r) = false -> g ∉ hs -> records b' !! g = Some r;
  fa_sub : forall g r, records b' !! g = Some r -> is_terminal (state r) = false -> records b !! g = Some r;
  fa_total : queued_len b' <= queued_len b;
  fa_origin : forall o, origin_queue_len b' o <= origin_queue_len b o }.

Lemma fails_all_nil b : fails_all [] b b.
Proof. split; try done. by intros h r Hh%elem_of_nil. Qed.

Lemma evolves_terminal b b' h r r' : evolves b b' -> records b !! h = Some r -> is_terminal (state r) = true ->
  records b' !! h = Some r' -> r' = r.
Proof. intros HE Hr T Hr'. destruct (e_follows _ _ HE _ _ Hr') as (r0 & Hr0 & [_ F]). assert (r0 = r) as -> by congruence. by rewrite T in F. Qed.

Lemma fails_all_cons h hs b1 b2 b3 : fails h b1 b2 -> fails_all hs b2 b3 -> fails_all (h :: hs) b1 b3.
Proof.
  intros [E1 O1 K1 S1 T1 Q1] [E2 O2 K2 S2 T2 Q2]. split; [by etrans| | | |lia|intros o; specialize (Q1 o); specialize (Q2 o); lia].
  - intros g r Hg Hr. destruct (is_terminal (state r)) eqn:T; [done|]. pose proof (S2 _ _ Hr T) as Hr2.
    apply elem_of_cons in Hg as [->|Hg]; [rewrite <- T; by apply O1|rewrite <- T; by eapply O2].
  - intros g r Hr T [Hne Hg]%not_elem_of_cons. apply K2; [by apply K1|done|done].
  - intros g r Hr T. apply S1; [by apply S2|done].
Qed.

Lemma for_each_fails (hs : list bytes) s (cause : DialogTransitionCause) now : is_terminal s = true -> s <> Resolved ->
  forall L b, Inv L b ->
  exists b', for_each (fun b h => transition_terminal b h s None now cause) b hs = Some b' /\
    Inv (filter (fun g => g ∉ hs) L) b' /\ fails_all hs b b'.
Proof.
  intros Ts Ns. induction hs as [|h hs IH]; intros L b HI.
  { exists b. split; [done|]. split; [|apply fails_all_nil]. apply (inv_limbo_ext L); [|done]. intros g. rewrite list_elem_of_filter, elem_of_nil. tauto. }
  destruct (fail_spec L b h s now cause HI Ts Ns) as (b1 & Hb1 & HI1 & F1). destruct (IH _ _ HI1) as (b2 & Hb2 & HI2 & F2).
  exists b2. cbn [for_each mbind option_bind]. rewrite Hb1. cbn [mbind option_bind]. split; [done|]. split; [|by eapply fails_all_cons].
  apply (inv_limbo_ext (filter (fun g => g ∉ hs) (filter (fun g => g <> h) L))); [|done].
  intros g. rewrite !list_elem_of_filter, elem_of_cons. tauto.
Qed.
