(* ===== verification/DialogRequeue.v ===== *)
(** * Maintenance and requeueing in the dialog broker ([cosmix-interaction-broker/src/dialog.rs])

    [maintain] and [requeue_protected] keep the invariant and end without a panic:
    due and outlived dialogs are gone after the one, and after the other every handle
    it was given is back in its queue or failed, within the limits. *)

From S2P Require Import Prelude Utf8 Str BTree DialogSchema RateLimit Dialog DialogInv.

Lemma elem_of_hash_iter `{HashIter} {V} (m : gmap bytes V) k v : (k, v) ∈ hash_iter m <-> m !! k = Some v.
Proof. rewrite hash_iter_perm. apply elem_of_map_to_list. Qed.
Lemma elem_of_hash_values `{HashIter} {V} (m : gmap bytes V) v : v ∈ hash_values m <-> exists k, m !! k = Some v.
Proof.
  unfold hash_values. rewrite list_elem_of_fmap. split.
  - intros ([k v'] & -> & Hin). apply elem_of_hash_iter in Hin. by exists k.
  - intros (k & Hk). exists (k, v). split; [done|]. by apply elem_of_hash_iter.
Qed.

(** ** Maintenance *)

Lemma due_nonterminal now r : is_due now r = true -> is_terminal (state r) = false.
Proof. unfold is_due. by destruct (is_terminal (state r)). Qed.

Lemma expire_due_spec `{HashIter} b now : Inv [] b ->
  exists b', expire_due b now = Some b' /\ Inv [] b' /\ evolves b b' /\
    (forall h r, records b' !! h = Some r -> is_due now r = false) /\
    (forall h r, records b' !! h = Some r -> is_terminal (state r) = false -> records b !! h = Some r) /\
    ((forall h r, records b !! h = Some r -> is_due now r = false) -> b' = b).
Proof.
  intros HI. unfold expire_due. set (hs := handle <$> _).
  destruct (for_each_fails hs Expired CExpire now eq_refl ltac:(done) [] b HI) as (b' & Hb' & HI' & [E O K S _ _]).
  assert (forall h r, records b !! h = Some r -> h ∈ hs <-> is_due now r = true) as Hhs.
  { intros h r Hr. unfold hs. rewrite list_elem_of_fmap. split.
    - intros (r' & Eh & [D Hr']%list_elem_of_filter). apply elem_of_hash_values in Hr' as (k & Hk).
      pose proof (r_handle _ _ _ _ _ (i_record _ _ (proj1 HI) _ _ Hk)). congruence.
    - intros D. exists r. split; [symmetry; apply (r_handle _ _ _ _ _ (i_record _ _ (proj1 HI) _ _ Hr))|].
      apply list_elem_of_filter. split; [done|]. apply elem_of_hash_values. by exists h. }
  exists b'. split; [done|]. split; [done|]. split; [done|]. split.
  - intros h r Hr. destruct (is_due now r) eqn:D; [|done]. pose proof (due_nonterminal _ _ D) as T.
    pose proof (S _ _ Hr T) as Hr0. rewrite <- T. symmetry. eapply O; [|done]. by apply (Hhs _ _ Hr0).
  - split; [done|]. intros Hn. assert (hs = []) as E0; [|rewrite E0 in Hb'; by injection Hb'].
    destruct hs as [|h hs'] eqn:Eh; [done|]. exfalso. assert (h ∈ handle <$> filter (fun r => is_due now r = true) (hash_values (records b))) as Hin by (fold hs; rewrite Eh; by left).
    apply list_elem_of_fmap in Hin as (r & _ & [D (k & Hk)%elem_of_hash_values]%list_elem_of_filter). by rewrite (Hn _ _ Hk) in D.
Qed.

Lemma evict_ttl_spec b now : Inv [] b ->
  let b' := fst (evict_terminal_ttl b now) in
  Inv [] b' /\ evolves b b' /\
  (forall h, records b' !! h = match records b !! h with
     | Some r => if is_some_and (terminal_at_ms r) (fun t => terminal_ttl_ms (retention b) <=? sat_sub64 now t)%Z then None else Some r
     | None => None end).
Proof.
  intros [HI Hret]. cbv zeta. unfold evict_terminal_ttl. cbn [fst]. set (E := filter _ (terminal_order b)).
  destruct (fold_evicts E b) as [[R S L] T]. set (b1 := foldl evict_one b E) in *. set (b' := with_terminal_order _ _).
  assert (evicts E b b') as HE by (by split).
  assert (forall h, h ∈ E <-> h ∈ terminal_order b /\ ttl_over b now h = true) as HinE by (intros h; unfold E; rewrite list_elem_of_filter; tauto).
  assert (terminal_order b' = filter (fun h => h ∉ E) (terminal_order b)) as Ht by (unfold b'; cbn; by rewrite T).
  destruct (i_terminal _ _ HI) as [Hnd Hex].
  destruct (evict_inv0 [] E b b') as [HI' HEv]; [done|by intros h [? _]%HinE| | |done|].
  { rewrite Ht. by apply NoDup_filter. } { intros h. rewrite Ht, list_elem_of_filter. tauto. }
  split; [split; [done|]|split; [done|]].
  - unfold retained in *. assert (retention b' = retention b) as ->.
    { pose proof (v_rest _ _ _ HE) as Hs. unfold rest_of, settings in Hs. congruence. }
    rewrite Ht. pose proof (length_filter (fun h => h ∉ E) (terminal_order b)). lia.
  - intros h. rewrite (v_records _ _ _ HE). destruct (records b !! h) as [r|] eqn:Hr; [|by case_decide].
    destruct (is_some_and _ _) eqn:D.
    + rewrite decide_True; [done|]. apply HinE. split.
      * apply Hex. exists r. split; [done|]. apply (r_terminal _ _ _ _ _ (i_record _ _ HI _ _ Hr)). by destruct (terminal_at_ms r).
      * unfold ttl_over. by rewrite Hr.
    + rewrite decide_False; [done|]. intros [_ Ho]%HinE. unfold ttl_over in Ho. rewrite Hr in Ho. cbn in Ho. congruence.
Qed.

(** Nothing is left to do at [now]. *)
Definition settled (b : DialogBroker) (now : Z) : Prop := forall h r, records b !! h = Some r ->
  is_due now r = false /\ is_some_and (terminal_at_ms r) (fun t => terminal_ttl_ms (retention b) <=? sat_sub64 now t)%Z = false.

Lemma evolves_settings b b' : evolves b b' -> limits b' = limits b /\ retention b' = retention b.
Proof. intros HE. pose proof (e_settings _ _ HE) as Hs. unfold settings in Hs. by injection Hs. Qed.

Lemma maintain_spec `{HashIter} b now : Inv [] b ->
  exists b', maintain b now = Some b' /\ Inv [] b' /\ evolves b b' /\ settled b' now /\
    (forall h r, records b' !! h = Some r -> is_terminal (state r) = false -> records b !! h = Some r) /\
    (settled b now -> records b' = records b).
Proof.
  intros HI. unfold maintain. destruct (expire_due_spec b now HI) as (b1 & -> & HI1 & HE1 & D1 & S1 & K1). cbn [mbind option_bind].
  destruct (evict_ttl_spec b1 now HI1) as (HI2 & HE2 & R2). destruct (evict_terminal_ttl b1 now) as [b2 ev]. cbn [fst] in *.
  eexists. split; [done|]. set (b3 := with_pending_count_evictions _ _). assert (body b3 = body b2) as Hb by done.
  destruct (evolves_settings _ _ HE2) as [_ Er2]. split; [by apply (inv_body _ b2); [| |]; try apply (i_log _ _ (proj1 HI2))|].
  split; [etrans; [exact HE1|]; etrans; [exact HE2|by apply evolves_body]|].
  split.
  - intros h r. change (records b3) with (records b2). change (retention b3) with (retention b2). rewrite Er2, R2.
    destruct (records b1 !! h) as [r1|] eqn:Hr1; [|done]. destruct (is_some_and _ _) eqn:Eo; [done|]. intros [= <-]. split; [by eapply D1|done].
  - split. { intros h r. change (records b3) with (records b2). rewrite R2. destruct (records b1 !! h) as [r1|] eqn:Hr1; [|done].
      destruct (is_some_and _ _); [done|]. intros [= <-] T. by apply S1. }
    intros Hset. change (records b3) with (records b2).
    assert (b1 = b) as -> by (apply K1; intros h r Hr; by apply (Hset h r)).
    apply map_eq. intros h. rewrite R2. destruct (records b !! h) as [r|] eqn:Hr; [|done]. by destruct (Hset _ _ Hr) as [_ ->].
Qed.

(** ** Replacing a record *)

Lemma neither_is_queued s : is_terminal s = false -> is_active s = false -> s = Queued.
Proof. by destruct s. Qed.

Lemma replace_inv L L' b h r r1 :
  Inv L b -> records b !! h = Some r -> record_ok (presenter b) (next_attempt_token b) (h ∈ L') h r1 ->
  (forall g, g <> h -> g ∈ L' <-> g ∈ L) -> (h ∈ L' -> is_active (state r1) = true) ->
  is_terminal (state r1) = is_terminal (state r) -> is_active (state r1) = is_active (state r) ->
  owner_service r1 = owner_service r -> attempt r1 = None \/ attempt r1 = attempt r ->
  Inv L' (with_records b (<[h := r1]> (records b))).
Proof.
  intros [[H1 H2 H3 H4 H5 [H6 H6'] H7 H8 H9 H10] Hret] Hr Hok HL HA ET EA EO Eat. split; [split|done]; try done; cbn [records with_records
    presenter next_attempt_token limits queued_by_origin origin_turns retention terminal_order].
  - intros g r'. rewrite lookup_insert_Some. intros [[<- <-]|[Hne Hg]]; [done|]. destruct (H2 _ _ Hg) as [S1 S2 S3 S4 S5 S6 S7 S8]. split; try done.
    rewrite HL by done. done.
  - assert (forall g r' a, <[h:=r1]> (records b) !! g = Some r' -> attempt r' = Some a -> exists r0, records b !! g = Some r0 /\ attempt r0 = Some a) as Hback.
    { intros g r' a. rewrite lookup_insert_Some. intros [[<- <-]|[_ Hg]] Ha; [|by exists r'].
      destruct Eat as [E|E]; rewrite E in Ha; [done|by exists r]. }
    intros h1 h2 r1' r2' a1 a2 Hh1 Hh2 Ha1 Ha2. destruct (Hback _ _ _ Hh1 Ha1) as (x1 & ? & ?). destruct (Hback _ _ _ Hh2 Ha2) as (x2 & ? & ?). by eapply H3.
  - refine (queues_ok_ext _ _ _ _ _ _ _ _ _ H4); [|done]. intros g o. split; intros (r' & Hr' & S & O).
    + destruct (decide (g = h)) as [->|Hne]; [|exists r'; by rewrite lookup_insert_ne]. exists r1. rewrite lookup_insert_eq.
      assert (r' = r) as -> by congruence. rewrite EO. split; [done|]. split; [|done]. rewrite S in ET, EA. by apply neither_is_queued.
    + rewrite lookup_insert_Some in Hr'. destruct Hr' as [[<- <-]|[Hne Hr']]; [|by exists r']. exists r. split; [done|]. split; [|congruence].
      rewrite S in ET, EA. by apply neither_is_queued.
  - etrans; [|exact H5]. apply Nat2Z.inj_le, active_mono. cbn [records with_records]. intros g r'. rewrite lookup_insert_Some. intros [[<- <-]|[_ Hg]] A.
    + exists r. split; [done|congruence].
    + by exists r'.
  - split; [done|]. intros g. rewrite H6'. split; intros (r' & Hr' & T).
    + destruct (decide (g = h)) as [->|Hne]; [exists r1; rewrite lookup_insert_eq; split; [done|congruence]|]. exists r'. by rewrite lookup_insert_ne.
    + rewrite lookup_insert_Some in Hr'. destruct Hr' as [[<- <-]|[_ ?]]; [exists r; split; [done|congruence]|by exists r'].
  - intros g Hg. destruct (decide (g = h)) as [->|Hne]; [exists r1; rewrite lookup_insert_eq; auto|]. rewrite lookup_insert_ne by done. by apply H7, HL.
Qed.

Lemma evolves_replace b h r r1 : records b !! h = Some r -> follows r r1 -> evolves b (with_records b (<[h := r1]> (records b))).
Proof.
  intros Hr F. split; [done|done| |by intros g r' w _ _ Hw _; exists w].
  cbn [records with_records]. intros g r'. rewrite lookup_insert_Some. intros [[<- <-]|[_ Hg]]; [by exists r|].
  exists r'. split; [done|apply follows_refl].
Qed.

(** The record whose attempt is taken back, with [n] requeues counted. *)
Definition taken (r : DialogRecord) (n : Z) : DialogRecord :=
  mkRecord (handle r) (owner_service r) (owner_token r) (request r) (state r) (created_at_ms r) (expires_at_ms r)
    (terminal_at_ms r) None (progress r) (cancel_requested r) (ever_presented r) n (value r).

Lemma take_attempt L b h r n : Inv L b -> records b !! h = Some r -> is_active (state r) = true ->
  (0 <= n <= MAX_DIALOG_PRE_DISPLAY_REQUEUES)%Z ->
  let r1 := taken r n in
  let b1 := with_records b (<[h := r1]> (records b)) in
  Inv (h :: L) b1 /\ evolves b b1.
Proof.
  intros HI Hr A Hn r1 b1. pose proof (i_record _ _ (proj1 HI) _ _ Hr) as [S1 S2 S3 S4 S5 S6 S7 S8]. split.
  - apply (replace_inv L _ _ _ r); try done; [|intros g Hg; rewrite elem_of_cons; tauto|by left].
    split; try done. split; [by intros []|]. intros [_ []]. by left.
  - apply (evolves_replace _ _ r); [done|]. split; [done|]. rewrite (active_not_terminal _ A), A. intros E. change (state r = Resolved) in E. by rewrite E in A.
Qed.

Lemma take_back_one L b el qu h c r : Inv L b -> records b !! h = Some r -> is_active (state r) = true ->
  exists b' el' qu', take_back (b, el, qu) (c, h) = Some (b', el ++ el', qu ++ qu') /\ Inv (h :: L) b' /\ evolves b b' /\
    (snd <$> el') ++ qu' = [h] /\ (forall g, g <> h -> records b' !! g = records b !! g).
Proof.
  intros HI Hr A. pose proof (r_requeues _ _ _ _ _ (i_record _ _ (proj1 HI) _ _ Hr)) as Hq. unfold take_back. rewrite Hr. cbn [mbind option_bind].
  cbn [ever_presented with_attempt pre_display_requeues].
  assert (forall n, (0 <= n <= MAX_DIALOG_PRE_DISPLAY_REQUEUES)%Z ->
    let b' := with_records b (<[h := taken r n]> (records b)) in
    Inv (h :: L) b' /\ evolves b b' /\ (forall g, g <> h -> records b' !! g = records b !! g)) as Hstep.
  { intros n Hn. destruct (take_attempt L b h r n HI Hr A Hn) as [HI1 HE1]. split; [done|]. split; [done|].
    cbn [records with_records]. intros g Hg. by rewrite lookup_insert_ne. }
  destruct (ever_presented r) eqn:Ev; [|destruct (Z.leb_spec MAX_DIALOG_PRE_DISPLAY_REQUEUES (pre_display_requeues r))].
  - destruct (Hstep _ Hq) as (? & ? & ?). exists (with_records b (<[h := with_attempt r None]> (records b))), [(c, h)], []. by rewrite app_nil_r.
  - destruct (Hstep _ Hq) as (? & ? & ?). exists (with_records b (<[h := with_attempt r None]> (records b))), [], [h]. by rewrite app_nil_r.
  - destruct (Hstep (pre_display_requeues r + 1)%Z ltac:(lia)) as (? & ? & ?).
    exists (with_records b (<[h := taken r (pre_display_requeues r + 1)]> (records b))), [(c, h)], []. unfold taken at 1. rewrite Ev, app_nil_r. done.
Qed.

Lemma take_back_spec aged : forall L b el qu, Inv L b -> NoDup (snd <$> aged) ->
  (forall h, h ∈ snd <$> aged -> exists r, records b !! h = Some r /\ is_active (state r) = true) ->
  exists b' el' qu', for_each take_back (b, el, qu) aged = Some (b', el ++ el', qu ++ qu') /\
    Inv ((snd <$> aged) ++ L) b' /\ evolves b b' /\ (snd <$> el') ++ qu' ≡ₚ snd <$> aged.
Proof.
  induction aged as [|[c h] aged IH]; intros L b el qu HI Hnd Hact.
  { exists b, [], []. rewrite !app_nil_r. done. }
  cbn [fmap list_fmap snd] in Hnd, Hact. apply NoDup_cons in Hnd as [Hh Hnd]. destruct (Hact h ltac:(by left)) as (r & Hr & A).
  destruct (take_back_one L b el qu h c r HI Hr A) as (b1 & el1 & qu1 & H1 & HI1 & HE1 & P1 & R1).
  destruct (IH (h :: L) b1 (el ++ el1) (qu ++ qu1) HI1 Hnd) as (b2 & el2 & qu2 & H2 & HI2 & HE2 & P2).
  { intros g Hg. rewrite R1; [apply Hact; by right|]. by intros ->. }
  exists b2, (el1 ++ el2), (qu1 ++ qu2). cbn [for_each]. rewrite H1. cbn [mbind option_bind]. rewrite H2, <- !app_assoc. split; [done|]. split; [|split; [by etrans|]].
  - apply (inv_limbo_ext ((snd <$> aged) ++ h :: L)); [|done]. intros g. cbn [fmap list_fmap snd]. rewrite !elem_of_app, !elem_of_cons. tauto.
  - cbn [fmap list_fmap snd]. rewrite fmap_app, <- P2. change (h :: (snd <$> el2) ++ qu2) with ([h] ++ ((snd <$> el2) ++ qu2)). rewrite <- P1. solve_Permutation.
Qed.

(** ** Making room *)

Definition qrecs (b : DialogBroker) : nat := size (filter (fun kr => state (snd kr) = Queued) (records b)).

(** The queues only lose. *)
Record shrinks (b b' : DialogBroker) : Prop := mkShrinks {
  s_evolves : evolves b b';
  s_qrecs : qrecs b' <= qrecs b;
  s_total : queued_len b' <= queued_len b;
  s_origin : forall o, origin_queue_len b' o <= origin_queue_len b o }.
#[export] Instance shrinks_preorder : PreOrder shrinks.
Proof.
  split; [intros b; split; try done; reflexivity|]. intros b1 b2 b3 [E1 Q1 T1 O1] [E2 Q2 T2 O2].
  split; [by etrans|lia|lia|]. intros o. specialize (O1 o). specialize (O2 o). lia.
Qed.

Lemma drop_queued L b h r now cause : Inv L b -> records b !! h = Some r -> state r = Queued ->
  exists b', transition_terminal b h SFailed None now cause = Some b' /\ Inv L b' /\ shrinks b b' /\ qrecs b' < qrecs b.
Proof.
  intros HI Hr S. destruct (fail_spec L b h SFailed now cause HI eq_refl ltac:(done)) as (b' & Hb' & HI' & [E O K Sub T Q]).
  assert (qrecs b' < qrecs b) as Hlt.
  { unfold qrecs. rewrite <- !size_dom. apply subset_size. split.
    - intros g [r' [Hr' S']%map_lookup_filter_Some]%elem_of_dom. apply elem_of_dom. exists r'. apply map_lookup_filter_Some.
      cbn in S'. split; [|done]. apply Sub; [done|by rewrite S'].
    - intros Hsub. assert (h ∈ dom (filter (fun kr : bytes * DialogRecord => state kr.2 = Queued) (records b'))) as Hin.
      { apply Hsub, elem_of_dom. exists r. by apply map_lookup_filter_Some. }
      apply elem_of_dom in Hin as [r' [Hr' S']%map_lookup_filter_Some]. cbn in S'. pose proof (O _ Hr') as T'. by rewrite S' in T'. }
  exists b'. split; [done|]. split; [|split; [split; [done|lia|done|done]|done]].
  apply (inv_limbo_ext (filter (fun g => g <> h) L)); [|done]. intros g. rewrite list_elem_of_filter. split; [by intros [_ ?]|].
  intros Hg. split; [|done]. intros ->. destruct (i_limbo _ _ (proj1 HI) _ Hg) as (r' & Hr' & A). assert (r' = r) as -> by congruence. by rewrite S in A.
Qed.

Lemma min_age_elem l : match min_age l with Some x => x ∈ l | None => l = [] end.
Proof.
  destruct l as [|x l]; [done|]. cbn [min_age]. revert x. induction l as [|y l IH]; intros x; [by left|]. cbn [foldl].
  specialize (IH (if age_leb x y then x else y)). destruct (age_leb x y); rewrite !elem_of_cons in *; tauto.
Qed.

Definition for_origin (o : option bytes) (r : DialogRecord) : Prop := match o with Some o => owner_service r = o | None => True end.

Lemma oldest_queued_spec `{HashIter} L b o : Inv L b ->
  match oldest_queued b o with
  | Some h => exists r, records b !! h = Some r /\ state r = Queued /\ for_origin o r
  | None => forall h r, records b !! h = Some r -> state r = Queued -> ~ for_origin o r
  end.
Proof.
  intros HI. unfold oldest_queued. set (cs := filter _ (hash_values (records b))).
  assert (forall r, r ∈ cs <-> state r = Queued /\ for_origin o r /\ exists h, records b !! h = Some r) as Hcs.
  { intros r. unfold cs. rewrite list_elem_of_filter, andb_true_iff, bool_decide_eq_true, elem_of_hash_values.
    assert (is_none_or o (fun o0 => bool_decide (owner_service r = o0)) = true <-> for_origin o r) as ->; [|tauto].
    destruct o; cbn; [apply bool_decide_eq_true|tauto]. }
  pose proof (min_age_elem ((fun r => (created_at_ms r, handle r)) <$> cs)) as Hm. destruct (min_age _) as [[c h]|]; cbn [fmap option_fmap option_map snd].
  - apply list_elem_of_fmap in Hm as (r & [= -> ->] & (S & O & k & Hk)%Hcs). exists r.
    by rewrite (r_handle _ _ _ _ _ (i_record _ _ (proj1 HI) _ _ Hk)).
  - intros h r Hr S O. apply fmap_nil_inv in Hm. assert (r ∈ cs) as Hin by (apply Hcs; eauto). rewrite Hm in Hin. by apply elem_of_nil in Hin.
Qed.

Lemma origin_queue_live L b o : Inv L b -> 0 < origin_queue_len b o ->
  exists h r, records b !! h = Some r /\ state r = Queued /\ owner_service r = o.
Proof.
  intros HI. unfold origin_queue_len. destruct (queued_by_origin b !! o) as [q|] eqn:Hq; [|lia]. destruct q as [|h q]; [cbn; lia|].
  intros _. destruct (q_live _ _ _ _ _ (i_queues _ _ (proj1 HI)) _ _ h Hq ltac:(by left)) as (r & ? & ? & ?). by exists h, r.
Qed.
Lemma queue_live L b : Inv L b -> 0 < queued_len b -> exists o, 0 < origin_queue_len b o.
Proof.
  intros HI Hpos. change (queued_len b) with (qsum (queued_by_origin b)) in Hpos.
  destruct (map_choose (queued_by_origin b)) as (o & q & Hq).
  { intros E. rewrite E in Hpos. unfold qsum in Hpos. rewrite map_fold_empty in Hpos. lia. }
  exists o. unfold origin_queue_len. rewrite Hq. destruct (q_shape _ _ _ _ _ (i_queues _ _ (proj1 HI)) _ _ Hq) as (Hne & _ & _). destruct q; [done|cbn; lia].
Qed.
Lemma no_queued L b : Inv L b -> (forall h r, records b !! h = Some r -> state r = Queued -> ~ for_origin None r) -> queued_len b = 0.
Proof.
  intros HI Hn. destruct (queued_len b) eqn:E; [done|]. destruct (queue_live L b HI ltac:(lia)) as (o & Ho).
  destruct (origin_queue_live L b o HI Ho) as (h & r & Hr & S & _). by destruct (Hn h r Hr S).
Qed.

Lemma fail_all_spec `{HashIter} fuel L now cause : forall b, Inv L b -> qrecs b <= fuel ->
  exists b', fail_all_queued fuel b now cause = Some b' /\ Inv L b' /\ shrinks b b' /\ queued_len b' = 0.
Proof.
  induction fuel as [|fuel IH]; intros b HI Hq; pose proof (oldest_queued_spec L b None HI) as Ho; cbn [fail_all_queued];
    destruct (oldest_queued b None) as [h|].
  - destruct Ho as (r & Hr & S & _). destruct (drop_queued L b h r now cause HI Hr S) as (? & _ & _ & _ & ?). lia.
  - exists b. split; [done|]. split; [done|]. split; [reflexivity|]. by eapply no_queued.
  - destruct Ho as (r & Hr & S & _). destruct (drop_queued L b h r now cause HI Hr S) as (b1 & -> & HI1 & S1 & Hlt). cbn [mbind option_bind].
    destruct (IH b1 HI1 ltac:(lia)) as (b2 & Hb2 & HI2 & S2 & HE). exists b2. split; [done|]. split; [done|]. split; [by etrans|done].
  - exists b. split; [done|]. split; [done|]. split; [reflexivity|]. by eapply no_queued.
Qed.

Lemma queue_bounds L b o : Inv L b -> origin_queue_len b o <= queued_len b /\
  (Z.of_nat (queued_len b) <= total (limits b))%Z /\ (Z.of_nat (origin_queue_len b o) <= per_origin (limits b))%Z.
Proof.
  intros [HI _]. pose proof (i_queues _ _ HI) as HQ. change (queued_len b) with (qsum (queued_by_origin b)). split; [|split].
  - unfold origin_queue_len. destruct (queued_by_origin b !! o) as [q|] eqn:Hq; [|lia]. rewrite (qsum_delete _ _ _ Hq). lia.
  - apply HQ.
  - unfold origin_queue_len. destruct (queued_by_origin b !! o) as [q|] eqn:Hq; [|apply (i_config _ _ HI)]. by apply (q_shape _ _ _ _ _ HQ o).
Qed.

Lemma no_saturation L b k n : Inv L b -> k <= queued_len b -> (Z.of_nat n <= active (retention b))%Z ->
  sat_add64 (Z.of_nat k) (Z.of_nat n) = (Z.of_nat k + Z.of_nat n)%Z.
Proof.
  intros HI Hk Hn. destruct (queue_bounds L b [] HI) as (_ & Ht & _). destruct (i_config _ _ (proj1 HI)) as (_ & _ & _ & _ & Hc).
  unfold sat_add64, U64_MAX, USIZE_MAX in *. lia.
Qed.

Lemma fail_origin_spec `{HashIter} fuel L o n now cause : forall b, Inv L b -> qrecs b <= fuel ->
  (Z.of_nat n <= per_origin (limits b))%Z -> (Z.of_nat n <= active (retention b))%Z ->
  exists b', fail_origin_overflow fuel b o n now cause = Some b' /\ Inv L b' /\ shrinks b b' /\
    (Z.of_nat (origin_queue_len b' o + n) <= per_origin (limits b'))%Z.
Proof.
  induction fuel as [|fuel IH]; intros b HI Hq Hn Ha; cbn [fail_origin_overflow]; destruct (queue_bounds L b o HI) as (Hle & _ & _);
    rewrite (no_saturation L b _ n HI Hle Ha); (destruct (Z.ltb_spec (per_origin (limits b)) (Z.of_nat (origin_queue_len b o) + Z.of_nat n));
      [|exists b; split; [done|]; split; [done|]; split; [reflexivity|lia]]);
    destruct (origin_queue_live L b o HI ltac:(lia)) as (g & r0 & Hg & Sg & Og).
  - destruct (drop_queued L b g r0 now cause HI Hg Sg) as (? & _ & _ & _ & ?). lia.
  - pose proof (oldest_queued_spec L b (Some o) HI) as Ho. destruct (oldest_queued b (Some o)) as [h|]; [|by destruct (Ho g r0 Hg Sg)].
    destruct Ho as (r & Hr & S & _). destruct (drop_queued L b h r now cause HI Hr S) as (b1 & Hb1 & HI1 & S1 & Hlt). cbn [mbind option_bind]. rewrite Hb1. cbn [mbind option_bind].
    destruct (evolves_settings _ _ (s_evolves _ _ S1)) as [E1 E2].
    destruct (IH b1 HI1 ltac:(lia) ltac:(by rewrite E1) ltac:(by rewrite E2)) as (b2 & Hb2 & HI2 & S2 & HE).
    exists b2. split; [done|]. split; [done|]. split; [by etrans|done].
Qed.

Lemma fail_total_spec `{HashIter} fuel L n now cause : forall b, Inv L b -> qrecs b <= fuel ->
  (Z.of_nat n <= total (limits b))%Z -> (Z.of_nat n <= active (retention b))%Z ->
  exists b', fail_total_overflow fuel b n now cause = Some b' /\ Inv L b' /\ shrinks b b' /\
    (Z.of_nat (queued_len b' + n) <= total (limits b'))%Z.
Proof.
  induction fuel as [|fuel IH]; intros b HI Hq Hn Ha; cbn [fail_total_overflow]; rewrite (no_saturation L b _ n HI ltac:(done) Ha);
    (destruct (Z.ltb_spec (total (limits b)) (Z.of_nat (queued_len b) + Z.of_nat n));
      [|exists b; split; [done|]; split; [done|]; split; [reflexivity|lia]]);
    destruct (queue_live L b HI ltac:(lia)) as (o & Hpos); destruct (origin_queue_live L b o HI Hpos) as (g & r0 & Hg & Sg & Og).
  - destruct (drop_queued L b g r0 now cause HI Hg Sg) as (? & _ & _ & _ & ?). lia.
  - pose proof (oldest_queued_spec L b None HI) as Ho. destruct (oldest_queued b None) as [h|]; [|by destruct (Ho g r0 Hg Sg)].
    destruct Ho as (r & Hr & S & _). destruct (drop_queued L b h r now cause HI Hr S) as (b1 & Hb1 & HI1 & S1 & Hlt). cbn [mbind option_bind]. rewrite Hb1. cbn [mbind option_bind].
    destruct (evolves_settings _ _ (s_evolves _ _ S1)) as [E1 E2].
    destruct (IH b1 HI1 ltac:(lia) ltac:(by rewrite E1) ltac:(by rewrite E2)) as (b2 & Hb2 & HI2 & S2 & HE).
    exists b2. split; [done|]. split; [done|]. split; [by etrans|done].
Qed.

(** The protected handles by origin. *)
Definition own (b : DialogBroker) (h : bytes) : bytes := match records b !! h with Some r => owner_service r | None => [] end.
Definition cnt (f : bytes -> bytes) (o : bytes) (hs : list bytes) : nat := length (filter (fun h => f h = o) hs).

Lemma cnt_cons f o h hs : cnt f o (h :: hs) = (if decide (f h = o) then 1 else 0) + cnt f o hs.
Proof. unfold cnt. rewrite filter_cons. by case_decide. Qed.
Lemma cnt_le f o hs : cnt f o hs <= length hs.
Proof. apply length_filter. Qed.
Lemma cnt_ext f g o hs : (forall h, h ∈ hs -> f h = g h) -> cnt f o hs = cnt g o hs.
Proof.
  induction hs as [|h hs IH]; intros E; [done|]. rewrite !cnt_cons, IH by (intros; apply E; by right). by rewrite (E h) by (by left).
Qed.

Lemma count_origin_spec b hs : forall m, (forall h, h ∈ hs -> is_Some (records b !! h)) ->
  exists m', for_each (count_origin b) m hs = Some m' /\ forall o, default 0 (m' !! o) = default 0 (m !! o) + cnt (own b) o hs.
Proof.
  induction hs as [|h hs IH]; intros m Hrec; [exists m; split; [done|]; intros o; cbn; lia|].
  destruct (Hrec h ltac:(by left)) as [r Hr]. cbn [for_each]. change (count_origin b m h) with (r ← records b !! h; Some (<[owner_service r := S (default 0 (m !! owner_service r))]> m)). rewrite Hr. cbn [mbind option_bind].
  destruct (IH (<[owner_service r := S (default 0 (m !! owner_service r))]> m)) as (m' & -> & Hm'); [intros g Hg; apply Hrec; by right|].
  exists m'. split; [done|]. intros o. rewrite Hm', cnt_cons.
  assert (own b h = owner_service r) as -> by (unfold own; by rewrite Hr). case_decide as E.
  - subst o. rewrite lookup_insert_eq. cbn. lia.
  - rewrite lookup_insert_ne by done. lia.
Qed.

(** Room for [hs]: the queues are empty, or each limit has it. *)
Definition room (b : DialogBroker) (f : bytes -> bytes) (hs : list bytes) : Prop :=
  queued_len b = 0 \/
  ((Z.of_nat (queued_len b + length hs) <= total (limits b))%Z /\
   forall o, (Z.of_nat (origin_queue_len b o + cnt f o hs) <= per_origin (limits b))%Z).

Lemma qrecs_size b : qrecs b <= size (records b).
Proof. apply map_subseteq_size, map_filter_subseteq. Qed.

Lemma origins_loop `{HashIter} fuel L f hs now cause (per : list (bytes * nat)) :
  (forall o n, (o, n) ∈ per -> n = cnt f o hs) ->
  forall b, Inv L b -> qrecs b <= fuel -> (forall o, (Z.of_nat (cnt f o hs) <= per_origin (limits b))%Z) ->
  (Z.of_nat (length hs) <= active (retention b))%Z ->
  exists b', for_each (fun b oc => fail_origin_overflow fuel b (fst oc) (snd oc) now cause) b per = Some b' /\ Inv L b' /\ shrinks b b' /\
    forall o n, (o, n) ∈ per -> (Z.of_nat (origin_queue_len b' o + n) <= per_origin (limits b'))%Z.
Proof.
  induction per as [|[o n] per IH]; intros Hper b HI Hq Hcnt Ha.
  { exists b. split; [done|]. split; [done|]. split; [reflexivity|]. by intros o n Hin%elem_of_nil. }
  pose proof (Hper o n ltac:(by left)) as ->. pose proof (cnt_le f o hs) as Hle. cbn [for_each fst snd].
  destruct (fail_origin_spec fuel L o (cnt f o hs) now cause b HI Hq (Hcnt o) ltac:(lia)) as (b1 & -> & HI1 & S1 & Hr1). cbn [mbind option_bind].
  destruct (evolves_settings _ _ (s_evolves _ _ S1)) as [E1 E2]. pose proof (s_qrecs _ _ S1) as Hq1.
  destruct (IH ltac:(intros o' n' Hin; apply Hper; by right) b1 HI1 ltac:(lia) ltac:(by rewrite E1) ltac:(by rewrite E2)) as (b2 & -> & HI2 & S2 & Hr2).
  exists b2. split; [done|]. split; [done|]. split; [by etrans|]. intros o' n' [[= -> ->]|Hin]%elem_of_cons; [|by apply Hr2].
  pose proof (s_origin _ _ S2 o). destruct (evolves_settings _ _ (s_evolves _ _ S2)) as [E3 _]. rewrite E3. lia.
Qed.

Lemma make_room_spec `{HashIter} b hs now cause : Inv hs b -> (Z.of_nat (length hs) <= active (retention b))%Z ->
  exists b', make_queue_room b hs now cause = Some b' /\ Inv hs b' /\ evolves b b' /\ room b' (own b) hs.
Proof.
  intros HI Ha. unfold make_queue_room. destruct (count_origin_spec b hs ∅) as (per & -> & Hper).
  { intros h Hh. destruct (i_limbo _ _ (proj1 HI) h Hh) as (r & -> & _). by eexists. }
  cbn [mbind option_bind]. assert (forall o, default 0 (per !! o) = cnt (own b) o hs) as Hper' by (intros o; rewrite Hper, lookup_empty; done).
  destruct (_ || _) eqn:Eover.
  { destruct (fail_all_spec (size (records b)) hs now cause b HI (qrecs_size b)) as (b' & Hb' & HI' & S' & E').
    exists b'. split; [done|]. split; [done|]. split; [apply S'|by left]. }
  apply orb_false_iff in Eover as [Et Ep]. apply Z.ltb_ge in Et.
  assert (forall o, (Z.of_nat (cnt (own b) o hs) <= per_origin (limits b))%Z) as Hcnt.
  { intros o. rewrite <- Hper'. destruct (per !! o) as [n|] eqn:Hn; [|cbn; apply (i_config _ _ (proj1 HI))]. cbn.
    apply Z.ltb_ge. rewrite <- not_true_iff_false in Ep |- *. intros Hlt. apply Ep.
    apply existsb_exists. exists n. split; [|done]. apply list_elem_of_In, elem_of_hash_values. by exists o. }
  destruct (origins_loop (size (records b)) hs (own b) hs now cause (hash_iter per)) with (b := b) as (b1 & -> & HI1 & S1 & Hr1); try done.
  { intros o n Hon%elem_of_hash_iter. by rewrite <- Hper', Hon. } { apply qrecs_size. }
  cbn [mbind option_bind]. destruct (evolves_settings _ _ (s_evolves _ _ S1)) as [E1 E2]. pose proof (qrecs_size b). pose proof (s_qrecs _ _ S1).
  destruct (fail_total_spec (size (records b)) hs (length hs) now cause b1 HI1 ltac:(lia) ltac:(by rewrite E1) ltac:(by rewrite E2)) as (b2 & -> & HI2 & S2 & Ht2).
  exists b2. split; [done|]. split; [done|]. split; [etrans; [apply S1|apply S2]|]. right. split; [done|]. intros o.
  destruct (evolves_settings _ _ (s_evolves _ _ S2)) as [E3 _]. pose proof (s_origin _ _ S2 o) as Ho. rewrite <- Hper'.
  destruct (per !! o) as [n|] eqn:Hn; cbn.
  - apply elem_of_hash_iter in Hn. specialize (Hr1 _ _ Hn). rewrite E3. lia.
  - destruct (queue_bounds hs b2 o HI2) as (_ & _ & Hb). lia.
Qed.

(** ** Back into the queues *)

Lemma enqueue_lens b o h : queued_len (enqueue b o h) = S (queued_len b) /\
  forall o', origin_queue_len (enqueue b o h) o' = (if decide (o = o') then 1 else 0) + origin_queue_len b o'.
Proof.
  assert (queued_by_origin (enqueue b o h) = <[o := default [] (queued_by_origin b !! o) ++ [h]]> (queued_by_origin b)) as E.
  { unfold enqueue. by destruct (default [] _). }
  unfold queued_len, origin_queue_len. rewrite E. change (map_fold _ 0 (queued_by_origin b)) with (qsum (queued_by_origin b)).
  match goal with |- map_fold _ 0 ?m = _ /\ _ => change (map_fold (fun _ q n => length q + n) 0 m) with (qsum m) end. split.
  - destruct (queued_by_origin b !! o) as [q|] eqn:Hq; cbn [default from_option id].
    + pose proof (qsum_insert _ _ _ (q ++ [h]) Hq) as Hs. rewrite length_app in Hs. cbn [length] in Hs. lia.
    + rewrite qsum_new by done. done.
  - intros o'. case_decide as Eo; [subst o'; rewrite lookup_insert_eq|by rewrite lookup_insert_ne].
    destruct (queued_by_origin b !! o); cbn [default from_option id]; rewrite ?length_app; cbn [length app]; lia.
Qed.

Lemma accept_inv hs b h r cause :
  Inv (h :: hs) b -> h ∉ hs -> records b !! h = Some r ->
  (Z.of_nat (queued_len b) < total (limits b))%Z -> (Z.of_nat (origin_queue_len b (owner_service r)) < per_origin (limits b))%Z ->
  let b' := record_transition (enqueue (with_records b (<[h := with_state r Queued]> (records b))) (owner_service r) h) h
              (Some (state r)) (Some Queued) cause in
  Inv hs b' /\ evolves b b' /\ records b' !! h = Some (with_state r Queued) /\ queued_len b' = S (queued_len b) /\
  (forall o, origin_queue_len b' o = (if decide (owner_service r = o) then 1 else 0) + origin_queue_len b o).
Proof.
  intros [[H1 H2 H3 H4 H5 [H6 H6'] H7 H8 H9 H10] Hret] Hh Hr Ht Hp b'.
  destruct (H7 h ltac:(by left)) as (r' & Hr' & A). assert (r' = r) as -> by congruence.
  pose proof (H2 _ _ Hr) as [S1 S2 S3 S4 S5 S6 S7 S8].
  assert (attempt r = None) as Eat. { destruct (attempt r); [|done]. destruct (proj1 S7 ltac:(by eexists)) as [_ []]. by left. }
  set (b0 := with_records b (<[h := with_state r Queued]> (records b))) in *. set (b1 := enqueue b0 (owner_service r) h) in *.
  destruct (enqueue_queues b0 (owner_service r) h (limits b) (next_attempt_token b < U64_MAX)%Z (queued_at (records b))) as [HQ HW]; [|done|done|done|].
  { intros o (x & Hx & Sx & _). assert (x = r) as -> by congruence. by rewrite Sx in A. }
  fold b1 in HQ, HW. destruct (enqueue_lens b0 (owner_service r) h) as [L1 L2]. fold b1 in L1, L2.
  destruct (enqueue_shape b0 (owner_service r) h) as (m & turns & Eb1). fold b1 in Eb1.
  assert (body b' = body b1) as Eb by apply record_transition_body.
  assert (log_ok b') as Hlog by (apply record_transition_log; rewrite Eb1; exact H10).
  assert (records b1 = <[h := with_state r Queued]> (records b)) as Er by (by rewrite Eb1).
  assert (settings b1 = settings b /\ lease_part b1 = lease_part b /\ terminal_order b1 = terminal_order b) as (ES & EL & EO) by (by rewrite Eb1).
  assert (log_ok b1) as Hlog1 by (by rewrite Eb1).
  clearbody b1. clear Eb1 m turns.
  assert (Inv0 hs b1 /\ evolves b b1) as [HI1 HE1].
  { pose proof ES as ES'. pose proof EL as EL'. unfold settings in ES. injection ES as E1 E2 E3 E4. unfold lease_part in EL. injection EL as E5 E6 E7. split; [split|split].
    - by rewrite E1, E2.
    - intros g x. rewrite Er, E5, E7, lookup_insert_Some. intros [[<- <-]|[Hne Hg]].
      + split; try done; cbn [state with_state terminal_at_ms value attempt].
        * rewrite S4, (active_not_terminal _ A). done.
        * destruct (value r); [|done]. destruct S5 as [E _]. by rewrite E in A.
        * rewrite Eat. split; [by intros []|by intros []].
      + destruct (H2 _ _ Hg) as [T1 T2 T3 T4 T5 T6 T7 T8]. split; try done. rewrite T7, elem_of_cons. split; intros [? HN]; (split; [done|]); [tauto|].
        intros [->|?]; [done|by apply HN].
    - intros h1 h2 r1 r2 a1 a2. rewrite Er, !lookup_insert_Some. intros [[<- <-]|[_ Hr1]]; [cbn; congruence|]. intros [[<- <-]|[_ Hr2]]; [cbn; congruence|]. by apply H3.
    - rewrite E1, E7. refine (queues_ok_ext _ _ _ _ _ _ _ _ _ HQ); [|done]. intros g o. rewrite Er. split.
      + intros [[-> ->]|(x & Hx & Sx & Ox)]; [exists (with_state r Queued); by rewrite lookup_insert_eq|]. exists x. rewrite lookup_insert_ne; [done|].
        intros <-. assert (x = r) as -> by congruence. by rewrite Sx in A.
      + intros (x & Hx & Sx & Ox). rewrite lookup_insert_Some in Hx. destruct Hx as [[<- <-]|[_ Hx]]; [left; by rewrite <- Ox|right; by exists x].
    - rewrite E2. etrans; [|exact H5]. apply Nat2Z.inj_le, active_mono. intros g x. rewrite Er, lookup_insert_Some. intros [[<- <-]|[_ Hg]] Ax; [done|by exists x].
    - rewrite EO. split; [done|]. intros g. rewrite H6', Er. split; intros (x & Hx & Tx).
      + exists x. rewrite lookup_insert_ne; [done|]. intros <-. assert (x = r) as -> by congruence. apply active_not_terminal in A. congruence.
      + rewrite lookup_insert_Some in Hx. destruct Hx as [[<- <-]|[_ Hx]]; [done|by exists x].
    - intros g Hg. rewrite Er, lookup_insert_ne by (by intros ->). apply H7. by right.
    - rewrite E5, E3, E6. done.
    - by rewrite E6, E7.
    - done.
    - done.
    - done.
    - intros g x. rewrite Er, lookup_insert_Some. intros [[<- <-]|[_ Hg]]; [|exists x; split; [done|apply follows_refl]].
      exists r. split; [done|]. split; [done|]. by rewrite (active_not_terminal _ A), A.
    - intros g x w Hg Sg Hw _. exists w. split; [done|]. unfold wait_of in *. rewrite E1 in Hw. apply HW; [|done]. intros ->.
      assert (x = r) as -> by congruence. by rewrite Sg in A. }
  assert (Inv hs b1) as HI1'.
  { split; [done|]. unfold retained in *. rewrite EO. unfold settings in ES. by injection ES as _ -> _ _. }
  split; [by apply (inv_body _ b1)|]. split; [etrans; [exact HE1|by apply evolves_body]|].
  unfold body in Eb. apply pair_equal_spec in Eb as [Eb _]. apply pair_equal_spec in Eb as [Eb _]. apply pair_equal_spec in Eb as [Eb _].
  apply pair_equal_spec in Eb as [Eb _]. apply pair_equal_spec in Eb as [Eb1 Eb2].
  unfold queued_len, origin_queue_len. rewrite Eb1, Eb2, Er, lookup_insert_eq. split; [done|]. split; [exact L1|exact L2].
Qed.

Lemma evolves_own b b' h r : evolves b b' -> records b' !! h = Some r -> own b' h = own b h.
Proof.
  intros HE Hr. destruct (e_follows _ _ HE _ _ Hr) as (r0 & Hr0 & [I _]). unfold own. rewrite Hr, Hr0. unfold identity in I. by injection I.
Qed.
Lemma evolves_inactive b b' h : evolves b b' -> (forall r, records b !! h = Some r -> is_active (state r) = false) ->
  forall r, records b' !! h = Some r -> is_active (state r) = false.
Proof.
  intros HE Hin r Hr. destruct (e_follows _ _ HE _ _ Hr) as (r0 & Hr0 & F). destruct (is_active (state r)) eqn:A; [|done].
  apply (follows_active _ _ F) in A. by rewrite (Hin _ Hr0) in A.
Qed.

(** What the accept loop keeps: it has counted what is in the queues, or there is room. *)
Definition capacity_left (b : DialogBroker) (acc : nat) (per : gmap bytes nat) (f : bytes -> bytes) (hs : list bytes) : Prop :=
  (queued_len b <= acc /\ forall o, origin_queue_len b o <= default 0 (per !! o)) \/
  ((Z.of_nat (queued_len b + length hs) <= total (limits b))%Z /\
   forall o, (Z.of_nat (origin_queue_len b o + cnt f o hs) <= per_origin (limits b))%Z).

Lemma accept_loop now cause f hs : forall b acc per, Inv hs b -> NoDup hs -> (forall h, h ∈ hs -> own b h = f h) ->
  capacity_left b acc per f hs ->
  exists st, for_each (accept_one now cause) (b, acc, per) hs = Some st /\ Inv [] (fst (fst st)) /\ evolves b (fst (fst st)) /\
    forall h r, h ∈ hs -> records (fst (fst st)) !! h = Some r -> is_active (state r) = false.
Proof.
  induction hs as [|h hs IH]; intros b acc per HI Hnd Hf Hcap.
  { eexists. split; [done|]. split; [done|]. split; [reflexivity|]. by intros h r Hh%elem_of_nil. }
  apply NoDup_cons in Hnd as [Hh Hnd]. destruct (i_limbo _ _ (proj1 HI) h ltac:(by left)) as (r & Hr & A).
  assert (f h = owner_service r) as Ef by (rewrite <- Hf by (by left); unfold own; by rewrite Hr).
  assert (forall st1, accept_one now cause (b, acc, per) h = Some st1 ->
    Inv hs (fst (fst st1)) -> evolves b (fst (fst st1)) ->
    (forall r, records (fst (fst st1)) !! h = Some r -> is_active (state r) = false) ->
    capacity_left (fst (fst st1)) (snd (fst st1)) (snd st1) f hs ->
    exists st, for_each (accept_one now cause) (b, acc, per) (h :: hs) = Some st /\ Inv [] (fst (fst st)) /\ evolves b (fst (fst st)) /\
      forall h0 r, h0 ∈ h :: hs -> records (fst (fst st)) !! h0 = Some r -> is_active (state r) = false) as Hgo.
  { intros [[b1 acc1] per1] Hst HI1 HE1 Hin Hc1. cbn [fst snd] in *. destruct (IH b1 acc1 per1 HI1 Hnd) as (st & Hfe & HI2 & HE2 & Hin2); [|done|].
    - intros g Hg. destruct (i_limbo _ _ (proj1 HI1) g Hg) as (r1 & Hr1 & _). rewrite (evolves_own _ _ _ _ HE1 Hr1). apply Hf. by right.
    - exists st. cbn [for_each]. rewrite Hst. cbn [mbind option_bind]. split; [done|]. split; [done|]. split; [by etrans|].
      intros g r' [->|Hg]%elem_of_cons Hr'; [by eapply evolves_inactive|by eapply Hin2]. }
  cbn [accept_one] in Hgo. rewrite Hr in Hgo. cbn [mbind option_bind] in Hgo.
  set (c := default 0 (per !! owner_service r)) in *.
  destruct ((Z.of_nat acc <? total (limits b))%Z && (Z.of_nat c <? per_origin (limits b))%Z) eqn:Eacc.
  - apply andb_true_iff in Eacc as [Ea Ec]. apply Z.ltb_lt in Ea, Ec.
    assert ((Z.of_nat (queued_len b) < total (limits b))%Z /\ (Z.of_nat (origin_queue_len b (owner_service r)) < per_origin (limits b))%Z) as [Ht Hp].
    { destruct Hcap as [[Hq Ho]|[Hq Ho]].
      - specialize (Ho (owner_service r)). fold c in Ho. lia.
      - specialize (Ho (owner_service r)). rewrite cnt_cons, decide_True in Ho by done. cbn [length] in Hq. lia. }
    destruct (accept_inv hs b h r cause HI Hh Hr Ht Hp) as (HI1 & HE1 & R1 & L1 & L2). set (b1 := record_transition _ _ _ _ _) in *.
    destruct (evolves_settings _ _ HE1) as [E1 _].
    apply (Hgo (b1, S acc, <[owner_service r := S c]> per)); cbn [fst snd]; [done|done|done|by rewrite R1; intros x [= <-]|].
    destruct Hcap as [[Hq Ho]|[Hq Ho]]; [left|right]; rewrite ?L1; cbn [length] in Hq; (split; [rewrite ?E1; lia|]); intros o; specialize (Ho o);
      rewrite L2; rewrite ?cnt_cons, ?Ef in Ho; case_decide as Eo; rewrite ?E1; try lia.
    + subst o. rewrite lookup_insert_eq. fold c in Ho. cbn. lia.
    + rewrite lookup_insert_ne by done. lia.
  - destruct (fail_spec _ b h SFailed now cause HI eq_refl ltac:(done)) as (b1 & Hb1 & HI1 & [E O K Sub T Q]). rewrite Hb1 in Hgo. cbn [mbind option_bind] in Hgo.
    destruct (evolves_settings _ _ E) as [E1 _].
    apply (Hgo (b1, acc, <[owner_service r := c]> per)); cbn [fst snd]; [done| |done| |].
    + apply (inv_limbo_ext (filter (fun g => g <> h) (h :: hs))); [|done]. intros g. rewrite list_elem_of_filter, elem_of_cons. split; [by intros [? [?|?]]|].
      intros Hg. split; [by intros ->|by right].
    + intros x Hx. apply O in Hx. destruct (is_active (state x)) eqn:Ax; [|done]. apply active_not_terminal in Ax. congruence.
    + destruct Hcap as [[Hq Ho]|[Hq Ho]]; [left|right]; cbn [length] in Hq; (split; [rewrite ?E1; lia|]); intros o; specialize (Ho o); specialize (Q o).
      * destruct (decide (owner_service r = o)) as [<-|]; [rewrite lookup_insert_eq; fold c in Ho; cbn; lia|rewrite lookup_insert_ne by done; lia].
      * rewrite cnt_cons in Ho. rewrite E1. lia.
Qed.

(** ** Requeueing *)

Lemma dedup_id l : NoDup (snd <$> l) -> dedup_handles l = l.
Proof.
  destruct l as [|x l]; [done|]. intros Hnd. cbn [dedup_handles]. f_equal. cbn [fmap list_fmap] in Hnd. apply NoDup_cons in Hnd as [Hx Hnd].
  revert x Hx Hnd. induction l as [|y l IH]; intros x Hx Hnd; [done|]. cbn [fmap list_fmap] in *. apply NoDup_cons in Hnd as [Hy Hnd].
  cbn [dedup_after]. rewrite bool_decide_eq_false_2 by (intros E; apply Hx; rewrite E; by left). f_equal. by apply IH.
Qed.

Lemma NoDup_fmap_filter {A B} (f : A -> B) (P : A -> Prop) `{!forall x, Decision (P x)} (l : list A) : NoDup (f <$> l) -> NoDup (f <$> filter P l).
Proof.
  induction l as [|x l IH]; [done|]. cbn [fmap list_fmap]. intros [Hx Hnd]%NoDup_cons. rewrite filter_cons. case_decide; [|by apply IH].
  cbn [fmap list_fmap]. apply NoDup_cons. split; [|by apply IH]. intros (y & E & [_ Hy]%list_elem_of_filter)%list_elem_of_fmap. apply Hx. rewrite E. by apply list_elem_of_fmap_2.
Qed.

(** Distinct active handles are no more than the active limit. *)
Lemma active_handles L b hs : Inv L b -> NoDup hs ->
  (forall h, h ∈ hs -> exists r, records b !! h = Some r /\ is_active (state r) = true) -> (Z.of_nat (length hs) <= active (retention b))%Z.
Proof.
  intros HI Hnd Hact. pose proof (i_active _ _ (proj1 HI)) as Ha. assert (length hs <= active_len b); [|lia].
  unfold active_len. rewrite <- size_dom, <- (size_list_to_set (C:=gset bytes) hs) by done. apply subseteq_size. intros h. rewrite elem_of_list_to_set.
  intros Hh. destruct (Hact h Hh) as (r & Hr & A). apply elem_of_dom. exists r. by apply map_lookup_filter_Some.
Qed.

Lemma requeue_spec `{HashIter} L b hs now cause :
  Inv L b -> NoDup hs -> (forall h, h ∈ L -> h ∈ hs) ->
  (forall h, h ∈ hs -> exists r, records b !! h = Some r /\ is_active (state r) = true) ->
  exists b', requeue_protected b hs now cause = Some b' /\ Inv [] b' /\ evolves b b' /\
    (forall h r, h ∈ hs -> records b' !! h = Some r -> is_active (state r) = false).
Proof.
  intros HI Hnd HL Hact. unfold requeue_protected. set (aged := omap _ hs).
  assert (snd <$> aged = hs) as Eaged.
  { unfold aged. clear Hnd HL. induction hs as [|h hs IH]; [done|]. destruct (Hact h ltac:(by left)) as (r & Hr & A).
    cbn [omap list_omap]. rewrite Hr. cbn [mbind option_bind]. rewrite (active_not_terminal _ A). cbn [fmap list_fmap snd]. f_equal.
    apply IH. intros g Hg. apply Hact. by right. }
  set (sorted := stable_sort age_leb aged). assert (snd <$> sorted ≡ₚ hs) as Psort by (unfold sorted; rewrite stable_sort_perm; by rewrite Eaged).
  assert (NoDup (snd <$> sorted)) as Hnds by (by rewrite Psort). rewrite (dedup_id _ Hnds).
  destruct (take_back_spec sorted L b [] [] HI Hnds) as (b1 & el & qu & -> & HI1 & HE1 & P1); [intros h Hh; apply Hact; by rewrite <- Psort|].
  cbn [mbind option_bind app]. rewrite Psort in P1. assert (NoDup ((snd <$> el) ++ qu)) as Hndp by (by rewrite P1).
  apply NoDup_app in Hndp as (Hnde & Hdis & _).
  assert (Inv ((snd <$> el) ++ qu) b1) as HI1'.
  { apply (inv_limbo_ext ((snd <$> sorted) ++ L)); [|done]. intros h. rewrite P1, elem_of_app, Psort. split; [by intros [?|?%HL]|by left]. }
  destruct (for_each_fails qu SFailed CQuarantine now eq_refl ltac:(done) _ b1 HI1') as (b2 & -> & HI2 & [E2 O2 K2 _ _ _]). cbn [mbind option_bind].
  assert (Inv (snd <$> el) b2) as HI2'.
  { apply (inv_limbo_ext (filter (fun g => g ∉ qu) ((snd <$> el) ++ qu))); [|done]. intros h. rewrite list_elem_of_filter, elem_of_app. split; [by intros [? [?|?]]|].
    intros Hh. split; [by apply Hdis|by left]. }
  destruct (make_room_spec b2 (snd <$> el) now cause HI2') as (b3 & -> & HI3 & E3 & Hroom).
  { apply (active_handles _ _ _ HI2' Hnde). apply HI2'. }
  cbn [mbind option_bind]. destruct (accept_loop now cause (own b2) (snd <$> el) b3 0 ∅ HI3 Hnde) as (st & -> & HI4 & E4 & Hin4).
  - intros h Hh. destruct (i_limbo _ _ (proj1 HI3) h Hh) as (r & Hr & _). by apply (evolves_own _ _ _ r).
  - destruct Hroom as [Hz|Hroom]; [left|by right]. split; [lia|]. intros o. destruct (queue_bounds _ b3 o HI3) as (Hle & _). lia.
  - cbn [mbind option_bind]. eexists. split; [done|]. split; [done|]. split; [etrans; [exact HE1|]; etrans; [exact E2|]; by etrans|].
    intros h r Hh Hr. assert (h ∈ (snd <$> el) ++ qu) as [He|Hq]%elem_of_app by (by rewrite P1); [by eapply Hin4|].
    refine (evolves_inactive b2 _ h ltac:(by etrans) _ r Hr). intros r2 Hr2. pose proof (O2 _ _ Hq Hr2) as T.
    destruct (is_active (state r2)) eqn:A; [|done]. apply active_not_terminal in A. congruence.
Qed.

Lemma handles_nodup `{HashIter} L b : Inv L b -> NoDup (handle <$> hash_values (records b)).
Proof.
  intros HI. assert (handle <$> hash_values (records b) = fst <$> hash_iter (records b)) as ->.
  { unfold hash_values. rewrite <- list_fmap_compose. apply list_fmap_ext. intros i [k r] Hi. cbn.
    apply list_elem_of_lookup_2, elem_of_hash_iter in Hi. apply (r_handle _ _ _ _ _ (i_record _ _ (proj1 HI) _ _ Hi)). }
  rewrite hash_iter_perm. apply NoDup_fst_map_to_list.
Qed.

Lemma requeue_generation_spec `{HashIter} b l now cause : Inv [] b -> presenter b = Some l ->
  exists b', requeue_generation b (generation l) now cause = Some b' /\ Inv [] b' /\ evolves b b' /\
    (forall h r, records b' !! h = Some r -> is_active (state r) = false /\ attempt r = None).
Proof.
  intros HI Hl. unfold requeue_generation. set (hs := handle <$> _).
  assert (forall h r, records b !! h = Some r -> handle r = h) as Hh by (intros h r Hr; apply (r_handle _ _ _ _ _ (i_record _ _ (proj1 HI) _ _ Hr))).
  destruct (requeue_spec [] b hs now cause HI) as (b' & Hb' & HI' & HE & Hin).
  - apply NoDup_fmap_filter. by apply (handles_nodup []).
  - by intros h Hin%elem_of_nil.
  - intros h (r & -> & [C (k & Hk)%elem_of_hash_values]%list_elem_of_filter)%list_elem_of_fmap. rewrite (Hh _ _ Hk). exists r. split; [done|].
    apply andb_true_iff in C as [_ C]. apply (r_attempt _ _ _ _ _ (i_record _ _ (proj1 HI) _ _ Hk)). by destruct (attempt r).
  - exists b'. split; [done|]. split; [done|]. split; [done|]. intros h r Hr.
    assert (is_active (state r) = false) as A.
    { destruct (e_follows _ _ HE _ _ Hr) as (r0 & Hr0 & F). destruct (is_active (state r)) eqn:A; [|done]. rewrite <- A. eapply Hin; [|done].
      pose proof (follows_active _ _ F A) as A0. pose proof (i_record _ _ (proj1 HI) _ _ Hr0) as Hok.
      destruct (proj2 (r_attempt _ _ _ _ _ Hok)) as [a Ha]; [split; [done|by intros ?%elem_of_nil]|].
      destruct (r_current _ _ _ _ _ Hok a Ha) as ((l' & Hl' & Eg) & _). assert (l' = l) as -> by congruence.
      unfold hs. apply list_elem_of_fmap. exists r0. split; [by rewrite (Hh _ _ Hr0)|]. apply list_elem_of_filter. split; [|apply elem_of_hash_values; by exists h].
      rewrite (active_not_terminal _ A0), Ha. cbn. by apply bool_decide_eq_true. }
    split; [done|]. destruct (attempt r) eqn:Ea; [|done]. destruct (proj1 (r_attempt _ _ _ _ _ (i_record _ _ (proj1 HI') _ _ Hr))); [by rewrite Ea|congruence].
Qed.
