(* ===== verification/DialogOps.v ===== *)
(** * The operations of the dialog broker ([cosmix-interaction-broker/src/dialog.rs])

    Each operation keeps the invariant, does not panic, and moves records only as
    [moved] says: who may move a record to which state, and by which call. *)

From S2P Require Import Prelude Utf8 Str BTree DialogSchema RateLimit Dialog DialogInv DialogRequeue.

(** ** What a call may do to one record *)

(** The presenter's own attempt at [r]. *)
Definition by_attempt (b : DialogBroker) (lease : PresenterLease) (token now : Z) (r : DialogRecord) : Prop :=
  presenter b = Some lease /\ attempt r = Some (mkAttempt (generation lease) token) /\ is_due now r = false.
(** The owner's own dialog. *)
Definition by_owner (svc token : bytes) (now : Z) (r : DialogRecord) : Prop :=
  owner_service r = svc /\ owner_token r = token /\ is_due now r = false.

(** [moved b op h o r']: the call [op] on [b] leaves [r'] at [h], where [o] was. *)
Inductive moved (b : DialogBroker) : Op -> bytes -> option DialogRecord -> DialogRecord -> Prop :=
| mv_follow op h r r' : follows r r' -> moved b op h (Some r) r'
| mv_open svc token req now h o :
    moved b (OOpen svc token req now h) h o
      (mkRecord h svc token req Queued now ((fun d => sat_add64 now d) <$> deadline_ms req) None None
         (initial_progress (dialog req)) false false 0 None)
| mv_present lease now h r t :
    presenter b = Some lease -> state r = Queued -> t = next_attempt_token b ->
    moved b (ONext lease now) h (Some r) (with_attempt (with_state r Presenting) (Some (mkAttempt (generation lease) t)))
| mv_mark lease h token now r r' :
    by_attempt b lease token now r -> state r = Presenting -> identity r' = identity r ->
    state r' = (if cancel_requested r then CancelRequested else Presented) -> moved b (OMark lease h token now) h (Some r) r'
| mv_progress_cancel lease h token now r r' :
    by_attempt b lease token now r -> state r = Presented -> is_progress (dialog (request r)) = true ->
    identity r' = identity r -> state r' = CancelRequested -> moved b (OProgressCancel lease h token now) h (Some r) r'
| mv_update svc token h patch now r r' :
    by_owner svc token now r -> is_terminal (state r) = false -> identity r' = identity r -> state r' = state r ->
    moved b (OUpdate svc token h patch now) h (Some r) r'
| mv_resolve lease h token v now r :
    by_attempt b lease token now r -> rejection lease r v = None ->
    moved b (OResolve lease h token v now) h (Some r) (terminal_record r Resolved (Some v) now)
| mv_complete svc token h c now r :
    by_owner svc token now r -> is_terminal (state r) = false -> is_progress (dialog (request r)) = true ->
    completion_validate c = Ok tt ->
    moved b (OComplete svc token h c now) h (Some r) (terminal_record r Resolved (Some (VProgress c)) now).

Definition opens (op : Op) (h : bytes) : Prop := match op with OOpen _ _ _ _ fresh => fresh = h | _ => False end.

(** A call: records move as [moved] says; a handle that stays in its queue comes
    nearer by every presentation, and never falls back. *)
Record op_rel (op : Op) (b b' : DialogBroker) : Prop := mkOpRel {
  o_settings : settings b' = settings b;
  o_moved : forall h r', records b' !! h = Some r' -> moved b op h (records b !! h) r';
  o_tokens : (next_attempt_token b <= next_attempt_token b')%Z;
  o_waits : forall h r r' w, ~ opens op h -> (next_attempt_token b' < U64_MAX)%Z -> records b !! h = Some r -> state r = Queued ->
    records b' !! h = Some r' -> state r' = Queued -> wait_of b' h w ->
    exists w', (Z.of_nat w + (next_attempt_token b' - next_attempt_token b) <= Z.of_nat w')%Z /\ wait_of b h w' }.

Definition op_ok {A} (op : Op) (b : DialogBroker) (m : option (DialogBroker * A)) : Prop :=
  exists b' v, m = Some (b', v) /\ Inv [] b' /\ op_rel op b b'.

Lemma lease_part_inj b b' : lease_part b' = lease_part b ->
  presenter b' = presenter b /\ next_presenter_generation b' = next_presenter_generation b /\ next_attempt_token b' = next_attempt_token b.
Proof. unfold lease_part. by intros [= -> -> ->]. Qed.

Lemma quiet op b b' : evolves b b' -> op_rel op b b'.
Proof.
  intros HE. destruct (lease_part_inj _ _ (e_lease _ _ HE)) as (_ & _ & Et). split.
  - apply HE.
  - intros h r' Hr'. destruct (e_follows _ _ HE _ _ Hr') as (r & -> & F). by constructor.
  - lia.
  - intros h r r' w _ _ Hr S Hr' S' Hw. destruct (e_follows _ _ HE _ _ Hr') as (r0 & Hr0 & F). assert (r0 = r) as -> by congruence.
    assert (r' = r) as -> by (apply follows_queued; [done|done|by rewrite S']).
    destruct (e_waits _ _ HE _ _ _ Hr S Hw Hr') as (w' & Hle & Hw'). exists w'. split; [lia|done].
Qed.

Lemma quiet_ok {A} op b b' (v : A) : Inv [] b' -> evolves b b' -> op_ok op b (Some (b', v)).
Proof. intros HI HE. exists b', v. split; [done|]. split; [done|]. by apply quiet. Qed.

(** Draining the reports changes nothing else. *)
Lemma drained_inv b : Inv [] b -> Inv [] (fst (drain_pending_report b)) /\ evolves b (fst (drain_pending_report b)).
Proof. intros HI. split; [apply (inv_body _ b); [done|apply (i_log _ _ (proj1 HI))|done]|by apply evolves_body]. Qed.

Lemma check_lease_ok b lease : check_lease b lease = Ok tt -> presenter b = Some lease.
Proof. unfold check_lease. destruct (presenter b) as [l|]; [|done]. destruct (_ || _) eqn:E; [done|]. intros _.
  apply orb_false_iff in E as [_ E]. apply negb_false_iff, bool_decide_eq_true in E. by subst. Qed.
Lemma check_attempt_ok b h g token : check_current_attempt b h g token = Ok tt ->
  exists r, records b !! h = Some r /\ attempt r = Some (mkAttempt g token).
Proof.
  unfold check_current_attempt. intros Hc. run_inv Hc. apply ok_or_Ok in Hx. exists x. split; [done|].
  destruct (attempt x) as [[g' t']|]; cbn [is_some_and] in Hc; [|done]. cbn in Hc.
  repeat case_bool_decide; cbn in Hc; try done. by subst.
Qed.
Lemma check_owner_ok b svc token h : check_owner b svc token h = Ok tt ->
  exists r, records b !! h = Some r /\ owner_service r = svc /\ owner_token r = token.
Proof.
  unfold check_owner. intros Hc. run_inv Hc. apply ok_or_Ok in Hx. exists x. split; [done|].
  repeat case_bool_decide; cbn in Hc; try done.
Qed.

Lemma expire_handle_spec b h now : Inv [] b ->
  (exists b', expire_handle_if_due b h now = Some (b', true) /\ Inv [] b' /\ evolves b b') \/
  (expire_handle_if_due b h now = Some (b, false) /\ forall r, records b !! h = Some r -> is_due now r = false).
Proof.
  intros HI. unfold expire_handle_if_due. destruct (is_some_and _ _) eqn:E.
  - left. destruct (fail_spec [] b h Expired now CExpire HI eq_refl ltac:(done)) as (b' & -> & HI' & [E' _ _ _ _ _]). by exists b'.
  - right. split; [done|]. intros r Hr. by rewrite Hr in E.
Qed.

Lemma presenter_call_spec {A} op b lease h token now (k : DialogBroker -> DialogRecord -> reply A) :
  Inv [] b ->
  (forall b0 r, body b0 = body b -> Inv [] b0 -> records b !! h = Some r -> by_attempt b lease token now r ->
     is_active (state r) = true -> op_ok op b (k b0 r)) ->
  op_ok op b (presenter_call b lease h token now k).
Proof.
  intros HI Hk. unfold presenter_call. destruct (drained_inv b HI) as [HI0 HE0]. set (b0 := fst (drain_pending_report b)) in *.
  unfold or_return. destruct (check_lease b0 lease) as [[]|e] eqn:El; [|by apply quiet_ok]. apply check_lease_ok in El.
  destruct (check_current_attempt b0 h (generation lease) token) as [[]|e] eqn:Ea; [|by apply quiet_ok]. apply check_attempt_ok in Ea as (r & Hr & Ha).
  destruct (expire_handle_spec b0 h now HI0) as [(b1 & -> & HI1 & HE1)|[-> Hdue]]; cbn [mbind option_bind]; [apply quiet_ok; [done|by etrans]|].
  rewrite Hr. cbn [mbind option_bind]. apply Hk; [done|done|done| |].
  - split; [done|]. split; [done|]. by apply Hdue.
  - apply (r_attempt _ _ _ _ _ (i_record _ _ (proj1 HI) h r Hr)). by rewrite Ha.
Qed.

Lemma owner_call_spec {A} op b svc token h now (k : DialogBroker -> DialogRecord -> reply A) :
  Inv [] b ->
  (forall b0 r, body b0 = body b -> Inv [] b0 -> records b !! h = Some r -> by_owner svc token now r -> op_ok op b (k b0 r)) ->
  op_ok op b (owner_call b svc token h now k).
Proof.
  intros HI Hk. unfold owner_call. destruct (drained_inv b HI) as [HI0 HE0]. set (b0 := fst (drain_pending_report b)) in *.
  unfold or_return. destruct (check_owner b0 svc token h) as [[]|e] eqn:Eo; [|by apply quiet_ok]. apply check_owner_ok in Eo as (r & Hr & Hs & Ht).
  destruct (expire_handle_spec b0 h now HI0) as [(b1 & -> & HI1 & HE1)|[-> Hdue]]; cbn [mbind option_bind]; [apply quiet_ok; [done|by etrans]|].
  rewrite Hr. cbn [mbind option_bind]. apply Hk; [done|done|done|]. split; [done|]. split; [done|]. by apply Hdue.
Qed.

(** ** One record changed, the queues as they were *)

Lemma body_parts b b' : body b' = body b ->
  records b' = records b /\ queued_by_origin b' = queued_by_origin b /\ origin_turns b' = origin_turns b /\
  terminal_order b' = terminal_order b /\ settings b' = settings b /\ lease_part b' = lease_part b.
Proof.
  unfold body. intros (E & EL)%pair_equal_spec. apply pair_equal_spec in E as [E ES]. apply pair_equal_spec in E as [E EO].
  apply pair_equal_spec in E as [E ET]. by apply pair_equal_spec in E as [ER EQ].
Qed.

Lemma wait_of_eq b b' : settings b' = settings b -> queued_by_origin b' = queued_by_origin b -> origin_turns b' = origin_turns b ->
  wait_of b' = wait_of b.
Proof. unfold settings, wait_of. by intros [= -> _ _ _] -> ->. Qed.

Lemma replace_rel op b b' h r r1 :
  records b' = <[h := r1]> (records b) -> queued_by_origin b' = queued_by_origin b -> origin_turns b' = origin_turns b ->
  settings b' = settings b -> lease_part b' = lease_part b -> records b !! h = Some r -> moved b op h (Some r) r1 -> op_rel op b b'.
Proof.
  intros ER EQ ET ES EL Hr Hm. destruct (lease_part_inj _ _ EL) as (_ & _ & Et). split; [done| |lia|].
  - intros g r'. rewrite ER, lookup_insert_Some. intros [[<- <-]|[_ Hg]]; [by rewrite Hr|]. rewrite Hg. constructor. apply follows_refl.
  - intros g x x' w _ _ _ _ _ _ Hw. exists w. split; [lia|]. by rewrite (wait_of_eq _ _ ES EQ ET) in Hw.
Qed.

Lemma replace_ok {A} op b b0 h r r1 f t c (v : A) :
  body b0 = body b -> Inv [] b0 -> records b !! h = Some r -> record_ok (presenter b) (next_attempt_token b) False h r1 ->
  is_terminal (state r1) = is_terminal (state r) -> is_active (state r1) = is_active (state r) ->
  owner_service r1 = owner_service r -> attempt r1 = attempt r -> moved b op h (Some r) r1 ->
  op_ok op b (Some (record_transition (with_records b0 (<[h := r1]> (records b0))) h f t c, v)).
Proof.
  intros Eb HI Hr Hok ET EA EO Eat Hm. pose proof (body_parts _ _ Eb) as (ER & EQ & ETu & EOr & ES & EL).
  set (b1 := with_records b0 _). pose proof (record_transition_body b1 h f t c) as Eb1. set (b2 := record_transition b1 h f t c) in *.
  exists b2, v. split; [done|]. split.
  - apply (inv_body _ b1); [done|apply record_transition_log, (i_log _ _ (proj1 HI))|].
    apply (replace_inv [] [] b0 h r); try done; [by rewrite ER| | |by right].
    + destruct (lease_part_inj _ _ EL) as (-> & _ & ->). destruct Hok. split; try done. rewrite elem_of_nil. done.
    + by intros ?%elem_of_nil.
  - pose proof (body_parts _ _ Eb1) as (ER1 & EQ1 & ET1 & _ & ES1 & EL1).
    apply (replace_rel _ _ _ h r r1); try done; [rewrite ER1; cbn; by rewrite ER|by rewrite EQ1|by rewrite ET1|by rewrite ES1|by rewrite EL1].
Qed.

Lemma record_at b h r : Inv [] b -> records b !! h = Some r -> record_ok (presenter b) (next_attempt_token b) False h r.
Proof.
  intros HI Hr. destruct (i_record _ _ (proj1 HI) _ _ Hr) as [S1 S2 S3 S4 S5 S6 S7 S8]. split; try done. rewrite S7, elem_of_nil. done.
Qed.

Lemma mark_presented_ok b lease h token now : Inv [] b -> op_ok (OMark lease h token now) b (mark_presented b lease h token now).
Proof.
  intros HI. apply presenter_call_spec; [done|]. intros b0 r Eb HI0 Hr Hby A. case_bool_decide as Es; cbn [negb]; [|apply quiet_ok; [done|by apply evolves_body]].
  destruct (record_at _ _ _ HI Hr) as [S1 S2 S3 S4 S5 S6 S7 S8].
  eapply (replace_ok _ b b0 h r); try done; [|rewrite Es; by destruct (cancel_requested r)..|by apply mv_mark].
  rewrite Es in *. split; try done; cbn [state terminal_at_ms value attempt].
  - rewrite S4. by destruct (cancel_requested r).
  - destruct (value r); [by destruct S5|]. by destruct (cancel_requested r).
  - rewrite S7. by destruct (cancel_requested r).
Qed.

Lemma progress_cancel_ok b lease h token now :
  Inv [] b -> op_ok (OProgressCancel lease h token now) b (request_progress_cancel b lease h token now).
Proof.
  intros HI. apply presenter_call_spec; [done|]. intros b0 r Eb HI0 Hr Hby A.
  assert (forall e : result unit DialogBrokerError, op_ok (OProgressCancel lease h token now) b (Some (b0, e))) as Hq by (intros e; apply quiet_ok; [done|by apply evolves_body]).
  destruct (dialog (request r)) eqn:Ed; try apply Hq. destruct cancellable; cbn [negb]; [|apply Hq].
  case_bool_decide as E1; [apply Hq|]. case_bool_decide as E2; cbn [negb]; [|apply Hq].
  destruct (record_at _ _ _ HI Hr) as [S1 S2 S3 S4 S5 S6 S7 S8].
  eapply (replace_ok _ b b0 h r); try done; [|by rewrite E2..|by apply mv_progress_cancel; rewrite ?Ed].
  rewrite E2 in *. split; try done; cbn [state value]. by destruct (value r); [destruct S5|].
Qed.

Lemma update_progress_ok b svc token h patch now :
  Inv [] b -> op_ok (OUpdate svc token h patch now) b (update_progress b svc token h patch now).
Proof.
  intros HI. unfold update_progress. apply owner_call_spec; [done|]. intros b0 r Eb HI0 Hr Hby.
  assert (forall e : result unit DialogBrokerError, op_ok (OUpdate svc token h patch now) b (Some (b0, e))) as Hq by (intros e; apply quiet_ok; [done|by apply evolves_body]).
  unfold or_return. destruct (map_err EInvalid (patch_validate patch)); [|apply Hq]. destruct (is_terminal (state r)) eqn:T; [apply Hq|].
  destruct (progress r) as [p|] eqn:Ep; [|apply Hq]. destruct (negb _ && negb _); [apply Hq|].
  destruct (record_at _ _ _ HI Hr) as [S1 S2 S3 S4 S5 S6 S7 S8].
  eapply (replace_ok _ b b0 h r); try done; [|by apply mv_update]. split; try done. cbn [progress request]. rewrite <- S3, Ep. split; by eexists.
Qed.

(** ** Calls that end a dialog *)

Lemma ends_rel op b b1 b' h r rt :
  records b !! h = Some r -> (forall g, g <> h -> records b1 !! g = records b !! g) -> wait_of b1 = wait_of b ->
  settings b1 = settings b -> lease_part b1 = lease_part b -> ends h rt b1 b' -> moved b op h (Some r) rt -> op_rel op b b'.
Proof.
  intros Hr Hoth Hw ES EL [N1 N2 N3 N4 N5 _ _ _] Hm. destruct (lease_part_inj b b') as (_ & _ & Et); [congruence|]. split; [congruence| |lia|].
  - intros g r' Hg. specialize (N3 _ _ Hg). case_decide as Eg; [subst; by rewrite Hr|]. rewrite Hoth in N3 by done. rewrite N3. constructor. apply follows_refl.
  - intros g x x' w _ _ _ _ _ _ Hg. destruct (N5 _ _ Hg) as (w' & Hle & Hw'). exists w'. rewrite Hw in Hw'. split; [lia|done].
Qed.

Lemma fail_ok {A} op b b0 h s now cause (v : A) : evolves b b0 -> Inv [] b0 -> is_terminal s = true -> s <> Resolved ->
  op_ok op b (b' ← transition_terminal b0 h s None now cause; Some (b', v)).
Proof.
  intros HE HI Ts Ns. destruct (fail_spec [] b0 h s now cause HI Ts Ns) as (b' & -> & HI' & F). cbn [mbind option_bind].
  apply quiet_ok; [done|]. etrans; [exact HE|apply F].
Qed.

Lemma take_one b b0 h r : body b0 = body b -> Inv [] b0 -> records b !! h = Some r -> is_active (state r) = true ->
  let b1 := with_records b0 (<[h := with_attempt r None]> (records b0)) in
  Inv [h] b1 /\ evolves b b1 /\ records b1 !! h = Some (with_attempt r None) /\ (forall g, g <> h -> records b1 !! g = records b !! g) /\
  wait_of b1 = wait_of b /\ settings b1 = settings b /\ lease_part b1 = lease_part b.
Proof.
  intros Eb HI Hr A b1. pose proof (body_parts _ _ Eb) as (ER & EQ & ET & EO & ES & EL). rewrite <- ER in Hr.
  pose proof (r_requeues _ _ _ _ _ (i_record _ _ (proj1 HI) _ _ Hr)) as Hn.
  destruct (take_attempt [] b0 h r _ HI Hr A Hn) as [HI1 HE1]. split; [exact HI1|]. split; [etrans; [by apply evolves_body|exact HE1]|].
  split; [apply lookup_insert_eq|]. split; [intros g Hg; cbn; rewrite lookup_insert_ne by done; by rewrite ER|].
  split; [by apply (wait_of_eq b b1)|done].
Qed.

Lemma fail_presentation_ok b lease h token now : Inv [] b -> op_ok (OFail lease h token now) b (fail_presentation b lease h token now).
Proof.
  intros HI. apply presenter_call_spec; [done|]. intros b0 r Eb HI0 Hr Hby A. rewrite (active_not_terminal _ A).
  destruct (take_one b b0 h r Eb HI0 Hr A) as (HI1 & HE1 & _). cbv zeta. set (b1 := with_records b0 _) in *.
  destruct (fail_spec [h] b1 h SFailed now CFail HI1 eq_refl ltac:(done)) as (b' & -> & HI' & F). cbn [mbind option_bind].
  apply quiet_ok; [|etrans; [exact HE1|apply F]]. apply (inv_limbo_ext (filter (fun g => g <> h) [h])); [|done].
  intros g. rewrite list_elem_of_filter, list_elem_of_singleton, elem_of_nil. tauto.
Qed.

Lemma cancel_ok b svc token h now : Inv [] b -> op_ok (OCancel svc token h now) b (cancel b svc token h now).
Proof.
  intros HI. apply owner_call_spec; [done|]. intros b0 r Eb HI0 Hr Hby. destruct (is_terminal (state r)); [apply quiet_ok; [done|by apply evolves_body]|].
  by apply fail_ok; [apply evolves_body| | |].
Qed.

Lemma progress_value d c : is_progress d = true -> completion_validate c = Ok tt -> validate_for (VProgress c) d = Ok tt.
Proof.
  destruct d; try done. intros _ Hc. unfold validate_for. cbn [validate_match validate_contents result_bind]. rewrite Hc. cbn [result_bind].
  assert (exceeds (value_bytes (VProgress c)) MAX_DIALOG_RESULT_BYTES = false) as ->; [|done]. destruct c as [| |m]; [done|done|].
  cbn [value_bytes]. apply exceeds_false. cbn [completion_validate] in Hc. unfold validate_non_empty_len, validate_len in Hc. destruct m as [|y m]; [done|].
  destruct (exceeds _ _) eqn:E; [done|]. apply exceeds_false in E. unfold MAX_DIALOG_MESSAGE_BYTES, MAX_DIALOG_RESULT_BYTES, DIALOG_RAW_INGRESS_CAP in *. lia.
Qed.

Lemma complete_progress_ok b svc token h c now :
  Inv [] b -> op_ok (OComplete svc token h c now) b (complete_progress b svc token h c now).
Proof.
  intros HI. unfold complete_progress. apply owner_call_spec; [done|]. intros b0 r Eb HI0 Hr Hby.
  assert (forall e : result unit DialogBrokerError, op_ok (OComplete svc token h c now) b (Some (b0, e))) as Hq by (intros e; apply quiet_ok; [done|by apply evolves_body]).
  unfold or_return. destruct (map_err EInvalid (completion_validate c)) as [u|] eqn:Ec; [|apply Hq]. apply map_err_Ok in Ec. destruct u.
  destruct (is_terminal (state r)) eqn:T; [apply Hq|]. destruct (progress r) as [p|] eqn:Ep; [|apply Hq].
  pose proof (body_parts _ _ Eb) as (ER & EQ & ET & EO & ES & EL).
  assert (is_progress (dialog (request r)) = true) as Ip by (apply (r_progress _ _ _ _ _ (record_at _ _ _ HI Hr)); by rewrite Ep).
  destruct (terminal_spec [] b0 h r Resolved (Some (VProgress c)) now CProgressComplete HI0) as (b' & -> & HI' & HE); [by rewrite ER|done|done| |].
  { split; [done|by apply progress_value]. }
  cbn [mbind option_bind]. exists b', (Ok tt). split; [done|]. split; [done|].
  apply (ends_rel _ b b0 _ h r (terminal_record r Resolved (Some (VProgress c)) now)); try done; [intros g _; by rewrite ER|by apply wait_of_eq|by apply mv_complete].
Qed.

Lemma rejection_none lease r v : rejection lease r v = None ->
  owner_service r <> service lease /\ (state r = Presented \/ state r = CancelRequested) /\ is_progress (dialog (request r)) = false /\
  validate_for v (dialog (request r)) = Ok tt.
Proof.
  unfold rejection. case_bool_decide as E1; [done|]. destruct (is_terminal (state r)); [done|].
  destruct (negb _) eqn:E2; [done|]. apply negb_false_iff, orb_true_iff in E2. rewrite !bool_decide_eq_true in E2.
  intros E3. split; [done|]. split; [done|]. destruct (dialog (request r)) as [| | | | | | | | | |]; try discriminate; (split; [reflexivity|]);
    (destruct (validate_for v _) as [[]|]; [reflexivity|discriminate]).
Qed.

Lemma resolve_ok `{HashIter} b lease h token v now : Inv [] b -> op_ok (OResolve lease h token v now) b (resolve b lease h token v now).
Proof.
  intros HI. apply presenter_call_spec; [done|]. intros b0 r Eb HI0 Hr Hby A.
  destruct (take_one b b0 h r Eb HI0 Hr A) as (HI1 & HE1 & R1 & Hoth & EW & ES & EL). cbv zeta. set (b1 := with_records b0 _) in *.
  destruct (rejection lease r v) as [e|] eqn:Erej.
  - destruct (requeue_spec [h] b1 [h] now CResolve HI1) as (b' & -> & HI' & HE & _); [apply NoDup_singleton|done| |].
    { intros g ->%list_elem_of_singleton. by exists (with_attempt r None). }
    cbn [mbind option_bind]. apply quiet_ok; [done|by etrans].
  - destruct (rejection_none _ _ _ Erej) as (_ & _ & _ & Hv).
    destruct (terminal_spec [h] b1 h (with_attempt r None) Resolved (Some v) now CResolve HI1 R1) as (b' & -> & HI' & HE); [by apply active_not_terminal|done|done|].
    cbn [mbind option_bind]. exists b', (Ok tt). split; [done|]. split.
    + apply (inv_limbo_ext (filter (fun g => g <> h) [h])); [|done]. intros g. rewrite list_elem_of_filter, list_elem_of_singleton, elem_of_nil. tauto.
    + apply (ends_rel _ b b1 _ h r (terminal_record r Resolved (Some v) now)); try done. by apply mv_resolve.
Qed.

(** ** Sweeps *)

Lemma expire_ok `{HashIter} b now : Inv [] b -> op_ok (OExpire now) b (expire b now).
Proof.
  intros HI. unfold expire. destruct (drained_inv b HI) as [HI0 HE0]. destruct (expire_due_spec _ now HI0) as (b1 & -> & HI1 & HE1 & _). cbn [mbind option_bind].
  apply quiet_ok; [apply (inv_body _ b1); [done|apply (i_log _ _ (proj1 HI1))|done]|]. etrans; [exact HE0|]. etrans; [exact HE1|]. by apply evolves_body.
Qed.

Lemma gc_ok `{HashIter} b now : Inv [] b -> op_ok (OGc now) b (gc b now).
Proof.
  intros HI. unfold gc. destruct (maintain_spec b now HI) as (b1 & -> & HI1 & HE1 & _). cbn [mbind option_bind].
  destruct (drained_inv b1 HI1) as [HI2 HE2]. destruct (drain_pending_report b1) as [b2 o]. apply quiet_ok; [done|by etrans].
Qed.

Lemma withdraw_ok `{HashIter} b svc now : Inv [] b -> op_ok (OWithdraw svc now) b (withdraw_owner b svc now).
Proof.
  intros HI. unfold withdraw_owner. destruct (drained_inv b HI) as [HI0 HE0]. destruct (maintain_spec _ now HI0) as (b1 & -> & HI1 & HE1 & _). cbn [mbind option_bind].
  destruct (for_each_fails (stable_sort handle_leb (handle <$> filter (fun r => bool_decide (owner_service r = svc) && negb (is_terminal (state r)) = true) (hash_values (records b1))))
    SFailed CWithdraw now eq_refl ltac:(done) [] b1 HI1) as (b2 & -> & HI2 & F). cbn [mbind option_bind].
  apply quiet_ok; [done|]. etrans; [exact HE0|]. etrans; [exact HE1|apply F].
Qed.

Lemma drain_ok b : Inv [] b -> op_ok ODrain b (Some (drain_transitions b)).
Proof.
  intros HI. unfold drain_transitions. apply quiet_ok; [|by apply evolves_body]. apply (inv_body _ b); [done| |done].
  pose proof (i_log _ _ (proj1 HI)) as Hl. unfold log_ok. cbn. cbn in Hl. lia.
Qed.

(** ** The lease *)

Lemma quiet_like op b c b' : evolves b c -> records b' = records c -> queued_by_origin b' = queued_by_origin c -> origin_turns b' = origin_turns c ->
  settings b' = settings c -> next_attempt_token b' = next_attempt_token c -> op_rel op b b'.
Proof.
  intros HE ER EQ ET ES Et. destruct (quiet op _ _ HE) as [Q1 Q2 Q3 Q4]. split; [congruence|by rewrite ER|lia|].
  intros h r r' w. rewrite ER, Et, (wait_of_eq _ _ ES EQ ET). apply Q4.
Qed.

(** Without an attempt anywhere the lease may be replaced. *)
Lemma presenter_inv b p : Inv [] b -> (forall h r, records b !! h = Some r -> attempt r = None) ->
  (forall l, p = Some l -> lease_epoch l = instance_epoch b /\ (generation l < next_presenter_generation b)%Z) -> Inv [] (with_presenter b p).
Proof.
  intros [[H1 H2 H3 H4 H5 H6 H7 H8 H9 H10] Hret] Hno Hp. split; [split; try done|done].
  intros h r Hr. destruct (H2 _ _ Hr) as [S1 S2 S3 S4 S5 S6 S7 S8]. split; try done. intros a Ha. by rewrite (Hno _ _ Hr) in Ha.
Qed.
Lemma generation_inv b : Inv [] b -> (next_presenter_generation b < U64_MAX)%Z ->
  Inv [] (with_next_presenter_generation b (next_presenter_generation b + 1)).
Proof.
  intros [[H1 H2 H3 H4 H5 H6 H7 H8 H9 H10] Hret] Hlt. split; [split; try done|done]; cbn.
  - intros l Hl. destruct (H8 l Hl). split; [done|lia].
  - split; [apply H9|lia].
Qed.

(** The lease of generation [g] gives way: its attempts are requeued. *)
Lemma relet_spec `{HashIter} b now cause : Inv [] b ->
  exists b', match presenter b with Some l => requeue_generation b (generation l) now cause | None => Some b end = Some b' /\
    Inv [] b' /\ evolves b b' /\ forall h r, records b' !! h = Some r -> attempt r = None.
Proof.
  intros HI. destruct (presenter b) as [l|] eqn:Hl.
  - destruct (requeue_generation_spec b l now cause HI Hl) as (b' & -> & HI' & HE & Hno). exists b'. split; [done|]. split; [done|]. split; [done|].
    intros h r Hr. by destruct (Hno h r Hr).
  - exists b. split; [done|]. split; [done|]. split; [reflexivity|]. intros h r Hr. destruct (attempt r) as [a|] eqn:Ha; [|done].
    destruct (r_current _ _ _ _ _ (i_record _ _ (proj1 HI) _ _ Hr) a Ha) as ((l & Hl' & _) & _). congruence.
Qed.

Lemma register_ok `{HashIter} b svc now : Inv [] b -> op_ok (ORegister svc now) b (register_presenter b svc now).
Proof.
  intros HI. unfold register_presenter. destruct (drained_inv b HI) as [HI0 HE0]. destruct (maintain_spec _ now HI0) as (b1 & -> & HI1 & HE1 & _). cbn [mbind option_bind].
  assert (evolves b b1) as HE by (by etrans). unfold mint_presenter_generation, checked_succ64.
  destruct (Z.ltb_spec (next_presenter_generation b1) U64_MAX) as [Hlt|_]; cbn [or_return]; [|by apply quiet_ok].
  pose proof (generation_inv b1 HI1 Hlt) as HI2. set (b2 := with_next_presenter_generation b1 _) in *.
  destruct (relet_spec b2 now CReplace HI2) as (b3 & -> & HI3 & HE3 & Hno). cbn [mbind option_bind].
  destruct (lease_part_inj _ _ (e_lease _ _ HE3)) as (_ & Eg & Et). pose proof (e_settings _ _ HE3) as ES3.
  eexists _, _. split; [done|]. split.
  - apply presenter_inv; [done|done|]. intros l [= <-]. cbn. rewrite Eg. cbn. unfold settings in ES3. injection ES3 as _ _ E _. split; [by rewrite E|lia].
  - apply (quiet_like _ b (with_presenter (with_next_presenter_generation b3 (next_presenter_generation b1)) (presenter b1))); try done.
    etrans; [exact HE|]. destruct HE3 as [X1 X2 X3 X4]. split; [exact X1| |exact X3|exact X4]. unfold lease_part in *. cbn. by rewrite Et.
Qed.

Lemma release_ok `{HashIter} b lease now : Inv [] b -> op_ok (ORelease lease now) b (release_presenter b lease now).
Proof.
  intros HI. unfold release_presenter. destruct (drained_inv b HI) as [HI0 HE0]. set (b0 := fst (drain_pending_report b)) in *. unfold or_return.
  destruct (check_lease b0 lease) as [[]|e] eqn:El; [|by apply quiet_ok]. apply check_lease_ok in El.
  destruct (maintain_spec _ now HI0) as (b1 & -> & HI1 & HE1 & _). cbn [mbind option_bind].
  destruct (lease_part_inj _ _ (e_lease _ _ HE1)) as (Ep & _ & _). rewrite El in Ep.
  destruct (requeue_generation_spec b1 lease now CRelease HI1 Ep) as (b2 & -> & HI2 & HE2 & Hno). cbn [mbind option_bind].
  eexists _, _. split; [done|]. split.
  - apply presenter_inv; [done| |done]. intros h r Hr. by destruct (Hno h r Hr).
  - apply (quiet_like _ b b2); try done. etrans; [exact HE0|]. by etrans.
Qed.

(** ** A new dialog *)

Lemma progress_initial d : is_Some (initial_progress d) <-> is_progress d = true.
Proof. destruct d; cbn; split; try done; by intros []. Qed.

Lemma open_inv b svc token req now h f t c : Inv [] b -> records b !! h = None -> open_validate req = Ok tt ->
  (Z.of_nat (queued_len b) < total (limits b))%Z -> (Z.of_nat (origin_queue_len b svc) < per_origin (limits b))%Z ->
  let r := mkRecord h svc token req Queued now ((fun d => sat_add64 now d) <$> deadline_ms req) None None
             (initial_progress (dialog req)) false false 0 None in
  let b' := record_transition (enqueue (with_records b (<[h := r]> (records b))) svc h) h f t c in
  Inv [] b' /\ settings b' = settings b /\ lease_part b' = lease_part b /\ records b' = <[h := r]> (records b) /\
  forall g w, g <> h -> wait_of b' g w -> wait_of b g w.
Proof.
  intros [[H1 H2 H3 H4 H5 [H6 H6'] H7 H8 H9 H10] Hret] Hn Hreq Ht Hp r b'.
  set (b0 := with_records b (<[h := r]> (records b))) in *. set (b1 := enqueue b0 svc h) in *.
  destruct (enqueue_queues b0 svc h (limits b) (next_attempt_token b < U64_MAX)%Z (queued_at (records b))) as [HQ HW]; [|done|done|done|].
  { intros o (x & Hx & _). congruence. }
  fold b1 in HQ, HW. destruct (enqueue_shape b0 svc h) as (m & turns & Eb1). fold b1 in Eb1.
  assert (body b' = body b1) as Eb by apply record_transition_body.
  assert (log_ok b') as Hlog by (apply record_transition_log; rewrite Eb1; exact H10).
  assert (log_ok b1) as Hlog1 by (by rewrite Eb1).
  assert (records b1 = <[h := r]> (records b)) as Er by (by rewrite Eb1).
  assert (settings b1 = settings b /\ lease_part b1 = lease_part b /\ terminal_order b1 = terminal_order b) as (ES & EL & EO) by (by rewrite Eb1).
  clearbody b1. clear Eb1 m turns. pose proof (body_parts _ _ Eb) as (Er' & EQ' & ET' & _ & ES' & EL').
  pose proof ES as ES0. unfold settings in ES0. injection ES0 as E1 E2 E3 E4. pose proof EL as EL0. unfold lease_part in EL0. injection EL0 as E5 E6 E7.
  split; [|split; [congruence|split; [congruence|split; [congruence|]]]].
  - apply (inv_body _ b1); [done|done|]. split; [split|unfold retained in *; by rewrite EO, E2].
    + by rewrite E1, E2.
    + intros g x. rewrite Er, E5, E7, lookup_insert_Some. intros [[<- <-]|[_ Hg]]; [|by apply H2].
      split; cbn [handle request progress terminal_at_ms state value pre_display_requeues attempt r]; try done.
      * apply progress_initial.
      * split; [by intros []|by intros []].
    + intros h1 h2 r1 r2 a1 a2. rewrite Er, !lookup_insert_Some. intros [[<- <-]|[_ Hr1]]; [done|]. intros [[<- <-]|[_ Hr2]]; [done|]. by apply H3.
    + rewrite E1, E7. refine (queues_ok_ext _ _ _ _ _ _ _ _ _ HQ); [|done]. intros g o. rewrite Er. split.
      * intros [[-> ->]|(x & Hx & Sx & Ox)]; [exists r; by rewrite lookup_insert_eq|]. exists x. rewrite lookup_insert_ne by congruence. done.
      * intros (x & Hx & Sx & Ox). rewrite lookup_insert_Some in Hx. destruct Hx as [[<- <-]|[_ Hx]]; [left; by rewrite <- Ox|right; by exists x].
    + rewrite E2. etrans; [|exact H5]. apply Nat2Z.inj_le, active_mono. intros g x. rewrite Er, lookup_insert_Some. intros [[<- <-]|[_ Hg]] A; [done|by exists x].
    + rewrite EO. split; [done|]. intros g. rewrite H6', Er. split; intros (x & Hx & Tx).
      * exists x. by rewrite lookup_insert_ne by congruence.
      * rewrite lookup_insert_Some in Hx. destruct Hx as [[<- <-]|[_ Hx]]; [done|by exists x].
    + by intros g Hg%elem_of_nil.
    + rewrite E5, E3, E6. done.
    + by rewrite E6, E7.
    + done.
  - intros g w Hg. rewrite (wait_of_eq _ _ ES' EQ' ET'). unfold wait_of. rewrite E1. by apply HW.
Qed.

Lemma open_ok `{HashIter} b svc token req now h : Inv [] b -> op_ok (OOpen svc token req now h) b (open b svc token req now h).
Proof.
  intros HI. unfold open. destruct (drained_inv b HI) as [HI0 HE0]. set (b0 := fst (drain_pending_report b)) in *. unfold or_return.
  destruct (map_err EInvalid (open_validate req)) as [[]|e] eqn:Ev; [|by apply quiet_ok]. apply map_err_Ok in Ev.
  destruct (maintain_spec b0 now HI0) as (b1 & -> & HI1 & HE1 & _). cbn [mbind option_bind]. assert (evolves b b1) as HE by (by etrans).
  case_bool_decide as Edup; [by apply quiet_ok|]. destruct (Z.leb_spec (total (limits b1)) (Z.of_nat (queued_len b1))); [by apply quiet_ok|].
  destruct (Z.leb_spec (per_origin (limits b1)) (Z.of_nat (origin_queue_len b1 svc))); [by apply quiet_ok|].
  destruct (try_consume (rate_limiter b1) svc now) as [l granted]. set (b2 := with_rate_limiter b1 l).
  assert (Inv [] b2) as HI2 by (apply (inv_body _ b1); [done|apply (i_log _ _ (proj1 HI1))|done]).
  assert (evolves b b2) as HE2 by (etrans; [exact HE|by apply evolves_body]).
  destruct granted; cbn [negb]; [|by apply quiet_ok].
  destruct (open_inv b2 svc token req now h None (Some Queued) COpen HI2) as (HI3 & ES & EL & ER & HW); [by apply eq_None_not_Some|done|done|done|].
  cbv zeta. set (b3 := record_transition _ _ _ _ _) in *. eexists b3, _. split; [done|]. split; [done|].
  destruct (lease_part_inj _ _ EL) as (_ & _ & Et). destruct (quiet (OOpen svc token req now h) _ _ HE2) as [Q1 Q2 Q3 Q4]. split; [congruence| |lia|].
  - intros g x. rewrite ER, lookup_insert_Some. intros [[<- <-]|[_ Hg]]; [apply mv_open|by apply Q2].
  - intros g x x' w Hop Hlt Hg Sg Hg' Sg' Hw. cbn [opens] in Hop. rewrite Et in *. apply (Q4 g x x' w); try done.
    + rewrite ER, lookup_insert_ne in Hg' by done. done.
    + apply HW; [by apply not_eq_sym|done].
Qed.

(** ** The next presentation *)

Lemma dequeued_inv b m turns h : Inv [] b -> (next_attempt_token b = U64_MAX)%Z ->
  queues_ok (limits b) (next_attempt_token b < U64_MAX)%Z (fun g o => g <> h /\ queued_at (records b) g o) m turns ->
  Inv [] (with_origin_turns (with_queued_by_origin b m) turns).
Proof.
  intros [[H1 H2 H3 H4 H5 H6 H7 H8 H9 H10] Hret] Emax [Q1 Q2 Q3 Q4 Q5 Q6]. split; [split; try done|done]. split; try done.
  - intros o q g Hq Hg. by apply (Q1 o q g).
  - cbn. lia.
Qed.

Lemma present_inv b m turns h r l f t c : Inv [] b -> (next_attempt_token b < U64_MAX)%Z -> (Z.of_nat (active_len b) < active (retention b))%Z ->
  records b !! h = Some r -> state r = Queued -> presenter b = Some l ->
  queues_ok (limits b) (next_attempt_token b < U64_MAX)%Z (fun g o => g <> h /\ queued_at (records b) g o) m turns ->
  let r' := with_attempt (with_state r Presenting) (Some (mkAttempt (generation l) (next_attempt_token b))) in
  let b1 := with_next_attempt_token (with_origin_turns (with_queued_by_origin b m) turns) (next_attempt_token b + 1) in
  Inv [] (record_transition (with_records b1 (<[h := r']> (records b1))) h f t c).
Proof.
  intros [[H1 H2 H3 H4 H5 [H6 H6'] H7 H8 H9 H10] Hret] Hlt Ha Hr S Hl HQ r' b1.
  apply (inv_body _ (with_records b1 (<[h := r']> (records b1)))); [apply record_transition_body|by apply record_transition_log|].
  split; [split; try done|done]; cbn [records with_records b1 with_next_attempt_token with_origin_turns with_queued_by_origin presenter next_attempt_token
    limits queued_by_origin origin_turns retention terminal_order].
  - intros g x. rewrite lookup_insert_Some. intros [[<- <-]|[_ Hg]].
    + destruct (H2 _ _ Hr) as [S1 S2 S3 S4 S5 S6 S7 S8]. split; try done; cbn.
      * rewrite S4, S. done.
      * destruct (value r); [|done]. destruct S5 as [E _]. congruence.
      * split; [intros _; split; [done|by intros ?%elem_of_nil]|by eexists].
      * intros a [= <-]. cbn. split; [by exists l|lia].
    + destruct (H2 _ _ Hg) as [S1 S2 S3 S4 S5 S6 S7 S8]. split; try done. intros a Ha'. destruct (S8 a Ha'). split; [done|lia].
  - assert (forall g x a, records b !! g = Some x -> attempt x = Some a -> (at_token a < next_attempt_token b)%Z) as Hold.
    { intros g x a Hg Hx. by apply (r_current _ _ _ _ _ (H2 _ _ Hg) a Hx). }
    intros h1 h2 r1 r2 a1 a2. rewrite !lookup_insert_Some. intros [[<- <-]|[_ Hr1]] [[<- <-]|[_ Hr2]] Ha1 Ha2 E; [done| | |by eapply H3].
    + cbn in Ha1. injection Ha1 as <-. pose proof (Hold _ _ _ Hr2 Ha2). cbn in E. lia.
    + cbn in Ha2. injection Ha2 as <-. pose proof (Hold _ _ _ Hr1 Ha1). cbn in E. lia.
  - refine (queues_ok_ext _ _ _ _ _ _ _ _ _ HQ); [|lia]. intros g o. split.
    + intros [Hne (x & Hx & Sx)]. exists x. by rewrite lookup_insert_ne.
    + intros (x & Hx & Sx & Ox). rewrite lookup_insert_Some in Hx. destruct Hx as [[<- <-]|[Hne Hx]]; [done|]. split; [done|]. by exists x.
  - unfold active_len in *. cbn [records with_records b1 with_next_attempt_token with_origin_turns with_queued_by_origin].
    rewrite map_filter_insert_True by done. rewrite map_size_insert_None; [lia|]. apply map_lookup_filter_None. right. intros x Hx. cbn.
    assert (x = r) as -> by congruence. by rewrite S.
  - split; [done|]. intros g. rewrite H6'. split; intros (x & Hx & Tx).
    + exists x. rewrite lookup_insert_ne; [done|]. intros <-. assert (x = r) as -> by congruence. by rewrite S in Tx.
    + rewrite lookup_insert_Some in Hx. destruct Hx as [[<- <-]|[_ Hx]]; [done|by exists x].
  - by intros g Hg%elem_of_nil.
  - cbn. split; [lia|apply H9].
Qed.

Lemma next_ok `{HashIter} b lease now : Inv [] b -> op_ok (ONext lease now) b (next_presentation b lease now).
Proof.
  intros HI. unfold next_presentation. destruct (drained_inv b HI) as [HI0 HE0]. set (b0 := fst (drain_pending_report b)) in *. unfold or_return.
  destruct (check_lease b0 lease) as [[]|e] eqn:El; [|by apply quiet_ok]. apply check_lease_ok in El.
  destruct (maintain_spec b0 now HI0) as (b1 & -> & HI1 & HE1 & _ & Hsub & _). cbn [mbind option_bind]. assert (evolves b b1) as HE by (by etrans).
  destruct (lease_part_inj _ _ (e_lease _ _ HE1)) as (Ep & _ & Et). change (presenter b0) with (presenter b) in *. change (next_attempt_token b0) with (next_attempt_token b) in Et.
  rewrite El in Ep. destruct (Z.leb_spec (active (retention b1)) (Z.of_nat (active_len b1))) as [|Ha]; [by apply quiet_ok|].
  destruct (dequeue_spec b1 _ _ (i_queues _ _ (proj1 HI1))) as [[_ ->]|(o & turns & h & q & m & turns' & Et1 & Hq & -> & HQ & HW)]; cbn [mbind option_bind]; [by apply quiet_ok|].
  destruct (q_live _ _ _ _ _ (i_queues _ _ (proj1 HI1)) o (h :: q) h Hq ltac:(by left)) as (r & Hr & S & Ho).
  destruct (quiet (ONext lease now) _ _ HE) as [Q1 Q2 Q3 Q4]. unfold mint_attempt_token, checked_succ64.
  cbn [next_attempt_token with_origin_turns with_queued_by_origin]. destruct (Z.ltb_spec (next_attempt_token b1) U64_MAX) as [Hlt|Hge].
  - cbn [records with_next_attempt_token with_origin_turns with_queued_by_origin]. rewrite Hr. cbn [mbind option_bind].
    pose proof (present_inv b1 m turns' h r lease (Some Queued) (Some Presenting) CPresent HI1 Hlt Ha Hr S Ep HQ) as HI2. cbv zeta in HI2 |- *.
    set (b3 := with_records _ _) in *. set (b2 := record_transition b3 _ _ _ _) in *. eexists b2, _. split; [done|]. split; [done|].
    pose proof (body_parts _ _ (record_transition_body b3 h (Some Queued) (Some Presenting) CPresent)) as (ER & EQ & ET & _ & ES & EL). fold b2 in ER, EQ, ET, ES, EL.
    destruct (lease_part_inj _ _ EL) as (_ & _ & Et2). change (next_attempt_token b3) with (next_attempt_token b1 + 1)%Z in Et2.
    split; [rewrite ES; exact Q1| |lia|].
    + intros g x. rewrite ER. cbn [records b3 with_records]. rewrite lookup_insert_Some. intros [[<- <-]|[_ Hg]]; [|by apply Q2].
      assert (records b !! h = Some r) as -> by (apply Hsub; [done|by rewrite S]). by apply mv_present.
    + intros g x x' w _ _ Hg Sg Hg' Sg' Hw. rewrite ER in Hg'. cbn [records b3 with_records] in Hg'. rewrite lookup_insert_Some in Hg'.
      destruct Hg' as [[<- <-]|[Hne Hg']]; [done|]. rewrite (wait_of_eq _ _ ES EQ ET) in Hw.
      destruct (HW (Z.to_nat (total (limits b1))) g w) as (w1 & Hlt1 & Hw1).
      * pose proof (turns_bound _ _ _ _ _ (i_queues _ _ (proj1 HI1))). lia.
      * by apply not_eq_sym.
      * exact Hw.
      * destruct (Q4 g x x' w1) as (w' & Hle & Hw'); try done; [cbn; tauto|]. exists w'. split; [lia|done].
  - assert (next_attempt_token b1 = U64_MAX) as Emax by (pose proof (i_counters _ _ (proj1 HI1)); lia).
    set (b2 := with_origin_turns _ _). eexists b2, _. split; [done|]. split; [by eapply dequeued_inv|].
    split; [exact Q1|exact Q2|exact Q3|]. intros g x x' w _ Hlt2. change (next_attempt_token b2) with (next_attempt_token b1) in Hlt2. lia.
Qed.

Lemma op_ok_apply {A} op b (m : option (DialogBroker * A)) : op_ok op b m ->
  exists b', fst <$> m = Some b' /\ Inv [] b' /\ op_rel op b b'.
Proof. intros (b' & v & -> & HI & HR). by exists b'. Qed.

(** Any call on a broker that keeps the invariant. *)
Lemma apply_op_spec `{HashIter} op b : Inv [] b -> exists b', apply_op b op = Some b' /\ Inv [] b' /\ op_rel op b b'.
Proof.
  intros HI. destruct op; cbn [apply_op]; try apply op_ok_apply.
  - by apply open_ok.
  - by apply register_ok.
  - by apply release_ok.
  - by apply next_ok.
  - by apply mark_presented_ok.
  - by apply resolve_ok.
  - by apply fail_presentation_ok.
  - by apply cancel_ok.
  - by apply progress_cancel_ok.
  - by apply update_progress_ok.
  - by apply complete_progress_ok.
  - by apply withdraw_ok.
  - by apply expire_ok.
  - by apply gc_ok.
  - apply (op_ok_apply ODrain b (Some (drain_transitions b))). by apply drain_ok.
Qed.
