(* ===== verification/DialogClaims.v ===== *)
(** * What the dialog broker promises ([cosmix-interaction-broker/src/dialog.rs])

    Over every sequence of calls, whatever the iteration order of its maps: the
    invariant, that no call panics or runs on, that an answered dialog stays as it
    is, who can answer one, that a waiting dialog is not passed over for ever, and
    that maintenance is due exactly when [next_maintenance_at_ms] says. *)

From S2P Require Import Prelude Utf8 Str BTree DialogSchema RateLimit Dialog DialogInv DialogRequeue DialogOps.

(** ** Reachable brokers *)

Section broker.
Context (l : RateLimiter) (lim : DialogQueueLimits) (ret : DialogRetentionPolicy) (epoch : Z).
Hypothesis Hconfig : config_ok lim ret.

Definition start : DialogBroker := with_instance_epoch (new_with_retention l lim ret) epoch.
Definition reachable (b : DialogBroker) : Prop := rtc op_step start b.

Lemma start_inv : Inv [] start.
Proof.
  destruct Hconfig as (C1 & C2 & C3 & C4 & C5).
  assert (forall h (r : DialogRecord), records start !! h = Some r -> False) as Hnone by (intros h r; cbn; by rewrite lookup_empty).
  split; [split|unfold retained; cbn; lia].
  - done.
  - by intros h r ?%Hnone.
  - by intros h1 h2 r1 r2 a1 a2 ?%Hnone.
  - split.
    + intros o q h. cbn. by rewrite lookup_empty.
    + intros o q. cbn. by rewrite lookup_empty.
    + constructor.
    + intros o. cbn. rewrite elem_of_nil, lookup_empty. split; [done|by intros []].
    + change (Z.of_nat (qsum ∅) <= total lim)%Z. unfold qsum. rewrite map_fold_empty. cbn. lia.
    + intros _ h o (r & Hr & _). by apply Hnone in Hr.
  - unfold active_len. change (records start) with (∅ : gmap bytes DialogRecord). rewrite map_filter_empty, map_size_empty. cbn. lia.
  - split; [constructor|]. intros h. cbn [terminal_order start with_instance_epoch new_with_retention]. rewrite elem_of_nil. split; [done|]. intros (r & Hr & _). by eapply Hnone.
  - by intros h Hh%elem_of_nil.
  - done.
  - done.
  - cbn [pending_transitions transition_limit start with_instance_epoch new_with_retention length].
    unfold sat_add64, sat_mul64, U64_MAX, DIALOG_TRANSITION_MUTATION_HEADROOM. lia.
Qed.

Lemma reachable_inv b : reachable b -> Inv [] b.
Proof.
  intros Hr. assert (forall x y, rtc op_step x y -> Inv [] x -> Inv [] y) as Hind; [|eapply Hind; [exact Hr|apply start_inv]].
  clear b Hr. induction 1 as [x|x y z [HI b op b' Hb] _ IH]; [done|]. intros Hx. apply IH.
  destruct (apply_op_spec op b Hx) as (b'' & Hb'' & HI' & _). congruence.
Qed.

Lemma reachable_rel `{HashIter} b op b' : reachable b -> apply_op b op = Some b' -> Inv [] b' /\ op_rel op b b'.
Proof. intros Hr Hb. destruct (apply_op_spec op b (reachable_inv b Hr)) as (b'' & Hb'' & HI & HR). assert (b'' = b') as -> by congruence. done. Qed.

(** C8: from the start, through any calls, the broker keeps its invariant: every
    record is under its own handle with a valid request; each origin's queue holds
    exactly its waiting dialogs once (as long as attempts can be numbered), within
    both queue limits, and has one turn; an attempt is held by exactly the active
    dialogs, under the current lease, with tokens that are distinct and never used
    before; at most [active] are active and [terminal] retained, the retained ones
    exactly those in [terminal_order]; only resolved dialogs have a value, and it is a valid answer;
    the transition log is within its limit.  And no call panics: each ends and leaves
    such a broker. *)
Theorem broker_sound b : reachable b ->
  Inv [] b /\ forall (HI : HashIter) (op : Op), exists b', apply_op b op = Some b' /\ Inv [] b'.
Proof.
  intros Hr. pose proof (reachable_inv b Hr) as Hb. split; [done|]. intros HI op.
  destruct (apply_op_spec op b Hb) as (b' & ? & ? & _). by exists b'.
Qed.

(** A dialog that has ended stays as it ended until it is evicted: no call but
    an [open] that reuses the evicted handle changes or revives it. *)
Theorem terminal_final `{HashIter} b op b' h r :
  reachable b -> apply_op b op = Some b' -> records b !! h = Some r -> is_terminal (state r) = true -> ~ opens op h ->
  records b' !! h = Some r \/ records b' !! h = None.
Proof.
  intros Hr Hb Hh T Hop. destruct (reachable_rel b op b' Hr Hb) as [_ HR]. destruct (records b' !! h) as [r'|] eqn:Hr'; [|by right].
  left. f_equal. pose proof (o_moved _ _ _ HR _ _ Hr') as Hm. rewrite Hh in Hm.
  inversion Hm as [op0 h0 r0 r1 F| | lease now h0 r0 t Hp S|lease h0 token now r0 r1 Hby S|lease h0 token now r0 r1 Hby S|svc token h0 patch now r0 r1 Hby S|lease h0 token v now r0 Hby Hrej|svc token h0 c now r0 Hby S];
    subst; [|by destruct Hop|by rewrite S in T|by rewrite S in T|by rewrite S in T|congruence| |congruence].
  - destruct F as [_ F]. by rewrite T in F.
  - destruct (rejection_none _ _ _ Hrej) as (_ & [S|S] & _); by rewrite S in T.
Qed.

(** C14: a dialog becomes resolved only by a decision that was this caller's to take:
    by the service that holds the current lease, under the token of its own current attempt,
    on a dialog it has presented, that is not its own, not a progress dialog and not past its deadline, with
    an answer valid for the request; or, for a progress dialog, by its owner with the owner's token
    and a valid completion.  The record is otherwise as it was. *)
Theorem resolved_by_decision `{HashIter} b op b' h r' :
  reachable b -> apply_op b op = Some b' -> records b' !! h = Some r' -> state r' = Resolved -> records b !! h <> Some r' ->
  exists r, records b !! h = Some r /\
  ((exists lease token v now, op = OResolve lease h token v now /\ by_attempt b lease token now r /\
      (state r = Presented \/ state r = CancelRequested) /\ owner_service r <> service lease /\
      is_progress (dialog (request r)) = false /\ validate_for v (dialog (request r)) = Ok tt /\
      r' = terminal_record r Resolved (Some v) now) \/
   (exists svc token c now, op = OComplete svc token h c now /\ by_owner svc token now r /\ is_terminal (state r) = false /\
      is_progress (dialog (request r)) = true /\ completion_validate c = Ok tt /\
      r' = terminal_record r Resolved (Some (VProgress c)) now)).
Proof.
  intros Hr Hb Hr' S Hne. destruct (reachable_rel b op b' Hr Hb) as [_ HR]. pose proof (o_moved _ _ _ HR _ _ Hr') as Hm.
  inversion Hm as [op0 h0 r r1 F| | lease now h0 r t Hp Sr|lease h0 token now r r1 Hby Sr Hid Sr'|lease h0 token now r r1 Hby Sr Hpr Hid Sr'|svc token h0 patch now r r1 Hby Sr Hid Sr'|lease h0 token v now r Hby Hrej|svc token h0 c now r Hby Sr Hp Hc];
    subst; cbn in *; try congruence.
  - destruct F as [_ F]. destruct (is_terminal (state r)) eqn:T; [congruence|]. destruct (is_active (state r)); [done|].
    destruct F as [->|[_ F]]; congruence.
  - destruct (cancel_requested r); congruence.
  - rewrite Sr', S in *. done.
  - exists r. split; [done|]. left. destruct (rejection_none _ _ _ Hrej) as (? & ? & ? & ?). exists lease, token, v, now. done.
  - exists r. split; [done|]. right. exists svc, token, c, now. done.
Qed.

(** ** No dialog waits for ever *)

(** A run of calls in which [h] stays in its queue. *)
Inductive waiting_run (h : bytes) : DialogBroker -> DialogBroker -> Prop :=
| wr_nil b : waiting_run h b b
| wr_step (HI : HashIter) b op b' b'' r : apply_op b op = Some b' -> ~ opens op h -> records b' !! h = Some r -> state r = Queued ->
    waiting_run h b' b'' -> waiting_run h b b''.

Lemma wait_exists b h r : Inv [] b -> (next_attempt_token b < U64_MAX)%Z -> records b !! h = Some r -> state r = Queued ->
  exists w, wait_of b h w.
Proof.
  intros [HI _] Hlt Hr S. pose proof (i_queues _ _ HI) as HQ.
  destruct (q_all _ _ _ _ _ HQ Hlt h (owner_service r)) as (q & Hq & (i & Hi)%list_elem_of_lookup_1); [by exists r|].
  pose proof (proj2 (q_turns _ _ _ _ _ HQ (owner_service r)) ltac:(by eexists)) as Hin. apply list_elem_of_lookup_1 in Hin as (p & Hp). eexists _, _, _, i, p. done.
Qed.
Lemma wait_bound b h w : Inv [] b -> wait_of b h w -> (Z.of_nat w < per_origin (limits b) * total (limits b))%Z.
Proof.
  intros [HI _] (o & q & i & p & Hq & Hi & Hp & ->). pose proof (i_queues _ _ HI) as HQ.
  destruct (q_shape _ _ _ _ _ HQ _ _ Hq) as (_ & _ & Hlen). pose proof (turns_bound _ _ _ _ _ HQ) as Ht.
  apply lookup_lt_Some in Hi, Hp. rewrite Nat2Z.inj_add, Nat2Z.inj_mul, Z2Nat.id by lia. nia.
Qed.

Lemma waiting_run_inv h b b' : waiting_run h b b' -> Inv [] b -> Inv [] b' /\ settings b' = settings b /\ (next_attempt_token b <= next_attempt_token b')%Z.
Proof.
  induction 1 as [b|HI b op b' b'' r Hb _ _ _ _ IH]; intros Hi; [done|]. destruct (apply_op_spec op b Hi) as (b1 & Hb1 & HI1 & HR).
  assert (b1 = b') as -> by congruence. destruct (IH HI1) as (? & ? & ?). pose proof (o_settings _ _ _ HR). pose proof (o_tokens _ _ _ HR). split; [done|]. split; [congruence|lia].
Qed.
Lemma waiting_run_wait h b b' : waiting_run h b b' -> Inv [] b -> (exists r, records b !! h = Some r /\ state r = Queued) ->
  (next_attempt_token b' < U64_MAX)%Z ->
  exists w w', wait_of b h w /\ wait_of b' h w' /\ (Z.of_nat w' + (next_attempt_token b' - next_attempt_token b) <= Z.of_nat w)%Z.
Proof.
  induction 1 as [b|HI b op b' b'' r Hb Hop Hr' S' Hrun IH]; intros Hi (r0 & Hr0 & S0) Hlt.
  - destruct (wait_exists b h r0 Hi Hlt Hr0 S0) as (w & Hw). exists w, w. split; [done|]. split; [done|lia].
  - destruct (apply_op_spec op b Hi) as (b1 & Hb1 & HI1 & HR). assert (b1 = b') as -> by congruence.
    destruct (waiting_run_inv _ _ _ Hrun HI1) as (_ & _ & Ht). destruct (IH HI1 ltac:(by exists r) Hlt) as (w1 & w2 & Hw1 & Hw2 & Hle).
    destruct (o_waits _ _ _ HR h r0 r w1 Hop ltac:(lia) Hr0 S0 Hr' S' Hw1) as (w & Hle' & Hw). exists w, w2. split; [done|]. split; [done|lia].
Qed.

(** C15: a waiting dialog is not starved.  While it stays in its queue, through
    whatever calls, fewer than [per_origin * total] other dialogs are presented:
    attempts are numbered one by one, and the counter moves less than that.  (The counter has
    not run out: fewer than [2^64 - 1] presentations were ever made.) *)
Theorem waiting_bounded b b' h r :
  reachable b -> records b !! h = Some r -> state r = Queued -> waiting_run h b b' -> (next_attempt_token b' < U64_MAX)%Z ->
  (next_attempt_token b' - next_attempt_token b < per_origin lim * total lim)%Z.
Proof.
  intros Hreach Hr S Hrun Hlt. pose proof (reachable_inv b Hreach) as HI.
  destruct (waiting_run_wait h b b' Hrun HI ltac:(by exists r) Hlt) as (w & w' & Hw & _ & Hle). pose proof (wait_bound b h w HI Hw) as Hb.
  assert (limits b = lim) as El; [|rewrite El in Hb; lia].
  assert (forall x y, rtc op_step x y -> Inv [] x -> limits y = limits x) as Hlim.
  { clear. induction 1 as [x|x y z [HI b op b' Hb] _ IH]; [done|]. intros Hx. destruct (apply_op_spec op b Hx) as (b1 & Hb1 & HI1 & HR).
    assert (b1 = b') as -> by congruence. rewrite IH by done. pose proof (o_settings _ _ _ HR) as E. unfold settings in E. by injection E. }
  by rewrite (Hlim _ _ Hreach start_inv).
Qed.

(** ** Maintenance *)

Lemma min_time_spec l0 : match min_time l0 with Some t => t ∈ l0 /\ forall x, x ∈ l0 -> (t <= x)%Z | None => l0 = [] end.
Proof.
  destruct l0 as [|x l0]; [done|]. cbn [min_time]. revert x. induction l0 as [|y l0 IH]; intros x; cbn [foldl].
  - split; [by left|]. by intros z ->%list_elem_of_singleton.
  - destruct (IH (Z.min x y)) as [H1 H2]. split.
    + apply elem_of_cons in H1 as [->|H1]; [destruct (Z.min_spec x y) as [[_ ->]|[_ ->]]; [by left|right; by left]|right; by right].
    + intros z [->|[->|Hz]%elem_of_cons]%elem_of_cons; [pose proof (H2 (Z.min x y) ltac:(by left)); lia..|apply H2; by right].
Qed.

(** When a record next needs maintenance. *)
Definition due_at (ttl : Z) (r : DialogRecord) : option Z :=
  if is_terminal (state r)
  then t ← terminal_at_ms r; if (t + ttl <=? U64_MAX)%Z then Some (t + ttl)%Z else None
  else expires_at_ms r.

Lemma next_maintenance_spec `{HashIter} b :
  (forall t, next_maintenance_at_ms b = Some t -> exists h r, records b !! h = Some r /\ due_at (terminal_ttl_ms (retention b)) r = Some t) /\
  (forall h r t, records b !! h = Some r -> due_at (terminal_ttl_ms (retention b)) r = Some t -> exists t', next_maintenance_at_ms b = Some t' /\ (t' <= t)%Z).
Proof.
  unfold next_maintenance_at_ms. set (l1 := omap expires_at_ms _). set (l2 := omap _ (filter (fun r => is_terminal (state r) = true) _)).
  assert (forall t, t ∈ l1 \/ t ∈ l2 <-> exists h r, records b !! h = Some r /\ due_at (terminal_ttl_ms (retention b)) r = Some t) as Hin.
  { intros t. unfold l1, l2. rewrite !list_elem_of_omap. split.
    - intros [(r & [T (h & Hr)%elem_of_hash_values]%list_elem_of_filter & E)|(r & [T (h & Hr)%elem_of_hash_values]%list_elem_of_filter & E)];
        exists h, r; (split; [done|]); unfold due_at; by rewrite T.
    - intros (h & r & Hr & E). unfold due_at in E. assert (r ∈ hash_values (records b)) by (apply elem_of_hash_values; by exists h).
      destruct (is_terminal (state r)) eqn:T; [right|left]; exists r; (split; [by apply list_elem_of_filter|done]). }
  pose proof (min_time_spec l1) as M1. pose proof (min_time_spec l2) as M2. destruct (min_time l1) as [t1|], (min_time l2) as [t2|].
  - destruct M1 as [I1 L1], M2 as [I2 L2]. split.
    + intros t [= <-]. apply Hin. destruct (Z.min_spec t1 t2) as [[_ ->]|[_ ->]]; auto.
    + intros h r t Hr E. destruct (proj2 (Hin t) ltac:(eauto)) as [Ht|Ht]; eexists; (split; [done|]); [specialize (L1 _ Ht)|specialize (L2 _ Ht)]; lia.
  - destruct M1 as [I1 L1]. split; [intros t [= <-]; apply Hin; by left|]. intros h r t Hr E. destruct (proj2 (Hin t) ltac:(eauto)) as [Ht|Ht]; [eauto|].
    rewrite M2 in Ht. by apply elem_of_nil in Ht.
  - destruct M2 as [I2 L2]. split; [intros t [= <-]; apply Hin; by right|]. intros h r t Hr E. destruct (proj2 (Hin t) ltac:(eauto)) as [Ht|Ht]; [|eauto].
    rewrite M1 in Ht. by apply elem_of_nil in Ht.
  - split; [done|]. intros h r t Hr E. destruct (proj2 (Hin t) ltac:(eauto)) as [Ht|Ht]; [rewrite M1 in Ht|rewrite M2 in Ht]; by apply elem_of_nil in Ht.
Qed.

Lemma settled_due b now : (0 < terminal_ttl_ms (retention b))%Z -> (now <= U64_MAX)%Z -> Inv [] b ->
  settled b now <-> forall h r t, records b !! h = Some r -> due_at (terminal_ttl_ms (retention b)) r = Some t -> (now < t)%Z.
Proof.
  intros Httl Hnow HI. unfold settled, due_at, is_due, sat_sub64. split.
  - intros Hset h r t Hr. destruct (Hset _ _ Hr) as [D O]. destruct (is_terminal (state r)).
    + destruct (terminal_at_ms r) as [t0|]; [|done]. cbn in *. destruct (Z.leb_spec (t0 + terminal_ttl_ms (retention b)) U64_MAX); [|done].
      intros [= <-]. apply Z.leb_gt in O. lia.
    + intros E. rewrite E in D. cbn in D. apply Z.leb_gt in D. lia.
  - intros Hdue h r Hr. specialize (Hdue h r). pose proof (r_terminal _ _ _ _ _ (i_record _ _ (proj1 HI) _ _ Hr)) as HT.
    destruct (is_terminal (state r)).
    + split; [done|]. destruct (terminal_at_ms r) as [t0|]; [|done]. cbn in *. apply Z.leb_gt.
      destruct (Z.leb_spec (t0 + terminal_ttl_ms (retention b)) U64_MAX); [specialize (Hdue _ Hr eq_refl); lia|lia].
    + split; [|destruct (terminal_at_ms r); [|done]; discriminate (proj1 HT ltac:(by eexists))].
      destruct (expires_at_ms r) as [d|]; [|done]. cbn. apply Z.leb_gt. by apply Hdue.
Qed.

(** Maintenance is due exactly when [next_maintenance_at_ms] says: before that time
    a sweep changes no record, and after a sweep the next one is later than now, so a
    scheduler that sleeps until then misses nothing and does not spin. *)
Theorem maintenance_exact `{HashIter} b now :
  reachable b -> (0 < terminal_ttl_ms (retention b))%Z -> (now <= U64_MAX)%Z ->
  exists b' o, gc b now = Some (b', o) /\
    (forall t, next_maintenance_at_ms b' = Some t -> (now < t)%Z) /\
    ((forall t, next_maintenance_at_ms b = Some t -> (now < t)%Z) -> records b' = records b).
Proof.
  intros Hr Httl Hnow. pose proof (reachable_inv b Hr) as HI. unfold gc. destruct (maintain_spec b now HI) as (b1 & -> & HI1 & HE1 & Hset & _ & Hsame). cbn [mbind option_bind].
  eexists _, _. split; [done|]. destruct (evolves_settings _ _ HE1) as [_ Er]. split.
  - intros t Ht. change (next_maintenance_at_ms _) with (next_maintenance_at_ms b1) in Ht.
    destruct (proj1 (next_maintenance_spec b1) t Ht) as (h & r & Hh & Hd). refine (proj1 (settled_due b1 now _ Hnow HI1) Hset h r t Hh Hd). by rewrite Er.
  - intros Hbefore. apply Hsame, settled_due; [done|done|done|]. intros h r t Hh Hd.
    destruct (proj2 (next_maintenance_spec b) h r t Hh Hd) as (t' & Ht' & Hle). specialize (Hbefore _ Ht'). lia.
Qed.

(** ** An answer reaches its owner *)

(** The presenter's valid answer to a dialog it has presented is accepted, and
    the owner, and no one without its token, then reads exactly that answer. *)
Theorem answer_delivered `{HashIter} b lease h token v now r :
  reachable b -> (1 <= terminal (retention b))%Z -> check_lease b lease = Ok tt -> records b !! h = Some r ->
  by_attempt b lease token now r -> rejection lease r v = None ->
  exists b', resolve b lease h token v now = Some (b', Ok tt) /\
    forall svc tok, broker_result b' svc tok h =
      Some (if bool_decide (svc = owner_service r) && bool_decide (tok = owner_token r) then Ok (mkResult h Resolved (Some v)) else Err WrongOwner).
Proof.
  intros Hr Hret Hl Hh (Hp & Ha & Hd) Hrej. pose proof (reachable_inv b Hr) as HI. unfold resolve, presenter_call.
  destruct (drained_inv b HI) as [HI0 HE0]. set (b0 := fst (drain_pending_report b)) in *.
  assert (is_active (state r) = true) as A by (apply (r_attempt _ _ _ _ _ (i_record _ _ (proj1 HI) _ _ Hh)); by rewrite Ha).
  change (check_lease b0 lease) with (check_lease b lease). rewrite Hl. cbn [or_return].
  assert (check_current_attempt b0 h (generation lease) token = Ok tt) as ->.
  { unfold check_current_attempt. change (records b0) with (records b). rewrite Hh. cbn [ok_or result_bind]. rewrite Ha. cbn.
    by rewrite !bool_decide_eq_true_2. }
  cbn [or_return]. unfold expire_handle_if_due. change (records b0) with (records b). rewrite Hh. cbn [is_some_and]. rewrite Hd. cbn [mbind option_bind].
  change (records b0 !! h) with (records b !! h). rewrite Hh. cbn [mbind option_bind]. rewrite Hrej.
  destruct (take_one b b0 h r eq_refl HI0 Hh A) as (HI1 & HE1 & R1 & _). cbv zeta. change (records b) with (records b0).
  set (b1 := with_records b0 _) in *. destruct (rejection_none _ _ _ Hrej) as (_ & _ & _ & Hv).
  destruct (terminal_spec [h] b1 h (with_attempt r None) Resolved (Some v) now CResolve HI1 R1) as (b' & -> & HI' & HE); [by apply active_not_terminal|done|done|].
  cbn [mbind option_bind]. exists b'. split; [done|]. intros svc tok. pose proof (n_end _ _ _ _ HE Hret) as Hend.
  unfold broker_result, check_owner. rewrite Hend. cbn [ok_or result_bind terminal_record with_attempt owner_service owner_token].
  rewrite (bool_decide_ext (svc = owner_service r) (owner_service r = svc)), (bool_decide_ext (tok = owner_token r) (owner_token r = tok)) by (split; congruence).
  repeat case_bool_decide; done.
Qed.
End broker.

(** ** At a concrete run *)

Lemma sample_config : config_ok default_limits default_retention.
Proof. unfold config_ok. vm_compute. repeat split; discriminate. Qed.
Lemma sample_reachable n : is_Some (run_ops (H := key_order) sample_start (take n sample_ops)) ->
  reachable (RateLimiter_new DEFAULT_RATE) default_limits default_retention 7 (sample_at n).
Proof. intros [b Hb]. unfold sample_at. rewrite Hb. by apply (run_ops_reach (H := key_order) (take n sample_ops)). Qed.

#[local] Existing Instance key_order.
Abbreviation sample_reach := (reachable (RateLimiter_new DEFAULT_RATE) default_limits default_retention 7).
Ltac by_computation := solve [vm_compute; reflexivity].
Ltac at_sample := apply sample_reachable, (bool_decide_unpack _); vm_compute; exact I.

Lemma broker_sound_witness : sample_reach (sample_at 6) /\ Inv [] (sample_at 6).
Proof.
  assert (sample_reach (sample_at 6)) as Hr by at_sample. split; [exact Hr|]. exact (proj1 (broker_sound (RateLimiter_new DEFAULT_RATE) default_limits default_retention 7 sample_config _ Hr)).
Defined.

Definition sample_cancelled : DialogBroker := default sample_start (apply_op (sample_at 6) (OCancel (bs "mail") (bs "secret") (bs "d-1") 16)).

Lemma terminal_final_witness : exists r, records (sample_at 6) !! bs "d-1" = Some r /\ state r = Resolved /\
  (records sample_cancelled !! bs "d-1" = Some r \/ records sample_cancelled !! bs "d-1" = None).
Proof.
  destruct (records (sample_at 6) !! bs "d-1") as [r|] eqn:E; [|vm_compute in E; discriminate].
  assert (state r = Resolved) as S by (vm_compute in E; injection E as <-; reflexivity).
  exists r. split; [reflexivity|]. split; [exact S|].
  apply (terminal_final (RateLimiter_new DEFAULT_RATE) default_limits default_retention 7 sample_config (sample_at 6) (OCancel (bs "mail") (bs "secret") (bs "d-1") 16) sample_cancelled (bs "d-1") r).
  - at_sample.
  - by_computation.
  - exact E.
  - by rewrite S.
  - intros [].
Defined.

Lemma resolved_by_decision_witness : exists r r', records (sample_at 5) !! bs "d-1" = Some r /\ records (sample_at 6) !! bs "d-1" = Some r' /\
  owner_service r <> service sample_lease /\ r' = terminal_record r Resolved (Some VMessage) 15.
Proof.
  destruct (records (sample_at 6) !! bs "d-1") as [r'|] eqn:E; [|vm_compute in E; discriminate].
  destruct (resolved_by_decision (RateLimiter_new DEFAULT_RATE) default_limits default_retention 7 sample_config (sample_at 5) (OResolve sample_lease (bs "d-1") 1 VMessage 15) (sample_at 6) (bs "d-1") r')
    as (r & Hr & [(lease & token & v & now & Eop & _ & _ & Ho & _ & _ & Er)|(svc & token & c & now & Eop & _)]).
  - at_sample.
  - by_computation.
  - exact E.
  - vm_compute in E. injection E as <-. reflexivity.
  - intros E5. vm_compute in E. injection E as <-. vm_compute in E5. discriminate.
  - injection Eop as <- <- <- <-. exists r, r'. split; [exact Hr|]. split; [reflexivity|]. split; [exact Ho|exact Er].
  - discriminate.
Defined.

Lemma waiting_bounded_witness : waiting_run (bs "d-2") (sample_at 2) (sample_at 4) /\
  (next_attempt_token (sample_at 4) - next_attempt_token (sample_at 2) < 8 * 64)%Z.
Proof.
  assert (waiting_run (bs "d-2") (sample_at 2) (sample_at 4)) as Hrun.
  { eapply (wr_step _ key_order _ (ORegister (bs "ctkd") 12) (sample_at 3)); [by_computation|intros []|vm_compute; reflexivity|reflexivity|].
    eapply (wr_step _ key_order _ (ONext sample_lease 13) (sample_at 4)); [by_computation|intros []|vm_compute; reflexivity|reflexivity|]. constructor. }
  split; [exact Hrun|].
  destruct (records (sample_at 2) !! bs "d-2") as [r|] eqn:E; [|vm_compute in E; discriminate].
  apply (waiting_bounded (RateLimiter_new DEFAULT_RATE) default_limits default_retention 7 sample_config (sample_at 2) (sample_at 4) (bs "d-2") r).
  - at_sample.
  - exact E.
  - vm_compute in E. injection E as <-. reflexivity.
  - exact Hrun.
  - by_computation.
Defined.

Lemma maintenance_exact_witness : exists b' o, gc (sample_at 6) 300010 = Some (b', o) /\
  forall t, next_maintenance_at_ms b' = Some t -> (300010 < t)%Z.
Proof.
  destruct (maintenance_exact (RateLimiter_new DEFAULT_RATE) default_limits default_retention 7 sample_config (sample_at 6) 300010) as (b' & o & Hgc & Hn & _).
  - at_sample.
  - by_computation.
  - unfold U64_MAX. lia.
  - exists b', o. split; [exact Hgc|exact Hn].
Defined.

Lemma answer_delivered_witness : exists b', resolve (sample_at 5) sample_lease (bs "d-1") 1 VMessage 15 = Some (b', Ok tt) /\
  broker_result b' (bs "mail") (bs "secret") (bs "d-1") = Some (Ok (mkResult (bs "d-1") Resolved (Some VMessage))).
Proof.
  destruct (records (sample_at 5) !! bs "d-1") as [r|] eqn:E; [|vm_compute in E; discriminate]. vm_compute in E. injection E as <-.
  destruct (answer_delivered (RateLimiter_new DEFAULT_RATE) default_limits default_retention 7 sample_config (sample_at 5) sample_lease (bs "d-1") 1 VMessage 15 _ ltac:(at_sample) ltac:(by vm_compute) ltac:(by_computation) ltac:(vm_compute; reflexivity))
    as (b' & Hb & Hres).
  - split; [vm_compute; reflexivity|]. split; vm_compute; reflexivity.
  - vm_compute. reflexivity.
  - exists b'. split; [exact Hb|]. rewrite (Hres (bs "mail") (bs "secret")). vm_compute. reflexivity.
Defined.
