(* ===== verification/DialogLog.v ===== *)
(** * The dialog broker's transition log ([cosmix-interaction-broker/src/dialog.rs])

    A consumer that drains the log and applies the transitions to the states it
    holds has the broker's states, unless the batch says that it overflowed. *)

From S2P Require Import Prelude Utf8 Str BTree DialogSchema RateLimit Dialog.

(** What a consumer sees of the broker. *)
Definition states (b : DialogBroker) : gmap bytes DialogStateV1 := state <$> records b.

(** The consumer: each transition must start from the state it holds. *)
Fixpoint replay (m : gmap bytes DialogStateV1) (log : list DialogTransition) : option (gmap bytes DialogStateV1) :=
  match log with
  | [] => Some m
  | t :: log =>
    if decide (m !! tr_handle t = tr_from t)
    then replay (match tr_to t with Some s => <[tr_handle t := s]> m | None => delete (tr_handle t) m end) log
    else None
  end.

Lemma replay_app m log1 log2 : replay m (log1 ++ log2) = m' ← replay m log1; replay m' log2.
Proof. revert m. induction log1 as [|t log1 IH]; intros m; [done|]. cbn [replay app]. case_decide; [apply IH|done]. Qed.

Definition mirror (base : gmap bytes DialogStateV1) (b : DialogBroker) : Prop :=
  transitions_overflowed b = false -> replay base (pending_transitions b) = Some (states b).
(** Whatever the log mirrored before, it mirrors after. *)
Definition logs (b b' : DialogBroker) : Prop := forall base, mirror base b -> mirror base b'.
#[export] Instance logs_preorder : PreOrder logs.
Proof. split; [by intros b base|]. intros b1 b2 b3 H1 H2 base Hb. by apply H2, H1. Qed.

(** Nothing but the states and the log matters. *)
Lemma logs_same b b' : states b' = states b -> pending_transitions b' = pending_transitions b ->
  transitions_overflowed b' = transitions_overflowed b -> logs b b'.
Proof. unfold logs, mirror. by intros -> -> ->. Qed.

(** A change of one state, and its entry in the log. *)
Lemma logs_record b b1 h from to c :
  pending_transitions b1 = pending_transitions b -> transitions_overflowed b1 = transitions_overflowed b ->
  states b !! h = from -> states b1 = match to with Some s => <[h := s]> (states b) | None => delete h (states b) end ->
  logs b (record_transition b1 h from to c).
Proof.
  intros EP EO Hf HS base Hm. unfold record_transition. destruct (_ <? _)%Z; unfold mirror; cbn; [|done]. rewrite EO, EP. intros Ho.
  rewrite replay_app, (Hm Ho). cbn. by rewrite Hf, decide_True, <- HS by done.
Qed.

Lemma states_insert b h r : states (with_records b (<[h := r]> (records b))) = <[h := state r]> (states b).
Proof. unfold states. cbn. apply fmap_insert. Qed.
Lemma states_delete b h : states (with_records b (delete h (records b))) = delete h (states b).
Proof. unfold states. cbn. apply fmap_delete. Qed.
Lemma states_lookup b h r : records b !! h = Some r -> states b !! h = Some (state r).
Proof. unfold states. rewrite lookup_fmap. by intros ->. Qed.
Lemma logs_keep b h r r' : records b !! h = Some r -> state r' = state r -> logs b (with_records b (<[h := r']> (records b))).
Proof. intros Hr E. apply logs_same; [|done|done]. rewrite states_insert, E. by apply insert_id, states_lookup. Qed.

Lemma for_each_ind {A S} (R : S -> S -> Prop) `{!PreOrder R} (f : S -> A -> option S) (l : list A) :
  (forall s x s', f s x = Some s' -> R s s') -> forall s s', for_each f s l = Some s' -> R s s'.
Proof.
  intros Hf. induction l as [|x l IH]; intros s s'; cbn [for_each]; [intros [= ->]; reflexivity|].
  intros (s1 & H1 & H2)%bind_Some. etrans; [by eapply Hf|by eapply IH].
Qed.

(** ** The helpers *)

Lemma trim_logs order : forall b, logs b (trim_loop order b).
Proof.
  induction order as [|h order IH]; intros b; cbn [trim_loop]; [by apply logs_same|]. destruct (_ <? _)%Z; [|by apply logs_same].
  etrans; [|apply IH]. destruct (records b !! h) as [r|] eqn:Hr; [|reflexivity].
  etrans; [|by apply logs_same]. apply logs_record; [done|done|by apply states_lookup|apply states_delete].
Qed.

Lemma remove_logs b h : states (remove_from_queue b h) = states b /\ pending_transitions (remove_from_queue b h) = pending_transitions b /\
  transitions_overflowed (remove_from_queue b h) = transitions_overflowed b.
Proof. unfold remove_from_queue. destruct (records b !! h) as [r|]; [|done]. destruct (queued_by_origin b !! _); [|done]. by destruct (filter _ _). Qed.
Lemma enqueue_logs b o h : states (enqueue b o h) = states b /\ pending_transitions (enqueue b o h) = pending_transitions b /\
  transitions_overflowed (enqueue b o h) = transitions_overflowed b.
Proof. unfold enqueue. by destruct (default [] _). Qed.

Lemma terminal_logs b h s v now c b' : transition_terminal b h s v now c = Some b' -> logs b b'.
Proof.
  unfold transition_terminal. destruct (is_none_or _ _); [by intros [= ->]|]. destruct (remove_logs b h) as (E1 & E2 & E3). set (b0 := remove_from_queue b h) in *.
  intros (r & Hr & [= <-])%bind_Some. etrans; [|apply trim_logs]. apply logs_record.
  - by case_bool_decide.
  - by case_bool_decide.
  - rewrite <- E1. by apply states_lookup.
  - rewrite <- E1. transitivity (states (with_records b0 (<[h := terminal_record r s v now]> (records b0)))); [by case_bool_decide|].
    by rewrite states_insert.
Qed.

Lemma expire_due_logs `{HashIter} b now b' : expire_due b now = Some b' -> logs b b'.
Proof. apply (for_each_ind logs). intros s x s'. apply terminal_logs. Qed.
Lemma expire_handle_logs b h now b' e : expire_handle_if_due b h now = Some (b', e) -> logs b b'.
Proof. unfold expire_handle_if_due. destruct (is_some_and _ _); [|by intros [= -> _]]. intros (b1 & H1 & [= -> _])%bind_Some. by eapply terminal_logs. Qed.

Lemma evict_logs b h : logs b (evict_one b h).
Proof.
  unfold evict_one. destruct (records b !! h) as [r|] eqn:Hr; [|reflexivity]. apply logs_record; [done|done|by apply states_lookup|apply states_delete].
Qed.
Lemma maintain_logs `{HashIter} b now b' : maintain b now = Some b' -> logs b b'.
Proof.
  unfold maintain. intros (b1 & H1%expire_due_logs & [= <-])%bind_Some. etrans; [exact H1|]. unfold evict_terminal_ttl.
  match goal with |- context [foldl evict_one b1 ?E] => generalize E end. intros E.
  transitivity (foldl evict_one b1 E); [|by apply logs_same]. clear. revert b1. induction E as [|h E IH]; intros b1; [reflexivity|]. cbn [foldl]. etrans; [apply evict_logs|apply IH].
Qed.

Lemma take_back_logs st x st' : take_back st x = Some st' -> logs (fst (fst st)) (fst (fst st')).
Proof.
  destruct st as [[b el] qu], x as [c h]. unfold take_back. intros (r & Hr & Hst)%bind_Some.
  destruct (ever_presented _); [injection Hst as <-; by apply (logs_keep _ _ r)|].
  destruct (_ <=? _)%Z; injection Hst as <-; by apply (logs_keep _ _ r).
Qed.

Lemma accept_logs now c st h st' : accept_one now c st h = Some st' -> logs (fst (fst st)) (fst (fst st')).
Proof.
  destruct st as [[b acc] per]. unfold accept_one. intros (r & Hr & Hst)%bind_Some. destruct (_ && _).
  - injection Hst as <-. cbn [fst]. set (b0 := with_records b _). destruct (enqueue_logs b0 (owner_service r) h) as (E1 & E2 & E3).
    apply logs_record; [by rewrite E2|by rewrite E3|by apply states_lookup|]. rewrite E1. unfold b0. by rewrite states_insert.
  - apply bind_Some in Hst as (b1 & H1 & [= <-]). by eapply terminal_logs.
Qed.

Lemma fail_all_logs `{HashIter} fuel now c : forall b b', fail_all_queued fuel b now c = Some b' -> logs b b'.
Proof.
  induction fuel as [|fuel IH]; intros b b'; cbn [fail_all_queued]; destruct (oldest_queued b None); try done; try by intros [= ->].
  intros (b1 & H1%terminal_logs & H2%IH)%bind_Some. by etrans.
Qed.
Lemma fail_origin_logs `{HashIter} fuel o n now c : forall b b', fail_origin_overflow fuel b o n now c = Some b' -> logs b b'.
Proof.
  induction fuel as [|fuel IH]; intros b b'; cbn [fail_origin_overflow]; (destruct (_ <? _)%Z; [|by intros [= ->]]); [done|].
  intros (h & _ & (b1 & H1%terminal_logs & H2%IH)%bind_Some)%bind_Some. by etrans.
Qed.
Lemma fail_total_logs `{HashIter} fuel n now c : forall b b', fail_total_overflow fuel b n now c = Some b' -> logs b b'.
Proof.
  induction fuel as [|fuel IH]; intros b b'; cbn [fail_total_overflow]; (destruct (_ <? _)%Z; [|by intros [= ->]]); [done|].
  intros (h & _ & (b1 & H1%terminal_logs & H2%IH)%bind_Some)%bind_Some. by etrans.
Qed.
Lemma make_room_logs `{HashIter} b hs now c b' : make_queue_room b hs now c = Some b' -> logs b b'.
Proof.
  unfold make_queue_room. intros (per & _ & Hb)%bind_Some. destruct (_ || _); [by eapply fail_all_logs|].
  apply bind_Some in Hb as (b1 & H1 & H2%fail_total_logs). etrans; [|exact H2]. revert H1. apply (for_each_ind logs). intros s x s'. apply fail_origin_logs.
Qed.

(** A loop over a state that carries a broker. *)
Definition first_logs {A B} (s s' : DialogBroker * A * B) : Prop := logs (fst (fst s)) (fst (fst s')).
#[export] Instance first_logs_preorder {A B} : PreOrder (@first_logs A B).
Proof. split; [intros s; unfold first_logs; reflexivity|]. intros s1 s2 s3. unfold first_logs. apply transitivity. Qed.

Lemma requeue_logs `{HashIter} b hs now c b' : requeue_protected b hs now c = Some b' -> logs b b'.
Proof.
  unfold requeue_protected. intros ([[b1 el] qu] & H1 & (b2 & H2 & (b3 & H3%make_room_logs & (st & H4 & [= <-])%bind_Some)%bind_Some)%bind_Some)%bind_Some.
  apply (for_each_ind first_logs) in H1; [|intros; by eapply take_back_logs]. apply (for_each_ind logs) in H2; [|intros; by eapply terminal_logs].
  apply (for_each_ind first_logs) in H4; [|intros; by eapply accept_logs].
  etrans; [exact H1|]. etrans; [exact H2|]. etrans; [exact H3|exact H4].
Qed.

Lemma dequeue_logs fuel : forall b b' o, dequeue_loop fuel b = Some (b', o) ->
  records b' = records b /\ pending_transitions b' = pending_transitions b /\ transitions_overflowed b' = transitions_overflowed b /\
  match o with Some h => exists r, records b !! h = Some r /\ state r = Queued | None => True end.
Proof.
  induction fuel as [|fuel IH]; intros b b' o; cbn [dequeue_loop]; destruct (origin_turns b) as [|og turns]; try done; try by intros [= <- <-].
  intros (q & Hq & Hd)%bind_Some. set (b1 := match tail q with [] => _ | _ => _ end) in Hd.
  assert (records b1 = records b /\ pending_transitions b1 = pending_transitions b /\ transitions_overflowed b1 = transitions_overflowed b) as (E1 & E2 & E3)
    by (unfold b1; by destruct (tail q)).
  rewrite <- E1, <- E2, <- E3. destruct (head q) as [h|]; [|by apply IH]. destruct (is_some_and _ _) eqn:E; [|by apply IH].
  injection Hd as <- <-. split; [done|]. split; [done|]. split; [done|]. destruct (records b1 !! h) as [r|] eqn:Hr; [|done]. exists r. split; [done|].
  by apply bool_decide_eq_true in E.
Qed.

(** ** The operations *)

Lemma or_return_logs {A B} b b0 (m : result A DialogBrokerError) (k : A -> reply B) b' v :
  logs b b0 -> (forall x, m = Ok x -> k x = Some (b', v) -> logs b b') -> or_return b0 m k = Some (b', v) -> logs b b'.
Proof. intros H0 Hk. destruct m as [x|e]; cbn [or_return]; [by apply Hk|]. by intros [= <- _]. Qed.

Lemma call_logs {A} b0 h now (k : DialogBroker -> DialogRecord -> reply A) b' v :
  (forall b r, records b !! h = Some r -> k b r = Some (b', v) -> logs b b') ->
  (e ← expire_handle_if_due b0 h now; let (b, expired) := (e : DialogBroker * bool) in
   if expired then Some (b, Err EExpired) else r ← records b !! h; k b r) = Some (b', v) -> logs b0 b'.
Proof.
  intros Hk ([b1 e] & H1%expire_handle_logs & Hb)%bind_Some. etrans; [exact H1|]. destruct e; [by injection Hb as -> _|].
  apply bind_Some in Hb as (r & Hr & Hb). by eapply Hk.
Qed.

Lemma presenter_call_logs {A} b lease h token now (k : DialogBroker -> DialogRecord -> reply A) b' v :
  (forall b0 r, records b0 !! h = Some r -> k b0 r = Some (b', v) -> logs b0 b') ->
  presenter_call b lease h token now k = Some (b', v) -> logs b b'.
Proof.
  intros Hk. apply or_return_logs; [by apply logs_same|]. intros _ _. apply or_return_logs; [by apply logs_same|]. intros _ _ Hb.
  transitivity (fst (drain_pending_report b)); [by apply logs_same|]. revert Hb. by apply call_logs.
Qed.
Lemma owner_call_logs {A} b svc token h now (k : DialogBroker -> DialogRecord -> reply A) b' v :
  (forall b0 r, records b0 !! h = Some r -> k b0 r = Some (b', v) -> logs b0 b') ->
  owner_call b svc token h now k = Some (b', v) -> logs b b'.
Proof.
  intros Hk. apply or_return_logs; [by apply logs_same|]. intros _ _ Hb.
  transitivity (fst (drain_pending_report b)); [by apply logs_same|]. revert Hb. by apply call_logs.
Qed.

(** One record's state set, with its entry. *)
Lemma logs_set b h r r' c : records b !! h = Some r ->
  logs b (record_transition (with_records b (<[h := r']> (records b))) h (Some (state r)) (Some (state r')) c).
Proof. intros Hr. apply logs_record; [done|done|by apply states_lookup|apply states_insert]. Qed.

Lemma open_logs `{HashIter} b svc token req now fresh b' v : open b svc token req now fresh = Some (b', v) -> logs b b'.
Proof.
  unfold open. set (b0 := fst (drain_pending_report b)). apply or_return_logs; [by apply logs_same|]. intros _ _ (b1 & H1%maintain_logs & Hb)%bind_Some.
  transitivity b0; [by apply logs_same|]. etrans; [exact H1|]. case_bool_decide as Ed; [by injection Hb as -> _|].
  destruct (_ <=? _)%Z; [by injection Hb as -> _|]. destruct (_ <=? _)%Z; [by injection Hb as -> _|].
  destruct (try_consume _ _ _) as [lm granted]. destruct granted; cbn [negb] in Hb; injection Hb as <- _; [|by apply logs_same].
  match goal with |- logs _ (record_transition (enqueue ?x _ _) _ _ _ _) => set (b2 := x) end. destruct (enqueue_logs b2 svc fresh) as (E1 & E2 & E3).
  apply logs_record; [by rewrite E2|by rewrite E3| |].
  - unfold states. rewrite lookup_fmap. apply eq_None_not_Some in Ed. by rewrite Ed.
  - rewrite E1. apply (states_insert (with_rate_limiter b1 lm)).
Qed.

Lemma next_logs `{HashIter} b lease now b' v : next_presentation b lease now = Some (b', v) -> logs b b'.
Proof.
  unfold next_presentation. set (b0 := fst (drain_pending_report b)). apply or_return_logs; [by apply logs_same|]. intros _ _ (b1 & H1%maintain_logs & Hb)%bind_Some.
  transitivity b0; [by apply logs_same|]. etrans; [exact H1|]. destruct (_ <=? _)%Z; [by injection Hb as -> _|].
  apply bind_Some in Hb as ([b2 o] & H2%dequeue_logs & Hb). destruct H2 as (E1 & E2 & E3 & Ho). destruct o as [h|]; [|injection Hb as <- _; apply logs_same; unfold states; by rewrite ?E1].
  destruct Ho as (r0 & Hr0 & S). unfold mint_attempt_token in Hb. destruct (checked_succ64 _); cbn [or_return] in Hb; [|injection Hb as <- _; apply logs_same; unfold states; by rewrite ?E1].
  cbn [records with_next_attempt_token] in Hb. rewrite E1, Hr0 in Hb. cbn [mbind option_bind] in Hb. injection Hb as <- _.
  apply logs_record; [done|done|by rewrite (states_lookup _ _ _ Hr0), S|]. unfold states. cbn. by rewrite fmap_insert.
Qed.

Lemma register_logs `{HashIter} b svc now b' v : register_presenter b svc now = Some (b', v) -> logs b b'.
Proof.
  unfold register_presenter. intros (b1 & H1%maintain_logs & Hb)%bind_Some. transitivity b1; [etrans; [|exact H1]; by apply logs_same|].
  unfold mint_presenter_generation in Hb. destruct (checked_succ64 _); cbn [or_return] in Hb; [|by injection Hb as -> _].
  set (b2 := with_next_presenter_generation b1 _) in *. apply bind_Some in Hb as (b3 & H3 & [= <- _]). transitivity b2; [by apply logs_same|].
  transitivity b3; [|by apply logs_same]. destruct (presenter b2); [by eapply requeue_logs|by injection H3 as ->].
Qed.
Lemma release_logs `{HashIter} b lease now b' v : release_presenter b lease now = Some (b', v) -> logs b b'.
Proof.
  apply or_return_logs; [by apply logs_same|]. intros _ _ (b1 & H1%maintain_logs & (b2 & H2%requeue_logs & [= <- _])%bind_Some)%bind_Some.
  transitivity b2; [|by apply logs_same]. etrans; [|exact H2]. etrans; [|exact H1]. by apply logs_same.
Qed.
Lemma mark_logs b lease h token now b' v : mark_presented b lease h token now = Some (b', v) -> logs b b'.
Proof.
  apply presenter_call_logs. intros b0 r Hr. case_bool_decide as E; cbn [negb]; intros [= <- _]; [|reflexivity]. rewrite <- E. by apply logs_set.
Qed.
Lemma resolve_logs `{HashIter} b lease h token x now b' v : resolve b lease h token x now = Some (b', v) -> logs b b'.
Proof.
  apply presenter_call_logs. intros b0 r Hr Hb. transitivity (with_records b0 (<[h := with_attempt r None]> (records b0))); [by apply (logs_keep _ _ r)|].
  destruct (rejection lease r x); apply bind_Some in Hb as (b1 & H1 & [= <- _]); [by eapply requeue_logs|by eapply terminal_logs].
Qed.
Lemma fail_logs b lease h token now b' v : fail_presentation b lease h token now = Some (b', v) -> logs b b'.
Proof.
  apply presenter_call_logs. intros b0 r Hr Hb. transitivity (with_records b0 (<[h := with_attempt r None]> (records b0))); [by apply (logs_keep _ _ r)|].
  destruct (is_terminal (state r)); [by injection Hb as -> _|]. apply bind_Some in Hb as (b1 & H1 & [= <- _]). by eapply terminal_logs.
Qed.
Lemma cancel_logs b svc token h now b' v : cancel b svc token h now = Some (b', v) -> logs b b'.
Proof.
  apply owner_call_logs. intros b0 r Hr Hb. destruct (is_terminal (state r)); [by injection Hb as -> _|].
  apply bind_Some in Hb as (b1 & H1 & [= <- _]). by eapply terminal_logs.
Qed.
Lemma progress_cancel_logs b lease h token now b' v : request_progress_cancel b lease h token now = Some (b', v) -> logs b b'.
Proof.
  apply presenter_call_logs. intros b0 r Hr Hb. destruct (dialog (request r)); try (by injection Hb as -> _). destruct (negb _); [by injection Hb as -> _|].
  case_bool_decide; [by injection Hb as -> _|]. case_bool_decide as E; cbn [negb] in Hb; [|by injection Hb as -> _]. injection Hb as <- _.
  rewrite <- E. by apply (logs_set b0 h r).
Qed.
Lemma update_logs b svc token h patch now b' v : update_progress b svc token h patch now = Some (b', v) -> logs b b'.
Proof.
  unfold update_progress. apply owner_call_logs. intros b0 r Hr. apply or_return_logs; [reflexivity|]. intros _ _ Hb. destruct (is_terminal (state r)); [by injection Hb as -> _|].
  destruct (progress r); [|by injection Hb as -> _]. cbv zeta in Hb. destruct (negb _ && negb _); [by injection Hb as -> _|]. injection Hb as <- _. match goal with |- logs _ (record_transition (with_records _ (<[_ := ?x]> _)) _ _ _ _) => exact (logs_set b0 h r x _ Hr) end.
Qed.
Lemma complete_logs b svc token h c now b' v : complete_progress b svc token h c now = Some (b', v) -> logs b b'.
Proof.
  unfold complete_progress. apply owner_call_logs. intros b0 r Hr. apply or_return_logs; [reflexivity|]. intros _ _ Hb. destruct (is_terminal (state r)); [by injection Hb as -> _|].
  destruct (progress r); [|by injection Hb as -> _]. apply bind_Some in Hb as (b1 & H1 & [= <- _]). by eapply terminal_logs.
Qed.
Lemma withdraw_logs `{HashIter} b svc now b' v : withdraw_owner b svc now = Some (b', v) -> logs b b'.
Proof.
  intros (b1 & H1%maintain_logs & (b2 & H2 & [= <- _])%bind_Some)%bind_Some. etrans; [etrans; [|exact H1]; by apply logs_same|].
  revert H2. apply (for_each_ind logs). intros s x s'. apply terminal_logs.
Qed.

Lemma apply_logs `{HashIter} b op b' : apply_op b op = Some b' -> op <> ODrain -> logs b b'.
Proof.
  destruct op; cbn [apply_op]; try (intros ([b1 res] & Hb & ->)%fmap_Some _; cbn [fst]; revert Hb).
  - apply open_logs.
  - apply register_logs.
  - apply release_logs.
  - apply next_logs.
  - apply mark_logs.
  - apply resolve_logs.
  - apply fail_logs.
  - apply cancel_logs.
  - apply progress_cancel_logs.
  - apply update_logs.
  - apply complete_logs.
  - apply withdraw_logs.
  - intros (b2 & H2%expire_due_logs & [= <- _])%bind_Some. transitivity b2; [etrans; [|exact H2]; by apply logs_same|by apply logs_same].
  - intros (b2 & H2%maintain_logs & [= <- _])%bind_Some. etrans; [exact H2|by apply logs_same].
  - done.
Qed.

(** Calls between two drains. *)
Inductive undrained_step : DialogBroker -> DialogBroker -> Prop :=
| undrained_intro (HI : HashIter) b op b' : apply_op b op = Some b' -> op <> ODrain -> undrained_step b b'.

(** C27: a consumer that drains the transition log follows the broker: between two
    drains, through any calls, the batch it gets applies to the states it held, each
    entry from the state before it, and gives the broker's states; or the
    batch says that it overflowed and the consumer has to reseed. *)
Theorem log_mirrors b b' :
  rtc undrained_step (fst (drain_transitions b)) b' ->
  let batch := snd (drain_transitions b') in
  overflowed batch = false -> replay (states b) (transitions batch) = Some (states b').
Proof.
  intros Hrun. cbn [drain_transitions snd overflowed transitions]. assert (mirror (states b) (fst (drain_transitions b))) as H0 by done.
  enough (mirror (states b) b') as Hm by exact Hm. revert H0. generalize (states b). induction Hrun as [x|x y z [HI b1 op b2 Hb Hop] _ IH]; intros base; [done|].
  intros Hm. apply IH. by eapply apply_logs.
Qed.

Lemma log_mirrors_witness : replay ∅ (pending_transitions (sample_at 6)) = Some (states (sample_at 6)) /\
  length (pending_transitions (sample_at 6)) = 5.
Proof.
  split; [|vm_compute; reflexivity].
  assert (forall n b', run_ops (H := key_order) sample_start (take n sample_ops) = Some b' -> rtc undrained_step sample_start b') as Hrun.
  { intros n. assert (Forall (fun op => op <> ODrain) (take n sample_ops)) as Hops by (apply Forall_take; repeat constructor; discriminate).
    revert Hops. generalize (take n sample_ops) sample_start. intros ops. induction ops as [|op ops IH]; intros b Hops b'; cbn [run_ops]; [intros [= ->]; reflexivity|].
    apply Forall_cons in Hops as [Hop Hops]. intros (b1 & H1 & H2)%bind_Some. eapply rtc_l; [by econstructor|by apply IH]. }
  apply (log_mirrors sample_start (sample_at 6)).
  - apply (Hrun 6). vm_compute. reflexivity.
  - vm_compute. reflexivity.
Defined.
