(* ===== verification/Notify.v ===== *)
(** * Notifications ([cosmix-interaction-schema/src/lib.rs], [cosmix-interaction-broker/src/lib.rs], [origin.rs], [dedupe.rs])

    What a notification request must be, the stamping of its origin, and the broker
    that decides whether it is delivered, throttled or refused, and which earlier
    notification it replaces. *)

From S2P Require Import Prelude Utf8 Str BTree RateLimit.

(** ** Requests *)

Definition MAX_ACTIONS : Z := 3.
Definition MAX_SUMMARY_BYTES : Z := 512.
Definition MAX_BODY_BYTES : Z := 8 * 1024.
Definition MAX_ACTION_LABEL_BYTES : Z := 128.
Definition MAX_KEY_BYTES : Z := 128.
Definition MAX_CATEGORY_BYTES : Z := 128.
Definition MAX_REQUEST_BYTES : Z := 16 * 1024.

Inductive Urgency := Low | Normal | Critical.
#[export] Instance urgency_eq_dec : EqDecision Urgency.
Proof. solve_decision. Defined.
Inductive IconRef := Lucide (key : bytes) | Emoji (key : bytes).
Record Dispatch := mkDispatch { d_service : bytes; d_verb : bytes }.
Record NotifyAction := mkNotifyAction { na_key : bytes; na_label : bytes; on_invoke : option Dispatch }.
Record NotifyRequest := mkNotify {
  nq_summary : bytes; nq_body : option bytes; nq_urgency : Urgency; nq_category : option bytes; nq_icon : option IconRef;
  nq_dedupe_key : option bytes; nq_timeout_ms : option Z; nq_actions : list NotifyAction }.
Inductive NotifyState := NQueued | NShown | NDismissed | NExpired | NActionInvoked | NFailed.
Record NotifyRecord := mkNotifyRecord {
  nr_handle : bytes; nr_origin : bytes; nr_state : NotifyState; nr_created_at_ms : Z; nr_summary : bytes;
  nr_effective_urgency : Urgency; nr_urgency_override : option Urgency; nr_dedupe_key : option bytes }.

Inductive ValidationError :=
| EmptySummary
| TooManyActions (got : nat) (max : Z)
| EmptyActionKey (index : nat)
| DuplicateActionKey (key : bytes)
| EmptyDispatchTarget (index : nat)
| InvalidDispatchIdentifier (index : nat) (field value : bytes)
| FieldTooLong (field : bytes) (index : option nat) (got : nat) (max : Z)
| NotifyTooLarge (got : nat) (max : Z).

Definition notify_validate_len (field : bytes) (index : option nat) (v : bytes) (max : Z) : result unit ValidationError :=
  if exceeds (length v) max then Err (FieldTooLong field index (length v) max) else Ok tt.
Definition icon_key (i : IconRef) : bytes := match i with Lucide k | Emoji k => k end.
Definition on_some {A E} (o : option A) (f : A -> result unit E) : result unit E := match o with Some x => f x | None => Ok tt end.

(** [^[a-z][a-z0-9-]{1,30}$] *)
Definition is_bus_service_name (v : bytes) : bool :=
  (2 <=? length v) && (length v <=? 31) &&
  match v with
  | b0 :: rest => is_ascii_lowercase b0 && forallb (fun b => is_ascii_lowercase b || is_ascii_digit b || Byte.eqb b x2d) rest
  | [] => false
  end.
Definition is_bus_command_name (v : bytes) : bool :=
  match split_once_str [x2e] v with
  | None => false
  | Some (service, command) =>
    if existsb (Byte.eqb x2e) command || negb (is_bus_service_name service) then false
    else forallb (fun segment =>
           match segment with
           | b0 :: rest => is_ascii_lowercase b0 && forallb (fun b => is_ascii_lowercase b || is_ascii_digit b) rest
           | [] => false
           end) (split_char x2d command)
  end.

Definition blank (s : bytes) : bool := bool_decide (trim s = []).

(** One turn of the loop over the actions, with the keys seen. *)
Definition check_notify_action (seen : list bytes) (ia : nat * NotifyAction) : result (list bytes) ValidationError :=
  let (index, a) := ia in
  if blank (na_key a) then Err (EmptyActionKey index)
  else
  let? _ := notify_validate_len (bs "key") (Some index) (na_key a) MAX_KEY_BYTES in
  let? _ := notify_validate_len (bs "label") (Some index) (na_label a) MAX_ACTION_LABEL_BYTES in
  if bool_decide (na_key a ∈ seen) then Err (DuplicateActionKey (na_key a))
  else
  let? _ := on_some (on_invoke a) (fun d =>
    if blank (d_service d) || blank (d_verb d) then Err (EmptyDispatchTarget index)
    else if negb (is_bus_service_name (d_service d)) then Err (InvalidDispatchIdentifier index (bs "service") (d_service d))
    else if negb (is_bus_command_name (d_verb d)) then Err (InvalidDispatchIdentifier index (bs "verb") (d_verb d))
    else Ok tt) in
  Ok (seen ++ [na_key a]).

Definition opt_bytes (o : option bytes) : nat := match o with Some s => length s | None => 0 end.
(** The additions saturate at [usize::MAX], which no request in memory reaches. *)
Definition notify_retained_bytes (r : NotifyRequest) : nat :=
  length (nq_summary r) + opt_bytes (nq_body r) + opt_bytes (nq_category r) + opt_bytes (nq_dedupe_key r) +
  opt_bytes (icon_key <$> nq_icon r) +
  list_sum (map (fun a => length (na_key a) + length (na_label a) +
    match on_invoke a with Some d => length (d_service d) + length (d_verb d) | None => 0 end) (nq_actions r)).

Definition notify_validate (r : NotifyRequest) : result unit ValidationError :=
  if blank (nq_summary r) then Err EmptySummary
  else
  let? _ := notify_validate_len (bs "summary") None (nq_summary r) MAX_SUMMARY_BYTES in
  let? _ := on_some (nq_body r) (fun b => notify_validate_len (bs "body") None b MAX_BODY_BYTES) in
  let? _ := on_some (nq_category r) (fun c => notify_validate_len (bs "category") None c MAX_CATEGORY_BYTES) in
  let? _ := on_some (nq_icon r) (fun i => notify_validate_len (bs "icon key") None (icon_key i) MAX_KEY_BYTES) in
  let? _ := on_some (nq_dedupe_key r) (fun k => notify_validate_len (bs "dedupe_key") None k MAX_KEY_BYTES) in
  if exceeds (length (nq_actions r)) MAX_ACTIONS then Err (TooManyActions (length (nq_actions r)) MAX_ACTIONS)
  else
  let? _ := foldM_res check_notify_action [] (imap pair (nq_actions r)) in
  let got := notify_retained_bytes r in
  if exceeds got MAX_REQUEST_BYTES then Err (NotifyTooLarge got MAX_REQUEST_BYTES) else Ok tt.

(** ** Origins *)

Definition ANONYMOUS : bytes := bs "anonymous".
Definition RESERVED_LABELS : list bytes := [bs "system"; bs "cosmix"; bs "root"].

Definition ascii_lower (b : byte) : byte := if in_range 0x41 0x5a b then byte_of (b2n b + 32) else b.
Definition eq_ignore_ascii_case (a b : bytes) : bool := bool_decide (map ascii_lower a = map ascii_lower b).
Definition is_reserved (label : bytes) : bool := existsb (fun r => eq_ignore_ascii_case r (trim label)) RESERVED_LABELS.

(** The labels an identity may present as. *)
Record OriginPolicy := mkOrigin { allowlist : gmap bytes bytes }.
Definition OriginPolicy_v1 : OriginPolicy := mkOrigin ∅.
Definition grant_reserved (p : OriginPolicy) (identity label : bytes) : OriginPolicy * bool :=
  if negb (is_reserved label) then (p, false) else (mkOrigin (<[identity := label]> (allowlist p)), true).
Definition may_present_as (p : OriginPolicy) (identity label : bytes) : bool :=
  if negb (is_reserved label) then true else bool_decide (allowlist p !! identity = Some label).
Definition resolve_origin (p : OriginPolicy) (from : option bytes) : bytes :=
  match from with
  | Some s =>
    if blank s then ANONYMOUS
    else let from := trim s in
      if is_reserved from && negb (may_present_as p from from) then ANONYMOUS else from
  | None => ANONYMOUS
  end.

(** ** The slots of [dedupe_key]s *)

Definition DedupeTable : Type := gmap (bytes * bytes) bytes.
Definition dedupe_lookup (t : DedupeTable) (origin key : bytes) : option bytes := t !! (origin, key).
Definition dedupe_record (t : DedupeTable) (origin key h : bytes) : DedupeTable := <[(origin, key) := h]> t.
Definition forget_handle (t : DedupeTable) (h : bytes) : DedupeTable := filter (fun kh => snd kh <> h) t.

(** ** The broker *)

Record Caller := mkCaller { c_from : option bytes; c_is_remote : bool }.
Inductive RejectReason := NInvalid (e : ValidationError) | UnregisteredDispatch (index : nat) (service : bytes).
Inductive NotifyDecision :=
| Deliver (record : NotifyRecord) (replaces : option bytes)
| Throttled (origin : bytes)
| Rejected (reason : RejectReason).

Definition check_target (registered : bytes -> bool) (_ : unit) (ia : nat * NotifyAction) : result unit RejectReason :=
  on_some (on_invoke (snd ia)) (fun d =>
    if registered (d_service d) then Ok tt else Err (UnregisteredDispatch (fst ia) (d_service d))).
Definition validate_dispatch_targets (r : NotifyRequest) (registered : bytes -> bool) : result unit RejectReason :=
  foldM_res (check_target registered) tt (imap pair (nq_actions r)).

Record NotifyBroker := mkNotifyBroker { nb_origin : OriginPolicy; nb_rate : RateLimiter; nb_dedupe : DedupeTable }.
Definition NotifyBroker_new (p : OriginPolicy) (c : RateConfig) : NotifyBroker := mkNotifyBroker p (RateLimiter_new c) ∅.
Definition NotifyBroker_v1 : NotifyBroker := NotifyBroker_new OriginPolicy_v1 DEFAULT_RATE.

Definition accept_queued (b : NotifyBroker) (r : NotifyRequest) (c : Caller) (now_ms : Z) (fresh : bytes) : NotifyBroker * NotifyDecision :=
  match notify_validate r with
  | Err e => (b, Rejected (NInvalid e))
  | Ok _ =>
    let origin := resolve_origin (nb_origin b) (c_from c) in
    let existing := k ← nq_dedupe_key r; dedupe_lookup (nb_dedupe b) origin k in
    let (rate, granted) := RateLimit.try_consume (nb_rate b) origin now_ms in
    if negb granted then (mkNotifyBroker (nb_origin b) rate (nb_dedupe b), Throttled origin)
    else
      let override := if c_is_remote c && bool_decide (nq_urgency r = Critical) then Some Normal else None in
      let h := default fresh existing in
      let dedupe := match nq_dedupe_key r with Some k => dedupe_record (nb_dedupe b) origin k h | None => nb_dedupe b end in
      (mkNotifyBroker (nb_origin b) rate dedupe,
       Deliver (mkNotifyRecord h origin NQueued now_ms (nq_summary r) (default (nq_urgency r) override) override (nq_dedupe_key r)) existing)
  end.

Definition notify_accept (b : NotifyBroker) (r : NotifyRequest) (c : Caller) (now_ms : Z) (fresh : bytes) (registered : bytes -> bool) :
    NotifyBroker * NotifyDecision :=
  match notify_validate r with
  | Err e => (b, Rejected (NInvalid e))
  | Ok _ =>
    match validate_dispatch_targets r registered with
    | Err reason => (b, Rejected reason)
    | Ok _ => accept_queued b r c now_ms fresh
    end
  end.

Definition notify_try_consume (b : NotifyBroker) (origin : bytes) (now_ms : Z) : NotifyBroker * bool :=
  let (rate, granted) := RateLimit.try_consume (nb_rate b) origin now_ms in (mkNotifyBroker (nb_origin b) rate (nb_dedupe b), granted).
Definition retire (b : NotifyBroker) (h : bytes) : NotifyBroker := mkNotifyBroker (nb_origin b) (nb_rate b) (forget_handle (nb_dedupe b) h).

(** ** A broker's history *)

Inductive NotifyEvent :=
| EvAccept (r : NotifyRequest) (c : Caller) (now : Z) (fresh : bytes) (registered : bytes -> bool)
| EvQueued (r : NotifyRequest) (c : Caller) (now : Z) (fresh : bytes)
| EvConsume (origin : bytes) (now : Z)
| EvRetire (h : bytes).

Definition notify_step (b : NotifyBroker) (ev : NotifyEvent) : NotifyBroker * option NotifyDecision :=
  match ev with
  | EvAccept r c now fresh registered => let (b', d) := notify_accept b r c now fresh registered in (b', Some d)
  | EvQueued r c now fresh => let (b', d) := accept_queued b r c now fresh in (b', Some d)
  | EvConsume origin now => (fst (notify_try_consume b origin now), None)
  | EvRetire h => (retire b h, None)
  end.
(** The broker and, newest first, what was asked and decided. *)
Definition notify_log : Type := list (NotifyEvent * option NotifyDecision).
Definition notify_run (b0 : NotifyBroker) (evs : list NotifyEvent) : NotifyBroker * notify_log :=
  foldl (fun st ev => let '(b, log) := st in let '(b', d) := notify_step b ev in (b', (ev, d) :: log)) (b0, []) evs.

(** The notification that holds the slot of [origin] and [key]: the last one
    delivered for them, unless it was retired since. *)
Fixpoint occupant (log : notify_log) (origin key : bytes) : option bytes :=
  match log with
  | [] => None
  | (EvRetire h, _) :: log =>
    match occupant log origin key with Some h' => if bool_decide (h' = h) then None else Some h' | None => None end
  | (_, Some (Deliver rec _)) :: log =>
    if bool_decide (nr_origin rec = origin /\ nr_dedupe_key rec = Some key) then Some (nr_handle rec) else occupant log origin key
  | _ :: log => occupant log origin key
  end.

(** ** The slots are what the history says *)

Lemma run_snoc b0 evs ev : notify_run b0 (evs ++ [ev]) =
  let '(b, log) := notify_run b0 evs in let '(b', d) := notify_step b ev in (b', (ev, d) :: log).
Proof. unfold notify_run. rewrite foldl_app. by destruct (foldl _ _ evs). Qed.

(** What an accepted request does: the one place where slots are taken. *)
Lemma accept_queued_spec b r c now fresh :
  let (b', d) := accept_queued b r c now fresh in
  nb_origin b' = nb_origin b /\
  match d with
  | Deliver rec replaces =>
    notify_validate r = Ok tt /\ nr_origin rec = resolve_origin (nb_origin b) (c_from c) /\ nr_dedupe_key rec = nq_dedupe_key r /\
    replaces = (k ← nq_dedupe_key r; dedupe_lookup (nb_dedupe b) (nr_origin rec) k) /\ nr_handle rec = default fresh replaces /\
    (c_is_remote c = true -> nr_effective_urgency rec <> Critical) /\
    nb_dedupe b' = match nq_dedupe_key r with Some k => <[(nr_origin rec, k) := nr_handle rec]> (nb_dedupe b) | None => nb_dedupe b end
  | _ => nb_dedupe b' = nb_dedupe b
  end.
Proof.
  unfold accept_queued. destruct (notify_validate r) as [[]|e]; [|done].
  destruct (RateLimit.try_consume _ _ _) as [rate [|]]; cbn [negb]; [|done]. split; [done|].
  cbn [nr_origin nr_dedupe_key nr_handle nr_effective_urgency nb_dedupe]. split; [done|]. split; [done|]. split; [done|]. split; [done|]. split; [done|]. split; [|done].
  intros ->. cbn [andb]. case_bool_decide as E; [done|]. exact E.
Qed.

Lemma notify_accept_spec b r c now fresh reg :
  notify_accept b r c now fresh reg = accept_queued b r c now fresh \/
  exists reason, notify_accept b r c now fresh reg = (b, Rejected reason).
Proof.
  unfold notify_accept. destruct (notify_validate r) as [[]|e] eqn:E; [|right; by eexists].
  destruct (validate_dispatch_targets r reg) as [[]|reason]; [by left|right; by eexists].
Qed.

Lemma forget_lookup (t : DedupeTable) h o k :
  dedupe_lookup (forget_handle t h) o k = match dedupe_lookup t o k with Some h' => if bool_decide (h' = h) then None else Some h' | None => None end.
Proof.
  unfold dedupe_lookup, forget_handle, DedupeTable in *. destruct (t !! (o, k)) as [h'|] eqn:E.
  - case_bool_decide as Eh; [subst; apply map_lookup_filter_None; right; intros x Hx; cbn; congruence|]. by apply map_lookup_filter_Some.
  - apply map_lookup_filter_None. by left.
Qed.

Lemma deliver_slots b b' log ev (r : NotifyRequest) rec replaces :
  (forall o k, dedupe_lookup (nb_dedupe b) o k = occupant log o k) -> (forall h, ev <> EvRetire h) -> nr_dedupe_key rec = nq_dedupe_key r ->
  nb_dedupe b' = match nq_dedupe_key r with Some k => <[(nr_origin rec, k) := nr_handle rec]> (nb_dedupe b) | None => nb_dedupe b end ->
  forall o k, dedupe_lookup (nb_dedupe b') o k = occupant ((ev, Some (Deliver rec replaces)) :: log) o k.
Proof.
  intros IH Hev Ek Ed o k. assert (occupant ((ev, Some (Deliver rec replaces)) :: log) o k =
    if bool_decide (nr_origin rec = o /\ nr_dedupe_key rec = Some k) then Some (nr_handle rec) else occupant log o k) as ->.
  { destruct ev; try done. by destruct (Hev h). }
  rewrite Ed, <- IH. unfold dedupe_lookup. rewrite Ek. destruct (nq_dedupe_key r) as [k'|].
  - case_bool_decide as E; [destruct E as [-> [= ->]]; apply lookup_insert_eq|]. apply lookup_insert_ne. intros [= E1 E2]. apply E. by rewrite E1, E2.
  - by rewrite bool_decide_eq_false_2 by (by intros [_ ?]).
Qed.

Lemma slots_exact p cfg evs :
  let (b, log) := notify_run (NotifyBroker_new p cfg) evs in
  nb_origin b = p /\ forall o k, dedupe_lookup (nb_dedupe b) o k = occupant log o k.
Proof.
  induction evs as [|ev evs IH] using rev_ind.
  { split; [done|]. intros o k. apply lookup_empty. }
  rewrite run_snoc. destruct (notify_run (NotifyBroker_new p cfg) evs) as [b log]. destruct IH as [Ho IH].
  assert (forall r c now fresh, (forall h, ev <> EvRetire h) -> let (b', d) := accept_queued b r c now fresh in
    nb_origin b' = p /\ forall o k, dedupe_lookup (nb_dedupe b') o k = occupant ((ev, Some d) :: log) o k) as Hacc.
  { intros r c now fresh Hev. pose proof (accept_queued_spec b r c now fresh) as Hs. destruct (accept_queued b r c now fresh) as [b' d].
    destruct Hs as [Ho' Hs]. split; [congruence|]. destruct d as [rec replaces|origin|reason].
    - destruct Hs as (_ & _ & Ek & _ & _ & _ & Ed). by eapply deliver_slots.
    - rewrite Hs. intros o k. rewrite IH. destruct ev; try done. by destruct (Hev h).
    - rewrite Hs. intros o k. rewrite IH. destruct ev; try done. by destruct (Hev h). }
  destruct ev as [r c now fresh reg|r c now fresh|origin now|h]; cbn [notify_step].
  - destruct (notify_accept_spec b r c now fresh reg) as [->|[reason ->]]; [|by split]. specialize (Hacc r c now fresh ltac:(done)).
    by destruct (accept_queued b r c now fresh).
  - specialize (Hacc r c now fresh ltac:(done)). by destruct (accept_queued b r c now fresh).
  - unfold notify_try_consume. destruct (RateLimit.try_consume _ _ _). by split.
  - split; [done|]. intros o k. cbn [retire nb_dedupe occupant]. by rewrite forget_lookup, IH.
Qed.

Lemma origin_reserved p from : is_reserved (resolve_origin p from) = true -> allowlist p !! resolve_origin p from = Some (resolve_origin p from).
Proof.
  assert (is_reserved ANONYMOUS = false) as Ha by (vm_compute; reflexivity).
  unfold resolve_origin. destruct from as [s|]; [|congruence]. destruct (blank s); [congruence|].
  destruct (is_reserved (trim s)) eqn:Er; cbn [andb]; [|congruence]. unfold may_present_as. rewrite Er. cbn [negb].
  case_bool_decide as E; cbn [negb]; [done|congruence].
Qed.

(** Who asks for what, with which fresh handle. *)
Definition asked (ev : NotifyEvent) : option (NotifyRequest * Caller * bytes) :=
  match ev with
  | EvAccept r c _ fresh _ | EvQueued r c _ fresh => Some (r, c, fresh)
  | _ => None
  end.

(** C16: whatever happened before, a delivered notification is well formed, carries
    the caller's own origin (a reserved label only if the policy grants it to that
    identity), is not critical for a remote caller, and replaces exactly the live notification
    that was last delivered for the same origin and key, under its handle; otherwise
    it is new, under the fresh handle.  So no caller can pose under a reserved label
    it was not granted, or replace a notification of another origin; origins are compared without
    the white space around them, so [ ci ] and [ci] are one origin. *)
Theorem notify_isolated p cfg evs b log ev r c fresh b' rec replaces :
  notify_run (NotifyBroker_new p cfg) evs = (b, log) -> asked ev = Some (r, c, fresh) ->
  notify_step b ev = (b', Some (Deliver rec replaces)) ->
  notify_validate r = Ok tt /\ nr_origin rec = resolve_origin p (c_from c) /\
  (is_reserved (nr_origin rec) = true -> allowlist p !! nr_origin rec = Some (nr_origin rec)) /\
  (c_is_remote c = true -> nr_effective_urgency rec <> Critical) /\
  replaces = (k ← nq_dedupe_key r; occupant log (nr_origin rec) k) /\ nr_handle rec = default fresh replaces.
Proof.
  intros Hrun Hask Hstep. pose proof (slots_exact p cfg evs) as Hs. rewrite Hrun in Hs. destruct Hs as [Ho Hslots].
  assert (exists now, accept_queued b r c now fresh = (b', Deliver rec replaces)) as (now & Hacc).
  { destruct ev as [r0 c0 now fresh0 reg|r0 c0 now fresh0| |]; try done; cbn [asked] in Hask; injection Hask as -> -> ->; cbn [notify_step] in Hstep; exists now.
    - destruct (notify_accept_spec b r c now fresh reg) as [E|[reason E]]; rewrite E in Hstep; [|done].
      destruct (accept_queued b r c now fresh) as [b1 d]. by injection Hstep as -> ->.
    - destruct (accept_queued b r c now fresh) as [b1 d]. by injection Hstep as -> ->. }
  pose proof (accept_queued_spec b r c now fresh) as Hq. rewrite Hacc in Hq. destruct Hq as (_ & Hv & Hor & _ & Hrep & Hh & Hu & _). rewrite Ho in Hor.
  split; [done|]. split; [done|]. split; [rewrite Hor; apply origin_reserved|]. split; [done|]. split; [|done].
  rewrite Hrep. destruct (nq_dedupe_key r) as [k|]; [|done]. cbn [mbind option_bind]. apply Hslots.
Qed.

Definition sample_notify (summary : bytes) : NotifyRequest := mkNotify summary None Critical None None (Some (bs "build")) None [].
Definition sample_history : list NotifyEvent := [
  EvQueued (sample_notify (bs "Building")) (mkCaller (Some (bs "ci")) false) 0 (bs "n-1");
  EvQueued (sample_notify (bs "Building")) (mkCaller (Some (bs "mail")) false) 0 (bs "n-2")].
Definition sample_event : NotifyEvent := EvQueued (sample_notify (bs "Built")) (mkCaller (Some (bs " ci ")) true) 5 (bs "n-3").

Lemma notify_isolated_witness : exists rec,
  snd (notify_step (fst (notify_run NotifyBroker_v1 sample_history)) sample_event) = Some (Deliver rec (Some (bs "n-1"))) /\
  nr_origin rec = bs "ci" /\ nr_effective_urgency rec <> Critical /\ nr_handle rec = bs "n-1".
Proof.
  assert (exists rec, snd (notify_step (fst (notify_run NotifyBroker_v1 sample_history)) sample_event) =
    Some (Deliver rec (Some (bs "n-1")))) as [rec Hd] by (eexists; vm_compute; reflexivity).
  destruct (notify_isolated OriginPolicy_v1 DEFAULT_RATE sample_history _ _ sample_event _ _ _ _ rec (Some (bs "n-1"))
    (surjective_pairing _) eq_refl (eq_trans (surjective_pairing _) (f_equal (pair _) Hd))) as (_ & Ho & _ & Hu & _ & Hh).
  exists rec. split; [exact Hd|]. split; [rewrite Ho; vm_compute; reflexivity|]. split; [by apply Hu|exact Hh].
Defined.
