(* ===== verification/MirrorTypes.v ===== *)
(** * The editor client's mirror: data

    Models the types of [cosmix-edit-client/src/types.rs], the part of
    [cosmix-edit-core/src/wire.rs] the mirror reads, and the state of
    [cosmix-edit-client/src/mirror.rs].  A request body is the [serde_json::Value] the
    [json!] macro builds (the source keeps its text); texts of messages are constructors where
    the code formats them.  [MirrorEnv] is what the mirror uses of other crates: the
    allocator's answer to a reservation, BLAKE3 and serde's decoders of the replies. *)

From S2P Require Import Prelude Utf8 EditBase Ot Anchor GapBuffer Text Buffer Str Json.
From Stdlib Require Import DecimalString HexadecimalString DecimalN.

(** ** Wire types (wire.rs) *)

Inductive DiskState := DClean | DModified | DDeleted | DNone | DUnwatched.

Inductive KindW := KwEdit | KwUndo | KwRedo | KwReload.

Record OpenReply := mkOpenReply {
  or_buffer : bytes; or_epoch : bytes; or_path : option bytes; or_name : option bytes;
  or_language : bytes; or_rev : Z; or_eol : Eol; or_bom : bool; or_disk : DiskState;
  or_recovery_id : bytes; or_recovered : bool }.

Record BufferSummary := mkBufferSummary {
  sm_buffer : bytes; sm_path : option bytes; sm_saved_rev : option Z; sm_disk : DiskState;
  sm_recovered : bool }.

Record ListReply := mkListReply { lr_buffers : list BufferSummary }.

Record SaveReply := mkSaveReply { sr_path : bytes; sr_saved_rev : Z; sr_disk : DiskState }.

Record GetReply := mkGetReply {
  gr_buffer : bytes; gr_epoch : bytes; gr_rev : Z; gr_text : option bytes;
  gr_bytes_total : nat; gr_next : option nat; gr_snapshot : option bytes }.

Record HistoryEntryW := mkHistoryEntryW {
  hw_rev : Z; hw_origin : bytes; hw_lane : bytes; hw_kind : KindW; hw_op_id : option bytes;
  hw_edits : option (list Edit); hw_edits_elided : bool }.

Record HistoryReply := mkHistoryReply {
  hr_buffer : bytes; hr_rev : Z; hr_oldest_rev : Z; hr_entries : list HistoryEntryW;
  hr_truncated : bool; hr_next : option Z }.

Record Refusal := mkRefusal {
  rf_code : ErrorCode; rf_message : bytes; rf_reason : option string; rf_rev : option Z }.

Record EditEvent := mkEditEvent {
  ee_epoch : bytes; ee_buffer : bytes; ee_rev : Z; ee_base_rev : Z; ee_origin : bytes;
  ee_lane : bytes; ee_kind : KindW; ee_op_id : option bytes; ee_edits : list Edit }.

Record OffsetSelection := mkOffsetSelection { os_anchor : nat; os_head : nat }.

Record CursorEvent := mkCursorEvent {
  ce_epoch : bytes; ce_buffer : bytes; ce_rev : Z; ce_origin : bytes;
  ce_selections : list OffsetSelection }.

Record DiskEvent := mkDiskEvent { de_epoch : bytes; de_buffer : bytes; de_disk : DiskState }.

Record CloseEvent := mkCloseEvent { cl_epoch : bytes; cl_buffer : bytes }.

Inductive ResyncReason := Oversized | PublisherLoss | Reconnect.

Inductive ResyncTarget := RtAll | RtBuffers (ids : list bytes).

Record ResyncEvent := mkResyncEvent {
  rs_epoch : bytes; rs_buffers : ResyncTarget; rs_reason : ResyncReason; rs_rev : option Z }.

(** [Event]; the anchor and open events are ignored by a mirror. *)
Inductive Event :=
| EvEdit (e : EditEvent) | EvCursor (e : CursorEvent) | EvAnchor | EvDisk (e : DiskEvent)
| EvOpen | EvClose (e : CloseEvent) | EvResync (e : ResyncEvent).

#[export] Instance ErrorCode_eq_dec : EqDecision ErrorCode.
Proof. solve_decision. Defined.

(** ** Reasons the mirror looks at (error.rs) *)

Module wreason.
Definition UNKNOWN_BUFFER := "unknown_buffer"%string.
Definition EPOCH_MISMATCH := "epoch_mismatch"%string.
Definition SNAPSHOT_EXPIRED := "snapshot_expired"%string.
Definition DISK_MODIFIED := "disk_modified"%string.
Definition BUSY := "busy"%string.
Definition DETACHED := "detached"%string.
Definition UNCERTAIN := "uncertain"%string.
End wreason.

(** ** Shared frontend types (types.rs) *)

Definition UI_ORIGIN : bytes := bs "human:ced".

Record OpIdGen := mkOpIdGen { gen_run : N; gen_seq : N }.

(** [{}], [{:0w}] of an unsigned number and [{:0wx}]. *)
Definition dec (n : N) : bytes := bs (DecimalString.NilEmpty.string_of_uint (N.to_uint n)).
Definition pad0 (w : nat) (s : bytes) : bytes := replicate (w - length s) x30 ++ s.
Definition hex (n : N) : bytes := bs (HexadecimalString.NilEmpty.string_of_uint (N.to_hex_uint n)).

(** Reads the number back from a padded decimal. *)
Definition undec (s : bytes) : option N := N.of_uint <$> DecimalString.NilEmpty.uint_of_string (String.string_of_list_byte s).

Lemma undec_pad0 w n : undec (pad0 w (dec n)) = Some n.
Proof.
  unfold pad0. generalize (w - length (dec n)) as k. intros k.
  assert (exists d, DecimalString.NilEmpty.uint_of_string (String.string_of_list_byte (replicate k x30 ++ dec n)) = Some d /\ N.of_uint d = n) as (d & E & Hd).
  { induction k as [|k (d & E & Hd)]; cbn [replicate app].
    - unfold dec, bs. rewrite String.string_of_list_byte_of_string, DecimalString.NilEmpty.usu. eexists. split; [done|]. apply DecimalN.Unsigned.of_to.
    - exists (Decimal.D0 d). split; [|done].
      change (DecimalString.uint_of_char (Ascii.ascii_of_byte x30) (DecimalString.NilEmpty.uint_of_string (String.string_of_list_byte (replicate k x30 ++ dec n))) = Some (Decimal.D0 d)).
      by rewrite E. }
  unfold undec. by rewrite E; cbn; rewrite Hd.
Qed.

Lemma dec_digits_inj a b : dec a = dec b -> a = b.
Proof. intros E. pose proof (undec_pad0 0 a) as Ha. pose proof (undec_pad0 0 b) as Hb. rewrite E in Ha. congruence. Qed.

Definition next_id (g : OpIdGen) : OpIdGen * bytes :=
  let n := (gen_seq g + 1)%N in
  (mkOpIdGen (gen_run g) n, bs "c" ++ pad0 8 (hex (gen_run g)) ++ bs "-" ++ pad0 6 (dec n)).

Definition next_tagged (g : OpIdGen) (tag : bytes) : OpIdGen * bytes :=
  let n := (gen_seq g + 1)%N in
  (mkOpIdGen (gen_run g) n, bs "c" ++ pad0 8 (hex (gen_run g)) ++ bs "-" ++ tag ++ bs "-" ++ pad0 6 (dec n)).

Inductive Invoker := ByUi | ByBus (caller_key : bytes).

Record Intent := mkIntent { in_origin : Origin; in_tab : Z; in_by : Invoker }.

(** [Intent::ui] *)
Definition Intent_ui (tab : Z) : Intent := mkIntent (mkOrigin Human (bs "ced")) tab ByUi.

(** The lane label of a bus caller, given the hexadecimal BLAKE3 of its key. *)
Definition bus_lane_label (caller_key hash_hex : bytes) : bytes :=
  let clean := concat (map (fun c => match c with
      | [b] => if is_ascii_alphanumeric b || byte_in (bs "._@/+-") b then [b] else bs "_"
      | _ => bs "_" end) (chars caller_key)) in
  let full := bs "ced." ++ clean in
  if negb (length clean =? 0) && (length full <=? 64) then full
  else bs "ced." ++ take 43 clean ++ bs "+" ++ take 16 hash_hex.

(** [Intent::bus] *)
Definition Intent_bus (tab : Z) (caller_key hash_hex : bytes) : Intent :=
  mkIntent (mkOrigin Agent (bus_lane_label caller_key hash_hex)) tab (ByBus caller_key).

Record LocalEdit := mkLocalEdit {
  led_items : list (range * bytes); led_coalesce : bool; led_caret_after : Selection }.

Inductive DeltaKind := DkLocal | DkRemote | DkUndo | DkRedo | DkReload | DkRevert | DkResync.

Record ViewDelta := mkViewDelta {
  vd_edits : list Edit; vd_origin : option Origin; vd_kind : DeltaKind; vd_rev : Z; vd_view_gen : Z }.

Record Outgoing := mkOutgoing {
  og_verb : bytes; og_body : JsonTree; og_op_id : option bytes; og_deadline_ms : Z }.

(** The record [types::Conflict]. *)
Record ConflictNote := mkConflictNote {
  cf_rev : Z; cf_remote_origin : option bytes; cf_lines : Z * Z; cf_texts : list bytes }.

Inductive Level := Info | Warn | Error.

(** Message texts: the [MSG_*] constants, the literals of the code, and formatted ones. *)
Inductive Message :=
| MSG_UNDO_INCOMPLETE | MSG_REDO_INCOMPLETE | MSG_REPLACE_INCOMPLETE | MSG_SAVE_UNCERTAIN
| MSG_SAVE_DISK_MODIFIED | MSG_KEEP_INTERRUPTED (steps : nat) | MSG_DOUBLE_COMMIT
| MSG_RELOAD_UNCERTAIN | MSG_SERVICE_SILENT
| MsgKeepWaits | MsgKeepUndone | MsgKeepRefused (m : Message) | MsgReplaceStale | MsgDetached
| MsgRefusal (m : bytes) | MsgCore (e : CoreError) | MsgBadReply.

Inductive Notice :=
| NConflict (c : ConflictNote) | NDetachedCopy (n : nat) | NMessage (level : Level) (text : Message).

(** ** The mirror's types (mirror.rs) *)

Definition COMPLETED_MAX : nat := 4096.
Definition DEADLINE_MS : Z := 5000.
Definition DEADLINE_LONG_MS : Z := 30000.
Definition PAGE_BYTES : Z := 1024 * 1024.
Definition HISTORY_LIMIT : Z := 1000.
Definition RETRY_FIRST_MS : Z := 250.
Definition RETRY_CAP_MS : Z := 5000.
Definition RETRY_MAX : Z := 8.
Definition READ_WARN_AFTER : Z := 3.

(** An outcome's refusal: the service's, or one the mirror makes up itself. *)
Inductive Outcome := ODone | ORefused (r : Refusal) | ORefusedHere (c : ErrorCode) (why : string) (m : Message).

Record Item := mkItem { it_range : range; it_text : bytes; it_deleted : bytes }.

Record Pending := mkPending {
  pd_op_id : bytes; pd_intent : Intent; pd_items : list Item; pd_coalesce : bool }.

Record SentRequest := mkSentRequest {
  sq_verb : bytes; sq_body : JsonTree; sq_op_id : bytes; sq_base_rev : option Z; sq_sent_at_rev : Z }.

Record ReplyInfo := mkReplyInfo { ri_rev : Z; ri_truncated : bool }.

Inductive AckState := Sent | Replied (info : ReplyInfo) | Uncertain | Doomed.

Inductive LaneArg := LaneOwn | LaneAny | LaneNamed (l : bytes).

Inductive ServerOp :=
| SUndo (lane : LaneArg) | SRedo (lane : LaneArg)
| SSave (path : option bytes) (force : bool)
| SReload (force : bool)
| SApplyAt (items : list (range * bytes)) (expect_rev : Z).

Inductive Inflight :=
| ILocal (p : Pending) (present : bool) (wire : SentRequest) (state : AckState)
| IServer (op : ServerOp) (intent : Intent) (wire : SentRequest) (state : AckState).

(** [Inflight::wire] *)
Definition inflight_wire (i : Inflight) : SentRequest :=
  match i with ILocal _ _ wire _ | IServer _ _ wire _ => wire end.

Inductive RecoverHow := ByHistory | BySnapshot.

Inductive DetachReason := EpochChanged | ClosedRemotely (by_ : option bytes) | OpenFailed (msg : Message).

Inductive Phase :=
| Bootstrapping (buffered : list EditEvent)
| Live
| Recovering (since : Z) (buffered : list EditEvent) (how : RecoverHow)
| Detached (reason : DetachReason).

Record BufferMeta := mkBufferMeta {
  bm_path : option bytes; bm_name : option bytes; bm_language : bytes; bm_eol : Eol; bm_bom : bool;
  bm_disk : DiskState; bm_dirty : bool; bm_saved_rev : option Z; bm_recovered : bool; bm_recovery_id : bytes }.

Record RemoteMark := mkRemoteMark {
  rm_origin : bytes; rm_lane : bytes; rm_rev : Z; rm_kind : KindW; rm_span : option range }.

Record DetachedCopy := mkDetachedCopy { dc_text : bytes; dc_rev_seen : Z }.

Record Step := mkStep { st_deltas : list ViewDelta; st_out : list Outgoing; st_notices : list Notice }.

(** [Step::default], [Step::extend] *)
Definition Step_default : Step := mkStep [] [] [].
Definition Step_extend (a b : Step) : Step :=
  mkStep (st_deltas a ++ st_deltas b) (st_out a ++ st_out b) (st_notices a ++ st_notices b).

Inductive MirrorError := NotLive | TooLarge (items n : nat) | InvalidRange (r : range) (len : nat)
| NotOnBoundary (r : range) | ItemsOverlap | InvalidEdit (e : CoreError).

Inductive Read := RPage | RRecover | RRecon | RSaveCheck.
#[export] Instance Read_eq_dec : EqDecision Read.
Proof. solve_decision. Defined.

Record Recon := mkRecon {
  rc_op_id : bytes; rc_since : Z; rc_found : option Z; rc_trimmed : bool; rc_first : bool;
  rc_entries : list HistoryEntryW; rc_save_resent : bool }.

Record QServer := mkQServer {
  qs_op : ServerOp; qs_intent : Intent; qs_op_id : bytes; qs_verb : option bytes; qs_expect : option Z }.

Record KeepStage := mkKeepStage { ks_op_id : bytes; ks_verb : bytes; ks_range : range; ks_text : bytes }.

Record KeepMine := mkKeepMine {
  km_intent : Intent; km_stages : list KeepStage; km_done : list (bytes * Z);
  km_current : option bytes; km_compensating : option nat }.

Record Completed := mkCompleted { co_order : list bytes; co_all : gset bytes; co_local : gset bytes }.

Definition Completed_default : Completed := mkCompleted [] ∅ ∅.

(** [Completed::add] *)
Definition Completed_add (c : Completed) (id : bytes) (is_local : bool) : Completed :=
  if bool_decide (id ∈ co_all c) then c else
  let c := if COMPLETED_MAX <=? length (co_order c)
           then match co_order c with
                | old :: rest => mkCompleted rest (co_all c ∖ {[old]}) (co_local c ∖ {[old]})
                | [] => c
                end
           else c in
  mkCompleted (co_order c ++ [id]) ({[id]} ∪ co_all c)
    (if is_local then {[id]} ∪ co_local c else co_local c).

Record Retry := mkRetry { rt_next_delay : Z; rt_unarmed : option Z; rt_waiting : bool; rt_attempts : Z }.

Record EchoWait := mkEchoWait { ew_op_id : bytes; ew_unarmed : bool }.

(** A server edit to fold. *)
Record Ev := mkEv {
  ev_rev : Z; ev_base_rev : Z; ev_origin : bytes; ev_lane : bytes; ev_kind : KindW;
  ev_op_id : option bytes; ev_edits : list Edit }.

(** [Ev::of_event] *)
Definition of_event (e : EditEvent) : Ev :=
  mkEv (ee_rev e) (ee_base_rev e) (ee_origin e) (ee_lane e) (ee_kind e) (ee_op_id e) (ee_edits e).

Definition is_own_origin (origin : bytes) : bool :=
  bool_decide (origin = UI_ORIGIN) || starts_with (bs "agent:ced.") origin.

Definition delta_kind (k : KindW) : DeltaKind :=
  match k with KwEdit => DkRemote | KwUndo => DkUndo | KwRedo => DkRedo | KwReload => DkReload end.

Definition meta_of (open : OpenReply) : BufferMeta :=
  mkBufferMeta (or_path open) (or_name open) (or_language open) (or_eol open) (or_bom open) (or_disk open)
    (or_recovered open) (if or_recovered open then None else Some (or_rev open)) (or_recovered open)
    (or_recovery_id open).

(** What the mirror uses of other crates. *)
Class MirrorEnv := {
  env_reserve : nat -> nat -> bool;
  env_blake3 : bytes -> bytes;
  as_GetReply : JsonTree -> option GetReply;
  as_HistoryReply : JsonTree -> option HistoryReply;
  as_ListReply : JsonTree -> option ListReply;
  as_SaveReply : JsonTree -> option SaveReply }.

(** ** The state *)

(** Snapshot pages so far; the hasher as the bytes it was fed. *)
Record Pager (G : Type) := mkPager { pg_token : option bytes; pg_text : Text G; pg_hash : option bytes }.
Arguments mkPager {G}.
Arguments pg_token {G}.
Arguments pg_text {G}.
Arguments pg_hash {G}.

Record Mirror (G : Type) := mkMirror {
  m_buffer : bytes;
  m_epoch : bytes;
  m_text : Text G;
  m_rev : Z;
  m_view_gen : Z;
  m_inflight : option Inflight;
  m_queue : list (Z * Pending);
  m_server_ops : list (Z * QServer);
  m_fifo : Z;
  m_conflicts : list ConflictNote;
  m_detached_copy : option DetachedCopy;
  m_meta : BufferMeta;
  m_saved_known : bool;
  m_last_remote : option RemoteMark;
  m_phase : Phase;
  m_completed : Completed;
  m_reads : gmap bytes (Read * Outgoing * Z);
  m_read_seq : Z;
  m_pager : option (Pager G);
  m_snap_due : option bool;
  m_recon : option Recon;
  m_retry : option Retry;
  m_echo : option EchoWait;
  m_outcomes : list (bytes * Outcome);
  m_resuspect : bool;
  m_compare_with : option bytes;
  m_keep : option KeepMine;
  m_keep_count : Z;
  m_cursors : list (bytes * list Selection) }.
Arguments mkMirror {G}.
Arguments m_buffer {G}.
Arguments m_epoch {G}.
Arguments m_text {G}.
Arguments m_rev {G}.
Arguments m_view_gen {G}.
Arguments m_inflight {G}.
Arguments m_queue {G}.
Arguments m_server_ops {G}.
Arguments m_fifo {G}.
Arguments m_conflicts {G}.
Arguments m_detached_copy {G}.
Arguments m_meta {G}.
Arguments m_saved_known {G}.
Arguments m_last_remote {G}.
Arguments m_phase {G}.
Arguments m_completed {G}.
Arguments m_reads {G}.
Arguments m_read_seq {G}.
Arguments m_pager {G}.
Arguments m_snap_due {G}.
Arguments m_recon {G}.
Arguments m_retry {G}.
Arguments m_echo {G}.
Arguments m_outcomes {G}.
Arguments m_resuspect {G}.
Arguments m_compare_with {G}.
Arguments m_keep {G}.
Arguments m_keep_count {G}.
Arguments m_cursors {G}.

(** Assignments [self.x = v]. *)
Section setters.
Context {G : Type}.
Implicit Types m : Mirror G.

Definition put_buffer (v : bytes) m : Mirror G :=
  mkMirror v (m_epoch m) (m_text m) (m_rev m) (m_view_gen m) (m_inflight m) (m_queue m) (m_server_ops m) (m_fifo m)
    (m_conflicts m) (m_detached_copy m) (m_meta m) (m_saved_known m) (m_last_remote m) (m_phase m)
    (m_completed m) (m_reads m) (m_read_seq m) (m_pager m) (m_snap_due m) (m_recon m) (m_retry m) (m_echo m)
    (m_outcomes m) (m_resuspect m) (m_compare_with m) (m_keep m) (m_keep_count m) (m_cursors m).
Definition put_epoch (v : bytes) m : Mirror G :=
  mkMirror (m_buffer m) v (m_text m) (m_rev m) (m_view_gen m) (m_inflight m) (m_queue m) (m_server_ops m)
    (m_fifo m) (m_conflicts m) (m_detached_copy m) (m_meta m) (m_saved_known m) (m_last_remote m)
    (m_phase m) (m_completed m) (m_reads m) (m_read_seq m) (m_pager m) (m_snap_due m) (m_recon m)
    (m_retry m) (m_echo m) (m_outcomes m) (m_resuspect m) (m_compare_with m) (m_keep m) (m_keep_count m)
    (m_cursors m).
Definition put_text (v : Text G) m : Mirror G :=
  mkMirror (m_buffer m) (m_epoch m) v (m_rev m) (m_view_gen m) (m_inflight m) (m_queue m) (m_server_ops m)
    (m_fifo m) (m_conflicts m) (m_detached_copy m) (m_meta m) (m_saved_known m) (m_last_remote m)
    (m_phase m) (m_completed m) (m_reads m) (m_read_seq m) (m_pager m) (m_snap_due m) (m_recon m)
    (m_retry m) (m_echo m) (m_outcomes m) (m_resuspect m) (m_compare_with m) (m_keep m) (m_keep_count m)
    (m_cursors m).
Definition put_rev (v : Z) m : Mirror G :=
  mkMirror (m_buffer m) (m_epoch m) (m_text m) v (m_view_gen m) (m_inflight m) (m_queue m) (m_server_ops m)
    (m_fifo m) (m_conflicts m) (m_detached_copy m) (m_meta m) (m_saved_known m) (m_last_remote m)
    (m_phase m) (m_completed m) (m_reads m) (m_read_seq m) (m_pager m) (m_snap_due m) (m_recon m)
    (m_retry m) (m_echo m) (m_outcomes m) (m_resuspect m) (m_compare_with m) (m_keep m) (m_keep_count m)
    (m_cursors m).
Definition put_view_gen (v : Z) m : Mirror G :=
  mkMirror (m_buffer m) (m_epoch m) (m_text m) (m_rev m) v (m_inflight m) (m_queue m) (m_server_ops m) (m_fifo m)
    (m_conflicts m) (m_detached_copy m) (m_meta m) (m_saved_known m) (m_last_remote m) (m_phase m)
    (m_completed m) (m_reads m) (m_read_seq m) (m_pager m) (m_snap_due m) (m_recon m) (m_retry m) (m_echo m)
    (m_outcomes m) (m_resuspect m) (m_compare_with m) (m_keep m) (m_keep_count m) (m_cursors m).
Definition put_inflight (v : option Inflight) m : Mirror G :=
  mkMirror (m_buffer m) (m_epoch m) (m_text m) (m_rev m) (m_view_gen m) v (m_queue m) (m_server_ops m) (m_fifo m)
    (m_conflicts m) (m_detached_copy m) (m_meta m) (m_saved_known m) (m_last_remote m) (m_phase m)
    (m_completed m) (m_reads m) (m_read_seq m) (m_pager m) (m_snap_due m) (m_recon m) (m_retry m) (m_echo m)
    (m_outcomes m) (m_resuspect m) (m_compare_with m) (m_keep m) (m_keep_count m) (m_cursors m).
Definition put_queue (v : list (Z * Pending)) m : Mirror G :=
  mkMirror (m_buffer m) (m_epoch m) (m_text m) (m_rev m) (m_view_gen m) (m_inflight m) v (m_server_ops m)
    (m_fifo m) (m_conflicts m) (m_detached_copy m) (m_meta m) (m_saved_known m) (m_last_remote m)
    (m_phase m) (m_completed m) (m_reads m) (m_read_seq m) (m_pager m) (m_snap_due m) (m_recon m)
    (m_retry m) (m_echo m) (m_outcomes m) (m_resuspect m) (m_compare_with m) (m_keep m) (m_keep_count m)
    (m_cursors m).
Definition put_server_ops (v : list (Z * QServer)) m : Mirror G :=
  mkMirror (m_buffer m) (m_epoch m) (m_text m) (m_rev m) (m_view_gen m) (m_inflight m) (m_queue m) v (m_fifo m)
    (m_conflicts m) (m_detached_copy m) (m_meta m) (m_saved_known m) (m_last_remote m) (m_phase m)
    (m_completed m) (m_reads m) (m_read_seq m) (m_pager m) (m_snap_due m) (m_recon m) (m_retry m) (m_echo m)
    (m_outcomes m) (m_resuspect m) (m_compare_with m) (m_keep m) (m_keep_count m) (m_cursors m).
Definition put_fifo (v : Z) m : Mirror G :=
  mkMirror (m_buffer m) (m_epoch m) (m_text m) (m_rev m) (m_view_gen m) (m_inflight m) (m_queue m) (m_server_ops m)
    v (m_conflicts m) (m_detached_copy m) (m_meta m) (m_saved_known m) (m_last_remote m) (m_phase m)
    (m_completed m) (m_reads m) (m_read_seq m) (m_pager m) (m_snap_due m) (m_recon m) (m_retry m) (m_echo m)
    (m_outcomes m) (m_resuspect m) (m_compare_with m) (m_keep m) (m_keep_count m) (m_cursors m).
Definition put_conflicts (v : list ConflictNote) m : Mirror G :=
  mkMirror (m_buffer m) (m_epoch m) (m_text m) (m_rev m) (m_view_gen m) (m_inflight m) (m_queue m) (m_server_ops m)
    (m_fifo m) v (m_detached_copy m) (m_meta m) (m_saved_known m) (m_last_remote m) (m_phase m)
    (m_completed m) (m_reads m) (m_read_seq m) (m_pager m) (m_snap_due m) (m_recon m) (m_retry m) (m_echo m)
    (m_outcomes m) (m_resuspect m) (m_compare_with m) (m_keep m) (m_keep_count m) (m_cursors m).
Definition put_detached_copy (v : option DetachedCopy) m : Mirror G :=
  mkMirror (m_buffer m) (m_epoch m) (m_text m) (m_rev m) (m_view_gen m) (m_inflight m) (m_queue m) (m_server_ops m)
    (m_fifo m) (m_conflicts m) v (m_meta m) (m_saved_known m) (m_last_remote m) (m_phase m) (m_completed m)
    (m_reads m) (m_read_seq m) (m_pager m) (m_snap_due m) (m_recon m) (m_retry m) (m_echo m) (m_outcomes m)
    (m_resuspect m) (m_compare_with m) (m_keep m) (m_keep_count m) (m_cursors m).
Definition put_meta (v : BufferMeta) m : Mirror G :=
  mkMirror (m_buffer m) (m_epoch m) (m_text m) (m_rev m) (m_view_gen m) (m_inflight m) (m_queue m) (m_server_ops m)
    (m_fifo m) (m_conflicts m) (m_detached_copy m) v (m_saved_known m) (m_last_remote m) (m_phase m)
    (m_completed m) (m_reads m) (m_read_seq m) (m_pager m) (m_snap_due m) (m_recon m) (m_retry m) (m_echo m)
    (m_outcomes m) (m_resuspect m) (m_compare_with m) (m_keep m) (m_keep_count m) (m_cursors m).
Definition put_saved_known (v : bool) m : Mirror G :=
  mkMirror (m_buffer m) (m_epoch m) (m_text m) (m_rev m) (m_view_gen m) (m_inflight m) (m_queue m) (m_server_ops m)
    (m_fifo m) (m_conflicts m) (m_detached_copy m) (m_meta m) v (m_last_remote m) (m_phase m)
    (m_completed m) (m_reads m) (m_read_seq m) (m_pager m) (m_snap_due m) (m_recon m) (m_retry m) (m_echo m)
    (m_outcomes m) (m_resuspect m) (m_compare_with m) (m_keep m) (m_keep_count m) (m_cursors m).
Definition put_last_remote (v : option RemoteMark) m : Mirror G :=
  mkMirror (m_buffer m) (m_epoch m) (m_text m) (m_rev m) (m_view_gen m) (m_inflight m) (m_queue m) (m_server_ops m)
    (m_fifo m) (m_conflicts m) (m_detached_copy m) (m_meta m) (m_saved_known m) v (m_phase m)
    (m_completed m) (m_reads m) (m_read_seq m) (m_pager m) (m_snap_due m) (m_recon m) (m_retry m) (m_echo m)
    (m_outcomes m) (m_resuspect m) (m_compare_with m) (m_keep m) (m_keep_count m) (m_cursors m).
Definition put_phase (v : Phase) m : Mirror G :=
  mkMirror (m_buffer m) (m_epoch m) (m_text m) (m_rev m) (m_view_gen m) (m_inflight m) (m_queue m) (m_server_ops m)
    (m_fifo m) (m_conflicts m) (m_detached_copy m) (m_meta m) (m_saved_known m) (m_last_remote m) v
    (m_completed m) (m_reads m) (m_read_seq m) (m_pager m) (m_snap_due m) (m_recon m) (m_retry m) (m_echo m)
    (m_outcomes m) (m_resuspect m) (m_compare_with m) (m_keep m) (m_keep_count m) (m_cursors m).
Definition put_completed (v : Completed) m : Mirror G :=
  mkMirror (m_buffer m) (m_epoch m) (m_text m) (m_rev m) (m_view_gen m) (m_inflight m) (m_queue m) (m_server_ops m)
    (m_fifo m) (m_conflicts m) (m_detached_copy m) (m_meta m) (m_saved_known m) (m_last_remote m)
    (m_phase m) v (m_reads m) (m_read_seq m) (m_pager m) (m_snap_due m) (m_recon m) (m_retry m) (m_echo m)
    (m_outcomes m) (m_resuspect m) (m_compare_with m) (m_keep m) (m_keep_count m) (m_cursors m).
Definition put_reads (v : gmap bytes (Read * Outgoing * Z)) m : Mirror G :=
  mkMirror (m_buffer m) (m_epoch m) (m_text m) (m_rev m) (m_view_gen m) (m_inflight m) (m_queue m) (m_server_ops m)
    (m_fifo m) (m_conflicts m) (m_detached_copy m) (m_meta m) (m_saved_known m) (m_last_remote m)
    (m_phase m) (m_completed m) v (m_read_seq m) (m_pager m) (m_snap_due m) (m_recon m) (m_retry m)
    (m_echo m) (m_outcomes m) (m_resuspect m) (m_compare_with m) (m_keep m) (m_keep_count m) (m_cursors m).
Definition put_read_seq (v : Z) m : Mirror G :=
  mkMirror (m_buffer m) (m_epoch m) (m_text m) (m_rev m) (m_view_gen m) (m_inflight m) (m_queue m) (m_server_ops m)
    (m_fifo m) (m_conflicts m) (m_detached_copy m) (m_meta m) (m_saved_known m) (m_last_remote m)
    (m_phase m) (m_completed m) (m_reads m) v (m_pager m) (m_snap_due m) (m_recon m) (m_retry m) (m_echo m)
    (m_outcomes m) (m_resuspect m) (m_compare_with m) (m_keep m) (m_keep_count m) (m_cursors m).
Definition put_pager (v : option (Pager G)) m : Mirror G :=
  mkMirror (m_buffer m) (m_epoch m) (m_text m) (m_rev m) (m_view_gen m) (m_inflight m) (m_queue m) (m_server_ops m)
    (m_fifo m) (m_conflicts m) (m_detached_copy m) (m_meta m) (m_saved_known m) (m_last_remote m)
    (m_phase m) (m_completed m) (m_reads m) (m_read_seq m) v (m_snap_due m) (m_recon m) (m_retry m)
    (m_echo m) (m_outcomes m) (m_resuspect m) (m_compare_with m) (m_keep m) (m_keep_count m) (m_cursors m).
Definition put_snap_due (v : option bool) m : Mirror G :=
  mkMirror (m_buffer m) (m_epoch m) (m_text m) (m_rev m) (m_view_gen m) (m_inflight m) (m_queue m) (m_server_ops m)
    (m_fifo m) (m_conflicts m) (m_detached_copy m) (m_meta m) (m_saved_known m) (m_last_remote m)
    (m_phase m) (m_completed m) (m_reads m) (m_read_seq m) (m_pager m) v (m_recon m) (m_retry m) (m_echo m)
    (m_outcomes m) (m_resuspect m) (m_compare_with m) (m_keep m) (m_keep_count m) (m_cursors m).
Definition put_recon (v : option Recon) m : Mirror G :=
  mkMirror (m_buffer m) (m_epoch m) (m_text m) (m_rev m) (m_view_gen m) (m_inflight m) (m_queue m) (m_server_ops m)
    (m_fifo m) (m_conflicts m) (m_detached_copy m) (m_meta m) (m_saved_known m) (m_last_remote m)
    (m_phase m) (m_completed m) (m_reads m) (m_read_seq m) (m_pager m) (m_snap_due m) v (m_retry m)
    (m_echo m) (m_outcomes m) (m_resuspect m) (m_compare_with m) (m_keep m) (m_keep_count m) (m_cursors m).
Definition put_retry (v : option Retry) m : Mirror G :=
  mkMirror (m_buffer m) (m_epoch m) (m_text m) (m_rev m) (m_view_gen m) (m_inflight m) (m_queue m) (m_server_ops m)
    (m_fifo m) (m_conflicts m) (m_detached_copy m) (m_meta m) (m_saved_known m) (m_last_remote m)
    (m_phase m) (m_completed m) (m_reads m) (m_read_seq m) (m_pager m) (m_snap_due m) (m_recon m) v
    (m_echo m) (m_outcomes m) (m_resuspect m) (m_compare_with m) (m_keep m) (m_keep_count m) (m_cursors m).
Definition put_echo (v : option EchoWait) m : Mirror G :=
  mkMirror (m_buffer m) (m_epoch m) (m_text m) (m_rev m) (m_view_gen m) (m_inflight m) (m_queue m) (m_server_ops m)
    (m_fifo m) (m_conflicts m) (m_detached_copy m) (m_meta m) (m_saved_known m) (m_last_remote m)
    (m_phase m) (m_completed m) (m_reads m) (m_read_seq m) (m_pager m) (m_snap_due m) (m_recon m)
    (m_retry m) v (m_outcomes m) (m_resuspect m) (m_compare_with m) (m_keep m) (m_keep_count m)
    (m_cursors m).
Definition put_outcomes (v : list (bytes * Outcome)) m : Mirror G :=
  mkMirror (m_buffer m) (m_epoch m) (m_text m) (m_rev m) (m_view_gen m) (m_inflight m) (m_queue m) (m_server_ops m)
    (m_fifo m) (m_conflicts m) (m_detached_copy m) (m_meta m) (m_saved_known m) (m_last_remote m)
    (m_phase m) (m_completed m) (m_reads m) (m_read_seq m) (m_pager m) (m_snap_due m) (m_recon m)
    (m_retry m) (m_echo m) v (m_resuspect m) (m_compare_with m) (m_keep m) (m_keep_count m) (m_cursors m).
Definition put_resuspect (v : bool) m : Mirror G :=
  mkMirror (m_buffer m) (m_epoch m) (m_text m) (m_rev m) (m_view_gen m) (m_inflight m) (m_queue m) (m_server_ops m)
    (m_fifo m) (m_conflicts m) (m_detached_copy m) (m_meta m) (m_saved_known m) (m_last_remote m)
    (m_phase m) (m_completed m) (m_reads m) (m_read_seq m) (m_pager m) (m_snap_due m) (m_recon m)
    (m_retry m) (m_echo m) (m_outcomes m) v (m_compare_with m) (m_keep m) (m_keep_count m) (m_cursors m).
Definition put_compare_with (v : option bytes) m : Mirror G :=
  mkMirror (m_buffer m) (m_epoch m) (m_text m) (m_rev m) (m_view_gen m) (m_inflight m) (m_queue m) (m_server_ops m)
    (m_fifo m) (m_conflicts m) (m_detached_copy m) (m_meta m) (m_saved_known m) (m_last_remote m)
    (m_phase m) (m_completed m) (m_reads m) (m_read_seq m) (m_pager m) (m_snap_due m) (m_recon m)
    (m_retry m) (m_echo m) (m_outcomes m) (m_resuspect m) v (m_keep m) (m_keep_count m) (m_cursors m).
Definition put_keep (v : option KeepMine) m : Mirror G :=
  mkMirror (m_buffer m) (m_epoch m) (m_text m) (m_rev m) (m_view_gen m) (m_inflight m) (m_queue m) (m_server_ops m)
    (m_fifo m) (m_conflicts m) (m_detached_copy m) (m_meta m) (m_saved_known m) (m_last_remote m)
    (m_phase m) (m_completed m) (m_reads m) (m_read_seq m) (m_pager m) (m_snap_due m) (m_recon m)
    (m_retry m) (m_echo m) (m_outcomes m) (m_resuspect m) (m_compare_with m) v (m_keep_count m)
    (m_cursors m).
Definition put_keep_count (v : Z) m : Mirror G :=
  mkMirror (m_buffer m) (m_epoch m) (m_text m) (m_rev m) (m_view_gen m) (m_inflight m) (m_queue m) (m_server_ops m)
    (m_fifo m) (m_conflicts m) (m_detached_copy m) (m_meta m) (m_saved_known m) (m_last_remote m)
    (m_phase m) (m_completed m) (m_reads m) (m_read_seq m) (m_pager m) (m_snap_due m) (m_recon m)
    (m_retry m) (m_echo m) (m_outcomes m) (m_resuspect m) (m_compare_with m) (m_keep m) v (m_cursors m).
Definition put_cursors (v : list (bytes * list Selection)) m : Mirror G :=
  mkMirror (m_buffer m) (m_epoch m) (m_text m) (m_rev m) (m_view_gen m) (m_inflight m) (m_queue m) (m_server_ops m)
    (m_fifo m) (m_conflicts m) (m_detached_copy m) (m_meta m) (m_saved_known m) (m_last_remote m)
    (m_phase m) (m_completed m) (m_reads m) (m_read_seq m) (m_pager m) (m_snap_due m) (m_recon m)
    (m_retry m) (m_echo m) (m_outcomes m) (m_resuspect m) (m_compare_with m) (m_keep m) (m_keep_count m) v.
End setters.
