(* ===== verification/Mirror.v ===== *)
(** * The editor client's mirror: operations

    Models every method of [cosmix-edit-client/src/mirror.rs].  A method takes and returns
    the mirror with the [Step] it appends its output to, and [None] is a panic; a public method
    that builds its own [Step] is run on an empty one, and [step.extend(self.f())] is running
    [f] on the current one.  The loop of [fold_remote] has fuel one above the number of pending
    operations, since every pass but the last removes one; cutting a text into chunks has its length as fuel. *)

From S2P Require Import Prelude Utf8 EditBase Ot Anchor GapBuffer Text Buffer Str Json MirrorTypes.

(** ** A state monad with panics *)

Definition M (G A : Type) : Type := Mirror G * Step -> option (A * (Mirror G * Step)).

#[export] Instance M_ret {G} : MRet (M G) := fun A a s => Some (a, s).
#[export] Instance M_bind {G} : MBind (M G) := fun A B k m s =>
  match m s with Some (a, s') => k a s' | None => None end.

Section monad.
Context {G : Type}.

Definition gets {A} (f : Mirror G -> A) : M G A := fun s => Some (f s.1, s).
Definition modify (f : Mirror G -> Mirror G) : M G unit := fun s => Some (tt, (f s.1, s.2)).
Definition panic {A} : M G A := fun _ => None.
Definition lift {A} (o : option A) : M G A := fun s => match o with Some a => Some (a, s) | None => None end.

(** [step.deltas.push], [step.out.push], [step.notices.push] *)
Definition push_view (d : ViewDelta) : M G unit := fun s =>
  Some (tt, (s.1, mkStep (st_deltas s.2 ++ [d]) (st_out s.2) (st_notices s.2))).
Definition push_out (o : Outgoing) : M G unit := fun s =>
  Some (tt, (s.1, mkStep (st_deltas s.2) (st_out s.2 ++ [o]) (st_notices s.2))).
Definition push_notice (n : Notice) : M G unit := fun s =>
  Some (tt, (s.1, mkStep (st_deltas s.2) (st_out s.2) (st_notices s.2 ++ [n]))).
Definition warn (t : Message) : M G unit := push_notice (NMessage Warn t).

(** [for x in l { body }] *)
Fixpoint for_each {A} (l : list A) (body : A -> M G unit) : M G unit :=
  match l with [] => mret tt | x :: l => body x;; for_each l body end.

Definition when (b : bool) (m : M G unit) : M G unit := if b then m else mret tt.
End monad.

(** ** Pending operations *)

Definition item_pair (it : Item) : range * bytes := (it_range it, it_text it).

(** [Pending::seq], [Pending::inverse] *)
Definition pending_seq (p : Pending) : list (nat * Edit) :=
  match txn_sequence (map item_pair (pd_items p)) with Some s => s | None => [] end.
Definition pending_edits (p : Pending) : list Edit := map snd (pending_seq p).

Definition pending_inverse (p : Pending) : list Edit :=
  map (fun '(i, e) => mkEdit (e_offset e) (length (e_insert e))
         (match pd_items p !! i with Some it => it_deleted it | None => [] end))
      (rev (pending_seq p)).

(** [windows(2).all(|w| w[1].offset + w[1].delete <= w[0].offset)] *)
Fixpoint windows_canonical (es : list Edit) : bool :=
  match es with
  | a :: ((b :: _) as rest) => (e_offset b + e_delete b <=? e_offset a) && windows_canonical rest
  | _ => true
  end.

(** [bytes.iter().rposition(|&b| b == b'\n')] *)
Fixpoint rposition_nl (s : bytes) : option nat :=
  match s with
  | [] => None
  | b :: s => match rposition_nl s with
              | Some i => Some (S i)
              | None => if is_nl b then Some 0 else None
              end
  end.

(** Cut at character boundaries, preferring the last newline of the second half of each
    window; [None] is a loop that makes no progress. *)
Fixpoint cut_chunks (fuel : nat) (rest : bytes) (max : nat) (at_newlines : bool) : option (list bytes) :=
  if length rest <=? max then Some (if length rest =? 0 then [] else [rest]) else
  match fuel with
  | 0 => None
  | S fuel =>
    let cut := floor_boundary rest max in
    let cut := match (if at_newlines then rposition_nl (take cut rest) else None) with
               | Some nl => if max / 2 <=? nl + 1 then nl + 1 else cut
               | None => cut
               end in
    out ← cut_chunks fuel (drop cut rest) max at_newlines;
    Some (take cut rest :: out)
  end.

(** ** Bodies *)

Definition jn (n : nat) : JsonTree := JNum (Z.of_nat n).
Definition jrange (r : range) : JsonTree := JArr [jn (fst r); jn (snd r)].

Definition op_json (r : range) (t : bytes) : JsonTree :=
  if range_is_empty r then JObj [(bs "op", JStr (bs "insert")); (bs "at", jn (fst r)); (bs "text", JStr t)]
  else if length t =? 0 then JObj [(bs "op", JStr (bs "delete")); (bs "range", jrange r)]
  else JObj [(bs "op", JStr (bs "replace")); (bs "range", jrange r); (bs "text", JStr t)].

(** [local_body] of a mirror of [buffer] at [base_rev] *)
Definition local_body (buffer : bytes) (base_rev : Z) (p : Pending) : bytes * JsonTree :=
  let origin := Origin_to_string (in_origin (pd_intent p)) in
  let tail coalesce := [(bs "base_rev", JNum base_rev); (bs "coalesce", JBool coalesce);
                        (bs "origin", JStr origin); (bs "op_id", JStr (pd_op_id p))] in
  match pd_items p with
  | [it] =>
    if range_is_empty (it_range it) then
      (bs "edit.insert", JObj ([(bs "buffer", JStr buffer); (bs "at", jn (fst (it_range it)));
                                (bs "text", JStr (it_text it))] ++ tail (pd_coalesce p)))
    else if length (it_text it) =? 0 then
      (bs "edit.delete", JObj ([(bs "buffer", JStr buffer); (bs "range", jrange (it_range it))] ++ tail (pd_coalesce p)))
    else
      (bs "edit.replace", JObj ([(bs "buffer", JStr buffer); (bs "range", jrange (it_range it));
                                 (bs "text", JStr (it_text it))] ++ tail (pd_coalesce p)))
  | items =>
    (bs "edit.apply", JObj ([(bs "buffer", JStr buffer);
        (bs "ops", JArr (map (fun it => op_json (it_range it) (it_text it)) items))] ++ tail false))
  end.

(** [server_body] *)
Definition server_body (buffer : bytes) (q : QServer) : bytes * JsonTree :=
  let origin := Origin_to_string (in_origin (qs_intent q)) in
  let ids := [(bs "origin", JStr origin); (bs "op_id", JStr (qs_op_id q))] in
  let undo verb lane :=
    (verb, JObj ([(bs "buffer", JStr buffer); (bs "as", JStr origin); (bs "op_id", JStr (qs_op_id q))] ++
      match lane with
      | LaneOwn => []
      | LaneAny => [(bs "origin", JStr (bs "*"))]
      | LaneNamed l => [(bs "origin", JStr l)]
      end ++
      match qs_expect q with Some x => [(bs "expect_rev", JNum x)] | None => [] end)) in
  match qs_op q with
  | SUndo lane => undo (bs "edit.undo") lane
  | SRedo lane => undo (bs "edit.redo") lane
  | SSave path force =>
    (bs "edit.save", JObj ([(bs "buffer", JStr buffer)] ++ ids ++
      match path with Some p => [(bs "path", JStr p)] | None => [] end ++
      (if force then [(bs "force", JBool true)] else [])))
  | SReload force =>
    (bs "edit.reload", JObj ([(bs "buffer", JStr buffer); (bs "force", JBool force)] ++ ids))
  | SApplyAt items expect_rev =>
    let expect := [(bs "expect_rev", JNum expect_rev)] in
    match items with
    | [(r, t)] =>
      let verb := default (if range_is_empty r then bs "edit.insert"
                           else if length t =? 0 then bs "edit.delete" else bs "edit.replace") (qs_verb q) in
      let body :=
        if bool_decide (verb = bs "edit.insert") then
          [(bs "buffer", JStr buffer); (bs "at", jn (fst r)); (bs "text", JStr t)]
        else if bool_decide (verb = bs "edit.delete") then
          [(bs "buffer", JStr buffer); (bs "range", jrange r)]
        else [(bs "buffer", JStr buffer); (bs "range", jrange r); (bs "text", JStr t)] in
      (verb, JObj (body ++ expect ++ ids))
    | _ =>
      (bs "edit.apply", JObj ([(bs "buffer", JStr buffer);
          (bs "ops", JArr (map (fun '(r, t) => op_json r t) items))] ++ expect ++ ids))
    end
  end.

Definition resend (wire : SentRequest) : Outgoing :=
  mkOutgoing (sq_verb wire) (sq_body wire) (Some (sq_op_id wire))
    (if bool_decide (sq_verb wire = bs "edit.save") then DEADLINE_LONG_MS else DEADLINE_MS).

Section mirror.
Context {G : Type} {TS : TextStore G} {ENV : MirrorEnv}.
Implicit Types m : Mirror G.

(** One two-phase commit; [None] is the [assert!] of [commit]. *)
Definition apply_once (t : Text G) (es : list Edit) : option (Text G * option CoreError) :=
  match prepare env_reserve t es with
  | (t, Err e) => Some (t, Some e)
  | (t, Ok p) => t ← commit t p; Some (t, None)
  end.

Fixpoint apply_each (t : Text G) (es : list Edit) : option (Text G * option CoreError) :=
  match es with
  | [] => Some (t, None)
  | e :: es =>
    '(t, r) ← apply_once t [e];
    match r with Some err => Some (t, Some err) | None => apply_each t es end
  end.

(** [apply_text]: the text after, and the refusal that stopped it. *)
Definition apply_text (t : Text G) (es : list Edit) : option (Text G * option CoreError) :=
  if length es =? 0 then Some (t, None)
  else if windows_canonical es then apply_once t es
  else apply_each t es.

Definition read_all (t : Text G) : bytes := read t 0 (len t) [].

(** [apply_text(&mut self.text, ..)] *)
Definition apply_view (es : list Edit) : M G (option CoreError) :=
  t ← gets m_text;
  '(t, r) ← lift (apply_text t es);
  modify (put_text t);;
  mret r.

(** ** Small steps *)

Definition push_delta (edits : list Edit) (origin : option Origin) (kind : DeltaKind) : M G unit :=
  modify (fun m => put_view_gen (m_view_gen m + 1)%Z m);;
  rv ← gets m_rev; vg ← gets m_view_gen;
  push_view (mkViewDelta edits origin kind rv vg).

Definition retain_reads (k : Read) m : Mirror G :=
  put_reads (filter (fun kv => kv.2.1.1 <> k) (m_reads m)) m.

Definition send_read (kind : Read) (verb : bytes) (body : JsonTree) (deadline_ms : Z) : M G unit :=
  (match kind with RPage | RRecover => modify (retain_reads kind) | _ => mret tt end);;
  modify (fun m => put_read_seq (m_read_seq m + 1)%Z m);;
  n ← gets m_read_seq;
  let id := bs "read-" ++ dec (Z.to_N n) in
  let out := mkOutgoing verb body (Some id) deadline_ms in
  modify (fun m => put_reads (<[id := (kind, out, 0%Z)]> (m_reads m)) m);;
  push_out out.

Definition queue_server (q : QServer) : M G unit :=
  modify (fun m => put_fifo (m_fifo m + 1)%Z m);;
  modify (fun m => put_server_ops (m_server_ops m ++ [(m_fifo m, q)]) m).

(** The dropped server operations of [abandon_pipeline]. *)
Definition dropped_ids m : list bytes :=
  match m_inflight m with Some (IServer _ _ wire _) => [sq_op_id wire] | _ => [] end ++
  map (fun q => qs_op_id q.2) (m_server_ops m).

Definition abandon_pipeline : M G unit :=
  modify (fun m => put_outcomes (m_outcomes m ++
    map (fun id => (id, ORefusedHere Conflict wreason.DETACHED MsgDetached)) (dropped_ids m)) m);;
  modify (put_inflight None);; modify (put_echo None);; modify (put_queue []);;
  modify (put_server_ops []);; modify (put_reads ∅);; modify (put_pager None);;
  modify (put_snap_due None);; modify (put_recon None);; modify (put_retry None);;
  modify (put_resuspect false);; modify (put_keep None).

Definition uncertain (op_id : bytes) (msg : Message) : M G unit :=
  modify (fun m => put_outcomes (m_outcomes m ++ [(op_id, ORefusedHere Conflict wreason.UNCERTAIN msg)]) m).

Definition replied_waiting m : option bytes :=
  match m_inflight m with
  | Some (ILocal _ _ wire (Replied _)) => Some (sq_op_id wire)
  | Some (IServer _ _ wire (Replied info)) => if (m_rev m <? ri_rev info)%Z then Some (sq_op_id wire) else None
  | _ => None
  end.

Definition watch_echo : M G unit :=
  modify (fun m => match replied_waiting m with
    | Some id =>
      if match m_echo m with Some e => bool_decide (ew_op_id e = id) | None => false end then m
      else put_echo (Some (mkEchoWait id true)) m
    | None => put_echo None m
    end).

Definition present_inflight m : bool :=
  match m_inflight m with Some (ILocal _ true _ _) => true | _ => false end.

Definition is_live m : bool := match m_phase m with Live => true | _ => false end.
Definition is_detached m : bool := match m_phase m with Detached _ => true | _ => false end.

(** [pending], [is_idle] *)
Definition pending m : nat :=
  length (m_queue m) + match m_inflight m with Some (ILocal _ _ _ _) => 1 | _ => 0 end.
Definition is_idle m : bool :=
  is_live m && match m_inflight m with None => true | _ => false end &&
  (length (m_queue m) =? 0) && (length (m_server_ops m) =? 0).

Definition detach_failed (msg : Message) : M G unit :=
  modify (put_phase (Detached (OpenFailed msg)));; abandon_pipeline.

Definition epoch_changed : M G unit :=
  ph ← gets m_phase;
  match ph with
  | Detached EpochChanged => mret tt
  | _ => modify (put_phase (Detached EpochChanged));; abandon_pipeline
  end.

Definition start_pages : M G unit :=
  match Text_new with
  | Err e => detach_failed (MsgCore e)
  | Ok text =>
    modify (fun m => put_pager (Some (mkPager None text
      (match m_compare_with m with Some _ => Some [] | None => None end))) m);;
    b ← gets m_buffer;
    send_read RPage (bs "edit.get")
      (JObj [(bs "buffer", JStr b); (bs "snapshot", JBool true); (bs "max_bytes", JNum PAGE_BYTES)]) DEADLINE_LONG_MS
  end.

(** ** The slot *)

Definition ack_inflight : M G unit :=
  modify (fun m => match m_inflight m with
    | Some (ILocal p _ _ _) => put_completed (Completed_add (m_completed m) (pd_op_id p) true) m
    | _ => m
    end);;
  modify (put_inflight None);; modify (put_retry None).

Definition clear_slot : M G unit :=
  modify (fun m => match m_inflight m with
    | Some i => put_completed (Completed_add (m_completed m) (sq_op_id (inflight_wire i)) false) m
    | None => m
    end);;
  modify (put_inflight None);; modify (put_retry None).

Definition set_local_replied (rev : Z) : M G unit :=
  modify (fun m => match m_inflight m with
    | Some (ILocal p _ wire _) => put_inflight (Some (ILocal p false wire (Replied (mkReplyInfo rev false)))) m
    | _ => m
    end).

(** [*state = s] on the in-flight request. *)
Definition put_state (s : AckState) m : Mirror G :=
  match m_inflight m with
  | Some (ILocal p present wire _) => put_inflight (Some (ILocal p present wire s)) m
  | Some (IServer op intent wire _) => put_inflight (Some (IServer op intent wire s)) m
  | None => m
  end.

(** ** Keep-mine *)

Definition keep_next_stage (expect_rev : Z) : M G unit :=
  kk ← gets m_keep;
  match kk with
  | None => mret tt
  | Some k =>
    match km_stages k with
    | [] => mret tt
    | s :: stages =>
      modify (put_keep (Some (mkKeepMine (km_intent k) stages (km_done k) (Some (ks_op_id s)) (km_compensating k))));;
      queue_server (mkQServer (SApplyAt [(ks_range s, ks_text s)] expect_rev) (km_intent k) (ks_op_id s)
        (Some (ks_verb s)) None)
    end
  end.

Definition keep_next_undo (expect_rev : Z) : M G unit :=
  kk ← gets m_keep;
  match kk with
  | None => mret tt
  | Some k =>
    let undone := default 0 (km_compensating k) in
    match rev (km_done k) !! undone with
    | None => mret tt
    | Some (stage_id, _) =>
      let op_id := stage_id ++ bs ".u" in
      modify (put_keep (Some (mkKeepMine (km_intent k) (km_stages k) (km_done k) (Some op_id) (km_compensating k))));;
      queue_server (mkQServer (SUndo LaneOwn) (km_intent k) op_id None (Some expect_rev))
    end
  end.

Definition keep_refused (message : Message) : M G unit :=
  kk ← gets m_keep;
  match kk with
  | None => mret tt
  | Some k =>
    let k := mkKeepMine (km_intent k) (km_stages k) (km_done k) None (km_compensating k) in
    modify (put_keep (Some k));;
    match km_compensating k, km_done k with
    | Some _, _ =>
      modify (put_keep None);;
      push_notice (NMessage Error (MSG_KEEP_INTERRUPTED (length (km_done k))))
    | None, [] =>
      modify (put_keep None);;
      warn (MsgKeepRefused message)
    | None, _ =>
      modify (put_keep (Some (mkKeepMine (km_intent k) (km_stages k) (km_done k) None (Some 0))));;
      rv ← gets m_rev;
      keep_next_undo (match list.last (km_done k) with Some (_, r) => r | None => rv end)
    end
  end.

Definition complete_server (rev : Z) : M G unit :=
  inf ← gets m_inflight;
  modify (put_inflight None);;
  match inf with
  | Some (IServer _ _ wire _) =>
    let id := sq_op_id wire in
    modify (fun m => put_completed (Completed_add (m_completed m) id false) m);;
    modify (fun m => put_outcomes (m_outcomes m ++ [(id, ODone)]) m);;
    modify (put_retry None);;
    kk ← gets m_keep;
    match kk with
    | None => mret tt
    | Some k =>
      if negb (bool_decide (km_current k = Some id)) then mret tt else
      match km_compensating k with
      | Some n =>
        if length (km_done k) <=? S n then
          modify (put_keep None);;
          warn MsgKeepUndone
        else
          modify (put_keep (Some (mkKeepMine (km_intent k) (km_stages k) (km_done k) None (Some (S n)))));;
          keep_next_undo rev
      | None =>
        modify (put_keep (Some (mkKeepMine (km_intent k) (km_stages k) (km_done k ++ [(id, rev)]) None None)));;
        match km_stages k with
        | [] => modify (put_keep None);; modify (put_detached_copy None)
        | _ => keep_next_stage rev
        end
      end
    end
  | _ => mret tt
  end.

Definition check_barrier : M G unit :=
  inf ← gets m_inflight; rv ← gets m_rev;
  match inf with
  | Some (IServer _ _ _ (Replied info)) => when (ri_rev info <=? rv)%Z (complete_server (ri_rev info))
  | _ => mret tt
  end.

Definition put_dirty (b : bool) m : Mirror G :=
  let k := m_meta m in
  put_meta (mkBufferMeta (bm_path k) (bm_name k) (bm_language k) (bm_eol k) (bm_bom k) (bm_disk k) b (bm_saved_rev k)
    (bm_recovered k) (bm_recovery_id k)) m.

(** [self.pending() > 0 || self.meta.saved_rev != Some(self.rev) || self.meta.recovered] *)
Definition is_dirty m : bool :=
  (0 <? pending m) || negb (bool_decide (bm_saved_rev (m_meta m) = Some (m_rev m))) || bm_recovered (m_meta m).

Definition after_rev : M G unit :=
  check_barrier;;
  modify (fun m => put_dirty (is_dirty m) m).

(** ** Reverting pending operations *)

Definition lines_join (lines : Z * Z) (a b : Z) : Z * Z := (Z.min lines.1 a, Z.max lines.2 b).

Fixpoint revert_edits (es : list Edit) (acc : list Edit) (lines : Z * Z) : M G (list Edit * (Z * Z)) :=
  match es with
  | [] => mret (acc, lines)
  | e :: es =>
    t ← gets m_text;
    let a := pt_line (point t (e_offset e)) in
    let b := pt_line (point t (e_offset e + e_delete e)) in
    _ ← apply_view [e];
    revert_edits es (acc ++ [e]) (lines_join lines (Z.of_nat a) (Z.of_nat b))
  end.

Definition revert_op (p : Pending) (acc : list Edit) (lines : Z * Z) : M G (list Edit * (Z * Z)) :=
  revert_edits (pending_inverse p) acc lines.

Fixpoint revert_ops (ps : list Pending) (acc : list Edit) (lines : Z * Z) : M G (list Edit * (Z * Z)) :=
  match ps with
  | [] => mret (acc, lines)
  | p :: ps => '(acc, lines) ← revert_op p acc lines; revert_ops ps acc lines
  end.

Definition inserted_texts (p : Pending) : list bytes :=
  filter (fun t => t <> []) (map it_text (pd_items p)).

(** The record a conflict accumulates into. *)
Definition join_conflict (acc : option ConflictNote) (rev : Z) (remote_origin : option bytes) (lines : Z * Z)
    (texts : list bytes) : ConflictNote :=
  let c := default (mkConflictNote rev remote_origin (USIZE_MAX, 0%Z) []) acc in
  let l := lines_join (cf_lines c) lines.1 lines.2 in
  mkConflictNote (cf_rev c) (cf_remote_origin c) (if (l.1 =? USIZE_MAX)%Z then (1, 1)%Z else l) (cf_texts c ++ texts).

(** Returns whether an accepted operation was reverted, and the conflict so far. *)
Definition revert_suffix (j : nat) (rev : Z) (remote_origin : option bytes) (acc : option ConflictNote)
    : M G (bool * option ConflictNote) :=
  base ← gets (fun m => if present_inflight m then 1 else 0);
  q ← gets m_queue;
  if length q <? j - base then panic else
  let removed := map snd (drop (j - base) q) in
  modify (put_queue (take (j - base) q));;
  '(edits, lines) ← revert_ops (List.rev removed) [] (USIZE_MAX, 0%Z);
  inf ← gets m_inflight;
  '(edits, lines, texts, desync) ←
    (if j <? base then
       match inf with
       | Some (ILocal p _ wire state) =>
         '(edits, lines) ← revert_op p edits lines;
         (match state with
          | Replied _ => modify (put_inflight (Some (ILocal p false wire state)))
          | _ => modify (put_inflight (Some (ILocal p false wire Doomed)))
          end);;
         rt ← gets m_retry;
         when (match rt with Some r => rt_waiting r | None => false end)
           (modify (put_retry None);; clear_slot);;
         mret (edits, lines, inserted_texts p, match state with Replied _ => true | _ => false end)
       | _ => panic
       end
     else mret (edits, lines, [] : list bytes, false));
  let texts := texts ++ concat (map inserted_texts removed) in
  when (negb (length edits =? 0)) (push_delta edits None DkRevert);;
  mret (desync, Some (join_conflict acc rev remote_origin lines texts)).

Definition note_conflict (acc : option ConflictNote) : M G unit :=
  match acc with
  | Some c =>
    modify (fun m => put_conflicts (m_conflicts m ++ [c]) m);;
    push_notice (NConflict c)
  | None => mret tt
  end.

(** ** Reconciliation and snapshots *)

Definition history_body (buffer : bytes) (since : Z) : JsonTree :=
  JObj [(bs "buffer", JStr buffer); (bs "since_rev", JNum since); (bs "limit", JNum HISTORY_LIMIT)].

Definition start_recon : M G unit :=
  inf ← gets m_inflight;
  match inf with
  | None => mret tt
  | Some i =>
    let w := inflight_wire i in
    modify (put_recon (Some (mkRecon (sq_op_id w) (sq_sent_at_rev w) None false true [] false)));;
    b ← gets m_buffer;
    send_read RRecon (bs "edit.history") (history_body b (sq_sent_at_rev w)) DEADLINE_MS
  end.

Definition try_snapshot : M G unit :=
  due ← gets m_snap_due; pg ← gets m_pager;
  match due, pg with
  | Some _, None =>
    inf ← gets m_inflight;
    let proceed : M G unit :=
      q ← gets m_queue;
      when (negb (length q =? 0))
        (base ← gets (fun m => if present_inflight m then 1 else 0); rv ← gets m_rev;
         '(_, acc) ← revert_suffix base rv None None;
         note_conflict acc);;
      modify (put_snap_due None);;
      start_pages in
    match inf with
    | Some (ILocal _ _ _ Sent) | Some (ILocal _ _ _ Doomed) => mret tt
    | Some (ILocal _ _ _ Uncertain) =>
      rc ← gets m_recon;
      match rc with None => start_recon | Some _ => mret tt end
    | _ => proceed
    end
  | _, _ => mret tt
  end.

Definition snapshot_fallback (detach : bool) : M G unit :=
  dc ← gets m_detached_copy;
  when (detach && match dc with None => true | _ => false end)
    (t ← gets m_text; rv ← gets m_rev;
     push_notice (NDetachedCopy (length (read_all t)));;
     modify (put_detached_copy (Some (mkDetachedCopy (read_all t) rv))));;
  ph ← gets m_phase;
  let go (buffered : list EditEvent) : M G unit :=
    rv ← gets m_rev;
    modify (put_phase (Recovering rv buffered BySnapshot));;
    modify (retain_reads RRecover);;
    modify (fun m => put_snap_due (Some (default false (m_snap_due m) || detach)) m);;
    try_snapshot in
  match ph with
  | Bootstrapping buffered | Recovering _ buffered _ => go buffered
  | Detached _ => mret tt
  | Live => go []
  end.

Definition suspect : M G unit :=
  ph ← gets m_phase;
  match ph with
  | Live =>
    rv ← gets m_rev; b ← gets m_buffer;
    modify (put_phase (Recovering rv [] ByHistory));;
    send_read RRecover (bs "edit.history") (history_body b rv) DEADLINE_MS
  | Detached _ => mret tt
  | _ => modify (put_resuspect true)
  end.

(** ** Folding a server edit *)

Definition put_range (it : Item) (r : range) : Item := mkItem r (it_text it) (it_deleted it).

(** One remote range through one pending operation, and the operation through it. *)
Definition fold_op (x : range) (ii : nat) (items : list Item) : option (range * list Item) :=
  let before := map (fun it => (it_range it, length (it_text it))) items in
  items ← mapM (fun it => put_range it <$> transform_through_set (it_range it) [(x, ii)] ThroughFirst) items;
  x ← transform_through_set x before SelfFirst;
  Some (x, items).

(** Through every operation; an error is the index that failed. *)
Fixpoint fold_ops (x : range) (ii : nat) (j : nat) (work : list (list Item)) : result (range * list (list Item)) nat :=
  match work with
  | [] => Ok (x, [])
  | items :: work =>
    match fold_op x ii items with
    | None => Err j
    | Some (x, items) =>
      let? (x, work) := fold_ops x ii (S j) work in
      Ok (x, items :: work)
    end
  end.

(** The loop ['steps] *)
Fixpoint fold_steps (edits : list Edit) (work : list (list Item)) : result (list Edit * list (list Item)) nat :=
  match edits with
  | [] => Ok ([], work)
  | r :: edits =>
    let? (x, work) := fold_ops (e_offset r, e_offset r + e_delete r) (length (e_insert r)) 0 work in
    let? (out, work) := fold_steps edits work in
    Ok (mkEdit (fst x) (snd x - fst x) (e_insert r) :: out, work)
  end.

Definition put_items (p : Pending) (items : list Item) : Pending :=
  mkPending (pd_op_id p) (pd_intent p) items (pd_coalesce p).

Definition work_of m : list (list Item) :=
  match m_inflight m with Some (ILocal p true _ _) => [pd_items p] | _ => [] end ++
  map (fun q => pd_items q.2) (m_queue m).

Fixpoint put_queue_items (q : list (Z * Pending)) (work : list (list Item)) : list (Z * Pending) :=
  match q with
  | [] => []
  | (n, p) :: q => (n, put_items p (default [] (head work))) :: put_queue_items q (tail work)
  end.

Definition put_work (work : list (list Item)) m : Mirror G :=
  match m_inflight m with
  | Some (ILocal p true wire state) =>
    put_queue (put_queue_items (m_queue m) (tail work))
      (put_inflight (Some (ILocal (put_items p (default [] (head work))) true wire state)) m)
  | _ => put_queue (put_queue_items (m_queue m) work) m
  end.

(** The envelope of the inserted spans, in the coordinates after the last edit. *)
Definition span_step (span : option range) (e : Edit) : option range :=
  let span := match span with
    | Some s => Some (fst (map_point (fst s) Before e), fst (map_point (snd s) After e))
    | None => None
    end in
  if length (e_insert e) =? 0 then span else
  let r := (e_offset e, e_offset e + length (e_insert e)) in
  Some (match span with Some s => (min (fst s) (fst r), max (snd s) (snd r)) | None => r end).

Definition put_saved (rv : Z) m : Mirror G :=
  let k := m_meta m in
  put_saved_known true
    (put_meta (mkBufferMeta (bm_path k) (bm_name k) (bm_language k) (bm_eol k) (bm_bom k) (bm_disk k) (bm_dirty k)
       (Some rv) (bm_recovered k) (bm_recovery_id k)) m).

Definition parse_origin (s : bytes) : option Origin := match Origin_from_str s with Ok o => Some o | Err _ => None end.

Fixpoint fold_remote_loop (fuel : nat) (ev : Ev) (conflict : option ConflictNote) (desync : bool) : M G unit :=
  match fuel with
  | 0 => panic
  | S fuel =>
    work ← gets work_of;
    match fold_steps (ev_edits ev) work with
    | Ok (out, work) =>
      failed ← apply_view out;
      match failed with
      | Some _ => snapshot_fallback true
      | None =>
        modify (put_work work);;
        modify (put_rev (ev_rev ev));;
        note_conflict conflict;;
        when (match ev_kind ev with KwReload => true | _ => false end) (modify (put_saved (ev_rev ev)));;
        when (negb (is_own_origin (ev_origin ev)))
          (modify (put_last_remote (Some (mkRemoteMark (ev_origin ev) (ev_lane ev) (ev_rev ev) (ev_kind ev)
             (foldl span_step None out)))));;
        push_delta out (parse_origin (ev_origin ev)) (delta_kind (ev_kind ev));;
        when desync (snapshot_fallback true)
      end
    | Err j =>
      '(d, conflict) ← revert_suffix j (ev_rev ev) (Some (ev_origin ev)) conflict;
      fold_remote_loop fuel ev conflict (desync || d)
    end
  end.

Definition fold_remote (ev : Ev) : M G unit :=
  work ← gets work_of;
  fold_remote_loop (S (length work)) ev None false.

Definition fold_edit (ev : Ev) : M G unit :=
  inf ← gets m_inflight;
  let own := match inf, ev_op_id ev with
             | Some (ILocal p _ _ _), Some id => bool_decide (pd_op_id p = id)
             | _, _ => false
             end in
  match inf with
  | Some (ILocal p present _ state) =>
    if own then
      match state with
      | Doomed => set_local_replied (ev_rev ev);; snapshot_fallback true
      | _ =>
        (if present then modify (put_rev (ev_rev ev));; ack_inflight
         else fold_remote ev;; ack_inflight);;
        after_rev
      end
    else
      c ← gets m_completed;
      when (match ev_op_id ev with Some id => bool_decide (id ∈ co_local c) | None => false end) (warn MSG_DOUBLE_COMMIT);;
      fold_remote ev;; after_rev
  | _ =>
    c ← gets m_completed;
    when (match ev_op_id ev with Some id => bool_decide (id ∈ co_local c) | None => false end) (warn MSG_DOUBLE_COMMIT);;
    fold_remote ev;; after_rev
  end.

(** [buffered.push(e)] in the phases that buffer. *)
Definition push_buffered (e : EditEvent) m : Mirror G :=
  match m_phase m with
  | Bootstrapping b => put_phase (Bootstrapping (b ++ [e])) m
  | Recovering since b how => put_phase (Recovering since (b ++ [e]) how) m
  | _ => m
  end.

Definition on_edit_event (e : EditEvent) : M G unit :=
  ph ← gets m_phase;
  match ph with
  | Bootstrapping _ | Recovering _ _ _ => modify (push_buffered e)
  | Detached _ => mret tt
  | Live =>
    rv ← gets m_rev;
    if (ee_rev e <=? rv)%Z then mret tt
    else if negb (ee_base_rev e =? rv)%Z then
      suspect;;
      ph ← gets m_phase;
      match ph with Recovering _ _ _ => modify (push_buffered e) | _ => mret tt end
    else fold_edit (of_event e)
  end.

Definition on_cursor (c : CursorEvent) : M G unit :=
  modify (fun m =>
    if negb (is_live m) || negb (ce_rev c =? m_rev m)%Z || is_own_origin (ce_origin c) then m else
    let edits := match m_inflight m with Some (ILocal p true _ _) => pending_edits p | _ => [] end ++
                 concat (map (fun q => pending_edits q.2) (m_queue m)) in
    let map_ a := foldl (fun a e => fst (map_point a Before e)) a edits in
    let sels := map (fun s => mkSelection (map_ (os_anchor s)) (map_ (os_head s))) (ce_selections c) in
    let others := filter (fun o => o.1 <> ce_origin c) (m_cursors m) in
    put_cursors (if length sels =? 0 then others else others ++ [(ce_origin c, sels)]) m).

Definition on_resync (r : ResyncEvent) : M G unit :=
  match rs_buffers r with
  | RtAll => suspect
  | RtBuffers v =>
    b ← gets m_buffer;
    if negb (existsb (fun x => bool_decide (x = b)) v) then mret tt else
    live ← gets is_live; rv0 ← gets m_rev; inf ← gets m_inflight;
    match rs_reason r, rs_rev r, live with
    | Oversized, Some rv, true =>
      if (rv <=? rv0)%Z then mret tt else
      match inf with
      | Some (ILocal _ true _ (Replied info)) =>
        if ((ri_rev info =? rv) && (rv0 + 1 =? rv))%Z then
          modify (put_rev rv);; ack_inflight;; after_rev
        else suspect
      | _ => suspect
      end
    | _, _, _ => suspect
    end
  end.

(** ** Recovery *)

(** Replaying the buffered events of [go_live]. *)
Fixpoint replay_buffered (evs : list EditEvent) : M G unit :=
  match evs with
  | [] => mret tt
  | ev :: evs =>
    ph ← gets m_phase;
    match ph with
    | Live => on_edit_event ev;; replay_buffered evs
    | Recovering _ _ _ | Bootstrapping _ => modify (push_buffered ev);; replay_buffered evs
    | Detached _ => mret tt
    end
  end.

Definition go_live : M G unit :=
  ph ← gets m_phase;
  match ph with
  | Bootstrapping buffered | Recovering _ buffered _ =>
    modify (put_phase Live);;
    after_rev;;
    replay_buffered buffered;;
    live ← gets is_live; again ← gets m_resuspect;
    when live (modify (put_resuspect false);; when again suspect)
  | _ => mret tt
  end.

Definition finish_snapshot (text : Text G) (hash : option bytes) (rev : Z) : M G unit :=
  cw ← gets m_compare_with;
  modify (put_compare_with None);;
  replace ← (match cw with
    | Some old =>
      if bool_decide (hash = Some (env_blake3 old)) then mret false
      else push_notice (NDetachedCopy (length old));;
           modify (put_detached_copy (Some (mkDetachedCopy old rev)));; mret true
    | None => mret true
    end);
  when replace (modify (put_text text));;
  modify (put_rev rev);; modify (put_cursors []);;
  when replace (push_delta [] None DkResync);;
  inf ← gets m_inflight;
  (match inf with
   | Some (ILocal p _ wire state) =>
     if match state with Replied info => (ri_rev info <=? rev)%Z | _ => false end then ack_inflight
     else modify (put_inflight (Some (ILocal p false wire state)))
   | _ => mret tt
   end);;
  go_live.

Definition on_page (page : GetReply) : M G unit :=
  b ← gets m_buffer; ep ← gets m_epoch; pg ← gets m_pager;
  if negb (bool_decide (gr_buffer page = b)) then mret tt
  else if negb (bool_decide (gr_epoch page = ep)) then epoch_changed
  else match pg with
  | None => mret tt
  | Some pager =>
    let '(pager, failed) :=
      match gr_text page with
      | None => (pager, None)
      | Some t =>
        match append env_reserve (pg_text pager) t with
        | (text, Err e) => (mkPager (pg_token pager) text (pg_hash pager), Some e)
        | (text, Ok _) => (mkPager (pg_token pager) text ((fun h => h ++ t) <$> pg_hash pager), None)
        end
      end in
    match failed with
    | Some e => modify (put_pager (Some pager));; detach_failed (MsgCore e)
    | None =>
      let pager := match gr_snapshot page with
                   | Some _ => mkPager (gr_snapshot page) (pg_text pager) (pg_hash pager)
                   | None => pager
                   end in
      modify (put_pager (Some pager));;
      match gr_next page, pg_token pager with
      | Some next, Some token =>
        send_read RPage (bs "edit.get")
          (JObj [(bs "buffer", JStr b); (bs "snapshot", JStr token);
                 (bs "range", JArr [jn next; jn (gr_bytes_total page)]); (bs "max_bytes", JNum PAGE_BYTES)]) DEADLINE_LONG_MS
      | Some _, None => start_pages
      | None, _ =>
        modify (put_pager None);;
        finish_snapshot (pg_text pager) (env_blake3 <$> pg_hash pager) (gr_rev page)
      end
    end
  end.

Fixpoint fold_entries (entries : list HistoryEntryW) : M G bool :=
  match entries with
  | [] => mret true
  | e :: entries =>
    rv ← gets m_rev;
    if (hw_rev e <=? rv)%Z then fold_entries entries else
    match (if hw_edits_elided e then None else hw_edits e) with
    | None => mret false
    | Some edits =>
      if negb (hw_rev e =? rv + 1)%Z then mret false else
      fold_edit (mkEv (hw_rev e) (hw_rev e - 1)%Z (hw_origin e) (hw_lane e) (hw_kind e) (hw_op_id e) edits);;
      halt ← gets (fun m => match m_snap_due m with Some _ => true | None => false end ||
                            match m_pager m with Some _ => true | None => false end || is_detached m);
      if halt : bool then mret true else fold_entries entries
    end
  end.

Definition keep_current (id : bytes) m : bool :=
  match m_keep m with Some k => bool_decide (km_current k = Some id) | None => false end.

Definition finish_recon : M G unit :=
  rc ← gets m_recon; inf ← gets m_inflight;
  match rc with
  | None => mret tt
  | Some rc =>
    modify (put_recon None);;
    if negb (bool_decide ((sq_op_id ∘ inflight_wire) <$> inf = Some (rc_op_id rc))) then mret tt else
    live ← gets is_live; rv ← gets m_rev;
    match inf with
    | Some (ILocal p present wire state) =>
      match rc_found rc with
      | Some r =>
        match state with
        | Doomed => set_local_replied r;; snapshot_fallback true
        | _ =>
          modify (put_state (Replied (mkReplyInfo r false)));;
          if (r <=? rv)%Z then ack_inflight;; after_rev
          else when live (ok ← fold_entries (rc_entries rc); if ok : bool then mret tt else snapshot_fallback false)
        end
      | None =>
        if rc_trimmed rc then
          modify (put_inflight None);;
          (match state with Doomed => mret tt | _ => snapshot_fallback true end)
        else
          match state with
          | Doomed => clear_slot
          | _ => modify (put_state Sent);; push_out (resend wire)
          end
      end
    | Some (IServer op _ _ _) =>
      let msg := match op with
                 | SUndo _ => MSG_UNDO_INCOMPLETE
                 | SRedo _ => MSG_REDO_INCOMPLETE
                 | _ => MSG_REPLACE_INCOMPLETE
                 end in
      match rc_found rc with
      | Some r =>
        modify (put_state (Replied (mkReplyInfo r false)));;
        when ((rv <? r)%Z && live)
          (ok ← fold_entries (rc_entries rc); if ok : bool then mret tt else snapshot_fallback false);;
        check_barrier
      | None =>
        is_keep ← gets (keep_current (rc_op_id rc));
        uncertain (rc_op_id rc) msg;;
        clear_slot;;
        (if is_keep : bool then keep_refused msg else warn msg);;
        when (rc_trimmed rc) suspect
      end
    | None => mret tt
    end
  end.

(** A page of history, into the reconciliation. *)
Definition recon_page (rc : Recon) (page : HistoryReply) : Recon :=
  let found := foldl (fun f e => if bool_decide (hw_op_id e = Some (rc_op_id rc)) then Some (hw_rev e) else f)
                 (rc_found rc) (hr_entries page) in
  mkRecon (rc_op_id rc) (rc_since rc) found
    (if rc_first rc then (rc_since rc <? hr_oldest_rev page)%Z else rc_trimmed rc) false
    (rc_entries rc ++ hr_entries page) (rc_save_resent rc).

Definition history_page (kind : Read) (page : HistoryReply) : M G unit :=
  b ← gets m_buffer;
  if negb (bool_decide (hr_buffer page = b)) then mret tt else
  let by_history m := match m_phase m with Recovering _ _ ByHistory => true | _ => false end in
  match kind with
  | RRecover =>
    go ← gets by_history; rv ← gets m_rev;
    if negb go then mret tt
    else if ((rv <? hr_oldest_rev page) && (rv <? hr_rev page))%Z then snapshot_fallback false
    else
      ok ← fold_entries (hr_entries page);
      go ← gets by_history;
      if negb ok then when go (snapshot_fallback false)
      else if negb go then mret tt
      else
        match (if hr_truncated page then hr_next page else None) with
        | Some next => send_read RRecover (bs "edit.history") (history_body b next) DEADLINE_MS
        | None => go_live
        end
  | RRecon =>
    rc ← gets m_recon;
    match rc with
    | None => mret tt
    | Some rc =>
      modify (put_recon (Some (recon_page rc page)));;
      match (if hr_truncated page then hr_next page else None) with
      | Some next => send_read RRecon (bs "edit.history") (history_body b next) DEADLINE_MS
      | None => finish_recon
      end
    end
  | _ => mret tt
  end.

Definition on_history (page : HistoryReply) : M G unit :=
  kind ← gets (fun m => match m_phase m with Recovering _ _ ByHistory => RRecover | _ => RRecon end);
  history_page kind page;; watch_echo.

(** ** Replies *)

Definition save_check (list_ : option ListReply) : M G unit :=
  rc ← gets m_recon; inf ← gets m_inflight;
  match rc with
  | None => mret tt
  | Some rc =>
    modify (put_recon None);;
    match inf with
    | Some (IServer (SSave _ _) _ wire _) =>
      if negb (bool_decide (sq_op_id wire = rc_op_id rc)) then mret tt else
      b ← gets m_buffer; rv ← gets m_rev;
      let row := l ← list_; find (fun x => bool_decide (sm_buffer x = b)) (lr_buffers l) in
      match (row ← row; s ← sm_saved_rev row; if (sq_sent_at_rev wire <=? s)%Z then Some row else None) with
      | Some row =>
        modify (fun m => put_saved_known true (put_meta
          (let k := m_meta m in
           mkBufferMeta (sm_path row) (bm_name k) (bm_language k) (bm_eol k) (bm_bom k) (sm_disk row) (bm_dirty k)
             (sm_saved_rev row) (sm_recovered row) (bm_recovery_id k)) m));;
        complete_server rv;; after_rev
      | None =>
        if negb (rc_save_resent rc) then
          modify (put_state Sent);;
          push_out (resend wire);;
          modify (put_recon (Some (mkRecon (rc_op_id rc) (rc_since rc) (rc_found rc) (rc_trimmed rc) (rc_first rc)
            (rc_entries rc) true)))
        else
          uncertain (rc_op_id rc) MSG_SAVE_UNCERTAIN;;
          clear_slot;; warn MSG_SAVE_UNCERTAIN
      end
    | _ => mret tt
    end
  end.

Definition refused_for (r : Refusal) (c : ErrorCode) (why : string) : bool :=
  bool_decide (rf_code r = c) && bool_decide (rf_reason r = Some why).

(** [rc.trimmed = true] *)
Definition recon_refused (rc : Recon) : Recon :=
  mkRecon (rc_op_id rc) (rc_since rc) (rc_found rc) true (rc_first rc) (rc_entries rc) (rc_save_resent rc).

Definition read_refused (kind : Read) (r : Refusal) : M G unit :=
  if refused_for r NotFound wreason.EPOCH_MISMATCH then epoch_changed
  else if refused_for r NotFound wreason.UNKNOWN_BUFFER then
    modify (put_phase (Detached (ClosedRemotely None)));; abandon_pipeline
  else
    (match kind with
     | RPage => if bool_decide (rf_reason r = Some wreason.SNAPSHOT_EXPIRED) then start_pages
                else detach_failed (MsgRefusal (rf_message r))
     | RRecover => snapshot_fallback false
     | RRecon =>
       modify (fun m => match m_recon m with Some rc => put_recon (Some (recon_refused rc)) m | None => m end);;
       finish_recon
     | RSaveCheck => save_check None
     end);;
    try_snapshot.

Definition on_read_reply (kind : Read) (reply : result JsonTree Refusal) : M G unit :=
  match reply with
  | Err r => read_refused kind r
  | Ok v =>
    (match kind with
     | RPage => match as_GetReply v with Some page => on_page page | None => detach_failed MsgBadReply end
     | RRecover | RRecon =>
       match as_HistoryReply v with Some page => history_page kind page | None => snapshot_fallback false end
     | RSaveCheck => save_check (as_ListReply v)
     end);;
    try_snapshot;; watch_echo
  end.

Definition arm_retry : M G bool :=
  rt ← gets m_retry;
  let r := default (mkRetry RETRY_FIRST_MS None false 0) rt in
  let attempts := (rt_attempts r + 1)%Z in
  if (RETRY_MAX <? attempts)%Z then modify (put_retry None);; mret false
  else
    modify (put_retry (Some (mkRetry (Z.min (rt_next_delay r * 2) RETRY_CAP_MS) (Some (rt_next_delay r)) true attempts)));;
    mret true.

Definition put_save_reply (s : SaveReply) m : Mirror G :=
  let k := m_meta m in
  put_saved_known true
    (put_meta (mkBufferMeta (Some (sr_path s)) (bm_name k) (bm_language k) (bm_eol k) (bm_bom k) (sr_disk s) (bm_dirty k)
       (Some (sr_saved_rev s)) false (bm_recovery_id k)) m).

Definition is_unchanged (v : JsonTree) : bool := bool_decide (bool_field v (bs "unchanged") = Some true).

Definition reply_ok (v : JsonTree) : M G unit :=
  let reply_rev := u64_field v (bs "rev") in
  rv ← gets m_rev;
  let rev := default rv reply_rev in
  let truncated := default false (bool_field v (bs "reply_truncated")) in
  modify (put_retry None);;
  inf ← gets m_inflight;
  let needs_rev := match inf with
    | Some (ILocal _ _ _ Doomed) => false
    | Some (ILocal _ _ _ _) => true
    | Some (IServer (SSave _ _) _ _ _) => false
    | Some (IServer (SReload _) _ _ _) => negb (is_unchanged v)
    | Some (IServer _ _ _ _) => true
    | None => false
    end in
  if needs_rev && match reply_rev with None => true | _ => false end then
    modify (put_state Uncertain);; start_recon
  else
    let info := mkReplyInfo rev truncated in
    match inf with
    | Some (ILocal _ _ _ Doomed) => set_local_replied rev;; snapshot_fallback true
    | Some (ILocal _ _ _ _) =>
      modify (put_state (Replied info));;
      when (rev <=? rv)%Z (ack_inflight;; after_rev)
    | Some (IServer op _ _ _) =>
      match op with
      | SSave _ _ =>
        (match as_SaveReply v with Some s => modify (put_save_reply s) | None => mret tt end);;
        complete_server rev;; after_rev
      | SReload _ =>
        if is_unchanged v then complete_server rev
        else modify (put_state (Replied info));; check_barrier
      | _ => modify (put_state (Replied info));; check_barrier
      end
    | None => mret tt
    end.

Definition reply_refused (r : Refusal) : M G unit :=
  if refused_for r NotFound wreason.EPOCH_MISMATCH then epoch_changed else
  let busy := refused_for r ResourceLimit wreason.BUSY in
  let retry : M G bool := if busy then arm_retry else mret false in
  inf ← gets m_inflight; rv ← gets m_rev;
  match inf with
  | Some (ILocal _ present _ state) =>
    if match state with Doomed => true | _ => negb present end then clear_slot else
    armed ← retry;
    if armed : bool then mret tt else
    '(_, acc) ← revert_suffix 0 (default rv (rf_rev r)) None None;
    clear_slot;;
    note_conflict acc;;
    when (negb (bool_decide (rf_code r = Conflict))) (push_notice (NMessage Error (MsgRefusal (rf_message r))));;
    after_rev
  | Some (IServer op _ wire _) =>
    armed ← retry;
    if armed : bool then mret tt else
    is_keep ← gets (keep_current (sq_op_id wire));
    let text := match op with
      | SApplyAt _ _ => if bool_decide (rf_reason r = Some reason.STALE_REV) then MsgReplaceStale else MsgRefusal (rf_message r)
      | SSave _ _ => if bool_decide (rf_reason r = Some wreason.DISK_MODIFIED) then MSG_SAVE_DISK_MODIFIED
                     else MsgRefusal (rf_message r)
      | _ => MsgRefusal (rf_message r)
      end in
    modify (fun m => put_outcomes (m_outcomes m ++ [(sq_op_id wire, ORefused r)]) m);;
    clear_slot;;
    if is_keep : bool then keep_refused text else warn text
  | None => mret tt
  end.

Definition on_reply (op_id : bytes) (reply : result JsonTree Refusal) : M G unit :=
  reads ← gets m_reads;
  match reads !! op_id with
  | Some (kind, _, _) =>
    modify (fun m => put_reads (delete op_id (m_reads m)) m);;
    on_read_reply kind reply
  | None =>
    c ← gets m_completed; inf ← gets m_inflight; ep ← gets m_epoch;
    if bool_decide (op_id ∈ co_all c) then mret tt
    else if negb (bool_decide ((sq_op_id ∘ inflight_wire) <$> inf = Some op_id)) then mret tt
    else
      match reply with
      | Ok v =>
        if match str_field v (bs "epoch") with Some e => negb (bool_decide (e = ep)) | None => false end then epoch_changed
        else reply_ok v;; try_snapshot;; watch_echo
      | Err r => reply_refused r;; try_snapshot;; watch_echo
      end
  end.

(** ** The public interface *)

Definition on_event (ev : Event) : M G unit :=
  b ← gets m_buffer; ep ← gets m_epoch;
  let mine buffer epoch := bool_decide (buffer = b) && bool_decide (epoch = ep) in
  match ev with
  | EvEdit e =>
    if negb (bool_decide (ee_buffer e = b)) then mret tt
    else if negb (bool_decide (ee_epoch e = ep)) then epoch_changed
    else on_edit_event e
  | EvCursor c => when (mine (ce_buffer c) (ce_epoch c)) (on_cursor c)
  | EvDisk d => when (mine (de_buffer d) (de_epoch d))
      (modify (fun m => put_meta (let k := m_meta m in
         mkBufferMeta (bm_path k) (bm_name k) (bm_language k) (bm_eol k) (bm_bom k) (de_disk d) (bm_dirty k)
           (bm_saved_rev k) (bm_recovered k) (bm_recovery_id k)) m))
  | EvClose c => when (mine (cl_buffer c) (cl_epoch c))
      (modify (put_phase (Detached (ClosedRemotely None)));; abandon_pipeline)
  | EvResync r => if negb (bool_decide (rs_epoch r = ep)) then epoch_changed else on_resync r
  | EvAnchor | EvOpen => mret tt
  end.

(** [take_echo_timer], [take_retry_timer], [take_outcomes] *)
Definition take_echo_timer : M G (option (bytes * Z)) :=
  e ← gets m_echo;
  match e with
  | Some (mkEchoWait id true) => modify (put_echo (Some (mkEchoWait id false)));; mret (Some (id, DEADLINE_MS))
  | _ => mret None
  end.
Definition take_retry_timer : M G (option Z) :=
  r ← gets m_retry;
  match r with
  | Some r =>
    modify (put_retry (Some (mkRetry (rt_next_delay r) None (rt_waiting r) (rt_attempts r))));;
    mret (rt_unarmed r)
  | None => mret None
  end.
Definition take_outcomes : M G (list (bytes * Outcome)) :=
  o ← gets m_outcomes; modify (put_outcomes []);; mret o.

Definition on_echo_timeout (op_id : bytes) : M G unit :=
  e ← gets m_echo; w ← gets replied_waiting;
  if match e with Some e => bool_decide (ew_op_id e = op_id) | None => false end && bool_decide (w = Some op_id)
  then modify (put_echo None);; suspect
  else mret tt.

Definition on_deadline (op_id : bytes) : M G unit :=
  reads ← gets m_reads;
  match reads !! op_id with
  | Some (k, out, missed) =>
    modify (fun m => put_reads (<[op_id := (k, out, (missed + 1)%Z)]> (m_reads m)) m);;
    push_out out;;
    when (missed + 1 =? READ_WARN_AFTER)%Z (warn MSG_SERVICE_SILENT)
  | None =>
    inf ← gets m_inflight; rt ← gets m_retry; rc ← gets m_recon;
    match inf with
    | None => mret tt
    | Some i =>
      if negb (bool_decide (sq_op_id (inflight_wire i) = op_id)) then mret tt
      else if match rt with Some r => rt_waiting r | None => false end then mret tt
      else match i with
      | ILocal _ _ _ Sent => modify (put_state Uncertain);; start_recon
      | ILocal _ _ _ Doomed => match rc with None => start_recon | Some _ => mret tt end
      | ILocal _ _ _ _ => mret tt
      | IServer (SReload _) _ _ Sent => clear_slot;; uncertain op_id MSG_RELOAD_UNCERTAIN;; suspect
      | IServer (SSave _ _) _ _ Sent =>
        if match rc with Some rc => rc_save_resent rc | None => false end then
          modify (put_recon None);; clear_slot;; uncertain op_id MSG_SAVE_UNCERTAIN;; warn MSG_SAVE_UNCERTAIN
        else
          modify (put_state Uncertain);;
          modify (put_recon (Some (mkRecon op_id 0 None false true [] false)));;
          send_read RSaveCheck (bs "edit.list") (JObj []) DEADLINE_MS
      | IServer _ _ _ Sent => modify (put_state Uncertain);; start_recon
      | IServer _ _ _ _ => mret tt
      end
    end
  end.

Definition send_server (q : QServer) : M G Outgoing :=
  b ← gets m_buffer; rv ← gets m_rev;
  let '(verb, body) := server_body b q in
  let deadline := if bool_decide (verb = bs "edit.save") then DEADLINE_LONG_MS else DEADLINE_MS in
  let wire := mkSentRequest verb body (qs_op_id q) None rv in
  modify (put_inflight (Some (IServer (qs_op q) (qs_intent q) wire Sent)));;
  mret (mkOutgoing verb body (Some (qs_op_id q)) deadline).

Definition send_local (p : Pending) : M G Outgoing :=
  b ← gets m_buffer; rv ← gets m_rev;
  let '(verb, body) := local_body b rv p in
  let wire := mkSentRequest verb body (pd_op_id p) (Some rv) rv in
  modify (put_inflight (Some (ILocal p true wire Sent)));;
  mret (mkOutgoing verb body (Some (pd_op_id p)) DEADLINE_MS).

(** [position] and [remove] of the queued server operation with this id. *)
Fixpoint take_server (id : bytes) (l : list (Z * QServer)) : option (QServer * list (Z * QServer)) :=
  match l with
  | [] => None
  | (n, q) :: l =>
    if bool_decide (qs_op_id q = id) then Some (q, l)
    else '(r, l) ← take_server id l; Some (r, (n, q) :: l)
  end.

Definition next_outgoing : M G (option Outgoing) :=
  live ← gets is_live; inf ← gets m_inflight; kk ← gets m_keep; q ← gets m_queue; so ← gets m_server_ops;
  if negb live || match inf with Some _ => true | None => false end then mret None else
  match kk with
  | Some k =>
    match (current ← km_current k; take_server current so) with
    | Some (s, rest) => modify (put_server_ops rest);; out ← send_server s; mret (Some out)
    | None => mret None
    end
  | None =>
    let server : M G (option Outgoing) :=
      match so with
      | (_, s) :: rest => modify (put_server_ops rest);; out ← send_server s; mret (Some out)
      | [] => mret None
      end in
    match q, so with
    | (a, p) :: rest, (b, _) :: _ =>
      if (a <? b)%Z then modify (put_queue rest);; out ← send_local p; mret (Some out) else server
    | (_, p) :: rest, [] => modify (put_queue rest);; out ← send_local p; mret (Some out)
    | [], _ => server
    end
  end.

Definition on_retry : M G unit :=
  rt ← gets m_retry; inf ← gets m_inflight;
  match rt with
  | Some r =>
    if rt_waiting r then
      modify (put_retry (Some (mkRetry (rt_next_delay r) (rt_unarmed r) false (rt_attempts r))));;
      match inf with Some i => push_out (resend (inflight_wire i)) | None => mret tt end
    else mret tt
  | None => mret tt
  end.

Definition server_op (op : ServerOp) (intent : Intent) (ids : OpIdGen) : M G (bytes * OpIdGen) :=
  let '(ids, op_id) := next_id ids in
  queue_server (mkQServer op intent op_id None None);;
  mret (op_id, ids).

Definition reattach (open : OpenReply) : M G unit :=
  modify (fun m => put_compare_with (Some (read_all (m_text m))) m);;
  modify (put_buffer (or_buffer open));; modify (put_epoch (or_epoch open));; modify (put_rev (or_rev open));;
  modify (put_meta (meta_of open));; modify (put_saved_known false);;
  abandon_pipeline;;
  modify (put_completed Completed_default);; modify (put_cursors []);;
  modify (put_phase (Bootstrapping []));;
  start_pages.

Definition take_theirs : M G unit := modify (put_detached_copy None).

Definition dismiss_conflict (rev : Z) : M G bool :=
  before ← gets m_conflicts;
  let after_ := filter (fun c => cf_rev c <> rev) before in
  modify (put_conflicts after_);;
  mret (negb (length after_ =? length before)).

(** [Option<u64>] ordering: [None] below every [Some]. *)
Definition opt_lt (a b : option Z) : bool :=
  match a, b with None, Some _ => true | Some a, Some b => (a <? b)%Z | _, _ => false end.

Definition note_saved (saved_rev : option Z) (recovered : bool) : M G unit :=
  modify (fun m =>
    if m_saved_known m && opt_lt saved_rev (bm_saved_rev (m_meta m)) then m else
    let k := m_meta m in
    let m := put_saved_known true (put_meta (mkBufferMeta (bm_path k) (bm_name k) (bm_language k) (bm_eol k) (bm_bom k)
               (bm_disk k) (bm_dirty k) saved_rev recovered (bm_recovery_id k)) m) in
    put_dirty (is_dirty m) m).

(** ** Local edits *)

Definition check_item (t : Text G) (r : range) : result unit MirrorError :=
  if (snd r <? fst r) || (len t <? snd r) then Err (InvalidRange r (len t))
  else if negb (is_char_boundary t (fst r)) || negb (is_char_boundary t (snd r)) then Err (NotOnBoundary r)
  else Ok tt.

(** The operations of a long insertion: the first piece replaces the range, each later
    one is inserted behind the one before. *)
Fixpoint piece_ops (intent : Intent) (r : range) (deleted : bytes) (pieces : list bytes) (ids : OpIdGen)
    : list Pending * OpIdGen :=
  match pieces with
  | [] => ([], ids)
  | piece :: pieces =>
    let '(ids, id) := next_id ids in
    let at_ := fst r + length piece in
    let '(ps, ids) := piece_ops intent (at_, at_) [] pieces ids in
    (mkPending id intent [mkItem r piece deleted] false :: ps, ids)
  end.

(** Applies the operations in order; at a refusal the earlier ones are undone. *)
Fixpoint apply_pendings (before : list Pending) (ps : list Pending) (edits : list Edit)
    : M G (result (list Edit) CoreError) :=
  match ps with
  | [] => mret (Ok edits)
  | p :: ps =>
    failed ← apply_view (pending_edits p);
    match failed with
    | Some e =>
      for_each (rev before) (fun done_ => _ ← apply_view (pending_inverse done_); mret tt);;
      mret (Err e)
    | None => apply_pendings (before ++ [p]) ps (edits ++ pending_edits p)
    end
  end.

Fixpoint push_queue (ps : list Pending) m : Mirror G :=
  match ps with
  | [] => m
  | p :: ps =>
    let m := put_fifo (m_fifo m + 1)%Z m in
    push_queue ps (put_queue (m_queue m ++ [(m_fifo m, p)]) m)
  end.

Definition text_bytes (items : list (range * bytes)) : nat := sum_list (map (fun it => length (snd it)) items).

(** What [local_edit] refuses before it changes anything. *)
Definition check_local (t : Text G) (items : list (range * bytes)) : result unit MirrorError :=
  let n := text_bytes items in
  if exceeds (length items) MAX_OPS_PER_TXN || (exceeds n MAX_REQUEST_TEXT_BYTES && (1 <? length items))
  then Err (TooLarge (length items) n)
  else
    let? _ := mapM_res (fun it => check_item t (fst it)) items in
    match txn_sequence items with None => Err ItemsOverlap | Some _ => Ok tt end.

(** The operations a checked edit becomes. *)
Definition local_ops (t : Text G) (e : LocalEdit) (intent : Intent) (ids : OpIdGen) : option (list Pending * OpIdGen) :=
  match led_items e with
  | (r, text) :: _ =>
    if exceeds (text_bytes (led_items e)) MAX_REQUEST_TEXT_BYTES then
      pieces ← cut_chunks (length text) text (Z.to_nat MAX_REQUEST_TEXT_BYTES) false;
      Some (piece_ops intent r (read t (fst r) (snd r) []) pieces ids)
    else
      let '(ids, id) := next_id ids in
      let items := map (fun it => mkItem (fst it) (snd it) (read t (fst (fst it)) (snd (fst it)) [])) (led_items e) in
      Some ([mkPending id intent items (led_coalesce e)], ids)
  | [] => Some ([], ids)
  end.

Definition local_edit (e : LocalEdit) (intent : Intent) (ids : OpIdGen) : M G (result unit MirrorError * OpIdGen) :=
  live ← gets is_live; t ← gets m_text;
  if negb live then mret (Err NotLive, ids)
  else if length (led_items e) =? 0 then mret (Ok tt, ids)
  else match check_local t (led_items e) with
  | Err err => mret (Err err, ids)
  | Ok _ =>
    '(ps, ids) ← lift (local_ops t e intent ids);
    r ← apply_pendings [] ps [];
    match r with
    | Err err => mret (Err (InvalidEdit err), ids)
    | Ok edits =>
      modify (push_queue ps);;
      modify (put_dirty true);;
      push_delta edits (Some (in_origin intent)) DkLocal;;
      mret (Ok tt, ids)
    end
  end.

(** ** Keep mine *)

(** The smallest differing span on character boundaries: [theirs[a..b]] becomes the text. *)
Definition differing_span (mine theirs : bytes) : nat * nat * bytes :=
  let p := floor_prefix mine theirs (common_prefix mine theirs) in
  let max_s := min (length mine - p) (length theirs - p) in
  let s := common_prefix (take max_s (rev mine)) (take max_s (rev theirs)) in
  let s := floor_suffix mine theirs s in
  (p, length theirs - s, slice p (length mine - s) mine).

Fixpoint insert_stages (ids : OpIdGen) (tag : bytes) (at_ : nat) (pieces : list bytes) : list KeepStage * OpIdGen :=
  match pieces with
  | [] => ([], ids)
  | piece :: pieces =>
    let '(ids, id) := next_tagged ids tag in
    let '(rest, ids) := insert_stages ids tag (at_ + length piece) pieces in
    (mkKeepStage id (bs "edit.insert") (at_, at_) piece :: rest, ids)
  end.

Definition keep_stages (ids : OpIdGen) (tag : bytes) (a b : nat) (ins : bytes) : option (list KeepStage * OpIdGen) :=
  if negb (exceeds (length ins) MAX_REQUEST_TEXT_BYTES) then
    let '(ids, id) := next_tagged ids tag in
    Some ([mkKeepStage id (bs "edit.replace") (a, b) ins], ids)
  else
    let '(del, ids) :=
      if a <? b then let '(ids, id) := next_tagged ids tag in ([mkKeepStage id (bs "edit.delete") (a, b) []], ids)
      else ([], ids) in
    pieces ← cut_chunks (length ins) ins (Z.to_nat MAX_REQUEST_TEXT_BYTES) true;
    let '(rest, ids) := insert_stages ids tag a pieces in
    Some (del ++ rest, ids).

Definition keep_mine (intent : Intent) (ids : OpIdGen) : M G OpIdGen :=
  copy ← gets m_detached_copy; idle ← gets is_idle; kk ← gets m_keep; t ← gets m_text; rv ← gets m_rev;
  match copy with
  | None => mret ids
  | Some copy =>
    if negb idle || match kk with Some _ => true | None => false end then warn MsgKeepWaits;; mret ids else
    let '(a, b, ins) := differing_span (dc_text copy) (read_all t) in
    if (a =? b) && (length ins =? 0) then modify (put_detached_copy None);; mret ids else
    modify (fun m => put_keep_count (m_keep_count m + 1)%Z m);;
    n ← gets m_keep_count;
    '(stages, ids) ← lift (keep_stages ids (bs "keep" ++ dec (Z.to_N n)) a b ins);
    modify (put_keep (Some (mkKeepMine intent stages [] None None)));;
    keep_next_stage rv;;
    mret ids
  end.

(** [bootstrap]: the new mirror, with the step of its first page request. *)
Definition opened (open : OpenReply) (text : Text G) : Mirror G :=
  mkMirror (or_buffer open) (or_epoch open) text (or_rev open) 0 None [] [] 0 [] None (meta_of open)
    false None (Bootstrapping []) Completed_default ∅ 0 None None None None None [] false None None 0 [].

Definition bootstrap (open : OpenReply) : result (option (unit * (Mirror G * Step))) CoreError :=
  let? text := Text_new in
  Ok (start_pages (opened open text, Step_default)).
End mirror.
