(* ===== verification/MirrorOt.v ===== *)
(** * Pending operations against a server edit

    The mirror keeps the operations it has applied but the server has not confirmed.  Here: what
    one of them does to a text, a chain of them from the confirmed text to the view, how a
    server edit is carried through the chain while the chain is carried through the edit
    (both ways end in one view), and how an operation is taken back. *)

From S2P Require Import Prelude Utf8 EditBase Ot Anchor GapBuffer Text Buffer BufferSpec BufferUndo Str Json MirrorTypes Mirror.

Lemma Forall_both {A} (P Q R : A -> Prop) l :
  Forall P l -> Forall Q l -> (forall x, P x -> Q x -> R x) -> Forall R l.
Proof. rewrite !Forall_forall. eauto. Qed.

(** ** Replacements in reading order on character boundaries *)

Definition pair_fits (t : bytes) (it : range * bytes) : Prop :=
  is_boundary t (fst (fst it)) = true /\ is_boundary t (snd (fst it)) = true /\ utf8 (snd it).

Definition pairs_ok (t : bytes) (its : list (range * bytes)) : Prop :=
  reading 0 its (length t) /\ Forall (pair_fits t) its.

Definition shift_pair (n : nat) (it : range * bytes) : range * bytes :=
  ((n + fst (fst it), n + snd (fst it)), snd it).

Lemma reading_shift n pos its hi :
  reading pos its hi <-> reading (n + pos) (map (shift_pair n) its) (n + hi).
Proof.
  revert pos; induction its as [|[[s e] x] its IH]; intros pos; cbn; [lia|]. rewrite (IH e). cbn. intuition lia.
Qed.

Lemma rewrite_from_shift a t pos its :
  rewrite_from (a ++ t) (length a + pos) (map (shift_pair (length a)) its) = rewrite_from t pos its.
Proof.
  revert pos; induction its as [|[[s e] x] its IH]; intros pos; cbn.
  - rewrite drop_app_ge by lia. f_equal. lia.
  - rewrite IH. f_equal. unfold slice. rewrite drop_app_ge by lia. f_equal; [lia|f_equal; lia].
Qed.

(** Two texts side by side, each with its own replacements. *)
Lemma pairs_ok_app a c l k :
  utf8 c -> pairs_ok a l -> pairs_ok c k ->
  pairs_ok (a ++ c) (l ++ map (shift_pair (length a)) k) /\
  rewrite_from (a ++ c) 0 (l ++ map (shift_pair (length a)) k) = rewrite_from a 0 l ++ rewrite_from c 0 k.
Proof.
  intros Uc [Rl Fl] [Rk Fk].
  assert (reading (length a) (map (shift_pair (length a)) k) (length (a ++ c))) as Rk'.
  { rewrite length_app. pose proof (proj1 (reading_shift (length a) 0 k (length c)) Rk) as H. by rewrite Nat.add_0_r in H. }
  split.
  - split; [by eapply reading_app_intro|]. apply Forall_app. split.
    + apply reading_Forall in Rl. apply (Forall_both _ _ _ _ Fl Rl).
      cbn. intros it (B1 & B2 & U) (? & ?). split_and!; [rewrite boundary_app_l by (done || lia); done..|done].
    + apply Forall_map. eapply Forall_impl; [exact Fk|]. intros it (B1 & B2 & U). cbn.
      split_and!; [cbn; rewrite boundary_app_r by (done || lia)..|done]; [rewrite <- B1|rewrite <- B2]; f_equal; lia.
  - rewrite (rewrite_from_app (a ++ c) 0 l _ (length a) (length (a ++ c))) by done.
    rewrite take_app_length. f_equal. rewrite <- (rewrite_from_shift a c 0 k). f_equal. lia.
Qed.

(** Replacements that leave the middle of a text alone split at it. *)
Lemma pairs_ok_cut a b c l k :
  utf8 a -> utf8 b -> utf8 c -> pairs_ok (a ++ b ++ c) (l ++ k) ->
  Forall (fun it => snd (fst it) <= length a) l ->
  Forall (fun it => length a + length b <= fst (fst it)) k ->
  pairs_ok a l /\ exists k0, k = map (shift_pair (length (a ++ b))) k0 /\ pairs_ok c k0.
Proof.
  intros Ua Ub Uc [R F] Hl Hk. apply Forall_app in F as [Fl Fk].
  assert (reading 0 l (length a)) as Rl by (apply (reading_app_l _ _ _ _ R); [lia|done]).
  assert (reading (length (a ++ b)) k (length (a ++ b ++ c))) as Rk.
  { apply (reading_app_r _ _ _ _ R); [len|]. eapply Forall_impl; [exact Hk|]. cbn. intros. len. }
  split.
  - split; [done|]. apply reading_Forall in Rl.
    apply (Forall_both _ _ _ _ Fl Rl). cbn. intros it (B1 & B2 & U) (? & ?). rewrite boundary_app_l in B1, B2 by (by apply utf8_app || lia). by split_and!.
  - set (n := length (a ++ b)) in *.
    exists (map (fun it => ((fst (fst it) - n, snd (fst it) - n), snd it)) k).
    assert (k = map (shift_pair n) (map (fun it => ((fst (fst it) - n, snd (fst it) - n), snd it)) k)) as Ek.
    { rewrite map_map. rewrite <- (map_id k) at 1. apply map_ext_Forall. apply reading_Forall in Rk.
      eapply Forall_impl; [exact Rk|]. intros [[s e] x]; cbn. intros. unfold shift_pair; cbn. repeat f_equal; lia. }
    split; [done|]. split.
    + apply (proj2 (reading_shift n 0 _ (length c))). rewrite <- Ek. rewrite Nat.add_0_r.
      replace (n + length c) with (length (a ++ b ++ c)) by (unfold n; len). done.
    + apply Forall_map. apply reading_Forall in Rk.
      apply (Forall_both _ _ _ _ Fk Rk). cbn. intros it (B1 & B2 & U) (? & ?). rewrite app_assoc in B1, B2.
      rewrite boundary_app_r in B1, B2 by (done || unfold n in *; lia). by split_and!.
Qed.

Lemma slice_utf8_prefix t pos its hi :
  utf8 t -> is_boundary t pos = true -> reading pos its hi -> hi <= length t -> Forall (pair_fits t) its ->
  utf8 (rewrite_from t pos its).
Proof.
  intros Ut; revert pos; induction its as [|[[s e] x] its IH]; intros pos Hb R Hhi F; cbn.
  - by apply utf8_split.
  - destruct R as (? & ? & R). inversion F as [|? ? (B1 & B2 & U) F']; subst. cbn in *.
    apply utf8_app; [by apply utf8_slice|]. apply utf8_app; [done|]. by apply IH.
Qed.

Lemma rewrite_utf8 t its : utf8 t -> pairs_ok t its -> utf8 (rewrite_from t 0 its).
Proof. intros Ut [R F]. eapply slice_utf8_prefix; [done|apply is_boundary_0|exact R|done|done]. Qed.

(** ** One server edit and one operation *)

Lemma transform_single s e a b n prio :
  s <= e ->
  transform_through_set (s, e) [((a, b), n)] prio = fst <$> transform_raw (s, e) (mkRaw a (b - a) n) prio.
Proof.
  intros Hse. unfold transform_through_set. cbn [through_set_sums fst snd].
  destruct (transform_raw (s, e) _ prio) as [[[s' e'] d]|] eqn:E; [|done]. cbn.
  apply transform_raw_length in E as [E1 E2]; [|done].
  destruct (_ || _) eqn:B; [lia|]. do 2 f_equal; lia.
Qed.

(** Seen from each other the two lie on opposite sides; the tie rules agree. *)
Lemma sides_opposite s1 e1 n1 s e n r sd r' d :
  s1 <= e1 -> s <= e ->
  transform_raw (s, e) (mkRaw s1 (e1 - s1) n1) SelfFirst = Some (r, sd) ->
  transform_raw (s1, e1) (mkRaw s (e - s) n) ThroughFirst = Some (r', d) -> d = negb sd.
Proof.
  intros H1 H2 E E'. destruct r as [u v], r' as [u' v'].
  pose proof E as Eo. pose proof E' as Eo'.
  apply transform_raw_exact in E; [|lia]. apply transform_raw_exact in E'; [|lia]. cbn [Ot.p Ot.dd Ot.ii] in *.
  destruct d, sd; try done; exfalso;
    assert (e1 = s1 /\ e = s /\ s1 = s) as (-> & -> & ->) by lia;
    unfold transform_raw in Eo, Eo'; guards; try discriminate; lia.
Qed.

(** A server edit [s..e] to [y] of [t], the operation's replacements [its] of [t]: with the operation
    carried through the edit and the edit through the operation, both orders give one text. *)
Lemma set_tp1 t its s e y its' s' e' :
  utf8 t -> utf8 y -> pairs_ok t its -> s <= e -> is_boundary t s = true -> is_boundary t e = true ->
  Forall2 (fun it it' => snd it' = snd it /\
    transform_through_set (fst it) [((s, e), length y)] ThroughFirst = Some (fst it')) its its' ->
  transform_through_set (s, e) (map item_shape its) SelfFirst = Some (s', e') ->
  let t' := splice t s e y in
  let v := rewrite_from t 0 its in
  pairs_ok t' its' /\ rewrite_from t' 0 its' = splice v s' e' y /\
  s' <= e' /\ is_boundary v s' = true /\ is_boundary v e' = true /\
  Forall2 (fun it it' => slice (fst (fst it')) (snd (fst it')) t' = slice (fst (fst it)) (snd (fst it)) t) its its'.
Proof.
  intros Ut Uy Hok Hse Bs Be F2 Hx. cbv zeta.
  unfold transform_through_set in Hx.
  destruct (through_set_sums _ _ _ _ _) as [[ds de]|] eqn:E; [|done]. cbn [mbind option_bind] in Hx.
  destruct (split_sides (s, e) SelfFirst 0 its (length t)) as (l & k & -> & Fl & Fk);
    [done|apply Hok|by eapply through_set_sums_sides|].
  pose proof (reading_Forall _ _ _ (proj1 Hok)) as Ro. apply Forall_app in Ro as [Rl0 Rk0].
  assert (Forall (fun it => snd (fst it) <= s) l) as Hl.
  { apply (Forall_both _ _ _ _ Fl Rl0). intros [[a b] x]; cbn. intros H1 ?. apply side_true_inv in H1; lia. }
  assert (Forall (fun it => e <= fst (fst it)) k) as Hk.
  { eapply Forall_impl; [exact Fk|]. intros [[a b] x]; cbn. intros H1. apply side_false_inv in H1; lia. }
  destruct (utf8_cut2 t s e Ut Hse Bs Be) as (a & b & c & -> & La & Lb & Ua & Ub & Uc).
  destruct (pairs_ok_cut a b c l k Ua Ub Uc Hok) as [Ol (k0 & -> & Ok)].
  { by rewrite La. } { eapply Forall_impl; [exact Hk|]. cbn. lia. }
  assert (reading 0 l s) as Rl by (rewrite <- La; apply Ol).
  rewrite (through_set_sums_split s e SelfFirst 0 l _ s) in E by done. injection E as <- <-.
  destruct (_ || _) eqn:B in Hx; [done|]. injection Hx as <- <-.
  (* the items carried through the edit *)
  apply Forall2_app_inv_l in F2 as (l' & k' & F2l & F2k & ->).
  assert (l' = l) as ->.
  { clear -F2l Fl Rl0 Hse. revert l' F2l; induction Fl as [|[[u v] x] l Hs Fl IH]; intros l' F2; inversion F2 as [|? [[u' v'] x'] ? ? [Ex Et] F2']; subst; [done|].
    inversion Rl0 as [|? ? [? ?] Rl0']; subst. cbn [fst snd] in *. f_equal; [|by apply IH].
    unfold side, item_raw in Hs. cbn [fst snd] in Hs. destruct (transform_raw (s, e) _ _) as [[r d]|] eqn:Er; [|done]. injection Hs as ->.
    rewrite transform_single in Et by lia. destruct (transform_raw (u, v) _ _) as [[r' d']|] eqn:Er'; [|done]. injection Et as ->.
    pose proof (sides_opposite u v (length x) s e (length y) r true _ d' ltac:(lia) Hse Er Er') as ->.
    apply transform_raw_exact in Er' as [(? & _)|(_ & _ & -> & ->)]; [done|by subst|lia]. }
  assert (k' = map (shift_pair (length (a ++ y))) k0) as ->.
  { pose proof (reading_Forall _ _ _ (proj1 Ok)) as Rk. clear -F2k Fk Rk Hse La Lb. apply Forall_map in Fk.
    revert k' F2k; induction Fk as [|[[u v] x] k0 Hs Fk IH]; intros k' F2; inversion F2 as [|? [[u' v'] x'] ? ? [Ex Et] F2']; subst; [done|].
    inversion Rk as [|? ? [? ?] Rk']; subst. unfold shift_pair in Et, Ex, Hs. cbn [fst snd map] in *. rewrite (IH Rk' _ F2'). f_equal.
    unfold side, item_raw in Hs. cbn [fst snd] in Hs. destruct (transform_raw (length a, e) _ _) as [[r d]|] eqn:Er; [|done]. injection Hs as ->.
    rewrite transform_single in Et by lia. destruct (transform_raw (length (a ++ b) + u, _) _ _) as [[r' d']|] eqn:Er'; [|done]. injection Et as ->.
    pose proof (sides_opposite (length (a ++ b) + u) (length (a ++ b) + v) (length x) (length a) e (length y) r false _ d' ltac:(lia) Hse Er Er') as ->.
    apply transform_raw_exact in Er' as [(_ & ? & E1 & E2)|(? & _)]; [|done|lia]. cbn [Ot.p Ot.dd Ot.ii] in *. subst x'.
    rewrite length_app in *. unfold shift_pair; cbn. repeat f_equal; lia. }
  assert (splice (a ++ b ++ c) s e y = (a ++ y) ++ c) as -> by (rewrite <- app_assoc; apply splice_app; lia).
  assert (pairs_ok (a ++ y) l /\ rewrite_from (a ++ y) 0 l = rewrite_from a 0 l ++ y) as [Oy Ey].
  { destruct (pairs_ok_app a y l [] Uy Ol) as [P1 P2]; [split; [cbn; lia|constructor]|].
    cbn [map rewrite_from] in P1, P2. by rewrite app_nil_r in P1, P2. }
  destruct (pairs_ok_app (a ++ y) c l k0 Uc Oy Ok) as [P1 P2].
  assert (pairs_ok (a ++ b) l /\ rewrite_from (a ++ b) 0 l = rewrite_from a 0 l ++ b) as [Ob Eb].
  { destruct (pairs_ok_app a b l [] Ub Ol) as [Q1 Q2]; [split; [cbn; lia|constructor]|].
    cbn [map rewrite_from] in Q1, Q2. by rewrite app_nil_r in Q1, Q2. }
  destruct (pairs_ok_app (a ++ b) c l k0 Uc Ob Ok) as [Q1 Q2]. rewrite <- (app_assoc a b c) in Q2.
  rewrite P2, Q2, Ey, Eb.
  assert (Z.of_nat (length (rewrite_from a 0 l)) = Z.of_nat s + growth l)%Z as La'.
  { rewrite length_rewrite_from by apply Ol. lia. }
  pose proof (rewrite_utf8 a l Ua Ol) as Ual. pose proof (rewrite_utf8 c k0 Uc Ok) as Uck.
  split_and!.
  - done.
  - rewrite <- !app_assoc. symmetry. apply splice_app; lia.
  - lia.
  - rewrite <- !app_assoc. rewrite boundary_app_l by (by apply utf8_app || lia). replace (Z.to_nat _) with (length (rewrite_from a 0 l)) by lia. apply is_boundary_len.
  - rewrite boundary_app_l by (done || rewrite length_app; lia).
    replace (Z.to_nat _) with (length (rewrite_from a 0 l ++ b)) by (rewrite length_app; lia). apply is_boundary_len.
  - rewrite (app_assoc a b c). apply Forall2_app.
    + clear -Hl La. induction l as [|[[u v] x] l IH]; [constructor|]. inversion Hl; subst. constructor; [|by apply IH].
      cbn in *. rewrite <- !(app_assoc a). unfold slice.
      destruct (decide (u <= length a)); [|by replace (v - u) with 0 by lia]. rewrite !drop_app_le by lia. rewrite !take_app_le by (rewrite length_drop; lia). done.
    + clear. induction k0 as [|[[u v] x] k0 IH]; [constructor|]. constructor; [|apply IH].
      cbn. unfold slice. rewrite !drop_app_ge by lia. f_equal; [lia|f_equal; lia].
Qed.

(** ** A chain of operations from the confirmed text to the view *)

Definition item_pairs (items : list Item) : list (range * bytes) := map item_pair items.
Definition apply_items (t : bytes) (items : list Item) : bytes := rewrite_from t 0 (item_pairs items).

Definition items_ok (t : bytes) (items : list Item) : Prop :=
  pairs_ok t (item_pairs items) /\
  Forall (fun it => it_deleted it = slice (fst (it_range it)) (snd (it_range it)) t) items.

Fixpoint chain (t : bytes) (ops : list (list Item)) (v : bytes) : Prop :=
  match ops with
  | [] => t = v
  | items :: ops => items_ok t items /\ chain (apply_items t items) ops v
  end.

Lemma items_ok_utf8 t items : utf8 t -> items_ok t items -> utf8 (apply_items t items).
Proof. intros Ut [H _]. by apply rewrite_utf8. Qed.

Lemma chain_utf8 t ops v : utf8 t -> chain t ops v -> utf8 v.
Proof.
  revert t; induction ops as [|items ops IH]; cbn; intros t Ut; [by intros <-|].
  intros [Ho Hc]. eapply IH; [|exact Hc]. by apply items_ok_utf8.
Qed.

Lemma chain_app t l k v : chain t (l ++ k) v <-> exists m, chain t l m /\ chain m k v.
Proof.
  revert t; induction l as [|items l IH]; cbn; intros t; [split; [eauto|by intros (m & -> & H)]|].
  rewrite IH. naive_solver.
Qed.

Lemma shapes_before items :
  map (fun it => (it_range it, length (it_text it))) items = map item_shape (item_pairs items).
Proof. unfold item_pairs. rewrite map_map. by apply map_ext. Qed.

Lemma mapM_put_range (f : range -> option range) items items' :
  mapM (fun it => put_range it <$> f (it_range it)) items = Some items' ->
  Forall2 (fun it it' => it_text it' = it_text it /\ it_deleted it' = it_deleted it /\ f (it_range it) = Some (it_range it')) items items'.
Proof.
  intros H%mapM_Some. eapply Forall2_impl; [exact H|]. cbn. intros it it' (r & Hr & ->)%fmap_Some. done.
Qed.

Lemma fold_op_exact t items s e y x' items' :
  utf8 t -> utf8 y -> items_ok t items -> s <= e -> is_boundary t s = true -> is_boundary t e = true ->
  fold_op (s, e) (length y) items = Some (x', items') ->
  items_ok (splice t s e y) items' /\
  apply_items (splice t s e y) items' = splice (apply_items t items) (fst x') (snd x') y /\
  fst x' <= snd x' /\ is_boundary (apply_items t items) (fst x') = true /\ is_boundary (apply_items t items) (snd x') = true.
Proof.
  intros Ut Uy [Hok Hdel] Hse Bs Be H. unfold fold_op in H.
  apply bind_Some in H as (items1 & Hm & H). apply bind_Some in H as ([s' e'] & Hx & [= <- <-]).
  rewrite shapes_before in Hx. apply (mapM_put_range (fun r => transform_through_set r [((s, e), length y)] ThroughFirst)) in Hm.
  destruct (set_tp1 t (item_pairs items) s e y (item_pairs items1) s' e') as (P1 & P2 & P3 & P4 & P5 & P6); try done.
  { unfold item_pairs. apply Forall2_fmap. eapply Forall2_impl; [exact Hm|]. cbn. naive_solver. }
  split_and!; [split; [exact P1|]|done..]. unfold item_pairs in P6. apply (proj1 (Forall2_fmap _ _ _ _ _)) in P6. clear -Hdel Hm P6.
  revert Hdel P6. induction Hm as [|it it' items items1 Hd Hm IH]; intros Hdel P6; [constructor|].
  apply Forall_cons in Hdel as [D1 D2]. apply Forall2_cons in P6 as [E1 E2]. destruct Hd as (_ & Ed & _).
  constructor; [|by apply IH]. cbn in *. congruence.
Qed.

Lemma fold_ops_exact t ops v s e y j x' ops' :
  utf8 t -> utf8 y -> chain t ops v -> s <= e -> is_boundary t s = true -> is_boundary t e = true ->
  fold_ops (s, e) (length y) j ops = Ok (x', ops') ->
  chain (splice t s e y) ops' (splice v (fst x') (snd x') y) /\
  fst x' <= snd x' /\ is_boundary v (fst x') = true /\ is_boundary v (snd x') = true.
Proof.
  revert t s e j x' ops'; induction ops as [|items ops IH]; intros t s e j x' ops' Ut Uy Hc Hse Bs Be H; cbn in H, Hc.
  { injection H as <- <-. subst v. done. }
  destruct Hc as [Ho Hc]. destruct (fold_op (s, e) (length y) items) as [[[s1 e1] items1]|] eqn:Ef; [|done].
  run_inv H. destruct x as [x2 ops2]. injection H as <- <-.
  destruct (fold_op_exact t items s e y _ _ Ut Uy Ho Hse Bs Be Ef) as (P1 & P2 & P3 & P4 & P5). cbn in P2, P3, P4, P5.
  destruct (IH _ s1 e1 (S j) x2 ops2 (items_ok_utf8 _ _ Ut Ho) Uy Hc P3 P4 P5 Hx) as (Q1 & Q2).
  split; [|done]. cbn. by rewrite P2.
Qed.

(** Every edit of a server entry, each through the whole chain. *)
Lemma fold_steps_exact edits t ops v out ops' :
  utf8 t -> edits_ok t edits -> chain t ops v ->
  fold_steps edits ops = Ok (out, ops') ->
  chain (apply_seq t edits) ops' (apply_seq v out) /\ edits_ok v out /\ Forall2 (fun r x => e_insert x = e_insert r) edits out.
Proof.
  revert t ops v out ops'; induction edits as [|r edits IH]; intros t ops v out ops' Ut He Hc H; cbn in H.
  { injection H as <- <-. done. }
  destruct He as [(Ui & B1 & B2) He]. run_inv H. destruct x as [[s' e'] ops1]. run_inv H. destruct x as [out1 ops2]. injection H as <- <-.
  destruct (fold_ops_exact t ops v (e_offset r) (e_offset r + e_delete r) (e_insert r) 0 _ _ Ut Ui Hc ltac:(lia) B1 B2 Hx) as (P1 & P2 & P3 & P4). cbn in P1, P2, P3, P4.
  pose proof (is_boundary_le _ _ P4) as Hle.
  assert (apply_edit v (mkEdit s' (e' - s') (e_insert r)) = splice v s' e' (e_insert r)) as Ev.
  { unfold apply_edit; cbn [e_offset e_delete e_insert]. by replace (s' + (e' - s')) with e' by lia. }
  destruct (IH (apply_edit t r) ops1 (apply_edit v (mkEdit s' (e' - s') (e_insert r))) out1 ops2) as (Q1 & Q2 & Q3); try done.
  { by apply utf8_splice. }
  { by rewrite Ev. }
  cbn [edits_ok]. split_and!; [exact Q1| |exact Q2|by constructor].
  split_and!; [done|done|]. cbn. by replace (s' + (e' - s')) with e' by lia.
Qed.

(** A failure names an operation of the chain. *)
Lemma fold_ops_err x ii j ops k : fold_ops x ii j ops = Err k -> j <= k < j + length ops.
Proof.
  revert x j; induction ops as [|items ops IH]; intros x j H; cbn in H; [done|].
  destruct (fold_op x ii items) as [[x1 items1]|]; [|injection H as <-; cbn; lia].
  apply result_bind_Err in H as [H|([? ?] & _ & H)]; [|done]. apply IH in H. cbn. lia.
Qed.

Lemma fold_ops_length x ii j ops x' ops' : fold_ops x ii j ops = Ok (x', ops') -> length ops' = length ops.
Proof.
  revert x j x' ops'; induction ops as [|items ops IH]; intros x j x' ops' H; cbn in H; [by injection H as <- <-|].
  destruct (fold_op x ii items) as [[x1 items1]|]; [|done]. run_inv H. destruct x0 as [x2 ops2].
  injection H as <- <-. cbn. f_equal. by eapply IH.
Qed.

Lemma fold_steps_err edits ops k : fold_steps edits ops = Err k -> k < length ops.
Proof.
  revert ops; induction edits as [|r edits IH]; intros ops H; cbn in H; [done|].
  apply result_bind_Err in H as [H%fold_ops_err|([x ops1] & Hx & H)]; [lia|].
  apply result_bind_Err in H as [H|([? ?] & _ & H)]; [|done]. apply fold_ops_length in Hx. apply IH in H. lia.
Qed.

Lemma fold_steps_length edits ops out ops' : fold_steps edits ops = Ok (out, ops') -> length ops' = length ops.
Proof.
  revert ops out ops'; induction edits as [|r edits IH]; intros ops out ops' H; cbn in H; [by injection H as <- <-|].
  run_inv H. destruct x as [x ops1]. run_inv H. destruct x0 as [out1 ops2]. injection H as <- <-.
  apply fold_ops_length in Hx. apply IH in Hx0. lia.
Qed.

(** ** The server's rebase *)

(** An operation's items carried through edits as the server carries them. *)
Definition rebase_edits (items : list Item) (edits : list Edit) : option (list Item) :=
  mapM (fun it => put_range it <$> transform_range_seq (it_range it) edits ThroughFirst) items.

Definition ordered_items (items : list Item) : Prop := Forall (fun it => fst (it_range it) <= snd (it_range it)) items.

Lemma items_ok_ordered t items : items_ok t items -> ordered_items items.
Proof.
  intros [[R _] _]. apply reading_Forall in R. unfold item_pairs in R. apply Forall_map in R.
  eapply Forall_impl; [exact R|]. cbn. lia.
Qed.

Lemma rebase_edits_nil items : rebase_edits items [] = Some items.
Proof. apply mapM_Some. induction items as [|[]]; constructor; done. Qed.

Lemma rebase_edits_app items items1 items2 es fs :
  rebase_edits items es = Some items1 -> rebase_edits items1 fs = Some items2 -> rebase_edits items (es ++ fs) = Some items2.
Proof.
  unfold rebase_edits. rewrite !mapM_Some. intros H1; revert items2; induction H1 as [|it it1 items items1 E H1 IH];
    intros items2 H2; inversion H2 as [|? it2 ? items3 E2 H3]; subst; constructor; [|by apply IH].
  rewrite transform_range_seq_app. apply fmap_Some in E as (r1 & -> & ->). cbn in *.
  apply fmap_Some in E2 as (r2 & -> & ->). done.
Qed.

(** The first operation of the chain meets the server's edits as they are. *)
Lemma fold_ops_head r items ops x' ops' :
  ordered_items items ->
  fold_ops (e_offset r, e_offset r + e_delete r) (length (e_insert r)) 0 (items :: ops) = Ok (x', ops') ->
  exists items' rest, ops' = items' :: rest /\ rebase_edits items [r] = Some items' /\ ordered_items items'.
Proof.
  intros Ho H. cbn in H. destruct (fold_op _ _ items) as [[x1 items1]|] eqn:E; [|done].
  run_inv H. destruct x as [x2 ops2]. injection H as <- <-. exists items1, ops2. split; [done|].
  unfold fold_op in E. apply bind_Some in E as (items2 & Hm & E). apply bind_Some in E as (x3 & _ & [= <- <-]).
  unfold rebase_edits. rewrite mapM_Some in Hm |- *. clear -Ho Hm. unfold ordered_items in *.
  induction Hm as [|it it' items items' E Hm IH]; [by split; constructor|]. inversion Ho as [|? ? H1 H2]; subst.
  destruct (IH H2) as [I1 I2]. destruct it as [[s e] x d]. cbn [it_range fst snd] in *.
  rewrite transform_single in E by done. replace (e_offset r + e_delete r - e_offset r) with (e_delete r) in E by lia.
  destruct (transform_raw (s, e) _ _) as [[[s' e'] b]|] eqn:Er; [|done]. injection E as <-.
  split; constructor; try done; [cbn; unfold transform_range, RawEdit_of; by rewrite Er|]. cbn. by apply transform_raw_length in Er as [? _].
Qed.

Lemma fold_steps_head edits items ops out ops' :
  ordered_items items -> fold_steps edits (items :: ops) = Ok (out, ops') ->
  exists items' rest, ops' = items' :: rest /\ rebase_edits items edits = Some items'.
Proof.
  revert items ops out ops'; induction edits as [|r edits IH]; intros items ops out ops' Ho H; cbn [fold_steps] in H.
  { injection H as <- <-. exists items, ops. by rewrite rebase_edits_nil. }
  run_inv H. destruct x as [x ops1]. run_inv H. destruct x0 as [out1 ops2]. injection H as <- <-.
  destruct (fold_ops_head r items ops x ops1 Ho Hx) as (items1 & rest & -> & E & Ho1).
  destruct (IH items1 rest out1 ops2 Ho1 Hx0) as (items2 & rest2 & -> & E2).
  exists items2, rest2. split; [done|]. by apply (rebase_edits_app items items1 items2 [r] edits).
Qed.

(** ** Applying an operation and taking it back *)

Definition edit_of (it : Item) : Edit := item_edit (item_pair it).
Definition undo_of (it : Item) : Edit := mkEdit (fst (it_range it)) (length (it_text it)) (it_deleted it).

Lemma reading_txn its hi :
  reading 0 its hi ->
  txn_sequence its = Some (rev (imap (fun i it => (i, item_edit it)) its)).
Proof.
  intros R. pose proof (reading_Forall _ _ _ R) as F. unfold txn_sequence.
  assert (existsb (fun it => snd (fst it) <? fst (fst it)) its = false) as ->.
  { apply not_true_iff_false. intros (it & Hin & H)%existsb_exists. rewrite Forall_forall in F.
    specialize (F it). rewrite list_elem_of_In in F. specialize (F Hin). lia. }
  assert (first_overlap (map fst its) = None) as ->.
  { apply first_overlap_None; [|by eapply reading_apart]. apply Forall_map. eapply Forall_impl; [exact F|]. cbn. lia. }
  cbn [orb]. f_equal.
  pose proof (reading_rev_canonical its) as E.
  rewrite (stable_sort_id _ (indexed its)) in E by (by eapply reading_sorted).
  apply (f_equal (@rev _)) in E. rewrite rev_involutive in E. rewrite <- E, map_rev. f_equal.
  unfold indexed. clear. apply list_eq. intros i. change (map ?f ?l) with (f <$> l). rewrite list_lookup_fmap, list_lookup_imap.
  destruct (its !! i) as [[[s e] x]|] eqn:Hi.
  - assert (zip (seq 0 (length its)) its !! i = Some (i, ((s, e), x))) as ->; [|done].
    apply lookup_zip_Some. split; [|done]. cbn. apply lookup_lt_Some in Hi. by rewrite lookup_seq_lt.
  - cbn. assert (zip (seq 0 (length its)) its !! i = None) as ->; [|done].
    apply lookup_ge_None. rewrite length_zip_with. apply lookup_ge_None in Hi. rewrite length_seq. lia.
Qed.

Lemma pending_seq_reading p hi :
  reading 0 (item_pairs (pd_items p)) hi ->
  pending_seq p = rev (imap (fun i it => (i, edit_of it)) (pd_items p)).
Proof.
  intros R. unfold pending_seq. fold (item_pairs (pd_items p)). rewrite (reading_txn _ hi) by done.
  unfold item_pairs. change (map ?f ?l) with (f <$> l). by rewrite imap_fmap.
Qed.

Lemma pending_edits_reading p hi :
  reading 0 (item_pairs (pd_items p)) hi -> pending_edits p = rev (map edit_of (pd_items p)).
Proof.
  intros R. unfold pending_edits. rewrite (pending_seq_reading p hi) by done. rewrite map_rev. f_equal.
  change (map snd ?l) with (snd <$> l). rewrite fmap_imap. clear. induction (pd_items p) as [|x l IH] using rev_ind; [done|].
  rewrite imap_app, map_app. by rewrite IH.
Qed.

Lemma pending_inverse_reading p hi :
  reading 0 (item_pairs (pd_items p)) hi -> pending_inverse p = map undo_of (pd_items p).
Proof.
  intros R. unfold pending_inverse. rewrite (pending_seq_reading p hi) by done. rewrite rev_involutive.
  apply list_eq. intros i. change (map ?f ?l) with (f <$> l). rewrite !list_lookup_fmap, list_lookup_imap.
  destruct (pd_items p !! i) as [it|] eqn:Hi; [|done]. cbn. by rewrite Hi.
Qed.

Lemma reading_canonical l hi : reading 0 (map item_pair l) hi -> canonical_seq hi (rev (map edit_of l)).
Proof.
  revert hi; induction l as [|it l IH] using rev_ind; intros hi R; [done|].
  rewrite map_app, rev_app_distr. cbn. rewrite map_app in R. cbn in R.
  assert (forall pos, reading pos (map item_pair l ++ [item_pair it]) hi ->
    reading pos (map item_pair l) (fst (it_range it)) /\ fst (it_range it) <= snd (it_range it) <= hi) as K.
  { clear. induction l as [|[[s e] x d] l IH]; cbn; intros pos H.
    - unfold item_pair in H. destruct it as [[s e] x d]. cbn in *. lia.
    - destruct H as (? & ? & H). destruct (IH _ H) as [? ?]. done. }
  destruct (K 0 R) as [K1 K2]. split; [lia|]. by apply IH.
Qed.

(** The steps of an operation apply in one canonical sequence and give its simultaneous rewrite. *)
Lemma pending_edits_exact t p :
  items_ok t (pd_items p) ->
  apply_seq t (pending_edits p) = apply_items t (pd_items p) /\ inserts_utf8 (pending_edits p).
Proof.
  intros [[R F] _]. pose proof (reading_Forall _ _ _ R) as Fr. rewrite (pending_edits_reading p (length t)) by done. split.
  - pose proof (reading_canonical _ _ R) as Hc.
    rewrite apply_seq_rewrite by done. unfold apply_items. f_equal. rewrite map_rev, rev_involutive, map_map.
    unfold item_pairs in *. apply Forall_map in Fr. apply map_ext_Forall. eapply Forall_impl; [exact Fr|].
    intros [[s e] x d]; cbn. intros. unfold edit_item, item_pair; cbn. repeat f_equal. lia.
  - apply Forall_rev, Forall_map. unfold item_pairs in F. rewrite Forall_map in F.
    eapply Forall_impl; [exact F|]. by intros [[s e] x d] (_ & _ & U).
Qed.

(** Texts an operation is taken back through: replaced up to [pos], as before from there. *)
Definition half_undone (t : bytes) (pos : nat) (items : list Item) : bytes :=
  take pos t ++ rewrite_from t pos (item_pairs items).

Lemma undo_step t pos it items :
  utf8 t -> reading pos (item_pairs (it :: items)) (length t) -> Forall (pair_fits t) (item_pairs (it :: items)) ->
  is_boundary t pos = true ->
  it_deleted it = slice (fst (it_range it)) (snd (it_range it)) t ->
  edit_ok (half_undone t pos (it :: items)) (undo_of it) /\
  apply_edit (half_undone t pos (it :: items)) (undo_of it) = half_undone t (snd (it_range it)) items.
Proof.
  destruct it as [[s e] x d]. unfold half_undone, undo_of, item_pairs, item_pair, edit_ok, apply_edit.
  cbn [map rewrite_from it_range it_text it_deleted fst snd e_offset e_delete e_insert reading].
  intros Ut (H1 & H2 & R) F Bp ->. inversion F as [|? ? (B1 & B2 & Ux) F']; subst. cbn [fst snd] in *.
  pose proof (is_boundary_le _ _ B2) as He.
  assert (utf8 (rewrite_from t e (map item_pair items))) as Ur.
  { eapply slice_utf8_prefix; [done|done|exact R|done|done]. }
  assert (take pos t ++ slice pos s t = take s t) as E1.
  { rewrite <- (take_drop pos t) at 3. rewrite take_app_ge by (rewrite length_take; lia).
    rewrite length_take_le by lia. done. }
  rewrite !app_assoc, E1, <- !app_assoc.
  assert (utf8 (take s t)) as Us by (by apply utf8_split).
  assert (length (take s t) = s) as Ls by (rewrite length_take; lia).
  split.
  - split_and!.
    + by apply utf8_slice.
    + rewrite boundary_app_l by (by apply utf8_app || lia). rewrite <- Ls at 2. apply is_boundary_len.
    + rewrite app_assoc, boundary_app_l by (done || rewrite length_app; lia).
      replace (s + length x) with (length (take s t ++ x)) by (rewrite length_app; lia). apply is_boundary_len.
  - rewrite splice_app by lia. rewrite app_assoc. f_equal.
    unfold slice. rewrite <- (take_drop s t) at 3. rewrite take_app_ge by lia. by rewrite Ls.
Qed.

Lemma undo_all t pos items :
  utf8 t -> reading pos (item_pairs items) (length t) -> Forall (pair_fits t) (item_pairs items) ->
  is_boundary t pos = true ->
  Forall (fun it => it_deleted it = slice (fst (it_range it)) (snd (it_range it)) t) items ->
  edits_ok (half_undone t pos items) (map undo_of items) /\
  apply_seq (half_undone t pos items) (map undo_of items) = t.
Proof.
  intros Ut; revert pos; induction items as [|it items IH]; intros pos R F Bp D.
  { cbn. split; [done|]. unfold half_undone. cbn. apply take_drop. }
  inversion D as [|? ? D1 D2]; subst.
  destruct (undo_step t pos it items Ut R F Bp D1) as [S1 S2]. cbn [map edits_ok apply_seq foldl].
  change (foldl apply_edit ?a ?l) with (apply_seq a l). rewrite S2.
  destruct it as [[s e] x d]. cbn [it_range snd]. destruct R as (? & ? & R). inversion F as [|? ? (B1 & B2 & Ux) F']; subst.
  destruct (IH e R F' B2 D2) as [I1 I2]. done.
Qed.

(** [Pending::inverse] takes the operation back. *)
Lemma inverse_exact t p :
  utf8 t -> items_ok t (pd_items p) ->
  edits_ok (apply_items t (pd_items p)) (pending_inverse p) /\
  apply_seq (apply_items t (pd_items p)) (pending_inverse p) = t.
Proof.
  intros Ut [[R F] D]. rewrite (pending_inverse_reading p (length t)) by done.
  apply (undo_all t 0 (pd_items p) Ut R F (is_boundary_0 t) D).
Qed.

(** ** How large the texts on the way are *)

Section measure.
Context (mu : bytes -> nat) (mu_app : forall a b, mu (a ++ b) = mu a + mu b).

Definition ops_weight (ops : list (list Item)) : nat :=
  sum_list (map (fun items => sum_list (map (fun it => mu (it_text it)) items)) ops).

Lemma half_undone_weight t pos items :
  reading pos (item_pairs items) (length t) ->
  mu (half_undone t pos items) <= mu t + sum_list (map (fun it => mu (it_text it)) items).
Proof.
  unfold half_undone. revert pos; induction items as [|[[s e] x d] items IH]; intros pos R.
  { cbn. rewrite take_drop. lia. }
  destruct R as (H1 & H2 & R). specialize (IH e R). rewrite mu_app in IH.
  unfold item_pairs, item_pair in *. cbn [map it_range it_text fst snd rewrite_from sum_list_with id] in *. rewrite !mu_app.
  assert (mu (take e t) = mu (take pos t) + mu (slice pos s t) + mu (slice s e t)) as E.
  { rewrite <- !mu_app. f_equal. rewrite <- (take_drop pos (take e t)), take_take, Nat.min_l by lia.
    rewrite <- app_assoc. f_equal. rewrite <- slice_split by lia. unfold slice. by rewrite skipn_firstn_comm. }
  lia.
Qed.

Lemma apply_items_weight t items :
  items_ok t items -> mu (apply_items t items) <= mu t + sum_list (map (fun it => mu (it_text it)) items).
Proof. intros [[R _] _]. apply (half_undone_weight t 0 items R). Qed.

Lemma chain_weight t ops v : chain t ops v -> mu v <= mu t + ops_weight ops.
Proof.
  unfold ops_weight. revert t; induction ops as [|items ops IH]; cbn; intros t; [intros <-; lia|].
  intros [Ho Hc]. apply IH in Hc. apply apply_items_weight in Ho. lia.
Qed.

Lemma ops_weight_app l k : ops_weight (l ++ k) = ops_weight l + ops_weight k.
Proof. unfold ops_weight. rewrite map_app. by rewrite sum_list_with_app || (induction (map _ l); cbn; lia). Qed.
End measure.

(** The text and every pending insertion together fit the limits of a text. *)
Definition roomy (t : bytes) (ops : list (list Item)) : Prop :=
  (Z.of_nat (length t + ops_weight length ops) <= MAX_BUFFER_BYTES)%Z /\
  (Z.of_nat (S (count_newlines t + ops_weight count_newlines ops)) <= MAX_LINES)%Z.

Lemma roomy_prefix t l k : roomy t (l ++ k) -> roomy t l.
Proof. unfold roomy. rewrite !ops_weight_app. lia. Qed.

Lemma chain_snoc t l items v :
  chain t (l ++ [items]) v <-> exists m, chain t l m /\ items_ok m items /\ v = apply_items m items.
Proof. rewrite chain_app. cbn. naive_solver. Qed.

(** While the last operation of the chain is taken back every text fits. *)
Lemma undo_within t l p v :
  utf8 t -> chain t (l ++ [pd_items p]) v -> roomy t (l ++ [pd_items p]) -> seq_within v (pending_inverse p).
Proof.
  intros Ut (w & Hc & Ho & ->)%chain_snoc [R1 R2].
  pose proof (chain_utf8 _ _ _ Ut Hc) as Uw.
  pose proof (chain_weight length (@length_app _) t l w Hc) as W1.
  pose proof (chain_weight count_newlines count_newlines_app t l w Hc) as W2.
  rewrite !ops_weight_app in R1, R2. destruct Ho as [[R F] D].
  rewrite (pending_inverse_reading p (length w)) by done. unfold ops_weight in R1, R2. cbn in R1, R2. rewrite Nat.add_0_r in R1, R2.
  change (apply_items w (pd_items p)) with (half_undone w 0 (pd_items p)).
  fold (ops_weight length l) in R1. fold (ops_weight count_newlines l) in R2.
  revert R F D R1 R2. generalize (is_boundary_0 w). generalize 0 as pos. generalize (pd_items p) as items.
  induction items as [|it items IH]; intros pos Bp R F D R1 R2; [done|].
  inversion D as [|? ? D1 D2]; subst. destruct (undo_step w pos it items Uw R F Bp D1) as [_ S2].
  cbn [map seq_within]. rewrite S2. destruct it as [[s e] x d]. destruct R as (? & ? & R). inversion F as [|? ? (B1 & B2 & Ux) F']; subst.
  cbn [map it_range it_text fst snd sum_list_with id] in *.
  pose proof (half_undone_weight length (@length_app _) w e items R) as Q1.
  pose proof (half_undone_weight count_newlines count_newlines_app w e items R) as Q2.
  split_and!; [lia|lia|]. apply IH; try done; lia.
Qed.
