(* ===== verification/MirrorInv.v ===== *)
(** * The mirror's invariant

    Against the server's history [H] (the text it started from and every entry it committed):
    while a mirror is live or recovering from history, its view is the server's text at its
    revision with the pending operations applied in order, and the operation in flight is
    what the server would make of the request that was sent.  Handlers are run by a
    postcondition judgement [wp], which also says that they do not panic. *)

From S2P Require Import Prelude Utf8 EditBase Ot Anchor GapBuffer Memory Text Buffer BufferSpec Str Json MirrorTypes Mirror MirrorOt.

(** ** Running handlers *)

Definition wp {G A} (c : M G A) (Q : A -> Mirror G -> Step -> Prop) (m : Mirror G) (s : Step) : Prop :=
  match c (m, s) with Some (a, (m', s')) => Q a m' s' | None => False end.

Section wp.
Context {G : Type}.
Implicit Types m : Mirror G.
Implicit Types s : Step.

Lemma wp_mono {A} (c : M G A) (Q R : A -> Mirror G -> Step -> Prop) m s :
  wp c Q m s -> (forall a m' s', Q a m' s' -> R a m' s') -> wp c R m s.
Proof. unfold wp. destruct (c (m, s)) as [[a [m' s']]|]; eauto. Qed.

Lemma wp_run {A} (c : M G A) (Q : A -> Mirror G -> Step -> Prop) m s a m' s' :
  wp c Q m s -> c (m, s) = Some (a, (m', s')) -> Q a m' s'.
Proof. unfold wp. intros K E. by rewrite E in K. Qed.

Lemma wp_total {A} (c : M G A) (Q : A -> Mirror G -> Step -> Prop) m s :
  wp c Q m s -> exists a m' s', c (m, s) = Some (a, (m', s')) /\ Q a m' s'.
Proof. unfold wp. destruct (c (m, s)) as [[a [m' s']]|]; [eauto|done]. Qed.

Lemma wp_bind {A B} (c : M G A) (k : A -> M G B) Q m s :
  wp c (fun a m' s' => wp (k a) Q m' s') m s -> wp (c ≫= k) Q m s.
Proof. unfold wp, mbind, M_bind. by destruct (c (m, s)) as [[a [m' s']]|]. Qed.

Lemma wp_ret {A} (a : A) (Q : A -> Mirror G -> Step -> Prop) m s : Q a m s -> wp (mret a) Q m s.
Proof. done. Qed.
Lemma wp_gets {A} (f : Mirror G -> A) Q m s : Q (f m) m s -> wp (gets f) Q m s.
Proof. done. Qed.
Lemma wp_modify f Q m s : Q tt (f m) s -> wp (modify f) Q m s.
Proof. done. Qed.
Lemma wp_lift {A} (a : A) Q m s : Q a m s -> wp (lift (Some a)) Q m s.
Proof. done. Qed.
Lemma wp_push_view d Q m s : (forall s', Q tt m s') -> wp (push_view d) Q m s.
Proof. unfold wp, push_view. eauto. Qed.
Lemma wp_push_out o Q m s : (forall s', Q tt m s') -> wp (push_out o) Q m s.
Proof. unfold wp, push_out. eauto. Qed.
Lemma wp_push_notice n Q m s : (forall s', Q tt m s') -> wp (push_notice n) Q m s.
Proof. unfold wp, push_notice. eauto. Qed.
Lemma wp_when b c Q m s : (b = true -> wp c Q m s) -> (b = false -> Q tt m s) -> wp (when b c) Q m s.
Proof. destruct b; cbn; auto. Qed.
End wp.

(** One step of a handler. *)
Ltac wp1 :=
  lazymatch goal with
  | |- wp (_ ≫= _) _ _ _ => apply wp_bind
  | |- wp (mret _) _ _ _ => apply wp_ret
  | |- wp (gets _) _ _ _ => apply wp_gets; cbv beta
  | |- wp (modify _) _ _ _ => apply wp_modify; cbv beta
  | |- wp (push_view _) _ _ _ => apply wp_push_view; intro
  | |- wp (push_out _) _ _ _ => apply wp_push_out; intro
  | |- wp (push_notice _) _ _ _ => apply wp_push_notice; intro
  | |- wp (warn _) _ _ _ => apply wp_push_notice; intro
  | |- wp (lift (Some _)) _ _ _ => apply wp_lift
  end.
Ltac wps := repeat (wp1; cbv beta).

(** ** Applying edits to the view *)

Section text.
Context {G : Type} {TS : TextStore G} {SL : TextStoreLaws G} {ENV : MirrorEnv}.
Implicit Types t : Text G.

Lemma apply_once_inv t es :
  text_wf t -> inserts_utf8 es ->
  exists t' r, apply_once t es = Some (t', r) /\ text_wf t' /\ (r = None -> text t' = apply_seq (text t) es).
Proof.
  intros W U. unfold apply_once. pose proof (prepare_inv env_reserve t es W U) as K.
  destruct (prepare env_reserve t es) as [t1 [p|e]]; [|destruct K as (K & _); by exists t1, (Some e)].
  destruct K as (W1 & E1 & Ep & _ & _ & _ & _ & n & Fit & Room).
  destruct (commit_fits t1 n es W1 U Room) as (t2 & C & W2 & E2 & _); [by rewrite E1|].
  exists t2, None. unfold commit. rewrite Ep, C. cbn. split_and!; [done|done|]. intros _. by rewrite E2, E1.
Qed.

Lemma apply_each_inv t es :
  text_wf t -> inserts_utf8 es ->
  exists t' r, apply_each t es = Some (t', r) /\ text_wf t' /\ (r = None -> text t' = apply_seq (text t) es).
Proof.
  intros W U; revert t W; induction U as [|e es Ue U IH]; intros t W; cbn [apply_each]; [by exists t, None|].
  destruct (apply_once_inv t [e] W) as (t1 & r & -> & W1 & E1); [by constructor|]. cbn [mbind option_bind].
  destruct r as [err|]; [by exists t1, (Some err)|].
  destruct (IH t1 W1) as (t2 & r & -> & W2 & E2). exists t2, r. split_and!; [done|done|].
  intros Hr. rewrite (E2 Hr), (E1 eq_refl). done.
Qed.

(** Edits either all apply or leave a well-formed text. *)
Lemma apply_text_inv t es :
  text_wf t -> inserts_utf8 es ->
  exists t' r, apply_text t es = Some (t', r) /\ text_wf t' /\ (r = None -> text t' = apply_seq (text t) es).
Proof.
  intros W U. unfold apply_text. destruct (Nat.eqb_spec (length es) 0) as [H|_].
  { apply length_zero_iff_nil in H as ->. by exists t, None. }
  destruct (windows_canonical es); [by apply apply_once_inv|by apply apply_each_inv].
Qed.

(** With memory granted, a fitting edit applies. *)
Hypothesis granted : memory_granted G env_reserve.

Lemma apply_one_ok t e :
  text_wf t -> edit_ok (text t) e ->
  (Z.of_nat (length (apply_edit (text t) e)) <= MAX_BUFFER_BYTES)%Z ->
  (Z.of_nat (S (count_newlines (apply_edit (text t) e))) <= MAX_LINES)%Z ->
  exists t', apply_text t [e] = Some (t', None) /\ text_wf t' /\ text t' = apply_edit (text t) e.
Proof.
  intros W (Ui & B1 & B2) L1 L2.
  destruct (prepare_accepts env_reserve t [e]) as (t1 & p & Ep & Es); try done.
  - by constructor.
  - cbn. apply is_boundary_le in B2. lia.
  - by constructor.
  - destruct (apply_text_inv t [e] W) as (t2 & r & E & W2 & E2); [by constructor|].
    assert (r = None) as ->; [|exists t2; split_and!; [done|done|by apply E2]].
    unfold apply_text, apply_once in E. cbn [length Nat.eqb windows_canonical] in E. rewrite Ep in E.
    destruct (commit t1 p) as [t3|]; cbn in E; [|done]. by injection E as _ <-.
Qed.
End text.

(** ** The server's history *)

Record ServerHistory := mkServerHistory { sh_start : bytes; sh_log : list LogEntry }.

Definition hist_wf (H : ServerHistory) : Prop :=
  utf8 (sh_start H) /\ exists t, replays (sh_start H) (sh_log H) t.

(** The text after [r] entries, and the edits of the entries [a..b]. *)
Definition text_at (H : ServerHistory) (r : nat) : bytes :=
  foldl (fun t e => apply_seq t (le_edits e)) (sh_start H) (take r (sh_log H)).
Definition edits_between (H : ServerHistory) (a b : nat) : list Edit :=
  concat (map le_edits (drop a (take b (sh_log H)))).

Lemma text_at_S H r e : sh_log H !! r = Some e -> text_at H (S r) = apply_seq (text_at H r) (le_edits e).
Proof. intros E. unfold text_at. by rewrite (take_S_r _ _ _ E), foldl_app. Qed.

Lemma edits_between_S H a r e :
  a <= r -> sh_log H !! r = Some e -> edits_between H a (S r) = edits_between H a r ++ le_edits e.
Proof.
  intros Ha E. unfold edits_between. rewrite (take_S_r _ _ _ E).
  pose proof (lookup_lt_Some _ _ _ E). rewrite drop_app_le by (rewrite length_take; lia).
  rewrite map_app, concat_app. cbn. by rewrite app_nil_r.
Qed.

Lemma edits_between_nil H a : edits_between H a a = [].
Proof. unfold edits_between. by rewrite drop_ge by (rewrite length_take; lia). Qed.

Lemma text_at_replays H r :
  hist_wf H -> utf8 (text_at H r) /\ replays (sh_start H) (take r (sh_log H)) (text_at H r) /\
  exists t, replays (text_at H r) (drop r (sh_log H)) t.
Proof.
  intros [U (t & R)]. rewrite <- (take_drop r (sh_log H)) in R. apply replays_app in R as (m & R1 & R2).
  assert (text_at H r = m) as ->; [|split_and!; [by eapply replays_utf8|done|eauto]].
  unfold text_at. clear R2. revert R1. generalize (take r (sh_log H)) as l, (sh_start H) as a. clear.
  induction l as [|e l IH]; intros a; cbn; [done|]. intros [_ R]. by apply IH.
Qed.

Lemma entry_at H r e :
  hist_wf H -> sh_log H !! r = Some e -> edits_ok (text_at H r) (le_edits e) /\ utf8 (text_at H r).
Proof.
  intros W E. destruct (text_at_replays H r W) as (U & _ & t & R).
  rewrite (drop_S _ _ _ E) in R. destruct R as [He _]. split; [by apply entry_of_ok|done].
Qed.

(** A request the server answers for: an entry with its id comes after the request's base and is the
    request's items, carried through the entries in between. *)
Definition rebase_pairs (its : list (range * bytes)) (edits : list Edit) : option (list (range * bytes)) :=
  mapM (fun it => (fun r => (r, snd it)) <$> transform_range_seq (fst it) edits ThroughFirst) its.

Definition serves (H : ServerHistory) (id : bytes) (b : nat) (its : list (range * bytes)) : Prop :=
  forall r e, sh_log H !! r = Some e -> le_op_id e = Some id ->
    b <= r /\ exists its' sq, rebase_pairs its (edits_between H b r) = Some its' /\
      txn_sequence its' = Some sq /\ le_edits e = map snd sq.

Definition committed_at (H : ServerHistory) (rv : Z) (id : bytes) : Prop :=
  exists i e, rv = Z.of_nat (S i) /\ sh_log H !! i = Some e /\ le_op_id e = Some id.

Lemma rebase_edits_pairs items edits items' :
  rebase_edits items edits = Some items' -> rebase_pairs (item_pairs items) edits = Some (item_pairs items').
Proof.
  unfold rebase_edits, rebase_pairs, item_pairs. rewrite !mapM_Some. intros H. apply Forall2_fmap.
  eapply Forall2_impl; [exact H|]. cbn. intros it it' (r & -> & ->)%fmap_Some. done.
Qed.

(** What the server sends is its history. *)
Definition genuine_ev (H : ServerHistory) (ev : Ev) : Prop :=
  exists i e, ev_rev ev = Z.of_nat (S i) /\ ev_base_rev ev = Z.of_nat i /\ sh_log H !! i = Some e /\
    ev_edits ev = le_edits e /\ ev_op_id ev = le_op_id e.
Definition genuine_event (H : ServerHistory) (e : EditEvent) : Prop := genuine_ev H (of_event e).
Definition genuine_entry (H : ServerHistory) (hw : HistoryEntryW) : Prop :=
  exists i e, hw_rev hw = Z.of_nat (S i) /\ sh_log H !! i = Some e /\ hw_op_id hw = le_op_id e /\
    forall es, hw_edits hw = Some es -> es = le_edits e.

(** ** The invariant *)

Section inv.
Context {G : Type} {TS : TextStore G} {SL : TextStoreLaws G} {ENV : MirrorEnv}.
Implicit Types m : Mirror G.
Context (H : ServerHistory).

(** The operation in flight, sent at [b] with the items [items0]: what the server would make of it at
    [r], not committed yet. *)
Definition own_ok (p : Pending) (wire : SentRequest) (state : AckState) (r : nat) : Prop :=
  exists b items0, sq_sent_at_rev wire = Z.of_nat b /\ b <= r /\ sq_op_id wire = pd_op_id p /\
    rebase_edits items0 (edits_between H b r) = Some (pd_items p) /\
    serves H (pd_op_id p) b (item_pairs items0) /\
    (forall i e, i < r -> sh_log H !! i = Some e -> le_op_id e <> Some (pd_op_id p)) /\
    state <> Doomed /\
    (forall info, state = Replied info -> committed_at H (ri_rev info) (pd_op_id p)).

Definition synced m : Prop :=
  exists r, m_rev m = Z.of_nat r /\ r <= length (sh_log H) /\
    chain (text_at H r) (work_of m) (text (m_text m)) /\
    (forall k, roomy (text_at H k) (work_of m)) /\
    match m_inflight m with Some (ILocal p true wire state) => own_ok p wire state r | _ => True end.

Definition reads_kind m (k : Read) : Prop := exists id o n, m_reads m !! id = Some (k, o, n).
Definition one_page m : Prop :=
  forall i j o n o' n', m_reads m !! i = Some (RPage, o, n) -> m_reads m !! j = Some (RPage, o', n') -> i = j.

Definition is_doomed m : Prop := match m_inflight m with Some (ILocal _ _ _ Doomed) => True | _ => False end.

(** While pages are read nothing is queued, and the pages so far are the hasher's. *)
Definition paging m (pg : Pager G) : Prop :=
  text_wf (pg_text pg) /\ m_queue m = [] /\ m_snap_due m = None /\ ~ is_doomed m /\
  forall old, m_compare_with m = Some old -> pg_hash pg = Some (text (pg_text pg)) /\ old = text (m_text m).

Definition at_rest m : Prop := m_pager m = None /\ m_snap_due m = None /\ m_compare_with m = None.

Definition phase_ok m : Prop :=
  match m_phase m with
  | Live => synced m /\ at_rest m
  | Recovering _ b ByHistory => synced m /\ at_rest m /\ Forall (genuine_event H) b
  | Recovering _ b BySnapshot =>
    Forall (genuine_event H) b /\ m_compare_with m = None /\ ~ reads_kind m RRecover /\
    match m_pager m with Some pg => paging m pg | None => is_Some (m_snap_due m) end
  | Bootstrapping b =>
    Forall (genuine_event H) b /\ m_inflight m = None /\ ~ reads_kind m RRecover /\
    exists pg, m_pager m = Some pg /\ paging m pg
  | Detached _ => m_inflight m = None /\ m_queue m = [] /\ m_pager m = None /\ m_snap_due m = None
  end.

(** The phases in which the view follows the server. *)
Definition following m : Prop := match m_phase m with Live | Recovering _ _ ByHistory => True | _ => False end.

Definition recon_ok m : Prop :=
  forall rc, m_recon m = Some rc -> Forall (genuine_entry H) (rc_entries rc) /\
    forall rv, rc_found rc = Some rv -> committed_at H rv (rc_op_id rc).

Definition item_utf8 (it : Item) : Prop := utf8 (it_text it) /\ utf8 (it_deleted it).
Definition pending_utf8 (p : Pending) : Prop := Forall item_utf8 (pd_items p).
Definition ops_utf8 m : Prop :=
  Forall (fun q => pending_utf8 q.2) (m_queue m) /\
  match m_inflight m with Some (ILocal p _ _ _) => pending_utf8 p | _ => True end.

Record inv m : Prop := {
  inv_text : text_wf (m_text m);
  inv_phase : phase_ok m;
  inv_recon : recon_ok m;
  inv_ops : ops_utf8 m;
  inv_page : one_page m /\ (reads_kind m RPage -> is_Some (m_pager m));
}.

(** Everything the invariant looks at but the slot. *)
Definition core m :=
  (m_text m, m_rev m, m_queue m, m_phase m, (m_pager m, m_snap_due m, m_recon m, m_compare_with m, m_reads m)).

Lemma inv_frame m m' : core m' = core m -> m_inflight m' = m_inflight m -> inv m -> inv m'.
Proof.
  unfold core. intros [= E1 E2 E3 E4 E5 E6 E7 E8 E9] E10 [I1 I2 I3 I4 I5].
  split; unfold phase_ok, recon_ok, ops_utf8, one_page, reads_kind, synced, at_rest, paging, is_doomed, work_of in *;
    by rewrite ?E1, ?E2, ?E3, ?E4, ?E5, ?E6, ?E7, ?E8, ?E9, ?E10.
Qed.
End inv.

(** Runs a handler through its branches. *)
Ltac wpd := repeat first
  [ progress (wp1; cbv beta)
  | lazymatch goal with
    | |- wp (match ?x with _ => _ end) _ _ _ => destruct x eqn:?
    | |- wp (when _ _) _ _ _ => apply wp_when; intros ?
    end ].

(** Continues behind a call with a known postcondition. *)
Tactic Notation "wp_call" uconstr(lem) :=
  lazymatch goal with
  | |- wp (_ ≫= _) _ _ _ => apply wp_bind
  | _ => idtac
  end; eapply wp_mono; [apply lem|cbv beta].

(** ** Calls that leave the invariant's fields alone *)

Section frames.
Context {G : Type} {TS : TextStore G} {ENV : MirrorEnv}.
Implicit Types m : Mirror G.

Definition keeps m m' : Prop := core m' = core m /\ m_inflight m' = m_inflight m.
Definition clears m m' : Prop := core m' = core m /\ m_inflight m' = None.
Definition is_server m : Prop := match m_inflight m with Some (IServer _ _ _ _) => True | _ => False end.

Lemma keeps_trans m1 m2 m3 : keeps m1 m2 -> keeps m2 m3 -> keeps m1 m3.
Proof. unfold keeps. intuition congruence. Qed.

Lemma push_delta_keeps es o k m s : wp (push_delta es o k) (fun _ m' _ => keeps m m') m s.
Proof. unfold push_delta. wpd. done. Qed.

Lemma queue_server_keeps q m s : wp (queue_server q) (fun _ m' _ => keeps m m') m s.
Proof. unfold queue_server. wpd. done. Qed.

Lemma uncertain_keeps id msg m s : wp (uncertain id msg) (fun _ m' _ => keeps m m') m s.
Proof. unfold uncertain. wpd. done. Qed.

Lemma watch_echo_keeps m s : wp watch_echo (fun _ m' _ => keeps m m') m s.
Proof. unfold watch_echo. wpd. by repeat case_match. Qed.

Lemma note_conflict_keeps acc m s : wp (note_conflict acc) (fun _ m' _ => keeps m m') m s.
Proof. unfold note_conflict. wpd; done. Qed.

Lemma keep_next_stage_keeps rv m s : wp (keep_next_stage rv) (fun _ m' _ => keeps m m') m s.
Proof. unfold keep_next_stage, queue_server. wpd; done. Qed.

Lemma keep_next_undo_keeps rv m s : wp (keep_next_undo rv) (fun _ m' _ => keeps m m') m s.
Proof. unfold keep_next_undo, queue_server. wpd; done. Qed.

Lemma keep_refused_keeps msg m s : wp (keep_refused msg) (fun _ m' _ => keeps m m') m s.
Proof.
  unfold keep_refused. wpd; try done; (eapply wp_mono; [apply keep_next_undo_keeps|]; cbv beta; intros _ m' _ K; by eapply keeps_trans).
Qed.

Lemma ack_inflight_clears m s : wp ack_inflight (fun _ m' _ => clears m m') m s.
Proof. unfold ack_inflight. wpd. unfold clears, core. by repeat case_match. Qed.

Lemma clear_slot_clears m s : wp clear_slot (fun _ m' _ => clears m m') m s.
Proof. unfold clear_slot. wpd. unfold clears, core. by repeat case_match. Qed.

Lemma complete_server_clears rv m s : wp (complete_server rv) (fun _ m' _ => clears m m') m s.
Proof.
  unfold complete_server. wpd; try done;
    (eapply wp_mono; [first [apply keep_next_undo_keeps|apply keep_next_stage_keeps]|];
     intros _ m' _ [K1 K2]; split; by rewrite ?K1, ?K2).
Qed.

(** A server operation may leave the slot, nothing else. *)
Definition settles m m' : Prop := keeps m m' \/ is_server m /\ clears m m'.

Lemma check_barrier_settles m s : wp check_barrier (fun _ m' _ => settles m m') m s.
Proof.
  unfold check_barrier. wpd; try (left; done).
  wp_call complete_server_clears. intros _ m' _ C. right. unfold is_server. by case_match; simplify_eq.
Qed.

Lemma after_rev_settles m s : wp after_rev (fun _ m' _ => settles m m') m s.
Proof.
  unfold after_rev. wp_call check_barrier_settles. intros _ m' s' [K|[S K]]; wpd; [left|right]; done.
Qed.
End frames.

(** ** Reads *)

Section reads.
Context {G : Type} {TS : TextStore G} {SL : TextStoreLaws G} {ENV : MirrorEnv}.
Implicit Types m : Mirror G.

Definition reads_after (kind : Read) (rs rs' : gmap bytes (Read * Outgoing * Z)) : Prop :=
  exists id o, rs' = <[id := (kind, o, 0%Z)]>
    (match kind with RPage | RRecover => filter (fun kv => kv.2.1.1 <> kind) rs | _ => rs end).

Lemma send_read_spec kind verb body d m s :
  wp (send_read kind verb body d)
    (fun _ m' _ => exists n rs, m' = put_reads rs (put_read_seq n m) /\ reads_after kind (m_reads m) rs) m s.
Proof.
  unfold send_read. destruct kind; wps; do 2 eexists; (split; [reflexivity|]); cbn; by do 2 eexists.
Qed.

Lemma reads_after_kind kind rs rs' k id o n :
  reads_after kind rs rs' -> rs' !! id = Some (k, o, n) -> k = kind \/ exists o n, rs !! id = Some (k, o, n).
Proof.
  intros (i & o' & ->) [(-> & E)|(Hne & E)]%lookup_insert_Some; [injection E as <- _ _; by left|].
  right. exists o, n. destruct kind; try done; by apply map_lookup_filter_Some in E as [E _].
Qed.

Lemma reads_after_one rs rs' kind :
  reads_after kind rs rs' ->
  (forall i j o n o' n', rs !! i = Some (RPage, o, n) -> rs !! j = Some (RPage, o', n') -> i = j) ->
  forall i j o n o' n', rs' !! i = Some (RPage, o, n) -> rs' !! j = Some (RPage, o', n') -> i = j.
Proof.
  intros (id & o0 & ->) H i j o n o' n' [(<- & E)|(Hi & E)]%lookup_insert_Some [(<- & E')|(Hj & E')]%lookup_insert_Some;
    [done| | |].
  - injection E as -> _ _. apply map_lookup_filter_Some in E' as [_ []]. done.
  - injection E' as -> _ _. apply map_lookup_filter_Some in E as [_ []]. done.
  - destruct kind; [by apply map_lookup_filter_Some in E as [_ []]| |by eapply H..].
    apply map_lookup_filter_Some in E as [E _], E' as [E' _]. by eapply H.
Qed.
End reads.

Section slot.
Context {G : Type} {TS : TextStore G} {SL : TextStoreLaws G} {ENV : MirrorEnv}.
Context (H : ServerHistory) (HW : hist_wf H).
Implicit Types m : Mirror G.
Abbreviation inv := (inv H).

(** ** The slot *)

(** An operation that is not in the view, or a server operation. *)
Definition absent (i : option Inflight) : Prop :=
  match i with Some (ILocal p present _ _) => present = false /\ pending_utf8 p | _ => True end.

Lemma work_absent m i : absent i -> work_of (put_inflight i m) = map (fun q => pd_items q.2) (m_queue m).
Proof. destruct i as [[p [] w st|]|]; cbn; try done. by intros [? _]. Qed.

Lemma present_false m : present_inflight m = false -> work_of m = map (fun q => pd_items q.2) (m_queue m).
Proof. unfold present_inflight, work_of. by destruct (m_inflight m) as [[? [] ? ?|]|]. Qed.

Lemma inv_slot m i :
  inv m -> (following m -> present_inflight m = false) -> absent i ->
  (match m_phase m with Bootstrapping _ | Detached _ => i = None | _ => True end) ->
  (match i with Some (ILocal _ _ _ Doomed) => m_pager m = None | _ => True end) ->
  inv (put_inflight i m).
Proof.
  intros [I1 I2 I3 I4 I5] Hp Ha Hph Hd. split; try done.
  - unfold phase_ok in *. cbn [m_phase put_inflight].
    assert (following m -> synced H m -> synced H (put_inflight i m)) as Hsync.
    { intros F (r & E & Hr & Hc & Hf & _). exists r. rewrite (work_absent m i Ha). rewrite (present_false m (Hp F)) in Hc, Hf.
      split_and!; try done. cbn. destruct i as [[? [] ? ?|]|]; try done. by destruct Ha. }
    assert (forall pg, m_pager m = Some pg -> paging m pg -> paging (put_inflight i m) pg) as Hpg.
    { intros pg Epg (P1 & P2 & P3 & P4 & P5). split_and!; try done. unfold is_doomed; cbn.
      destruct i as [[? ? ? []|]|]; try tauto. congruence. }
    unfold following in Hsync. destruct (m_phase m) as [b| |sn b []|]; cbn in *.
    + destruct I2 as (P1 & P2 & P3 & pg & P4 & P5). split_and!; try done. exists pg. split; [done|]. by apply Hpg.
    + destruct I2 as [P1 P2]. split; [by apply Hsync|done].
    + destruct I2 as (P1 & P2 & P3). split_and!; try done; [by apply Hsync|apply P2..].
    + destruct I2 as (P1 & P2 & P3 & P4). split_and!; try done. destruct (m_pager m) as [pg|] eqn:E; [by apply Hpg|done].
    + destruct I2 as (P1 & P2 & P3 & P4). done.
  - destruct I4 as [Q1 Q2]. split; [done|]. cbn. destruct i as [[? ? ? ?|]|]; try done. by destruct Ha.
Qed.

Lemma inv_clears m m' : inv m -> (following m -> present_inflight m = false) -> clears m m' -> inv m'.
Proof.
  intros I Hp [C1 C2]. apply (inv_frame H (put_inflight None m)); [done|done|].
  apply inv_slot; try done. by destruct (m_phase m).
Qed.

Lemma inv_keeps m m' : inv m -> keeps m m' -> inv m'.
Proof. intros I [C1 C2]. by apply (inv_frame H m). Qed.

Lemma inv_settles m m' : inv m -> settles m m' -> inv m'.
Proof.
  intros I [K|[S C]]; [by eapply inv_keeps|]. eapply inv_clears; [done| |done].
  intros _. unfold is_server, present_inflight in *. by destruct (m_inflight m) as [[]|].
Qed.

(** ** Detaching *)

Lemma abandon_spec m s :
  wp abandon_pipeline (fun _ m' _ =>
    m_inflight m' = None /\
    core m' = (m_text m, m_rev m, [], m_phase m, (None, None, None, m_compare_with m, ∅))) m s.
Proof. unfold abandon_pipeline. wps. done. Qed.

Lemma inv_abandoned m m' r :
  text_wf (m_text m) -> m_inflight m' = None ->
  core m' = (m_text m, m_rev m, [], Detached r, (None, None, None, m_compare_with m, ∅)) -> inv m'.
Proof.
  unfold core. intros W E1 [= E2 E3 E4 E5 E6 E7 E8 E9 E10].
  split; unfold phase_ok, recon_ok, ops_utf8, one_page, reads_kind; rewrite ?E1, ?E2, ?E3, ?E4, ?E5, ?E6, ?E7, ?E8, ?E9, ?E10; try done.
  split; [by intros ? ? ? ? ? ? ?%lookup_empty_Some|]. by intros (? & ? & ? & ?%lookup_empty_Some).
Qed.

(** The invariant again, and nothing came into the slot. *)
Definition safe m m' : Prop := inv m' /\ (m_inflight m' = m_inflight m \/ absent (m_inflight m')).

Lemma safe_keeps m m' : inv m -> keeps m m' -> safe m m'.
Proof. intros I K. split; [by eapply inv_keeps|]. left. by destruct K. Qed.

Lemma safe_trans m1 m2 m3 : safe m1 m2 -> safe m2 m3 -> safe m1 m3.
Proof. intros [I1 [S1|S1]] [I2 [S2|S2]]; split; try done; rewrite ?S2, ?S1; auto. Qed.

Lemma safe_refl m : inv m -> safe m m.
Proof. intros I. split; [done|by left]. Qed.

(** [self.phase = Detached; self.abandon_pipeline()] *)
Lemma detach_inv r m s :
  text_wf (m_text m) -> wp (modify (put_phase (Detached r));; abandon_pipeline) (fun _ m' _ => safe m m') m s.
Proof.
  intros W. wps. wp_call abandon_spec. intros _ m' _ [E1 E2]. split; [by apply (inv_abandoned m m' r)|].
  right. by rewrite E1.
Qed.

Lemma detach_failed_inv msg m s : text_wf (m_text m) -> wp (detach_failed msg) (fun _ m' _ => safe m m') m s.
Proof. apply detach_inv. Qed.

Lemma epoch_changed_inv m s : inv m -> wp epoch_changed (fun _ m' _ => safe m m') m s.
Proof.
  intros I. unfold epoch_changed. wps. pose proof (inv_text _ _ I) as W.
  destruct (m_phase m) as [| | |[]]; [exact (detach_inv _ m s W)..| | |]; [wps; by apply safe_refl|exact (detach_inv _ m s W)..].
Qed.

(** ** Pages *)

Definition base_ok m : Prop := text_wf (m_text m) /\ recon_ok H m /\ ops_utf8 m /\ one_page m.

Definition ready_for_pages m : Prop :=
  m_queue m = [] /\ m_snap_due m = None /\ ~ is_doomed m /\ ~ reads_kind m RRecover /\
  match m_phase m with
  | Bootstrapping b => Forall (genuine_event H) b /\ m_inflight m = None /\
                       forall old, m_compare_with m = Some old -> old = text (m_text m)
  | Recovering _ b BySnapshot => Forall (genuine_event H) b /\ m_compare_with m = None
  | _ => False
  end.

Lemma Text_new_wf (t : Text G) : Text_new = Ok t -> text_wf t /\ text t = [].
Proof.
  unfold Text_new. destruct gs_new as [g|] eqn:E; [|done]. intros [= <-]. apply gs_new_spec in E as [Wg Eg].
  split; [|done]. split; unfold text; cbn; rewrite ?Eg; try done. constructor.
Qed.

Lemma start_pages_inv m s : base_ok m -> ready_for_pages m -> wp start_pages (fun _ m' _ => safe m m') m s.
Proof.
  intros (W & R & O & P) (Q1 & Q2 & Q3 & Q4 & Q5). unfold start_pages. destruct Text_new as [t|e] eqn:Et.
  2: by apply detach_failed_inv.
  apply Text_new_wf in Et as [Wt Et]. wps. wp_call send_read_spec. intros _ m' _ (n & rs & -> & Hrs). cbn [m_reads put_pager] in Hrs.
  split; [|by left]. split; try done.
  - assert (forall pg', Some pg' = Some (mkPager None t (match m_compare_with m with Some _ => Some [] | None => None end)) ->
      (forall old, m_compare_with m = Some old -> old = text (m_text m)) -> ~ reads_kind (put_reads rs m) RRecover /\
      forall m', m_text m' = m_text m -> m_queue m' = m_queue m -> m_snap_due m' = m_snap_due m -> m_inflight m' = m_inflight m ->
        m_compare_with m' = m_compare_with m -> paging m' pg') as K.
    { intros pg' [= ->] Hc. split.
      - intros (id & o & k & E). destruct (reads_after_kind _ _ _ _ _ _ _ Hrs E) as [?|(? & ? & ?)]; [done|]. apply Q4. by do 3 eexists.
      - intros m' E1 E2 E3 E4 E5. unfold paging, is_doomed. rewrite E1, E2, E3, E4, E5. cbn. split_and!; try done.
        intros old Eo. split; [rewrite Eo, Et; done|by apply Hc]. }
    unfold phase_ok. cbn [m_phase put_reads put_read_seq put_pager].
    destruct (m_phase m) as [b| |sn b []|]; try done.
    + destruct Q5 as (B1 & B2 & B3). destruct (K _ eq_refl B3) as [K1 K2]. split_and!; try done. cbn. eexists. split; [done|]. by apply K2.
    + destruct Q5 as (B1 & B2). destruct (K _ eq_refl) as [K1 K2]; [by rewrite B2|]. split_and!; try done. cbn. by apply K2.
  - split; [|by eexists]. unfold one_page. cbn. by eapply reads_after_one.
Qed.
End slot.
