(* ===== verification/MirrorFold.v ===== *)
(** * Reverting and folding

    Taking pending operations back from the view, and folding a server edit into it: the
    lemmas on [revert_suffix], [try_snapshot], [snapshot_fallback], [fold_remote] and
    [fold_edit], each against the invariant. *)

From S2P Require Import Prelude Utf8 EditBase Ot Anchor GapBuffer Memory Text Buffer BufferSpec Str Json MirrorTypes Mirror MirrorOt MirrorInv.

Section fold.
Context {G : Type} {TS : TextStore G} {SL : TextStoreLaws G} {ENV : MirrorEnv}.
Context (H : ServerHistory) (HW : hist_wf H).
Hypothesis granted : memory_granted G env_reserve.
Implicit Types m : Mirror G.
Abbreviation inv := (inv H).
Abbreviation safe := (safe H).

Lemma apply_view_inv es m s :
  text_wf (m_text m) -> inserts_utf8 es ->
  wp (apply_view es) (fun r m' _ => exists t', m' = put_text t' m /\ text_wf t' /\
    (r = None -> text t' = apply_seq (text (m_text m)) es)) m s.
Proof.
  intros W U. unfold apply_view. wps. destruct (apply_text_inv (m_text m) es W U) as (t' & r & -> & W' & E).
  wps. eauto.
Qed.

Lemma apply_view_ok e m s :
  text_wf (m_text m) -> edit_ok (text (m_text m)) e ->
  (Z.of_nat (length (apply_edit (text (m_text m)) e)) <= MAX_BUFFER_BYTES)%Z ->
  (Z.of_nat (S (count_newlines (apply_edit (text (m_text m)) e))) <= MAX_LINES)%Z ->
  wp (apply_view [e]) (fun _ m' _ => exists t', m' = put_text t' m /\ text_wf t' /\
    text t' = apply_edit (text (m_text m)) e) m s.
Proof.
  intros W Ok L1 L2. unfold apply_view. wps.
  destruct (apply_one_ok granted (m_text m) e W Ok L1 L2) as (t' & -> & W' & E). wps. eauto.
Qed.

(** ** Taking operations back *)

Lemma inverse_utf8 p : pending_utf8 p -> inserts_utf8 (pending_inverse p).
Proof.
  intros U. unfold pending_inverse. apply Forall_map, Forall_forall. intros [i e] _. cbn.
  destruct (pd_items p !! i) as [it|] eqn:E; [|constructor].
  unfold pending_utf8 in U. rewrite Forall_lookup in U. by apply (U i it).
Qed.

Lemma revert_edits_spec es acc lines m s :
  text_wf (m_text m) -> inserts_utf8 es ->
  wp (revert_edits es acc lines) (fun _ m' _ => exists t', m' = put_text t' m /\ text_wf t' /\
    (edits_ok (text (m_text m)) es -> seq_within (text (m_text m)) es ->
     text t' = apply_seq (text (m_text m)) es)) m s.
Proof.
  intros W U; revert m s acc lines W; induction U as [|e es Ue U IH]; intros m s acc lines W; cbn [revert_edits].
  { wps. exists (m_text m). split_and!; [by destruct m|done|done]. }
  wps. set (k := revert_edits es _ _).
  assert (forall m1 s1, (exists t1, m1 = put_text t1 m /\ text_wf t1) ->
    wp k (fun _ m' _ => exists t', m' = put_text t' m /\ text_wf t' /\
      (edits_ok (text (m_text m1)) es -> seq_within (text (m_text m1)) es -> text t' = apply_seq (text (m_text m1)) es)) m1 s1) as K.
  { intros m1 s1 (t1 & -> & W1). unfold k. eapply wp_mono; [by apply IH|]. cbv beta. intros _ m' _ (t' & -> & W' & E').
    exists t'. split_and!; [by destruct m|done|done]. }
  destruct (decide (Z.of_nat (length (apply_edit (text (m_text m)) e)) <= MAX_BUFFER_BYTES /\
                    Z.of_nat (S (count_newlines (apply_edit (text (m_text m)) e))) <= MAX_LINES)%Z) as [[L1 L2]|Hn].
  2: { eapply wp_mono; [apply apply_view_inv; [done|by constructor]|]. cbv beta. intros r m1 s1 (t1 & E1 & W1 & _).
       eapply wp_mono; [apply K; eauto|]. cbv beta. intros _ m' _ (t' & -> & W' & _). exists t'. split_and!; try done.
       intros _ (Q1 & Q2 & _). naive_solver. }
  destruct (decide (is_boundary (text (m_text m)) (e_offset e) = true /\
                    is_boundary (text (m_text m)) (e_offset e + e_delete e) = true)) as [[B1 B2]|Hn].
  2: { eapply wp_mono; [apply apply_view_inv; [done|by constructor]|]. cbv beta. intros r m1 s1 (t1 & E1 & W1 & _).
       eapply wp_mono; [apply K; eauto|]. cbv beta. intros _ m' _ (t' & -> & W' & _). exists t'. split_and!; try done.
       intros [(_ & Q1 & Q2) _] _. naive_solver. }
  eapply wp_mono; [apply apply_view_ok; done|]. cbv beta. intros r m1 s1 (t1 & -> & W1 & E1).
  eapply wp_mono; [apply K; eauto|]. cbv beta. intros _ m' _ (t' & -> & W' & E'). exists t'. split_and!; try done.
  cbn [m_text put_text] in E'. rewrite E1 in E'. intros [_ Q1] (_ & _ & Q2). by apply E'.
Qed.

Lemma revert_ops_spec ps acc lines m s :
  text_wf (m_text m) -> Forall pending_utf8 ps ->
  wp (revert_ops ps acc lines) (fun _ m' _ => exists t', m' = put_text t' m /\ text_wf t' /\
    forall t l, utf8 t -> chain t (l ++ map pd_items (rev ps)) (text (m_text m)) ->
      roomy t (l ++ map pd_items (rev ps)) -> chain t l (text t')) m s.
Proof.
  intros W U; revert m s acc lines W; induction U as [|p ps Up U IH]; intros m s acc lines W; cbn [revert_ops].
  { wps. exists (m_text m). split_and!; [by destruct m|done|]. intros t l _. cbn. by rewrite app_nil_r. }
  unfold revert_op. wps. wp_call (revert_edits_spec _ _ _ _ _ W (inverse_utf8 p Up)).
  intros [acc' lines'] m1 s1 (t1 & -> & W1 & E1).
  eapply wp_mono; [by apply IH|]. cbv beta. intros _ m' _ (t' & -> & W' & E'). exists t'. split_and!; [by destruct m|done|].
  intros t l Ut. cbn [rev]. rewrite map_app, app_assoc. cbn [map]. intros Hc Hr.
  apply (E' t l Ut); [|by eapply roomy_prefix].
  pose proof (undo_within t _ p _ Ut Hc Hr) as Hw. apply chain_snoc in Hc as (w & Hc & Ho & Ev).
  destruct (inverse_exact w p) as [Q1 Q2]; [by eapply chain_utf8|done|]. rewrite <- Ev in Q1, Q2.
  cbn [m_text put_text]. rewrite (E1 Q1 Hw), Q2. done.
Qed.

Lemma edits_ok_inserts t es : edits_ok t es -> inserts_utf8 es.
Proof. revert t; induction es as [|e es IH]; intros t; [constructor|]. intros [(U & _) Hes]. constructor; [done|by eapply IH]. Qed.

Definition base_of m : nat := if present_inflight m then 1 else 0.

Definition demoted m m' : Prop :=
  exists p w st, m_inflight m = Some (ILocal p true w st) /\
    (m_inflight m' = None \/
     exists st', m_inflight m' = Some (ILocal p false w st') /\ (st' = Doomed \/ st' = st /\ exists info, st = Replied info)).

(** What [revert_suffix] leaves: the chain cut at [j]. *)
Definition reverted (j : nat) m m' : Prop :=
  exists t', text_wf t' /\
    core m' = core (put_text t' (put_queue (take (j - base_of m) (m_queue m)) m)) /\
    (if j <? base_of m then demoted m m' else m_inflight m' = m_inflight m) /\
    forall t, utf8 t -> chain t (work_of m) (text (m_text m)) -> roomy t (work_of m) ->
      chain t (take j (work_of m)) (text t').

Lemma base_work m : base_of m <= length (work_of m) /\ length (work_of m) = base_of m + length (m_queue m).
Proof. unfold base_of, present_inflight, work_of. rewrite length_app, length_map. destruct (m_inflight m) as [[? [] ? ?|]|]; cbn; lia. Qed.

Lemma drop_work j m : base_of m <= j -> drop j (work_of m) = map (fun q => pd_items q.2) (drop (j - base_of m) (m_queue m)).
Proof.
  unfold base_of, present_inflight, work_of. intros Hj. change (map ?f ?l) with (f <$> l). rewrite fmap_drop.
  destruct (m_inflight m) as [[? [] ? ?|]|]; cbn in *; try (by rewrite Nat.sub_0_r). destruct j; [lia|]. cbn. by rewrite Nat.sub_0_r.
Qed.

Lemma reverted_keeps j m m1 m2 : reverted j m m1 -> keeps m1 m2 -> reverted j m m2.
Proof.
  intros (t' & P1 & P2 & P3 & P4) [K1 K2]. exists t'. rewrite K1. split_and!; [done|done| |done].
  unfold demoted in *. by rewrite K2.
Qed.

Lemma revert_end j m es (b : bool) (c : option ConflictNote) m1 s1 :
  reverted j m m1 ->
  wp (when (negb (length es =? 0)) (push_delta es None DkRevert))
    (fun _ m2 s2 => wp (mret (b, c)) (fun _ m' _ => reverted j m m') m2 s2) m1 s1.
Proof.
  intros K. apply wp_when; intros _; [|by wps]. wp_call push_delta_keeps. intros _ m4 s4 K2. wps.
  by eapply reverted_keeps.
Qed.

Lemma revert_suffix_spec j rv ro acc m s :
  text_wf (m_text m) -> ops_utf8 m -> j <= length (work_of m) ->
  wp (revert_suffix j rv ro acc) (fun _ m' _ => reverted j m m') m s.
Proof.
  intros W [Uq Ui] Hj. pose proof (base_work m) as [_ Hlen]. unfold revert_suffix. wps. fold (base_of m).
  assert ((length (m_queue m) <? j - base_of m) = false) as -> by lia. wps.
  set (q := m_queue m) in *. set (rem := map snd (drop (j - base_of m) q)).
  assert (Forall pending_utf8 (rev rem)) as Ur.
  { apply Forall_rev, Forall_map. by apply Forall_drop. }
  wp_call (revert_ops_spec (rev rem) [] (USIZE_MAX, 0%Z) (put_queue (take (j - base_of m) q) m) s); [done|done|].
  intros [es ls] m1 s1 (t1 & -> & W1 & C1). rewrite rev_involutive in C1. cbn [m_text put_queue] in C1.
  wps. cbn [m_inflight put_text put_queue].
  assert (map pd_items rem = map (fun q => pd_items q.2) (drop (j - base_of m) q)) as Erem.
  { unfold rem. by rewrite map_map. }
  destruct (Nat.ltb_spec j (base_of m)) as [Hlt|Hge].
  - (* the operation in flight goes too *)
    unfold base_of, present_inflight in Hlt. destruct (m_inflight m) as [[p [] w st|]|] eqn:Ei; try (cbn in Hlt; lia).
    assert (j = 0) as -> by (cbn in Hlt; lia). assert (base_of m = 1) as Eb by (unfold base_of, present_inflight; by rewrite Ei).
    rewrite Eb in *. cbn [Nat.sub take drop] in *. wps. unfold revert_op.
    wp_call (revert_edits_spec (pending_inverse p)); [done|by apply inverse_utf8|]. intros [es' ls'] m2 s2 (t2 & -> & W2 & C2).
    assert (forall t, utf8 t -> chain t (work_of m) (text (m_text m)) -> roomy t (work_of m) -> t = text t2) as C3.
    { intros t Ut. unfold work_of. rewrite Ei. fold q. intros Hc Hr. specialize (C1 t [pd_items p] Ut).
      unfold rem in C1. rewrite map_map in C1. specialize (C1 Hc Hr).
      assert (roomy t ([] ++ [pd_items p])) as Hr1 by (by apply (roomy_prefix t [pd_items p] (map (fun x => pd_items x.2) q))).
      pose proof (undo_within t [] p (text t1) Ut C1 Hr1) as Hw. destruct C1 as [Ho E1]. cbn [chain] in E1.
      destruct (inverse_exact t p Ut Ho) as [Q1 Q2]. rewrite E1 in Q1, Q2. cbn [m_text put_text] in C2.
      by rewrite <- Q2, (C2 Q1 Hw). }
    assert (forall m3, core m3 = core (put_text t2 (put_queue [] m)) -> (m_inflight m3 = None \/
      exists st', m_inflight m3 = Some (ILocal p false w st') /\ (st' = Doomed \/ st' = st /\ exists info, st = Replied info)) ->
      reverted 0 m m3) as Kend.
    { intros m3 E3 I3. exists t2. rewrite Eb. cbn [Nat.ltb Nat.leb Nat.sub take]. split_and!; [done|done| |done]. by exists p, w, st. }
    apply wp_bind. apply (wp_mono _ (fun _ m' _ => core m' = core (put_text t2 (put_queue [] m)) /\
        exists st', m_inflight m' = Some (ILocal p false w st') /\ (st' = Doomed \/ st' = st /\ exists info, st = Replied info))).
    { destruct st; wps; (split; [done|]); eexists; (split; [reflexivity|]); eauto. }
    cbv beta. intros _ m3 s3 (E3 & st' & I3 & Hst). wps. apply wp_when; intros _.
    + wps. wp_call clear_slot_clears. intros _ m4 s4 [K1 K2]. wps. apply revert_end, Kend; [by rewrite K1|by left].
    + wps. apply revert_end, Kend; [done|right; eauto].
  - assert (reverted j m (put_text t1 (put_queue (take (j - base_of m) q) m))) as K.
    { exists t1. assert ((j <? base_of m) = false) as -> by lia. split_and!; [done|done|done|].
      intros t Ut Hc Hr. apply (C1 t (take j (work_of m)) Ut); rewrite Erem; unfold q; rewrite <- (drop_work j m Hge), take_drop; done. }
    wps. by apply revert_end.
Qed.

Lemma reverted_work j m m' : reverted j m m' -> work_of m' = take j (work_of m).
Proof.
  intros (t' & _ & C & I & _). unfold core in C. cbn in C. injection C as _ _ Eq _ _ _ _ _ _.
  unfold work_of at 1. rewrite Eq. unfold work_of. destruct (Nat.ltb_spec j (base_of m)) as [Hlt|Hge].
  - assert (j = 0) as -> by (unfold base_of in Hlt; case_match; lia). destruct I as (p & w & st & _ & [->|(st' & -> & _)]); done.
  - rewrite I. unfold base_of, present_inflight in *. change (map ?f ?l) with (f <$> l). rewrite fmap_take.
    destruct (m_inflight m) as [[? [] ? ?|]|]; cbn in *; rewrite ?Nat.sub_0_r; try done. destruct j; [lia|]. cbn. by rewrite Nat.sub_0_r.
Qed.

Lemma roomy_take t ops j : roomy t ops -> roomy t (take j ops).
Proof. intros R. rewrite <- (take_drop j ops) in R. by eapply roomy_prefix. Qed.

Lemma reverted_synced j m m' : reverted j m m' -> synced H m -> synced H m'.
Proof.
  intros R (r & E & Hr & Hc & Hf & Ho). pose proof (reverted_work _ _ _ R) as Ew.
  destruct R as (t' & W & C & I & Ch). unfold core in C. cbn in C. injection C as Et Er _ _ _ _ _ _ _.
  exists r. rewrite Et, Er, Ew. split_and!; [done|done| | |].
  - apply Ch; [apply (text_at_replays H r HW)|done|done].
  - intros k. by apply roomy_take.
  - destruct (j <? base_of m); [|by rewrite I]. by destruct I as (p & w & st & _ & [->|(st' & -> & _)]).
Qed.

Lemma reverted_base j m m' : reverted j m m' -> base_ok H m -> base_ok H m'.
Proof.
  intros (t' & W & C & I & _) (_ & R & [O1 O2] & P). unfold core in C. cbn in C. injection C as Et _ Eq _ _ _ Erc _ Erd.
  split_and!.
  - by rewrite Et.
  - unfold recon_ok. by rewrite Erc.
  - split; [rewrite Eq; by apply Forall_take|]. destruct (j <? base_of m).
    + destruct I as (p & w & st & Ei & [->|(st' & -> & _)]); [done|]. by rewrite Ei in O2.
    + by rewrite I.
  - unfold one_page. by rewrite Erd.
Qed.

(** ** Reads that are not pages *)

Lemma inv_reads k n rs m :
  inv m -> reads_after k (m_reads m) rs -> (k = RPage -> is_Some (m_pager m)) ->
  (k = RRecover -> match m_phase m with Live | Recovering _ _ ByHistory => True | _ => False end) ->
  inv (put_reads rs (put_read_seq n m)).
Proof.
  intros [I1 I2 I3 I4 [I5 I6]] Hrs Hk Hph.
  assert (forall k', k' <> k -> reads_kind (put_reads rs (put_read_seq n m)) k' -> reads_kind m k') as K.
  { intros k' Hne (id & o & c & E). destruct (reads_after_kind _ _ _ _ _ _ _ Hrs E) as [->|(o' & c' & E')]; [done|]. by do 3 eexists. }
  split; try done.
  - unfold phase_ok in *. cbn [m_phase put_reads put_read_seq]. destruct (m_phase m) as [b| |sn b []|]; try done.
    + destruct I2 as (P1 & P2 & P3 & P4). split_and!; try done. intros Hr. apply P3, K; [|done]. intros <-. by apply Hph.
    + destruct I2 as (P1 & P2 & P3 & P4). split_and!; try done. intros Hr. apply P3, K; [|done]. intros <-. by apply Hph.
  - split; [|intros Hp; destruct (decide (k = RPage)) as [E|E]; [by apply Hk|apply I6, K; [congruence|done]]]. unfold one_page. cbn. by eapply reads_after_one.
Qed.

Lemma start_recon_inv m s : inv m -> wp start_recon (fun _ m' _ => safe m m') m s.
Proof.
  intros I. unfold start_recon. wps. destruct (m_inflight m) as [i|] eqn:Ei; [|by wps; apply safe_refl]. wps.
  wp_call send_read_spec. intros _ m' _ (n & rs & -> & Hrs). cbn in Hrs. split; [|by left]. apply (inv_reads RRecon); try done.
  destruct I as [I1 I2 I3 I4 I5]. split; try done. intros rc [= <-]. split; [constructor|done].
Qed.

(** ** Snapshots *)

Lemma try_snapshot_inv m s : inv m -> wp try_snapshot (fun _ m' _ => safe m m') m s.
Proof.
  intros I. unfold try_snapshot. wps. destruct (m_snap_due m) as [d|] eqn:Ed; [|by wps; apply safe_refl].
  destruct (m_pager m) as [pg|] eqn:Ep; [by wps; apply safe_refl|]. wps.
  assert (exists sn b, m_phase m = Recovering sn b BySnapshot /\ Forall (genuine_event H) b /\ m_compare_with m = None /\
    ~ reads_kind m RRecover) as (sn & b & Eph & Gb & Ec & Nr).
  { pose proof (inv_phase _ _ I) as P. unfold phase_ok in P. unfold at_rest, paging in P. rewrite Ed, Ep in P.
    destruct (m_phase m) as [b| |sn b []|]; [naive_solver..| |naive_solver]. exists sn, b. naive_solver. }
  assert (forall i, m_inflight m = i -> (match i with Some (ILocal _ _ _ Doomed) => False | _ => True end) ->
    wp (q ← gets m_queue;
      when (negb (length q =? 0))
        (base ← gets (fun m => if present_inflight m then 1 else 0); rv ← gets m_rev;
         '(_, acc) ← revert_suffix base rv None None;
         note_conflict acc);;
      modify (put_snap_due None);;
      start_pages) (fun _ m' _ => safe m m') m s) as K.
  { intros i Ei Hnd. wps.
    assert (forall m1 s1, base_ok H m1 -> core m1 = core (put_text (m_text m1) (put_queue [] m)) -> ~ is_doomed m1 -> m_inflight m1 = m_inflight m ->
      wp (modify (put_snap_due None);; start_pages) (fun _ m' _ => safe m m') m1 s1) as K.
    { intros m1 s1 B C Hd Ei1. unfold core in C. cbn in C. injection C as _ Eq Eph' _ _ _ Ec' Erd. wps.
      wp_call (start_pages_inv H); [done| |intros _ m' _ [I' S']; split; [done|]; cbn in S'; by rewrite Ei1 in S'].
      split_and!; [done|done|done| |].
      - unfold reads_kind. cbn. by rewrite Erd.
      - cbn. rewrite Eph', Eph. split; [done|]. by rewrite Ec', Ec. }
    assert (base_ok H m) as B by (destruct I as [? ? ? ? []]; done).
    apply wp_when; intros Hq.
    - wps. wp_call (revert_suffix_spec (base_of m)); [apply I|apply I|apply base_work|].
      intros [d' acc] m1 s1 R. wp_call note_conflict_keeps. intros _ m2 s2 KP. apply (reverted_keeps _ _ _ _ R) in KP.
      apply K; [by eapply reverted_base| | |].
      + destruct KP as (t' & _ & C & _). unfold core in C. cbn in C. rewrite Nat.sub_diag in C. unfold core. cbn.
        injection C as -> -> -> -> -> -> -> -> ->. done.
      + destruct KP as (t' & _ & _ & C & _). rewrite Nat.ltb_irrefl in C. unfold is_doomed. rewrite C, Ei. destruct i as [[? ? ? []|]|]; cbn in *; tauto.
      + destruct KP as (t' & _ & _ & C & _). by rewrite Nat.ltb_irrefl in C.
    - apply K; [done| | |done].
      + unfold core. cbn. apply negb_false_iff, Nat.eqb_eq, length_zero_iff_nil in Hq. by rewrite Hq.
      + unfold is_doomed. rewrite Ei. destruct i as [[? ? ? []|]|]; cbn in *; tauto. }
  destruct (m_inflight m) as [[p pr w []|]|] eqn:Ei; try (by wps; apply safe_refl); try (by apply (K _ eq_refl)).
  wps. destruct (m_recon m); [by wps; apply safe_refl|by apply start_recon_inv].
Qed.

(** A mirror whose view is to be replaced: nothing is known of the view. *)
Definition fallen m : Prop :=
  base_ok H m /\ ~ reads_kind m RPage /\ m_pager m = None /\
  match m_phase m with
  | Live => m_compare_with m = None
  | Recovering _ b _ => m_compare_with m = None /\ Forall (genuine_event H) b
  | _ => False
  end.

Lemma inv_base m : inv m -> base_ok H m.
Proof. by intros [? ? ? ? []]. Qed.

Lemma following_synced m : inv m -> following m -> synced H m /\ at_rest m.
Proof. clear granted. intros I F. pose proof (inv_phase _ _ I) as P. unfold phase_ok, following in *. destruct (m_phase m) as [| |? ? []|]; naive_solver. Qed.

Lemma following_fallen m : inv m -> following m -> fallen m.
Proof. clear granted.
  intros I F. destruct (following_synced m I F) as [_ (P1 & P2 & P3)]. split_and!; [by apply inv_base| |done|].
  - intros Hr. apply (inv_page _ _ I) in Hr. rewrite P1 in Hr. by destruct Hr.
  - pose proof (inv_phase _ _ I) as P. unfold following, phase_ok in *. destruct (m_phase m) as [| |? ? []|]; naive_solver.
Qed.

Lemma snapshot_fallback_inv d m s : fallen m -> wp (snapshot_fallback d) (fun _ m' _ => safe m m') m s.
Proof.
  intros ((W & R & O & P) & Np & Ep & Hph). unfold snapshot_fallback. wps.
  assert (forall b m1 s1, keeps m m1 -> Forall (genuine_event H) b -> m_compare_with m = None ->
    wp (rv ← gets m_rev;
      modify (put_phase (Recovering rv b BySnapshot));;
      modify (retain_reads RRecover);;
      modify (fun m => put_snap_due (Some (default false (m_snap_due m) || d)) m);;
      try_snapshot) (fun _ m' _ => safe m m') m1 s1) as K.
  { intros b m1 s1 [C1 C2] Gb Ec. wps. unfold core in C1. injection C1 as Et Er Eq Eph Epg Esd Erc Ecw Erd.
    wp_call try_snapshot_inv; [|intros _ m' _ [I' S']; split; [done|]; cbn in S'; by rewrite C2 in S'].
    split; cbn.
    - by rewrite Et.
    - unfold phase_ok. cbn. rewrite Epg, Ep, Ecw. split_and!; [done|done| |by eexists].
      intros (id & o & n & E). cbn in E. by apply map_lookup_filter_Some in E as [_ []].
    - unfold recon_ok. cbn. by rewrite Erc.
    - unfold ops_utf8. cbn. by rewrite Eq, C2.
    - rewrite Epg. split.
      + intros i j o n o' n' E E'. cbn in E, E'. rewrite Erd in E, E'.
        apply map_lookup_filter_Some in E as [E _], E' as [E' _]. by eapply P.
      + intros (id & o & n & E). cbn in E. rewrite Erd in E. apply map_lookup_filter_Some in E as [E _].
        destruct Np. by do 3 eexists. }
  assert (forall m1, keeps m m1 -> forall ph, m_phase m1 = ph -> match ph with Live | Recovering _ _ _ => True | _ => False end /\
    match ph with Recovering _ b _ => Forall (genuine_event H) b | _ => True end /\ m_compare_with m = None) as K'.
  { intros m1 [C _] ph <-. assert (m_phase m1 = m_phase m) as -> by (unfold core in C; congruence).
    destruct (m_phase m); naive_solver. }
  apply wp_when; intros _; wps;
    (match goal with |- wp (match m_phase ?x with _ => _ end) _ _ _ => specialize (K' x (conj eq_refl eq_refl) _ eq_refl) end;
     cbn [m_phase put_detached_copy] in *; destruct (m_phase m) as [b| |sn b how|]; destruct K' as (F & Gb & Ec); try done; by apply K).
Qed.

Lemma suspect_inv m s : inv m -> wp suspect (fun _ m' _ => safe m m' /\ m_rev m' = m_rev m) m s.
Proof.
  intros I. unfold suspect. wps. destruct (m_phase m) as [b| |sn b how|] eqn:Eph;
    try (wps; split; [split; [by apply (inv_frame H m)|by left]|done]).
  wps. wp_call send_read_spec. intros _ m' _ (n & rs & -> & Hrs). cbn in Hrs. split; [split; [|by left]|done].
  apply (inv_reads RRecover); try done. pose proof (inv_phase _ _ I) as P. unfold phase_ok in P. rewrite Eph in P.
  destruct P as [P1 P2]. destruct I as [I1 I2 I3 I4 I5]. split; try done.
Qed.

Lemma reverted_inv j m m' : inv m -> following m -> reverted j m m' -> inv m' /\ following m'.
Proof. clear granted.
  intros I F R. destruct (reverted_base _ _ _ R (inv_base _ I)) as (W & Rc & O & P).
  destruct (following_synced m I F) as [Sy Ar]. pose proof (reverted_synced _ _ _ R Sy) as Sy'.
  destruct R as (t' & _ & C & _). unfold core in C. cbn in C. injection C as _ _ _ Eph Epg Esd _ Ecw Erd.
  unfold following in *. rewrite Eph. split; [|done]. split; try done.
  - pose proof (inv_phase _ _ I) as Ph. unfold phase_ok, at_rest in *. rewrite Eph, Epg, Esd, Ecw.
    destruct (m_phase m) as [| |? ? []|]; naive_solver.
  - split; [done|]. pose proof (inv_page _ _ I) as [_ Q]. unfold reads_kind in *. by rewrite Epg, Erd.
Qed.

(** ** Folding *)

Lemma work_put_work m work :
  length work = length (work_of m) -> work_of (put_work work m) = work.
Proof.
  assert (forall q l, length l = length q -> map (fun q => pd_items q.2) (put_queue_items q l) = l) as K.
  { induction q as [|[n p] q IH]; intros [|x l]; cbn; intros Hl; try done. rewrite IH; [done|lia]. }
  unfold work_of, put_work. rewrite length_app, length_map.
  destruct (m_inflight m) as [[p [] w st|]|] eqn:E; cbn; intros Hl; rewrite ?E; cbn; try (by apply K).
  destruct work as [|x work]; [done|]. cbn. rewrite K by (cbn in Hl; lia). done.
Qed.

(** Folding keeps what the items insert and what they removed. *)
Definition texts_of (items : list Item) : list (bytes * bytes) := map (fun it => (it_text it, it_deleted it)) items.

Lemma fold_op_texts x ii items x' items' : fold_op x ii items = Some (x', items') -> texts_of items' = texts_of items.
Proof.
  unfold fold_op. intros E. apply bind_Some in E as (items1 & Hm & E). apply bind_Some in E as (x1 & _ & [= <- <-]).
  apply (mapM_put_range (fun r => transform_through_set r [(x, ii)] ThroughFirst)) in Hm. unfold texts_of.
  induction Hm as [|it it' l l' (E1 & E2 & _) Hm IH]; cbn; [done|]. by rewrite E1, E2, IH.
Qed.

Lemma fold_ops_texts x ii j ops x' ops' : fold_ops x ii j ops = Ok (x', ops') -> map texts_of ops' = map texts_of ops.
Proof.
  revert x j x' ops'; induction ops as [|items ops IH]; intros x j x' ops' E; cbn in E; [by injection E as <- <-|].
  destruct (fold_op x ii items) as [[x1 items1]|] eqn:Ef; [|done]. run_inv E. destruct x0 as [x2 ops2]. injection E as <- <-.
  cbn. f_equal; [by eapply fold_op_texts|by eapply IH].
Qed.

Lemma fold_steps_texts edits ops out ops' : fold_steps edits ops = Ok (out, ops') -> map texts_of ops' = map texts_of ops.
Proof.
  revert ops out ops'; induction edits as [|r edits IH]; intros ops out ops' E; cbn in E; [by injection E as <- <-|].
  run_inv E. destruct x as [x ops1]. run_inv E. destruct x0 as [out1 ops2]. injection E as <- <-.
  rewrite (IH _ _ _ Hx0). by eapply fold_ops_texts.
Qed.

Lemma texts_weight mu ops ops' : map texts_of ops' = map texts_of ops -> ops_weight mu ops' = ops_weight mu ops.
Proof.
  intros E. unfold ops_weight.
  assert (forall l, map (fun items => sum_list (map (fun it => mu (it_text it)) items)) l =
    map (fun ts => sum_list (map (fun x => mu x.1) ts)) (map texts_of l)) as K.
  { intros l. rewrite map_map. apply map_ext. intros items. unfold texts_of. by rewrite map_map. }
  by rewrite !K, E.
Qed.

Lemma texts_utf8 items items' : texts_of items' = texts_of items -> Forall item_utf8 items -> Forall item_utf8 items'.
Proof.
  unfold texts_of. revert items'; induction items as [|it items IH]; intros [|it' items']; cbn; try done.
  intros [= E1 E2 E3] F. inversion F as [|? ? [U1 U2] F']; subst. constructor; [split; congruence|by apply IH].
Qed.

Lemma put_work_utf8 m work :
  ops_utf8 m -> map texts_of work = map texts_of (work_of m) -> ops_utf8 (put_work work m).
Proof.
  assert (forall q l, map texts_of l = map texts_of (map (fun q : Z * Pending => pd_items q.2) q) ->
    Forall (fun q => pending_utf8 q.2) q -> Forall (fun q => pending_utf8 q.2) (put_queue_items q l)) as K.
  { induction q as [|[n p] q IH]; intros [|x l]; cbn; try done. intros [= E1 E2] F. inversion F; subst.
    constructor; [|by apply IH]. cbn. by eapply texts_utf8. }
  intros [O1 O2]. unfold work_of, put_work, ops_utf8.
  destruct (m_inflight m) as [[p [] w st|]|] eqn:Ei; cbn; rewrite ?Ei; intros E; try (split; [by apply K|done]).
  destruct work as [|x work]; [done|]. injection E as E1 E2. split; [by apply K|]. by eapply texts_utf8.
Qed.

Lemma put_work_core work m :
  core (put_work work m) =
  (m_text m, m_rev m, m_queue (put_work work m), m_phase m, (m_pager m, m_snap_due m, m_recon m, m_compare_with m, m_reads m)).
Proof. unfold put_work, core. by destruct (m_inflight m) as [[? [] ? ?|]|]. Qed.

Lemma put_work_slot work m :
  m_inflight (put_work work m) = match m_inflight m with
    | Some (ILocal p true w st) => Some (ILocal (put_items p (default [] (head work))) true w st)
    | i => i end.
Proof. unfold put_work. destruct (m_inflight m) as [[? [] ? ?|]|] eqn:E; done. Qed.

Definition not_own m (ev : Ev) : Prop :=
  match m_inflight m with Some (ILocal p true _ _) => ev_op_id ev <> Some (pd_op_id p) | _ => True end.

(** The view moved on to the next revision. *)
Lemma synced_advance m ev out work t' :
  synced H m -> genuine_ev H ev -> ev_base_rev ev = m_rev m -> not_own m ev ->
  fold_steps (ev_edits ev) (work_of m) = Ok (out, work) ->
  text t' = apply_seq (text (m_text m)) out ->
  synced H (put_rev (ev_rev ev) (put_work work (put_text t' m))).
Proof. clear granted.
  intros (r & Er & Hr & Hc & Hf & Ho) (i & e & E1 & E2 & Ee & Es & Eid) Hb Hn Hfs Et.
  assert (i = r) as -> by (rewrite Er in Hb; lia). destruct (entry_at H r e HW Ee) as [Hok Ut].
  pose proof (fold_steps_length _ _ _ _ Hfs) as Hlen. pose proof (fold_steps_texts _ _ _ _ Hfs) as Htx.
  rewrite Es in Hfs. destruct (fold_steps_exact _ _ _ _ _ _ Ut Hok Hc Hfs) as (Hc' & _ & _).
  assert (work_of (put_rev (ev_rev ev) (put_work work (put_text t' m))) = work) as Ew.
  { change (work_of (put_work work (put_text t' m)) = work). by apply work_put_work. }
  exists (S r). rewrite Ew. split_and!.
  - by cbn.
  - apply lookup_lt_Some in Ee. lia.
  - rewrite (text_at_S _ _ _ Ee). assert (m_text (put_rev (ev_rev ev) (put_work work (put_text t' m))) = t') as ->.
    { pose proof (put_work_core work (put_text t' m)) as C. unfold core in C.
      change (m_text (put_work work (put_text t' m)) = t'). by injection C as ->. }
    by rewrite Et.
  - intros k. unfold roomy. rewrite !(texts_weight _ _ _ Htx). apply Hf.
  - cbn [m_inflight put_rev]. rewrite put_work_slot. cbn [m_inflight put_text].
    unfold not_own, work_of in Hn, Hfs, Hc. destruct (m_inflight m) as [[p [] w st|]|] eqn:Ei; try done.
    destruct Ho as (b & items0 & Q1 & Q2 & Q3 & Q4 & Q5 & Q6 & Qd & Q7). destruct Hc as [Ho _].
    apply fold_steps_head in Hfs as (items' & rest & -> & Hre); [|by eapply items_ok_ordered]. cbn.
    exists b, items0. split_and!; try done; [lia| |].
    + rewrite (edits_between_S _ _ _ _ Q2 Ee). by eapply rebase_edits_app.
    + intros j e' Hj Ej. destruct (decide (j = r)) as [->|Hne]; [simplify_eq; by rewrite <- Eid|]. apply (Q6 j); [lia|done].
Qed.

Lemma advance_inv m ev out work t' :
  inv m -> following m -> genuine_ev H ev -> ev_base_rev ev = m_rev m -> not_own m ev ->
  fold_steps (ev_edits ev) (work_of m) = Ok (out, work) -> text_wf t' ->
  text t' = apply_seq (text (m_text m)) out ->
  inv (put_rev (ev_rev ev) (put_work work (put_text t' m))) /\
  following (put_rev (ev_rev ev) (put_work work (put_text t' m))).
Proof. clear granted.
  intros I F Gv Hb Hn Hfs W Et. destruct (following_synced m I F) as [Sy Ar].
  pose proof (synced_advance _ _ _ _ _ Sy Gv Hb Hn Hfs Et) as Sy'.
  pose proof (put_work_utf8 (put_text t' m) work (inv_ops _ _ I) (fold_steps_texts _ _ _ _ Hfs)) as Ou.
  pose proof (put_work_core work (put_text t' m)) as C. injection C as Et' Er' Eph Epg Esd Erc Ecw Erd. cbn in *.
  unfold following in *. cbn. rewrite Eph. split; [|done]. destruct I as [I1 I2 I3 I4 I5]. split.
  - cbn. by rewrite Et'.
  - unfold phase_ok, at_rest in *. cbn. rewrite Eph, Epg, Esd, Ecw. destruct (m_phase m) as [| |? ? []|]; naive_solver.
  - unfold recon_ok. cbn. by rewrite Erc.
  - exact Ou.
  - unfold one_page, reads_kind. cbn. by rewrite Erd, Epg.
Qed.

Lemma reverted_slot j m m' : reverted j m m' -> m_inflight m' = m_inflight m \/ present_inflight m = true /\ present_inflight m' = false.
Proof.
  intros (t' & _ & _ & I & _). destruct (j <? base_of m); [|by left]. right. unfold present_inflight.
  destruct I as (p & w & st & -> & [->|(st' & -> & _)]); done.
Qed.

Lemma safe_absent m m' : safe m m' -> present_inflight m = false -> present_inflight m' = false.
Proof.
  unfold present_inflight. intros [_ [->|Ha]] Hp; [done|]. by destruct (m_inflight m') as [[? [] ? ?|]|]; try destruct Ha.
Qed.

(** What a handler that folds leaves: the invariant, and no operation put into the view. *)
Definition folds m m' : Prop := inv m' /\ (present_inflight m = false -> present_inflight m' = false).

Lemma safe_folds m m' : safe m m' -> folds m m'.
Proof. intros S. split; [by destruct S|by apply safe_absent]. Qed.

Lemma folds_trans m1 m2 m3 : (present_inflight m1 = false -> present_inflight m2 = false) -> folds m2 m3 -> folds m1 m3.
Proof. intros H1 [I H2]. split; auto. Qed.

Lemma keeps_present m m' : keeps m m' -> present_inflight m' = present_inflight m.
Proof. unfold present_inflight. by intros [_ ->]. Qed.

Lemma keeps_following m m' : keeps m m' -> following m -> following m'.
Proof. intros [C _] F. unfold following in *. unfold core in C. injection C as _ _ _ -> _ _ _ _ _. done. Qed.

Lemma folded_end m ev out conflict (desync : bool) m1 s1 :
  inv m1 -> following m1 -> (present_inflight m = false -> present_inflight m1 = false) ->
  wp (note_conflict conflict;;
      when (match ev_kind ev with KwReload => true | _ => false end) (modify (put_saved (ev_rev ev)));;
      when (negb (is_own_origin (ev_origin ev)))
        (modify (put_last_remote (Some (mkRemoteMark (ev_origin ev) (ev_lane ev) (ev_rev ev) (ev_kind ev)
           (foldl span_step None out)))));;
      push_delta out (parse_origin (ev_origin ev)) (delta_kind (ev_kind ev));;
      when desync (snapshot_fallback true)) (fun _ m' _ => folds m m') m1 s1.
Proof.
  intros I F Hp. wp_call note_conflict_keeps. intros _ m2 s2 K2. apply wp_bind.
  apply (wp_mono _ (fun _ m' _ => keeps m1 m')).
  { apply wp_when; intros _; [wps; by destruct K2|done]. }
  cbv beta. clear m2 s2 K2. intros _ m2 s2 K2. apply wp_bind. apply (wp_mono _ (fun _ m' _ => keeps m1 m')).
  { apply wp_when; intros _; [wps; by destruct K2|done]. }
  cbv beta. clear m2 s2 K2. intros _ m2 s2 K2. wp_call push_delta_keeps. intros _ m3 s3 K3.
  pose proof (keeps_trans _ _ _ K2 K3) as K. apply (inv_keeps H _ _ I) in K as I3.
  assert (present_inflight m = false -> present_inflight m3 = false) as Hp3 by (rewrite (keeps_present _ _ K); done).
  apply wp_when; intros _; [|by split].
  wp_call snapshot_fallback_inv; [apply following_fallen; [done|by eapply keeps_following]|].
  intros _ m' _ S. eapply folds_trans; [exact Hp3|by apply safe_folds].
Qed.

Lemma fold_remote_loop_inv fuel ev conflict desync m s :
  inv m -> following m -> genuine_ev H ev -> ev_base_rev ev = m_rev m -> not_own m ev -> length (work_of m) < fuel ->
  wp (fold_remote_loop fuel ev conflict desync) (fun _ m' _ => folds m m') m s.
Proof.
  revert conflict desync m s; induction fuel as [|fuel IH]; intros conflict desync m s I F Gv Hb Hn Hl; [lia|].
  cbn [fold_remote_loop]. wps. destruct (fold_steps (ev_edits ev) (work_of m)) as [[out work]|j] eqn:Hfs.
  - assert (inserts_utf8 out) as Uo.
    { destruct (following_synced m I F) as [(r & Er & Hr & Hc & _) _]. destruct Gv as (i & e & E1 & E2 & Ee & Es & _).
      assert (i = r) as -> by (rewrite Er in Hb; lia). destruct (entry_at H r e HW Ee) as [Hok Ut]. rewrite <- Es in Hok.
      destruct (fold_steps_exact _ _ _ _ _ _ Ut Hok Hc Hfs) as (_ & Ho & _). by eapply edits_ok_inserts. }
    wp_call apply_view_inv; [apply I|done|]. intros failed m1 s1 (t' & -> & W' & Et). destruct failed as [err|].
    + wp_call snapshot_fallback_inv.
      * destruct (following_fallen m I F) as ((Q1 & Q2 & Q3 & Q4) & Q5 & Q6 & Q7). by split_and!.
      * intros _ m' _ S. by apply (safe_folds (put_text t' m)).
    + destruct (advance_inv m ev out work t' I F Gv Hb Hn Hfs W' (Et eq_refl)) as [I' F'].
      apply wp_bind, wp_modify, wp_bind, wp_modify. apply folded_end; try done. unfold present_inflight. cbn [m_inflight put_rev]. rewrite put_work_slot. cbn.
      by destruct (m_inflight m) as [[? [] ? ?|]|].
  - pose proof (fold_steps_err _ _ _ Hfs) as Hj. wp_call revert_suffix_spec; [apply I|apply I|lia|].
    intros [d c] m1 s1 R. destruct (reverted_inv j m m1 I F R) as [I1 F1]. destruct (reverted_slot _ _ _ R) as [E|[Hp Hp']].
    + eapply wp_mono; [apply IH; try done|].
      * destruct R as (t' & _ & C & _). unfold core in C. by injection C as _ -> _ _ _ _ _ _ _.
      * unfold not_own. by rewrite E.
      * rewrite (reverted_work _ _ _ R), length_take. lia.
      * cbv beta. intros _ m' _ Fo. eapply folds_trans; [|exact Fo]. unfold present_inflight. by rewrite E.
    + eapply wp_mono; [apply IH; try done|].
      * destruct R as (t' & _ & C & _). unfold core in C. by injection C as _ -> _ _ _ _ _ _ _.
      * unfold not_own. unfold present_inflight in Hp'. by destruct (m_inflight m1) as [[? [] ? ?|]|].
      * rewrite (reverted_work _ _ _ R), length_take. lia.
      * cbv beta. intros _ m' _ Fo. eapply folds_trans; [|exact Fo]. congruence.
Qed.

Lemma fold_remote_inv ev m s :
  inv m -> following m -> genuine_ev H ev -> ev_base_rev ev = m_rev m -> not_own m ev ->
  wp (fold_remote ev) (fun _ m' _ => folds m m') m s.
Proof. intros. unfold fold_remote. wps. apply fold_remote_loop_inv; try done. lia. Qed.

Lemma roomy_suffix t l k : roomy t (l ++ k) -> roomy t k.
Proof. unfold roomy. rewrite !ops_weight_app. lia. Qed.

Lemma folds_after_rev m m1 s1 : folds m m1 -> wp after_rev (fun _ m' _ => folds m m') m1 s1.
Proof.
  intros [I Hp]. wp_call after_rev_settles. intros _ m' _ S. split; [by eapply inv_settles|].
  intros E. specialize (Hp E). destruct S as [K|[_ [_ K]]]; [by rewrite (keeps_present _ _ K)|]. unfold present_inflight. by rewrite K.
Qed.

Lemma work_cleared m m' : clears m m' -> work_of m' = map (fun q => pd_items q.2) (m_queue m).
Proof. intros [C1 C2]. unfold core in C1. injection C1 as _ _ Eq _ _ _ _ _ _. unfold work_of. by rewrite C2, Eq. Qed.

(** The server committed the operation in flight as the next revision: its text is already in the view. *)
Lemma acked_inv m p w st r e m' :
  inv m -> following m -> m_inflight m = Some (ILocal p true w st) -> m_rev m = Z.of_nat r ->
  sh_log H !! r = Some e -> le_op_id e = Some (pd_op_id p) ->
  clears (put_rev (Z.of_nat (S r)) m) m' -> inv m' /\ following m'.
Proof. clear granted.
  intros I F Ei Er Ee Eid C. destruct (following_synced m I F) as [(r' & Er' & Hr & Hc & Hf & Ho) Ar].
  assert (r' = r) as -> by lia. rewrite Ei in Ho. destruct Ho as (b & items0 & _ & Q2 & _ & Q4 & Q5 & _ & _).
  destruct (Q5 r e Ee Eid) as (_ & its' & sq & Hre & Htx & Hed). apply rebase_edits_pairs in Q4. simplify_eq.
  pose proof (work_cleared _ _ C) as Ew. cbn in Ew. unfold work_of in Hc, Hf. rewrite Ei in Hc, Hf. cbn [app] in Hc, Hf.
  destruct Hc as [Hok Hc]. destruct (pending_edits_exact _ _ Hok) as [Hp _].
  assert (pending_edits p = le_edits e) as Epe by (unfold pending_edits, pending_seq; fold (item_pairs (pd_items p)); by rewrite Htx).
  assert (synced H m') as Sy.
  { destruct C as [C1 C2]. unfold core in C1. injection C1 as E1 E2 _ _ _ _ _ _ _. exists (S r). rewrite Ew, E1, E2, C2. cbn.
    split_and!; [done|by apply lookup_lt_Some in Ee| | |done].
    - by rewrite (text_at_S _ _ _ Ee), <- Epe, Hp.
    - intros k. by apply (roomy_suffix _ [pd_items p]). }
  destruct C as [C1 C2]. unfold core in C1. cbn in C1. injection C1 as E1 E2 E3 E4 E5 E6 E7 E8 E9.
  destruct I as [I1 I2 I3 [I4 _] I5]. unfold following in *. rewrite E4. split; [|done]. split.
  - by rewrite E1.
  - unfold phase_ok, at_rest in *. rewrite E4, E5, E6, E8. destruct (m_phase m) as [| |? ? []|]; naive_solver.
  - unfold recon_ok. by rewrite E7.
  - unfold ops_utf8. by rewrite E3, C2.
  - unfold one_page, reads_kind. by rewrite E9, E5.
Qed.

Lemma set_local_replied_spec r m s :
  wp (set_local_replied r) (fun _ m' _ => core m' = core m /\
    (forall p b w st, m_inflight m = Some (ILocal p b w st) -> m_inflight m' = Some (ILocal p false w (Replied (mkReplyInfo r false)))) /\
    (m_inflight m = None -> m_inflight m' = None)) m s.
Proof. unfold set_local_replied. wps. destruct (m_inflight m) as [[]|] eqn:E; naive_solver. Qed.

(** A reply or an edit for an operation that was taken back: the view is read again. *)
Lemma doomed_fallback rv p b w st m s :
  inv m -> fallen m -> m_inflight m = Some (ILocal p b w st) ->
  wp (set_local_replied rv;; snapshot_fallback true) (fun _ m' _ => folds m m') m s.
Proof.
  intros I Fa Ei. wp_call set_local_replied_spec. intros _ m1 s1 (C & E & _). specialize (E _ _ _ _ Ei).
  wp_call snapshot_fallback_inv.
  - destruct Fa as ((Q1 & Q2 & [Q3 Q3'] & Q4) & Q5 & Q6 & Q7). unfold core in C. injection C as E1 E2 E3 E4 E5 E6 E7 E8 E9.
    unfold fallen, base_ok, recon_ok, ops_utf8, one_page, reads_kind. rewrite E1, E3, E4, E5, E7, E8, E9, E. rewrite Ei in Q3'. by split_and!.
  - intros _ m' _ S. eapply folds_trans; [|by apply safe_folds]. unfold present_inflight. by rewrite E.
Qed.

Lemma fold_edit_inv ev m s :
  inv m -> following m -> genuine_ev H ev -> ev_base_rev ev = m_rev m ->
  wp (fold_edit ev) (fun _ m' _ => folds m m') m s.
Proof.
  intros I F Gv Hb.
  assert (not_own m ev -> forall b, wp (c ← gets m_completed;
      when (b c) (warn MSG_DOUBLE_COMMIT);; fold_remote ev;; after_rev) (fun _ m' _ => folds m m') m s) as K.
  { intros Hn b. wps.
    assert (forall s1, wp (fold_remote ev;; after_rev) (fun _ m' _ => folds m m') m s1) as K.
    { intros s1. wp_call fold_remote_inv; try done. intros _ m1 s2 Fo. by apply folds_after_rev. }
    apply wp_when; intros _; [apply wp_push_notice; intros s1|]; apply K. }
  unfold fold_edit. wps.
  destruct (m_inflight m) as [[p present w st|]|] eqn:Ei; try (apply (K ltac:(unfold not_own; by rewrite Ei)); fail).
  destruct (match ev_op_id ev with Some id => bool_decide (pd_op_id p = id) | None => false end) eqn:Eown.
  2: { apply K. unfold not_own. rewrite Ei. destruct present; [|done]. intros E. rewrite E in Eown. by apply bool_decide_eq_false in Eown. }
  assert (ev_op_id ev = Some (pd_op_id p)) as Eid.
  { destruct (ev_op_id ev) as [id|]; [|done]. by apply bool_decide_eq_true in Eown as ->. }
  assert (wp ((if present then modify (put_rev (ev_rev ev));; ack_inflight else fold_remote ev;; ack_inflight);; after_rev)
    (fun _ m' _ => folds m m') m s) as K'.
  { destruct present.
    - wps. wp_call ack_inflight_clears. intros _ m1 s1 C. apply folds_after_rev.
      destruct Gv as (i & e & E1 & E2 & Ee & Es & Eo). rewrite E1 in C.
      destruct (acked_inv m p w st i e m1) as [I1 _]; try done; [congruence..|]. split; [done|].
      intros Hp. unfold present_inflight in *. by rewrite Ei in Hp.
    - wps. wp_call fold_remote_inv; try done; [unfold not_own; by rewrite Ei|]. intros _ m1 s1 [I1 P1].
      assert (present_inflight m1 = false) as Hp by (apply P1; unfold present_inflight; by rewrite Ei).
      wp_call ack_inflight_clears. intros _ m2 s2 C. apply folds_after_rev. split; [by eapply inv_clears|].
      intros _. unfold present_inflight. destruct C as [_ ->]. done. }
  destruct st; try exact K'. eapply doomed_fallback; [done|by apply following_fallen|done].
Qed.

Lemma push_buffered_inv e m : inv m -> genuine_event H e -> inv (push_buffered e m).
Proof.
  intros [I1 I2 I3 I4 I5] Ge. unfold push_buffered. destruct (m_phase m) as [b| |sn b how|] eqn:Ep; try done;
    (split; try done; unfold phase_ok in *; rewrite Ep in I2; cbn).
  - destruct I2 as (P1 & P2 & P3 & P4). split_and!; try done. by apply Forall_app_2; [|constructor].
  - destruct how.
    + destruct I2 as (P1 & P2 & P3). split_and!; try done; [apply P2..|]. by apply Forall_app_2; [|constructor].
    + destruct I2 as (P1 & P2 & P3 & P4). split_and!; try done. by apply Forall_app_2; [|constructor].
Qed.

Lemma push_buffered_slot e m : m_inflight (push_buffered e m) = m_inflight m.
Proof. unfold push_buffered. by destruct (m_phase m). Qed.

Lemma on_edit_event_inv e m s :
  inv m -> genuine_event H e -> wp (on_edit_event e) (fun _ m' _ => folds m m') m s.
Proof.
  intros I Ge. assert (folds m m) as Fm by (by split).
  assert (folds m (push_buffered e m)) as Fb.
  { split; [by apply push_buffered_inv|]. unfold present_inflight. by rewrite push_buffered_slot. }
  unfold on_edit_event. wps. destruct (m_phase m) as [b| |sn b how|] eqn:Ep; wps; try done.
  destruct (ee_rev e <=? m_rev m)%Z; [by wps|]. destruct (Z.eqb_spec (ee_base_rev e) (m_rev m)) as [Hb|Hb]; cbn [negb].
  - apply fold_edit_inv; try done. unfold following. by rewrite Ep.
  - wp_call suspect_inv; [done|]. intros _ m1 s1 [S1 _]. wps. apply safe_folds in S1.
    assert (folds m (push_buffered e m1)) as Fb1.
    { destruct S1 as [I1 P1]. split; [by apply push_buffered_inv|]. unfold present_inflight in *. by rewrite push_buffered_slot. }
    by destruct (m_phase m1); wps.
Qed.
End fold.
