(* ===== verification/MirrorSafe.v ===== *)
(** * Recovery and replies

    The handlers of snapshots, history pages, reconciliation and replies keep the mirror's
    invariant, under conditions on what the server sends: its pages and entries are those of its
    history, and a reply's revision is the one the request was committed at. *)

From S2P Require Import Prelude Utf8 EditBase Ot Anchor GapBuffer Memory Text Buffer BufferSpec Str Json MirrorTypes Mirror MirrorOt MirrorInv MirrorFold.

(** Every text of the history is within the limits. *)
Definition hist_fits (H : ServerHistory) : Prop := forall k, roomy (text_at H k) [].

Section safe.
Context {G : Type} {TS : TextStore G} {SL : TextStoreLaws G} {ENV : MirrorEnv}.
Context (H : ServerHistory) (HW : hist_wf H) (HF : hist_fits H).
Hypothesis granted : memory_granted G env_reserve.
Implicit Types m : Mirror G.
Abbreviation inv := (inv H).
Abbreviation safe := (safe H).
Abbreviation folds := (folds H).

Lemma folds_refl m : inv m -> folds m m.
Proof. by split. Qed.

Lemma folds_two m1 m2 m3 : folds m1 m2 -> folds m2 m3 -> folds m1 m3.
Proof. intros [_ P] F. by eapply folds_trans. Qed.

Lemma folds_keeps m m1 m2 : folds m m1 -> keeps m1 m2 -> folds m m2.
Proof. intros [I P] K. split; [by eapply inv_keeps|]. by rewrite (keeps_present _ _ K). Qed.

Lemma folds_settles m m1 m2 : folds m m1 -> settles m1 m2 -> folds m m2.
Proof.
  intros [I P] S. split; [by eapply inv_settles|]. intros E. specialize (P E).
  destruct S as [K|[_ [_ K]]]; [by rewrite (keeps_present _ _ K)|]. unfold present_inflight. by rewrite K.
Qed.

Lemma folds_clears m m' : inv m -> (following m -> present_inflight m = false) -> clears m m' -> folds m m'.
Proof. intros I Hp C. split; [by eapply inv_clears|]. intros _. unfold present_inflight. by destruct C as [_ ->]. Qed.

(** Nothing is being read: the view can be given up. *)
Lemma rest_fallen m : inv m -> m_pager m = None -> is_detached m = false -> fallen H m.
Proof.
  intros I Ep Hd. pose proof (inv_phase _ _ I) as P. unfold phase_ok, is_detached in *.
  assert (~ reads_kind m RPage) as Np by (intros Hr; apply (inv_page _ _ I) in Hr; rewrite Ep in Hr; by destruct Hr).
  pose proof (inv_base H m I) as B. unfold fallen. destruct (m_phase m) as [b| |sn b how|]; [| | |done].
  - destruct P as (_ & _ & _ & pg & E & _). congruence.
  - destruct P as [_ (_ & _ & P)]. by split_and!.
  - destruct how; [destruct P as (_ & (_ & _ & P) & Gb)|destruct P as (Gb & P & _)]; by split_and!.
Qed.

Lemma snapshot_fallback_safe d m s : inv m -> m_pager m = None -> wp (snapshot_fallback d) (fun _ m' _ => safe m m') m s.
Proof.
  intros I Ep. destruct (is_detached m) eqn:Ed; [|by apply snapshot_fallback_inv; [..|apply rest_fallen]].
  unfold snapshot_fallback, is_detached in *. wps.
  apply wp_when; intros _; wps; cbn [m_phase put_detached_copy]; destruct (m_phase m); try done; wps; by apply safe_keeps.
Qed.

Lemma doomed_rest m : inv m -> is_doomed m -> m_pager m = None.
Proof. clear granted HW HF.
  intros I Hd. destruct (m_pager m) as [pg|] eqn:Ep; [|done]. pose proof (inv_phase _ _ I) as P. unfold phase_ok, at_rest in P.
  rewrite Ep in P. destruct (m_phase m) as [b| |sn b []|].
  - unfold is_doomed in Hd. destruct P as (_ & P & _). by rewrite P in Hd.
  - naive_solver.
  - naive_solver.
  - destruct P as (_ & _ & _ & _ & _ & _ & P & _). done.
  - naive_solver.
Qed.

(** ** Events *)

Lemma on_resync_inv r m s : inv m -> wp (on_resync r) (fun _ m' _ => folds m m') m s.
Proof.
  intros I.
  assert (forall s, wp suspect (fun _ m' _ => folds m m') m s) as K.
  { intros s'. wp_call (suspect_inv H); [done|]. intros _ m' _ [S _]. by apply safe_folds. }
  unfold on_resync. destruct (rs_buffers r) as [|v]; [apply K|]. wps.
  destruct (negb _); [by wps; apply folds_refl|]. wps.
  destruct (rs_reason r); [|apply K..]. destruct (rs_rev r) as [rv|]; [|apply K].
  unfold is_live. destruct (m_phase m) eqn:Eph; [apply K| |apply K..].
  destruct (rv <=? m_rev m)%Z; [by wps; apply folds_refl|].
  destruct (m_inflight m) as [[p [] w [|info| |]|]|] eqn:Ei; try apply K.
  destruct (_ && _) eqn:E; [|apply K]. apply andb_true_iff in E as [E1 E2]. apply Z.eqb_eq in E1, E2.
  assert (following m) as F by (unfold following; by rewrite Eph).
  destruct (following_synced H m I F) as [(r0 & Er & Hr & Hc & Hf & Ho) _]. rewrite Ei in Ho.
  destruct Ho as (b & items0 & _ & _ & _ & _ & _ & _ & _ & Q7). destruct (Q7 info eq_refl) as (i & e & Ri & Ee & Eid).
  wps. wp_call ack_inflight_clears. intros _ m1 s1 C. apply folds_after_rev.
  assert (i = r0) as -> by lia. assert (rv = Z.of_nat (S r0)) as -> by lia.
  destruct (acked_inv H m p w _ r0 e m1 I F Ei Er Ee Eid C) as [I1 _]. split; [done|].
  unfold present_inflight. by rewrite Ei.
Qed.

Lemma on_cursor_keeps c m s : wp (on_cursor c) (fun _ m' _ => keeps m m') m s.
Proof. unfold on_cursor. wps. by case_match. Qed.

(** ** Going live *)

Lemma replay_buffered_inv evs m s :
  inv m -> Forall (genuine_event H) evs -> wp (replay_buffered evs) (fun _ m' _ => folds m m') m s.
Proof.
  intros I Ge; revert m s I; induction Ge as [|e evs He Ge IH]; intros m s I; cbn [replay_buffered]; [by wps; apply folds_refl|].
  wps. assert (forall s1, wp (modify (push_buffered e);; replay_buffered evs) (fun _ m' _ => folds m m') m s1) as K.
  { intros s1. wps. eapply wp_mono; [apply IH; by apply push_buffered_inv|]. cbv beta. intros _ m' _ F. eapply folds_trans; [|exact F].
    unfold present_inflight. by rewrite push_buffered_slot. }
  destruct (m_phase m); try apply K; [|by wps; apply folds_refl].
  wp_call on_edit_event_inv; try done. intros _ m1 s1 F1. eapply wp_mono; [apply IH; apply F1|].
  cbv beta. intros _ m' _ F2. by eapply folds_two.
Qed.

(** The view is the server's, and the buffered events are still to be replayed. *)
Definition landing m : Prop :=
  base_ok H m /\ ~ reads_kind m RPage /\ synced H m /\ at_rest m /\
  match m_phase m with Bootstrapping b | Recovering _ b _ => Forall (genuine_event H) b | _ => False end.

Lemma go_live_inv m s : landing m -> wp go_live (fun _ m' _ => folds m m') m s.
Proof.
  intros ((B1 & B2 & B3 & B4) & Np & Sy & Ar & Hph).
  assert (inv (put_phase Live m)) as I0.
  { by split. }
  assert (forall b s1, Forall (genuine_event H) b -> wp (modify (put_phase Live);; after_rev;; replay_buffered b;;
      live ← gets is_live; again ← gets m_resuspect;
      when live (modify (put_resuspect false);; when again suspect)) (fun _ m' _ => folds m m') m s1) as K.
  { intros b s1 Gb. wps. wp_call folds_after_rev; [by apply folds_refl|]. intros _ m1 s2 F1.
    wp_call replay_buffered_inv; [apply F1|done|]. intros _ m2 s3 F2. wps. pose proof (folds_two _ _ _ F1 F2) as F3.
    assert (folds m m2) as F4 by done.
    apply wp_when; intros _; [|done]. wps. assert (folds m (put_resuspect false m2)) as F5 by (by eapply folds_keeps).
    apply wp_when; intros _; [|done]. wp_call (suspect_inv H); [apply F5|]. intros _ m' _ [S _].
    eapply folds_two; [exact F5|by apply safe_folds]. }
  unfold go_live. wps. destruct (m_phase m) as [b| |sn b how|]; try done; by apply K.
Qed.

(** ** Snapshots *)

(** A snapshot is complete: [t] is the server's text at [rev]. *)
Definition arrived m (t : Text G) (hash : option bytes) (rev : Z) : Prop :=
  base_ok H m /\ ~ reads_kind m RPage /\ m_pager m = None /\ m_queue m = [] /\ m_snap_due m = None /\
  (match m_phase m with Bootstrapping b | Recovering _ b _ => Forall (genuine_event H) b | _ => False end) /\
  text_wf t /\ exists r, rev = Z.of_nat r /\ r <= length (sh_log H) /\ text t = text_at H r /\
    forall old, m_compare_with m = Some old ->
      old = text (m_text m) /\ hash = Some (env_blake3 (text t)) /\ (env_blake3 old = env_blake3 (text_at H r) -> old = text_at H r).

Lemma landed m m' r :
  base_ok H m -> ~ reads_kind m RPage ->
  (match m_phase m with Bootstrapping b | Recovering _ b _ => Forall (genuine_event H) b | _ => False end) ->
  core m' = (m_text m', Z.of_nat r, [], m_phase m, (None, None, m_recon m, None, m_reads m)) ->
  text_wf (m_text m') -> text (m_text m') = text_at H r -> r <= length (sh_log H) -> absent (m_inflight m') -> landing m'.
Proof.
  intros (B1 & B2 & B3 & B4) Np Hph C W Et Hr Ha. unfold core in C. injection C as E2 E3 E4 E5 E6 E7 E8 E9.
  unfold landing, base_ok, recon_ok, ops_utf8, one_page, reads_kind, at_rest. rewrite E3, E4, E5, E6, E7, E8, E9.
  assert (work_of m' = []) as Ew.
  { unfold work_of. rewrite E3. destruct (m_inflight m') as [[? [] ? ?|]|]; try done. by destruct Ha. }
  split_and!; try done; try apply B2; try (destruct (m_inflight m') as [[]|]; try done; apply Ha).
  exists r. rewrite E2, Ew. split_and!; try done. destruct (m_inflight m') as [[? [] ? ?|]|]; try done. by destruct Ha.
Qed.

Lemma finish_snapshot_inv t hash rev m s :
  arrived m t hash rev -> wp (finish_snapshot t hash rev) (fun _ m' _ => folds m m') m s.
Proof.
  intros (B & Np & Ep & Eq & Ed & Hph & Wt & r & -> & Hr & Et & Hc). unfold finish_snapshot. wps.
  apply (wp_mono _ (fun b m1 _ => core m1 = core (put_compare_with None m) /\ m_inflight m1 = m_inflight m /\
    (b = false -> text (m_text m) = text_at H r))).
  { destruct (m_compare_with m) as [old|]; [|by wps]. destruct (Hc old eq_refl) as (Eo & Eh & Hb).
    destruct (bool_decide_reflect (hash = Some (env_blake3 old))) as [E|_]; wps; [|done].
    split_and!; try done. intros _. rewrite <- Eo. apply Hb. rewrite Eh in E. injection E as E. by rewrite <- E, Et. }
  cbv beta. intros b m1 s1 (C1 & Ei & Ht). apply wp_bind.
  apply (wp_mono _ (fun _ m2 _ => core m2 = core (put_text (m_text m2) m1) /\ m_inflight m2 = m_inflight m /\
    text_wf (m_text m2) /\ text (m_text m2) = text_at H r)).
  { apply wp_when; intros Eb; [by wps|]. unfold core in C1. cbn in C1. injection C1 as E1 _ _ _ _ _ _ _ _.
    split_and!; [done|done|rewrite E1; apply B|rewrite E1; by apply Ht]. }
  cbv beta. intros _ m2 s2 (C2 & Ei2 & W2 & Et2). wps.
  set (m3 := put_cursors [] (put_rev (Z.of_nat r) m2)).
  apply (wp_mono _ (fun _ m4 _ => keeps m3 m4)).
  { apply wp_when; intros _; [apply push_delta_keeps|done]. }
  cbv beta. intros _ m4 s4 K4. wps.
  assert (forall m5, core m5 = core m4 -> absent (m_inflight m5) -> landing m5) as Kl.
  { intros m5 C5 Ha. destruct K4 as [C4 _]. rewrite C4 in C5. unfold m3, core in *. cbn in *.
    injection C5 as F1 F2 F3 F4 F5 F6 F7 F8 F9. injection C2 as G2 G3 G4 G5 G6 G7 G8 G9.
    injection C1 as H1 H2 H3 H4 H5 H6 H7 H8 H9. simplify_eq.
    apply (landed m m5 r); try done; unfold core; congruence. }
  assert (absent (m_inflight m) -> absent (m_inflight m4)) as Ha4 by (destruct K4 as [_ ->]; cbn; by rewrite Ei2).
  assert (m_inflight m4 = m_inflight m) as Ei4 by (destruct K4 as [_ ->]; cbn; by rewrite Ei2).
  rewrite Ei4. destruct B as (B1 & B2 & [B3 B3'] & B4).
  destruct (m_inflight m) as [[p pr w st|]|] eqn:Em.
  - destruct (match st with Replied info => _ | _ => false end); wps.
    + wp_call ack_inflight_clears. intros _ m5 s5 [C5 I5]. wp_call go_live_inv; [apply Kl; [done|by rewrite I5]|].
      intros _ m' _ F. eapply folds_trans; [|exact F]. unfold present_inflight. by rewrite I5.
    + wp_call go_live_inv; [by apply Kl|]. intros _ m' _ F. by eapply folds_trans; [|exact F].
  - wps. wp_call go_live_inv; [apply Kl; [done|by rewrite Ei4]|]. intros _ m' _ F. eapply folds_trans; [|exact F]. unfold present_inflight. by rewrite Ei4.
  - wps. wp_call go_live_inv; [apply Kl; [done|by rewrite Ei4]|]. intros _ m' _ F. eapply folds_trans; [|exact F]. unfold present_inflight. by rewrite Ei4.
Qed.

(** What the server promises of a page: with the pages before it, the last one makes the text of its revision. *)
Definition page_ok m (page : GetReply) : Prop :=
  gr_buffer page = m_buffer m -> gr_epoch page = m_epoch m -> forall pg, m_pager m = Some pg ->
  utf8 (default [] (gr_text page)) /\
  (gr_next page = None -> exists r, gr_rev page = Z.of_nat r /\ r <= length (sh_log H) /\
    text (pg_text pg) ++ default [] (gr_text page) = text_at H r /\
    forall old, m_compare_with m = Some old -> env_blake3 old = env_blake3 (text_at H r) -> old = text_at H r).

Lemma paging_state m pg :
  inv m -> m_pager m = Some pg ->
  paging m pg /\ ~ reads_kind m RRecover /\
  match m_phase m with
  | Bootstrapping b => Forall (genuine_event H) b /\ m_inflight m = None
  | Recovering _ b BySnapshot => Forall (genuine_event H) b /\ m_compare_with m = None
  | _ => False
  end.
Proof. clear granted HW HF.
  intros I Ep. pose proof (inv_phase _ _ I) as P. unfold phase_ok, at_rest in P. rewrite Ep in P.
  destruct (m_phase m) as [b| |sn b []|].
  - destruct P as (P1 & P2 & P3 & pg' & [= <-] & P4). done.
  - naive_solver.
  - naive_solver.
  - naive_solver.
  - naive_solver.
Qed.

Lemma paging_ready m pg : inv m -> m_pager m = Some pg -> ready_for_pages H m.
Proof.
  intros I Ep. destruct (paging_state m pg I Ep) as ((P1 & P2 & P3 & P4 & P5) & Nr & Hph).
  split_and!; try done. destruct (m_phase m) as [b| |sn b []|]; try done. destruct Hph. split_and!; try done. intros old E. by apply P5.
Qed.

(** The pager takes a page. *)
Lemma inv_pager m pg pg' :
  inv m -> m_pager m = Some pg -> text_wf (pg_text pg') ->
  (forall old, m_compare_with m = Some old -> pg_hash pg' = Some (text (pg_text pg'))) -> inv (put_pager (Some pg') m).
Proof.
  intros I Ep W Hh. destruct (paging_state m pg I Ep) as ((P1 & P2 & P3 & P4 & P5) & Nr & Hph).
  assert (paging (put_pager (Some pg') m) pg') as Pg.
  { split_and!; try done. intros old E. split; [by eapply Hh|by apply P5]. }
  destruct I as [I1 I2 I3 I4 [I5 I6]]. split; try done.
  unfold phase_ok. cbn. destruct (m_phase m) as [b| |sn b []|]; try done; destruct Hph; split_and!; try done. by eexists.
Qed.

Lemma on_page_inv page m s :
  inv m -> ~ reads_kind m RPage -> page_ok m page -> wp (on_page page) (fun _ m' _ => folds m m') m s.
Proof.
  intros I Np Pk. unfold on_page. wps.
  destruct (bool_decide_reflect (gr_buffer page = m_buffer m)) as [Eb|_]; cbn [negb]; [|by wps; apply folds_refl].
  destruct (bool_decide_reflect (gr_epoch page = m_epoch m)) as [Ee|_]; cbn [negb].
  2: { wp_call (epoch_changed_inv H); [done|]. intros _ m' _ S. by apply safe_folds. }
  destruct (m_pager m) as [pg|] eqn:Ep; [|by wps; apply folds_refl].
  destruct (Pk Eb Ee pg Ep) as [Ut Pf]. destruct (paging_state m pg I Ep) as ((P1 & P2 & P3 & P4 & P5) & Nr & Hph).
  set (res := match gr_text page with None => _ | Some t => _ end).
  assert (text_wf (pg_text res.1) /\ pg_token res.1 = pg_token pg /\
    (res.2 = None -> text (pg_text res.1) = text (pg_text pg) ++ default [] (gr_text page) /\
      forall old, m_compare_with m = Some old -> pg_hash res.1 = Some (text (pg_text res.1)))) as (W' & Tk & Hres).
  { unfold res. destruct (gr_text page) as [t|]; cbn in Ut |- *.
    - pose proof (append_inv env_reserve (pg_text pg) t P1 Ut) as A. destruct (append env_reserve (pg_text pg) t) as [t' [u|e]]; cbn.
      + destruct A as [A1 A2]. split_and!; try done. intros _. split; [done|]. intros old E. destruct (P5 old E) as [-> _]. cbn. by rewrite A2.
      + destruct A as [A1 A2]. split_and!; done.
    - split_and!; try done. intros _. rewrite app_nil_r. split; [done|]. intros old E. by destruct (P5 old E). }
  destruct res as [pg1 failed]. cbn [fst snd] in *. destruct failed as [e|].
  { wps. wp_call (detach_failed_inv H); [apply I|]. intros _ m' _ S. by apply (safe_folds H) in S. }
  destruct (Hres eq_refl) as [Et Eh]. set (pg2 := match gr_snapshot page with Some _ => _ | None => pg1 end).
  assert (pg_text pg2 = pg_text pg1 /\ pg_hash pg2 = pg_hash pg1) as [Q1 Q2] by (unfold pg2; by destruct (gr_snapshot page)).
  assert (inv (put_pager (Some pg2) m)) as I2 by (apply (inv_pager m pg); rewrite ?Q1, ?Q2; done).
  wps. destruct (gr_next page) as [next|] eqn:En.
  - destruct (pg_token pg2) as [token|].
    + wp_call send_read_spec. intros _ m' _ (n & rs & -> & Hrs). cbn in Hrs. split; [|done]. by apply (inv_reads H RPage).
    + wp_call (start_pages_inv H); [by apply inv_base|by apply (paging_ready _ pg2)|]. intros _ m' _ S. by apply (safe_folds H) in S.
  - wps. wp_call finish_snapshot_inv; [|intros _ m' _ F; exact F].
    destruct (Pf eq_refl) as (r & Er & Hr & Ht & Hc). cbn. rewrite Q1, Q2.
    pose proof (inv_base H m I) as B.
    split_and!; try done; [cbn; by destruct (m_phase m) as [| |? ? []|]; try destruct Hph|]. exists r. split_and!; try done; [by rewrite Et|].
    intros old E. cbn in E. split_and!; [by apply P5|by rewrite (Eh old E)|by apply Hc].
Qed.

(** ** History pages *)

Lemma quiet_following m :
  inv m -> m_snap_due m = None -> m_pager m = None -> is_detached m = false -> following m.
Proof.
  intros I Ed Ep Hd. pose proof (inv_phase _ _ I) as P. unfold phase_ok, is_detached, following in *. rewrite Ed, Ep in P.
  destruct (m_phase m) as [b| |sn b []|]; try done.
  - by destruct P as (_ & _ & _ & pg & E & _).
  - by destruct P as (_ & _ & _ & [? ?]).
Qed.

Lemma fold_entries_inv entries m s :
  inv m -> following m -> Forall (genuine_entry H) entries ->
  wp (fold_entries entries) (fun ok m' _ => folds m m' /\ (ok = false -> following m')) m s.
Proof.
  intros I F Ge; revert m s I F; induction Ge as [|e entries He Ge IH]; intros m s I F; cbn [fold_entries].
  { wps. split; [by apply folds_refl|done]. }
  wps. destruct (hw_rev e <=? m_rev m)%Z; [by apply IH|].
  destruct (hw_edits_elided e); [by wps; split; [apply folds_refl|]|].
  destruct (hw_edits e) as [edits|] eqn:Eed; [|by wps; split; [apply folds_refl|]].
  destruct (Z.eqb_spec (hw_rev e) (m_rev m + 1)) as [Er|_]; cbn [negb]; [|by wps; split; [apply folds_refl|]].
  wp_call fold_edit_inv; try done.
  - destruct He as (i & le & E1 & E2 & E3 & E4). exists i, le. cbn. split_and!; try done; [lia|by apply E4].
  - cbn. lia.
  - intros _ m1 s1 F1. wps. destruct (_ || _) eqn:Eh; [by wps|].
    apply orb_false_iff in Eh as [[Eh1 Eh2]%orb_false_iff Eh3].
    eapply wp_mono; [apply IH; [apply F1|]|].
    + apply quiet_following; [apply F1|by destruct (m_snap_due m1)|by destruct (m_pager m1)|done].
    + cbv beta. intros ok m' _ [F2 Hok]. split; [by eapply folds_two|done].
Qed.

Lemma following_rest m : inv m -> following m -> m_pager m = None.
Proof. intros I F. by destruct (following_synced H m I F) as [_ (? & _)]. Qed.

Lemma live_following m : is_live m = true -> following m.
Proof. unfold is_live, following. by destruct (m_phase m). Qed.

(** Entries of a reconciliation, where the mirror is live. *)
Lemma fold_found_inv live entries m s :
  inv m -> (live = true -> following m) -> Forall (genuine_entry H) entries ->
  wp (when live (ok ← fold_entries entries; if ok : bool then mret tt else snapshot_fallback false))
    (fun _ m' _ => folds m m') m s.
Proof.
  intros I F Ge. apply wp_when; intros E; [|by apply folds_refl].
  wp_call fold_entries_inv; try done; [by apply F|]. intros [] m1 s1 [F1 Hf]; wps; [done|].
  wp_call snapshot_fallback_safe; [apply F1|apply following_rest; [apply F1|by apply Hf]|].
  intros _ m' _ S. eapply folds_two; [exact F1|by apply safe_folds].
Qed.

(** ** The slot's state *)

Lemma put_state_core st m : core (put_state st m) = core m.
Proof. unfold put_state. by destruct (m_inflight m) as [[]|]. Qed.

Lemma put_state_slot st m :
  m_inflight (put_state st m) = match m_inflight m with
    | Some (ILocal p b w _) => Some (ILocal p b w st)
    | Some (IServer op i w _) => Some (IServer op i w st)
    | None => None end.
Proof. unfold put_state. by destruct (m_inflight m) as [[]|] eqn:E. Qed.

(** A state other than [Doomed], and the revision of a reply is the one the operation was committed at. *)
Lemma inv_state m st :
  inv m -> st <> Doomed ->
  (forall p w st' info, m_inflight m = Some (ILocal p true w st') -> following m -> st = Replied info ->
    committed_at H (ri_rev info) (pd_op_id p)) ->
  inv (put_state st m).
Proof. clear granted HW HF.
  intros [I1 I2 I3 I4 I5] Hd Hc. pose proof (put_state_core st m) as C. pose proof (put_state_slot st m) as Es.
  unfold core in C. injection C as E1 E2 E3 E4 E5 E6 E7 E8 E9.
  assert (work_of (put_state st m) = work_of m) as Ew.
  { unfold work_of. rewrite Es, E3. by destruct (m_inflight m) as [[? [] ? ?|]|]. }
  assert (following m -> synced H m -> synced H (put_state st m)) as Hs.
  { intros F (r & S1 & S2 & S3 & S4 & S5). exists r. rewrite Ew, E1, E2, Es. split_and!; try done.
    destruct (m_inflight m) as [[p [] w st'|]|] eqn:Ei; try done.
    destruct S5 as (b & items0 & Q1 & Q2 & Q3 & Q4 & Q5 & Q6 & Qd & Q7). exists b, items0. split_and!; try done.
    intros info E. by eapply Hc. }
  assert (is_doomed (put_state st m) -> is_doomed m) as Hdo.
  { unfold is_doomed. rewrite Es. destruct (m_inflight m) as [[? ? ? ?|]|]; try done. by destruct st. }
  assert (forall pg, paging m pg -> paging (put_state st m) pg) as Hp.
  { intros pg (P1 & P2 & P3 & P4 & P5). unfold paging. rewrite E1, E3, E6, E8. split_and!; try done. tauto. }
  split.
  - by rewrite E1.
  - unfold phase_ok, at_rest, reads_kind, following in *. rewrite E4, E5, E6, E8, E9. destruct (m_phase m) as [b| |sn b []|].
    + destruct I2 as (P1 & P2 & P3 & pg & P4 & P5). rewrite Es, P2. split_and!; try done. exists pg. auto.
    + naive_solver.
    + naive_solver.
    + destruct I2 as (P1 & P2 & P3 & P4). split_and!; try done. destruct (m_pager m); auto.
    + destruct I2 as (P1 & P2). by rewrite Es, P1, E3.
  - unfold recon_ok. by rewrite E7.
  - unfold ops_utf8 in *. rewrite E3, Es. by destruct (m_inflight m) as [[]|].
  - unfold one_page, reads_kind in *. by rewrite E5, E9.
Qed.

Lemma put_state_present st m : present_inflight (put_state st m) = present_inflight m.
Proof. unfold present_inflight. rewrite put_state_slot. by destruct (m_inflight m) as [[]|]. Qed.

Lemma put_state_following st m : following (put_state st m) <-> following m.
Proof. unfold following. pose proof (put_state_core st m) as C. unfold core in C. by injection C as _ _ _ -> _ _ _ _ _. Qed.

(** An operation committed at a revision the view is past is not in the view. *)
Lemma committed_absent m p b w st r :
  inv m -> following m -> m_inflight m = Some (ILocal p b w st) -> committed_at H r (pd_op_id p) -> (r <= m_rev m)%Z ->
  present_inflight m = false.
Proof.
  intros I F Ei (i & e & -> & Ee & Eid) Hle. unfold present_inflight. rewrite Ei. destruct b; [|done].
  destruct (following_synced H m I F) as [(r0 & Er & _ & _ & _ & Ho) _]. rewrite Ei in Ho.
  destruct Ho as (? & ? & _ & _ & _ & _ & _ & Q6 & _). destruct (Q6 i e); [lia|done|done].
Qed.

Lemma wire_op m p w st : inv m -> following m -> m_inflight m = Some (ILocal p true w st) -> sq_op_id w = pd_op_id p /\ st <> Doomed.
Proof.
  intros I F Ei. destruct (following_synced H m I F) as [(r0 & Er & _ & _ & _ & Ho) _]. rewrite Ei in Ho.
  by destruct Ho as (? & ? & _ & _ & Q3 & _ & _ & _ & Q4 & _).
Qed.

(** ** Reconciliation *)

Definition good_recon (rc : Recon) : Prop :=
  Forall (genuine_entry H) (rc_entries rc) /\ forall rv, rc_found rc = Some rv -> committed_at H rv (rc_op_id rc).

Lemma inv_put_recon m v : inv m -> (forall rc, v = Some rc -> good_recon rc) -> inv (put_recon v m).
Proof. intros [I1 I2 I3 I4 I5] Hv. split; try done. Qed.

(** A reconciliation that finds nothing in a trimmed history gives the view up: not while pages are read. *)
Definition is_local m : Prop := match m_inflight m with Some (ILocal _ _ _ _) => True | _ => False end.
Definition recon_settles m (rc : Recon) : Prop :=
  rc_found rc = None -> rc_trimmed rc = true -> is_local m -> m_pager m = None.

(** The slot is emptied of an operation that is not in the view, or the view is given up at once. *)
Lemma dropped_fallback m s :
  inv m -> m_pager m = None -> wp (modify (put_inflight None);; snapshot_fallback true) (fun _ m' _ => folds m m') m s.
Proof.
  intros I Ep. wps. destruct (is_detached m) eqn:Ed.
  - wp_call snapshot_fallback_safe; [|done|intros _ m' _ S; by eapply folds_trans; [|apply (safe_folds H), S]].
    unfold is_detached, following in *. apply inv_slot; try done; unfold following; by destruct (m_phase m).
  - destruct (rest_fallen m I Ep Ed) as ((B1 & B2 & [B3 _] & B4) & B5 & B6 & B7).
    wp_call snapshot_fallback_inv; [done|by split_and!|]. intros _ m' _ S. by eapply folds_trans; [|apply (safe_folds H), S].
Qed.

Lemma clear_slot_folds m s : inv m -> (following m -> present_inflight m = false) -> wp clear_slot (fun _ m' _ => folds m m') m s.
Proof. intros I Hp. wp_call clear_slot_clears. intros _ m' _ C. by apply folds_clears. Qed.

Lemma doomed_absent m : inv m -> is_doomed m -> following m -> present_inflight m = false.
Proof.
  intros I Hd F. unfold is_doomed, present_inflight in *. destruct (m_inflight m) as [[p [] w st|]|] eqn:Ei; try done.
  destruct (wire_op m p w st I F Ei) as [_ Hn]. by destruct st.
Qed.

(** The server said at which revision it committed the operation in flight. *)
Lemma replied_inv m p b w st info :
  inv m -> m_inflight m = Some (ILocal p b w st) -> committed_at H (ri_rev info) (sq_op_id w) ->
  inv (put_state (Replied info) m) /\ ((ri_rev info <= m_rev m)%Z -> following m -> present_inflight m = false).
Proof.
  intros I Ei Hc. split.
  - apply inv_state; try done. intros p' w' st' info' E F [= <-]. simplify_eq. destruct (wire_op _ _ _ _ I F Ei) as [<- _]. done.
  - intros Hle F. unfold present_inflight. rewrite Ei. destruct b; [|done]. destruct (wire_op _ _ _ _ I F Ei) as [Ew _].
    rewrite Ew in Hc. pose proof (committed_absent _ _ _ _ _ _ I F Ei Hc Hle) as K. unfold present_inflight in K. by rewrite Ei in K.
Qed.

Lemma ack_replied_inv m p b w st info s :
  inv m -> m_inflight m = Some (ILocal p b w st) -> committed_at H (ri_rev info) (sq_op_id w) -> (ri_rev info <= m_rev m)%Z ->
  wp (ack_inflight;; after_rev) (fun _ m' _ => folds m m') (put_state (Replied info) m) s.
Proof.
  intros I Ei Hc Hle. destruct (replied_inv m p b w st info I Ei Hc) as [I1 Hp].
  wp_call ack_inflight_clears. intros _ m2 s2 C. apply folds_after_rev.
  apply (folds_trans H _ (put_state (Replied info) m)); [by rewrite put_state_present|]. apply folds_clears; try done.
  rewrite put_state_following, put_state_present. by apply Hp.
Qed.

(** A local operation that was found at [r]. *)
Lemma local_found_inv m p b w st r entries s :
  inv m -> m_inflight m = Some (ILocal p b w st) -> committed_at H r (sq_op_id w) -> Forall (genuine_entry H) entries ->
  wp (modify (put_state (Replied (mkReplyInfo r false)));;
      if (r <=? m_rev m)%Z then ack_inflight;; after_rev
      else when (is_live m) (ok ← fold_entries entries; if ok : bool then mret tt else snapshot_fallback false))
    (fun _ m' _ => folds m m') m s.
Proof.
  intros I Ei Hc Ge. apply wp_bind, wp_modify. destruct (Z.leb_spec r (m_rev m)) as [Hle|Hgt]; [by eapply ack_replied_inv|].
  destruct (replied_inv m p b w st (mkReplyInfo r false) I Ei Hc) as [I1 _].
  eapply wp_mono; [apply fold_found_inv; try done|].
  - intros E. apply put_state_following. by apply live_following.
  - cbv beta. intros _ m' _ F. eapply folds_trans; [|exact F]. by rewrite put_state_present.
Qed.

Lemma server_absent m op i w st : m_inflight m = Some (IServer op i w st) -> present_inflight m = false.
Proof. unfold present_inflight. by intros ->. Qed.

Lemma suspect_folds m s : inv m -> wp suspect (fun _ m' _ => folds m m') m s.
Proof. intros I. wp_call (suspect_inv H); [done|]. intros _ m' _ [S _]. by apply safe_folds. Qed.

(** A server operation given up: it leaves the slot and the user is told. *)
Lemma give_up_inv m id msg (is_keep : bool) (trimmed : bool) s :
  inv m -> present_inflight m = false ->
  wp (uncertain id msg;; clear_slot;; (if is_keep then keep_refused msg else warn msg);; when trimmed suspect)
    (fun _ m' _ => folds m m') m s.
Proof.
  intros I Hp. wp_call uncertain_keeps. intros _ m1 s1 K1. assert (folds m m1) as F1 by (eapply folds_keeps; [by apply folds_refl|done]).
  wp_call clear_slot_folds; [apply F1|intros _; by rewrite (keeps_present _ _ K1)|]. intros _ m2 s2 F2. pose proof (folds_two _ _ _ F1 F2) as F.
  apply wp_bind, (wp_mono _ (fun _ m' _ => folds m m')).
  { destruct is_keep; [|by wps]. wp_call keep_refused_keeps. intros _ m' _ K. by eapply folds_keeps. }
  cbv beta. intros _ m3 s3 F3. apply wp_when; intros _; [|done]. wp_call suspect_folds; [apply F3|]. intros _ m' _ F4. by eapply folds_two.
Qed.

Lemma doomed_inv rv m s : inv m -> is_doomed m -> wp (set_local_replied rv;; snapshot_fallback true) (fun _ m' _ => folds m m') m s.
Proof.
  intros I Hd. pose proof (doomed_rest m I Hd) as Ep. unfold is_doomed in Hd.
  destruct (m_inflight m) as [[p b w st|]|] eqn:Ei; try done. eapply doomed_fallback; try done.
  apply rest_fallen; try done. pose proof (inv_phase _ _ I) as P. unfold phase_ok, is_detached in *.
  destruct (m_phase m); try done. destruct P as [P _]. congruence.
Qed.

Lemma finish_recon_inv m s :
  inv m -> (forall rc, m_recon m = Some rc -> recon_settles m rc) -> wp finish_recon (fun _ m' _ => folds m m') m s.
Proof.
  intros I Hs. unfold finish_recon. wps. destruct (m_recon m) as [rc|] eqn:Erc; [|by wps; apply folds_refl].
  specialize (Hs rc eq_refl). destruct (inv_recon _ _ I rc Erc) as [Ge Hf]. wps. set (m0 := put_recon None m).
  assert (inv m0) as I0 by (by apply inv_put_recon). assert (folds m m0) as F0 by done.
  destruct (bool_decide_reflect ((sq_op_id ∘ inflight_wire) <$> m_inflight m = Some (rc_op_id rc))) as [Eid|_]; cbn [negb]; [|by wps].
  apply wp_bind, wp_gets, wp_bind, wp_gets. apply (wp_mono _ (fun _ m' _ => folds m0 m')).
  2: { intros _ m' _ F. by eapply folds_trans; [|exact F]. }
  assert (m_inflight m0 = m_inflight m) as Ei0 by done.
  destruct (m_inflight m) as [[p b w st|op it w st]|] eqn:Ei; [| |done]; cbn in Eid; injection Eid as Eid; rewrite <- Eid in *.
  - destruct (rc_found rc) as [r|] eqn:Efo; [|destruct (rc_trimmed rc) eqn:Etr].
    + specialize (Hf r eq_refl). destruct st; [by eapply local_found_inv..|]. apply doomed_inv; [done|]. unfold is_doomed. by rewrite Ei0.
    + assert (m_pager m0 = None) as Ep by (apply Hs; try done; unfold is_local; by rewrite Ei).
      destruct st; try (by apply dropped_fallback). wps. apply (folds_clears m0); [done| |done].
      apply doomed_absent; [done|]. unfold is_doomed. by rewrite Ei0.
    + destruct st; try (wps; split; [by apply inv_state|by rewrite put_state_present]).
      apply clear_slot_folds; [done|]. apply doomed_absent; [done|]. unfold is_doomed. by rewrite Ei0.
  - destruct (rc_found rc) as [r|] eqn:Efo; wps.
    + set (m1 := put_state _ m0). assert (inv m1) as I1 by (apply inv_state; try done; congruence).
      assert (present_inflight m0 = false) as Hp by (by eapply server_absent).
      wp_call fold_found_inv; try done.
      * intros [_ E]%andb_true_iff. apply put_state_following. by apply live_following.
      * intros _ m2 s2 F2. wp_call check_barrier_settles. intros _ m' _ S. eapply folds_settles; [|exact S].
        eapply folds_trans; [|exact F2]. unfold m1. by rewrite put_state_present.
    + apply give_up_inv; [done|by eapply server_absent].
Qed.

(** ** History and the other reads *)

Definition history_ok m (page : HistoryReply) : Prop :=
  hr_buffer page = m_buffer m -> Forall (genuine_entry H) (hr_entries page).
Definition last_history (page : HistoryReply) : Prop := (if hr_truncated page then hr_next page else None) = None.

Lemma recon_page_good rc page : good_recon rc -> Forall (genuine_entry H) (hr_entries page) -> good_recon (recon_page rc page).
Proof.
  intros [G1 G2] Ge. split; cbn; [by apply Forall_app|]. intros rv. revert G2. generalize (rc_found rc) as f. clear G1.
  induction Ge as [|e entries He Ge IH]; intros f Gf; cbn; [by apply Gf|]. apply IH. intros rv'.
  destruct (bool_decide_reflect (hw_op_id e = Some (rc_op_id rc))) as [E|_]; [|by apply Gf]. intros [= <-].
  destruct He as (i & le & E1 & E2 & E3 & _). exists i, le. split_and!; try done. by rewrite <- E3.
Qed.

Lemma by_history_landing m :
  inv m -> match m_phase m with Recovering _ _ ByHistory => true | _ => false end = true -> landing m.
Proof.
  intros I E. assert (following m) as F by (unfold following; by destruct (m_phase m) as [| |? ? []|]).
  destruct (following_fallen H m I F) as (B & Np & _ & Hc). destruct (following_synced H m I F) as [Sy Ar].
  split_and!; try done; [apply Ar..|]. destruct (m_phase m) as [| |? ? []|]; try done. by destruct Hc.
Qed.

Lemma send_read_folds k verb body d m s :
  inv m -> (k = RPage -> is_Some (m_pager m)) -> (k = RRecover -> following m) ->
  wp (send_read k verb body d) (fun _ m' _ => folds m m') m s.
Proof.
  intros I Hk Hf. wp_call send_read_spec. intros _ m' _ (n & rs & -> & Hrs). split; [|done]. by apply (inv_reads H k).
Qed.

Lemma history_page_inv kind page m s :
  inv m -> history_ok m page ->
  (kind = RRecon -> last_history page -> forall rc, m_recon m = Some rc -> recon_settles m (recon_page rc page)) ->
  wp (history_page kind page) (fun _ m' _ => folds m m') m s.
Proof.
  intros I Hh Hr. unfold history_page. wps.
  destruct (bool_decide_reflect (hr_buffer page = m_buffer m)) as [Eb|_]; cbn [negb]; [|by wps; apply folds_refl].
  specialize (Hh Eb). destruct kind; try (by wps; apply folds_refl); wps.
  - destruct (match m_phase m with Recovering _ _ ByHistory => true | _ => false end) eqn:Eg; cbn [negb]; [|by wps; apply folds_refl].
    pose proof (by_history_landing m I Eg) as (_ & _ & _ & (Ep & _) & _).
    destruct (_ && _).
    { wp_call snapshot_fallback_safe; try done. intros _ m' _ S. by apply safe_folds. }
    wp_call fold_entries_inv; try done; [unfold following; by destruct (m_phase m) as [| |? ? []|]|].
    intros ok m1 s1 [F1 Hf]. wps. destruct F1 as [I1 P1].
    destruct (match m_phase m1 with Recovering _ _ ByHistory => true | _ => false end) eqn:Eg1; cbn [negb].
    2: { destruct ok; cbn [negb]; wps; [by split|]. apply wp_when; [done|]. by split. }
    pose proof (by_history_landing m1 I1 Eg1) as Hl. assert (folds m m1) as F1 by (by split).
    destruct ok; cbn [negb].
    + destruct (if hr_truncated page then hr_next page else None) as [next|].
      * wp_call send_read_folds; try done; [|intros _ m' _ F; by eapply folds_two].
        intros _. unfold following. by destruct (m_phase m1) as [| |? ? []|].
      * wp_call go_live_inv; [done|]. intros _ m' _ F. by eapply folds_two.
    + apply wp_when; intros _; [|done]. wp_call snapshot_fallback_safe; [done|by destruct Hl as (_ & _ & _ & (? & _) & _)|].
      intros _ m' _ S. eapply folds_two; [exact F1|by apply safe_folds].
  - destruct (m_recon m) as [rc|] eqn:Erc; [|by wps; apply folds_refl]. wps. set (m1 := put_recon _ m).
    assert (inv m1) as I1.
    { apply inv_put_recon; [done|]. intros rc' [= <-]. apply recon_page_good; [|done]. by apply (inv_recon _ _ I). }
    apply (wp_mono _ (fun _ m' _ => folds m1 m')); [|intros _ m' _ F; by eapply folds_trans; [|exact F]].
    unfold last_history in Hr. destruct (if hr_truncated page then hr_next page else None) as [next|].
    + by apply send_read_folds.
    + apply finish_recon_inv; [done|]. intros rc' [= <-]. by apply Hr.
Qed.

Lemma complete_server_folds rv m s : inv m -> present_inflight m = false -> wp (complete_server rv) (fun _ m' _ => folds m m') m s.
Proof. intros I Hp. wp_call complete_server_clears. intros _ m' _ C. by apply folds_clears. Qed.

Lemma save_check_inv l m s : inv m -> wp (save_check l) (fun _ m' _ => folds m m') m s.
Proof.
  intros I. unfold save_check. wps. destruct (m_recon m) as [rc|] eqn:Erc; [|by wps; apply folds_refl]. wps.
  set (m0 := put_recon None m). assert (inv m0) as I0 by (by apply inv_put_recon). assert (folds m m0) as F0 by done.
  destruct (m_inflight m) as [[|[] it w st]|] eqn:Ei; try (by wps).
  destruct (negb _); [by wps|]. wps. assert (present_inflight m0 = false) as Hp by (unfold present_inflight, m0; cbn; by rewrite Ei).
  destruct (row ← _; _) as [row|].
  - wps. set (m1 := put_saved_known _ _). assert (keeps m0 m1) as K by done.
    wp_call complete_server_folds; [by eapply inv_keeps|by rewrite (keeps_present _ _ K)|]. intros _ m2 s2 F2.
    apply folds_after_rev. by eapply folds_trans; [|exact F2].
  - destruct (negb _).
    + wps. split; [|change (present_inflight m = false -> present_inflight (put_state Sent m0) = false); by rewrite put_state_present]. apply inv_put_recon; [apply inv_state; try done|].
      intros rc' [= <-]. exact (inv_recon _ _ I rc Erc).
    + wp_call uncertain_keeps. intros _ m1 s1 K1. assert (folds m m1) as F1 by (by eapply folds_keeps).
      wp_call clear_slot_folds; [apply F1|intros _; by rewrite (keeps_present _ _ K1)|]. intros _ m2 s2 F2. wps. by eapply folds_two.
Qed.

(** What a read must meet when its answer arrives. *)
Definition read_ready kind m : Prop :=
  (kind = RPage -> ~ reads_kind m RPage /\ is_Some (m_pager m)) /\ (kind = RRecover -> m_pager m = None).

Lemma detach_folds r m s :
  inv m -> wp (modify (put_phase (Detached r));; abandon_pipeline) (fun _ m' _ => folds m m') m s.
Proof. intros I. eapply wp_mono; [apply (detach_inv H); apply I|]. cbv beta. intros _ m' _ S. by apply safe_folds. Qed.

Lemma try_snapshot_folds m m1 s1 : folds m m1 -> wp try_snapshot (fun _ m' _ => folds m m') m1 s1.
Proof.
  intros F. wp_call try_snapshot_inv; [done|apply F|]. intros _ m' _ S. eapply folds_two; [exact F|by apply safe_folds].
Qed.

Lemma read_refused_inv kind r m s :
  inv m -> read_ready kind m ->
  (kind = RRecon -> forall rc, m_recon m = Some rc -> recon_settles m (recon_refused rc)) ->
  wp (read_refused kind r) (fun _ m' _ => folds m m') m s.
Proof.
  intros I [Rp Rr] Hr. unfold read_refused. destruct (refused_for _ _ _).
  { wp_call (epoch_changed_inv H); [done|]. intros _ m' _ S. by apply safe_folds. }
  destruct (refused_for _ _ _); [by apply detach_folds|].
  apply wp_bind, (wp_mono _ (fun _ m' _ => folds m m')); [|intros _ m1 s1 F; by apply try_snapshot_folds].
  destruct kind.
  - destruct (Rp eq_refl) as [Np [pg Ep]]. case_bool_decide.
    + wp_call (start_pages_inv H); [by apply inv_base|by eapply paging_ready|]. intros _ m' _ S. by apply safe_folds.
    + wp_call (detach_failed_inv H); [apply I|]. intros _ m' _ S. by apply safe_folds.
  - wp_call snapshot_fallback_safe; [done|by apply Rr|]. intros _ m' _ S. by apply safe_folds.
  - wps. destruct (m_recon m) as [rc|] eqn:Erc.
    + apply (wp_mono _ (fun _ m' _ => folds (put_recon (Some (recon_refused rc)) m) m')).
      * apply finish_recon_inv; [|intros rc' [= <-]; by apply Hr]. apply inv_put_recon; [done|]. intros rc' [= <-]. exact (inv_recon _ _ I rc Erc).
      * intros _ m' _ F. by eapply folds_trans; [|exact F].
    + apply finish_recon_inv; [done|]. by rewrite Erc.
  - by apply save_check_inv.
Qed.

(** The server's promises for the answer to a read. *)
Definition read_reply_ok kind m (reply : result JsonTree Refusal) : Prop :=
  match reply with
  | Err _ => kind = RRecon -> forall rc, m_recon m = Some rc -> recon_settles m (recon_refused rc)
  | Ok v =>
    match kind with
    | RPage => forall page, as_GetReply v = Some page -> page_ok m page
    | RRecover | RRecon =>
      match as_HistoryReply v with
      | Some page => history_ok m page /\
        (kind = RRecon -> last_history page -> forall rc, m_recon m = Some rc -> recon_settles m (recon_page rc page))
      | None => m_pager m = None
      end
    | RSaveCheck => True
    end
  end.

Lemma on_read_reply_inv kind reply m s :
  inv m -> read_ready kind m -> read_reply_ok kind m reply ->
  wp (on_read_reply kind reply) (fun _ m' _ => folds m m') m s.
Proof.
  intros I Rd Rk. unfold on_read_reply. destruct reply as [v|r]; [|by apply read_refused_inv].
  apply wp_bind, (wp_mono _ (fun _ m' _ => folds m m')).
  - assert (match as_HistoryReply v with
      | Some page => history_ok m page /\
        (kind = RRecon -> last_history page -> forall rc, m_recon m = Some rc -> recon_settles m (recon_page rc page))
      | None => m_pager m = None end ->
      wp (match as_HistoryReply v with Some page => history_page kind page | None => snapshot_fallback false end)
        (fun _ m' _ => folds m m') m s) as K.
    { destruct (as_HistoryReply v) as [page|]; [intros [? ?]; by apply history_page_inv|]. intros Ep.
      wp_call snapshot_fallback_safe; try done. intros _ m' _ S. by apply safe_folds. }
    destruct kind; try (by apply K); [|by apply save_check_inv].
    cbn in Rk. destruct (as_GetReply v) as [page|]; [apply on_page_inv; [done|by apply Rd|by apply Rk]|].
    wp_call (detach_failed_inv H); [apply I|]. intros _ m' _ S. by apply safe_folds.
  - cbv beta. intros _ m1 s1 F1. wp_call try_snapshot_folds; [exact F1|]. intros _ m2 s2 F2. wp_call watch_echo_keeps.
    intros _ m' _ K. by eapply folds_keeps.
Qed.
End safe.
