(* ===== verification/MirrorRun.v ===== *)
(** * Runs of the mirror

    The public interface of the mirror keeps the invariant: replies, events, timers, sending
    and local edits, and so does every sequence of them from [bootstrap] or [reattach]. *)

From S2P Require Import Prelude Utf8 EditBase Ot Anchor GapBuffer Memory Text Buffer BufferSpec Str Json MirrorTypes Mirror MirrorOt MirrorInv MirrorFold MirrorSafe.

Section replies.
Context {G : Type} {TS : TextStore G} {SL : TextStoreLaws G} {ENV : MirrorEnv}.
Context (H : ServerHistory) (HW : hist_wf H) (HF : hist_fits H).
Hypothesis granted : memory_granted G env_reserve.
Implicit Types m : Mirror G.
Abbreviation inv := (inv H).
Abbreviation safe := (safe H).
Abbreviation folds := (folds H).

(** ** Replies to requests *)

(** A reply to a local operation names the revision it was committed at. *)
Definition reply_good m (v : JsonTree) : Prop :=
  forall p b w st, m_inflight m = Some (ILocal p b w st) ->
  forall rv, u64_field v (bs "rev") = Some rv -> committed_at H rv (sq_op_id w).

Lemma start_recon_folds m m1 s1 : folds m m1 -> wp start_recon (fun _ m' _ => folds m m') m1 s1.
Proof. intros F. wp_call start_recon_inv; [apply F|]. intros _ m' _ S. eapply folds_two; [exact F|by apply safe_folds]. Qed.

Lemma uncertain_state m : inv m -> folds m (put_state Uncertain m).
Proof. intros I. split; [by apply inv_state|]. by rewrite put_state_present. Qed.

Lemma reply_ok_inv v m s : inv m -> reply_good m v -> wp (reply_ok v) (fun _ m' _ => folds m m') m s.
Proof.
  intros I Hg. unfold reply_ok. wps. set (m0 := put_retry None m). assert (keeps m m0) as K0 by done.
  assert (inv m0) as I0 by (by eapply inv_keeps).
  apply (wp_mono _ (fun _ m' _ => folds m0 m')); [|intros _ m' _ F; by eapply folds_trans; [|exact F]].
  assert (wp (modify (put_state Uncertain);; start_recon) (fun _ m' _ => folds m0 m') m0 s) as Ku.
  { wps. by apply start_recon_folds, uncertain_state. }
  set (info := mkReplyInfo _ _).
  change (reply_good m0 v) in Hg. change (m_rev m) with (m_rev m0) in *. clearbody m0.
  assert (wp (modify (put_state (Replied info));; check_barrier) (fun _ m' _ => folds m0 m') m0 s \/ is_local m0) as Ks.
  { unfold is_local. destruct (m_inflight m0) as [[p b w st|op it w st]|] eqn:Ei; [by right|left..]; wps;
      (wp_call check_barrier_settles; intros _ m' _ S; eapply folds_settles; [|exact S];
       split; [apply inv_state; try done; intros; congruence|by rewrite put_state_present]). }
  destruct (m_inflight m0) as [[p b w st|op it w st]|] eqn:Ei.
  - destruct st; cbn [andb].
    1-3: destruct (u64_field v (bs "rev")) as [rv|] eqn:Erv; [|exact Ku]; cbn [andb default] in *.
    1-3: specialize (Hg _ _ _ _ Ei rv Erv); wps; apply wp_when; intros Hle;
      [apply Z.leb_le in Hle; by eapply ack_replied_inv|].
    1-3: split; [by eapply replied_inv|by rewrite put_state_present].
    apply doomed_inv; try done. unfold is_doomed. by rewrite Ei.
  - assert (present_inflight m0 = false) as Hp by (by eapply server_absent).
    assert (~ is_local m0) as Hnl by (unfold is_local; rewrite Ei; tauto).
    destruct Ks as [Ks|?]; [|done].
    assert (forall rv s1, wp (complete_server rv) (fun _ m' _ => folds m0 m') m0 s1) as Kc by (intros; by apply complete_server_folds).
    destruct op; cbn [andb].
    1,2,5: destruct (u64_field v (bs "rev")); [exact Ks|exact Ku].
    + wps. apply (wp_mono _ (fun _ m1 _ => keeps m0 m1)); [by destruct (as_SaveReply v); wps|]. intros _ m1 s1 K1.
      wp_call complete_server_folds; [by eapply inv_keeps|by rewrite (keeps_present _ _ K1)|]. intros _ m2 s2 F2.
      apply folds_after_rev. eapply folds_trans; [|exact F2]. by rewrite (keeps_present _ _ K1).
    + destruct (is_unchanged v); cbn [negb andb]; [apply Kc|]. destruct (u64_field v (bs "rev")); [exact Ks|exact Ku].
  - wps. by apply folds_refl.
Qed.

(** The operation in flight was refused: it and everything behind it is taken back. *)
Lemma refused_inv m m1 m2 :
  inv m -> m_inflight m <> None -> reverted 0 m m1 -> clears m1 m2 -> inv m2.
Proof.
  intros I Hi R C.
  assert (present_inflight m1 = false) as Hp1.
  { destruct R as (t' & _ & _ & D & _). unfold base_of in D. destruct (present_inflight m) eqn:Hp; cbn in D.
    - destruct D as (p & w & st & _ & [E|(st' & E & _)]); unfold present_inflight; by rewrite E.
    - unfold present_inflight in *. by rewrite D. }
  assert (following m \/ ~ following m) as [F|F] by (unfold following; destruct (m_phase m) as [| |? ? []|]; tauto).
  { destruct (reverted_inv H HW 0 m m1 I F R) as [I1 F1]. by eapply inv_clears. }
  destruct (reverted_base H _ _ _ R (inv_base H m I)) as (W & Rc & O & P).
  destruct R as (t' & Wt & D & _). destruct C as [C1 C2]. unfold core in C1, D. cbn in D.
  injection D as D1 D2 D3 D4 D5 D6 D7 D8 D9. rewrite D1, D2, D3, D4, D5, D6, D7, D8, D9 in C1.
  injection C1 as E1 E2 E3 E4 E5 E6 E7 E8 E9. pose proof (inv_phase _ _ I) as Ph. split.
  - by rewrite E1.
  - unfold phase_ok, following in *. rewrite E4. destruct (m_phase m) as [b| |sn b []|]; try tauto.
    destruct Ph as (P1 & P2 & P3 & P4). unfold reads_kind. rewrite E5, E6, E8, E9. split_and!; try done.
    destruct (m_pager m) as [pg|]; [|done]. destruct P4 as (Q1 & Q2 & Q3 & Q4 & Q5). unfold paging, is_doomed.
    rewrite E3, E6, E8, C2, Q2. split_and!; try done. by rewrite P2.
  - unfold recon_ok in *. rewrite E7. by rewrite D7 in Rc.
  - unfold ops_utf8 in *. rewrite E3, C2. rewrite D3 in O. by destruct O.
  - pose proof (inv_page _ _ I) as [Q1 Q2]. unfold one_page, reads_kind in *. by rewrite E5, E9.
Qed.

Lemma arm_retry_keeps m s : wp arm_retry (fun _ m' _ => keeps m m') m s.
Proof. unfold arm_retry. wps. by case_match; wps. Qed.

Lemma reply_refused_inv r m s : inv m -> wp (reply_refused r) (fun _ m' _ => folds m m') m s.
Proof.
  intros I. unfold reply_refused. destruct (refused_for _ _ _).
  { wp_call (epoch_changed_inv H); [done|]. intros _ m' _ S. by apply safe_folds. }
  assert (forall b m1 s1, keeps m m1 -> wp (if b : bool then arm_retry else mret false) (fun _ m' _ => keeps m m') m1 s1) as Kr.
  { intros [] m1 s1 K; [|by wps]. wp_call arm_retry_keeps. intros _ m' _ K'. by eapply keeps_trans. }
  wps. destruct (m_inflight m) as [[p b w st|op it w st]|] eqn:Ei; [| |by wps; apply folds_refl].
  - destruct (match st with Doomed => true | _ => negb b end) eqn:Eb.
    { apply clear_slot_folds; [done|]. intros F. unfold present_inflight. rewrite Ei.
      destruct b; [|done]. destruct (wire_op H _ _ _ _ I F Ei) as [_ Hn]. by destruct st. }
    wps. wp_call Kr; [done|]. intros armed m1 s1 K1.
    assert (inv m1) as I1 by (by eapply inv_keeps). assert (m_inflight m1 = m_inflight m) as Ei1 by apply K1.
    destruct armed; [by wps; eapply folds_keeps; [apply folds_refl|]|].
    wp_call revert_suffix_spec; [done|apply I1|apply I1|lia|]. intros [d acc] m2 s2 R. wp_call clear_slot_clears. intros _ m3 s3 C.
    assert (inv m3) as I3 by (eapply refused_inv; [exact I1|rewrite Ei1, Ei; done|exact R|exact C]).
    assert (folds m m3) as F3 by (split; [done|]; intros _; unfold present_inflight; by destruct C as [_ ->]).
    wp_call note_conflict_keeps. intros _ m4 s4 K4. apply wp_bind, (wp_mono _ (fun _ m' _ => folds m m')).
    { apply wp_when; intros _; [wps|]; by eapply folds_keeps. }
    cbv beta. intros _ m5 s5 F5. by apply folds_after_rev.
  - wps. wp_call Kr; [done|]. intros armed m1 s1 K1. assert (folds m m1) as F1 by (by eapply folds_keeps; [apply folds_refl|]).
    destruct armed; [by wps|]. wps. set (m2 := put_outcomes _ m1). assert (folds m m2) as F2 by (by eapply folds_keeps).
    wp_call clear_slot_folds; [apply F2| |].
    { intros _. change (present_inflight m1 = false). rewrite (keeps_present _ _ K1). by eapply server_absent. }
    intros _ m3 s3 F3. pose proof (folds_two _ _ _ _ F2 F3) as F. case_match; wps; [|done].
    wp_call keep_refused_keeps. intros _ m' _ K. by eapply folds_keeps.
Qed.

(** ** Reads in flight *)

(** Reads of the same kinds, at most. *)
Lemma inv_fewer_reads m rs :
  inv m -> (forall id k o n, rs !! id = Some (k, o, n) -> exists o' n', m_reads m !! id = Some (k, o', n')) -> inv (put_reads rs m).
Proof.
  intros [I1 I2 I3 I4 [I5 I6]] Hrs.
  assert (forall k, reads_kind (put_reads rs m) k -> reads_kind m k) as K.
  { intros k (id & o & n & E). apply Hrs in E as (o' & n' & E). by exists id, o', n'. }
  split; try done.
  - unfold phase_ok in *. cbn [m_phase put_reads]. pose proof (K RRecover) as Kr. destruct (m_phase m) as [b| |sn b []|]; try done.
    + destruct I2 as (P1 & P2 & P3 & P4). split_and!; try done. tauto.
    + destruct I2 as (P1 & P2 & P3 & P4). split_and!; try done. tauto.
  - split; [|by intros Hr%K%I6]. intros i j o n o' n' E1 E2. apply Hrs in E1 as (? & ? & E1), E2 as (? & ? & E2). by eapply I5.
Qed.

(** The server's promises for a reply. *)
Definition reply_promise m (op_id : bytes) (reply : result JsonTree Refusal) : Prop :=
  match m_reads m !! op_id with
  | Some (kind, _, _) => read_reply_ok H kind m reply
  | None => forall v, reply = Ok v -> reply_good m v
  end.

Lemma on_reply_inv op_id reply m s :
  inv m -> reply_promise m op_id reply -> wp (on_reply op_id reply) (fun _ m' _ => folds m m') m s.
Proof.
  intros I Hr. unfold on_reply, reply_promise in *. wps. destruct (m_reads m !! op_id) as [[[kind o] n]|] eqn:Er.
  - wps. set (m1 := put_reads _ m).
    assert (inv m1) as I1.
    { apply inv_fewer_reads; [done|]. intros id k o' n' [_ E]%lookup_delete_Some. eauto. }
    apply (wp_mono _ (fun _ m' _ => folds m1 m')); [|intros _ m' _ F; by eapply folds_trans; [|exact F]].
    apply on_read_reply_inv; try done. split.
    + intros ->. split.
      * intros (id & o' & n' & E). cbn in E. apply lookup_delete_Some in E as [Hne E]. apply Hne. by eapply (proj1 (inv_page _ _ I)).
      * apply (proj2 (inv_page _ _ I)). by do 3 eexists.
    + intros ->. assert (reads_kind m RRecover) as Hk by (by do 3 eexists).
      destruct (m_pager m) as [pg|] eqn:Ep; [|done]. by destruct (paging_state H m pg I Ep) as (_ & [] & _).
  - wps. destruct (bool_decide _); [by wps; apply folds_refl|]. destruct (negb _); [by wps; apply folds_refl|].
    assert (forall m1 s1, folds m m1 -> wp (try_snapshot;; watch_echo) (fun _ m' _ => folds m m') m1 s1) as K.
    { intros m1 s1 F1. wp_call try_snapshot_folds; [done|exact F1|]. intros _ m2 s2 F2. wp_call watch_echo_keeps. intros _ m' _ Kk. by eapply folds_keeps. }
    destruct reply as [v|r].
    + match goal with |- wp (if ?b then _ else _) _ _ _ => destruct b end.
      * wp_call (epoch_changed_inv H); [done|]. intros _ m' _ S. by apply safe_folds.
      * wp_call reply_ok_inv; [done|by apply Hr|]. intros _ m1 s1 F1. by apply K.
    + wp_call reply_refused_inv; [done|]. intros _ m1 s1 F1. by apply K.
Qed.

(** ** Events and timers *)

(** The server's promise for an event: an edit of this buffer and epoch is an entry of its history. *)
Definition event_promise m (ev : Event) : Prop :=
  forall e, ev = EvEdit e -> ee_buffer e = m_buffer m -> ee_epoch e = m_epoch m -> genuine_event H e.

Lemma on_event_inv ev m s : inv m -> event_promise m ev -> wp (on_event ev) (fun _ m' _ => folds m m') m s.
Proof.
  intros I He. assert (forall m' , keeps m m' -> folds m m') as Kk by (intros; by eapply folds_keeps; [apply folds_refl|]).
  assert (forall s, wp epoch_changed (fun _ m' _ => folds m m') m s) as Ke.
  { intros s'. wp_call (epoch_changed_inv H); [done|]. intros _ m' _ S. by apply safe_folds. }
  unfold on_event. wps. destruct ev as [e|c| |d| |c|r]; try (by wps; apply folds_refl).
  - destruct (bool_decide_reflect (ee_buffer e = m_buffer m)) as [Eb|_]; cbn [negb]; [|by wps; apply folds_refl].
    destruct (bool_decide_reflect (ee_epoch e = m_epoch m)) as [Ee|_]; cbn [negb]; [|apply Ke].
    apply on_edit_event_inv; try done. by apply He.
  - apply wp_when; intros _; [|by apply folds_refl]. wp_call on_cursor_keeps. intros _ m' _. apply Kk.
  - apply wp_when; intros _; [wps; by apply Kk|by apply folds_refl].
  - apply wp_when; intros _; [by apply detach_folds|by apply folds_refl].
  - destruct (negb _); [apply Ke|by apply on_resync_inv].
Qed.

Lemma on_echo_timeout_inv id m s : inv m -> wp (on_echo_timeout id) (fun _ m' _ => folds m m') m s.
Proof.
  intros I. unfold on_echo_timeout. wps. destruct (_ && _); [|by wps; apply folds_refl]. wps.
  assert (folds m (put_echo None m)) as F by (by eapply folds_keeps; [apply folds_refl|]).
  wp_call suspect_folds; [apply F|]. intros _ m' _ F'. by apply (folds_two H _ _ _ F F').
Qed.

Lemma on_deadline_inv id m s : inv m -> wp (on_deadline id) (fun _ m' _ => folds m m') m s.
Proof.
  intros I. unfold on_deadline. wps. destruct (m_reads m !! id) as [[[k out] missed]|] eqn:Er.
  { wps. assert (folds m (put_reads (<[id:=(k, out, (missed + 1)%Z)]> (m_reads m)) m)) as F.
    { split; [|done]. apply inv_fewer_reads; [done|]. intros id' k' o n [(<- & E)|(_ & E)]%lookup_insert_Some; simplify_eq; eauto. }
    apply wp_when; intros _; [by wps|done]. }
  assert (folds m m) as Fm by (by apply folds_refl).
  assert (wp (modify (put_state Uncertain);; start_recon) (fun _ m' _ => folds m m') m s) as Ku.
  { wps. by apply start_recon_folds, uncertain_state. }
  wps. destruct (m_inflight m) as [i|] eqn:Ei; [|by wps]. destruct (negb _); [by wps|].
  match goal with |- wp (if ?b then _ else _) _ _ _ => destruct b end; [by wps|].
  destruct i as [p b w st|op it w st].
  - destruct st; try (by wps); try exact Ku. destruct (m_recon m); [by wps|]. by apply start_recon_folds.
  - assert (present_inflight m = false) as Hp by (by eapply server_absent).
    assert (forall m1 s1, folds m m1 -> present_inflight m1 = false -> forall msg (k : M G unit),
      (forall m2 s2, folds m m2 -> wp k (fun _ m' _ => folds m m') m2 s2) ->
      wp (clear_slot;; uncertain id msg;; k) (fun _ m' _ => folds m m') m1 s1) as Kc.
    { intros m1 s1 F1 Hp1 msg k Hk. wp_call clear_slot_folds; [apply F1|done|]. intros _ m2 s2 F2. wp_call uncertain_keeps.
      intros _ m3 s3 K3. apply Hk. eapply folds_keeps; [|exact K3]. by eapply folds_two. }
    destruct op, st; try (by wps); try exact Ku.
    + match goal with |- wp (if ?b then _ else _) _ _ _ => destruct b end.
      * apply wp_bind, wp_modify. apply Kc; [|done|by intros; wps]. split; [|done]. by apply inv_put_recon.
      * wps. set (m1 := put_recon _ _). assert (folds m m1) as F1.
        { split; [|unfold m1; change (present_inflight m = false -> present_inflight (put_state Uncertain m) = false); by rewrite put_state_present].
          apply inv_put_recon; [apply uncertain_state; done|]. intros rc [= <-]. split; [constructor|done]. }
        wp_call send_read_folds; [apply F1|done..|]. intros _ m' _ F. by eapply folds_two.
    + apply Kc; [done..|]. intros m2 s2 F2. wp_call suspect_folds; [apply F2|]. intros _ m' _ F. by eapply folds_two.
Qed.

(** ** Sending *)

(** The server's promise for the operation at the head of the queue, sent at the current revision. *)
Definition send_promise m : Prop :=
  forall r a p rest, m_queue m = (a, p) :: rest -> m_rev m = Z.of_nat r -> serves H (pd_op_id p) r (item_pairs (pd_items p)).

Lemma send_local_inv a p rest m s :
  inv m -> is_live m = true -> m_inflight m = None -> m_queue m = (a, p) :: rest -> send_promise m ->
  wp (modify (put_queue rest);; out ← send_local p; mret (Some out)) (fun _ m' _ => inv m') m s.
Proof.
  intros I Hl Ei Eq Hs. unfold send_local. wps. destruct (local_body (m_buffer m) (m_rev m) p) as [verb body] eqn:El.
  cbn [m_buffer put_queue m_rev]. rewrite El. wps. set (m' := put_inflight _ _).
  pose proof (live_following m Hl) as F. destruct (following_synced H m I F) as [(r & Er & Hr & Hc & Hf & _) Ar].
  assert (work_of m' = work_of m) as Ew by (unfold work_of, m'; cbn; by rewrite Ei, Eq).
  pose proof (Hs r a p rest Eq Er) as Sv. destruct I as [I1 I2 I3 [I4 _] I5]. rewrite Eq in I4. inversion I4 as [|? ? Up Uq]; subst.
  unfold is_live in Hl. split; try done. unfold phase_ok in *. cbn. destruct (m_phase m); try done. split; [|apply Ar].
  exists r. rewrite Ew. split_and!; try done. cbn. exists r, (pd_items p). split_and!; try done.
  - by rewrite edits_between_nil, rebase_edits_nil.
  - intros i e Hi Ee Eid. destruct (Sv i e Ee Eid) as [? _]. lia.
Qed.

Lemma send_server_inv q m s :
  inv m -> is_live m = true -> m_inflight m = None ->
  wp (send_server q) (fun _ m' _ => inv m') m s.
Proof.
  intros I Hl Ei. unfold send_server. wps. destruct (server_body _ _) as [verb body]. wps. unfold is_live in Hl.
  apply inv_slot; try done; [|by destruct (m_phase m)]. intros _. unfold present_inflight. by rewrite Ei.
Qed.

Lemma next_outgoing_inv m s : inv m -> send_promise m -> wp next_outgoing (fun _ m' _ => inv m') m s.
Proof.
  intros I Hs. unfold next_outgoing. wps. destruct (negb (is_live m) || _) eqn:E; [by wps|].
  apply orb_false_iff in E as [Hl%negb_false_iff Ei]. assert (m_inflight m = None) as Ei' by (by destruct (m_inflight m)). clear Ei.
  assert (forall rest q s1, wp (modify (put_server_ops rest);; out ← send_server q; mret (Some out)) (fun _ m' _ => inv m') m s1) as Ks.
  { intros rest q s1. wps. wp_call send_server_inv; [by apply (inv_keeps H m)|done..|]. intros out m' s' I'. by wps. }
  destruct (m_keep m) as [k|].
  - destruct (current ← km_current k; _) as [[q rest]|]; [apply Ks|by wps].
  - destruct (m_queue m) as [|[a p] rest] eqn:Eq.
    + destruct (m_server_ops m) as [|[n q] so]; [by wps|apply Ks].
    + destruct (m_server_ops m) as [|[n q] so]; [by eapply send_local_inv|]. destruct (a <? n)%Z; [by eapply send_local_inv|apply Ks].
Qed.
End replies.
