(* ===== verification/MirrorLocal.v ===== *)
(** * Local edits

    Cutting a long text into requests, the operations a local edit becomes, and [local_edit]
    against the invariant: an accepted edit is in the view and at the end of the queue. *)

From S2P Require Import Prelude Utf8 EditBase Ot Anchor GapBuffer Memory Text Buffer BufferSpec Str Json MirrorTypes Mirror MirrorOt MirrorInv MirrorFold MirrorSafe.

(** ** Chunks *)

Lemma floor_boundary_spec s cut :
  is_boundary s (floor_boundary s cut) = true /\ floor_boundary s cut <= cut /\
  forall b, is_boundary s b = true -> b <= cut -> b <= floor_boundary s cut.
Proof.
  induction cut as [|cut IH]; cbn [floor_boundary].
  - rewrite is_boundary_0. split_and!; [apply is_boundary_0|lia|lia].
  - destruct (is_boundary s (S cut)) eqn:E; [done|]. destruct IH as (I1 & I2 & I3). split_and!; [done|lia|].
    intros b Hb Hle. apply I3; [done|]. destruct (decide (b = S cut)) as [->|?]; [congruence|lia].
Qed.

(** A window of four bytes or more holds a character. *)
Lemma floor_boundary_progress s cut : utf8 s -> s <> [] -> 4 <= cut -> 1 <= floor_boundary s cut.
Proof.
  intros Us Hs Hc. destruct Us as [|c s Hsc Us]; [done|]. pose proof (scalar_length c Hsc) as Hl.
  destruct (floor_boundary_spec (c ++ s) cut) as (_ & _ & F). specialize (F (length c)).
  rewrite boundary_app_r in F by (done || lia). rewrite Nat.sub_diag in F. specialize (F (is_boundary_0 s)). lia.
Qed.

Lemma rposition_nl_Some s i : rposition_nl s = Some i -> s !! i = Some NL.
Proof.
  revert i; induction s as [|b s IH]; intros i; cbn; [done|]. destruct (rposition_nl s) as [j|].
  - intros [= <-]. by apply IH.
  - destruct (is_nl b) eqn:E; [|done]. intros [= <-]. apply is_nl_eq in E as ->. done.
Qed.

Lemma after_newline s i : utf8 s -> s !! i = Some NL -> is_boundary s (S i) = true.
Proof.
  intros Us Hi. pose proof (lookup_lt_Some _ _ _ Hi) as Hlt.
  assert (is_boundary s i = true) as Bi by (unfold is_boundary; rewrite Hi; by destruct i).
  destruct (utf8_split s i Us Bi) as [_ Ud]. rewrite (drop_S _ _ _ Hi) in Ud. apply utf8_nl_cons in Ud.
  rewrite <- (take_drop (S i) s). rewrite boundary_app_r by (done || rewrite length_take; lia).
  rewrite length_take_le by lia. rewrite Nat.sub_diag. apply is_boundary_0.
Qed.

(** The chunks are the text again, each on character boundaries and within the limit. *)
Lemma cut_chunks_spec fuel rest max nl :
  utf8 rest -> 4 <= max -> length rest <= fuel ->
  exists out, cut_chunks fuel rest max nl = Some out /\ concat out = rest /\
    Forall (fun p => utf8 p /\ 0 < length p <= max) out.
Proof.
  intros Us Hm; revert rest Us; induction fuel as [|fuel IH]; intros rest Us Hf; cbn [cut_chunks].
  - destruct rest; [|cbn in Hf; lia]. cbn. by exists [].
  - destruct (Nat.leb_spec (length rest) max) as [Hle|Hgt].
    { eexists; split; [reflexivity|]. destruct rest as [|b rest]; [done|]. cbn [length Nat.eqb concat]. rewrite app_nil_r.
      split; [done|]. constructor; [|done]. split; [done|]. cbn [length] in *. lia. }
    set (cut := floor_boundary rest max). destruct (floor_boundary_spec rest max) as (F1 & F2 & _). fold cut in F1, F2.
    assert (1 <= cut) as F3 by (apply floor_boundary_progress; [done|intros ->; cbn in Hgt; lia|done]).
    set (cut' := match (if nl then rposition_nl (take cut rest) else None) with Some n => _ | None => cut end).
    assert (is_boundary rest cut' = true /\ 1 <= cut' <= max) as [B1 B2].
    { unfold cut'. destruct (if nl then _ else None) as [n|] eqn:En; [|done]. destruct (max / 2 <=? n + 1); [|done].
      destruct nl; [|done]. apply rposition_nl_Some in En. rewrite lookup_take_Some in En. destruct En as [En Hn].
      replace (n + 1) with (S n) by lia. split; [by apply after_newline|lia]. }
    destruct (utf8_split rest cut' Us B1) as [U1 U2]. pose proof (is_boundary_le _ _ B1).
    destruct (IH (drop cut' rest) U2) as (out & -> & Ec & Fo); [rewrite length_drop; lia|].
    exists (take cut' rest :: out). split; [done|]. cbn [concat]. rewrite Ec, take_drop. split; [done|]. constructor; [|done].
    rewrite length_take. split; [done|lia].
Qed.

(** ** The operations of an edit *)

Definition applied (t : bytes) (ps : list Pending) : Prop := exists v, chain t (map pd_items ps) v.

Lemma single_ok t s e x d :
  s <= e -> is_boundary t s = true -> is_boundary t e = true -> utf8 x -> d = slice s e t ->
  items_ok t [mkItem (s, e) x d] /\ apply_items t [mkItem (s, e) x d] = splice t s e x.
Proof.
  intros Hse Bs Be Ux ->. pose proof (is_boundary_le _ _ Be). split.
  - split; [split|]; repeat constructor; cbn; try done; lia.
  - unfold apply_items. cbn. unfold splice, slice. rewrite drop_0, Nat.sub_0_r. done.
Qed.

(** Each piece of a long insertion goes behind the one before. *)
Lemma piece_ops_chain intent s e d pieces ids ps ids' t :
  utf8 t -> s <= e -> is_boundary t s = true -> is_boundary t e = true -> d = slice s e t ->
  Forall utf8 pieces -> pieces <> [] ->
  piece_ops intent (s, e) d pieces ids = (ps, ids') ->
  chain t (map pd_items ps) (splice t s e (concat pieces)) /\
  Forall pending_utf8 ps /\
  forall mu : bytes -> nat, ops_weight mu (map pd_items ps) = sum_list (map mu pieces).
Proof.
  intros Ut Hse Bs Be Hd Up; revert s e d ids ps ids' t Ut Hse Bs Be Hd.
  induction Up as [|x pieces Ux Up IH]; intros s e d ids ps ids' t Ut Hse Bs Be Hd Hne E; [done|].
  cbn [piece_ops] in E. destruct (next_id ids) as [ids1 oid]. cbn [fst] in E.
  destruct (piece_ops intent _ [] pieces ids1) as [ps1 ids2] eqn:E1. injection E as <- <-.
  destruct (single_ok t s e x d Hse Bs Be Ux Hd) as [S1 S2]. pose proof (is_boundary_le _ _ Be).
  assert (utf8 (splice t s e x)) as Us by (by apply utf8_splice).
  assert (utf8 d) as Ud by (subst d; by apply utf8_slice).
  destruct pieces as [|y pieces].
  { injection E1 as <- <-. cbn [map pd_items concat]. rewrite app_nil_r. cbn [chain]. rewrite S2. split_and!; try done. by repeat constructor. }
  assert (length (take s t ++ x) = s + length x) as L by (rewrite length_app, length_take; lia).
  destruct (utf8_split t e Ut Be) as [_ Ue].
  assert (is_boundary (splice t s e x) (s + length x) = true) as B.
  { unfold splice. rewrite app_assoc, boundary_app_l by (done || lia). rewrite <- L. apply is_boundary_len. }
  destruct (IH (s + length x) (s + length x) [] ids1 ps1 ids2 (splice t s e x)) as (C1 & C2 & C3); try done.
  { unfold slice. by rewrite Nat.sub_diag. }
  cbn [map pd_items chain it_text it_deleted]. rewrite S2. split_and!; try done.
  2: { constructor; [|done]. by repeat constructor. }
  2: { intros mu. specialize (C3 mu). unfold ops_weight in *. cbn [map sum_list sum_list_with pd_items it_text] in *. unfold id in *. lia. }
  assert (splice (splice t s e x) (s + length x) (s + length x) (concat (y :: pieces)) = splice t s e (concat (x :: y :: pieces))) as <-; [|done].
  unfold splice. rewrite (app_assoc (take s t) x (drop e t)). rewrite <- L, take_app_length, drop_app_length. cbn [concat]. by rewrite <- !app_assoc.
Qed.

(** ** Applying them *)

Lemma pending_canonical t p :
  items_ok t (pd_items p) -> canonical_seq (length t) (pending_edits p) /\ base_boundaries t (pending_edits p).
Proof.
  intros [[R F] _]. rewrite (pending_edits_reading p (length t)) by done. split; [by apply reading_canonical|].
  pose proof (reading_Forall _ _ _ R) as Fr. unfold item_pairs in *. rewrite Forall_map in F, Fr.
  apply Forall_rev, Forall_map. eapply Forall_both; [exact F|exact Fr|]. intros [[s e] x d] (B1 & B2 & _) Hse. cbn in *.
  split; [done|]. by replace (s + (e - s)) with e by lia.
Qed.

Section weight.
Context (mu : bytes -> nat) (mu_app : forall a b, mu (a ++ b) = mu a + mu b).

Lemma mu_drop t k : mu (drop k t) <= mu t.
Proof. rewrite <- (take_drop k t) at 2. rewrite mu_app. lia. Qed.

Lemma apply_edit_weight t e : mu (apply_edit t e) <= mu t + mu (e_insert e).
Proof.
  unfold apply_edit, splice. rewrite !mu_app. rewrite <- (take_drop (e_offset e) t) at 3. rewrite mu_app.
  pose proof (mu_drop (drop (e_offset e) t) (e_delete e)) as Hd. rewrite drop_drop in Hd. lia.
Qed.
End weight.

Lemma sum_list_rev (l : list nat) : sum_list (rev l) = sum_list l.
Proof. induction l as [|x l IH]; [done|]. cbn [rev]. rewrite sum_list_with_app, IH. cbn. unfold id. lia. Qed.

Lemma seq_within_weight t es :
  (Z.of_nat (length t + sum_list (map (fun e => length (e_insert e)) es)) <= MAX_BUFFER_BYTES)%Z ->
  (Z.of_nat (S (count_newlines t + sum_list (map (fun e => count_newlines (e_insert e)) es))) <= MAX_LINES)%Z ->
  seq_within t es.
Proof.
  revert t; induction es as [|e es IH]; intros t L1 L2; [done|]. cbn [map sum_list sum_list_with seq_within] in *. unfold id in *.
  pose proof (apply_edit_weight length (@length_app _) t e) as W1.
  pose proof (apply_edit_weight count_newlines count_newlines_app t e) as W2.
  split_and!; [lia|lia|]. apply IH; unfold sum_list in *; lia.
Qed.

Lemma canonical_windows hi es : canonical_seq hi es -> windows_canonical es = true.
Proof.
  revert hi; induction es as [|a [|b es] IH]; intros hi H; [done|done|]. destruct H as (H1 & H2 & H3). cbn [windows_canonical].
  apply andb_true_iff. split; [by apply Nat.leb_le|]. by apply (IH (e_offset a)).
Qed.

Section local.
Context {G : Type} {TS : TextStore G} {SL : TextStoreLaws G} {ENV : MirrorEnv}.
Hypothesis granted : memory_granted G env_reserve.
Implicit Types m : Mirror G.

Lemma apply_many_ok (t : Text G) es :
  text_wf t -> inserts_utf8 es -> canonical_seq (length (text t)) es -> base_boundaries (text t) es -> seq_within (text t) es ->
  exists t', apply_text t es = Some (t', None) /\ text_wf t' /\ text t' = apply_seq (text t) es.
Proof.
  intros W U C B S. destruct (apply_text_inv t es W U) as (t' & r & E & W' & E').
  assert (r = None) as ->; [|exists t'; split_and!; try done; by apply E'].
  destruct (prepare_accepts env_reserve t es) as (t1 & p & Ep & _); try done.
  unfold apply_text, apply_once in E. rewrite (canonical_windows _ _ C), Ep in E. destruct (length es =? 0); [by injection E as _ <-|].
  destruct (commit t1 p); cbn in E; [|done]. by injection E as _ <-.
Qed.

Lemma inserts_weight (mu : bytes -> nat) t p :
  items_ok t (pd_items p) ->
  sum_list (map (fun e => mu (e_insert e)) (pending_edits p)) = sum_list (map (fun it => mu (it_text it)) (pd_items p)).
Proof.
  intros [[R _] _]. rewrite (pending_edits_reading p (length t)) by done. rewrite map_rev, map_map, sum_list_rev. done.
Qed.

(** An operation that fits applies. *)
Lemma apply_pending_ok t0 work p m s :
  utf8 t0 -> text_wf (m_text m) -> chain t0 work (text (m_text m)) -> items_ok (text (m_text m)) (pd_items p) ->
  roomy t0 (work ++ [pd_items p]) ->
  wp (apply_view (pending_edits p)) (fun r m' _ => r = None /\ exists t', m' = put_text t' m /\ text_wf t' /\
    text t' = apply_items (text (m_text m)) (pd_items p)) m s.
Proof.
  intros U0 W Hc Ho [R1 R2]. destruct (pending_edits_exact _ _ Ho) as [Ea Ui]. destruct (pending_canonical _ _ Ho) as [C B].
  rewrite ops_weight_app in R1, R2. unfold ops_weight in R1 at 2, R2 at 2. cbn in R1, R2. rewrite Nat.add_0_r in R1, R2.
  pose proof (chain_weight length (@length_app _) _ _ _ Hc) as W1.
  pose proof (chain_weight count_newlines count_newlines_app _ _ _ Hc) as W2.
  destruct (apply_many_ok (m_text m) (pending_edits p)) as (t' & E & W' & Et); try done.
  { apply seq_within_weight; rewrite (inserts_weight _ _ _ Ho); lia. }
  unfold apply_view. wps. rewrite E. wps. split; [done|]. exists t'. split_and!; try done. by rewrite Et.
Qed.

Lemma apply_pendings_ok before ps edits t0 work v m s :
  utf8 t0 -> text_wf (m_text m) -> chain t0 work (text (m_text m)) -> chain (text (m_text m)) (map pd_items ps) v ->
  roomy t0 (work ++ map pd_items ps) ->
  wp (apply_pendings before ps edits) (fun r m' _ => (exists es, r = Ok es) /\ exists t', m' = put_text t' m /\ text_wf t' /\ text t' = v) m s.
Proof.
  intros U0; revert before edits work m s; induction ps as [|p ps IH]; intros before edits work m s W Hc Hv Hr; cbn [apply_pendings].
  { wps. split; [by eexists|]. exists (m_text m). split_and!; [by destruct m|done|done]. }
  destruct Hv as [Ho Hv]. cbn [map] in Hr. rewrite cons_middle, app_assoc in Hr.
  wp_call (apply_pending_ok t0 work); [done|done|exact Hc|done|by eapply roomy_prefix|].
  intros r m1 s1 (-> & t' & -> & W' & Et).
  eapply wp_mono; [apply (IH _ _ (work ++ [pd_items p]))|]; try done.
  - cbn [m_text put_text]. rewrite Et, chain_snoc. by eexists.
  - cbn [m_text put_text]. by rewrite Et.
Qed.

(** ** The operations of a checked edit *)

(** Items in reading order. *)
Fixpoint in_order (pos : nat) (items : list (range * bytes)) : Prop :=
  match items with
  | [] => True
  | (r, _) :: rest => pos <= fst r /\ in_order (snd r) rest
  end.

Lemma check_item_Ok (t : Text G) r :
  text_wf t -> check_item t r = Ok tt ->
  fst r <= snd r <= length (text t) /\ is_boundary (text t) (fst r) = true /\ is_boundary (text t) (snd r) = true.
Proof.
  intros W. unfold check_item. rewrite len_text, !is_char_boundary_spec by (apply W || done).
  destruct (Nat.ltb_spec (snd r) (fst r)); [done|]. destruct (Nat.ltb_spec (length (text t)) (snd r)); [done|]. cbn [orb].
  destruct (is_boundary (text t) (fst r)), (is_boundary (text t) (snd r)); done.
Qed.

Lemma checked_pairs (t : Text G) items :
  text_wf t -> check_local t items = Ok tt -> in_order 0 items -> Forall (fun it => utf8 (snd it)) items ->
  pairs_ok (text t) items /\ (exceeds (text_bytes items) MAX_REQUEST_TEXT_BYTES = true -> length items <= 1).
Proof.
  intros W Hc Ho Hu. unfold check_local in Hc.
  destruct (exceeds (length items) _); [done|]. cbn [orb] in Hc.
  assert (exceeds (text_bytes items) MAX_REQUEST_TEXT_BYTES = true -> length items <= 1) as Hl.
  { intros E. rewrite E in Hc. destruct (Nat.ltb_spec 1 (length items)); [done|lia]. }
  destruct (exceeds (text_bytes items) _ && _); [done|]. run_inv Hc. split; [|done].
  apply mapM_res_Ok in Hx.
  assert (Forall (fun it => check_item t (fst it) = Ok tt) items) as Hf.
  { clear -Hx. induction Hx as [|it [] items k E H IH]; by constructor. }
  clear Hx Hc Hl. assert (Forall (pair_fits (text t)) items) as Hp.
  { eapply Forall_both; [exact Hf|exact Hu|]. intros it E U. apply check_item_Ok in E as (? & ? & ?); [|done]. by split_and!. }
  split; [|done]. clear Hp Hu. revert Ho. assert (0 <= length (text t)) as Hlen by lia. revert Hlen. generalize 0 as pos.
  induction Hf as [|[[s e] y] items E Hf IH]; intros pos Hpos Ho; cbn; [done|]. destruct Ho as [H1 H2].
  apply check_item_Ok in E as (H3 & _); [|done]. cbn in *. split_and!; [lia|lia|]. apply IH; [lia|done].
Qed.

Lemma local_ops_spec (t : Text G) e intent ids :
  text_wf t -> pairs_ok (text t) (led_items e) -> led_items e <> [] ->
  (exceeds (text_bytes (led_items e)) MAX_REQUEST_TEXT_BYTES = true -> length (led_items e) <= 1) ->
  exists ps ids', local_ops t e intent ids = Some (ps, ids') /\
    chain (text t) (map pd_items ps) (rewrite_from (text t) 0 (led_items e)) /\ Forall pending_utf8 ps /\
    forall mu : bytes -> nat, (forall a b, mu (a ++ b) = mu a + mu b) -> mu [] = 0 ->
      ops_weight mu (map pd_items ps) = sum_list (map (fun it => mu (snd it)) (led_items e)).
Proof.
  intros W [R F] Hne Hlong. pose proof (reading_Forall _ _ _ R) as Fr. pose proof (twf_utf8 _ W) as Ut. unfold local_ops.
  destruct (led_items e) as [|[[a b] x] rest] eqn:El; [done|].
  destruct (exceeds (text_bytes _) _) eqn:Ex.
  - specialize (Hlong eq_refl). destruct rest; [|cbn in Hlong; lia].
    inversion F as [|? ? (B1 & B2 & Ux) _]; subst. cbn [fst snd] in *. destruct R as (_ & Hab & _).
    destruct (cut_chunks_spec (length x) x (Z.to_nat MAX_REQUEST_TEXT_BYTES) false Ux) as (pieces & -> & Ec & Fp); [unfold MAX_REQUEST_TEXT_BYTES, MIB; lia|done|].
    cbn [mbind option_bind]. destruct (piece_ops _ _ _ _ _) as [ps ids'] eqn:Ep. exists ps, ids'. split; [done|].
    assert (pieces <> []) as Hnp.
    { intros ->. cbn in Ec. subst x. vm_compute in Ex. done. }
    assert (Forall utf8 pieces) as Fu by (eapply Forall_impl; [exact Fp|]; by intros p [? _]).
    rewrite (read_exact t a b []) in Ep by done. cbn [app] in Ep.
    destruct (piece_ops_chain _ _ _ _ _ _ _ _ (text t) Ut Hab B1 B2 eq_refl Fu Hnp Ep) as (C1 & C2 & C3).
    rewrite Ec in C1. split_and!.
    + cbn. unfold splice in C1. unfold slice at 1. rewrite drop_0, Nat.sub_0_r. done.
    + done.
    + intros mu mu_app mu_0. rewrite C3. cbn. rewrite <- Ec. clear -mu_app mu_0. unfold id. rewrite Nat.add_0_r.
      induction pieces as [|y pieces IH]; cbn; [done|]. rewrite mu_app, <- IH. done.
  - destruct (next_id ids) as [ids' oid]. eexists _, ids'. split; [reflexivity|].
    set (items := map (fun it => mkItem (fst it) (snd it) _) _). assert (item_pairs items = led_items e) as Ei.
    { unfold item_pairs, items. rewrite map_map, El. clear. cbn. f_equal. induction rest as [|[[? ?] ?] rest IH]; cbn; [done|]. by rewrite IH. }
    assert (Forall (fun it => it_deleted it = slice (fst (it_range it)) (snd (it_range it)) (text t)) items) as Hd.
    { unfold items. apply Forall_map. eapply Forall_both; [exact F|exact Fr|]. intros [[s' e'] y] (B1 & B2 & _) [Hse _].
      cbn [fst snd it_deleted it_range] in *. rewrite read_exact by (done || lia). done. }
    rewrite <- El in *. cbn [map pd_items]. split_and!.
    + cbn [chain]. split; [split; [split; by rewrite Ei|done]|]. unfold apply_items. by rewrite Ei.
    + constructor; [|constructor]. unfold pending_utf8. cbn. rewrite <- Ei in F, Fr. unfold item_pairs in F, Fr. rewrite Forall_map in F, Fr.
      rewrite Forall_forall in *. intros it Hin. destruct (F it Hin) as (B1 & B2 & U). specialize (Fr it Hin). split; [done|].
      rewrite (Hd it Hin). apply utf8_slice; try done. apply Fr.
    + intros mu _ _. unfold ops_weight. cbn [map sum_list sum_list_with]. unfold id. rewrite Nat.add_0_r, <- Ei. unfold item_pairs. by rewrite map_map.
Qed.

(** ** [local_edit] *)

Lemma push_queue_spec ps m :
  exists n q, push_queue ps m = put_queue (m_queue m ++ q) (put_fifo n m) /\ map snd q = ps.
Proof.
  revert m; induction ps as [|p ps IH]; intros m; cbn [push_queue].
  - exists (m_fifo m), []. rewrite app_nil_r. by destruct m.
  - match goal with |- context [push_queue ps ?x] => destruct (IH x) as (n & q & -> & E) end.
    exists n, (((m_fifo m + 1)%Z, p) :: q). split; [|by cbn; rewrite E]. cbn [m_queue put_queue put_fifo m_fifo]. rewrite <- app_assoc. done.
Qed.

Context (H : ServerHistory) (HW : hist_wf H).
Abbreviation inv := (inv H).

(** The text of an edit as the items of one operation. *)
Definition bare_items (items : list (range * bytes)) : list Item := map (fun it => mkItem (fst it) (snd it) []) items.

(** An edit in reading order, of text, that fits whatever the server's text becomes. *)
Definition edit_fits m (e : LocalEdit) : Prop :=
  in_order 0 (led_items e) /\ Forall (fun it => utf8 (snd it)) (led_items e) /\
  forall k, roomy (text_at H k) (work_of m ++ [bare_items (led_items e)]).

Lemma inv_enqueue m t' n q v :
  inv m -> is_live m = true -> text_wf t' -> text t' = v -> chain (text (m_text m)) (map (fun q => pd_items q.2) q) v ->
  Forall (fun q => pending_utf8 q.2) q ->
  (forall k, roomy (text_at H k) (work_of m ++ map (fun q => pd_items q.2) q)) ->
  inv (put_queue (m_queue m ++ q) (put_fifo n (put_text t' m))).
Proof.
  intros I Hl W Et Hc Hu Hr. pose proof (live_following m Hl) as F.
  destruct (following_synced H m I F) as [(r & Er & Hle & Hch & _ & Ho) Ar]. set (m' := put_queue _ _).
  assert (work_of m' = work_of m ++ map (fun q => pd_items q.2) q) as Ew.
  { unfold work_of, m'. cbn. by rewrite map_app, app_assoc. }
  destruct I as [I1 I2 I3 [I4 I4'] I5]. unfold is_live in Hl. split; try done.
  - unfold phase_ok. cbn. destruct (m_phase m); try done. split; [|apply Ar]. exists r. rewrite Ew. split_and!; try done.
    cbn. rewrite Et. apply chain_app. eauto.
  - split; [|done]. cbn. by apply Forall_app.
Qed.

Lemma roomy_weight t l k k' :
  (forall mu : bytes -> nat, (forall a b, mu (a ++ b) = mu a + mu b) -> mu [] = 0 -> ops_weight mu k = ops_weight mu k') ->
  roomy t (l ++ k') -> roomy t (l ++ k).
Proof.
  intros E. unfold roomy. rewrite !ops_weight_app. rewrite (E length), (E count_newlines); try done; [apply count_newlines_app|apply length_app].
Qed.

Lemma local_edit_inv e intent ids m s :
  inv m -> edit_fits m e ->
  wp (local_edit e intent ids) (fun r m' _ => inv m' /\
    ((exists err, r.1 = Err err /\ m' = m) \/
     r.1 = Ok tt /\ text (m_text m') = rewrite_from (text (m_text m)) 0 (led_items e) /\
     exists ops, work_of m' = work_of m ++ ops /\ chain (text (m_text m)) ops (text (m_text m')))) m s.
Proof.
  intros I (Hord & Hu & Hr). unfold local_edit. wps. destruct (is_live m) eqn:Hl; cbn [negb]; [|wps; split; [done|]; left; by eexists].
  destruct (Nat.eqb_spec (length (led_items e)) 0) as [E0|E0].
  { apply length_zero_iff_nil in E0. rewrite E0. wps. split; [done|]. right. cbn [rewrite_from]. rewrite drop_0. split_and!; try done.
    exists []. by rewrite app_nil_r. }
  destruct (check_local (m_text m) (led_items e)) as [[]|err] eqn:Ec; [|wps; split; [done|]; left; by eexists].
  pose proof (inv_text _ _ I) as W. destruct (checked_pairs _ _ W Ec Hord Hu) as [Hp Hlong].
  destruct (local_ops_spec (m_text m) e intent ids W Hp) as (ps & ids' & -> & Hc & Hpu & Hw); [by intros E; rewrite E in E0|done|].
  assert (forall k, roomy (text_at H k) (work_of m ++ map pd_items ps)) as Hr'.
  { intros k. eapply roomy_weight; [|apply Hr]. intros mu M1 M2. rewrite Hw by done. unfold ops_weight, bare_items. cbn. rewrite map_map.
    unfold id. rewrite Nat.add_0_r. done. }
  wps. destruct (following_synced H m I (live_following m Hl)) as [(r & Er & Hle & Hch & _ & _) _].
  destruct (text_at_replays H r HW) as [Ut _].
  wp_call (apply_pendings_ok [] ps [] (text_at H r) (work_of m)); try done.
  intros res m1 s1 ((es & ->) & t' & -> & W' & Et). wps.
  destruct (push_queue_spec ps (put_text t' m)) as (n & q & -> & Eq). set (m2 := put_queue _ _).
  assert (map (fun q : Z * Pending => pd_items q.2) q = map pd_items ps) as Eqi by (rewrite <- Eq, map_map; done).
  assert (inv m2) as I2.
  { apply (inv_enqueue m t' n q _ I Hl W' eq_refl); rewrite ?Eqi; [by rewrite Et| |exact Hr'].
    rewrite <- Eq in Hpu. by rewrite Forall_map in Hpu. }
  wp_call push_delta_keeps. intros _ m3 s3 K. wps. assert (keeps m2 m3) as K2 by done.
  split; [by eapply inv_keeps|]. right. split; [done|]. destruct K2 as [C C']. unfold core in C. injection C as E1 _ E3 _ _ _ _ _ _.
  rewrite E1. split; [done|]. exists (map pd_items ps). cbn [m_text m2 put_queue put_fifo put_text]. rewrite Et. split; [|done].
  unfold work_of at 1. rewrite C', E3. unfold m2, work_of. cbn [m_inflight m_queue put_queue put_fifo put_text].
  by rewrite map_app, Eqi, app_assoc.
Qed.
End local.
