(* ===== verification/MirrorKeep.v ===== *)
(** * Keep mine

    Writing a detached copy back over the server's text: the span that differs, the staged
    requests it becomes, and what [keep_mine] starts. *)

From S2P Require Import Prelude Utf8 EditBase Ot Anchor GapBuffer Text Buffer BufferSpec BufferOps Str Json MirrorTypes Mirror MirrorOt MirrorInv MirrorLocal.

(** Between a common prefix and a common suffix, on boundaries of both texts. *)
Lemma differing_span_spec mine theirs a b ins :
  utf8 mine -> utf8 theirs -> differing_span mine theirs = (a, b, ins) ->
  a <= b /\ is_boundary theirs a = true /\ is_boundary theirs b = true /\ utf8 ins /\ splice theirs a b ins = mine.
Proof.
  intros Hm Ht. unfold differing_span. destruct (common_prefix_spec mine theirs) as (C1 & C2 & C3).
  destruct (floor_prefix_spec mine theirs (common_prefix mine theirs)) as (F1 & F2 & F3).
  set (p := floor_prefix mine theirs (common_prefix mine theirs)) in *.
  pose proof (take_eq_le _ _ _ _ F1 C3) as Epre. set (room := min (length mine - p) (length theirs - p)).
  destruct (common_prefix_spec (take room (rev mine)) (take room (rev theirs))) as (D1 & D2 & D3).
  set (suf0 := common_prefix (take room (rev mine)) (take room (rev theirs))) in *. rewrite length_take, length_rev in D1, D2.
  destruct (floor_suffix_spec mine theirs suf0) as (S1 & S2 & S3). set (suf := floor_suffix mine theirs suf0) in *.
  assert (drop (length mine - suf) mine = drop (length theirs - suf) theirs) as Esuf.
  { apply rev_suffix; [lia..|]. apply (take_eq_le _ _ suf0); [done|]. rewrite !take_take in D3.
    by rewrite (Nat.min_l suf0 room) in D3 by lia. }
  intros [= <- <- <-]. split_and!; [lia|done|done|apply utf8_slice; [done|lia|done|done]|].
  unfold splice. rewrite <- Epre, <- Esuf. apply (splice_same mine p (length mine - suf)); lia.
Qed.

Definition stage_edit (s : KeepStage) : Edit := mkEdit (fst (ks_range s)) (snd (ks_range s) - fst (ks_range s)) (ks_text s).

Lemma apply_stage t s e x : s <= e -> apply_edit t (mkEdit s (e - s) x) = splice t s e x.
Proof. intros. unfold apply_edit. cbn. by replace (s + (e - s)) with e by lia. Qed.

Lemma insert_stages_spec ids tag at_ pieces t stages ids' :
  at_ <= length t -> insert_stages ids tag at_ pieces = (stages, ids') ->
  apply_seq t (map stage_edit stages) = splice t at_ at_ (concat pieces) /\ map ks_text stages = pieces.
Proof.
  revert ids at_ t stages ids'; induction pieces as [|x pieces IH]; intros ids at_ t stages ids' Hle E; cbn [insert_stages] in E.
  { injection E as <- <-. unfold splice. cbn [concat app map apply_seq foldl]. by rewrite take_drop. }
  destruct (next_tagged ids tag) as [ids1 oid]. destruct (insert_stages ids1 tag _ pieces) as [rest ids2] eqn:E1. injection E as <- <-.
  destruct (IH _ (at_ + length x) (splice t at_ at_ x) _ _ ltac:(rewrite length_splice by lia; lia) E1) as [I1 I2]. 
  cbn [map ks_text]. change (apply_seq t (?e :: ?l)) with (apply_seq (apply_edit t e) l).
  assert (apply_edit t (stage_edit (mkKeepStage oid (bs "edit.insert") (at_, at_) x)) = splice t at_ at_ x) as ->
    by (apply (apply_stage t at_ at_ x); lia).
  rewrite I1, I2. split; [|done].
  assert (length (take at_ t ++ x) = at_ + length x) as L by (rewrite length_app, length_take; lia).
  unfold splice. rewrite (app_assoc (take at_ t) x). rewrite <- L, take_app_length, drop_app_length. cbn [concat]. by rewrite <- !app_assoc.
Qed.

(** The stages, applied one after the other, replace the span. *)
Lemma keep_stages_spec ids tag a b ins t :
  utf8 ins -> a <= b <= length t ->
  exists stages ids', keep_stages ids tag a b ins = Some (stages, ids') /\ stages <> [] /\
    apply_seq t (map stage_edit stages) = splice t a b ins /\
    Forall (fun s => (Z.of_nat (length (ks_text s)) <= MAX_REQUEST_TEXT_BYTES)%Z) stages.
Proof.
  intros Ui Hab. unfold keep_stages. destruct (exceeds (length ins) MAX_REQUEST_TEXT_BYTES) eqn:Ex; cbn [negb].
  2: { destruct (next_tagged ids tag) as [ids' oid]. do 2 eexists. split; [reflexivity|]. split; [done|]. split.
       - cbn. apply apply_stage. lia.
       - constructor; [|done]. by apply exceeds_false in Ex. }
  set (d := if a <? b then _ else _). destruct d as [del ids1] eqn:Ed.
  destruct (cut_chunks_spec (length ins) ins (Z.to_nat MAX_REQUEST_TEXT_BYTES) true Ui) as (pieces & -> & Ec & Fp);
    [unfold MAX_REQUEST_TEXT_BYTES, MIB; lia|done|].
  cbn [mbind option_bind]. destruct (insert_stages ids1 tag a pieces) as [rest ids2] eqn:Ei. do 2 eexists. split; [reflexivity|].
  assert (apply_seq t (map stage_edit del) = splice t a b [] /\ Forall (fun s => ks_text s = []) del) as [Hd Fd].
  { unfold d in Ed. destruct (Nat.ltb_spec a b).
    - destruct (next_tagged ids tag) as [ids' oid]. injection Ed as <- <-. split; [apply (apply_stage t a b []); lia|]. by constructor.
    - injection Ed as <- <-. assert (a = b) as -> by lia. unfold splice. cbn [map apply_seq foldl app]. by rewrite take_drop. }
  destruct (insert_stages_spec ids1 tag a pieces (splice t a b []) rest ids2) as [I1 I2]; [rewrite length_splice by lia; cbn; lia|done|].
  split_and!.
  - intros E. apply app_eq_nil in E as [_ ->]. cbn in I2. subst pieces. cbn in Ec. subst ins. vm_compute in Ex. done.
  - rewrite map_app. unfold apply_seq in *. rewrite foldl_app, Hd, I1, Ec. unfold splice. cbn [app].
    assert (length (take a t) = a) as L by (rewrite length_take; lia). rewrite <- L at 1 3. by rewrite take_app_length, drop_app_length.
  - apply Forall_app. split; [eapply Forall_impl; [exact Fd|]; intros s ->; unfold MAX_REQUEST_TEXT_BYTES, MIB; cbn; lia|].
    rewrite <- I2 in Fp. rewrite Forall_map in Fp. eapply Forall_impl; [exact Fp|]. cbn. intros s [_ Hs]. lia.
Qed.

Section keep.
Context {G : Type} {TS : TextStore G} {SL : TextStoreLaws G} {ENV : MirrorEnv}.
Implicit Types m : Mirror G.

Lemma read_all_text (t : Text G) : text_wf t -> read_all t = text t.
Proof.
  intros W. unfold read_all. rewrite len_text by apply W. rewrite read_exact; [|done|lia|apply is_boundary_0|apply is_boundary_len].
  unfold slice. by rewrite drop_0, Nat.sub_0_r, take_ge by lia.
Qed.

(** A detached copy is a string. *)
Definition copy_utf8 m : Prop := forall c, m_detached_copy m = Some c -> utf8 (dc_text c).

(** What is under way: the first stage is queued for revision [rev], the others wait, and all of them
    turn [theirs] into [mine]. *)
Definition keeping m m' (intent : Intent) (theirs mine : bytes) : Prop :=
  exists st rest n,
    m_keep m' = Some (mkKeepMine intent rest [] (Some (ks_op_id st)) None) /\
    m_server_ops m' = m_server_ops m ++
      [(n, mkQServer (SApplyAt [(ks_range st, ks_text st)] (m_rev m)) intent (ks_op_id st) (Some (ks_verb st)) None)] /\
    apply_seq theirs (map stage_edit (st :: rest)) = mine /\
    Forall (fun s => (Z.of_nat (length (ks_text s)) <= MAX_REQUEST_TEXT_BYTES)%Z) (st :: rest).

Lemma keep_mine_spec intent ids m s :
  text_wf (m_text m) -> copy_utf8 m ->
  wp (keep_mine intent ids) (fun _ m' _ => keeps m m' /\
    forall c, m_detached_copy m = Some c -> is_idle m = true -> m_keep m = None ->
      dc_text c = text (m_text m) /\ m_detached_copy m' = None /\ m_keep m' = None \/
      keeping m m' intent (text (m_text m)) (dc_text c)) m s.
Proof.
  intros W Hu. unfold keep_mine. wps. destruct (m_detached_copy m) as [c|] eqn:Ec; [|by wps]. specialize (Hu c Ec).
  destruct (negb (is_idle m) || _) eqn:Ew.
  { wps. split; [done|]. intros c' _ Hi Hk. rewrite Hi, Hk in Ew. done. }
  apply orb_false_iff in Ew as [Hi Hk]. rewrite read_all_text by done.
  destruct (differing_span (dc_text c) (text (m_text m))) as [[a b] ins] eqn:Ed.
  destruct (differing_span_spec _ _ _ _ _ Hu (twf_utf8 _ W) Ed) as (D1 & D2 & D3 & D4 & D5).
  destruct ((a =? b) && (length ins =? 0)) eqn:E0.
  { wps. split; [done|]. intros c' [= <-] _ Hkk. left. cbn. apply andb_true_iff in E0 as [->%Nat.eqb_eq E0%Nat.eqb_eq].
    apply length_zero_iff_nil in E0 as ->. split_and!; try done. unfold splice in D5. cbn [app] in D5. by rewrite take_drop in D5. }
  wps. set (m1 := put_keep_count _ m). set (tag := bs "keep" ++ _).
  destruct (keep_stages_spec ids tag a b ins (text (m_text m)) D4) as (stages & ids' & -> & Hne & Ha & Hs); [split; [done|by apply is_boundary_le]|].
  destruct stages as [|st rest]; [done|]. wps. unfold keep_next_stage. wps. cbn [m_keep put_keep km_stages]. wps.
  unfold queue_server. wps. split; [done|]. intros c' [= <-] _ _. right. eexists st, rest, _. split_and!; try done. by rewrite Ha.
Qed.
End keep.
