(* ===== verification/MirrorServer.v ===== *)
(** * The server's side of the mirror's contract

    The mirror relies on the server committing a request at its base revision as its items
    carried through the entries in between ([serves]).  The edit core's buffer does: this file
    connects [Buffer.apply] to the mirror. *)

From S2P Require Import Prelude Utf8 EditBase Ot Anchor GapBuffer Text History Buffer BufferSpec BufferTxn Str Json MirrorTypes Mirror MirrorOt MirrorInv.

(** The operation of an item: what [op_json] writes, decoded. *)
Definition spec_of (it : range * bytes) : OpSpec :=
  if range_is_empty (fst it) then OpInsert (Offset (fst (fst it))) (snd it)
  else if length (snd it) =? 0 then OpDelete (Offsets (fst (fst it)) (snd (fst it)))
  else OpReplace (Offsets (fst (fst it)) (snd (fst it))) (snd it).

(** The request of a pending operation: the fields [local_body] writes, decoded.  [edit.insert],
    [edit.delete] and [edit.replace] are its requests of one operation; those of [edit.apply] are
    not coalesced.  The codec between the two is left out. *)
Definition request_of (p : Pending) (base_rev : Z) : TxnRequest :=
  mkTxnRequest (map (fun it => spec_of (item_pair it)) (pd_items p)) (BaseRev base_rev)
    (match pd_items p with [_] => pd_coalesce p | _ => false end) None (Some (pd_op_id p)).

Section server.
Context {G : Type} {TS : TextStore G} {SL : TextStoreLaws G}.
Implicit Types b : Buffer G.

Lemma rebase_pairs_Forall2 b its its' es (t c : bytes) :
  Forall2 (fun it it' => snd it' = snd it /\ rebase_range b (fst it) es = Ok (fst it') /\
    slice (fst (fst it')) (snd (fst it')) c = slice (fst (fst it)) (snd (fst it)) t) its its' ->
  rebase_pairs its (concat (map le_edits es)) = Some its'.
Proof.
  intros F. apply mapM_Some. eapply Forall2_impl; [exact F|]. intros [r x] [r' x'] (Ex & E & _). cbn in *. subst x'.
  by rewrite (rebase_range_seq _ _ _ _ E).
Qed.

Lemma check_offset_same b o o' : check_offset b o = Ok o' -> o' = o.
Proof. unfold check_offset. destruct (_ <? _); [done|]. destruct (negb _); [done|]. by intros [= <-]. Qed.

(** An item's operation resolves to the item, on the current text and on an older one. *)
Lemma resolve_spec b s e x it : s <= e -> resolve_op b (spec_of ((s, e), x)) = Ok it -> it = ((s, e), x).
Proof.
  intros Hse. unfold spec_of, range_is_empty. cbn [fst snd]. destruct (Nat.leb_spec e s) as [Hle|Hlt].
  - cbn [resolve_op resolve_pos]. intros E. run_inv E. apply check_offset_same in Hx as ->. subst it. by replace e with s by lia.
  - assert (forall r, resolve_range b (Offsets s e) = Ok r -> r = (s, e)) as K.
    { intros r E. cbn [resolve_range] in E. run_inv E. apply check_offset_same in Hx as ->. apply check_offset_same in Hx0 as ->.
      unfold ordered in E. destruct (e <? s); [done|]. by injection E as <-. }
    destruct (Nat.eqb_spec (length x) 0) as [E0|_]; cbn [resolve_op]; intros E; run_inv E; apply K in Hx as ->; [|by subst].
    apply length_zero_iff_nil in E0 as ->. by subst.
Qed.

Lemma resolve_base_spec n s e x it : s <= e -> resolve_base_op n (spec_of ((s, e), x)) = Ok it -> it = ((s, e), x).
Proof.
  intros Hse. unfold spec_of, range_is_empty. cbn [fst snd]. destruct (Nat.leb_spec e s) as [Hle|Hlt]; [|destruct (Nat.eqb_spec (length x) 0) as [E0|_]];
    unfold resolve_base_op; destruct (_ || _); try done; destruct (_ <? _); try done; intros [= <-]; try done.
  - by replace e with s by lia.
  - apply length_zero_iff_nil in E0 as ->. done.
Qed.

Lemma resolve_specs (f : OpSpec -> res (range * bytes)) its its' :
  (forall s e x it, s <= e -> f (spec_of ((s, e), x)) = Ok it -> it = ((s, e), x)) ->
  Forall (fun it => fst (fst it) <= snd (fst it)) its -> mapM_res f (map spec_of its) = Ok its' -> its' = its.
Proof.
  intros Hf F; revert its'; induction F as [|[[s e] x] its Hse F IH]; intros its' E; cbn [map mapM_res] in E; [by injection E as <-|].
  run_inv E. apply Hf in Hx as ->; [|done]. rewrite (IH _ Hx0) in E. done.
Qed.

Lemma txn_sequence_number its t :
  Forall (pair_ok t) its -> pairwise_apart (map fst its) ->
  exists sq, txn_sequence its = Some sq /\ map snd sq = txn_seq (number its).
Proof.
  intros F Hap. unfold txn_sequence.
  assert (existsb (fun it => snd (fst it) <? fst (fst it)) its = false) as ->.
  { apply not_true_iff_false. intros (it & Hin & E)%existsb_exists. rewrite Forall_forall in F.
    apply list_elem_of_In in Hin. destruct (F it Hin) as [(? & _) _]. apply Nat.ltb_lt in E. lia. }
  assert (first_overlap (map fst its) = None) as ->.
  { apply first_overlap_None; [|done]. apply Forall_fmap. eapply Forall_impl; [exact F|]. by intros it [(? & _) _]. }
  cbn [orb]. eexists. split; [reflexivity|]. rewrite txn_seq_number, map_map. apply map_ext. by intros [i [[s e] x]].
Qed.

(** What the buffer makes of a pending operation's request, in the mirror's terms. *)
Lemma apply_request vr b p base_rev origin via now_ms b' a :
  buf_wf b -> rev_room b -> ordered_items (pd_items p) -> Forall (fun it => utf8 (it_text it)) (pd_items p) ->
  apply vr b (request_of p base_rev) origin via now_ms = Some (b', Ok a) ->
  exists its' sq, rebase_pairs (item_pairs (pd_items p)) (concat (map le_edits (after (b_log b) base_rev))) = Some its' /\
    txn_sequence its' = Some sq /\ ap_edits a = map snd sq /\
    content b' = apply_seq (content b) (ap_edits a).
Proof.
  intros W Hroom Ho Hu E.
  assert (Forall op_utf8 (rq_ops (request_of p base_rev))) as Hops.
  { cbn. apply Forall_map. eapply Forall_impl; [exact Hu|]. intros [[s e] x d] Ux. unfold spec_of, item_pair. cbn [fst snd it_range it_text] in *.
    destruct (range_is_empty (s, e)); [done|]. by destruct (length x =? 0). }
  destruct (apply_inv vr b (request_of p base_rev) origin via now_ms W Hroom Hops) as (b1 & r1 & E1 & _ & K). rewrite E in E1. injection E1 as <- <-.
  destruct K as (from & t & its & its' & Hfrom & Hres & F & Hap & Hc & _).
  destruct Hc as (_ & Ect & _ & _ & _ & _ & Eap & _). rewrite <- Eap in Ect.
  destruct (txn_sequence_number its' _ F Hap) as (sq & Es & Em). exists its', sq. split_and!; try done; [|by rewrite Eap, Em].
  assert (rq_ops (request_of p base_rev) = map spec_of (item_pairs (pd_items p))) as Eo by (cbn; unfold item_pairs; by rewrite map_map).
  assert (Forall (fun it => fst (fst it) <= snd (fst it)) (item_pairs (pd_items p))) as Ho'.
  { unfold item_pairs. apply Forall_map. eapply Forall_impl; [exact Ho|]. by intros [[s e] x d]. }
  rewrite Eo in Hres. unfold resolves in Hres. destruct from as [r|].
  - destruct Hres as (_ & Hrep & Hm & F2). apply resolve_specs in Hm as ->; [|apply resolve_base_spec|done].
    assert (r = base_rev) as ->.
    { cbn in Hfrom. destruct (b_rev b <? base_rev)%Z; [done|]. destruct (base_rev <? _)%Z; [done|]. destruct (base_rev <? b_rev b)%Z; [|done]. by injection Hfrom as <-. }
    by eapply rebase_pairs_Forall2.
  - destruct Hres as (_ & -> & Hm). apply resolve_specs in Hm as ->; [|apply resolve_spec|done].
    assert (after (b_log b) base_rev = []) as ->.
    { cbn in Hfrom. destruct (Z.ltb_spec (b_rev b) base_rev); [done|]. destruct (base_rev <? _)%Z; [done|].
      destruct (Z.ltb_spec base_rev (b_rev b)); [done|]. assert (base_rev = b_rev b) as -> by lia.
      destruct (bw_log b W) as [Hl _]. pose proof (bw_rev b W) as Er. pose proof (lw_base _ Hl). unfold rev_room in Hroom.
      rewrite after_filter by (done || unfold last_rev in *; lia). rewrite (revs_from_filter (base (b_log b))) by apply Hl.
      apply drop_ge. unfold last_rev in Er. lia. }
    cbn. unfold rebase_pairs. apply mapM_Some. clear. induction (item_pairs (pd_items p)) as [|[r x] l IH]; by constructor.
Qed.

(** The entry the buffer logs for the request is the one the mirror counts on: [b] holds the
    entries of [H] up to [r], and [e] is what it logged there. *)
Lemma served_entry H vr b p base r e origin via now_ms b' a :
  buf_wf b -> rev_room b -> ordered_items (pd_items p) -> Forall (fun it => utf8 (it_text it)) (pd_items p) ->
  apply vr b (request_of p (Z.of_nat base)) origin via now_ms = Some (b', Ok a) ->
  after (b_log b) (Z.of_nat base) = drop base (take r (sh_log H)) -> sh_log H !! r = Some e -> le_edits e = ap_edits a ->
  exists its' sq, rebase_pairs (item_pairs (pd_items p)) (edits_between H base r) = Some its' /\
    txn_sequence its' = Some sq /\ le_edits e = map snd sq.
Proof.
  intros W Hroom Ho Hu E Ha Ee Eap. destruct (apply_request _ _ _ _ _ _ _ _ _ W Hroom Ho Hu E) as (its' & sq & H1 & H2 & H3 & _).
  exists its', sq. unfold edits_between. rewrite <- Ha. split_and!; try done. by rewrite Eap.
Qed.
End server.
