(* ===== verification/MirrorClaims.v ===== *)
(** * What the mirror guarantees

    Runs of a mirror from [bootstrap] or [reattach] under any sequence of inputs the server's
    promises admit, and the claims about them: no handler panics, a live view is the server's
    text with the pending operations applied, an idle one is the server's text, and a mirror
    without local operations follows every event. *)

From S2P Require Import Prelude Utf8 EditBase Ot Anchor GapBuffer Memory Text History Buffer BufferSpec BufferTxn Str Json.
From S2P Require Import MirrorTypes Mirror MirrorOt MirrorInv MirrorFold MirrorSafe MirrorRun MirrorLocal MirrorKeep MirrorServer.

(** ** Runs *)

(** A call of the public interface; the results the caller gets play no part here. *)
Inductive Input :=
| InEvent (ev : Event)
| InReply (op_id : bytes) (reply : result JsonTree Refusal)
| InDeadline (op_id : bytes)
| InEchoTimeout (op_id : bytes)
| InNext
| InRetry
| InEdit (e : LocalEdit) (intent : Intent) (ids : OpIdGen)
| InServerOp (op : ServerOp) (intent : Intent) (ids : OpIdGen)
| InKeepMine (intent : Intent) (ids : OpIdGen)
| InTakeTheirs
| InDismiss (rev : Z)
| InNoteSaved (saved_rev : option Z) (recovered : bool)
| InTakeEchoTimer | InTakeRetryTimer | InTakeOutcomes
| InSuspect
| InEpochChanged.

Section runs.
Context {G : Type} {TS : TextStore G} {SL : TextStoreLaws G} {ENV : MirrorEnv}.
Implicit Types m : Mirror G.

Definition run_input (i : Input) : M G unit :=
  match i with
  | InEvent ev => on_event ev
  | InReply op_id reply => on_reply op_id reply
  | InDeadline op_id => on_deadline op_id
  | InEchoTimeout op_id => on_echo_timeout op_id
  | InNext => _ ← next_outgoing; mret tt
  | InRetry => on_retry
  | InEdit e intent ids => _ ← local_edit e intent ids; mret tt
  | InServerOp op intent ids => _ ← server_op op intent ids; mret tt
  | InKeepMine intent ids => _ ← keep_mine intent ids; mret tt
  | InTakeTheirs => take_theirs
  | InDismiss rev => _ ← dismiss_conflict rev; mret tt
  | InNoteSaved saved_rev recovered => note_saved saved_rev recovered
  | InTakeEchoTimer => _ ← take_echo_timer; mret tt
  | InTakeRetryTimer => _ ← take_retry_timer; mret tt
  | InTakeOutcomes => _ ← take_outcomes; mret tt
  | InSuspect => suspect
  | InEpochChanged => epoch_changed
  end.

(** What the server promises of an input, and the frontend of an edit. *)
Definition admits (H : ServerHistory) m (i : Input) : Prop :=
  match i with
  | InEvent ev => event_promise H m ev
  | InReply op_id reply => reply_promise H m op_id reply
  | InNext => send_promise H m
  | InEdit e _ _ => edit_fits H m e
  | InKeepMine _ _ => copy_utf8 m
  | _ => True
  end.

(** A mirror that was just opened, or reopened with the text it had. *)
Definition attached (open : OpenReply) m : Prop :=
  (exists s, bootstrap open = Ok (Some (tt, (m, s)))) \/
  exists m0 s, text_wf (m_text m0) /\ reattach open (m0, Step_default) = Some (tt, (m, s)).

Inductive reaches (H : ServerHistory) m0 : Mirror G -> Prop :=
| reach_start : reaches H m0 m0
| reach_step m i m' s : reaches H m0 m -> admits H m i -> run_input i (m, Step_default) = Some (tt, (m', s)) -> reaches H m0 m'.

(** ** The invariant along a run *)

(** Ready for the first page. *)
Lemma opened_inv H m s :
  text_wf (m_text m) -> m_phase m = Bootstrapping [] -> m_inflight m = None -> m_queue m = [] -> m_snap_due m = None ->
  m_recon m = None -> m_reads m = ∅ -> (forall old, m_compare_with m = Some old -> old = text (m_text m)) ->
  wp start_pages (fun _ m' _ => inv H m') m s.
Proof.
  intros W Ep Ei Eq Ed Erc Erd Hc. wp_call (start_pages_inv H); [| |intros _ m' _ [I _]; exact I].
  - split_and!; [done| | |].
    + unfold recon_ok. by rewrite Erc.
    + unfold ops_utf8. rewrite Eq, Ei. by split; [constructor|].
    + unfold one_page. rewrite Erd. by intros ? ? ? ? ? ? ?%lookup_empty_Some.
  - unfold ready_for_pages, is_doomed, reads_kind. rewrite Ep, Ei, Eq, Ed, Erd. split_and!; try done; [tauto|].
    by intros (? & ? & ? & ?%lookup_empty_Some).
Qed.

Lemma reattach_inv H open m s : text_wf (m_text m) -> wp (reattach open) (fun _ m' _ => inv H m') m s.
Proof.
  intros W. unfold reattach. do 6 (apply wp_bind, wp_modify).
  match goal with |- wp _ _ ?x _ => set (m0 := x) end.
  assert (m_text m0 = m_text m) as Et by reflexivity.
  assert (m_compare_with m0 = Some (read_all (m_text m))) as Ec by reflexivity. clearbody m0.
  wp_call abandon_spec. intros _ m1 s1 [Ei C]. unfold core in C. injection C as C1 C2 C3 C4 C5 C6 C7 C8 C9.
  do 3 (apply wp_bind, wp_modify). apply opened_inv; cbn [m_text m_phase m_inflight m_queue m_snap_due m_recon m_reads m_compare_with put_phase put_cursors put_completed].
  all: rewrite ?C1, ?C3, ?C6, ?C7, ?C8, ?C9, ?Et, ?Ec; try done. intros old [= <-]. by apply read_all_text.
Qed.

Lemma bootstrap_pages open (x : unit * (Mirror G * Step)) :
  bootstrap open = Ok (Some x) -> exists t, Text_new = Ok t /\ start_pages (opened open t, Step_default) = Some x.
Proof. unfold bootstrap. intros (t & Et & E)%result_bind_Ok. exists t. split; [done|]. by injection E. Qed.

Lemma opened_pages_inv H open t m s :
  text_wf t -> start_pages (opened open t, Step_default) = Some (tt, (m, s)) -> inv H m.
Proof.
  intros Wt E.
  refine (wp_run _ _ _ _ _ _ _ (opened_inv H (opened open t) Step_default Wt eq_refl eq_refl eq_refl eq_refl eq_refl eq_refl _) E).
  discriminate.
Qed.

Lemma reattached_inv H open m0 m s :
  text_wf (m_text m0) -> reattach open (m0, Step_default) = Some (tt, (m, s)) -> inv H m.
Proof. intros W E. exact (wp_run _ _ _ _ _ _ _ (reattach_inv H open m0 Step_default W) E). Qed.

Lemma attached_inv H open m : attached open m -> inv H m.
Proof.
  intros [(s & E)|(m0 & s & W & E)].
  - apply bootstrap_pages in E as (t & [Wt _]%Text_new_wf & E). exact (opened_pages_inv H open t m s Wt E).
  - exact (reattached_inv H open m0 m s W E).
Qed.

Context (H : ServerHistory) (HW : hist_wf H) (HF : hist_fits H).
Hypothesis granted : memory_granted G env_reserve.

Lemma discard {A} (c : M G A) (Q : Mirror G -> Prop) m s :
  wp c (fun _ m' _ => Q m') m s -> wp (_ ← c; mret tt) (fun _ m' _ => Q m') m s.
Proof. intros K. apply wp_bind. eapply wp_mono; [exact K|]. intros a m' s' HQ. by wps. Qed.

Lemma folds_end c m s : wp c (fun _ m' _ => folds H m m') m s -> wp c (fun (_ : unit) m' _ => inv H m') m s.
Proof. intros K. eapply wp_mono; [exact K|]. cbv beta. intros _ m' _ F. apply F. Qed.

Lemma keeps_end {A} (c : M G A) m s : inv H m -> wp c (fun _ m' _ => keeps m m') m s -> wp c (fun _ m' _ => inv H m') m s.
Proof. intros I K. eapply wp_mono; [exact K|]. cbv beta. intros _ m' _ F. by eapply inv_keeps. Qed.

Lemma run_input_inv i m s : inv H m -> admits H m i -> wp (run_input i) (fun _ m' _ => inv H m') m s.
Proof.
  intros I A. destruct i; cbn [run_input admits] in *.
  - by apply folds_end, on_event_inv.
  - by apply folds_end, on_reply_inv.
  - by apply folds_end, on_deadline_inv.
  - by apply folds_end, on_echo_timeout_inv.
  - by apply discard, next_outgoing_inv.
  - apply keeps_end; [done|]. unfold on_retry. wpd; done.
  - apply discard. eapply wp_mono; [by apply local_edit_inv|]. cbv beta. intros _ m' _ [I' _]. done.
  - apply discard, keeps_end; [done|]. unfold server_op. destruct (next_id ids). wp_call queue_server_keeps. intros _ m' s' K. by wps.
  - apply discard, keeps_end; [done|]. eapply wp_mono; [apply keep_mine_spec; [apply I|done]|]. cbv beta. intros _ m' _ [K _]. done.
  - apply keeps_end; [done|]. unfold take_theirs. by wps.
  - apply discard, keeps_end; [done|]. unfold dismiss_conflict. by wps.
  - apply keeps_end; [done|]. unfold note_saved. wps. by case_match.
  - apply discard, keeps_end; [done|]. unfold take_echo_timer. wpd; done.
  - apply discard, keeps_end; [done|]. unfold take_retry_timer. wpd; done.
  - apply discard, keeps_end; [done|]. unfold take_outcomes. by wps.
  - by apply folds_end, suspect_folds.
  - eapply wp_mono; [by apply epoch_changed_inv|]. cbv beta. intros _ m' _ [I' _]. done.
Qed.

Lemma reaches_inv open m0 m : attached open m0 -> reaches H m0 m -> inv H m.
Proof.
  intros A R. induction R as [|m i m' s R IH Ha E]; [by eapply attached_inv|].
  exact (wp_run _ _ _ _ _ _ _ (run_input_inv i m Step_default IH Ha) E).
Qed.

(** ** Following the server *)

Lemma fold_steps_nil edits : fold_steps edits [] = Ok (edits, []).
Proof.
  induction edits as [|[o d x] edits IH]; [done|]. cbn [fold_steps fold_ops result_bind]. rewrite IH. cbn.
  by replace (o + d - o) with d by lia.
Qed.

(** Every entry was within the limits on the way, as [Text::prepare] requires of it. *)
Definition hist_within : Prop := forall r e, sh_log H !! r = Some e -> seq_within (text_at H r) (le_edits e).

Lemma idle_state m : is_idle m = true -> m_phase m = Live /\ m_inflight m = None /\ m_queue m = [] /\ m_server_ops m = [].
Proof.
  unfold is_idle, is_live. intros E. repeat (apply andb_true_iff in E as [E ?]).
  destruct (m_phase m), (m_inflight m), (m_queue m), (m_server_ops m); done.
Qed.

Lemma idle_view m : inv H m -> is_idle m = true -> exists r, m_rev m = Z.of_nat r /\ text (m_text m) = text_at H r.
Proof.
  intros I Hi. destruct (idle_state m Hi) as (Ep & Ei & Eq & _). pose proof (inv_phase _ _ I) as P. unfold phase_ok in P. rewrite Ep in P.
  destruct P as [(r & Er & _ & Hc & _) _]. exists r. split; [done|]. unfold work_of in Hc. rewrite Ei, Eq in Hc. done.
Qed.

Lemma follow_step e m s :
  hist_within -> inv H m -> is_idle m = true -> genuine_event H e -> ee_buffer e = m_buffer m -> ee_epoch e = m_epoch m ->
  ee_base_rev e = m_rev m ->
  wp (on_event (EvEdit e)) (fun _ m' _ => is_idle m' = true /\ m_rev m' = ee_rev e /\
    m_buffer m' = m_buffer m /\ m_epoch m' = m_epoch m /\
    text (m_text m') = text_at H (Z.to_nat (ee_rev e))) m s.
Proof.
  intros Hw I Hi (i & le & G1 & G2 & Gl & Ge & _) Eb Ee Er. destruct (idle_view m I Hi) as (r & Er' & Et).
  assert (i = r) as -> by (cbn in G2; lia). destruct (idle_state m Hi) as (Ep & Ei & Eq & Es).
  cbn [of_event ev_rev ev_base_rev ev_edits] in *. pose proof (Hw r le Gl) as Hwi.
  destruct (text_at_replays H r HW) as (_ & _ & t & R). rewrite (drop_S _ _ _ Gl) in R. destruct R as [[E1 E2 E3 _] _].
  rewrite <- Et in E1, E2, Hwi.
  destruct (apply_many_ok granted (m_text m) (le_edits le) (inv_text _ _ I) E3 E1 E2 Hwi) as (t' & Ea & Wt & Et').
  unfold on_event. wps. rewrite Eb, Ee, !bool_decide_eq_true_2 by done. cbn [negb].
  unfold on_edit_event. wps. rewrite Ep. wps. destruct (Z.leb_spec (ee_rev e) (m_rev m)); [lia|].
  rewrite Er, Z.eqb_refl. cbn [negb]. unfold fold_edit. wps. rewrite Ei. wps.
  assert (forall s1, wp (fold_remote (of_event e);; after_rev) (fun _ m' _ => is_idle m' = true /\ m_rev m' = ee_rev e /\
    m_buffer m' = m_buffer m /\ m_epoch m' = m_epoch m /\ text (m_text m') = text_at H (Z.to_nat (ee_rev e))) m s1) as K.
  2: { apply wp_when; intros _; [apply wp_push_notice; intros s1|]; apply K. }
  intros s1. unfold fold_remote. wps. assert (work_of m = []) as Ew by (unfold work_of; by rewrite Ei, Eq).
  rewrite Ew. cbn [length fold_remote_loop]. wps. rewrite Ew, fold_steps_nil. cbn [of_event ev_edits]. unfold apply_view. wps. rewrite Ge, Ea. wps.
  set (m1 := put_rev _ _).
  assert (m_phase m1 = Live /\ m_inflight m1 = None /\ m_queue m1 = [] /\ m_server_ops m1 = [] /\ m_rev m1 = ee_rev e /\
    m_buffer m1 = m_buffer m /\ m_epoch m1 = m_epoch m /\ m_text m1 = t') as Q.
  { unfold m1, put_work. cbn. rewrite Ei. cbn. rewrite Eq. done. }
  assert (forall m2, m_phase m2 = m_phase m1 -> m_inflight m2 = m_inflight m1 -> m_queue m2 = m_queue m1 -> m_server_ops m2 = m_server_ops m1 ->
    m_rev m2 = m_rev m1 -> m_buffer m2 = m_buffer m1 -> m_epoch m2 = m_epoch m1 -> m_text m2 = m_text m1 ->
    is_idle m2 = true /\ m_rev m2 = ee_rev e /\ m_buffer m2 = m_buffer m /\ m_epoch m2 = m_epoch m /\
    text (m_text m2) = text_at H (Z.to_nat (ee_rev e))) as Kend.
  { intros m2 R1 R2 R3 R4 R5 R6 R7 R8. destruct Q as (Q1 & Q2 & Q3 & Q4 & Q5 & Q6 & Q7 & Q8). unfold is_idle, is_live.
    rewrite R1, R2, R3, R4, R5, R6, R7, R8, Q1, Q2, Q3, Q4, Q5, Q6, Q7, Q8.
    split_and!; try done. rewrite Et', Et, G1, Nat2Z.id. by rewrite (text_at_S _ _ _ Gl). }
  destruct Q as (_ & Q2 & _). clearbody m1. unfold note_conflict. wps. apply wp_when; intros _; wps; apply wp_when; intros _; wps;
    unfold push_delta; wps; (apply wp_when; [done|]; intros _); unfold after_rev, check_barrier; wps; cbn [m_inflight put_view_gen put_last_remote put_saved put_saved_known put_meta]; rewrite ?Q2; wps; by apply Kend.
Qed.


(** ** The claims *)

(** C1 Convergence.  However the events, replies, timeouts, local edits and recoveries of a run
    interleave, a live mirror's view is the server's text at the mirror's revision with the
    operations that are in the view applied in order; an idle mirror shows the server's text.
    The inputs are those [admits] allows: what the server sends is its history, the texts stay
    within the buffer limits, the items of an edit are in ascending order, and a reconciliation
    does not end without an answer while snapshot pages are being read (the mirror loses a local
    edit there).  Here and in the claims below the view gets the memory a text within the limits
    asks for ([memory_granted]). *)
Theorem mirror_converges open m0 m :
  attached open m0 -> reaches H m0 m -> m_phase m = Live ->
  exists r, m_rev m = Z.of_nat r /\ r <= length (sh_log H) /\
    chain (text_at H r) (work_of m) (text (m_text m)) /\
    (is_idle m = true -> text (m_text m) = text_at H r).
Proof.
  intros A R Ep. pose proof (reaches_inv open m0 m A R) as I. pose proof (inv_phase _ _ I) as P. unfold phase_ok in P. rewrite Ep in P.
  destruct P as [(r & Er & Hr & Hc & _) _]. exists r. split_and!; try done. intros Hi.
  destruct (idle_view m I Hi) as (r' & Er' & Et). by assert (r' = r) as -> by lia.
Qed.

(** C6 No handler panics: in every state a run reaches, every input the promises admit is
    handled (the [unwrap]s, [drain]s and slice indices of the handlers are in range, the
    conflict loop of [fold_remote] and the chunking end), with the memory of [memory_granted]. *)
Theorem mirror_never_panics open m0 m i :
  attached open m0 -> reaches H m0 m -> admits H m i ->
  exists m' s, run_input i (m, Step_default) = Some (tt, (m', s)) /\ text_wf (m_text m').
Proof.
  intros A R Ha. destruct (wp_total _ _ _ _ (run_input_inv i m Step_default (reaches_inv open m0 m A R) Ha)) as ([] & m' & s & E & K).
  exists m', s. split; [done|apply K].
Qed.

(** C9 An idle mirror that gets the event of the next revision folds it and is idle again at that
    revision, with the server's text: no event is skipped and no recovery is needed (with the memory of
    [memory_granted]). *)
Theorem mirror_follows open m0 m e :
  hist_within -> attached open m0 -> reaches H m0 m -> is_idle m = true ->
  genuine_event H e -> ee_buffer e = m_buffer m -> ee_epoch e = m_epoch m -> ee_base_rev e = m_rev m ->
  exists m' s, on_event (EvEdit e) (m, Step_default) = Some (tt, (m', s)) /\ is_idle m' = true /\
    m_rev m' = ee_rev e /\ text (m_text m') = text_at H (Z.to_nat (ee_rev e)).
Proof.
  intros Hw A R Hi Ge Eb Ee Er. pose proof (follow_step e m Step_default Hw (reaches_inv open m0 m A R) Hi Ge Eb Ee Er) as K.
  destruct (wp_total _ _ _ _ K) as ([] & m' & s & E & K1 & K2 & _ & _ & K3). by exists m', s.
Qed.


(** C21 A local edit is refused with the mirror unchanged, or it is in the view at once: the view is the
    old one with every item replaced, also when the text was too long for one request and went out in pieces
    (with the memory of [memory_granted]). *)
Theorem local_edit_in_view open m0 m e intent ids :
  attached open m0 -> reaches H m0 m -> edit_fits H m e ->
  exists r ids' m' s, local_edit e intent ids (m, Step_default) = Some ((r, ids'), (m', s)) /\
    match r with
    | Err _ => m' = m
    | Ok _ => text (m_text m') = rewrite_from (text (m_text m)) 0 (led_items e) /\
              exists ops, work_of m' = work_of m ++ ops /\ chain (text (m_text m)) ops (text (m_text m'))
    end.
Proof.
  intros A R Hf. pose proof (local_edit_inv granted H HW e intent ids m Step_default (reaches_inv open m0 m A R) Hf) as K.
  destruct (wp_total _ _ _ _ K) as ([r ids'] & m' & s & E & K'). exists r, ids', m', s. split; [done|].
  cbn [fst] in K'. destruct K' as [_ [(err & -> & ->)|(-> & K'')]]; done.
Qed.

(** C20 [keep_mine] on an idle mirror with a detached copy: either the copy is the server's text and is
    dropped, or staged requests are under way that turn the server's text into the copy, each within
    the limit of a request and the first one sent against the revision it was computed at.  (The run behind it
    had the memory of [memory_granted].) *)
Theorem keep_mine_restores open m0 m intent ids c :
  attached open m0 -> reaches H m0 m -> copy_utf8 m -> m_detached_copy m = Some c -> is_idle m = true -> m_keep m = None ->
  exists ids' m' s, keep_mine intent ids (m, Step_default) = Some (ids', (m', s)) /\
    (dc_text c = text (m_text m) /\ m_detached_copy m' = None /\ m_keep m' = None \/
     keeping m m' intent (text (m_text m)) (dc_text c)).
Proof.
  intros A R Hu Ec Hi Hk. pose proof (inv_text _ _ (reaches_inv open m0 m A R)) as W.
  pose proof (keep_mine_spec intent ids m Step_default W Hu) as K.
  destruct (wp_total _ _ _ _ K) as (ids' & m' & s & E & _ & K'). exists ids', m', s. split; [done|]. by apply K'.
Qed.
End runs.

(** ** Claims on the parts *)

(** C11 Transforming is exact.  Server edits folded through a chain of pending operations give edits for the
    view and operations for the new server text that meet in one text: applying the operations behind
    the server's edits is applying the folded edits to the view. *)
Theorem remote_fold_converges edits t ops v out ops' :
  utf8 t -> edits_ok t edits -> chain t ops v -> fold_steps edits ops = Ok (out, ops') ->
  chain (apply_seq t edits) ops' (apply_seq v out) /\ edits_ok v out /\ length ops' = length ops.
Proof.
  intros Ut He Hc Hf. destruct (fold_steps_exact edits t ops v out ops' Ut He Hc Hf) as (K1 & K2 & _).
  split_and!; try done. by eapply fold_steps_length.
Qed.

(** C10 The buffer of the edit core keeps the promise the mirror relies on: a pending operation's request,
    applied at its base revision, is logged as its items carried through the entries in between. *)
Theorem buffer_keeps_the_promise {G} {TS : TextStore G} {SL : TextStoreLaws G} H vr (b : Buffer G) p base r e origin via now_ms b' a :
  buf_wf b -> rev_room b -> ordered_items (pd_items p) -> Forall (fun it => utf8 (it_text it)) (pd_items p) ->
  apply vr b (request_of p (Z.of_nat base)) origin via now_ms = Some (b', Ok a) ->
  after (b_log b) (Z.of_nat base) = drop base (take r (sh_log H)) -> sh_log H !! r = Some e -> le_edits e = ap_edits a ->
  exists its' sq, rebase_pairs (item_pairs (pd_items p)) (edits_between H base r) = Some its' /\
    txn_sequence its' = Some sq /\ le_edits e = map snd sq.
Proof. apply served_entry. Qed.

(** Cutting a text into requests ends, loses nothing, and every piece is whole characters within the limit. *)
Theorem chunks_are_whole rest max at_newlines :
  utf8 rest -> 4 <= max ->
  exists out, cut_chunks (length rest) rest max at_newlines = Some out /\ concat out = rest /\
    Forall (fun p => utf8 p /\ 0 < length p <= max) out.
Proof. intros Us Hm. by apply cut_chunks_spec. Qed.

(** The operation ids of a generator are pairwise different, so a reply, an echo or a reconciliation
    is matched to one request. *)
Theorem op_ids_unique run a b :
  a <> b -> (next_id (mkOpIdGen run a)).2 <> (next_id (mkOpIdGen run b)).2.
Proof.
  unfold next_id. cbn [snd gen_run gen_seq]. intros Hne E. apply Hne. do 3 apply app_inv_head in E. assert (Some (a + 1)%N = Some (b + 1)%N) as E'.
  { rewrite <- (undec_pad0 6 (a + 1)), <- (undec_pad0 6 (b + 1)). by rewrite E. }
  injection E' as E'. lia.
Qed.

(** ** A run

    A buffer with the text [ab]; the user types [X] between, another client inserts [Z] in front
    before the request arrives. *)

Module Example.

(** The gap buffer, of a system that grants every request. *)
#[local] Instance ex_store : TextStore GapBuffer := vm_store.
#[local] Instance ex_laws : TextStoreLaws GapBuffer := vm_laws.

(** Replies are decoded from a string: a page of that text. *)
#[export] Instance ex_env : MirrorEnv := {|
  env_reserve _ _ := true;
  env_blake3 s := s;
  as_GetReply v := match v with
    | JStr t => Some (mkGetReply (bs "b") (bs "e") 0 (Some t) (length t) None None)
    | _ => None end;
  as_HistoryReply _ := None;
  as_ListReply _ := None;
  as_SaveReply _ := None |}.

Definition ex_intent : Intent := Intent_ui 1.
Definition ex_ids : OpIdGen := mkOpIdGen 7 0.
Definition ex_id : bytes := (next_id ex_ids).2.
Definition entry (rev : Z) (edits : list Edit) (id : option bytes) : LogEntry :=
  mkLogEntry rev (mkOrigin Human (bs "o")) (mkOrigin Human (bs "o")) KEdit edits [[]] (mkVia None (bs "n") None None) id 0.
Definition ex_hist : ServerHistory := mkServerHistory (bs "ab")
  [entry 1 [mkEdit 0 0 (bs "Z")] None; entry 2 [mkEdit 2 0 (bs "X")] (Some ex_id)].
Definition ex_open : OpenReply := mkOpenReply (bs "b") (bs "e") None None (bs "text") 0 Lf false DClean (bs "r") false.
Definition ex_event (rev : Z) (edits : list Edit) (id : option bytes) : EditEvent :=
  mkEditEvent (bs "e") (bs "b") rev (rev - 1) (bs "human:o") (bs "human:o") KwEdit id edits.
Definition ex_edit : LocalEdit := mkLocalEdit [((1, 1), bs "X")] false (mkSelection 2 2).

Definition no_mirror : Mirror GapBuffer :=
  mkMirror [] [] split_text 0 0 None [] [] 0 [] None (meta_of ex_open) false None Live Completed_default ∅ 0 None None None None None []
    false None None 0 [].
Definition ex_start : Mirror GapBuffer := Eval vm_compute in
  match bootstrap ex_open with Ok (Some (_, (m, _))) => m | _ => no_mirror end.
Definition after_input (m : Mirror GapBuffer) (i : Input) : Mirror GapBuffer :=
  match run_input i (m, Step_default) with Some (_, (m', _)) => m' | None => m end.

Definition ex_inputs : list Input :=
  [InReply (bs "read-1") (Ok (JStr (bs "ab")));
   InEdit ex_edit ex_intent ex_ids;
   InNext;
   InEvent (EvEdit (ex_event 1 [mkEdit 0 0 (bs "Z")] None));
   InEvent (EvEdit (ex_event 2 [mkEdit 2 0 (bs "X")] (Some ex_id)))].
Definition ex_state (n : nat) : Mirror GapBuffer := foldl after_input ex_start (take n ex_inputs).

Lemma ex_texts k : text_at ex_hist k = bs "ab" \/ text_at ex_hist k = bs "Zab" \/ text_at ex_hist k = bs "ZaXb".
Proof.
  destruct k as [|[|k]]; [by left|by right; left|right; right]. unfold text_at. rewrite take_ge by (cbn; lia). reflexivity.
Qed.

Lemma ex_wf : hist_wf ex_hist.
Proof.
  split; [by apply from_utf8_ok_iff|]. exists (bs "ZaXb"). cbn. split_and!; try done.
  - split; cbn; [lia|repeat constructor|repeat constructor; by apply from_utf8_ok_iff|done].
  - split; cbn; [lia|repeat constructor|repeat constructor; by apply from_utf8_ok_iff|done].
Qed.

Lemma ex_fits : hist_fits ex_hist.
Proof. intros k. destruct (ex_texts k) as [E|[E|E]]; rewrite E; split; vm_compute; discriminate. Qed.

Lemma ex_within : hist_within ex_hist.
Proof.
  intros [|[|r]] e E; cbn in E; [injection E as <-..|done]; cbn; split_and!; try done; vm_compute; discriminate.
Qed.

Lemma ex_granted : memory_granted GapBuffer env_reserve.
Proof. exact vm_memory. Qed.

Lemma ex_attached : attached ex_open ex_start.
Proof.
  left. exists (match bootstrap (G := GapBuffer) ex_open with Ok (Some (_, (_, s))) => s | _ => Step_default end). vm_compute. reflexivity.
Qed.

Lemma input_next m0 m i :
  reaches ex_hist m0 m -> admits ex_hist m i ->
  match run_input i (m, Step_default) with Some _ => true | None => false end = true ->
  reaches ex_hist m0 (after_input m i).
Proof.
  intros R Ha E. unfold after_input. destruct (run_input i (m, Step_default)) as [[[] [m' s]]|] eqn:Er; [|discriminate E].
  by eapply reach_step.
Qed.

Lemma ex_next n i :
  reaches ex_hist ex_start (ex_state n) -> ex_inputs !! n = Some i -> admits ex_hist (ex_state n) i ->
  match run_input i (ex_state n, Step_default) with Some _ => true | None => false end = true ->
  reaches ex_hist ex_start (ex_state (S n)).
Proof.
  intros R Ei Ha E. unfold ex_state. rewrite (take_S_r _ _ _ Ei), foldl_app. by apply input_next.
Qed.

Lemma ex_page : admits ex_hist (ex_state 0) (InReply (bs "read-1") (Ok (JStr (bs "ab")))).
Proof.
  cbn [admits]. unfold reply_promise. destruct (m_reads (ex_state 0) !! bs "read-1") as [[[k o] n]|] eqn:E; [|vm_compute in E; done].
  assert (k = RPage) as -> by (vm_compute in E; congruence). intros page [= <-] _ _ pg Ep. vm_compute in Ep. injection Ep as <-.
  split; [by apply from_utf8_ok_iff|]. intros _. exists 0. split_and!; try done. cbn. lia.
Qed.

Lemma ex_typed : admits ex_hist (ex_state 1) (InEdit ex_edit ex_intent ex_ids).
Proof.
  split_and!; [cbn; lia|repeat constructor; by apply from_utf8_ok_iff|]. intros k.
  destruct (ex_texts k) as [E|[E|E]]; rewrite E; split; vm_compute; discriminate.
Qed.

Lemma ex_sent : admits ex_hist (ex_state 2) InNext.
Proof.
  intros r a p rest Eq Er. vm_compute in Eq, Er. injection Eq as <- <- <-. assert (r = 0) as -> by (destruct r; [done|by destruct r]).
  intros [|[|i]] e E Eid; cbn in E; [injection E as <-..|done]; [done|]. split; [lia|]. do 2 eexists. split_and!; reflexivity.
Qed.

Lemma ex_reaches n : n <= 5 -> reaches ex_hist ex_start (ex_state n).
Proof.
  assert (forall i rev edits id, sh_log ex_hist !! i = Some (entry rev edits id) -> rev = Z.of_nat (S i) ->
    admits ex_hist (ex_state (3 + i)) (InEvent (EvEdit (ex_event rev edits id)))) as Kev.
  { intros i rev edits id E Hr e [= <-] _ _. exists i, (entry rev edits id). cbn. split_and!; try done. lia. }
  assert (reaches ex_hist ex_start (ex_state 0)) as R0 by constructor.
  assert (reaches ex_hist ex_start (ex_state 1)) as R1 by (by eapply ex_next; [|reflexivity|apply ex_page|vm_compute]).
  assert (reaches ex_hist ex_start (ex_state 2)) as R2 by (by eapply ex_next; [|reflexivity|apply ex_typed|vm_compute]).
  assert (reaches ex_hist ex_start (ex_state 3)) as R3 by (by eapply ex_next; [|reflexivity|apply ex_sent|vm_compute]).
  assert (reaches ex_hist ex_start (ex_state 4)) as R4 by (by eapply ex_next; [|reflexivity|by apply (Kev 0)|vm_compute]).
  assert (reaches ex_hist ex_start (ex_state 5)) as R5 by (by eapply ex_next; [|reflexivity|by apply (Kev 1)|vm_compute]).
  intros Hn. destruct n as [|[|[|[|[|[|n]]]]]]; [exact R0|exact R1|exact R2|exact R3|exact R4|exact R5|lia].
Qed.

(** *** Witnesses *)

Lemma mirror_converges_witness : m_phase (ex_state 5) = Live /\ text (m_text (ex_state 5)) = bs "ZaXb".
Proof.
  assert (m_phase (ex_state 5) = Live) as Ep by (vm_compute; reflexivity).
  destruct (mirror_converges ex_hist ex_wf ex_fits ex_granted ex_open ex_start (ex_state 5) ex_attached (ex_reaches 5 (le_n 5)) Ep)
    as (r & Er & _ & _ & Ht).
  split; [exact Ep|]. rewrite Ht by (vm_compute; reflexivity). assert (m_rev (ex_state 5) = 2%Z) as E2 by (vm_compute; reflexivity). rewrite E2 in Er. assert (r = 2) as -> by lia. reflexivity.
Defined.

Lemma mirror_never_panics_witness :
  exists m' s, run_input (InEvent (EvEdit (ex_event 1 [mkEdit 0 0 (bs "Z")] None))) (ex_state 3, Step_default) = Some (tt, (m', s)) /\
    text_wf (m_text m').
Proof.
  apply (mirror_never_panics ex_hist ex_wf ex_fits ex_granted ex_open ex_start (ex_state 3) _ ex_attached); [apply ex_reaches; lia|].
  intros e [= <-] _ _. exists 0, (entry 1 [mkEdit 0 0 (bs "Z")] None). cbn. split_and!; reflexivity.
Defined.

Lemma mirror_follows_witness :
  exists m' s, on_event (EvEdit (ex_event 1 [mkEdit 0 0 (bs "Z")] None)) (ex_state 1, Step_default) = Some (tt, (m', s)) /\
    text (m_text m') = bs "Zab".
Proof.
  destruct (mirror_follows ex_hist ex_wf ex_fits ex_granted ex_open ex_start (ex_state 1) (ex_event 1 [mkEdit 0 0 (bs "Z")] None) ex_within ex_attached)
    as (m' & s & E & _ & _ & Et); [apply ex_reaches; lia|vm_compute; reflexivity| |vm_compute; reflexivity..|].
  - exists 0, (entry 1 [mkEdit 0 0 (bs "Z")] None). cbn. split_and!; reflexivity.
  - exists m', s. split; [exact E|exact Et].
Defined.



Lemma local_edit_in_view_witness :
  exists ids' m' s, local_edit ex_edit ex_intent ex_ids (ex_state 1, Step_default) = Some ((Ok tt, ids'), (m', s)) /\
    text (m_text m') = bs "aXb".
Proof.
  destruct (local_edit_in_view ex_hist ex_wf ex_fits ex_granted ex_open ex_start (ex_state 1) ex_edit ex_intent ex_ids ex_attached)
    as (r & ids' & m' & s & E & K); [apply ex_reaches; lia|apply ex_typed|].
  assert ((fun x => is_ok x.1.1) <$> local_edit ex_edit ex_intent ex_ids (ex_state 1, Step_default) = Some true) as Hr by (vm_compute; reflexivity).
  rewrite E in Hr. destruct r as [[]|]; [|discriminate Hr]. destruct K as [Et _]. exists ids', m', s. split; [exact E|]. rewrite Et. vm_compute. reflexivity.
Defined.

(** A mirror reopened with the text "aé\nb" of its own. *)
Definition re_start : Mirror GapBuffer := Eval vm_compute in
  match reattach ex_open (put_text split_text ex_start, Step_default) with Some (_, (m, _)) => m | None => ex_start end.
Definition re_page : Input := InReply (bs "read-2") (Ok (JStr (bs "ab"))).
Definition re_live : Mirror GapBuffer := after_input re_start re_page.
Definition re_copy : DetachedCopy := mkDetachedCopy (text split_text) 0.

Lemma re_attached : attached ex_open re_start.
Proof.
  right. exists (put_text split_text ex_start), (match reattach ex_open (put_text split_text ex_start, Step_default) with Some (_, (_, s)) => s | None => Step_default end).
  split; [apply split_text_wf|]. vm_compute. reflexivity.
Qed.

Lemma re_reaches : reaches ex_hist re_start re_live.
Proof.
  apply input_next; [constructor| |vm_compute; reflexivity].
  cbn [admits re_page]. unfold reply_promise. destruct (m_reads re_start !! bs "read-2") as [[[k o] n]|] eqn:E; [|vm_compute in E; done].
  assert (k = RPage) as -> by (vm_compute in E; congruence). intros page [= <-] _ _ pg Ep. vm_compute in Ep. injection Ep as <-.
  split; [by apply from_utf8_ok_iff|]. intros _. exists 0. split_and!; try done. cbn. lia.
Qed.

Lemma keep_mine_restores_witness :
  exists ids' m' s, keep_mine ex_intent ex_ids (re_live, Step_default) = Some (ids', (m', s)) /\
    keeping re_live m' ex_intent (bs "ab") (text split_text).
Proof.
  destruct (keep_mine_restores ex_hist ex_wf ex_fits ex_granted ex_open re_start re_live ex_intent ex_ids re_copy re_attached re_reaches)
    as (ids' & m' & s & E & K); [|vm_compute; reflexivity..|].
  - intros c Ec. vm_compute in Ec. injection Ec as <-. by apply from_utf8_ok_iff.
  - exists ids', m', s. split; [exact E|]. destruct K as [[K _]|K]; [vm_compute in K; discriminate K|].
    assert (text (m_text re_live) = bs "ab") as Et by (vm_compute; reflexivity). rewrite Et in K. exact K.
Defined.

Lemma remote_fold_converges_witness :
  exists out ops', fold_steps [mkEdit 0 0 (bs "Z")] [[mkItem (1, 1) (bs "X") []]] = Ok (out, ops') /\
    chain (bs "Zab") ops' (apply_seq (bs "aXb") out).
Proof.
  eexists _, _. split; [reflexivity|].
  refine (proj1 (remote_fold_converges [mkEdit 0 0 (bs "Z")] (bs "ab") [[mkItem (1, 1) (bs "X") []]] (bs "aXb") _ _ _ _ _ eq_refl)).
  - by apply from_utf8_ok_iff.
  - cbn. split_and!; [split_and!; [by apply from_utf8_ok_iff|done|done]|done].
  - cbn. split; [|reflexivity]. split; [split; [cbn; lia|repeat constructor; by apply from_utf8_ok_iff]|by repeat constructor].
Defined.

(** A server at revision 1 that gets a request made at revision 0. *)
Definition srv0 : Buffer Flat := with_text flat_text.
Definition srv1 : Buffer Flat :=
  match apply always2 srv0 (mkTxnRequest [OpInsert (Offset 0) (bs "Z")] Latest false None None) (mkOrigin Human (bs "o")) (mkVia None (bs "n") None None) 0 with
  | Some (b, _) => b | None => srv0 end.
Definition srv_pending : Pending := mkPending ex_id ex_intent [mkItem (4, 5) (bs "T") (bs "t")] false.
Definition srv_applied := Eval vm_compute in apply always2 srv1 (request_of srv_pending (Z.of_nat 0)) (mkOrigin Human (bs "ced")) (mkVia None (bs "n") None None) 0.
Definition srv_edits : list Edit := match srv_applied with Some (_, Ok a) => ap_edits a | _ => [] end.
Definition srv_hist : ServerHistory := mkServerHistory (text flat_text) (entries (b_log srv1) ++ [entry 2 srv_edits (Some ex_id)]).

Lemma srv1_wf : buf_wf srv1.
Proof.
  assert (buf_wf srv0) as W0.
  { split; try done; cbn; [apply flat_text_wf|]. exists (text flat_text). split; [apply flat_text_wf|done]. }
  destruct (apply_inv always2 srv0 (mkTxnRequest [OpInsert (Offset 0) (bs "Z")] Latest false None None) (mkOrigin Human (bs "o")) (mkVia None (bs "n") None None) 0 W0)
    as (b' & r & E & W & _); [done|repeat constructor; by apply from_utf8_ok_iff|].
  unfold srv1. rewrite E. done.
Qed.

Lemma buffer_keeps_the_promise_witness :
  exists its' sq, rebase_pairs [((4, 5), bs "T")] (edits_between srv_hist 0 1) = Some its' /\
    txn_sequence its' = Some sq /\ srv_edits = map snd sq.
Proof.
  destruct srv_applied as [[b' [a|e]]|] eqn:E; [|discriminate E..].
  refine (buffer_keeps_the_promise srv_hist always2 srv1 srv_pending 0 1 (entry 2 srv_edits (Some ex_id))
    (mkOrigin Human (bs "ced")) (mkVia None (bs "n") None None) 0 b' a srv1_wf _ _ _ _ _ _ _).
  - reflexivity.
  - repeat constructor.
  - repeat constructor. by apply from_utf8_ok_iff.
  - rewrite <- E. vm_compute. reflexivity.
  - vm_compute. reflexivity.
  - reflexivity.
  - unfold srv_edits. by rewrite E.
Defined.

Lemma chunks_are_whole_witness :
  exists out, cut_chunks 9 (bs "one two" ++ [NL] ++ bs "x") 4 true = Some out /\ concat out = bs "one two" ++ [NL] ++ bs "x".
Proof.
  destruct (chunks_are_whole (bs "one two" ++ [NL] ++ bs "x") 4 true) as (out & E & Ec & _); [by apply from_utf8_ok_iff|lia|].
  exists out. split; [exact E|exact Ec].
Defined.

Lemma op_ids_unique_witness : (next_id (mkOpIdGen 7 41)).2 <> (next_id (mkOpIdGen 7 999999)).2.
Proof. apply (op_ids_unique 7 41 999999). discriminate. Defined.
End Example.
