(* ===== verification/RecoveryFs.v ===== *)
(** * Files that survive a crash

    The file system under the recovery files of [cosmix-editd/src/recovery.rs]: what its calls of
    [std::fs] do, and what a crash leaves.  A file's data is safe up to its last completed sync; a
    crash keeps the safe part, possibly more of the rest, and zero bytes where a block was not
    written; a sync that failed makes nothing safe, then or later.  Changes of the directory are
    safe at its next sync; before that a crash keeps any of them, each one whole.  Creating a file
    over an existing name takes a new file, which allows more outcomes than truncating the old. *)

From S2P Require Import Prelude Utf8 Str.


Record Inode := mkInode { i_data : bytes; i_synced : nat; i_lost : bool }.

(** One change of the directory: the names it sets or removes together. *)
Definition DirOp := list (bytes * option nat).

Record Fs := mkFs { fs_inodes : gmap nat Inode; fs_next : nat; fs_dir : gmap bytes nat; fs_ops : list DirOp }.

Definition assign (d : gmap bytes nat) (a : bytes * option nat) : gmap bytes nat := partial_alter (fun _ => a.2) a.1 d.
Definition dir_apply (d : gmap bytes nat) (op : DirOp) : gmap bytes nat := foldl assign d op.

(** The directory the program sees. *)
Definition visible (fs : Fs) : gmap bytes nat := foldl dir_apply (fs_dir fs) (fs_ops fs).

Definition with_op (op : DirOp) (fs : Fs) : Fs := mkFs (fs_inodes fs) (fs_next fs) (fs_dir fs) (fs_ops fs ++ [op]).
Definition with_inode (i : nat) (n : Inode) (fs : Fs) : Fs :=
  mkFs (<[i := n]> (fs_inodes fs)) (fs_next fs) (fs_dir fs) (fs_ops fs).

(** [OpenOptions::new().write(true).create(true).truncate(true).open] *)
Definition fs_create (name : bytes) (fs : Fs) : nat * Fs :=
  (fs_next fs, mkFs (<[fs_next fs := mkInode [] 0 false]> (fs_inodes fs)) (S (fs_next fs)) (fs_dir fs)
     (fs_ops fs ++ [[(name, Some (fs_next fs))]])).

(** [write_all] of an open file *)
Definition fs_write (i : nat) (s : bytes) (fs : Fs) : Fs :=
  match fs_inodes fs !! i with
  | Some n => with_inode i (mkInode (i_data n ++ s) (i_synced n) (i_lost n)) fs
  | None => fs
  end.

(** [sync_all], [sync_data] of an open file: done, or failed *)
Definition fs_sync (i : nat) (fs : Fs) : Fs :=
  match fs_inodes fs !! i with
  | Some n => if i_lost n then fs else with_inode i (mkInode (i_data n) (length (i_data n)) false) fs
  | None => fs
  end.
Definition fs_lose (i : nat) (fs : Fs) : Fs :=
  match fs_inodes fs !! i with
  | Some n => with_inode i (mkInode (i_data n) (i_synced n) true) fs
  | None => fs
  end.

Definition fs_rename (a b : bytes) (fs : Fs) : option Fs :=
  i ← visible fs !! a; Some (with_op [(a, None); (b, Some i)] fs).
Definition fs_remove (name : bytes) (fs : Fs) : option Fs :=
  _ ← visible fs !! name; Some (with_op [(name, None)] fs).

(** [sync_all] of the directory *)
Definition fs_sync_dir (fs : Fs) : Fs := mkFs (fs_inodes fs) (fs_next fs) (visible fs) [].

Definition fs_read (name : bytes) (fs : Fs) : option bytes := i ← visible fs !! name; i_data <$> fs_inodes fs !! i.

(** ** Crashes *)

(** What a crash may leave of a file's data. *)
Definition torn (n : Inode) (s : bytes) : Prop :=
  exists k z, i_synced n <= k /\ k + z <= length (i_data n) /\ s = take k (i_data n) ++ replicate z x00.

Definition crashes_to (fs fs' : Fs) : Prop :=
  (exists ops, sublist ops (fs_ops fs) /\ fs_dir fs' = foldl dir_apply (fs_dir fs) ops) /\
  fs_ops fs' = [] /\ fs_next fs' = fs_next fs /\
  forall i, match fs_inodes fs !! i with
            | None => fs_inodes fs' !! i = None
            | Some n => exists s, torn n s /\ fs_inodes fs' !! i = Some (mkInode s (length s) false)
            end.

(** ** What a crash can and cannot change *)

(** The values a name may have after a crash, and a name with one such value. *)
Definition may_be (fs : Fs) (name : bytes) (v : option nat) : Prop :=
  fs_dir fs !! name = v \/ exists op, op ∈ fs_ops fs /\ (name, v) ∈ op.
Definition settled (fs : Fs) (name : bytes) (v : option nat) : Prop := forall v', may_be fs name v' -> v' = v.

(** The file's data is [s], whatever happens. *)
Definition holds (fs : Fs) (i : nat) (s : bytes) : Prop :=
  exists k l, fs_inodes fs !! i = Some (mkInode s k l) /\ length s <= k.

Definition fs_wf (fs : Fs) : Prop :=
  forall i n, fs_inodes fs !! i = Some n -> i < fs_next fs /\ i_synced n <= length (i_data n).

(** From [fs] to [fs'] the names [nm] got no new values and the files [ino] lost nothing. *)
Record spares (nm : bytes -> Prop) (ino : nat -> Prop) (fs fs' : Fs) : Prop := mkSpares {
  sp_names : forall name v, nm name -> may_be fs' name v -> may_be fs name v;
  sp_files : forall i n, ino i -> fs_inodes fs !! i = Some n ->
    exists k l, fs_inodes fs' !! i = Some (mkInode (i_data n) k l) /\ i_synced n <= k;
  sp_next : fs_next fs <= fs_next fs' }.

Lemma assigns_lookup op d name :
  foldl assign d op !! name = d !! name \/ exists v, (name, v) ∈ op /\ foldl assign d op !! name = v.
Proof.
  revert d. induction op as [|[n v] op IH]; intros d; [by left|]. cbn [foldl].
  destruct (IH (assign d (n, v))) as [->|(v' & Hv & E)].
  - unfold assign. cbn. destruct (decide (n = name)) as [->|Hne].
    + right. exists v. rewrite lookup_partial_alter_eq. split; [by left|done].
    + left. by rewrite lookup_partial_alter_ne.
  - right. exists v'. split; [by right|done].
Qed.

Lemma ops_lookup ops d name :
  foldl dir_apply d ops !! name = d !! name \/ exists op v, op ∈ ops /\ (name, v) ∈ op /\ foldl dir_apply d ops !! name = v.
Proof.
  revert d. induction ops as [|op ops IH]; intros d; [by left|]. cbn [foldl].
  destruct (IH (dir_apply d op)) as [->|(op' & v & H1 & H2 & H3)].
  - unfold dir_apply. destruct (assigns_lookup op d name) as [->|(v & Hv & E)]; [by left|]. right. exists op, v. split_and!; [by left|done|done].
  - right. exists op', v. split_and!; [by right|done|done].
Qed.

Lemma visible_may_be fs name : may_be fs name (visible fs !! name).
Proof.
  unfold visible. destruct (ops_lookup (fs_ops fs) (fs_dir fs) name) as [->|(op & v & H1 & H2 & ->)]; [by left|].
  right. by exists op.
Qed.

Lemma settled_visible fs name v : settled fs name v -> visible fs !! name = v.
Proof. intros H. apply H, visible_may_be. Qed.

(** *** Crashes *)

Lemma crash_may_be fs fs' name : crashes_to fs fs' -> may_be fs name (fs_dir fs' !! name).
Proof.
  intros ((ops & Hs & ->) & _). destruct (ops_lookup ops (fs_dir fs) name) as [->|(op & v & H1 & H2 & ->)]; [by left|].
  right. exists op. split; [by eapply elem_of_sublist|done].
Qed.

Lemma crash_visible fs fs' : crashes_to fs fs' -> visible fs' = fs_dir fs'.
Proof. intros (_ & E & _). unfold visible. by rewrite E. Qed.

Lemma crash_file fs fs' i n : crashes_to fs fs' -> fs_inodes fs !! i = Some n ->
  exists s, torn n s /\ fs_inodes fs' !! i = Some (mkInode s (length s) false).
Proof. intros (_ & _ & _ & Hi) E. specialize (Hi i). by rewrite E in Hi. Qed.

Lemma torn_safe s k l s' : length s <= k -> torn (mkInode s k l) s' -> s' = s.
Proof.
  intros Hk (q & z & H1 & H2 & ->). cbn in *. assert (q = length s) as -> by lia. assert (z = 0) as -> by lia.
  by rewrite take_ge, app_nil_r by lia.
Qed.

Lemma torn_mono s k l k' l' x : k <= k' -> torn (mkInode s k' l') x -> torn (mkInode s k l) x.
Proof. intros Hk (q & z & H1 & H2 & ->). cbn in *. exists q, z. cbn. split_and!; [lia|lia|done]. Qed.

Lemma crash_holds fs fs' i s : crashes_to fs fs' -> holds fs i s -> holds fs' i s.
Proof.
  intros Hc (k & l & E & Hk). destruct (crash_file _ _ _ _ Hc E) as (s' & T & E').
  apply torn_safe in T as ->; [|done]. exists (length s), false. by split.
Qed.

Lemma crash_wf fs fs' : fs_wf fs -> crashes_to fs fs' -> fs_wf fs'.
Proof.
  intros Hw (_ & _ & En & Hi) i n E. specialize (Hi i). rewrite En. destruct (fs_inodes fs !! i) as [n0|] eqn:E0.
  - destruct Hi as (s & _ & E'). rewrite E in E'. injection E' as ->. cbn. split; [by apply (Hw i n0)|done].
  - by rewrite E in Hi.
Qed.

(** *** Sparing operations *)

Lemma spares_refl nm ino fs : spares nm ino fs fs.
Proof. split; [done| |done]. intros i [s k l] _ E. exists k, l. by split. Qed.

Lemma spares_trans nm ino fs1 fs2 fs3 : spares nm ino fs1 fs2 -> spares nm ino fs2 fs3 -> spares nm ino fs1 fs3.
Proof.
  intros [A1 B1 C1] [A2 B2 C2]. split; [auto| |lia]. intros i n Hi E. destruct (B1 i n Hi E) as (k & l & E1 & L1).
  destruct (B2 i _ Hi E1) as (k2 & l2 & E2 & L2). cbn in *. exists k2, l2. split; [done|lia].
Qed.

Lemma spares_weaken (nm nm' : bytes -> Prop) (ino ino' : nat -> Prop) fs fs' :
  (forall n, nm' n -> nm n) -> (forall i, ino' i -> ino i) -> spares nm ino fs fs' -> spares nm' ino' fs fs'.
Proof. intros H1 H2 [A B C]. split; eauto. Qed.

Lemma spares_holds nm ino fs fs' i s : spares nm ino fs fs' -> ino i -> holds fs i s -> holds fs' i s.
Proof. intros [_ B _] Hi (k & l & E & Hk). destruct (B i _ Hi E) as (k' & l' & E' & L). cbn in *. exists k', l'. split; [done|lia]. Qed.

Lemma spares_settled nm ino fs fs' name v : spares nm ino fs fs' -> nm name -> settled fs name v -> settled fs' name v.
Proof. intros [A _ _] Hn Hs v' Hv. by apply Hs, A. Qed.

Lemma may_be_with_op fs op name v : may_be (with_op op fs) name v <-> may_be fs name v \/ (name, v) ∈ op.
Proof.
  unfold may_be, with_op; cbn. split.
  - intros [H|(o & Ho & Hv)]; [by left; left|]. apply elem_of_app in Ho as [Ho|Ho].
    + left. right. by exists o.
    + apply list_elem_of_singleton in Ho as ->. by right.
  - intros [[H|(o & Ho & Hv)]|H]; [by left| |].
    + right. exists o. split; [apply elem_of_app; by left|done].
    + right. exists op. split; [apply elem_of_app; right; by apply list_elem_of_singleton|done].
Qed.

Lemma visible_with_op fs op : visible (with_op op fs) = dir_apply (visible fs) op.
Proof. unfold visible, with_op; cbn. by rewrite foldl_app. Qed.

Section ops.
Context (nm : bytes -> Prop) (ino : nat -> Prop).

Lemma spares_op op fs : (forall name v, (name, v) ∈ op -> ~ nm name) -> spares nm ino fs (with_op op fs).
Proof.
  intros H. split; [| |done].
  - intros name v Hn Hv. apply may_be_with_op in Hv as [Hv|Hv]; [done|]. by destruct (H name v Hv).
  - intros i [s k l] _ E. exists k, l. by split.
Qed.

Lemma spares_inode i n fs :
  fs_wf fs -> (ino i -> exists k0 l0 k l, fs_inodes fs !! i = Some (mkInode (i_data n) k0 l0) /\ n = mkInode (i_data n) k l /\ k0 <= k) ->
  spares nm ino fs (with_inode i n fs).
Proof.
  intros Hw H. split; [by intros name v _ Hv| |done]. intros j [s k l] Hj E. unfold with_inode; cbn.
  destruct (decide (i = j)) as [->|Hne].
  - destruct (H Hj) as (k0 & l0 & k1 & l1 & E0 & En & L). rewrite E in E0. injection E0 as -> -> ->.
    rewrite lookup_insert_eq. exists k1, l1. by rewrite <- En.
  - rewrite lookup_insert_ne by done. exists k, l. by split.
Qed.

Lemma spares_sync_dir fs : spares nm ino fs (fs_sync_dir fs).
Proof.
  split; [| |done].
  - intros name v _ [<-|(op & Ho & _)]; [apply visible_may_be|]. by apply not_elem_of_nil in Ho.
  - intros i [s k l] _ E. exists k, l. by split.
Qed.

Lemma spares_create name fs : fs_wf fs -> ~ nm name -> spares nm ino fs (fs_create name fs).2.
Proof.
  intros Hw Hn. split; cbn; [| |lia].
  - intros name' v Hn' Hv. change (may_be (with_op [(name, Some (fs_next fs))] fs) name' v) in Hv.
    apply may_be_with_op in Hv as [Hv|Hv]; [done|]. apply list_elem_of_singleton in Hv as [= -> ->]. done.
  - intros i [s k l] _ E. rewrite lookup_insert_ne by (apply Hw in E; lia). exists k, l. by split.
Qed.

Lemma spares_write i s fs : fs_wf fs -> ~ ino i -> spares nm ino fs (fs_write i s fs).
Proof. intros Hw Hi. unfold fs_write. case_match; [|apply spares_refl]. by apply spares_inode. Qed.

Lemma spares_sync i fs : fs_wf fs -> spares nm ino fs (fs_sync i fs).
Proof.
  intros Hw. unfold fs_sync. destruct (fs_inodes fs !! i) as [[s k l]|] eqn:E; [|apply spares_refl]. cbn.
  destruct l; [apply spares_refl|]. apply spares_inode; [done|]. intros _. exists k, false, (length s), false. cbn.
  split_and!; [done|done|by apply (Hw i _ E)].
Qed.

Lemma spares_lose i fs : fs_wf fs -> spares nm ino fs (fs_lose i fs).
Proof.
  intros Hw. unfold fs_lose. destruct (fs_inodes fs !! i) as [[s k l]|] eqn:E; [|apply spares_refl]. cbn.
  apply spares_inode; [done|]. intros _. exists k, l, k, true. by cbn.
Qed.
End ops.

(** *** Well-formed file systems stay so *)

Lemma wf_op op fs : fs_wf fs -> fs_wf (with_op op fs).
Proof. done. Qed.
Lemma wf_sync_dir fs : fs_wf fs -> fs_wf (fs_sync_dir fs).
Proof. done. Qed.
Lemma wf_inode i n fs : fs_wf fs -> i < fs_next fs -> i_synced n <= length (i_data n) -> fs_wf (with_inode i n fs).
Proof.
  intros Hw Hi Hn j m E. cbn in *. destruct (decide (i = j)) as [->|Hne].
  - rewrite lookup_insert_eq in E. by injection E as <-.
  - rewrite lookup_insert_ne in E by done. by apply Hw.
Qed.
Lemma wf_create name fs : fs_wf fs -> fs_wf (fs_create name fs).2.
Proof.
  intros Hw j m E. cbn in *. destruct (decide (fs_next fs = j)) as [<-|Hne].
  - rewrite lookup_insert_eq in E. injection E as <-. cbn. lia.
  - rewrite lookup_insert_ne in E by done. apply Hw in E. lia.
Qed.
Lemma wf_write i s fs : fs_wf fs -> fs_wf (fs_write i s fs).
Proof.
  intros Hw. unfold fs_write. destruct (fs_inodes fs !! i) as [n|] eqn:E; [|done]. apply Hw in E as [H1 H2].
  apply wf_inode; [done..|]. cbn. rewrite length_app. lia.
Qed.
Lemma wf_sync i fs : fs_wf fs -> fs_wf (fs_sync i fs).
Proof.
  intros Hw. unfold fs_sync. destruct (fs_inodes fs !! i) as [n|] eqn:E; [|done]. apply Hw in E as [H1 H2].
  destruct (i_lost n); [done|]. by apply wf_inode.
Qed.
Lemma wf_lose i fs : fs_wf fs -> fs_wf (fs_lose i fs).
Proof.
  intros Hw. unfold fs_lose. destruct (fs_inodes fs !! i) as [n|] eqn:E; [|done]. apply Hw in E as [H1 H2]. by apply wf_inode.
Qed.
#[export] Hint Resolve wf_op wf_sync_dir wf_create wf_write wf_sync wf_lose : fswf.
