(* ===== verification/Recovery.v ===== *)
(** * The editor daemon's recovery files: operations

    Models [cosmix-editd/src/recovery.rs]: the writer of snapshots and logs, their replay, and the
    restore at start.  The state is the writer, what it shares with the actors, and the file
    system of [RecoveryFs.v]; a function of the code is a step on it that may end early, because
    the daemon can be killed between any two calls of the system ([None]).  [w_faults] decides
    what each call does: succeed, fail with a part of it done, or be the last one.  Not modelled:
    log messages and the test hooks. *)

From S2P Require Import Prelude Utf8 EditBase Ot GapBuffer Text Buffer Str BTree MirrorTypes RecoveryFs.

Definition SYNC_MS : N := 1000.
Definition MAX_RECOVERY_QUEUE_BYTES : N := 8 * 1024 * 1024.
Definition COMPACT_LOG_MIN_BYTES : N := 1024 * 1024.
Definition META_FORMAT : bytes := bs "edit-recovery-v1".
Definition SNAP_FORMAT : bytes := bs "edit-recovery-snap-v1".
Definition META_MAX_BYTES : Z := 64 * 1024.
Definition SNAP_HEADER_MAX : nat := 4096.
Definition LOG_READ_MAX : Z := 2 * MAX_BUFFER_BYTES + 16 * 1024 * 1024.

(** [files.rs]: an identity is a [stat] and the hash of the content. *)
Record Stat := mkStat { dev : N; ino : N; size : N; mtime_ns : Z }.
Record DiskIdentity := mkDiskIdentity { di_stat : Stat; di_blake3 : bytes }.
#[export] Instance Stat_eq_dec : EqDecision Stat.
Proof. solve_decision. Defined.
#[export] Instance DiskIdentity_eq_dec : EqDecision DiskIdentity.
Proof. solve_decision. Defined.

Record BaseIdentity := mkBaseIdentity { ba_stat : Stat; ba_blake3 : bytes }.

Record RecoveryMeta := mkRecoveryMeta {
  mt_format : bytes; mt_rid : bytes; mt_generation : N; mt_path : option bytes; mt_opened_as : option bytes;
  mt_language : bytes; mt_eol : Eol; mt_bom : bool; mt_base : option BaseIdentity; mt_epoch : bytes;
  mt_buffer : bytes; mt_created_ms : N }.

(** [meta.generation = generation] *)
Definition put_generation (g : N) (m : RecoveryMeta) : RecoveryMeta :=
  mkRecoveryMeta (mt_format m) (mt_rid m) g (mt_path m) (mt_opened_as m) (mt_language m) (mt_eol m) (mt_bom m)
    (mt_base m) (mt_epoch m) (mt_buffer m) (mt_created_ms m).

Record SnapHeader := mkSnapHeader { hd_format : bytes; hd_generation : N; hd_rev : N; hd_bytes : N; hd_blake3 : bytes }.
Record LogRecord := mkLogRecord { rc_rev : N; rc_edits : list Edit; rc_h : bytes }.

Inductive IoError := NotFound | OtherIo.

(** What the module uses of other crates: serde's encodings, BLAKE3, the allocator; and of the
    environment: modification times and the files buffers are bound to.  None of it changes over a run. *)
Class RecoveryEnv := {
  enc_meta : RecoveryMeta -> result bytes IoError;
  dec_meta : bytes -> option RecoveryMeta;
  enc_header : SnapHeader -> result bytes IoError;
  dec_header : bytes -> option SnapHeader;
  enc_record : LogRecord -> result bytes IoError;
  dec_record : bytes -> option LogRecord;
  enc_edits : list Edit -> bytes;
  blake3 : bytes -> bytes;
  to_hex : bytes -> bytes;
  from_hex : bytes -> option bytes;
  re_reserve : nat -> nat -> bool;
  mtime_ms : bytes -> N;
  read_bounded : bytes -> result (Stat * bytes) IoError }.

Section recovery.
Context {ENV : RecoveryEnv}.

Definition record_hash (generation rev : N) (edits : list Edit) : bytes :=
  take 16 (to_hex (blake3 (dec generation ++ [NL] ++ dec rev ++ [NL] ++ enc_edits edits))).

Definition BaseIdentity_from (d : DiskIdentity) : BaseIdentity := mkBaseIdentity (di_stat d) (to_hex (di_blake3 d)).
Definition to_disk (b : BaseIdentity) : option DiskIdentity :=
  hash ← from_hex (ba_blake3 b); Some (mkDiskIdentity (ba_stat b) hash).
Definition DiskIdentity_from_parts (s : Stat) (content : bytes) : DiskIdentity := mkDiskIdentity s (blake3 content).

Definition append_cost (edits : list Edit) : N :=
  N.of_nat (sum_list (map (fun e => length (e_insert e) + 48) edits) + 96).

(** ** Messages and shared state *)

Inductive RecoveryMsg :=
| MSwitch (rid : bytes) (generation rev : N) (text : bytes) (meta : RecoveryMeta)
| MAppend (rid : bytes) (generation rev : N) (edits : list Edit)
| MDiscard (rid : bytes)
| MFlush (reply : N).

Record FlushOutcome := mkFlushOutcome { fo_records : N; fo_bytes : N; fo_repairs : N }.

Record Stats := mkStats {
  s_records : N; s_bytes : N; s_repairs : N; s_failures : N; s_unsynced : N; s_restored : N; s_quarantined : N;
  s_skipped : N; s_overflow_rids : N; s_stale_appends : N }.

(** [RecLink] with its [RecSignal]. *)
Record RecLink := mkRecLink { lk_needs_switch : bool; lk_switch_done : N; lk_failed : N; lk_flushes : list N }.
Definition RecLink_default : RecLink := mkRecLink false 0 0 [].

Definition request_switch (l : RecLink) : RecLink := mkRecLink true (lk_switch_done l) (lk_failed l) (lk_flushes l).
Definition switch_done (g : N) (l : RecLink) : RecLink :=
  mkRecLink (lk_needs_switch l) (N.max (lk_switch_done l) g) (lk_failed l) (lk_flushes l).
Definition switch_failed (g : N) (l : RecLink) : RecLink :=
  mkRecLink (lk_needs_switch l) (lk_switch_done l) (N.max (lk_failed l) g) (lk_flushes l).

Record Shared := mkShared {
  sh_budget : N; sh_stats : Stats; sh_links : gmap bytes RecLink; sh_failed : gset bytes; sh_dir_error : bool }.

Record RidFiles := mkRidFiles {
  rf_generation : N; rf_log : option nat; rf_log_bytes : N; rf_snap_bytes : N; rf_unsynced : N;
  rf_compaction_asked : bool }.

Record Writer := mkWriter {
  wr_files : gmap bytes RidFiles; wr_logged : gset bytes; wr_sync_due : bool; wr_stray : gmap bytes (list N) }.

(** What a call of the system does: it succeeds, it fails with a part [n] of it done, or the daemon is
    killed with a part [n] of it done. *)
Inductive Fault := Good | Fails (n : nat) | Killed (n : nat).

Record World := mkWorld {
  w_fs : Fs; w_faults : list Fault; w_writer : Writer; w_shared : Shared; w_answers : list (N * FlushOutcome) }.

(** ** Steps *)

Definition W (A : Type) : Type := World -> World * option A.
#[export] Instance W_ret : MRet W := fun A a w => (w, Some a).
#[export] Instance W_bind : MBind W := fun A B k m w =>
  match m w with (w', Some a) => k a w' | (w', None) => (w', None) end.

Definition ask {A} (f : World -> A) : W A := fun w => (w, Some (f w)).
Definition alter_world (f : World -> World) : W unit := fun w => (f w, Some tt).

(** [m?; k] *)
Definition and_then {A B} (m : W (result A IoError)) (k : A -> W (result B IoError)) : W (result B IoError) :=
  r ← m; match r with Ok a => k a | Err e => mret (Err e) end.

Definition put_fs (fs : Fs) (w : World) : World := mkWorld fs (w_faults w) (w_writer w) (w_shared w) (w_answers w).
Definition on_writer (f : Writer -> Writer) (w : World) : World :=
  mkWorld (w_fs w) (w_faults w) (f (w_writer w)) (w_shared w) (w_answers w).
Definition on_shared (f : Shared -> Shared) (w : World) : World :=
  mkWorld (w_fs w) (w_faults w) (w_writer w) (f (w_shared w)) (w_answers w).

(** A call of the system: [good] is what it does, [part n] what it has done when it fails. *)
Definition call {A} (good : Fs -> result A IoError * Fs) (part : nat -> Fs -> Fs) : W (result A IoError) := fun w =>
  let at_ fs faults := mkWorld fs faults (w_writer w) (w_shared w) (w_answers w) in
  let run faults := let '(r, fs) := good (w_fs w) in (at_ fs faults, Some r) in
  match w_faults w with
  | [] => run []
  | Good :: l => run l
  | Fails n :: l => (at_ (part n (w_fs w)) l, Some (Err OtherIo))
  | Killed n :: l => (at_ (part n (w_fs w)) l, None)
  end.

(** A call that is done or not. *)
Definition all_or_none (f : Fs -> Fs) (n : nat) (fs : Fs) : Fs := if n =? 0 then fs else f fs.
End recovery.

Notation io A := (W (result A IoError)).
Notation "x ←? m ; k" := (and_then m (fun x => k)) (at level 20, m at level 100, k at level 200, right associativity).

Section writer.
Context {ENV : RecoveryEnv}.

Definition create_private (name : bytes) : io nat :=
  call (fun fs => let '(i, fs) := fs_create name fs in (Ok i, fs)) (all_or_none (fun fs => (fs_create name fs).2)).
Definition write_all (i : nat) (s : bytes) : io unit :=
  call (fun fs => (Ok tt, fs_write i s fs)) (fun n fs => fs_write i (take n s) fs).
Definition sync_all (i : nat) : io unit := call (fun fs => (Ok tt, fs_sync i fs)) (fun _ fs => fs_lose i fs).
Definition fsync_dir : io unit := call (fun fs => (Ok tt, fs_sync_dir fs)) (all_or_none fs_sync_dir).
Definition rename (a b : bytes) : io unit :=
  call (fun fs => match fs_rename a b fs with Some fs => (Ok tt, fs) | None => (Err NotFound, fs) end)
    (all_or_none (fun fs => default fs (fs_rename a b fs))).
Definition remove_if_exists (name : bytes) : io unit :=
  call (fun fs => (Ok tt, default fs (fs_remove name fs))) (all_or_none (fun fs => default fs (fs_remove name fs))).
Definition name_leb (a b : bytes) : bool := match bytes_cmp a b with Gt => false | _ => true end.
(** [QUARANTINE_DIR], a directory within the recovery directory: its files have names of this prefix
    here, and only the others are listed. *)
Definition QUARANTINE_PREFIX : bytes := bs "quarantine/".
Definition list_names : io (list bytes) :=
  call (fun fs => (Ok (stable_sort name_leb
      (filter (fun n => starts_with QUARANTINE_PREFIX n = false) (map fst (map_to_list (visible fs))))), fs)) (fun _ fs => fs).
Definition encoded (r : result bytes IoError) : io bytes := mret r.

(** ** File names *)

Definition meta_name (rid : bytes) : bytes := rid ++ bs ".meta.json".
Definition snap_name (rid : bytes) (g : N) : bytes := rid ++ bs "." ++ dec g ++ bs ".snap".
Definition log_name (rid : bytes) (g : N) : bytes := rid ++ bs "." ++ dec g ++ bs ".log".
Definition tmp_of (name : bytes) : bytes := name ++ bs ".tmp".

(** ** State updates *)

Definition on_stats (f : Stats -> Stats) (s : Shared) : Shared :=
  mkShared (sh_budget s) (f (sh_stats s)) (sh_links s) (sh_failed s) (sh_dir_error s).
Definition release (n : N) (s : Shared) : Shared :=
  mkShared (sh_budget s - n) (sh_stats s) (sh_links s) (sh_failed s) (sh_dir_error s).
Definition set_failed (rid : bytes) (failed : bool) (s : Shared) : Shared :=
  mkShared (sh_budget s) (sh_stats s) (sh_links s) (if failed then {[rid]} ∪ sh_failed s else sh_failed s ∖ {[rid]}) (sh_dir_error s).
(** [if let Some(link) = shared.link(rid) { .. }] *)
Definition on_link (rid : bytes) (f : RecLink -> RecLink) (s : Shared) : Shared :=
  mkShared (sh_budget s) (sh_stats s) (alter f rid (sh_links s)) (sh_failed s) (sh_dir_error s).

Definition add_failure (s : Stats) : Stats :=
  mkStats (s_records s) (s_bytes s) (s_repairs s) (s_failures s + 1) (s_unsynced s) (s_restored s) (s_quarantined s)
    (s_skipped s) (s_overflow_rids s) (s_stale_appends s).
Definition sub_unsynced (n : N) (s : Stats) : Stats :=
  mkStats (s_records s) (s_bytes s) (s_repairs s) (s_failures s) (s_unsynced s - n) (s_restored s) (s_quarantined s)
    (s_skipped s) (s_overflow_rids s) (s_stale_appends s).
Definition add_record (n : N) (s : Stats) : Stats :=
  mkStats (s_records s + 1) (s_bytes s + n) (s_repairs s) (s_failures s) (s_unsynced s + 1) (s_restored s) (s_quarantined s)
    (s_skipped s) (s_overflow_rids s) (s_stale_appends s).
Definition add_stale (s : Stats) : Stats :=
  mkStats (s_records s) (s_bytes s) (s_repairs s) (s_failures s) (s_unsynced s) (s_restored s) (s_quarantined s)
    (s_skipped s) (s_overflow_rids s) (s_stale_appends s + 1).

Definition put_files (f : gmap bytes RidFiles) (x : Writer) : Writer := mkWriter f (wr_logged x) (wr_sync_due x) (wr_stray x).
Definition put_logged (l : gset bytes) (x : Writer) : Writer := mkWriter (wr_files x) l (wr_sync_due x) (wr_stray x).
Definition put_sync_due (b : bool) (x : Writer) : Writer := mkWriter (wr_files x) (wr_logged x) b (wr_stray x).
Definition put_stray (s : gmap bytes (list N)) (x : Writer) : Writer := mkWriter (wr_files x) (wr_logged x) (wr_sync_due x) s.
(** [self.stray.entry(rid).or_default().push(g)] *)
Definition push_stray (rid : bytes) (g : N) (x : Writer) : Writer :=
  put_stray (<[rid := default [] (wr_stray x !! rid) ++ [g]]> (wr_stray x)) x.

(** ** The writer *)

Definition current_gen (rid : bytes) (w : World) : option N := rf_generation <$> wr_files (w_writer w) !! rid.

Definition adopt (rid : bytes) (g : N) : W unit :=
  alter_world (on_writer (fun x => match wr_files x !! rid with
    | Some _ => x
    | None => put_files (<[rid := mkRidFiles g None 0 0 0 false]> (wr_files x)) x
    end)).

Definition fail (rid : bytes) (switch : option N) : W unit :=
  alter_world (on_shared (fun s => set_failed rid true (on_stats add_failure s)));;
  alter_world (on_writer (fun x => put_logged ({[rid]} ∪ wr_logged x) x));;
  alter_world (on_shared (on_link rid (match switch with Some g => switch_failed g | None => request_switch end))).

(** The new generation takes the place of the one in the table. *)
Definition take_over (rid : bytes) (generation : N) (log : nat) (text_bytes : N) : W unit :=
  old ← ask (fun w => wr_files (w_writer w) !! rid);
  alter_world (on_writer (fun x =>
    put_files (<[rid := mkRidFiles generation (Some log) 0 text_bytes 0 false]> (wr_files x)) x));;
  match old with
  | Some old =>
    (if negb (rf_generation old =? generation)%N
     then alter_world (on_writer (push_stray rid (rf_generation old))) else mret tt);;
    alter_world (on_shared (on_stats (sub_unsynced (rf_unsynced old))))
  | None => mret tt
  end.

(** Removes the files of one retired generation. *)
Definition retire (rid : bytes) (g : N) : io unit :=
  _ ←? remove_if_exists (snap_name rid g);
  _ ←? remove_if_exists (tmp_of (snap_name rid g));
  remove_if_exists (log_name rid g).

(** The generations that could not be removed. *)
Fixpoint retire_all (rid : bytes) (old : list N) : W (list N) :=
  match old with
  | [] => mret []
  | g :: old =>
    r ← retire rid g;
    kept ← retire_all rid old;
    mret (match r with Ok _ => kept | Err _ => g :: kept end)
  end.

Definition retire_strays (rid : bytes) (generation : N) : W unit :=
  stray ← ask (fun w => wr_stray (w_writer w));
  alter_world (on_writer (put_stray (delete rid stray)));;
  let old := filter (fun g => g <> generation) (default [] (stray !! rid)) in
  kept ← retire_all rid old;
  (match kept with
   | [] => mret tt
   | _ => alter_world (on_writer (fun x => put_stray (<[rid := kept]> (wr_stray x)) x))
   end);;
  match old with
  | [] => mret tt
  | _ => _ ← fsync_dir; mret tt
  end.

Definition write_snap (rid : bytes) (generation rev : N) (text : bytes) : io unit :=
  let snap := snap_name rid generation in
  f ←? create_private (tmp_of snap);
  h ←? encoded (enc_header (mkSnapHeader SNAP_FORMAT generation rev (N.of_nat (length text)) (to_hex (blake3 text))));
  _ ←? write_all f h;
  _ ←? write_all f [NL];
  _ ←? write_all f text;
  _ ←? sync_all f;
  rename (tmp_of snap) snap.

Definition write_meta (rid : bytes) (meta : RecoveryMeta) : io unit :=
  f ←? create_private (tmp_of (meta_name rid));
  m ←? encoded (enc_meta meta);
  _ ←? write_all f m;
  _ ←? sync_all f;
  rename (tmp_of (meta_name rid)) (meta_name rid).

Definition switch_acked (rid : bytes) (generation : N) : W unit :=
  alter_world (on_shared (set_failed rid false));;
  alter_world (on_writer (fun x => put_logged (wr_logged x ∖ {[rid]}) x));;
  alter_world (on_shared (on_link rid (switch_done generation))).

(** The six steps. *)
Definition try_switch (rid : bytes) (generation rev : N) (text : bytes) (meta : RecoveryMeta) : io unit :=
  _ ←? write_snap rid generation rev text;
  log ←? create_private (log_name rid generation);
  _ ←? sync_all log;
  _ ←? fsync_dir;
  _ ←? write_meta rid (put_generation generation meta);
  take_over rid generation log (N.of_nat (length text));;
  _ ←? fsync_dir;
  switch_acked rid generation;;
  retire_strays rid generation;;
  mret (Ok tt).

Definition switch (rid : bytes) (generation rev : N) (text : bytes) (meta : RecoveryMeta) : W unit :=
  r ← try_switch rid generation rev text meta;
  match r with
  | Ok _ => mret tt
  | Err _ =>
    cur ← ask (current_gen rid);
    (if bool_decide (cur = Some generation) then mret tt else alter_world (on_writer (push_stray rid generation)));;
    fail rid (Some generation)
  end.

(** The counters after a record was written. *)
Definition wrote (rid : bytes) (f : RidFiles) (n : N) : W unit :=
  let bytes := (rf_log_bytes f + n)%N in
  let compact := negb (rf_compaction_asked f) && (N.max COMPACT_LOG_MIN_BYTES (rf_snap_bytes f) <? bytes)%N in
  alter_world (on_writer (fun x => put_files (<[rid :=
    mkRidFiles (rf_generation f) (rf_log f) bytes (rf_snap_bytes f) (rf_unsynced f + 1)
      (rf_compaction_asked f || compact)]> (wr_files x)) x));;
  alter_world (on_shared (on_stats (add_record n)));;
  alter_world (on_writer (put_sync_due true));;
  if compact then alter_world (on_shared (on_link rid request_switch)) else mret tt.

Definition append (rid : bytes) (generation rev : N) (edits : list Edit) : W unit :=
  alter_world (on_shared (release (append_cost edits)));;
  failed ← ask (fun w => bool_decide (rid ∈ sh_failed (w_shared w)));
  f ← ask (fun w => wr_files (w_writer w) !! rid);
  match f with
  | Some f =>
    if negb (rf_generation f =? generation)%N then
      if failed : bool then mret tt else alter_world (on_shared (on_stats add_stale))
    else if failed : bool then mret tt
    else
      match enc_record (mkLogRecord rev edits (record_hash generation rev edits)) with
      | Err _ => fail rid None
      | Ok line =>
        let line := line ++ [NL] in
        r ← (match rf_log f with Some log => write_all log line | None => mret (Err OtherIo) end);
        match r with
        | Err _ => fail rid None
        | Ok _ => wrote rid f (N.of_nat (length line))
        end
      end
  | None => if failed : bool then mret tt else alter_world (on_shared (on_stats add_stale))
  end.

(** [for name in .. { remove_if_exists(..)?; }] *)
Fixpoint remove_all (names : list bytes) : io unit :=
  match names with
  | [] => mret (Ok tt)
  | n :: names => _ ←? remove_if_exists n; remove_all names
  end.

Definition discard (rid : bytes) : W unit :=
  alter_world (on_writer (fun x => put_stray (delete rid (wr_stray x)) x));;
  f ← ask (fun w => wr_files (w_writer w) !! rid);
  (match f with
   | Some f =>
     alter_world (on_writer (fun x => put_files (delete rid (wr_files x)) x));;
     alter_world (on_shared (on_stats (sub_unsynced (rf_unsynced f))))
   | None => mret tt
   end);;
  r ← (_ ←? remove_if_exists (meta_name rid);
       _ ←? fsync_dir;
       names ←? list_names;
       _ ←? remove_all (filter (fun n => starts_with (rid ++ bs ".") n = true) names);
       fsync_dir);
  (match r with Ok _ => mret tt | Err _ => alter_world (on_shared (on_stats add_failure)) end);;
  alter_world (on_shared (set_failed rid false));;
  alter_world (on_writer (fun x => put_logged (wr_logged x ∖ {[rid]}) x)).

(** One file's sync; [Some] when it failed. *)
Definition sync_one (rid : bytes) (f : RidFiles) : W (option bytes) :=
  r ← (match rf_log f with Some log => sync_all log | None => mret (Ok tt) end);
  match r with
  | Ok _ =>
    alter_world (on_writer (fun x => put_files (<[rid :=
      mkRidFiles (rf_generation f) (rf_log f) (rf_log_bytes f) (rf_snap_bytes f) 0 (rf_compaction_asked f)]> (wr_files x)) x));;
    alter_world (on_shared (on_stats (sub_unsynced (rf_unsynced f))));;
    mret None
  | Err _ => mret (Some rid)
  end.

Fixpoint sync_each (l : list (bytes * RidFiles)) : W (list bytes) :=
  match l with
  | [] => mret []
  | (rid, f) :: l =>
    r ← (if (0 <? rf_unsynced f)%N then sync_one rid f else mret None);
    failures ← sync_each l;
    mret (match r with Some rid => rid :: failures | None => failures end)
  end.

Fixpoint fail_each (l : list bytes) : W unit :=
  match l with [] => mret tt | rid :: l => fail rid None;; fail_each l end.

Definition sync `{HashIter} : W unit :=
  alter_world (on_writer (put_sync_due false));;
  files ← ask (fun w => wr_files (w_writer w));
  failures ← sync_each (hash_iter files);
  fail_each failures.

Definition answer (reply : N) : W unit :=
  alter_world (fun w =>
    let s := sh_stats (w_shared w) in
    mkWorld (w_fs w) (w_faults w) (w_writer w) (w_shared w)
      (w_answers w ++ [(reply, mkFlushOutcome (s_records s) (s_bytes s) (s_repairs s))])).

Definition handle `{HashIter} (msg : RecoveryMsg) : W unit :=
  match msg with
  | MSwitch rid generation rev text meta => switch rid generation rev text meta
  | MAppend rid generation rev edits => append rid generation rev edits
  | MDiscard rid => discard rid
  | MFlush reply => sync;; answer reply
  end.

(** The writer's loop, over what it meets: a message, or the timer armed by the first unsynced record;
    [None] when every sender is gone. *)
Definition run_input `{HashIter} (i : option RecoveryMsg) : W unit :=
  match i with
  | Some msg => handle msg
  | None => due ← ask (fun w => wr_sync_due (w_writer w)); if due : bool then sync else mret tt
  end.
Fixpoint run `{HashIter} (l : list (option RecoveryMsg)) : W unit :=
  match l with [] => sync | i :: l => run_input i;; run l end.
End writer.
