(* ===== verification/RecoveryLoad.v ===== *)
(** * The editor daemon's recovery files: loading and restore

    Models the second half of [cosmix-editd/src/recovery.rs]: [load_rid] with the replay of a
    log, and [restore].  The replay has the log's length as fuel, since every record takes at
    least its newline. *)

From S2P Require Import Prelude Utf8 EditBase Ot GapBuffer Text Buffer Str BTree MirrorTypes RecoveryFs Recovery.

Record RestoreCaps := mkRestoreCaps { max_buffers : nat; max_bytes : N }.
Record RecoveredFrom := mkRecoveredFrom { rv_epoch : bytes; rv_rev : N; rv_time_ms : N }.

Record RestoredBuffer := mkRestoredBuffer {
  rb_bid : bytes; rb_rid : bytes; rb_text : bytes; rb_path : option bytes; rb_opened_as : option bytes;
  rb_language : bytes; rb_eol : Eol; rb_bom : bool; rb_base : option DiskIdentity; rb_disk : DiskState; rb_clean : bool;
  rb_created_ms : N; rb_from : RecoveredFrom; rb_generation : N; rb_needs_switch : bool; rb_dropped_records : N }.

Record LoadedRid := mkLoadedRid {
  ld_rid : bytes; ld_meta : RecoveryMeta; ld_text : bytes; ld_rev : N; ld_time_ms : N; ld_dropped : N }.

(** Why a rid is malformed. *)
Inductive LoadError :=
| MetaUnreadable | MetaUnparsable | MetaFormat | MetaRid | SnapUnreadable | SnapNoHeader | SnapHeaderUnparsable
| SnapHeaderMismatch | SnapBytes | SnapHash | SnapNotUtf8 | SnapText (e : CoreError).

Definition is_rid (s : bytes) : bool :=
  (length s =? 16) && forallb (fun b => is_ascii_digit b || in_range 0x61 0x66 b) s.

(** [rest.iter().position(|&b| b == b'\n')] *)
Fixpoint position_nl (s : bytes) : option nat :=
  match s with
  | [] => None
  | b :: s => if is_nl b then Some 0 else S <$> position_nl s
  end.

Definition lift {A} (o : option A) : W A := fun w => (w, o).

Section load.
Context {G : Type} {TS : TextStore G} {ENV : RecoveryEnv}.

(** [file.take(cap)] *)
Definition take_capped (cap : Z) (s : bytes) : bytes := if (cap <? Z.of_nat (length s))%Z then take (Z.to_nat cap) s else s.

Definition read_capped (name : bytes) (cap : Z) (over_is_error : bool) : io bytes :=
  call (fun fs =>
    (match fs_read name fs with
     | None => Err NotFound
     | Some s => if over_is_error && (cap <? Z.of_nat (length s))%Z then Err OtherIo else Ok (take_capped cap s)
     end, fs)) (fun _ fs => fs).

(** One line: the text after, and whether it was the next record; [None] is the [assert!] of [commit]. *)
Definition replay_line (text : Text G) (generation expect_rev : N) (line : bytes) : option (Text G * bool) :=
  match dec_record line with
  | None => Some (text, false)
  | Some record =>
    if negb (rc_rev record =? expect_rev)%N then Some (text, false)
    else if negb (bool_decide (rc_h record = record_hash generation (rc_rev record) (rc_edits record))) then Some (text, false)
    else
      match prepare re_reserve text (rc_edits record) with
      | (text, Err _) => Some (text, false)
      | (text, Ok prepared) => text ← commit text prepared; Some (text, true)
      end
  end.

(** The records a bad line and what follows it drop. *)
Definition dropped_after (after_ : bytes) : N :=
  1 + N.of_nat (count_newlines after_) + (if (length after_ =? 0) || ends_with [NL] after_ then 0 else 1).

Fixpoint replay_log (fuel : nat) (text : Text G) (generation rev : N) (rest : bytes) : option (Text G * N * N) :=
  match rest, fuel with
  | [], _ => Some (text, rev, 0%N)
  | _, 0 => None
  | _, S fuel =>
    match position_nl rest with
    | None => Some (text, rev, 1%N)
    | Some end_ =>
      '(text, ok) ← replay_line text generation (rev + 1) (take end_ rest);
      if ok : bool then replay_log fuel text generation (rev + 1) (drop (S end_) rest)
      else Some (text, rev, dropped_after (drop (S end_) rest))
    end
  end.

(** The snapshot of generation [g], parsed: its revision and text. *)
Definition parse_snap (generation : N) (raw : bytes) : result (N * Text G) LoadError :=
  let? nl := ok_or (position_nl (take SNAP_HEADER_MAX raw)) SnapNoHeader in
  let? header := ok_or (dec_header (take nl raw)) SnapHeaderUnparsable in
  let body := drop (S nl) raw in
  if negb (bool_decide (hd_format header = SNAP_FORMAT)) || negb (hd_generation header =? generation)%N then Err SnapHeaderMismatch
  else if negb (N.of_nat (length body) =? hd_bytes header)%N then Err SnapBytes
  else if negb (bool_decide (to_hex (blake3 body) = hd_blake3 header)) then Err SnapHash
  else if negb (from_utf8_ok body) then Err SnapNotUtf8
  else
    let? text := map_err SnapText (from_text re_reserve body) in
    Ok (hd_rev header, text).

Definition parse_meta (rid raw : bytes) : result RecoveryMeta LoadError :=
  let? meta := ok_or (dec_meta raw) MetaUnparsable in
  if negb (bool_decide (mt_format meta = META_FORMAT)) then Err MetaFormat
  else if negb (bool_decide (mt_rid meta = rid)) then Err MetaRid
  else Ok meta.

Definition load_rid (rid : bytes) : W (result LoadedRid LoadError) :=
  raw ← read_capped (meta_name rid) META_MAX_BYTES true;
  match raw with
  | Err _ => mret (Err MetaUnreadable)
  | Ok raw =>
    match parse_meta rid raw with
    | Err e => mret (Err e)
    | Ok meta =>
      let generation := mt_generation meta in
      raw ← read_capped (snap_name rid generation) (MAX_BUFFER_BYTES + Z.of_nat SNAP_HEADER_MAX) true;
      match raw with
      | Err _ => mret (Err SnapUnreadable)
      | Ok raw =>
        match parse_snap generation raw with
        | Err e => mret (Err e)
        | Ok (rev, text) =>
          log ← read_capped (log_name rid generation) LOG_READ_MAX false;
          let log := match log with Ok s => s | Err _ => [] end in
          '(text, rev, dropped) ← lift (replay_log (length log) text generation rev log);
          let time := N.max (mtime_ms (meta_name rid)) (N.max (mtime_ms (snap_name rid generation)) (mtime_ms (log_name rid generation))) in
          mret (Ok (mkLoadedRid rid meta (read text 0 (len text) []) rev time dropped))
        end
      end
    end
  end.

(** ** Restore *)

(** Moves every file of the rid aside; the moves are within the same file system. *)
Definition quarantine_name (name : bytes) : bytes := QUARANTINE_PREFIX ++ name.

Fixpoint free_name (fuel : nat) (name : bytes) (n : N) : W bytes :=
  fs ← ask w_fs;
  let dest := if (n =? 0)%N then quarantine_name name else quarantine_name name ++ bs "." ++ dec n in
  match visible fs !! dest, fuel with
  | Some _, S fuel => free_name fuel name (n + 1)
  | _, _ => mret dest
  end.

Fixpoint quarantine_each (names : list bytes) : W unit :=
  match names with
  | [] => mret tt
  | name :: names =>
    fs ← ask w_fs;
    dest ← free_name (base.size (visible fs)) name 0;
    _ ← rename name dest;
    quarantine_each names
  end.

Definition quarantine (rid : bytes) (names : list bytes) : W unit :=
  made ← call (fun fs => (Ok tt, fs)) (fun _ fs => fs);
  match made with
  | Err _ => mret tt
  | Ok _ =>
    quarantine_each (filter (fun n => starts_with (rid ++ bs ".") n = true) names);;
    _ ← fsync_dir; mret tt
  end.

Definition compare_disk (path text : bytes) (meta_base : option BaseIdentity) : option DiskIdentity * DiskState * bool :=
  let recorded := b ← meta_base; to_disk b in
  match read_bounded path with
  | Ok (stat, content) =>
    let id := DiskIdentity_from_parts stat content in
    let body := default content (strip_prefix BOM content) in
    if bool_decide (body = text) then (Some id, DClean, true)
    else if bool_decide (recorded = Some id) then (recorded, DClean, false)
    else (recorded, DModified, false)
  | Err NotFound => (recorded, match recorded with Some _ => DDeleted | None => DNone end, false)
  | Err OtherIo => (recorded, DModified, false)
  end.

Definition sweep (name : bytes) : W unit := _ ← remove_if_exists name; mret tt.
Fixpoint sweep_all (names : list bytes) : W unit :=
  match names with [] => mret tt | n :: names => sweep n;; sweep_all names end.

(** What a name of the directory is. *)
Inductive NameKind := Temporary | MetaFile (rid : bytes) | DataFile (rid : bytes) (g : N) | Foreign.

Definition name_kind (name : bytes) : NameKind :=
  if ends_with (bs ".tmp") name then Temporary else
  match split_once_str (bs ".") name with
  | None => Foreign
  | Some (rid, rest) =>
    if negb (is_rid rid) then Foreign
    else if bool_decide (rest = bs "meta.json") then MetaFile rid
    else
      match split_once_str (bs ".") rest with
      | Some (g, kind) =>
        if bool_decide (kind = bs "snap") || bool_decide (kind = bs "log") then
          match parse_unsigned (2 ^ 64 - 1) g with Some g => DataFile rid g | None => Foreign end
        else Foreign
      | None => Foreign
      end
  end.

Definition metas_of (names : list bytes) : list bytes :=
  omap (fun n => match name_kind n with MetaFile rid => Some rid | _ => None end) names.
Definition temporary (n : bytes) : bool := match name_kind n with Temporary => true | _ => false end.
(** The data files of each rid, with their generations. *)
Definition push_data (data : gmap bytes (list (bytes * N))) (name : bytes) : gmap bytes (list (bytes * N)) :=
  match name_kind name with
  | DataFile rid g => <[rid := default [] (data !! rid) ++ [(name, g)]]> data
  | _ => data
  end.
Definition data_of (names : list bytes) : gmap bytes (list (bytes * N)) := foldl push_data ∅ names.
(** The data files of rids without a meta. *)
Definition orphans `{HashIter} (metas : list bytes) (data : gmap bytes (list (bytes * N))) : list bytes :=
  concat (map (fun '(rid, files) => if bool_decide (rid ∈ metas) then [] else map fst files) (hash_iter data)).
(** The data files of [rid] of other generations. *)
Definition outdated (rid : bytes) (g : N) (data : gmap bytes (list (bytes * N))) : list bytes :=
  map fst (filter (fun f => f.2 <> g) (default [] (data !! rid))).

Definition add_quarantined (s : Stats) : Stats :=
  mkStats (s_records s) (s_bytes s) (s_repairs s) (s_failures s) (s_unsynced s) (s_restored s) (s_quarantined s + 1)
    (s_skipped s) (s_overflow_rids s) (s_stale_appends s).
Definition add_skipped (s : Stats) : Stats :=
  mkStats (s_records s) (s_bytes s) (s_repairs s) (s_failures s) (s_unsynced s) (s_restored s) (s_quarantined s)
    (s_skipped s + 1) (s_overflow_rids s) (s_stale_appends s).
Definition add_restored (s : Stats) : Stats :=
  mkStats (s_records s) (s_bytes s) (s_repairs s) (s_failures s) (s_unsynced s) (s_restored s + 1) (s_quarantined s)
    (s_skipped s) (s_overflow_rids s) (s_stale_appends s).

Fixpoint load_all (data : gmap bytes (list (bytes * N))) (live metas : list bytes) : W (list LoadedRid) :=
  match metas with
  | [] => mret []
  | rid :: metas =>
    r ← load_rid rid;
    match r with
    | Ok l =>
      sweep_all (outdated rid (mt_generation (ld_meta l)) data);;
      rest ← load_all data live metas;
      mret (l :: rest)
    | Err _ =>
      quarantine rid live;;
      alter_world (on_shared (on_stats add_quarantined));;
      load_all data live metas
    end
  end.

(** Newest first, then by rid. *)
Definition loaded_leb (a b : LoadedRid) : bool :=
  (ld_time_ms b <? ld_time_ms a)%N || (ld_time_ms a =? ld_time_ms b)%N && name_leb (ld_rid a) (ld_rid b).

Definition bid_of (epoch : bytes) (n : nat) : bytes := bs "b" ++ dec (N.of_nat n) ++ bs "_" ++ epoch.

(** The meta a restored rid gets, bound to [path] with identity [base]. *)
Definition restored_meta (epoch : bytes) (n : nat) (path opened_as : option bytes) (base : option DiskIdentity) (rid : bytes) (m : RecoveryMeta) : RecoveryMeta :=
  mkRecoveryMeta META_FORMAT rid (mt_generation m + 1) path opened_as (mt_language m) (mt_eol m) (mt_bom m)
    (BaseIdentity_from <$> base) epoch (bid_of epoch n) (mt_created_ms m).

(** One loaded rid, as the [n]th buffer; [claimed] are the paths taken by newer ones. *)
Definition restore_one `{HashIter} (epoch : bytes) (n : nat) (claimed : gset bytes) (l : LoadedRid) : W (RestoredBuffer * gset bytes) :=
  let m := ld_meta l in
  let bid := bid_of epoch n in
  let taken := match mt_path m with Some p => bool_decide (p ∈ claimed) | None => false end in
  let path := if taken then None else mt_path m in
  let opened_as := if taken then None else mt_opened_as m in
  let claimed := match mt_path m with Some p => {[p]} ∪ claimed | None => claimed end in
  let '(base, disk, clean) :=
    match path with None => (None, DNone, false) | Some p => compare_disk p (ld_text l) (mt_base m) end in
  adopt (ld_rid l) (mt_generation m);;
  '(generation, needs_switch) ←
    (if clean then handle (MDiscard (ld_rid l));; mret (mt_generation m, false)
     else
       let generation := (mt_generation m + 1)%N in
       handle (MSwitch (ld_rid l) generation 0 (ld_text l) (restored_meta epoch n path opened_as base (ld_rid l) m));;
       cur ← ask (current_gen (ld_rid l));
       failed ← ask (fun w => bool_decide (ld_rid l ∈ sh_failed (w_shared w)));
       mret (generation, negb (bool_decide (cur = Some generation)) || failed));
  alter_world (on_shared (on_stats add_restored));;
  mret (mkRestoredBuffer bid (ld_rid l) (ld_text l) path opened_as (mt_language m) (mt_eol m) (mt_bom m) base disk clean
    (mt_created_ms m) (mkRecoveredFrom (mt_epoch m) (ld_rev l) (ld_time_ms l)) generation needs_switch (ld_dropped l), claimed).

Fixpoint restore_each `{HashIter} (epoch : bytes) (caps : RestoreCaps) (l : list LoadedRid) (out : list RestoredBuffer)
    (claimed : gset bytes) (total : N) : W (list RestoredBuffer) :=
  match l with
  | [] => mret out
  | x :: l =>
    let n := N.of_nat (length (ld_text x)) in
    if (max_buffers caps <=? length out) || (max_bytes caps <? total + n)%N then
      alter_world (on_shared (on_stats add_skipped));; restore_each epoch caps l out claimed total
    else
      '(b, claimed) ← restore_one epoch (length out + 1) claimed x;
      restore_each epoch caps l (out ++ [b]) claimed (total + n)
  end.

Definition restore `{HashIter} (epoch : bytes) (caps : RestoreCaps) : W (list RestoredBuffer) :=
  names ← list_names;
  match names with
  | Err _ => mret []
  | Ok names =>
    sweep_all (filter (fun n => temporary n = true) names);;
    let metas := metas_of names in
    let data := data_of names in
    sweep_all (orphans metas data);;
    live ← list_names;
    let live := match live with Ok l => l | Err _ => [] end in
    loaded ← load_all data live metas;
    restore_each epoch caps (stable_sort loaded_leb loaded) [] ∅ 0
  end.
End load.
