(* ===== verification/RecoveryActor.v ===== *)
(** * The editor daemon's recovery files: the actor's side

    Models the recovery hooks of [cosmix-editd/src/actor.rs] with [ActorRec], [RecSignal] and the
    byte budgets of [recovery.rs] and [router.rs]: when a buffer's actor appends a record, starts
    a generation, discards its files or places a flush.  A hook is a function on the actor and
    what it shares with the writer; the queue to the writer is the list of messages sent, which
    grows while the writer is there ([a_alive]).  The buffer is what the hooks read of it.  Not
    modelled: the wake-ups, which decide when a hook runs, and log messages. *)

From S2P Require Import Prelude Utf8 EditBase Buffer Recovery RecoveryLoad.

Definition MAX_TOTAL_BYTES : N := 1024 * 1024 * 1024.

Record RecState := mkRecState { st_generation : N; st_outstanding_switch : option N; st_needs_switch : bool }.
Definition RecState_default : RecState := mkRecState 0 None false.

Record ActorRec := mkActorRec {
  ar_rid : bytes; ar_created_ms : N; ar_st : RecState; ar_active : bool; ar_held : bool; ar_overflow : bool;
  ar_repair_gen : option N; ar_switch_text : option bytes; ar_written : option RecoveryMeta }.

(** What the hooks read of the rest of the actor. *)
Record Actor := mkActor {
  ac_bid : bytes; ac_epoch : bytes; ac_text : bytes; ac_rev : N; ac_saved_rev : option N; ac_log_bytes : N;
  ac_eol : Eol; ac_bom : bool; ac_path : option bytes; ac_opened_as : option bytes; ac_language : bytes;
  ac_base : option DiskIdentity; ac_snapshots : list bytes; ac_recovery_id : bytes; ac_restored_dirty : bool }.

(** The actor with its lease, and what it shares: the router's budget, the recovery state, the queue. *)
Record Act := mkAct {
  a_actor : Actor; a_rec : option ActorRec; a_lease : N; a_budget : N; a_shared : Shared; a_alive : bool;
  a_sent : list RecoveryMsg }.

Definition put_actor (x : Actor) (a : Act) : Act := mkAct x (a_rec a) (a_lease a) (a_budget a) (a_shared a) (a_alive a) (a_sent a).
Definition put_rec (r : ActorRec) (a : Act) : Act := mkAct (a_actor a) (Some r) (a_lease a) (a_budget a) (a_shared a) (a_alive a) (a_sent a).
Definition put_shared (s : Shared) (a : Act) : Act := mkAct (a_actor a) (a_rec a) (a_lease a) (a_budget a) s (a_alive a) (a_sent a).
Definition put_bytes (lease budget : N) (a : Act) : Act := mkAct (a_actor a) (a_rec a) lease budget (a_shared a) (a_alive a) (a_sent a).
Definition put_sent (l : list RecoveryMsg) (a : Act) : Act := mkAct (a_actor a) (a_rec a) (a_lease a) (a_budget a) (a_shared a) (a_alive a) l.

Definition put_st (st : RecState) (r : ActorRec) : ActorRec :=
  mkActorRec (ar_rid r) (ar_created_ms r) st (ar_active r) (ar_held r) (ar_overflow r) (ar_repair_gen r) (ar_switch_text r) (ar_written r).
Definition put_active (b : bool) (r : ActorRec) : ActorRec :=
  mkActorRec (ar_rid r) (ar_created_ms r) (ar_st r) b (ar_held r) (ar_overflow r) (ar_repair_gen r) (ar_switch_text r) (ar_written r).
Definition put_held (b : bool) (r : ActorRec) : ActorRec :=
  mkActorRec (ar_rid r) (ar_created_ms r) (ar_st r) (ar_active r) b (ar_overflow r) (ar_repair_gen r) (ar_switch_text r) (ar_written r).
Definition put_overflow (b : bool) (r : ActorRec) : ActorRec :=
  mkActorRec (ar_rid r) (ar_created_ms r) (ar_st r) (ar_active r) (ar_held r) b (ar_repair_gen r) (ar_switch_text r) (ar_written r).
Definition put_repair_gen (g : option N) (r : ActorRec) : ActorRec :=
  mkActorRec (ar_rid r) (ar_created_ms r) (ar_st r) (ar_active r) (ar_held r) (ar_overflow r) g (ar_switch_text r) (ar_written r).
Definition put_switch_text (t : option bytes) (r : ActorRec) : ActorRec :=
  mkActorRec (ar_rid r) (ar_created_ms r) (ar_st r) (ar_active r) (ar_held r) (ar_overflow r) (ar_repair_gen r) t (ar_written r).
Definition put_written (m : option RecoveryMeta) (r : ActorRec) : ActorRec :=
  mkActorRec (ar_rid r) (ar_created_ms r) (ar_st r) (ar_active r) (ar_held r) (ar_overflow r) (ar_repair_gen r) (ar_switch_text r) m.
Definition put_needs_switch (b : bool) (r : ActorRec) : ActorRec :=
  put_st (mkRecState (st_generation (ar_st r)) (st_outstanding_switch (ar_st r)) b) r.
Definition put_outstanding (g : option N) (r : ActorRec) : ActorRec :=
  put_st (mkRecState (st_generation (ar_st r)) g (st_needs_switch (ar_st r))) r.

#[export] Instance BaseIdentity_eq_dec : EqDecision BaseIdentity.
Proof. solve_decision. Defined.
#[export] Instance Eol_eq_dec : EqDecision Eol.
Proof. solve_decision. Defined.
#[export] Instance RecoveryMeta_eq_dec : EqDecision RecoveryMeta.
Proof. solve_decision. Defined.

(** ** Budgets *)

(** [checked_add(n).filter(|t| *t <= cap)] *)
Definition checked_reserve (cap used n : N) : option N :=
  let t := (used + n)%N in if (t <? 2 ^ 64)%N && (t <=? cap)%N then Some t else None.

Definition try_reserve (n : N) (s : Shared) : option Shared :=
  used ← checked_reserve MAX_RECOVERY_QUEUE_BYTES (sh_budget s) n;
  Some (mkShared used (sh_stats s) (sh_links s) (sh_failed s) (sh_dir_error s)).

(** [Lease::take], [Lease::reconcile]; the release is saturating. *)
Definition lease_take (n : N) (a : Act) : option Act :=
  used ← checked_reserve MAX_TOTAL_BYTES (a_budget a) n; Some (put_bytes (a_lease a + n) used a).
Definition lease_reconcile (target : N) (a : Act) : Act :=
  if (target <? a_lease a)%N then put_bytes target (a_budget a - (a_lease a - target)) a
  else if (a_lease a <? target)%N then
    match checked_reserve MAX_TOTAL_BYTES (a_budget a) (target - a_lease a) with
    | Some used => put_bytes target used a
    | None => a
    end
  else a.

Definition footprint (a : Act) : N :=
  let x := a_actor a in
  let snaps := sum_list (map length (ac_snapshots x)) + match a_rec a with Some r => match ar_switch_text r with Some t => length t | None => 0 end | None => 0 end in
  (N.of_nat (length (ac_text x)) + ac_log_bytes x + N.of_nat snaps)%N.
Definition reconcile (a : Act) : Act := lease_reconcile (footprint a) a.

(** ** The actor's recovery state *)

Definition send (msg : RecoveryMsg) (a : Act) : bool * Act :=
  if a_alive a then (true, put_sent (a_sent a ++ [msg]) a) else (false, a).

(** [rec.link], which [register] has put in the table. *)
Definition link_of (rid : bytes) (s : Shared) : RecLink := default RecLink_default (sh_links s !! rid).

Definition count_overflow (f : N -> N) (s : Stats) : Stats :=
  mkStats (s_records s) (s_bytes s) (s_repairs s) (s_failures s) (s_unsynced s) (s_restored s) (s_quarantined s) (s_skipped s)
    (f (s_overflow_rids s)) (s_stale_appends s).
Definition add_repair (s : Stats) : Stats :=
  mkStats (s_records s) (s_bytes s) (s_repairs s + 1) (s_failures s) (s_unsynced s) (s_restored s) (s_quarantined s) (s_skipped s)
    (s_overflow_rids s) (s_stale_appends s).

Definition set_overflow (on : bool) (r : ActorRec) (a : Act) : Act :=
  let r := if on then put_repair_gen None r else r in
  if Bool.eqb on (ar_overflow r) then put_rec r a
  else put_rec (put_overflow on r)
         (put_shared (on_stats (count_overflow (fun v => if on then v + 1 else v - 1)%N) (a_shared a)) a).

Definition is_repair (r : ActorRec) (s : Shared) : bool := ar_overflow r || ar_held r || bool_decide (ar_rid r ∈ sh_failed s).

Definition dirty (x : Actor) : bool :=
  negb (bool_decide (ac_saved_rev x = Some (ac_rev x))) &&
  negb (bool_decide (ac_saved_rev x = None) && (ac_rev x =? 0)%N && negb (ac_restored_dirty x)).

Section hooks.
Context {ENV : RecoveryEnv}.

(** ** The hooks *)

Definition rec_meta (generation : N) (a : Act) : option RecoveryMeta :=
  r ← a_rec a;
  let x := a_actor a in
  Some (mkRecoveryMeta META_FORMAT (ac_recovery_id x) generation (ac_path x) (ac_opened_as x) (ac_language x) (ac_eol x) (ac_bom x)
    (BaseIdentity_from <$> ac_base x) (ac_epoch x) (ac_bid x) (ar_created_ms r)).

(** The lease was taken: the message goes out. *)
Definition issue_switch (meta : RecoveryMeta) (r : ActorRec) (a : Act) : Act :=
  let text := ac_text (a_actor a) in
  let generation := mt_generation meta in
  let a := if is_repair r (a_shared a) then put_shared (on_stats add_repair (a_shared a)) a else a in
  let r := put_held false (put_st (mkRecState generation (Some generation) false) r) in
  let r := if ar_overflow r then put_repair_gen (Some generation) r else r in
  let r := put_switch_text (Some text) (put_written (Some (put_generation 0 meta)) r) in
  let '(sent, a) := send (MSwitch (ar_rid r) generation (ac_rev (a_actor a)) text meta) (put_rec r a) in
  if sent : bool then a
  else put_rec (put_held true (put_needs_switch true (put_outstanding None (put_switch_text None r)))) a.

Definition rec_switch (a : Act) : Act :=
  match a_rec a, rec_meta (match a_rec a with Some r => st_generation (ar_st r) + 1 | None => 0 end)%N a with
  | Some r, Some meta =>
    match lease_take (N.of_nat (length (ac_text (a_actor a)))) a with
    | None => set_overflow true (put_held true (put_needs_switch true r)) a
    | Some a => reconcile (issue_switch meta r a)
    end
  | _, _ => a
  end.

Definition no_outstanding (r : ActorRec) : bool := match st_outstanding_switch (ar_st r) with None => true | Some _ => false end.

Definition rec_request_switch (a : Act) : Act :=
  match a_rec a with
  | None => a
  | Some r =>
    let a := put_rec (put_needs_switch true r) a in
    if no_outstanding r then rec_switch a else a
  end.

(** [rec_record] of an applied entry: revision [rev], edits [edits]. *)
Definition rec_record (rev : N) (edits : list Edit) (a : Act) : Act :=
  match a_rec a with
  | None => a
  | Some r =>
    if negb (ar_active r) then a
    else if st_needs_switch (ar_st r) || ar_held r then
      if no_outstanding r then rec_switch a else a
    else
      match try_reserve (append_cost edits) (a_shared a) with
      | Some s =>
        let '(sent, a) := send (MAppend (ar_rid r) (st_generation (ar_st r)) rev edits) (put_shared s a) in
        if sent : bool then a else put_shared (release (append_cost edits) (a_shared a)) a
      | None => rec_request_switch (set_overflow true r a)
      end
  end.

Definition rec_settle (a : Act) : Act :=
  match a_rec a with
  | None => a
  | Some r =>
    if negb (ar_active r) then
      if dirty (a_actor a) then rec_request_switch (put_rec (put_active true r) a) else a
    else if negb (st_needs_switch (ar_st r)) && negb (bool_decide (ar_written r = rec_meta 0 a)) then rec_request_switch a
    else a
  end.

(** [take_switch_request], [take_flushes] of the link. *)
Definition take_request (l : RecLink) : RecLink := mkRecLink false (lk_switch_done l) (lk_failed l) (lk_flushes l).
Definition no_flushes (l : RecLink) : RecLink := mkRecLink (lk_needs_switch l) (lk_switch_done l) (lk_failed l) [].

(** The writer's answer to the outstanding switch; also whether its text is released. *)
Definition switch_answered (a : Act) (r : ActorRec) : Act * bool :=
  match st_outstanding_switch (ar_st r) with
  | None => (a, false)
  | Some g =>
    let l := link_of (ar_rid r) (a_shared a) in
    if (g <=? lk_switch_done l)%N then
      let r := put_switch_text None (put_outstanding None r) in
      (match ar_repair_gen r with
       | Some x => if (x <=? g)%N then set_overflow false (put_repair_gen None r) a else put_rec r a
       | None => put_rec r a
       end, true)
    else if (g <=? lk_failed l)%N then
      (put_rec (put_needs_switch true (put_held true (put_switch_text None (put_outstanding None r)))) a, true)
    else (a, false)
  end.

(** The switch requests of the writer and the state of an inactive actor. *)
Definition settle_request (asked : bool) (a : Act) : Act :=
  match a_rec a with
  | None => a
  | Some r =>
    if negb (ar_active r) then set_overflow false (put_held false (put_needs_switch false r)) a
    else if asked then put_rec (put_needs_switch true r) a
    else a
  end.

Definition wants_switch (a : Act) : bool :=
  match a_rec a with
  | Some r => ar_active r && st_needs_switch (ar_st r) && negb (ar_held r) && no_outstanding r
  | None => false
  end.

Fixpoint send_flushes (replies : list N) (a : Act) : Act :=
  match replies with [] => a | reply :: replies => send_flushes replies (send (MFlush reply) a).2 end.

Definition place_flushes (a : Act) : Act :=
  match a_rec a with
  | None => a
  | Some r =>
    if no_outstanding r && (negb (st_needs_switch (ar_st r)) || ar_held r) then
      send_flushes (lk_flushes (link_of (ar_rid r) (a_shared a))) (put_shared (on_link (ar_rid r) no_flushes (a_shared a)) a)
    else a
  end.

Definition rec_wake (a : Act) : Act :=
  match a_rec a with
  | None => a
  | Some r =>
    let asked := lk_needs_switch (link_of (ar_rid r) (a_shared a)) in
    let a := put_shared (on_link (ar_rid r) take_request (a_shared a)) a in
    let '(a, released) := switch_answered a r in
    let a := settle_request asked a in
    let switch := wants_switch a in
    let a := if released : bool then reconcile a else a in
    let a := if switch then rec_switch a else a in
    place_flushes a
  end.

Definition put_restored_dirty (b : bool) (x : Actor) : Actor :=
  mkActor (ac_bid x) (ac_epoch x) (ac_text x) (ac_rev x) (ac_saved_rev x) (ac_log_bytes x) (ac_eol x) (ac_bom x) (ac_path x)
    (ac_opened_as x) (ac_language x) (ac_base x) (ac_snapshots x) (ac_recovery_id x) b.

Definition rec_discard (a : Act) : Act :=
  let a := put_actor (put_restored_dirty false (a_actor a)) a in
  match a_rec a with
  | None => a
  | Some r =>
    let a := if ar_active r then (send (MDiscard (ar_rid r)) a).2 else a in
    set_overflow false (put_written None (put_needs_switch false (put_held false (put_active false r)))) a
  end.

(** ** The life of an actor *)

Definition register (rid : bytes) (s : Shared) : Shared :=
  mkShared (sh_budget s) (sh_stats s) (<[rid := RecLink_default]> (sh_links s)) (sh_failed s) (sh_dir_error s).
Definition unregister (rid : bytes) (s : Shared) : Shared :=
  mkShared (sh_budget s) (sh_stats s) (delete rid (sh_links s)) (sh_failed s) (sh_dir_error s).

Definition ActorRec_new (rid : bytes) (created_ms : N) (st : RecState) (active : bool) : ActorRec :=
  mkActorRec rid created_ms st active false false None None None.

(** The recovery half of [init]: a new buffer, or a restored one. *)
Definition init_rec (restored : option RestoredBuffer) (now : N) (a : Act) : Act :=
  let rid := ac_recovery_id (a_actor a) in
  let '(st, active, created_ms) :=
    match restored with
    | Some b => (mkRecState (rb_generation b) None (rb_needs_switch b), negb (rb_clean b), rb_created_ms b)
    | None => (RecState_default, false, now)
    end in
  let a := put_rec (ActorRec_new rid created_ms st active) (put_shared (register rid (a_shared a)) a) in
  match a_rec a with
  | Some r => if active : bool then put_rec (put_written (rec_meta 0 a) r) a else a
  | None => a
  end.

(** [drop] of the recovery state: the flushes go behind everything sent. *)
Definition drop_rec (a : Act) : Act :=
  match a_rec a with
  | None => a
  | Some r =>
    let a := set_overflow false r a in
    let flushes := lk_flushes (link_of (ar_rid r) (a_shared a)) in
    let a := send_flushes flushes (put_shared (on_link (ar_rid r) no_flushes (a_shared a)) a) in
    put_shared (unregister (ar_rid r) (a_shared a)) a
  end.

(** [Recovery::flush] for one actor. *)
Definition push_flush (reply : N) (l : RecLink) : RecLink := mkRecLink (lk_needs_switch l) (lk_switch_done l) (lk_failed l) (lk_flushes l ++ [reply]).
End hooks.
