(* ===== verification/RecoveryWp.v ===== *)
(** * The editor daemon's recovery files: reasoning about the writer

    A judgement for the steps of [Recovery.v], [wp], which speaks of the end of a step and of the
    files at every point where the daemon may be killed, and its form [fsp] for steps that only
    touch files.  With it: the names of the files are distinct, and the two ways the writer makes
    a file, a synced temporary that is renamed and a synced empty log. *)

From S2P Require Import Prelude Utf8 EditBase Ot GapBuffer Text Buffer Str BTree MirrorTypes RecoveryFs Recovery RecoveryLoad.

(** A call that may still fail; one that the daemon does not survive. *)
Definition blame (w : World) : Prop := exists n, Fails n ∈ w_faults w.
Definition doomed (w : World) : Prop := exists n, Killed n ∈ w_faults w.

Section wp.
Context {ENV : RecoveryEnv}.

(** The step ends with [Q], or is killed with [C] of the files; no fault is made up. *)
Definition wp {A} (m : W A) (Q : A -> World -> Prop) (C : Fs -> Prop) (w : World) : Prop :=
  let '(w', r) := m w in
  w_faults w' `suffix_of` w_faults w /\ match r with Some a => Q a w' | None => doomed w /\ C (w_fs w') end.

Lemma blame_suffix w w' : w_faults w' `suffix_of` w_faults w -> blame w' -> blame w.
Proof. intros [l E] [n Hn]. exists n. rewrite E. apply elem_of_app. by right. Qed.
Lemma doomed_suffix w w' : w_faults w' `suffix_of` w_faults w -> doomed w' -> doomed w.
Proof. intros [l E] [n Hn]. exists n. rewrite E. apply elem_of_app. by right. Qed.

Lemma fwp_mono {A} (m : W A) (Q Q' : A -> World -> Prop) (C C' : Fs -> Prop) w :
  wp m Q C w -> (forall a w', w_faults w' `suffix_of` w_faults w -> Q a w' -> Q' a w') -> (forall fs, C fs -> C' fs) -> wp m Q' C' w.
Proof. unfold wp. destruct (m w) as [w' [a|]]; intros [H1 H2] HQ HC; (split; [done|]); [auto|]. destruct H2. auto. Qed.

Lemma fwp_ret {A} (a : A) (Q : A -> World -> Prop) C w : Q a w -> wp (mret a) Q C w.
Proof. intros H. by split. Qed.

Lemma fwp_bind {A B} (m : W A) (k : A -> W B) Q C w :
  wp m (fun a w' => wp (k a) Q C w') C w -> wp (x ← m; k x) Q C w.
Proof.
  unfold wp, mbind, W_bind. destruct (m w) as [w' [a|]]; intros [H1 H2]; [|done].
  destruct (k a w') as [w2 r]. destruct H2 as [H2 H3]. split; [by trans (w_faults w')|]. destruct r; [done|].
  destruct H3 as [H3 H4]. split; [by eapply doomed_suffix|done].
Qed.

Lemma wp_ask {A} (f : World -> A) (Q : A -> World -> Prop) C w : Q (f w) w -> wp (ask f) Q C w.
Proof. intros H. by split. Qed.

Lemma wp_alter f (Q : unit -> World -> Prop) C w : w_faults (f w) = w_faults w -> Q tt (f w) -> wp (alter_world f) Q C w.
Proof. intros H1 H2. unfold wp, alter_world. by rewrite H1. Qed.

Lemma wp_on_writer f (Q : unit -> World -> Prop) C w : Q tt (on_writer f w) -> wp (alter_world (on_writer f)) Q C w.
Proof. by apply wp_alter. Qed.

Lemma wp_on_shared f (Q : unit -> World -> Prop) C w : Q tt (on_shared f w) -> wp (alter_world (on_shared f)) Q C w.
Proof. by apply wp_alter. Qed.

Lemma wp_and_then {A B} (m : io A) (k : A -> io B) Q C w :
  wp m (fun r w' => match r with Ok a => wp (k a) Q C w' | Err e => Q (Err e) w' end) C w -> wp (x ←? m; k x) Q C w.
Proof.
  intros H. unfold and_then. apply fwp_bind. eapply fwp_mono; [exact H| |done]. intros [a|e] w' _ Hr; [done|]. by apply fwp_ret.
Qed.

(** ** Steps on files *)

(** The step leaves the writer alone; it ends with [Q], or it fails or is killed with [P]; a
    failure is one of a call's, or [B]. *)
Definition fsp {A} (B : Prop) (m : io A) (fs : Fs) (Q : A -> Fs -> Prop) (P : Fs -> Prop) : Prop :=
  forall w, w_fs w = fs ->
  wp m (fun r w' => w_writer w' = w_writer w /\ w_shared w' = w_shared w /\ w_answers w' = w_answers w /\
                    match r with Ok a => Q a (w_fs w') | Err _ => P (w_fs w') /\ (blame w \/ B) end) P w.

Lemma fsp_mono {A} (B B' : Prop) (m : io A) fs (Q Q' : A -> Fs -> Prop) (P P' : Fs -> Prop) :
  fsp B m fs Q P -> (B -> B') -> (forall a fs', Q a fs' -> Q' a fs') -> (forall fs', P fs' -> P' fs') -> fsp B' m fs Q' P'.
Proof.
  intros H HB HQ HP w Hw. eapply fwp_mono; [by apply H| |done].
  intros [a|e] w' _ (E1 & E2 & E3 & Hr); do 3 (split; [done|]); [by apply HQ|]. destruct Hr as [Hp [Hb|Hb]]; auto.
Qed.

Lemma fsp_ret {A} B (a : A) fs (Q : A -> Fs -> Prop) P : Q a fs -> fsp B (mret (Ok a)) fs Q P.
Proof. intros H w Hw. apply fwp_ret. by rewrite Hw. Qed.

Lemma fsp_err {A} (B : Prop) e fs (Q : A -> Fs -> Prop) (P : Fs -> Prop) : B -> P fs -> fsp B (mret (Err e)) fs Q P.
Proof. intros Hb H w Hw. apply fwp_ret. rewrite Hw. split_and!; auto. Qed.

Lemma fsp_bind {A A'} B (m : io A) (k : A -> io A') fs Q P :
  fsp B m fs (fun a fs' => fsp B (k a) fs' Q P) P -> fsp B (x ←? m; k x) fs Q P.
Proof.
  intros H w Hw. apply wp_and_then. eapply fwp_mono; [by apply H| |done].
  intros [a|e] w' Hs (E1 & E2 & E3 & Hr); [|by do 3 (split; [done|])]. eapply fwp_mono; [by apply Hr| |done].
  intros r w2 _ (F1 & F2 & F3 & Hr2). rewrite F1, F2, F3. do 3 (split; [done|]). destruct r; [done|].
  destruct Hr2 as [Hp [Hb|Hb]]; split; auto. left. by eapply blame_suffix.
Qed.

Lemma fsp_call {A} (B : Prop) (good : Fs -> result A IoError * Fs) part fs (Q : A -> Fs -> Prop) (P : Fs -> Prop) :
  match (good fs).1 with Ok a => Q a (good fs).2 | Err _ => P (good fs).2 /\ B end ->
  (forall n, P (part n fs)) -> fsp B (call good part) fs Q P.
Proof.
  intros Hg Hp w <-. unfold wp, call. destruct (w_faults w) as [|[|n|n] l] eqn:Ef; cbn.
  - destruct (good (w_fs w)) as [r fs']. cbn in *. split; [done|]. do 3 (split; [done|]). destruct r; naive_solver.
  - destruct (good (w_fs w)) as [r fs']. cbn in *. split; [by apply suffix_cons_r|]. do 3 (split; [done|]). destruct r; naive_solver.
  - split; [by apply suffix_cons_r|]. do 4 (split; [done|]). left. exists n. rewrite Ef. by left.
  - split; [by apply suffix_cons_r|]. split; [exists n; rewrite Ef; by left|done].
Qed.

Lemma fsp_encoded (B : Prop) r fs (Q : bytes -> Fs -> Prop) (P : Fs -> Prop) :
  match r with Ok s => Q s fs | Err _ => P fs /\ B end -> fsp B (encoded r) fs Q P.
Proof. destruct r; [by apply fsp_ret|]. intros [H1 H2]. by apply fsp_err. Qed.

(** ** Names *)

Lemma suffix4_ne (a b s t : bytes) : length s = 4 -> length t = 4 -> s <> t -> a ++ s <> b ++ t.
Proof. intros H1 H2 Hne E. apply Hne. by apply app_inj_2 in E as [_ ->]; [|by rewrite H1, H2]. Qed.

Lemma meta_name_end rid : meta_name rid = (rid ++ bs ".meta.") ++ bs "json".
Proof. unfold meta_name. by rewrite <- app_assoc. Qed.
Lemma snap_name_end rid g : snap_name rid g = (rid ++ bs "." ++ dec g ++ bs ".") ++ bs "snap".
Proof. unfold snap_name. by rewrite <- !app_assoc. Qed.
Lemma log_name_end rid g : log_name rid g = (rid ++ bs "." ++ dec g) ++ bs ".log".
Proof. unfold log_name. by rewrite <- !app_assoc. Qed.

Ltac name_ends := rewrite ?meta_name_end, ?snap_name_end, ?log_name_end; by apply suffix4_ne.

Lemma tmp_meta n rid : tmp_of n <> meta_name rid.
Proof. unfold tmp_of. name_ends. Qed.
Lemma tmp_snap n rid g : tmp_of n <> snap_name rid g.
Proof. unfold tmp_of. name_ends. Qed.
Lemma tmp_log n rid g : tmp_of n <> log_name rid g.
Proof. unfold tmp_of. name_ends. Qed.
Lemma snap_meta rid g rid' : snap_name rid g <> meta_name rid'.
Proof. name_ends. Qed.
Lemma log_meta rid g rid' : log_name rid g <> meta_name rid'.
Proof. name_ends. Qed.
Lemma snap_log rid g rid' g' : snap_name rid g <> log_name rid' g'.
Proof. name_ends. Qed.

Lemma snap_snap rid g g' : g <> g' -> snap_name rid g <> snap_name rid g'.
Proof.
  intros Hne E. unfold snap_name in E. do 2 apply app_inv_head in E. apply app_inv_tail in E. by apply dec_digits_inj in E.
Qed.
Lemma log_log rid g g' : g <> g' -> log_name rid g <> log_name rid g'.
Proof.
  intros Hne E. unfold log_name in E. do 2 apply app_inv_head in E. apply app_inv_tail in E. by apply dec_digits_inj in E.
Qed.

(** Names of one rid and of another. *)
Definition of_rid (rid name : bytes) : Prop := exists s, name = rid ++ bs "." ++ s.

Lemma is_rid_length rid : is_rid rid = true -> length rid = 16.
Proof. unfold is_rid. intros H. apply andb_prop in H as [H _]. by apply Nat.eqb_eq in H. Qed.

Lemma of_rid_inj rid rid' name : is_rid rid = true -> is_rid rid' = true -> of_rid rid name -> of_rid rid' name -> rid = rid'.
Proof.
  intros H1%is_rid_length H2%is_rid_length [s ->] [s' E]. by apply app_inj_1 in E as [-> _]; [|by rewrite H1, H2].
Qed.

Lemma of_rid_meta rid : of_rid rid (meta_name rid).
Proof. by eexists. Qed.
Lemma of_rid_snap rid g : of_rid rid (snap_name rid g).
Proof. by eexists. Qed.
Lemma of_rid_log rid g : of_rid rid (log_name rid g).
Proof. by eexists. Qed.
Lemma of_rid_tmp rid name : of_rid rid name -> of_rid rid (tmp_of name).
Proof. intros [s ->]. exists (s ++ bs ".tmp"). unfold tmp_of. by rewrite <- !app_assoc. Qed.

(** ** Making files *)

Section files.
Context (nm : bytes -> Prop) (ino : nat -> Prop) (fs0 : Fs).

(** [nm] and [ino] are as they were at [fs0]. *)
Definition kept (fs : Fs) : Prop :=
  fs_wf fs /\ spares nm ino fs0 fs /\ forall i, ino i -> fs_inodes fs !! i = fs_inodes fs0 !! i.

Lemma kept_step fs fs' :
  kept fs -> fs_wf fs' -> spares nm ino fs fs' -> (forall i, ino i -> fs_inodes fs' !! i = fs_inodes fs !! i) -> kept fs'.
Proof.
  intros (H1 & H2 & H3) H4 H5 H6. split_and!; [done|by eapply spares_trans|]. intros i Hi. by rewrite H6, H3.
Qed.

Lemma kept_refl : fs_wf fs0 -> kept fs0.
Proof. intros H. split_and!; [done|apply spares_refl|done]. Qed.

Context (Hino : forall i, ino i -> i < fs_next fs0).

Lemma kept_old fs i : kept fs -> ino i -> i < fs_next fs.
Proof. intros (_ & [_ _ H] & _) Hi. specialize (Hino i Hi). lia. Qed.

Lemma kept_with_inode fs i n : kept fs -> ~ ino i -> i < fs_next fs -> i_synced n <= length (i_data n) -> kept (with_inode i n fs).
Proof.
  intros K Hi Hn Hs. pose proof K as [Hw _]. apply (kept_step fs); [done|by apply wf_inode|by apply spares_inode|].
  intros j Hj. unfold with_inode; cbn. apply lookup_insert_ne. by intros ->.
Qed.

Lemma kept_write fs i s : kept fs -> ~ ino i -> kept (fs_write i s fs).
Proof.
  intros Hk Hi. unfold fs_write. destruct (fs_inodes fs !! i) as [n|] eqn:E; [|done]. pose proof Hk as [Hw _].
  apply Hw in E as [E1 E2]. apply kept_with_inode; cbn; [done..|]. rewrite length_app. lia.
Qed.
Lemma kept_sync fs i : kept fs -> ~ ino i -> kept (fs_sync i fs).
Proof.
  intros Hk Hi. unfold fs_sync. destruct (fs_inodes fs !! i) as [n|] eqn:E; [|done]. pose proof Hk as [Hw _].
  apply Hw in E as [E1 E2]. destruct (i_lost n); [done|]. by apply kept_with_inode.
Qed.
Lemma kept_lose fs i : kept fs -> ~ ino i -> kept (fs_lose i fs).
Proof.
  intros Hk Hi. unfold fs_lose. destruct (fs_inodes fs !! i) as [n|] eqn:E; [|done]. pose proof Hk as [Hw _].
  apply Hw in E as [E1 E2]. by apply kept_with_inode.
Qed.

(** File [i] of name [tmp] holds [s], not yet safe. *)
Definition fresh (i : nat) (tmp s : bytes) (fs : Fs) : Prop :=
  visible fs !! tmp = Some i /\ exists k, fs_inodes fs !! i = Some (mkInode s k false).

Lemma fsp_create B name fs (Q : nat -> Fs -> Prop) :
  kept fs -> ~ nm name ->
  (forall fs', kept fs' -> fresh (fs_next fs) name [] fs' -> fs_next fs' = S (fs_next fs) ->
     (forall n, n <> name -> visible fs' !! n = visible fs !! n) -> Q (fs_next fs) fs') ->
  fsp B (create_private name) fs Q kept.
Proof.
  intros Hk Hn HQ. assert (kept (fs_create name fs).2) as Hk'.
  { pose proof Hk as [Hw _]. apply (kept_step fs); [done|by apply wf_create|by apply spares_create|].
    intros j Hj. cbn. apply lookup_insert_ne. apply (kept_old _ _ Hk) in Hj. lia. }
  apply fsp_call; [|intros n; unfold all_or_none; by destruct (n =? 0)].
  change (Q (fs_next fs) (fs_create name fs).2). apply HQ; [done| |done|].
  - split.
    + change (visible (with_op [(name, Some (fs_next fs))] fs) !! name = Some (fs_next fs)). rewrite visible_with_op.
      unfold dir_apply; cbn. unfold assign; cbn. by rewrite lookup_partial_alter_eq.
    + exists 0. cbn. by rewrite lookup_insert_eq.
  - intros n Hne. change (visible (with_op [(name, Some (fs_next fs))] fs) !! n = visible fs !! n). rewrite visible_with_op.
    unfold dir_apply, assign; cbn. by rewrite lookup_partial_alter_ne.
Qed.

Lemma fsp_write B i tmp s0 s fs (Q : unit -> Fs -> Prop) :
  kept fs -> ~ ino i -> fresh i tmp s0 fs ->
  (forall fs', kept fs' -> fresh i tmp (s0 ++ s) fs' -> fs_next fs' = fs_next fs ->
     visible fs' = visible fs -> Q tt fs') ->
  fsp B (write_all i s) fs Q kept.
Proof.
  intros Hk Hi Hf HQ. pose proof (fun x => kept_write fs i x Hk Hi) as Hk'.
  apply fsp_call; cbn; [|by intros n]. destruct Hf as (Hv & k & E). apply HQ; [done| | |].
  - unfold fs_write. rewrite E; cbn. split; [done|]. exists k. cbn. by rewrite lookup_insert_eq.
  - unfold fs_write. by rewrite E.
  - unfold fs_write. by rewrite E.
Qed.

Lemma fsp_sync_fresh B i tmp s fs (Q : unit -> Fs -> Prop) :
  kept fs -> ~ ino i -> fresh i tmp s fs ->
  (forall fs', kept fs' -> fresh i tmp s fs' -> holds fs' i s -> fs_next fs' = fs_next fs ->
     visible fs' = visible fs -> Q tt fs') ->
  fsp B (sync_all i) fs Q kept.
Proof.
  intros Hk Hi (Hv & k & E) HQ. pose proof Hk as [Hw _]. destruct (Hw _ _ E) as [E1 E2]. cbn in E2.
  apply fsp_call; cbn; unfold fs_sync, fs_lose; rewrite E; cbn.
  - apply HQ; try done.
    + by apply kept_with_inode.
    + split; [done|]. exists (length s). cbn. by rewrite lookup_insert_eq.
    + exists (length s), false. cbn. by rewrite lookup_insert_eq.
  - intros _. by apply kept_with_inode.
Qed.

Lemma fsp_sync_dir B fs (Q : unit -> Fs -> Prop) :
  kept fs -> (kept (fs_sync_dir fs) -> Q tt (fs_sync_dir fs)) -> fsp B fsync_dir fs Q kept.
Proof.
  intros Hk HQ. assert (kept (fs_sync_dir fs)) as Hk'.
  { pose proof Hk as [Hw Hs]. apply (kept_step fs); [done|done|by apply spares_sync_dir|done]. }
  apply fsp_call; cbn; [auto|]. intros q. unfold all_or_none. by destruct (q =? 0).
Qed.

Lemma fsp_remove B name fs (Q : unit -> Fs -> Prop) :
  kept fs -> ~ nm name -> (forall fs', kept fs' -> Q tt fs') -> fsp B (remove_if_exists name) fs Q kept.
Proof.
  intros Hk Hn HQ. assert (kept (default fs (fs_remove name fs))) as Hk'.
  { unfold fs_remove. destruct (visible fs !! name); cbn; [|done]. pose proof Hk as [Hw Hs]. apply (kept_step fs); [done|done| |done].
    apply spares_op. intros ? v Hv. apply list_elem_of_singleton in Hv as [= -> ->]. done. }
  apply fsp_call; cbn; [auto|]. intros q. unfold all_or_none. by destruct (q =? 0).
Qed.

Lemma fsp_list_names B fs (Q : list bytes -> Fs -> Prop) :
  kept fs -> (forall l, Q l fs) -> fsp B list_names fs Q kept.
Proof. intros Hk HQ. apply fsp_call; cbn; [apply HQ|done]. Qed.
End files.
End wp.
