(* ===== verification/RecoveryDisk.v ===== *)
(** * The editor daemon's recovery files: what the disk promises

    The disk promises a text of a rid when every value its meta's name may have after a crash is
    a generation whose snapshot and log are safe, and every state a crash may leave of that log
    replays to a text that will do.  Then [load_rid] brings such a text back.  Files that are not
    touched keep the promise; a finished switch adds a generation to it. *)

From S2P Require Import Prelude Utf8 EditBase Ot GapBuffer Text Buffer Str BTree MirrorTypes RecoveryFs Recovery RecoveryLoad RecoveryWp.

#[global] Arguments MAX_BUFFER_BYTES : simpl never.
#[global] Arguments LOG_READ_MAX : simpl never.
#[global] Arguments META_MAX_BYTES : simpl never.
#[global] Arguments Z.to_nat : simpl never.

(** A generation: its number and files. *)
Record Gen := mkGen { gn_gen : N; gn_meta : nat; gn_snap : nat; gn_log : nat }.

Section disk.
Context {G : Type} {TS : TextStore G} {ENV : RecoveryEnv}.

Lemma fsp_weaken {A} B (m : io A) fs Q (P P' : Fs -> Prop) :
  fsp B m fs Q P -> (forall fs', P fs' -> P' fs') -> fsp B m fs Q P'.
Proof. intros H HP. by eapply fsp_mono. Qed.

Lemma fsp_rename B a b i fs (Q : unit -> Fs -> Prop) (P : Fs -> Prop) :
  let fs' := with_op [(a, None); (b, Some i)] fs in
  visible fs !! a = Some i -> P fs -> P fs' -> Q tt fs' -> fsp B (rename a b) fs Q P.
Proof.
  intros fs' Hv H1 H2 H3. assert (fs_rename a b fs = Some fs') as E by (unfold fs_rename; by rewrite Hv).
  apply fsp_call; [cbv beta; by rewrite E|]. intros n. unfold all_or_none. rewrite E. by destruct (n =? 0).
Qed.

Lemma renamed_visible a b i fs : visible (with_op [(a, None); (b, Some i)] fs) !! b = Some i.
Proof. rewrite visible_with_op. unfold dir_apply, assign; cbn. by rewrite lookup_partial_alter_eq. Qed.

(** ** Snapshots, logs and metas *)

Definition snap_header (g R : N) (t : bytes) : SnapHeader := mkSnapHeader SNAP_FORMAT g R (N.of_nat (length t)) (to_hex (blake3 t)).

(** [s] is the data of file [i], of that name. *)
Definition made (name s : bytes) (i : nat) (fs : Fs) : Prop := visible fs !! name = Some i /\ holds fs i s /\ i < fs_next fs.

Lemma write_snap_spec (B : Prop) nm ino fs rid g R t (Q : unit -> Fs -> Prop) :
  fs_wf fs -> (forall i, ino i -> i < fs_next fs) ->
  ~ nm (snap_name rid g) -> ~ nm (tmp_of (snap_name rid g)) ->
  (forall e, enc_header (snap_header g R t) = Err e -> B) ->
  (forall fs' h, kept nm ino fs fs' -> enc_header (snap_header g R t) = Ok h -> made (snap_name rid g) (h ++ NL :: t) (fs_next fs) fs' ->
     Q tt fs') ->
  fsp B (write_snap rid g R t) fs Q (kept nm ino fs).
Proof.
  intros Hw Hino Hn1 Hn2 HB HQ. set (i := fs_next fs). set (tmp := tmp_of (snap_name rid g)).
  assert (~ ino i) as Hi by (intros K%Hino; lia).
  assert (kept nm ino fs fs) as K0 by (by apply kept_refl). unfold write_snap. fold tmp.
  apply fsp_bind, (fsp_create nm ino fs); [done..|]. fold i. intros fs1 K1 F1 N1 _.
  apply fsp_bind, fsp_encoded. fold (snap_header g R t). destruct (enc_header (snap_header g R t)) as [h|e] eqn:Eh; [|split; [done|by eapply HB]].
  apply fsp_bind. eapply (fsp_write nm ino fs); [done..|]. intros fs2 K2 F2 N2 _.
  apply fsp_bind. eapply (fsp_write nm ino fs); [done..|]. intros fs3 K3 F3 N3 _.
  apply fsp_bind. eapply (fsp_write nm ino fs); [done..|]. intros fs4 K4 F4 N4 _.
  apply fsp_bind. eapply (fsp_sync_fresh nm ino fs); [done..|]. intros fs5 K5 F5 H5 N5 _.
  set (fs6 := with_op [(tmp, None); (snap_name rid g, Some i)] fs5).
  assert (kept nm ino fs fs6) as K6.
  { apply (kept_step nm ino fs fs5); [done|by apply K5| |done]. apply spares_op. intros n v [[= -> ->]|Hv%list_elem_of_singleton]%elem_of_cons; [done|].
    by injection Hv as -> ->. }
  apply (fsp_rename _ _ _ i); [apply F5|done|done|]. apply (HQ fs6 h); [done|done|]. split_and!.
  - apply renamed_visible.
  - rewrite app_nil_l, <- app_assoc in H5. exact H5.
  - unfold fs6, i; cbn. rewrite N5, N4, N3, N2, N1. lia.
Qed.

(** After the meta was written: its name may be the new file or what it was. *)
Definition meta_written nm ino (fs : Fs) (rid raw : bytes) (fs' : Fs) : Prop :=
  kept nm ino fs fs' /\
  ((forall v, may_be fs' (meta_name rid) v -> may_be fs (meta_name rid) v) \/
   (holds fs' (fs_next fs) raw /\ forall v, may_be fs' (meta_name rid) v -> may_be fs (meta_name rid) v \/ v = Some (fs_next fs))).

Lemma write_meta_spec (B : Prop) nm ino fs rid meta (Q : unit -> Fs -> Prop) (P : Fs -> Prop) :
  fs_wf fs -> (forall i, ino i -> i < fs_next fs) ->
  ~ nm (meta_name rid) -> ~ nm (tmp_of (meta_name rid)) ->
  (forall e, enc_meta meta = Err e -> B) ->
  (forall fs' raw, (exists e, enc_meta meta = Err e) \/ enc_meta meta = Ok raw -> meta_written nm ino fs rid raw fs' -> P fs') ->
  (forall fs' raw, enc_meta meta = Ok raw -> meta_written nm ino fs rid raw fs' -> made (meta_name rid) raw (fs_next fs) fs' -> Q tt fs') ->
  fsp B (write_meta rid meta) fs Q P.
Proof.
  intros Hw Hino Hn1 Hn2 HB HP HQ. set (i := fs_next fs). set (tmp := tmp_of (meta_name rid)). set (nm' := fun n => nm n \/ n = meta_name rid).
  assert (~ ino i) as Hi by (intros K%Hino; lia).
  assert (~ nm' tmp) as Hn by (intros [K|K]; [done|by apply tmp_meta in K]).
  assert (kept nm' ino fs fs) as K0 by (by apply kept_refl).
  assert (forall fs' raw, kept nm' ino fs fs' -> meta_written nm ino fs rid raw fs') as Hbefore.
  { intros fs' raw (W & S & I). split; [split_and!; [done| |done]|].
    - eapply spares_weaken; [| |exact S]; [|done]. intros n Hx. by left.
    - left. intros v Hv. eapply sp_names; [exact S| |exact Hv]. by right. }
  assert (forall fs', kept nm' ino fs fs' -> P fs') as HP'.
  { intros fs' K. destruct (enc_meta meta) as [raw|e] eqn:E; [apply (HP fs' raw)|apply (HP fs' [])]; eauto. }
  unfold write_meta. fold tmp.
  apply fsp_bind. eapply fsp_weaken; [|exact HP']. apply (fsp_create nm' ino fs); [done..|]. fold i. intros fs1 K1 F1 N1 _.
  apply fsp_bind, fsp_encoded. destruct (enc_meta meta) as [raw|e] eqn:Eh; [|split; [auto|by eapply HB]].
  apply fsp_bind. eapply fsp_weaken; [|exact HP']. eapply (fsp_write nm' ino fs); [done..|]. intros fs2 K2 F2 N2 _.
  apply fsp_bind. eapply fsp_weaken; [|exact HP']. eapply (fsp_sync_fresh nm' ino fs); [done..|]. intros fs3 K3 F3 H3 N3 _.
  set (fs4 := with_op [(tmp, None); (meta_name rid, Some i)] fs3). rewrite app_nil_l in *.
  assert (meta_written nm ino fs rid raw fs4) as K4.
  { destruct (Hbefore fs3 raw K3) as [K3a K3b]. split.
    - apply (kept_step nm ino fs fs3); [done|by apply K3| |done]. apply spares_op. intros n v [[= -> ->]|Hv%list_elem_of_singleton]%elem_of_cons; [done|].
      by injection Hv as -> ->.
    - right. split; [exact H3|]. intros v [Hv|Hv]%may_be_with_op; [left; eapply sp_names; [apply K3|by right|done]|].
      apply elem_of_cons in Hv as [[= E _]|Hv%list_elem_of_singleton]; [by destruct (tmp_meta (meta_name rid) rid)|].
      injection Hv as ->. by right. }
  apply (fsp_rename _ _ _ i); [apply F3|by apply HP'|by eapply HP; [right|]|]. apply (HQ fs4 raw); [done|done|]. split_and!.
  - apply renamed_visible.
  - exact H3.
  - unfold fs4, i; cbn. rewrite N3, N2, N1. lia.
Qed.

(** ** The promise *)

Section promise.
Context (rid : bytes).

(** The log data [s] replays, over text [t] of revision [R], to what [Good] accepts. *)
Definition recovers (Good : N -> bytes -> Prop) (g R : N) (t : Text G) (s : bytes) : Prop :=
  exists t' rev d, replay_log (length (take_capped LOG_READ_MAX s)) t g R (take_capped LOG_READ_MAX s) = Some (t', rev, d) /\
                   Good rev (read t' 0 (len t') []).

Definition snap_cap : Z := MAX_BUFFER_BYTES + Z.of_nat SNAP_HEADER_MAX.

Definition snap_ok (fs : Fs) (p : Gen) (R : N) (t : Text G) : Prop :=
  exists raw, holds fs (gn_snap p) raw /\ (Z.of_nat (length raw) <= snap_cap)%Z /\ parse_snap (gn_gen p) raw = Ok (R, t).

Definition data_ok (Good : N -> bytes -> Prop) (fs : Fs) (p : Gen) : Prop :=
  settled fs (snap_name rid (gn_gen p)) (Some (gn_snap p)) /\ settled fs (log_name rid (gn_gen p)) (Some (gn_log p)) /\
  exists R t n, snap_ok fs p R t /\ fs_inodes fs !! gn_log p = Some n /\ forall s, torn n s -> recovers Good (gn_gen p) R t s.

Definition meta_ok (fs : Fs) (p : Gen) : Prop :=
  exists raw m, holds fs (gn_meta p) raw /\ (Z.of_nat (length raw) <= META_MAX_BYTES)%Z /\ parse_meta rid raw = Ok m /\
                mt_generation m = gn_gen p.

Definition promise (on : Prop) (Good : N -> bytes -> Prop) (fs : Fs) (ps : list Gen) : Prop :=
  (on -> forall v, may_be fs (meta_name rid) v -> exists p, p ∈ ps /\ v = Some (gn_meta p)) /\
  forall p, p ∈ ps -> meta_ok fs p /\ data_ok Good fs p.

Definition data_names (ps : list Gen) (n : bytes) : Prop :=
  exists p, p ∈ ps /\ (n = snap_name rid (gn_gen p) \/ n = log_name rid (gn_gen p)).
Definition all_names (ps : list Gen) (n : bytes) : Prop := n = meta_name rid \/ data_names ps n.
Definition gen_files (ps : list Gen) (i : nat) : Prop := exists p, p ∈ ps /\ (i = gn_meta p \/ i = gn_snap p \/ i = gn_log p).

Lemma all_names_of_rid ps n : all_names ps n -> of_rid rid n.
Proof. intros [->|(p & _ & [->| ->])]; [apply of_rid_meta|apply of_rid_snap|apply of_rid_log]. Qed.

Lemma data_names_meta ps : ~ data_names ps (meta_name rid).
Proof. intros (p & _ & [E|E]); symmetry in E; [by apply snap_meta in E|by apply log_meta in E]. Qed.

Lemma all_names_tmp ps n : ~ all_names ps (tmp_of n).
Proof. intros [E|(p & _ & [E|E])]; [by apply tmp_meta in E|by apply tmp_snap in E|by apply tmp_log in E]. Qed.

Lemma all_names_fresh ps g : (forall p, p ∈ ps -> gn_gen p <> g) -> ~ all_names ps (snap_name rid g) /\ ~ all_names ps (log_name rid g).
Proof.
  intros H. split; (intros [E|(p & Hp & [E|E])]; symmetry in E || idtac).
  - by apply eq_sym, snap_meta in E.
  - apply snap_snap in E; [done|by apply H].
  - by apply eq_sym, snap_log in E.
  - by apply eq_sym, log_meta in E.
  - by apply snap_log in E.
  - apply log_log in E; [done|by apply H].
Qed.

Lemma recovers_mono (Good Good' : N -> bytes -> Prop) g R t s : (forall r x, Good r x -> Good' r x) -> recovers Good g R t s -> recovers Good' g R t s.
Proof. intros H (t' & rev & d & E & HG). exists t', rev, d. auto. Qed.

Lemma promise_mono (on on' : Prop) (Good Good' : N -> bytes -> Prop) fs ps :
  (on' -> on) -> (forall r x, Good r x -> Good' r x) -> promise on Good fs ps -> promise on' Good' fs ps.
Proof.
  intros Hon HG [H1 H2]. split; [auto|]. intros p Hp. destruct (H2 p Hp) as [Hm (S1 & S2 & R & t & n & S3 & S4 & S5)].
  split; [done|]. split_and!; [done..|]. exists R, t, n. split_and!; [done..|]. intros s Hs. eapply recovers_mono; [exact HG|by apply S5].
Qed.

Section spared.
Context nm (ino : nat -> Prop) fs fs' (Sp : spares nm ino fs fs').

Lemma snap_ok_kept p R t : ino (gn_snap p) -> snap_ok fs p R t -> snap_ok fs' p R t.
Proof. intros Hi (raw & H1 & H2 & H3). exists raw. split_and!; [|done..]. by eapply spares_holds. Qed.

Lemma meta_ok_kept p : ino (gn_meta p) -> meta_ok fs p -> meta_ok fs' p.
Proof. intros Hi (raw & m & H1 & H2). exists raw, m. split; [|done]. by eapply spares_holds. Qed.

Lemma data_ok_kept Good p :
  nm (snap_name rid (gn_gen p)) -> nm (log_name rid (gn_gen p)) -> ino (gn_snap p) -> ino (gn_log p) ->
  data_ok Good fs p -> data_ok Good fs' p.
Proof.
  intros N1 N2 I1 I2 (S1 & S2 & R & t & n & S3 & S4 & S5). split_and!.
  - by eapply spares_settled.
  - by eapply spares_settled.
  - destruct (sp_files _ _ _ _ Sp _ n I2 S4) as (k & l & E & L). exists R, t, (mkInode (i_data n) k l). split_and!; [by apply snap_ok_kept|done|].
    intros s Hs. apply S5. destruct n as [d k0 l0]. eapply torn_mono; [exact L|exact Hs].
Qed.
End spared.

Lemma promise_kept on Good fs fs' ps : spares (all_names ps) (gen_files ps) fs fs' -> promise on Good fs ps -> promise on Good fs' ps.
Proof.
  intros K [H1 H2]. split.
  - intros Hon v Hv. apply (H1 Hon). eapply sp_names; [exact K|by left|done].
  - intros p Hp. destruct (H2 p Hp) as [Hm Hd]. split.
    + eapply meta_ok_kept; [exact K|exists p; auto|done].
    + eapply data_ok_kept; [exact K|right; exists p; auto..|exists p; auto|exists p; auto|done].
Qed.

(** The files exist. *)
Lemma promise_files on Good fs ps i : fs_wf fs -> promise on Good fs ps -> gen_files ps i -> i < fs_next fs.
Proof.
  intros Hw [_ H] (p & Hp & Hi). destruct (H p Hp) as [(raw & m & (k & l & E & _) & _) (_ & _ & R & t & n & (raw' & (k' & l' & E' & _) & _) & E2 & _)].
  destruct Hi as [->|[->| ->]]; by eapply Hw.
Qed.

(** What [load_rid] brings back after a crash. *)
Lemma read_capped_ok name cap over i s w :
  visible (w_fs w) !! name = Some i -> (exists k l, fs_inodes (w_fs w) !! i = Some (mkInode s k l)) ->
  (over = true -> (Z.of_nat (length s) <= cap)%Z) -> w_faults w = [] ->
  read_capped name cap over w = (w, Some (Ok (take_capped cap s))).
Proof.
  intros Hv (k & l & E) Hc Hf. unfold read_capped, call. rewrite Hf. unfold fs_read. rewrite Hv. cbn. rewrite E. cbn.
  destruct w as [fs fl wr sh an]. cbn in *. subst fl. destruct over; cbn; [|done]. destruct (Z.ltb_spec cap (Z.of_nat (length s))); [|done].
  specialize (Hc eq_refl). lia.
Qed.

Lemma take_capped_fits cap s : (Z.of_nat (length s) <= cap)%Z -> take_capped cap s = s.
Proof. intros H. unfold take_capped. destruct (Z.ltb_spec cap (Z.of_nat (length s))); [lia|done]. Qed.

Lemma promise_loads Good fs fs' ps w :
  promise True Good fs ps -> crashes_to fs fs' -> w_fs w = fs' -> w_faults w = [] ->
  exists l, load_rid rid w = (w, Some (Ok l)) /\ Good (ld_rev l) (ld_text l).
Proof.
  intros [H1 H2] Hc Hw Hf. pose proof (crash_visible _ _ Hc) as Hv.
  destruct (H1 I _ (crash_may_be _ _ (meta_name rid) Hc)) as (p & Hp & Em).
  destruct (H2 p Hp) as [(raw & m & M1 & M2 & M3 & M4) (S1 & S2 & R & t & n & (sraw & Q1 & Q2 & Q3) & L1 & L2)].
  apply (crash_holds _ _ _ _ Hc) in M1 as (k1 & l1 & M1 & _). apply (crash_holds _ _ _ _ Hc) in Q1 as (k2 & l2 & Q1 & _).
  destruct (crash_file _ _ _ _ Hc L1) as (s & Ts & L3). destruct (L2 s Ts) as (t' & rev & d & Er & HG).
  assert (visible fs' !! snap_name rid (gn_gen p) = Some (gn_snap p)) as V2 by (rewrite Hv; apply S1, crash_may_be, Hc).
  assert (visible fs' !! log_name rid (gn_gen p) = Some (gn_log p)) as V3 by (rewrite Hv; apply S2, crash_may_be, Hc).
  eexists (mkLoadedRid rid m (read t' 0 (len t') []) rev _ d). split; [|exact HG].
  unfold load_rid, mbind, W_bind. rewrite (read_capped_ok _ _ _ (gn_meta p) raw); [|by rewrite Hw, Hv|rewrite Hw; eauto|done|done].
  rewrite take_capped_fits by done. rewrite M3, M4.
  rewrite (read_capped_ok _ _ _ (gn_snap p) sraw); [|by rewrite Hw|rewrite Hw; eauto|done|done].
  rewrite take_capped_fits by done. rewrite Q3.
  rewrite (read_capped_ok _ _ _ (gn_log p) s); [|by rewrite Hw|rewrite Hw; eauto|done|done].
  unfold lift. rewrite Er. reflexivity.
Qed.
End promise.
End disk.
