(* ===== verification/RecoveryReplay.v ===== *)
(** * The editor daemon's recovery files: what a torn log replays to

    The history a log records, the lines that record it, and the replay of any state a crash may
    leave of them: a text of the history, at least as new as the lines that were safe.  Also the
    hypotheses of the recovery theorems: what serde and BLAKE3 promise, memory, and limits. *)

From S2P Require Import Prelude Utf8 EditBase Ot GapBuffer Memory Text Buffer Str BTree MirrorTypes RecoveryFs Recovery RecoveryLoad.
From S2P Require Import RecoveryWp RecoveryDisk.

(** ** What is assumed of the environment *)

Definition meta_strings (m : RecoveryMeta) : list bytes :=
  [mt_format m; mt_rid m; mt_language m; mt_epoch m; mt_buffer m] ++
  omap id [mt_path m; mt_opened_as m; ba_blake3 <$> mt_base m].
Definition header_strings (h : SnapHeader) : list bytes := [hd_format h; hd_blake3 h].
Definition record_strings (r : LogRecord) : list bytes := rc_h r :: map e_insert (rc_edits r).

(** serde_json writes structs of numbers, strings and lists, on one line, and reads them back; what
    it reads are strings; a hexadecimal digest is ASCII. *)
Class RecoveryLaws {ENV : RecoveryEnv} := {
  meta_json m : Forall utf8 (meta_strings m) -> exists s, enc_meta m = Ok s /\ dec_meta s = Some m;
  header_json h : Forall utf8 (header_strings h) -> exists s, enc_header h = Ok s /\ dec_header s = Some h /\ NL ∉ s;
  record_json r : Forall utf8 (record_strings r) -> exists s, enc_record r = Ok s /\ dec_record s = Some r /\ NL ∉ s;
  record_utf8 s r : dec_record s = Some r -> Forall utf8 (record_strings r);
  hex_ascii s : forallb seq1 (to_hex s) = true }.

(** ** Texts and edits within the limits of a buffer *)

Definition text_fits (t : bytes) : Prop :=
  utf8 t /\ (Z.of_nat (length t) <= MAX_BUFFER_BYTES)%Z /\ (Z.of_nat (S (count_newlines t)) <= MAX_LINES)%Z.

Definition edits_fit (t : bytes) (es : list Edit) : Prop :=
  inserts_utf8 es /\ canonical_seq (length t) es /\ base_boundaries t es /\ seq_within t es.

(** [T r] is the text of revision [r], reached by the edits [E r]. *)
Definition history (T : N -> bytes) (E : N -> list Edit) : Prop :=
  forall r, text_fits (T r) /\ edits_fit (T r) (E (r + 1)%N) /\ T (r + 1)%N = apply_seq (T r) (E (r + 1)%N).

Lemma position_nl_at a b : NL ∉ a -> position_nl (a ++ NL :: b) = Some (length a).
Proof.
  induction a as [|x a IH]; intros H; cbn; [done|]. apply not_elem_of_cons in H as [H1 H2]. rewrite IH by done.
  destruct (is_nl x) eqn:E; [|done]. apply Byte.byte_dec_bl in E. by subst.
Qed.

Lemma position_nl_none a : NL ∉ a -> position_nl a = None.
Proof.
  induction a as [|x a IH]; intros H; cbn; [done|]. apply not_elem_of_cons in H as [H1 H2]. rewrite IH by done.
  destruct (is_nl x) eqn:E; [|done]. apply Byte.byte_dec_bl in E. by subst.
Qed.

Lemma zeros_no_nl z : NL ∉ replicate z x00.
Proof. intros [H _]%elem_of_replicate. done. Qed.

Lemma take_no_nl q a : NL ∉ a -> NL ∉ take q a.
Proof. intros H K. apply H. by eapply elem_of_take in K as (? & ?%elem_of_list_lookup_2 & _) || (rewrite <- (take_drop q a); apply elem_of_app; by left). Qed.

Section replay.
Context {G : Type} {TS : TextStore G} {SL : TextStoreLaws G} {ENV : RecoveryEnv} {RL : RecoveryLaws}.
Context (granted : memory_granted G re_reserve).

Lemma from_text_ok x : text_fits x -> exists t : Text G, from_text re_reserve x = Ok t /\ text_wf t /\ text t = x.
Proof. intros (Hu & Hb & Hl). by apply from_text_granted. Qed.

Lemma prepare_fits (t : Text G) es : text_wf t -> edits_fit (text t) es ->
  exists t1 p t2, prepare re_reserve t es = (t1, Ok p) /\ commit t1 p = Some t2 /\ text_wf t2 /\ text t2 = apply_seq (text t) es.
Proof.
  intros W (Hi & Hc & Hb & Hs).
  destruct (prepare_accepts re_reserve t es) as (t1 & p & Ep & _); try done.
  pose proof (prepare_commit_exact re_reserve t es W Hi) as K. rewrite Ep in K. destruct K as (_ & _ & t2 & C & W2 & E2 & _).
  by exists t1, p, t2.
Qed.

(** ** Any log *)

(** Whatever the log holds, its replay ends, without the panic of [commit], in a text within the limits. *)
Lemma replay_log_total (g : N) fuel : forall (t : Text G) R s, text_wf t -> length s <= fuel ->
  exists t' rev d, replay_log fuel t g R s = Some (t', rev, d) /\ text_wf t'.
Proof.
  clear granted. induction fuel as [|fuel IH]; intros t R s W Hl.
  { destruct s; [|cbn in Hl; lia]. by exists t, R, 0%N. }
  destruct s as [|b s]; [by exists t, R, 0%N|]. cbn [replay_log]. destruct (position_nl (b :: s)) as [e|] eqn:Ep; [|by exists t, R, 1%N].
  assert (exists t1 ok, replay_line t g (R + 1) (take e (b :: s)) = Some (t1, ok) /\ text_wf t1) as (t1 & ok & -> & W1).
  { unfold replay_line. destruct (dec_record _) as [r|] eqn:Er; [|by exists t, false].
    destruct (negb (rc_rev r =? R + 1)%N); [by exists t, false|]. destruct (negb (bool_decide _)); [by exists t, false|].
    apply record_utf8, Forall_cons in Er as [_ Hi]. rewrite Forall_map in Hi.
    pose proof (prepare_commit_exact re_reserve t (rc_edits r) W Hi) as K. destruct (prepare _ _ _) as [t1 [p|e0]]; destruct K as (W1 & _ & K); [|by exists t1, false].
    destruct K as (t2 & -> & W2 & _). by exists t2, true. }
  cbn. destruct ok; [|by eexists _, _, _]. apply IH; [done|]. rewrite length_skipn. cbn [length] in Hl. lia.
Qed.

Section log.
Context (T : N -> bytes) (E : N -> list Edit) (hist : history T E) (g : N).

Definition record_of (r : N) : LogRecord := mkLogRecord r (E r) (record_hash g r (E r)).

(** The line that records revision [r], and the [n] lines after revision [R]. *)
Definition line (r : N) : bytes := match enc_record (record_of r) with Ok s => s ++ [NL] | Err _ => [] end.
Fixpoint lines (R : N) (n : nat) : bytes := match n with 0 => [] | S n => line (R + 1) ++ lines (R + 1) n end.

Lemma line_body r : (0 < r)%N -> exists s, enc_record (record_of r) = Ok s /\ line r = s ++ [NL] /\ dec_record s = Some (record_of r) /\ NL ∉ s.
Proof.
  intros Hr. destruct (record_json (record_of r)) as (s & E1 & E2 & E3).
  - constructor; cbn.
    + unfold record_hash. apply utf8_ascii. rewrite forallb_forall. intros b Hb. apply list_elem_of_In in Hb.
      pose proof (hex_ascii (blake3 (dec g ++ [NL] ++ dec r ++ [NL] ++ enc_edits (E r)))) as K. rewrite forallb_forall in K.
      apply K, list_elem_of_In. rewrite <- (take_drop 16 (to_hex _)). apply elem_of_app. by left.
    + destruct (hist (r - 1)%N) as (_ & (Hi & _) & _). replace (r - 1 + 1)%N with r in Hi by lia.
      apply Forall_map. exact Hi.
  - exists s. unfold line. by rewrite E1.
Qed.

Lemma lines_add R n m : lines R (n + m) = lines R n ++ lines (R + N.of_nat n) m.
Proof.
  revert R; induction n as [|n IH]; intros R.
  - cbn [Nat.add lines]. by replace (R + N.of_nat 0)%N with R by lia.
  - cbn [Nat.add lines]. rewrite IH, <- app_assoc. do 3 f_equal. lia.
Qed.

Lemma lines_snoc R n : lines R (S n) = lines R n ++ line (R + N.of_nat n + 1).
Proof.
  replace (S n) with (n + 1) by lia. rewrite lines_add. cbn [lines]. by rewrite app_nil_r.
Qed.

Lemma replay_line_ok (t : Text G) R body :
  text_wf t -> text t = T R -> enc_record (record_of (R + 1)) = Ok body -> dec_record body = Some (record_of (R + 1)) ->
  exists t', replay_line t g (R + 1) body = Some (t', true) /\ text_wf t' /\ text t' = T (R + 1)%N.
Proof.
  intros W Et _ Hd. destruct (hist R) as (_ & Hf & Hn). rewrite <- Et in Hf.
  destruct (prepare_fits t _ W Hf) as (t1 & p & t2 & P1 & P2 & P3 & P4).
  exists t2. unfold replay_line. rewrite Hd. cbn [rc_rev rc_edits rc_h record_of]. rewrite N.eqb_refl. cbn [negb].
  rewrite bool_decide_true by done. cbn [negb]. rewrite P1, P2. split_and!; [done|done|]. by rewrite P4, Et, Hn.
Qed.

Lemma lines_length_mono R m0 m : m0 <= m -> length (lines R m0) <= length (lines R m).
Proof. intros H. replace m with (m0 + (m - m0)) by lia. rewrite lines_add, length_app. lia. Qed.

(** A torn log replays to a text of the history, at least as new as its complete lines. *)
Lemma replay_torn n : forall R (t : Text G) q z fuel,
  text_wf t -> text t = T R ->
  let s := take q (lines R n) ++ replicate z x00 in
  length s <= fuel ->
  exists t' m d, replay_log fuel t g R s = Some (t', (R + N.of_nat m)%N, d) /\ m <= n /\ text_wf t' /\ text t' = T (R + N.of_nat m)%N /\
    forall m0, m0 <= n -> length (lines R m0) <= q -> m0 <= m.
Proof.
  induction n as [|n IH]; intros R t q z fuel W Et s Hf.
  - exists t, 0. replace (R + N.of_nat 0)%N with R by lia. unfold s in *. clear s. cbn [lines] in *. rewrite take_nil, app_nil_l in *.
    destruct z as [|z]; cbn [replicate]; [exists 0%N; split_and!; try done; try lia; by destruct fuel|].
    rewrite length_replicate in Hf. destruct fuel as [|fuel]; [lia|]. exists 1%N. split_and!; try done; try lia.
    cbn [replay_log]. change (x00 :: replicate z x00) with (replicate (S z) x00). by rewrite position_nl_none by apply zeros_no_nl.
  - destruct (line_body (R + 1) ltac:(lia)) as (b & E1 & E2 & E3 & E4). unfold s in *. clear s. cbn [lines] in *. rewrite E2, <- app_assoc in *. cbn [app] in *.
    destruct (decide (length b < q)) as [Hq|Hq].
    + assert (take q (b ++ NL :: lines (R + 1) n) = b ++ NL :: take (q - S (length b)) (lines (R + 1) n)) as Es.
      { rewrite take_app, (take_ge b) by lia. replace (q - length b) with (S (q - S (length b))) by lia. done. }
      rewrite Es, <- app_assoc in *. cbn [app] in *. set (s' := take (q - S (length b)) (lines (R + 1) n) ++ replicate z x00) in *.
      rewrite length_app in Hf. cbn [length] in Hf. destruct fuel as [|fuel]; [lia|].
      destruct (replay_line_ok t R b W Et E1 E3) as (t1 & L1 & W1 & T1).
      destruct (IH (R + 1)%N t1 (q - S (length b)) z fuel W1 T1) as (t' & m & d & R1 & R2 & R3 & R4 & R5); [fold s'; lia|]. fold s' in R1.
      exists t', (S m), d. replace (R + N.of_nat (S m))%N with (R + 1 + N.of_nat m)%N by lia. split_and!; [|lia|done|done|].
      * assert (forall x, b ++ NL :: x <> []) as Hne by (intros x; destruct b; done).
        cbn [replay_log]. destruct (b ++ NL :: s') as [|x0 r0] eqn:Eb; [by destruct (Hne s')|]. rewrite <- Eb.
        rewrite position_nl_at by done. rewrite take_app_length.
        assert (drop (S (length b)) (b ++ NL :: s') = s') as -> by (rewrite drop_app_ge by lia; by replace (S (length b) - length b) with 1 by lia).
        rewrite L1. cbn. exact R1.
      * intros [|m0] Hm0 Hl; [lia|]. cbn [lines] in Hl. rewrite E2, !length_app in Hl. cbn [length] in Hl.
        specialize (R5 m0 ltac:(lia) ltac:(lia)). lia.
    + exists t, 0. replace (R + N.of_nat 0)%N with R by lia.
      assert (NL ∉ take q (b ++ NL :: lines (R + 1) n) ++ replicate z x00) as Hno.
      { rewrite take_app_le by lia. rewrite elem_of_app. intros [H|H]; [by eapply take_no_nl in H|by eapply zeros_no_nl]. }
      assert (forall m0, m0 <= S n -> length (lines R m0) <= q -> m0 <= 0) as Hm0.
      { intros [|m0] _ Hl; [lia|]. cbn [lines] in Hl. rewrite E2, !length_app in Hl. cbn [length] in Hl. lia. }
      destruct (take q _ ++ _) as [|x0 r0] eqn:Es; [exists 0%N; split_and!; try done; try lia; by destruct fuel|].
      rewrite <- Es in *. destruct fuel as [|fuel]; [rewrite Es in Hf; cbn in Hf; lia|]. exists 1%N. split_and!; try done; try lia.
      cbn [replay_log]. rewrite Es at 1. by rewrite position_nl_none by done.
Qed.
End log.
End replay.
