(* ===== verification/RecoveryInv.v ===== *)
(** * The editor daemon's recovery files: the invariant, and messages of other buffers

    For one rid: where its stream of messages stands ([Pos]), the revision that is safe ([floor]),
    the invariant that ties them to the writer and the files, and the frame that the messages of
    every other rid respect. *)

From S2P Require Import Prelude Utf8 EditBase Ot GapBuffer Memory Text Buffer Str BTree MirrorTypes RecoveryFs Recovery RecoveryLoad.
From S2P Require Import RecoveryWp RecoveryDisk RecoveryReplay.

(** The rid's stream: whether it has files, the generation of its last switch and the revision that
    covered, the last revision sent. *)
Record Pos := mkPos { ps_on : bool; ps_gen : N; ps_snap : N; ps_top : N }.

Section inv.
Context {G : Type} {TS : TextStore G} {SL : TextStoreLaws G} {ENV : RecoveryEnv} {RL : RecoveryLaws}.
Context (rid : bytes) (T : N -> bytes) (E : N -> list Edit).

Definition files (w : World) : gmap bytes RidFiles := wr_files (w_writer w).
Definition failing (w : World) : Prop := rid ∈ sh_failed (w_shared w).

#[export] Instance failing_dec w : Decision (failing w) := decide (rid ∈ sh_failed (w_shared w)).

(** A text of the history, between what is safe and what was sent. *)
Definition good (floor : option N) (top : N) (r : N) (x : bytes) : Prop :=
  x = T r /\ (r <= top)%N /\ forall f, floor = Some f -> (f <= r)%N.

Definition pledge (floor : option N) (top : N) (fs : Fs) (ps : list Gen) : Prop :=
  promise (G := G) rid (is_Some floor) (good floor top) fs ps.

(** The log open for a rid is no other file of the promise. *)
Definition own_logs (ps : list Gen) (w : World) : Prop :=
  forall rid' f j, files w !! rid' = Some f -> rf_log f = Some j ->
  j < fs_next (w_fs w) /\
  forall p, p ∈ ps -> j <> gn_meta p /\ j <> gn_snap p /\ (j = gn_log p -> rid' = rid /\ rf_generation f = gn_gen p).

Record base (ps : list Gen) (w : World) (pos : Pos) (floor : option N) : Prop := mkBase {
  bs_wf : fs_wf (w_fs w);
  bs_pledge : pledge floor (ps_top pos) (w_fs w) ps;
  bs_gens : forall p, p ∈ ps -> (gn_gen p <= ps_gen pos)%N;
  bs_logs : own_logs ps w;
  bs_gen : forall f, files w !! rid = Some f -> (rf_generation f <= ps_gen pos)%N;
  bs_floor : forall f, floor = Some f -> ps_on pos = true /\ (f <= ps_top pos)%N }.

(** The rid's log is good: it has every revision since the snapshot, [k] bytes of it safe. *)
Record live (ps : list Gen) (w : World) (pos : Pos) (floor : option N) (p : Gen) (f : RidFiles) (n k : nat) : Prop := mkLive {
  lv_ps : ps = [p];
  lv_files : files w !! rid = Some f;
  lv_gen : rf_generation f = gn_gen p /\ gn_gen p = ps_gen pos;
  lv_log : rf_log f = Some (gn_log p);
  lv_snap : exists t : Text G, snap_ok (w_fs w) p (ps_snap pos) t /\ text_wf t /\ text t = T (ps_snap pos);
  lv_data : fs_inodes (w_fs w) !! gn_log p = Some (mkInode (lines E (gn_gen p) (ps_snap pos) n) k false);
  lv_room : (Z.of_nat (length (lines E (gn_gen p) (ps_snap pos) n)) <= LOG_READ_MAX)%Z;
  lv_top : ps_top pos = (ps_snap pos + N.of_nat n)%N;
  lv_floor : exists m, m <= n /\ floor = Some (ps_snap pos + N.of_nat m)%N /\
                       length (lines E (gn_gen p) (ps_snap pos) m) <= k;
  lv_synced : rf_unsynced f = 0%N -> k = length (lines E (gn_gen p) (ps_snap pos) n) }.

Definition inv (ps : list Gen) (w : World) (pos : Pos) (floor : option N) : Prop :=
  base ps w pos floor /\
  (ps_on pos = true -> ~ failing w -> exists p f n k, live ps w pos floor p f n k /\
     (wr_sync_due (w_writer w) = false -> rf_unsynced f = 0%N)).

(** ** What a torn log recovers *)

Context (granted : memory_granted G re_reserve) (hist : history T E).

Lemma torn_recovers floor top g R n m q k l (t : Text G) s :
  text_wf t -> text t = T R ->
  (Z.of_nat (length (lines E g R n)) <= LOG_READ_MAX)%Z -> (R + N.of_nat n <= top)%N ->
  m <= n -> (forall f, floor = Some f -> (f <= R + N.of_nat m)%N) -> length (lines E g R m) <= k -> k <= length (take q (lines E g R n)) ->
  torn (mkInode (take q (lines E g R n)) k l) s -> recovers (good floor top) g R t s.
Proof.
  intros W Et Hroom Htop Hm Hfl Hk Hk2 (k' & z & H1 & H2 & ->). cbn in *. rewrite take_take. set (q' := min k' q).
  assert (length (take q (lines E g R n)) <= length (lines E g R n)) as Hq by (rewrite length_take; lia).
  assert (length (take q' (lines E g R n) ++ replicate z x00) <= length (lines E g R n)) as Hlen.
  { rewrite length_app, length_replicate. assert (length (take q' (lines E g R n)) <= k'); [|lia]. rewrite length_take. lia. }
  unfold recovers. rewrite take_capped_fits by lia.
  destruct (replay_torn granted T E hist g n R t q' z _ W Et (le_n _)) as (t' & m' & d & R1 & R2 & R3 & R4 & R5).
  exists t', (R + N.of_nat m')%N, d. split; [exact R1|]. split_and!.
  - rewrite <- R4. pose proof (to_string_lossless_exact t' R3) as K. exact K.
  - lia.
  - intros f Hf. specialize (Hfl f Hf). rewrite length_take in Hk2. specialize (R5 m Hm ltac:(unfold q'; lia)). lia.
Qed.

(** ** The frame *)

(** Between [w] and [w'] nothing of the rid changed. *)
Record frame (ps : list Gen) (w w' : World) : Prop := mkFrame {
  fr_fs : kept (all_names rid ps) (gen_files ps) (w_fs w) (w_fs w');
  fr_files : files w' !! rid = files w !! rid;
  fr_failing : failing w' <-> failing w;
  fr_due : wr_sync_due (w_writer w') = false -> wr_sync_due (w_writer w) = false;
  fr_logs : forall rid' f j, rid' <> rid -> files w' !! rid' = Some f -> rf_log f = Some j ->
    (exists f0, files w !! rid' = Some f0 /\ rf_log f0 = Some j) \/ fs_next (w_fs w) <= j < fs_next (w_fs w') }.

Lemma frame_refl ps w : fs_wf (w_fs w) -> frame ps w w.
Proof. intros H. split; [by apply kept_refl|done|done|done|]. intros rid' f j _ H1 H2. left. by exists f. Qed.

Lemma kept_trans nm ino fs1 fs2 fs3 : kept nm ino fs1 fs2 -> kept nm ino fs2 fs3 -> kept nm ino fs1 fs3.
Proof.
  intros (A1 & A2 & A3) (B1 & B2 & B3). split_and!; [done|by eapply spares_trans|]. intros i Hi. by rewrite B3, A3.
Qed.

Lemma frame_trans ps w1 w2 w3 : frame ps w1 w2 -> frame ps w2 w3 -> frame ps w1 w3.
Proof.
  intros [A1 A2 A3 A4 A5] [B1 B2 B3 B4 B5]. split; [by eapply kept_trans|by rewrite B2|by rewrite B3|auto|].
  intros rid' f j Hne Hf Hj. destruct A1 as (_ & [_ _ N1] & _). destruct B1 as (_ & [_ _ N2] & _).
  destruct (B5 _ _ _ Hne Hf Hj) as [(f0 & F1 & F2)|?]; [|right; lia].
  destruct (A5 _ _ _ Hne F1 F2) as [?|?]; [by left|right; lia].
Qed.

Section others.
Context (ps : list Gen) (pos : Pos) (floor : option N).

Lemma base_old w i : base ps w pos floor -> gen_files ps i -> i < fs_next (w_fs w).
Proof. intros [W P _ _ _ _]. by eapply promise_files. Qed.

Lemma own_logs_frame w w' : base ps w pos floor -> frame ps w w' -> own_logs ps w'.
Proof.
  intros B [A1 A2 A3 A4 A5] rid' f j Hf Hj. pose proof A1 as (_ & [_ _ N1] & _). pose proof (bs_logs _ _ _ _ B) as L.
  destruct (decide (rid' = rid)) as [->|Hne].
  - rewrite A2 in Hf. destruct (L _ _ _ Hf Hj) as [L1 L2]. split; [lia|done].
  - destruct (A5 _ _ _ Hne Hf Hj) as [(f0 & F1 & F2)|Hn].
    + destruct (L _ _ _ F1 F2) as [L1 L2]. split; [lia|]. intros p Hp. destruct (L2 p Hp) as (X1 & X2 & X3).
      split_and!; [done|done|]. intros Hx. by destruct (X3 Hx).
    + split; [lia|]. intros p Hp. assert (forall i, i = gn_meta p \/ i = gn_snap p \/ i = gn_log p -> i < fs_next (w_fs w)) as K.
      { intros i Hi. apply (base_old w i B). by exists p. }
      split_and!; intros Hx; exfalso; (enough (j < fs_next (w_fs w)) by lia); apply K; auto.
Qed.

Lemma base_frame w w' : base ps w pos floor -> frame ps w w' -> base ps w' pos floor.
Proof.
  intros B F. pose proof (own_logs_frame _ _ B F) as L. destruct B as [B1 B2 B3 _ B5 B6]. destruct F as [A1 A2 A3 A4 A5]. split; try done.
  - apply A1.
  - eapply promise_kept; [apply A1|done].
  - by rewrite A2.
Qed.

Lemma live_frame w w' p f n k : frame ps w w' -> live ps w pos floor p f n k -> live ps w' pos floor p f n k.
Proof.
  intros [A1 A2 A3 A4 A5] L. pose proof (lv_ps _ _ _ _ _ _ _ _ L) as ->. destruct A1 as (_ & Sp & Eq). destruct L as [_ L2 L3 L4 (t & S1 & S2) L6 L7 L8 L9 L10].
  split; try done.
  - by rewrite A2.
  - exists t. split; [|done]. eapply snap_ok_kept; [exact Sp| |exact S1]. exists p. split; [by left|auto].
  - rewrite Eq; [done|]. exists p. split; [by left|auto].
Qed.

Lemma inv_spared w w' : inv ps w pos floor -> frame ps w w' -> inv ps w' pos floor.
Proof.
  intros [B L] F. split; [by eapply base_frame|]. intros Hon Hf. destruct (L Hon) as (p & f & n & k & Hl & Hd); [by rewrite <- (fr_failing _ _ _ F)|].
  exists p, f, n, k. split; [by eapply live_frame|]. intros H. apply Hd. by apply F.
Qed.

(** *** Steps within the frame *)

Definition crash_ok (fs : Fs) : Prop := pledge floor (ps_top pos) fs ps.

(** The step changes nothing of the rid, and every point where it is killed keeps the promise. *)
Definition apart {A} (m : W A) (w : World) : Prop := wp m (fun _ w' => frame ps w w') crash_ok w.

Lemma apart_bind {A A'} (m : W A) (k : A -> W A') w :
  apart m w -> (forall a w', frame ps w w' -> apart (k a) w') -> apart (x ← m; k x) w.
Proof.
  intros Hm Hk. apply fwp_bind. eapply fwp_mono; [exact Hm| |done]. intros a w' _ F.
  eapply fwp_mono; [by apply Hk| |done]. intros a' w2 _ F2. exact (frame_trans _ _ _ _ F F2).
Qed.

Lemma apart_ret {A} (a : A) w : base ps w pos floor -> apart (mret a) w.
Proof. intros B. apply fwp_ret, frame_refl, B. Qed.

Lemma apart_ask {A} (f : World -> A) w : base ps w pos floor -> apart (ask f) w.
Proof. intros B. apply wp_ask, frame_refl, B. Qed.

Lemma apart_then {A A'} (m : io A) (k : A -> io A') w :
  base ps w pos floor -> apart m w -> (forall a w', frame ps w w' -> apart (k a) w') -> apart (x ←? m; k x) w.
Proof.
  intros B Hm Hk. apply apart_bind; [done|]. intros [a|e] w' F; [by apply Hk|]. apply apart_ret. by eapply base_frame.
Qed.

Lemma apart_fsp {A} (m : io A) w :
  base ps w pos floor ->
  fsp True m (w_fs w) (fun _ => kept (all_names rid ps) (gen_files ps) (w_fs w)) (kept (all_names rid ps) (gen_files ps) (w_fs w)) ->
  apart m w.
Proof.
  intros B H. eapply fwp_mono; [by apply H| |].
  - intros r w' _ (E1 & E2 & E3 & Hr). split; unfold files, failing; rewrite ?E1, ?E2; try done.
    + destruct r; [done|by apply Hr].
    + intros rid' f j _ H1 H2. left. by exists f.
  - intros fs' K. eapply promise_kept; [apply K|apply B].
Qed.

Lemma apart_writer f w :
  base ps w pos floor -> wr_files (f (w_writer w)) = files w -> (wr_sync_due (f (w_writer w)) = false -> wr_sync_due (w_writer w) = false) ->
  apart (alter_world (on_writer f)) w.
Proof.
  intros B H1 H2. apply wp_on_writer. split; unfold files, failing; cbn; rewrite ?H1; try done; [by apply kept_refl, B|].
  intros rid' f0 j _ E1 E2. left. by exists f0.
Qed.

Lemma apart_shared f w :
  base ps w pos floor -> (rid ∈ sh_failed (f (w_shared w)) <-> failing w) -> apart (alter_world (on_shared f)) w.
Proof.
  intros B H1. apply wp_on_shared. split; unfold files, failing; cbn; try done; [by apply kept_refl, B|].
  intros rid' f0 j _ E1 E2. left. by exists f0.
Qed.

(** An update of another rid's entry, whose log is as it was or new. *)
Lemma apart_files f w r g :
  base ps w pos floor -> r <> rid -> wr_files (f (w_writer w)) = partial_alter g r (files w) -> wr_sync_due (f (w_writer w)) = wr_sync_due (w_writer w) ->
  (forall x j, g (files w !! r) = Some x -> rf_log x = Some j ->
     exists f0, files w !! r = Some f0 /\ rf_log f0 = Some j) ->
  apart (alter_world (on_writer f)) w.
Proof.
  intros B Hr H1 H2 Hg. apply wp_on_writer. split; unfold files, failing in *; cbn; rewrite ?H1, ?H2; try done; [by apply kept_refl, B| |].
  - by rewrite lookup_partial_alter_ne.
  - intros rid' f0 j Hne E1 E2. left. destruct (decide (r = rid')) as [->|Hr2].
    + rewrite lookup_partial_alter_eq in E1. by eapply Hg.
    + rewrite lookup_partial_alter_ne in E1 by done. by exists f0.
Qed.
End others.
End inv.
