(* ===== verification/RecoveryApart.v ===== *)
(** * The editor daemon's recovery files: messages of other buffers

    Whatever the writer does for another rid respects the frame of [RecoveryInv.v], wherever it is
    killed and whatever fails. *)

From S2P Require Import Prelude Utf8 EditBase Ot GapBuffer Text Buffer Str BTree MirrorTypes RecoveryFs Recovery RecoveryLoad.
From S2P Require Import RecoveryWp RecoveryDisk RecoveryReplay RecoveryInv.

Section apart.
Context {G : Type} {TS : TextStore G} {SL : TextStoreLaws G} {ENV : RecoveryEnv} {RL : RecoveryLaws}.
Context (rid : bytes) (T : N -> bytes) (E : N -> list Edit) (ps : list Gen) (pos : Pos) (floor : option N).
Context (rid' : bytes) (Hrid : is_rid rid = true) (Hrid' : is_rid rid' = true) (Hne : rid' <> rid).

Notation base := (base (G := G) rid T).
Notation apart := (apart (G := G) rid T ps pos floor).
Notation frame := (frame rid ps).
Notation kept_from w := (kept (all_names rid ps) (gen_files ps) (w_fs w)).
Notation crash_ok := (crash_ok (G := G) rid T ps pos floor).

(** Like [apart], from an earlier world. *)
Definition apart_from {A} (w0 : World) (m : W A) (w : World) : Prop := wp m (fun _ w' => frame w0 w') crash_ok w.

Lemma apart_from_apart {A} w0 (m : W A) w : frame w0 w -> apart m w -> apart_from w0 m w.
Proof. intros F H. eapply fwp_mono; [exact H| |done]. intros a w' _ F'. exact (frame_trans _ _ _ _ _ F F'). Qed.

Lemma apart_from_bind {A A'} w0 (m : W A) (k : A -> W A') w :
  base ps w0 pos floor -> frame w0 w -> apart m w -> (forall a w', frame w0 w' -> base ps w' pos floor -> apart_from w0 (k a) w') ->
  apart_from w0 (x ← m; k x) w.
Proof.
  intros B F Hm Hk. apply fwp_bind. eapply fwp_mono; [exact Hm| |done]. intros a w' _ F'. cbn in F'.
  pose proof (frame_trans _ _ _ _ _ F F') as F2. apply Hk; [done|]. by eapply base_frame.
Qed.

Lemma apart_from_then {A A'} w0 (m : io A) (k : A -> io A') w :
  base ps w0 pos floor -> frame w0 w -> apart m w -> (forall a w', frame w0 w' -> base ps w' pos floor -> fs_next (w_fs w) <= fs_next (w_fs w') -> apart_from w0 (k a) w') ->
  apart_from w0 (x ←? m; k x) w.
Proof.
  intros B F Hm Hk. apply wp_and_then. eapply fwp_mono; [exact Hm| |done]. intros r w' _ F'. cbn in F'.
  pose proof (frame_trans _ _ _ _ _ F F') as F2. destruct r; [|done]. apply Hk; [done|by eapply base_frame|]. apply F'.
Qed.

Lemma apart_get {A A'} (f : World -> A) (k : A -> W A') w : apart (k (f w)) w -> apart (x ← ask f; k x) w.
Proof. intros H. by apply fwp_bind, wp_ask. Qed.

(** Names of the other rid. *)
Lemma not_mine n : of_rid rid' n -> ~ all_names rid ps n.
Proof. intros H K%all_names_of_rid. apply Hne. by eapply of_rid_inj. Qed.

Lemma base_files w i : base ps w pos floor -> gen_files ps i -> i < fs_next (w_fs w).
Proof. apply base_old. Qed.

Ltac frames :=
  lazymatch goal with
  | |- context [apart (mret _) _] => by apply apart_ret
  | |- context [apart (ask _) _] => by apply apart_ask
  | |- context [apart (mbind _ _) ?w] =>
      apply apart_bind; [|let a := fresh "a" in let w' := fresh "w" in let F := fresh "F" in let B' := fresh "B" in
                          intros a w' F; match goal with B : base ps w pos floor |- _ => pose proof (base_frame _ _ _ _ _ _ _ B F) as B' end; cbn beta]
  | |- context [apart (and_then _ _) ?w] =>
      apply apart_then; [done| |let a := fresh "a" in let w' := fresh "w" in let F := fresh "F" in let B' := fresh "B" in
                          intros a w' F; match goal with B : base ps w pos floor |- _ => pose proof (base_frame _ _ _ _ _ _ _ B F) as B' end; cbn beta]
  end.

Lemma apart_fail w switch : base ps w pos floor -> apart (fail rid' switch) w.
Proof.
  intros B. unfold fail. frames; [|frames].
  - apply apart_shared; [done|]. unfold failing. cbn. set_solver.
  - by apply apart_writer.
  - by apply apart_shared.
Qed.

Lemma apart_remove w n : base ps w pos floor -> ~ all_names rid ps n -> apart (remove_if_exists n) w.
Proof. intros B Hn. apply apart_fsp; [done|]. apply fsp_remove; [apply kept_refl, B|done|done]. Qed.

Lemma apart_fsync_dir w : base ps w pos floor -> apart fsync_dir w.
Proof. intros B. apply apart_fsp; [done|]. apply fsp_sync_dir; [apply kept_refl, B|done]. Qed.

(** Files of a generation that the promise does not name. *)
Definition retirable (g : N) : Prop := ~ all_names rid ps (snap_name rid' g) /\ ~ all_names rid ps (log_name rid' g).

Lemma apart_retire_all l w : base ps w pos floor -> (forall g, g ∈ l -> retirable g) -> apart (retire_all rid' l) w.
Proof.
  revert w; induction l as [|g l IH]; intros w B Hl; cbn [retire_all]; [frames|].
  destruct (Hl g) as [H1 H2]; [by left|]. frames.
  - unfold retire. frames; [by apply apart_remove|]. frames; [apply apart_remove; [done|apply all_names_tmp]|by apply apart_remove].
  - frames; [apply IH; [done|intros x Hx; apply Hl; by right]|]. frames.
Qed.

Lemma apart_retire_strays w g : base ps w pos floor -> (forall g', g' <> g -> retirable g') -> apart (retire_strays rid' g) w.
Proof.
  intros B Hg. unfold retire_strays. frames; [frames|]. frames; [by apply apart_writer|]. frames.
  { apply apart_retire_all; [done|]. intros x [Hx _]%list_elem_of_filter. by apply Hg. }
  frames; [case_match; [frames|by apply apart_writer]|]. case_match; [frames|]. frames; [by apply apart_fsync_dir|frames].
Qed.

Lemma apart_write_snap w g R t : base ps w pos floor -> apart (write_snap rid' g R t) w.
Proof.
  intros B. apply apart_fsp; [done|]. apply write_snap_spec; try done.
  - apply B.
  - intros i. by apply base_files.
  - apply not_mine, of_rid_snap.
  - apply not_mine, of_rid_tmp, of_rid_snap.
Qed.

Lemma apart_write_meta w m : base ps w pos floor -> apart (write_meta rid' m) w.
Proof.
  intros B. apply apart_fsp; [done|]. eapply write_meta_spec; try done.
  - apply B.
  - intros i. by apply base_files.
  - apply not_mine, of_rid_meta.
  - apply not_mine, of_rid_tmp, of_rid_meta.
  - by intros fs' raw _ [K _].
  - by intros fs' raw _ [K _] _.
Qed.

Lemma apart_create w n : base ps w pos floor -> of_rid rid' n ->
  wp (create_private n) (fun r w' => frame w w' /\ match r with Ok j => fs_next (w_fs w) <= j < fs_next (w_fs w') | Err _ => True end) crash_ok w.
Proof.
  intros B Hn. assert (fsp True (create_private n) (w_fs w) (fun j fs' => kept_from w fs' /\ fs_next (w_fs w) <= j < fs_next fs') (kept_from w)) as H.
  { eapply fsp_create; [intros i; by apply base_files|apply kept_refl, B|by apply not_mine|]. intros fs' K _ N1 _. split; [done|lia]. }
  eapply fwp_mono; [by apply H| |].
  - intros r w' _ (E1 & E2 & E3 & Hr). split; [|destruct r; [by apply Hr|done]]. split; unfold files, failing; rewrite ?E1, ?E2; try done.
    + destruct r; by apply Hr.
    + intros r0 f j _ H1 H2. left. by exists f.
  - intros fs' K. eapply promise_kept; [apply K|apply B].
Qed.

Lemma apart_sync w j : base ps w pos floor -> ~ gen_files ps j -> apart (sync_all j) w.
Proof.
  intros B Hj. apply apart_fsp; [done|]. pose proof (kept_refl (all_names rid ps) (gen_files ps) _ (bs_wf _ _ _ _ _ _ B)) as K.
  apply fsp_call; cbn; [by apply kept_sync|intros _; by apply kept_lose].
Qed.

(** The log of another rid is none of the promise's files. *)
Lemma other_log w f j : base ps w pos floor -> files w !! rid' = Some f -> rf_log f = Some j -> ~ gen_files ps j.
Proof.
  intros B Hf Hj (p & Hp & Hx). destruct (bs_logs _ _ _ _ _ _ B _ _ _ Hf Hj) as [_ K]. destruct (K p Hp) as (K1 & K2 & K3).
  destruct Hx as [?|[?|Hx]]; [done..|]. by destruct (K3 Hx).
Qed.
Lemma new_log w0 j : base ps w0 pos floor -> fs_next (w_fs w0) <= j -> ~ gen_files ps j.
Proof. intros B Hj K%(base_files w0); [lia|done]. Qed.

Lemma apart_call {A} (m : io A) w :
  base ps w pos floor ->
  fsp False m (w_fs w) (fun _ => kept_from w) (kept_from w) ->
  wp m (fun r w' => frame w w' /\ w_writer w' = w_writer w /\ (forall e, r = Err e -> blame w)) crash_ok w.
Proof.
  intros B H. eapply fwp_mono; [by apply H| |].
  - intros r w' _ (E1 & E2 & E3 & Hr). split_and!; [|done|intros e ->; by destruct Hr as [_ [?|?]]].
    split; unfold files, failing; rewrite ?E1, ?E2; try done.
    + destruct r; [done|by apply Hr].
    + intros r' f j _ H1 H2. left. by exists f.
  - intros fs' K. eapply promise_kept; [apply K|apply B].
Qed.

Lemma apart_write w f j s : base ps w pos floor -> files w !! rid' = Some f -> rf_log f = Some j ->
  wp (write_all j s) (fun r w' => frame w w' /\ w_writer w' = w_writer w /\ (forall e, r = Err e -> blame w)) crash_ok w.
Proof.
  intros B Ef Ej. apply apart_call; [done|]. pose proof (kept_refl (all_names rid ps) (gen_files ps) _ (bs_wf _ _ _ _ _ _ B)) as K.
  pose proof (other_log _ _ _ B Ef Ej) as Hj. apply fsp_call; cbn; [by apply kept_write|]. intros n. by apply kept_write.
Qed.

(** The entry of the new generation: its log is new. *)
Lemma apart_take_over w0 w g j n : base ps w0 pos floor -> frame w0 w -> fs_next (w_fs w0) <= j < fs_next (w_fs w) ->
  apart_from w0 (take_over rid' g j n) w.
Proof.
  intros B F Hj. unfold take_over. apply fwp_bind, wp_ask, fwp_bind, wp_on_writer.
  set (w1 := on_writer _ w). assert (frame w0 w1) as F1.
  { destruct F as [F1 F2 F3 F4 F5]. unfold w1. split; try done; unfold files in *; cbn.
    - by rewrite lookup_insert_ne.
    - intros r f i Hr Hf Hi. destruct (decide (rid' = r)) as [<-|Hn2].
      + rewrite lookup_insert_eq in Hf. injection Hf as <-. injection Hi as <-. by right.
      + rewrite lookup_insert_ne in Hf by done. by eapply F5. }
  pose proof (base_frame _ _ _ _ _ _ _ B F1) as B1. clearbody w1. apply apart_from_apart; [done|].
  destruct (wr_files (w_writer w) !! rid') as [old|]; [|frames]. frames; [|by apply apart_shared].
  case_match; [by apply apart_writer|frames].
Qed.

(** *** The messages *)

Lemma apart_switch w g R t m : base ps w pos floor -> apart (switch rid' g R t m) w.
Proof.
  intros B. unfold switch. frames.
  2:{ destruct a as [[]|e]; [frames|]. frames; [frames|]. frames; [case_match; [frames|by apply apart_writer]|by apply apart_fail]. }
  unfold try_switch. frames; [by apply apart_write_snap|]. apply wp_and_then. eapply fwp_mono; [apply apart_create; [done|apply of_rid_log]| |done].
  intros [j|e] w1 _ [F1 Hj]; cbn in F1; [|done]. pose proof (base_frame _ _ _ _ _ _ _ B0 F1) as B1.
  apply (apart_from_then w0); [done|done|apply apart_sync; [done|eapply new_log; [exact B0|lia]]|]. intros _ w2 F2 B2 N2.
  apply (apart_from_then w0); [done|done|by apply apart_fsync_dir|]. intros _ w3 F3 B3 N3.
  apply (apart_from_then w0); [done|done|by apply apart_write_meta|]. intros _ w4 F4 B4 N4.
  apply fwp_bind. eapply fwp_mono; [apply (apart_take_over w0); [done|done|lia]| |done]. intros u w5 _ F5; cbn in F5.
  pose proof (base_frame _ _ _ _ _ _ _ B0 F5) as B5. apply apart_from_apart; [done|].
  frames; [by apply apart_fsync_dir|]. frames; [|frames; [|frames]; apply apart_retire_strays; [done|]; intros g' _; split; apply not_mine; [apply of_rid_snap|apply of_rid_log]].
  unfold switch_acked. frames; [|frames].
  - apply apart_shared; [done|]. unfold failing. cbn. set_solver.
  - by apply apart_writer.
  - by apply apart_shared.
Qed.

Lemma apart_append w g r es : base ps w pos floor -> apart (append rid' g r es) w.
Proof.
  intros B. unfold append. frames; [by apply apart_shared|]. frames; [frames|].
  apply apart_get. destruct (wr_files (w_writer w1) !! rid') as [f|] eqn:Ef; [|case_match; [frames|apply apart_shared; [done|]; done]].
  case_match; [case_match; [frames|by apply apart_shared]|]. case_match; [frames|].
  destruct (enc_record _) as [line|e]; [|by apply apart_fail]. apply fwp_bind.
  assert (wp (match rf_log f with Some log => write_all log (line ++ [NL]) | None => mret (Err OtherIo) end)
    (fun _ w' => frame w1 w' /\ w_writer w' = w_writer w1) crash_ok w1) as Hw.
  { destruct (rf_log f) as [j|] eqn:Ej; [|apply fwp_ret; split; [apply frame_refl, B1|done]].
    eapply fwp_mono; [by eapply apart_write| |done]. by intros r0 w' _ (F' & E' & _). }
  eapply fwp_mono; [exact Hw| |done]. intros x w2 _ [F2 E2]. pose proof (base_frame _ _ _ _ _ _ _ B1 F2) as B2. apply apart_from_apart; [done|].
  destruct x; [|by apply apart_fail]. unfold wrote. frames.
  { eapply (apart_files _ _ _ _ _ _ _ rid' (fun _ => Some _)); [done|done|reflexivity|done|].
    intros x j [= <-] Hj. cbn in Hj. exists f. split; [|done]. unfold files. by rewrite E2. }
  frames; [by apply apart_shared|]. frames; [by apply apart_writer|].
  destruct (negb (rf_compaction_asked f) && _); [by apply apart_shared|frames].
Qed.

Lemma apart_remove_all l w : base ps w pos floor -> Forall (of_rid rid') l -> apart (remove_all l) w.
Proof.
  revert w; induction l as [|n l IH]; intros w B Hl; cbn [remove_all]; [frames|]. inversion Hl; subst.
  frames; [by apply apart_remove; [|apply not_mine]|by apply IH].
Qed.

Lemma starts_of_rid n : starts_with (rid' ++ bs ".") n = true -> of_rid rid' n.
Proof. intros [r ->]%starts_with_spec. exists r. by rewrite <- app_assoc. Qed.

Lemma apart_discard w : base ps w pos floor -> apart (discard rid') w.
Proof.
  intros B. unfold discard. frames; [by apply apart_writer|]. frames; [frames|]. frames.
  - case_match; [|frames]. frames; [|by apply apart_shared].
    eapply (apart_files _ _ _ _ _ _ _ rid' (fun _ => None)); [done|done|reflexivity|done|done].
  - frames.
    + frames; [apply apart_remove; [done|apply not_mine, of_rid_meta]|]. frames; [by apply apart_fsync_dir|].
      frames; [apply apart_fsp; [done|]; apply fsp_list_names; [apply kept_refl; by eapply bs_wf|intros l; apply kept_refl; by eapply bs_wf]|].
      frames; [|by apply apart_fsync_dir]. apply apart_remove_all; [done|]. rewrite Forall_forall. intros n Hn.
      apply list_elem_of_filter in Hn as [Hn _]. by apply starts_of_rid.
    + frames; [case_match; [frames|by apply apart_shared]|]. frames; [|by apply apart_writer].
      apply apart_shared; [done|]. unfold failing. cbn. set_solver.
Qed.

Lemma apart_sync_one w f : base ps w pos floor -> files w !! rid' = Some f ->
  wp (sync_one rid' f) (fun r w' => frame w w' /\ (forall x, r = Some x -> x = rid' /\ blame w) /\
    (forall r', r' <> rid' -> files w' !! r' = files w !! r')) crash_ok w.
Proof.
  intros B Ef. unfold sync_one. apply fwp_bind.
  assert (wp (match rf_log f with Some log => sync_all log | None => mret (Ok tt) end)
     (fun r w' => frame w w' /\ w_writer w' = w_writer w /\ (forall e, r = Err e -> blame w)) crash_ok w) as H.
  { destruct (rf_log f) as [j|] eqn:Ej; [|apply fwp_ret; split_and!; [apply frame_refl, B|done|done]]. pose proof (other_log _ _ _ B Ef Ej) as Hj.
    apply apart_call; [done|]. pose proof (kept_refl (all_names rid ps) (gen_files ps) _ (bs_wf _ _ _ _ _ _ B)) as K.
    apply fsp_call; cbn; [by apply kept_sync|intros _; by apply kept_lose]. }
  eapply fwp_mono; [exact H| |done]. intros r w1 _ (F1 & E1 & Hr). pose proof (base_frame _ _ _ _ _ _ _ B F1) as B1.
  destruct r as [[]|e]; [|apply fwp_ret; split_and!; [done|intros x [= <-]; split; [done|by eapply Hr]|intros; unfold files; by rewrite E1]].
  apply fwp_bind, wp_on_writer. set (w2 := on_writer _ w1).
  assert (frame w1 w2) as F2.
  { split; try done; unfold w2, files; cbn; [by apply kept_refl, B1|by rewrite lookup_insert_ne|].
    intros r' f' j Hr' Hf' Hj. left. destruct (decide (rid' = r')) as [<-|Hn].
    - rewrite lookup_insert_eq in Hf'. injection Hf' as <-. exists f. split; [by rewrite E1|done].
    - rewrite lookup_insert_ne in Hf' by done. by exists f'. }
  apply fwp_bind, wp_on_shared, fwp_ret. split_and!; [|done|].
  - apply (frame_trans _ _ _ w1); [done|]. apply (frame_trans _ _ _ w2); [done|]. split; try done; [by apply kept_refl, B1|].
    intros r' f' j _ Hf' Hj. left. by exists f'.
  - intros r' Hr'. unfold files; cbn. rewrite lookup_insert_ne by done. by rewrite E1.
Qed.
End apart.
