(* ===== verification/RecoveryOwn.v ===== *)
(** * The editor daemon's recovery files: switching generations

    A switch keeps the promise of the generations before it at every point where it fails or is
    killed, and when it is done the disk promises its snapshot. *)

From S2P Require Import Prelude Utf8 EditBase Ot GapBuffer Memory Text Buffer Str BTree MirrorTypes RecoveryFs Recovery RecoveryLoad.
From S2P Require Import RecoveryWp RecoveryDisk RecoveryReplay RecoveryInv RecoveryApart.

#[global] Arguments SNAP_HEADER_MAX : simpl never.

Section own.
Context {G : Type} {TS : TextStore G} {SL : TextStoreLaws G} {ENV : RecoveryEnv} {RL : RecoveryLaws}.
Context (rid : bytes) (T : N -> bytes) (E : N -> list Edit) (granted : memory_granted G re_reserve) (hist : history T E).

Notation base := (base (G := G) rid T).
Notation inv := (inv (G := G) rid T E).
Notation pledge := (pledge (G := G) rid T).
Notation failing := (failing rid).

(** What a switch may carry: the snapshot's header and the meta are within what the restore reads. *)
Definition switch_fits (g R : N) (t : bytes) (m : RecoveryMeta) : Prop :=
  (forall h, enc_header (snap_header g R t) = Ok h -> length h < SNAP_HEADER_MAX) /\
  (forall s, enc_meta (put_generation g m) = Ok s -> (Z.of_nat (length s) <= META_MAX_BYTES)%Z) /\
  mt_format m = META_FORMAT /\ mt_rid m = rid /\ Forall utf8 (meta_strings m).

(** ** What was written reads back *)

Lemma header_back g R t : exists h, enc_header (snap_header g R t) = Ok h /\ dec_header h = Some (snap_header g R t) /\ NL ∉ h.
Proof.
  apply header_json. repeat constructor; cbn; apply utf8_ascii; [done|apply hex_ascii].
Qed.

Lemma position_nl_take q h t : NL ∉ h -> length h < q -> position_nl (take q (h ++ NL :: t)) = Some (length h).
Proof.
  intros Hn Hq. rewrite take_app, (take_ge h) by lia. replace (q - length h) with (S (q - S (length h))) by lia. cbn [take].
  by apply position_nl_at.
Qed.

Lemma parse_snap_ok g R t h :
  text_fits t -> enc_header (snap_header g R t) = Ok h -> length h < SNAP_HEADER_MAX ->
  exists x : Text G, parse_snap g (h ++ NL :: t) = Ok (R, x) /\ text_wf x /\ text x = t.
Proof.
  intros Ht Eh Hl. destruct (header_back g R t) as (h' & E1 & E2 & E3). rewrite Eh in E1. injection E1 as <-.
  destruct (from_text_ok granted t Ht) as (x & X1 & X2 & X3). exists x. split; [|done]. unfold parse_snap.
  rewrite position_nl_take by done. cbn [ok_or result_bind]. rewrite take_app_length, E2. cbn [ok_or result_bind snap_header hd_format hd_generation hd_bytes hd_blake3 hd_rev].
  assert (drop (S (length h)) (h ++ NL :: t) = t) as ->.
  { rewrite drop_app_ge by lia. by replace (S (length h) - length h) with 1 by lia. }
  rewrite bool_decide_true by done. rewrite !N.eqb_refl. cbn [negb orb]. rewrite bool_decide_true by done. cbn [negb].
  rewrite (proj2 (from_utf8_ok_iff t) (proj1 Ht)). cbn [negb]. by rewrite X1.
Qed.

Lemma snap_size h t : length h < SNAP_HEADER_MAX -> text_fits t -> (Z.of_nat (length (h ++ NL :: t)) <= snap_cap)%Z.
Proof. intros H (_ & Hb & _). unfold snap_cap. rewrite length_app. cbn [length]. lia. Qed.

Lemma parse_meta_ok m s : mt_format m = META_FORMAT -> mt_rid m = rid -> dec_meta s = Some m -> parse_meta rid s = Ok m.
Proof.
  intros H1 H2 H3. unfold parse_meta. rewrite H3. cbn [ok_or result_bind]. rewrite !bool_decide_true by done. done.
Qed.

Lemma synced_settled fs n : settled (fs_sync_dir fs) n (visible fs !! n).
Proof. intros v [<-|(op & Ho & _)]; [done|]. by apply not_elem_of_nil in Ho. Qed.

(** ** Steps of the file system inside the writer *)

Definition same (w w' : World) : Prop := w_writer w' = w_writer w /\ w_shared w' = w_shared w /\ w_faults w' `suffix_of` w_faults w.

Lemma wp_io_then {A A'} B (m : io A) (k : A -> io A') w Q C Qf (P : Fs -> Prop) :
  fsp B m (w_fs w) Qf P ->
  (forall a w', same w w' -> Qf a (w_fs w') -> wp (k a) Q C w') ->
  (forall e w', same w w' -> P (w_fs w') -> blame w \/ B -> Q (Err e) w') -> (forall fs, P fs -> C fs) ->
  wp (a ←? m; k a) Q C w.
Proof.
  intros H Hk He Hc. apply wp_and_then. eapply fwp_mono; [by apply H| |done].
  intros [a|e] w' Hs (E1 & E2 & E3 & Hr); [by apply Hk|]. destruct Hr as [Hp Hb]. by apply (He e w').
Qed.

Lemma same_trans w1 w2 w3 : same w1 w2 -> same w2 w3 -> same w1 w3.
Proof. intros (A1 & A2 & A3) (B1 & B2 & B3). split_and!; [by rewrite B1|by rewrite B2|by trans (w_faults w2)]. Qed.
Lemma same_blame w w' : same w w' -> blame w' -> blame w.
Proof. intros (_ & _ & H). by apply blame_suffix. Qed.

Lemma same_frame ps w w' : same w w' -> kept (all_names rid ps) (gen_files ps) (w_fs w) (w_fs w') -> frame rid ps w w'.
Proof.
  intros (E1 & E2 & E3) K. split; unfold files, RecoveryInv.failing; rewrite ?E1, ?E2; try done. intros r f j _ H1 H2. left. by exists f.
Qed.

(** ** The new generation's snapshot and log *)

(** The files [i] and [j] are the safe snapshot and the safe empty log of generation [g]. *)
Definition ready (g R : N) (i j : nat) (fs : Fs) : Prop :=
  settled fs (snap_name rid g) (Some i) /\ settled fs (log_name rid g) (Some j) /\ i <> j /\ i < fs_next fs /\ j < fs_next fs /\
  fs_inodes fs !! j = Some (mkInode [] 0 false) /\
  exists x : Text G, snap_ok fs (mkGen g 0 i j) R x /\ text_wf x /\ text x = T R.

Context (ps : list Gen) (pos : Pos) (floor : option N) (g R : N) (m : RecoveryMeta).
Context (fits : switch_fits g R (T R) m).

Notation crashed := (fun fs => exists ps', pledge floor (ps_top pos) fs ps').

(** Both files are in the directory and synced, and then the directory is. *)
Lemma synced_ready i j h fs : fs_wf fs -> i <> j -> i < fs_next fs -> visible fs !! snap_name rid g = Some i -> fresh j (log_name rid g) [] fs ->
  enc_header (snap_header g R (T R)) = Ok h -> holds fs i (h ++ NL :: T R) -> ready g R i j (fs_sync_dir fs).
Proof.
  intros Hw Hij Hi Vs [Vl (k & Fj)] Eh H1. destruct (hist R) as (Hfit & _), fits as (Fh & _). unfold ready. split_and!.
  - rewrite <- Vs. apply synced_settled.
  - rewrite <- Vl. apply synced_settled.
  - done.
  - exact Hi.
  - by apply Hw in Fj as [? _].
  - cbn. pose proof (Hw _ _ Fj) as [_ X]. cbn in X. rewrite Fj. repeat f_equal. lia.
  - destruct (parse_snap_ok g R (T R) h Hfit Eh (Fh h Eh)) as (x & X1 & X2 & X3). exists x. split_and!; [|done..].
    exists (h ++ NL :: T R). by split_and!; [|apply snap_size; [by apply Fh|]|].
Qed.

Lemma wp_new_files {A} (k : nat -> io A) Q w :
  base ps w pos floor -> (forall p, p ∈ ps -> gn_gen p <> g) ->
  (forall j w', same w w' -> frame rid ps w w' -> (exists i, ready g R i j (w_fs w') /\ fs_next (w_fs w) <= i /\ fs_next (w_fs w) <= j) -> wp (k j) Q crashed w') ->
  (forall e w', same w w' -> frame rid ps w w' -> blame w -> Q (Err e) w') ->
  wp (_ ←? write_snap rid g R (T R); log ←? create_private (log_name rid g); _ ←? sync_all log; _ ←? fsync_dir; k log) Q crashed w.
Proof.
  intros B Hg Hk He. destruct (all_names_fresh rid ps g Hg) as [Hn1 Hn2]. pose proof (bs_wf _ _ _ _ _ _ B) as Hw.
  assert (forall i, gen_files ps i -> i < fs_next (w_fs w)) as Hold by (intros i Hi; by eapply base_old).
  set (K := kept (all_names rid ps) (gen_files ps)).
  assert (forall w', K (w_fs w) (w_fs w') -> crashed (w_fs w')) as Hcr.
  { intros w' Kw. exists ps. eapply promise_kept; [apply Kw|apply B]. }
  assert (forall fs, K (w_fs w) fs -> crashed fs) as Hcr'.
  { intros fs Kw. exists ps. eapply promise_kept; [apply Kw|apply B]. }
  destruct (hist R) as (Hfit & _). destruct fits as (Fh & _).
  eapply wp_io_then with (B := False).
  { apply (write_snap_spec False (all_names rid ps) (gen_files ps) _ rid g R (T R)
      (fun _ fs' => K (w_fs w) fs' /\ exists h, enc_header (snap_header g R (T R)) = Ok h /\ made (snap_name rid g) (h ++ NL :: T R) (fs_next (w_fs w)) fs')); try done.
    - apply all_names_tmp.
    - intros e He'. destruct (header_back g R (T R)) as (h & Eh & _). congruence.
    - intros fs' h Kf Eh Hm. split; [done|]. by exists h. }
  2:{ intros e w' S Kw [Hb|[]]. apply (He e w' S); [by apply same_frame|done]. }
  2: exact Hcr'.
  intros _ w1 S1 (K1 & h & Eh & V1 & H1 & L1). set (i := fs_next (w_fs w)) in *.
  (* from here the snapshot is kept too *)
  set (ino1 := fun x => gen_files ps x \/ x = i).
  assert (forall x, ino1 x -> x < fs_next (w_fs w1)) as Hold1.
  { intros x [Hx| ->]; [|done]. apply Hold in Hx. lia. }
  set (K' := kept (all_names rid ps) ino1 (w_fs w1)).
  assert (forall fs, K' fs -> K (w_fs w) fs) as HK.
  { intros fs (X1 & X2 & X3). eapply kept_trans; [exact K1|]. split_and!; [done| |].
    - eapply spares_weaken; [| |exact X2]; [done|]. intros x Hx. by left.
    - intros x Hx. apply X3. by left. }
  pose proof (kept_refl (all_names rid ps) ino1 (w_fs w1) ltac:(apply K1)) as K1'.
  eapply (wp_io_then False); [eapply (fsp_create _ ino1 (w_fs w1) Hold1 _ _ _ (fun j fs' => j = fs_next (w_fs w1) /\ K' fs' /\ fresh j (log_name rid g) [] fs' /\
      (forall n, n <> log_name rid g -> visible fs' !! n = visible (w_fs w1) !! n))); [done|done|done]| | |intros fs Kf; by apply Hcr', HK].
  2:{ intros e w' S Kw [Hb|[]]. apply (He e w'); [by eapply same_trans|apply same_frame; [by eapply same_trans|by apply HK]|by eapply same_blame]. }
  intros j w2 S2 (Ej & K2 & F2 & V2). pose proof (same_trans _ _ _ S1 S2) as S2'.
  assert (~ ino1 j) as Hj by (intros X%Hold1; lia).
  eapply (wp_io_then False); [eapply (fsp_sync_fresh _ ino1 (w_fs w1) _ _ _ _ _ (fun _ fs' => K' fs' /\ fresh j (log_name rid g) [] fs' /\ holds fs' j [] /\ visible fs' = visible (w_fs w2))); [done|done|exact F2|done]| | |intros fs Kf; by apply Hcr', HK].
  2:{ intros e w' S Kw [Hb|[]]. apply (He e w'); [by eapply same_trans|apply same_frame; [by eapply same_trans|by apply HK]|by eapply same_blame]. }
  intros _ w3 S3 (K3 & F3 & H3 & V3). pose proof (same_trans _ _ _ S2' S3) as S3'.
  eapply (wp_io_then False); [eapply (fsp_sync_dir _ ino1 (w_fs w1) _ _ (fun _ fs' => K' fs' /\ fs' = fs_sync_dir (w_fs w3))); [done|done]| | |intros fs Kf; by apply Hcr', HK].
  2:{ intros e w' S Kw [Hb|[]]. apply (He e w'); [by eapply same_trans|apply same_frame; [by eapply same_trans|by apply HK]|by eapply same_blame]. }
  intros _ w4 S4 (K4 & E4). pose proof (same_trans _ _ _ S3' S4) as S4'. apply Hk; [done|apply same_frame; [done|by apply HK]|].
  assert (visible (w_fs w3) !! snap_name rid g = Some i) as Vs by (rewrite V3, V2; [done|apply snap_log]).
  exists i. split; [|subst j; destruct K1 as (_ & [_ _ ?] & _); lia]. rewrite E4. destruct K3 as (W3 & X3 & _).
  apply (synced_ready i j h); [done|intros <-; apply Hj; by right| |done|done|done|].
  - destruct X3 as [_ _ X3]. lia.
  - eapply spares_holds; [exact X3|by right|exact H1].
Qed.

(** ** The commit *)

Lemma ready_data fl mt i j fs : ready g R i j fs -> (R <= ps_top pos)%N -> (forall f, fl = Some f -> (f <= R)%N) ->
  data_ok rid (good T fl (ps_top pos)) fs (mkGen g mt i j).
Proof.
  intros (S1 & S2 & _ & _ & _ & L & x & X1 & X2 & X3) Ht Hf. split_and!; [done|done|].
  exists R, x, (mkInode [] 0 false). split_and!; [exact X1|exact L|]. intros s Hs.
  eapply (torn_recovers T E granted hist fl (ps_top pos) g R 0 0 0 0 false x s); cbn [lines gn_gen]; try done.
  - lia.
  - intros f Hfl. specialize (Hf f Hfl). lia.
Qed.

Lemma ready_kept nm ino i j fs fs' :
  kept nm ino fs fs' -> nm (snap_name rid g) -> nm (log_name rid g) -> ino i -> ino j -> ready g R i j fs -> ready g R i j fs'.
Proof.
  intros (K1 & K2 & K3) N1 N2 I1 I2 (S1 & S2 & Hij & Hi & Hj & L & x & X1 & X2 & X3). pose proof (sp_next _ _ _ _ K2) as Hx.
  split_and!; try (done || lia).
  - by eapply spares_settled.
  - by eapply spares_settled.
  - by rewrite K3.
  - exists x. split; [|done]. by eapply snap_ok_kept.
Qed.

Lemma wp_commit {A} (k : unit -> io A) Q w i j :
  base ps w pos floor -> (forall p, p ∈ ps -> gn_gen p <> g) -> (R <= ps_top pos)%N -> (forall f, floor = Some f -> (f <= R)%N) -> ready g R i j (w_fs w) ->
  let p' := mkGen g (fs_next (w_fs w)) i j in
  (forall w', same w w' -> fs_wf (w_fs w') -> fs_next (w_fs w) < fs_next (w_fs w') -> pledge floor (ps_top pos) (w_fs w') (p' :: ps) -> ready g R i j (w_fs w') ->
     visible (w_fs w') !! meta_name rid = Some (gn_meta p') -> wp (k tt) Q crashed w') ->
  (forall e w' ps', same w w' -> fs_wf (w_fs w') -> fs_next (w_fs w) <= fs_next (w_fs w') -> pledge floor (ps_top pos) (w_fs w') ps' -> ps' = ps \/ ps' = p' :: ps ->
     blame w -> Q (Err e) w') ->
  wp (u ←? write_meta rid (put_generation g m); k u) Q crashed w.
Proof.
  intros B Hg Ht HfR Hr p' Hk He. pose proof (bs_wf _ _ _ _ _ _ B) as Hw. pose proof (bs_pledge _ _ _ _ _ _ B) as Pl.
  destruct fits as (_ & Fm & M1 & M2 & M3). pose proof Hr as (S1 & S2 & Hij & Hi & Hj & L & x & X1 & X2 & X3).
  destruct (meta_json (put_generation g m)) as (raw & Er & Dr); [exact M3|]. set (nx := fs_next (w_fs w)) in *.
  set (ino := fun y => gen_files ps y \/ y = i \/ y = j).
  set (nm := data_names rid (p' :: ps)).
  assert (forall y, ino y -> y < nx) as Hold.
  { intros y [Hy|[-> | ->]]; [by eapply base_old|done|done]. }
  assert (forall fs', kept nm ino (w_fs w) fs' -> ready g R i j fs') as Hready.
  { intros fs' K. eapply ready_kept; [exact K|exists p'; split; [by left|by auto]..|right; auto|right; auto|done]. }
  assert (forall fs', kept nm ino (w_fs w) fs' -> forall p, p ∈ ps -> meta_ok rid fs' p /\ data_ok (G := G) rid (good T floor (ps_top pos)) fs' p) as Hps.
  { intros fs' (K1 & K2 & K3) p Hp. destruct Pl as [_ P2]. destruct (P2 p Hp) as [P3 P4]. split.
    - eapply meta_ok_kept; [exact K2|left; exists p; auto|done].
    - eapply data_ok_kept; [exact K2|exists p; split; [by right|auto]..|left; exists p; auto|left; exists p; auto|done]. }
  assert (forall fs', meta_written nm ino (w_fs w) rid raw fs' -> exists ps', (ps' = ps \/ ps' = p' :: ps) /\ pledge floor (ps_top pos) fs' ps' /\
            (visible fs' !! meta_name rid = Some nx -> holds fs' nx raw -> pledge floor (ps_top pos) fs' (p' :: ps))) as Hmw.
  { intros fs' [K Hm].
    assert (forall v, may_be fs' (meta_name rid) v -> may_be (w_fs w) (meta_name rid) v \/ (v = Some nx /\ True)) as Hv.
    { intros v Hv. destruct Hm as [Hm|[_ Hm]]; destruct (Hm v Hv) as [?|?] || (left; by apply Hm); auto. }
    assert (holds fs' nx raw -> pledge floor (ps_top pos) fs' (p' :: ps)) as Hnew.
    { intros Hh. split.
      - intros Hon v Hv'. destruct (Hv v Hv') as [Ho|[-> _]]; [|exists p'; split; [by left|done]].
        destruct (proj1 Pl Hon v Ho) as (p & Hp & ->). exists p. split; [by right|done].
      - intros p [->|Hp]%elem_of_cons; [|by apply Hps]. split.
        + exists raw, (put_generation g m). split_and!; [exact Hh|by apply Fm|by apply parse_meta_ok|done].
        + apply ready_data; [by apply Hready|done|done]. }
    destruct Hm as [Hm|[Hh _]].
    - exists ps. split; [by left|]. split; [|auto]. split; [|by apply Hps]. intros Hon v Hv'. by apply (proj1 Pl Hon), Hm.
    - exists (p' :: ps). split; [by right|]. auto. }
  eapply (wp_io_then False).
  { apply (write_meta_spec False nm ino (w_fs w) rid (put_generation g m)
      (fun _ fs' => kept nm ino (w_fs w) fs' /\ visible fs' !! meta_name rid = Some nx /\ pledge floor (ps_top pos) fs' (p' :: ps) /\ nx < fs_next fs')
      (fun fs' => kept nm ino (w_fs w) fs' /\ exists ps', (ps' = ps \/ ps' = p' :: ps) /\ pledge floor (ps_top pos) fs' ps')); try done.
    - apply data_names_meta.
    - intros X. by apply (all_names_tmp rid (p' :: ps) (meta_name rid)); right.
    - intros e He'. congruence.
    - intros fs' raw' Hraw Hm. assert (raw' = raw) as -> by (destruct Hraw as [[e ?]|?]; congruence). split; [apply Hm|].
      destruct (Hmw _ Hm) as (ps' & P1 & P2 & _). by exists ps'.
    - intros fs' raw' Hraw Hm (V & H & L'). assert (raw' = raw) as -> by congruence. split_and!; [apply Hm|done| |done].
      destruct (Hmw _ Hm) as (ps' & _ & _ & P3). by apply P3. }
  - intros [] w' S (K & V & P & N). apply Hk; [done|apply K|done|done|by apply Hready|done].
  - intros e w' S (K & ps' & P1 & P2) [Hb|[]]. apply (He e w' ps'); [done|apply K| |done|done|done]. destruct K as (_ & [_ _ ?] & _). done.
  - intros fs' (_ & ps' & _ & P). by exists ps'.
Qed.

(** ** The writer's side *)

Definition new_files (j : nat) (n : N) : RidFiles := mkRidFiles g (Some j) 0 n 0 false.

Lemma take_over_spec w j n C :
  wp (take_over rid g j n) (fun _ w' => w_fs w' = w_fs w /\ files w' = <[rid := new_files j n]> (files w) /\ (failing w' <-> failing w)) C w.
Proof.
  unfold take_over. apply fwp_bind, wp_ask, fwp_bind, wp_on_writer. destruct (wr_files (w_writer w) !! rid) as [old|]; [|by apply fwp_ret].
  apply fwp_bind. destruct (negb _); [apply wp_on_writer|apply fwp_ret]; by apply wp_on_shared.
Qed.

(** The new generation joins those promised. *)
Lemma new_base w0 w i j mt (p' := mkGen g mt i j) :
  base ps w0 pos floor -> files w = files w0 -> ps_gen pos = g ->
  fs_next (w_fs w0) <= i -> fs_next (w_fs w0) <= j -> fs_next (w_fs w0) <= mt ->
  fs_wf (w_fs w) -> fs_next (w_fs w0) <= fs_next (w_fs w) -> pledge floor (ps_top pos) (w_fs w) (p' :: ps) -> base (p' :: ps) w pos floor.
Proof.
  intros B Ef Hg Hi Hj Hm Hw Hn Pl. pose proof (bs_logs _ _ _ _ _ _ B) as L. split; try done.
  - intros p [->|Hp]%elem_of_cons; [cbn; lia|by apply (bs_gens _ _ _ _ _ _ B)].
  - intros r f x Hf Hx. rewrite Ef in Hf. destruct (L _ _ _ Hf Hx) as [L1 L2]. split; [lia|].
    intros p [->|Hp]%elem_of_cons; [cbn; split_and!; lia|by apply L2].
  - intros f Hf. rewrite Ef in Hf. by apply (bs_gen _ _ _ _ _ _ B).
  - apply B.
Qed.

(** The table's entry is the new generation. *)
Lemma insert_base w0 w w' i j mt n (p' := mkGen g mt i j) :
  base ps w0 pos floor -> fs_next (w_fs w0) <= j -> i <> j -> mt <> j -> j < fs_next (w_fs w) ->
  base (p' :: ps) w pos floor -> w_fs w' = w_fs w -> files w' = <[rid := new_files j n]> (files w) -> ps_gen pos = g ->
  base (p' :: ps) w' pos floor.
Proof.
  intros B0 Hj0 Hij Hmj Hj [B1 B2 B3 B4 B5 B6] Ew Ef Hg. split; rewrite ?Ew; try done.
  - intros r f x Hf Hx. rewrite Ew. rewrite Ef in Hf. destruct (decide (rid = r)) as [<-|Hr].
    + rewrite lookup_insert_eq in Hf. injection Hf as <-. injection Hx as <-. split; [done|].
      intros p [->|Hp]%elem_of_cons; [by cbn|].
      assert (~ gen_files ps j) as Hnot by (intros Hy; eapply base_old in Hy; [|exact B0]; lia).
      split_and!; [intros ->|intros ->|intros ->]; exfalso; apply Hnot; exists p; auto.
    + rewrite lookup_insert_ne in Hf by done. by eapply B4.
  - intros f Hf. rewrite Ef, lookup_insert_eq in Hf. injection Hf as <-. cbn. lia.
Qed.

Lemma same_base w w' : same w w' -> fs_wf (w_fs w') -> fs_next (w_fs w) <= fs_next (w_fs w') -> pledge floor (ps_top pos) (w_fs w') ps ->
  base ps w pos floor -> base ps w' pos floor.
Proof.
  intros (E1 & E2 & _) Hw Hn Pl [B1 B2 B3 B4 B5 B6]. split; unfold own_logs, files in *; rewrite ?E1; try done.
  intros r f j Hf Hj. destruct (B4 _ _ _ Hf Hj) as [H1 H2]. split; [lia|done].
Qed.

(** The directory is synced: only the new generation is left. *)
Lemma synced_inv w w' i j n mt (p' := mkGen g mt i j) :
  base (p' :: ps) w pos floor -> ready g R i j (w_fs w) -> visible (w_fs w) !! meta_name rid = Some mt ->
  files w !! rid = Some (new_files j n) -> files w' = files w -> w_fs w' = fs_sync_dir (w_fs w) ->
  ps_on pos = true -> ps_gen pos = g -> ps_snap pos = R -> (R <= ps_top pos)%N ->
  base [p'] w' pos (Some R) /\ (ps_top pos = R -> inv [p'] w' pos (Some R)).
Proof.
  intros B Hr V Ef Efs Efs' On Hg Hs Ht. pose proof (bs_wf _ _ _ _ _ _ B) as Hw.
  pose proof (kept_refl (all_names rid (p' :: ps)) (gen_files (p' :: ps)) _ Hw) as K0.
  assert (kept (all_names rid (p' :: ps)) (gen_files (p' :: ps)) (w_fs w) (w_fs w')) as K.
  { rewrite Efs'. apply (kept_step _ _ _ _ _ K0); [done|apply spares_sync_dir|done]. }
  assert (ready g R i j (w_fs w')) as Hr'.
  { assert (p' ∈ p' :: ps) as Hp by by left. eapply ready_kept; [exact K|right; exists p'; by auto..| | |done]; exists p'; auto. }
  assert (base [p'] w' pos (Some R)) as B'.
  { split.
    + apply K.
    + split.
      * intros _ v Hv. exists p'. split; [by left|]. cbn. rewrite <- V. rewrite Efs' in Hv. by apply synced_settled.
      * intros p ->%list_elem_of_singleton. split; [|apply ready_data; [done|done|intros f [= <-]; lia]].
        eapply meta_ok_kept; [apply K|exists p'; split; [by left|by auto]|]. apply (proj2 (bs_pledge _ _ _ _ _ _ B)). by left.
    + intros p ->%list_elem_of_singleton. cbn. lia.
    + intros r f x Hf Hx. rewrite Efs in Hf. destruct (bs_logs _ _ _ _ _ _ B _ _ _ Hf Hx) as [L1 L2]. rewrite Efs'. split; [done|].
      intros p ->%list_elem_of_singleton. apply L2. by left.
    + intros f Hf. rewrite Efs in Hf. by apply (bs_gen _ _ _ _ _ _ B).
    + intros f [= <-]. split; [done|lia]. }
  split; [done|]. intros Htop. split; [done|]. intros _ _. exists p', (new_files j n), 0, 0. split; [|done]. destruct Hr' as (S1 & S2 & Hij & Hi & Hj & L & x & X).
  split; cbn [lines gn_gen gn_log]; try done; try lia.
  - by rewrite Efs.
  - rewrite Hs. by exists x.
  - exists 0. split_and!; [lia| |cbn; lia]. f_equal. lia.
Qed.

Lemma switch_acked_spec w C :
  wp (switch_acked rid g) (fun _ w' => w_fs w' = w_fs w /\ files w' = files w /\ ~ failing w' /\ wr_sync_due (w_writer w') = wr_sync_due (w_writer w)) C w.
Proof.
  unfold switch_acked. apply fwp_bind, wp_on_shared, fwp_bind, wp_on_writer, wp_on_shared. split_and!; try done.
  unfold RecoveryInv.failing; cbn. set_solver.
Qed.

Lemma try_switch_spec w0 :
  base ps w0 pos floor -> (forall p, p ∈ ps -> gn_gen p <> g) ->
  ps_on pos = true -> ps_gen pos = g -> ps_snap pos = R -> (R <= ps_top pos)%N -> (forall f, floor = Some f -> (f <= R)%N) ->
  wp (try_switch rid g R (T R) m) (fun r w' =>
    match r with
    | Ok _ => exists p, base [p] w' pos (Some R) /\ (ps_top pos = R -> inv [p] w' pos (Some R)) /\ ~ failing w'
    | Err _ => (exists ps', base ps' w' pos floor) /\ blame w0
    end) crashed w0.
Proof.
  intros B Hg On Eg Es Et HfR. unfold try_switch. apply (wp_new_files _ _ w0 B Hg).
  2:{ intros e w' S F Hb. split; [|done]. exists ps. by eapply base_frame. }
  intros j w1 S1 F1 (i & Hr & Li & Lj). pose proof (base_frame _ _ _ _ _ _ _ B F1) as B1.
  pose proof Hr as (_ & _ & Hij & Ui & Uj & _). apply (wp_commit _ _ w1 i j B1 Hg Et HfR Hr).
  2:{ intros e w2 ps' S2 Hw Hn Pl Hps Hb. split; [|by eapply same_blame]. exists ps'. destruct Hps as [->| ->]; [by eapply same_base|].
      apply (new_base w0); try done; try lia. unfold files. destruct S1 as (X1 & _), S2 as (X2 & _). by rewrite X2, X1. }
  intros w2 S2 Hw2 Hn2 Pl2 Hr2 V2. apply fwp_bind. eapply fwp_mono; [apply take_over_spec| |intros fs X; exact X].
  intros u w3 Hs3 (E3 & Ef3 & Hf3). set (p' := mkGen g (fs_next (w_fs w1)) i j) in *.
  assert (base (p' :: ps) w3 pos floor) as B3.
  { apply (insert_base w0 w2 w3 i j _ (N.of_nat (length (T R))) B); try done; try lia.
    apply (new_base w0); try done; try lia. unfold files. destruct S1 as (X1 & _), S2 as (X2 & _). by rewrite X2, X1. }
  assert (frame rid (p' :: ps) w3 w3) as F3 by apply frame_refl, B3. pose proof (fr_fs _ _ _ _ F3) as K3.
  assert (crashed = fun fs => exists ps', pledge floor (ps_top pos) fs ps') as _ by done.
  eapply (wp_io_then False); [eapply (fsp_sync_dir _ _ _ _ _ (fun _ fs' => fs' = fs_sync_dir (w_fs w3))); [exact K3|done]| | |].
  3:{ intros fs' K. exists (p' :: ps). eapply promise_kept; [apply K|apply B3]. }
  2:{ intros e w4 S4 K [Hb|[]]. split; [|apply (same_blame w0 w1 S1), (same_blame w1 w2 S2); by eapply blame_suffix].
      exists (p' :: ps). eapply base_frame; [exact B3|by apply same_frame]. }
  intros a4 w4 S4 E4. apply fwp_bind. eapply fwp_mono; [apply switch_acked_spec| |intros fs X; exact X].
  intros u5 w5 _ (E5 & Ef5 & Hf5 & _).
  assert (base [p'] w5 pos (Some R) /\ (ps_top pos = R -> inv [p'] w5 pos (Some R))) as [B5 I5].
  { eapply (synced_inv w3 w5 i j); try done; [by rewrite E3|by rewrite E3|by rewrite Ef3, lookup_insert_eq| |by rewrite E5].
    rewrite Ef5. unfold files. by destruct S4 as (-> & _). }
  apply fwp_bind. eapply fwp_mono; [eapply (apart_retire_strays rid T [p'] pos (Some R)); [exact B5|]| |].
  - intros g' Hg'. apply all_names_fresh. intros p ->%list_elem_of_singleton. done.
  - intros u6 w6 _ F6. cbn in F6. apply fwp_ret. exists p'.
    split_and!; [by eapply base_frame|intros X; eapply inv_spared; [by apply I5|done]|]. by rewrite (fr_failing _ _ _ _ F6).
  - intros fs' Pl. exists [p']. eapply promise_mono; [| |exact Pl]; [done|]. intros r x (X1 & X2 & X3). split_and!; [done|done|].
    intros f Hf. apply HfR in Hf. specialize (X3 R eq_refl). lia.
Qed.
End own.
