(* ===== verification/RecoveryRun.v ===== *)
(** * The editor daemon's recovery files: the writer's messages

    Every message of a rid's stream keeps the invariant of [RecoveryInv.v]: a finished switch makes
    its snapshot safe, an append adds a line, a sync makes every line safe, and a failure leaves the
    promise as it was. *)

From S2P Require Import Prelude Utf8 EditBase Ot GapBuffer Memory Text Buffer Str BTree MirrorTypes RecoveryFs Recovery RecoveryLoad.
From S2P Require Import RecoveryWp RecoveryDisk RecoveryReplay RecoveryInv RecoveryApart RecoveryOwn.

Section run.
Context {G : Type} {TS : TextStore G} {SL : TextStoreLaws G} {ENV : RecoveryEnv} {RL : RecoveryLaws}.
Context (rid : bytes) (T : N -> bytes) (E : N -> list Edit) (granted : memory_granted G re_reserve) (hist : history T E).

Notation base := (base (G := G) rid T).
Notation inv := (inv (G := G) rid T E).
Notation live := (live (G := G) rid T E).
Notation pledge := (pledge (G := G) rid T).
Notation failing := (failing rid).

(** ** The invariant from one world or position to another *)

Lemma base_same ps w w' pos floor : w_fs w' = w_fs w -> files w' = files w -> base ps w pos floor -> base ps w' pos floor.
Proof. intros E1 E2 [B1 B2 B3 B4 B5 B6]. split; unfold own_logs; rewrite ?E1, ?E2; done. Qed.

Lemma base_move ps w pos pos' floor :
  (ps_gen pos <= ps_gen pos')%N -> (ps_top pos <= ps_top pos')%N -> ps_on pos' = true -> base ps w pos floor -> base ps w pos' floor.
Proof.
  intros H1 H2 H3 [B1 B2 B3 B4 B5 B6]. split; try done.
  - eapply promise_mono; [done| |exact B2]. intros r x (X1 & X2 & X3). split_and!; [done|lia|done].
  - intros p Hp. specialize (B3 p Hp). lia.
  - intros f Hf. specialize (B5 f Hf). lia.
  - intros f Hf. destruct (B6 f Hf). split; [done|lia].
Qed.

Definition crashed (floor : option N) (top : N) (fs : Fs) : Prop := exists ps, pledge floor top fs ps.

Lemma base_crashed ps w pos floor : base ps w pos floor -> crashed floor (ps_top pos) (w_fs w).
Proof. intros B. exists ps. apply B. Qed.

Lemma inv_failing ps w pos floor : base ps w pos floor -> failing w -> inv ps w pos floor.
Proof. intros B Hf. by split. Qed.

(** ** A failure *)

Lemma failed_spec r sw w C :
  wp (fail r sw) (fun _ w' => w_fs w' = w_fs w /\ files w' = files w /\ wr_sync_due (w_writer w') = wr_sync_due (w_writer w) /\
                              (failing w' <-> r = rid \/ failing w)) C w.
Proof.
  clear hist granted T E. unfold fail. apply fwp_bind, wp_on_shared, fwp_bind, wp_on_writer, wp_on_shared. split_and!; try done.
  unfold RecoveryInv.failing; cbn. set_solver.
Qed.

(** ** Switch *)

Definition switched (floor : option N) (R : N) (w' : World) : option N := if bool_decide (failing w') then floor else Some R.

Lemma switch_spec ps w pos floor g R m :
  inv ps w pos floor -> (ps_gen pos < g)%N -> (ps_top pos <= R)%N -> switch_fits rid g R (T R) m ->
  wp (switch rid g R (T R) m) (fun _ w' => (exists ps', inv ps' w' (mkPos true g R R) (switched floor R w')) /\ (failing w' -> blame w))
     (crashed floor R) w.
Proof.
  intros [B _] Hg HR Hfit. assert (base ps w (mkPos true g R R) floor) as B' by (apply (base_move _ _ pos); cbn; try done; lia).
  unfold switch. apply fwp_bind. eapply fwp_mono; [apply (try_switch_spec rid T E granted hist ps (mkPos true g R R) floor g R m Hfit w B')| |done]; try done.
  { intros p Hp. pose proof (bs_gens _ _ _ _ _ _ B p Hp). lia. }
  { intros f Hf. apply (bs_floor _ _ _ _ _ _ B) in Hf as [_ Hf]. lia. }
  intros [[]|e] w1 _ Hr.
  - destruct Hr as (p & _ & I & Hn). apply fwp_ret. split; [|done]. exists [p]. unfold switched. rewrite bool_decide_false by done. by apply I.
  - destruct Hr as ((ps' & B1) & Hb). apply fwp_bind, wp_ask, fwp_bind.
    assert (wp (if bool_decide (current_gen rid w1 = Some g) then mret tt else alter_world (on_writer (push_stray rid g)))
      (fun _ w2 => w_fs w2 = w_fs w1 /\ files w2 = files w1) (crashed floor R) w1) as H.
    { case_bool_decide; [by apply fwp_ret|by apply wp_on_writer]. }
    eapply fwp_mono; [exact H| |done]. intros u w2 _ (E1 & E2). eapply fwp_mono; [apply failed_spec| |intros fs X; exact X].
    intros u' w3 _ (F1 & F2 & _ & F3). split; [|done]. exists ps'. unfold switched. rewrite bool_decide_true by (apply F3; by left).
    apply inv_failing; [|apply F3; by left]. apply (base_same _ w1); [by rewrite F1|by rewrite F2|done].
Qed.

(** A switch when only the promise is known. *)
Lemma switch_base ps w pos floor g R m :
  base ps w pos floor -> (forall p, p ∈ ps -> gn_gen p <> g) -> switch_fits rid g R (T R) m ->
  ps_on pos = true -> ps_gen pos = g -> ps_snap pos = R -> (R <= ps_top pos)%N -> floor = Some R ->
  wp (switch rid g R (T R) m) (fun _ w' => exists ps', base ps' w' pos floor) (crashed floor (ps_top pos)) w.
Proof.
  intros B Hg Hfit On Eg Es Ht Hfl. unfold switch. apply fwp_bind.
  eapply fwp_mono; [apply (try_switch_spec rid T E granted hist ps pos floor g R m Hfit w B); try done; rewrite Hfl; by intros f [= <-]| |done].
  intros [[]|e] w1 _ Hr.
  - destruct Hr as (p & B1 & _ & _). apply fwp_ret. exists [p]. by rewrite Hfl.
  - destruct Hr as ((ps' & B1) & _). apply fwp_bind, wp_ask, fwp_bind.
    assert (wp (if bool_decide (current_gen rid w1 = Some g) then mret tt else alter_world (on_writer (push_stray rid g)))
      (fun _ w2 => w_fs w2 = w_fs w1 /\ files w2 = files w1) (crashed floor (ps_top pos)) w1) as H.
    { case_bool_decide; [by apply fwp_ret|by apply wp_on_writer]. }
    eapply fwp_mono; [exact H| |done]. intros u w2 _ (E1 & E2). eapply fwp_mono; [apply failed_spec| |intros fs X; exact X].
    intros u' w3 _ (F1 & F2 & _ & _). exists ps'. apply (base_same _ w1); [by rewrite F1|by rewrite F2|done].
Qed.

(** ** The promise of a log that is appended to or synced *)

Lemma pledge_log ps w pos floor p f n k0 floor' top' fs' n' q k l m :
  base ps w pos floor -> live ps w pos floor p f n k0 ->
  kept (all_names rid [p]) (fun i => i = gn_meta p \/ i = gn_snap p) (w_fs w) fs' ->
  fs_inodes fs' !! gn_log p = Some (mkInode (take q (lines E (gn_gen p) (ps_snap pos) n')) k l) -> k <= length (take q (lines E (gn_gen p) (ps_snap pos) n')) ->
  (Z.of_nat (length (lines E (gn_gen p) (ps_snap pos) n')) <= LOG_READ_MAX)%Z -> (ps_snap pos + N.of_nat n' <= top')%N ->
  m <= n' -> floor' = Some (ps_snap pos + N.of_nat m)%N -> length (lines E (gn_gen p) (ps_snap pos) m) <= k ->
  pledge floor' top' fs' [p].
Proof.
  intros B L (K1 & K2 & K3) Ei Hk Hroom Htop Hm Ef Hl. destruct L as [-> L2 L3 L4 (x & X1 & X2 & X3) L6 L7 L8 (m0 & _ & Efl & _) L10].
  destruct (bs_pledge _ _ _ _ _ _ B) as [P1 P2]. destruct (P2 p) as [Pm (Pd1 & Pd2 & _)]; [by left|].
  assert (p ∈ [p]) as Hp by by left.
  split.
  - intros _ v Hv. apply P1; [by rewrite Efl|]. eapply sp_names; [exact K2|by left|done].
  - intros p' ->%list_elem_of_singleton. split; [by eapply meta_ok_kept; [exact K2|by left|]|]. split_and!.
    + eapply spares_settled; [exact K2| |exact Pd1]. right. exists p. auto.
    + eapply spares_settled; [exact K2| |exact Pd2]. right. exists p. auto.
    + exists (ps_snap pos), x, (mkInode (take q (lines E (gn_gen p) (ps_snap pos) n')) k l). split_and!; [|done|].
      * eapply snap_ok_kept; [exact K2|by right|done].
      * intros s Hs. eapply (torn_recovers T E granted hist floor' top' (gn_gen p) (ps_snap pos) n' m q k l x s); try done.
        intros f0 Hf0. rewrite Ef in Hf0. injection Hf0 as <-. done.
Qed.

Lemma log_alone ps w pos floor p f n k : base ps w pos floor -> live ps w pos floor p f n k -> gn_log p <> gn_meta p /\ gn_log p <> gn_snap p /\ gn_log p < fs_next (w_fs w).
Proof.
  intros B L. destruct (bs_logs _ _ _ _ _ _ B rid f (gn_log p)) as [H1 H2]; [apply L|apply L|].
  destruct (H2 p) as (H3 & H4 & _); [|done]. rewrite (lv_ps _ _ _ _ _ _ _ _ _ _ _ L). by left.
Qed.

Lemma kept_log ps w pos floor p f n k0 nm i : base ps w pos floor -> live ps w pos floor p f n k0 ->
  i_synced i <= length (i_data i) -> kept nm (fun j => j = gn_meta p \/ j = gn_snap p) (w_fs w) (with_inode (gn_log p) i (w_fs w)).
Proof.
  intros B L Hi. destruct (log_alone _ _ _ _ _ _ _ _ B L) as (H1 & H2 & H3).
  apply kept_with_inode; [by apply kept_refl, B|by intros [?|?]|done|done].
Qed.

(** The base of a world that differs in the log and the entry of the rid. *)
Lemma base_log ps w w' pos pos' floor floor' p f n k0 i g' :
  base ps w pos floor -> live ps w pos floor p f n k0 -> i_synced i <= length (i_data i) ->
  w_fs w' = with_inode (gn_log p) i (w_fs w) -> files w' = <[rid := g']> (files w) -> rf_log g' = Some (gn_log p) -> rf_generation g' = rf_generation f ->
  pledge floor' (ps_top pos') (w_fs w') [p] -> ps_gen pos' = ps_gen pos -> (forall x, floor' = Some x -> ps_on pos' = true /\ (x <= ps_top pos')%N) ->
  base ps w' pos' floor'.
Proof.
  intros B L Hi Ew Ef Hg1 Hg2 Pl Hg Hfl. destruct (log_alone _ _ _ _ _ _ _ _ B L) as (H1 & H2 & H3).
  pose proof (lv_ps _ _ _ _ _ _ _ _ _ _ _ L) as ->. pose proof (lv_gen _ _ _ _ _ _ _ _ _ _ _ L) as [G1 G2]. destruct B as [B1 B2 B3 B4 B5 B6]. split; try done.
  - rewrite Ew. by apply wf_inode.
  - intros p' Hp. rewrite Hg. by apply B3.
  - intros r x j Hx Hj. rewrite Ef in Hx. rewrite Ew. cbn. destruct (decide (rid = r)) as [<-|Hr].
    + rewrite lookup_insert_eq in Hx. injection Hx as <-. rewrite Hg1 in Hj. injection Hj as <-. split; [done|].
      intros p' ->%list_elem_of_singleton. split_and!; [done|done|]. intros _. split; [done|congruence].
    + rewrite lookup_insert_ne in Hx by done. by eapply B4.
  - intros x Hx. rewrite Ef, lookup_insert_eq in Hx. injection Hx as <-. lia.
Qed.

(** ** Append *)

(** The restore reads the whole log that holds the revisions up to [r]. *)
Definition log_fits (g R r : N) : Prop := (Z.of_nat (length (lines E g R (N.to_nat (r - R)))) <= LOG_READ_MAX)%Z.

Lemma wrote_spec f n w C :
  wp (wrote rid f n) (fun _ w' => w_fs w' = w_fs w /\ (failing w' <-> failing w) /\ wr_sync_due (w_writer w') = true /\
      exists b, files w' = <[rid := mkRidFiles (rf_generation f) (rf_log f) (rf_log_bytes f + n) (rf_snap_bytes f) (rf_unsynced f + 1) b]> (files w)) C w.
Proof.
  unfold wrote. apply fwp_bind, wp_on_writer, fwp_bind, wp_on_shared, fwp_bind, wp_on_writer.
  destruct (_ && _); [apply wp_on_shared|apply fwp_ret]; split_and!; try done; eexists; reflexivity.
Qed.

(** The record [bdy] of the next revision is at the log's end. *)
Lemma live_written w w' pos floor p f n k bdy f' :
  base [p] w pos floor -> live [p] w pos floor p f n k ->
  log_fits (ps_gen pos) (ps_snap pos) (ps_top pos + 1) ->
  enc_record (record_of E (ps_gen pos) (ps_top pos + 1)) = Ok bdy ->
  w_fs w' = with_inode (gn_log p) (mkInode (lines E (gn_gen p) (ps_snap pos) n ++ bdy ++ [NL]) k false) (w_fs w) ->
  files w' !! rid = Some f' -> rf_log f' = rf_log f -> rf_generation f' = rf_generation f -> rf_unsynced f' <> 0%N ->
  live [p] w' (mkPos true (ps_gen pos) (ps_snap pos) (ps_top pos + 1)) floor p f' (S n) k.
Proof.
  intros B L Hroom Eb Ew Ef E1 E2 Hu. pose proof (lv_gen _ _ _ _ _ _ _ _ _ _ _ L) as [Eg1 Eg2]. pose proof (lv_top _ _ _ _ _ _ _ _ _ _ _ L) as Et.
  destruct (lv_floor _ _ _ _ _ _ _ _ _ _ _ L) as (m & Hm & Efl & Hl).
  assert (lines E (gn_gen p) (ps_snap pos) (S n) = lines E (gn_gen p) (ps_snap pos) n ++ bdy ++ [NL]) as El.
  { rewrite lines_snoc. unfold line. by rewrite <- Et, Eg2, Eb. }
  pose proof (bs_wf _ _ _ _ _ _ B _ _ (lv_data _ _ _ _ _ _ _ _ _ _ _ L)) as [_ Hk]. cbn in Hk. split; cbn [ps_gen ps_snap ps_top].
  - done.
  - exact Ef.
  - by rewrite E2.
  - rewrite E1. apply L.
  - destruct (lv_snap _ _ _ _ _ _ _ _ _ _ _ L) as (x & X1 & X2). exists x. split; [|done]. rewrite Ew.
    destruct (kept_log [p] w pos floor p f n k (all_names rid [p]) (mkInode (lines E (gn_gen p) (ps_snap pos) n ++ bdy ++ [NL]) k false) B L) as (_ & Sp & _).
    { cbn. rewrite length_app. lia. }
    eapply snap_ok_kept; [exact Sp|by right|exact X1].
  - rewrite Ew. cbn -[lines]. by rewrite lookup_insert_eq, El.
  - unfold log_fits in Hroom. rewrite Et, <- Eg2 in Hroom. by replace (N.to_nat (ps_snap pos + N.of_nat n + 1 - ps_snap pos)) with (S n) in Hroom by lia.
  - lia.
  - exists m. split_and!; [lia|done|done].
  - intros Hz. done.
Qed.

Lemma append_live ps w pos floor p f n k bdy :
  base ps w pos floor -> live ps w pos floor p f n k -> ps_on pos = true ->
  log_fits (ps_gen pos) (ps_snap pos) (ps_top pos + 1) ->
  enc_record (record_of E (ps_gen pos) (ps_top pos + 1)) = Ok bdy ->
  let pos' := mkPos true (ps_gen pos) (ps_snap pos) (ps_top pos + 1)%N in
  wp (r ← write_all (gn_log p) (bdy ++ [NL]); match r with Err _ => fail rid None | Ok _ => wrote rid f (N.of_nat (length (bdy ++ [NL]))) end)
    (fun _ w' => inv [p] w' pos' floor /\ (failing w' -> failing w \/ blame w)) (crashed floor (ps_top pos')) w.
Proof.
  intros B L Hon Hroom Eb pos'. pose proof (lv_ps _ _ _ _ _ _ _ _ _ _ _ L) as ->. pose proof (lv_gen _ _ _ _ _ _ _ _ _ _ _ L) as [Eg1 Eg2].
  pose proof (lv_data _ _ _ _ _ _ _ _ _ _ _ L) as Ed. pose proof (lv_top _ _ _ _ _ _ _ _ _ _ _ L) as Et.
  destruct (lv_floor _ _ _ _ _ _ _ _ _ _ _ L) as (m & Hm & Efl & Hl). rewrite <- Eg2 in *. set (g := gn_gen p) in *. set (R := ps_snap pos) in *.
  pose proof (bs_wf _ _ _ _ _ _ B _ _ Ed) as [_ Hk]. cbn in Hk.
  assert (lines E g R (S n) = lines E g R n ++ bdy ++ [NL]) as El.
  { rewrite lines_snoc. unfold line. rewrite <- Et, Eb. done. }
  assert (Z.of_nat (length (lines E g R (S n))) <= LOG_READ_MAX)%Z as Hroom'.
  { unfold log_fits in Hroom. rewrite Et in Hroom. by replace (N.to_nat (R + N.of_nat n + 1 - R)) with (S n) in Hroom by lia. }
  set (w1 q := put_fs (with_inode (gn_log p) (mkInode (lines E g R n ++ take q (bdy ++ [NL])) k false) (w_fs w)) w).
  assert (forall q, lines E g R n ++ take q (bdy ++ [NL]) = take (length (lines E g R n) + q) (lines E g R (S n))) as Etk.
  { intros q. by rewrite El, take_app_add. }
  assert (forall q, pledge floor (ps_top pos') (w_fs (w1 q)) [p]) as Hpl.
  { intros q. eapply (pledge_log [p] w pos floor p f n k floor _ _ (S n) (length (lines E g R n) + q) k false m); try done; try (cbn; lia).
    - eapply kept_log; [exact B|exact L|]. cbn. rewrite length_app. lia.
    - cbn. rewrite lookup_insert_eq. by rewrite Etk.
    - rewrite <- Etk, length_app. lia. }
  assert (forall q w', w_fs w' = w_fs (w1 q) -> (exists g', files w' = <[rid := g']> (files w) /\ rf_log g' = Some (gn_log p) /\ rf_generation g' = rf_generation f) ->
            base [p] w' pos' floor) as Hbase.
  { intros q w' Ew (g' & Ef & Hg1 & Hg2). eapply (base_log [p] w w' pos pos' floor floor p f n k _ g' B L); [|exact Ew|done..| |done|].
    - cbn. rewrite length_app. lia.
    - rewrite Ew. apply Hpl.
    - intros x Hx. destruct (bs_floor _ _ _ _ _ _ B x Hx). split; [done|cbn; lia]. }
  assert (forall q, fs_write (gn_log p) (take q (bdy ++ [NL])) (w_fs w) = w_fs (w1 q)) as Ewr.
  { intros q. unfold fs_write. by rewrite Ed. }
  assert (files w = <[rid := f]> (files w)) as Eself by (symmetry; apply insert_id; apply L).
  apply fwp_bind. eapply fwp_mono; [apply (fsp_call False _ _ (w_fs w) (fun _ fs' => fs' = w_fs (w1 (length (bdy ++ [NL])))) (fun fs' => exists q, fs' = w_fs (w1 q)))| |].
  - cbn [fst snd]. rewrite <- Ewr. by rewrite take_ge by lia.
  - intros q. exists q. apply Ewr.
  - done.
  - intros r w2 _ (E1 & E2 & _ & Hr). destruct r as [[]|e].
    + eapply fwp_mono; [apply wrote_spec| |intros fs X; exact X]. intros u w3 _ (F1 & F2 & F3 & b & F4).
      assert (files w3 = <[rid := mkRidFiles (rf_generation f) (rf_log f) (rf_log_bytes f + N.of_nat (length (bdy ++ [NL]))) (rf_snap_bytes f) (rf_unsynced f + 1) b]> (files w)) as Ef3
        by (rewrite F4; unfold files; by rewrite E1).
      assert (base [p] w3 pos' floor) as B3.
      { eapply (Hbase (length (bdy ++ [NL]))); [by rewrite F1|]. eexists. split; [exact Ef3|]. split; [apply L|done]. }
      split; [|intros X; left; rewrite F2 in X; unfold RecoveryInv.failing in *; by rewrite <- E2].
      split; [done|]. intros _ _. eexists p, _, (S n), k. split; [|by rewrite F3].
      eapply (live_written w w3 pos floor p f n k bdy _ B L); [by rewrite <- Eg2|by rewrite <- Eg2| |by rewrite Ef3; apply lookup_insert_eq|done|done|cbn; lia].
      rewrite F1, Hr. unfold w1. cbn [w_fs put_fs]. by rewrite take_ge by lia.
    + destruct Hr as [[q Eq] Hb]. eapply fwp_mono; [apply failed_spec| |intros fs X; exact X]. intros u w3 _ (F1 & F2 & _ & F3).
      split; [|intros _; right; by destruct Hb as [?|[]]]. apply inv_failing; [|apply F3; by left].
      eapply (Hbase q); [by rewrite F1|]. exists f. split; [|split; [apply L|done]]. rewrite F2. unfold files at 1. rewrite E1. exact Eself.
  - intros fs' [q ->]. exists [p]. apply Hpl.
Qed.

Lemma append_spec ps w pos floor :
  let r := (ps_top pos + 1)%N in
  inv ps w pos floor -> ps_on pos = true -> log_fits (ps_gen pos) (ps_snap pos) r ->
  let pos' := mkPos true (ps_gen pos) (ps_snap pos) r in
  wp (append rid (ps_gen pos) r (E r)) (fun _ w' => (exists ps', inv ps' w' pos' floor) /\ (failing w' -> failing w \/ blame w)) (crashed floor r) w.
Proof.
  intros r [B L] Hon Hroom pos'. unfold append. apply fwp_bind, wp_on_shared, fwp_bind, wp_ask, fwp_bind, wp_ask.
  set (w1 := on_shared _ w). assert (base ps w1 pos floor) as B1 by (by apply (base_same _ w)).
  assert (base ps w1 pos' floor) as B1' by (apply (base_move _ _ pos); cbn; try done; lia).
  case_bool_decide as Hf.
  - assert (forall C, wp (mret tt) (fun _ w' => (exists ps', inv ps' w' pos' floor) /\ (failing w' -> failing w \/ blame w)) C w1) as Hret.
    { intros C. apply fwp_ret. split; [|by left]. exists ps. by apply inv_failing. }
    destruct (wr_files _ !! rid) as [f|]; [|apply Hret]. destruct (negb _); apply Hret.
  - destruct (L Hon Hf) as (p & f & n & k & Lv & _). assert (live ps w1 pos floor p f n k) as Lv1 by (destruct Lv; by split).
    change (wr_files (w_writer w1) !! rid) with (files w1 !! rid). rewrite (lv_files _ _ _ _ _ _ _ _ _ _ _ Lv1).
    destruct (lv_gen _ _ _ _ _ _ _ _ _ _ _ Lv1) as [G1 G2]. rewrite G1, G2, N.eqb_refl. cbn [negb].
    destruct (line_body T E hist (ps_gen pos) r ltac:(lia)) as (bdy & Eb & _). unfold record_of in Eb at 1. rewrite Eb.
    rewrite (lv_log _ _ _ _ _ _ _ _ _ _ _ Lv1).
    eapply fwp_mono; [eapply (append_live ps w1 pos floor p f n k bdy); done| |done].
    intros u w2 _ [I Hb]. split; [by exists [p]|exact Hb].
Qed.
End run.
