(* ===== verification/RecoverySync.v ===== *)
(** * The editor daemon's recovery files: sync, discard and the stream of messages

    A sync makes every appended line safe, or marks the rid failed; a discard ends the promise.
    With [RecoveryRun.v] every message keeps the invariant; [follow] runs the writer over a stream
    and keeps the books: where each rid's stream stands and what is safe. *)

From S2P Require Import Prelude Utf8 EditBase Ot GapBuffer Memory Text Buffer Str BTree MirrorTypes RecoveryFs Recovery RecoveryLoad.
From S2P Require Import RecoveryWp RecoveryDisk RecoveryReplay RecoveryInv RecoveryApart RecoveryOwn RecoveryRun.

Section sync.
Context {G : Type} {TS : TextStore G} {SL : TextStoreLaws G} {ENV : RecoveryEnv} {RL : RecoveryLaws}.
Context (rid : bytes) (T : N -> bytes) (E : N -> list Edit) (granted : memory_granted G re_reserve) (hist : history T E).

Notation base := (base (G := G) rid T).
Notation inv := (inv (G := G) rid T E).
Notation live := (live (G := G) rid T E).
Notation pledge := (pledge (G := G) rid T).
Notation failing := (failing rid).
Notation crashed := (crashed (G := G) rid T).

(** ** Sync *)

Definition synced_files (f : RidFiles) : RidFiles :=
  mkRidFiles (rf_generation f) (rf_log f) (rf_log_bytes f) (rf_snap_bytes f) 0 (rf_compaction_asked f).

(** The rid's own log, in whatever state. *)
Lemma base_inode ps w w' pos floor f fs' :
  base ps w pos floor -> fs_wf fs' -> spares (all_names rid ps) (gen_files ps) (w_fs w) fs' ->
  w_fs w' = fs' -> files w !! rid = Some f -> files w' = files w \/ files w' = <[rid := synced_files f]> (files w) -> base ps w' pos floor.
Proof.
  intros [B1 B2 B3 B4 B5 B6] Hw Sp Ew Ef Efs. pose proof (sp_next _ _ _ _ Sp) as Hn. split; rewrite ?Ew; try done.
  - by eapply promise_kept.
  - intros r x j Hx Hj. rewrite Ew.
    assert (exists x0, files w !! r = Some x0 /\ rf_log x0 = Some j /\ rf_generation x0 = rf_generation x) as (x0 & X1 & X2 & X3).
    { destruct Efs as [Efs|Efs]; rewrite Efs in Hx; [by exists x|]. destruct (decide (rid = r)) as [<-|Hr].
      - rewrite lookup_insert_eq in Hx. injection Hx as <-. by exists f.
      - rewrite lookup_insert_ne in Hx by done. by exists x. }
    destruct (B4 _ _ _ X1 X2) as [L1 L2]. rewrite X3 in L2. split; [lia|done].
  - intros x Hx. destruct Efs as [Efs|Efs]; rewrite Efs in Hx; [by apply B5|]. rewrite lookup_insert_eq in Hx. injection Hx as <-. cbn. by apply B5.
Qed.

Lemma live_synced ps w w' pos floor p f n k :
  base ps w pos floor -> live ps w pos floor p f n k ->
  w_fs w' = with_inode (gn_log p) (mkInode (lines E (gn_gen p) (ps_snap pos) n) (length (lines E (gn_gen p) (ps_snap pos) n)) false) (w_fs w) ->
  files w' = <[rid := synced_files f]> (files w) -> live ps w' pos floor p (synced_files f) n (length (lines E (gn_gen p) (ps_snap pos) n)).
Proof.
  intros B L Ew Ef. destruct (log_alone rid T E _ _ _ _ _ _ _ _ B L) as (H1 & H2 & H3).
  destruct (kept_log rid T E ps w pos floor p f n k (all_names rid ps) (mkInode (lines E (gn_gen p) (ps_snap pos) n) (length (lines E (gn_gen p) (ps_snap pos) n)) false) B L) as (_ & Sp & _); [done|].
  pose proof (bs_wf _ _ _ _ _ _ B _ _ (lv_data _ _ _ _ _ _ _ _ _ _ _ L)) as [_ Hk]. cbn in Hk.
  destruct L as [L1 L2 L3 L4 (x & X1 & X2) L6 L7 L8 (m & M1 & M2 & M3) L10]. split; try done.
  - by rewrite Ef, lookup_insert_eq.
  - exists x. split; [|done]. rewrite Ew. eapply snap_ok_kept; [exact Sp|by right|exact X1].
  - rewrite Ew. cbn. by rewrite lookup_insert_eq.
  - exists m. split_and!; [done|done|lia].
Qed.

Lemma sync_own ps w pos floor f (ok : Prop) :
  base ps w pos floor -> files w !! rid = Some f -> (ok -> exists p n k, live ps w pos floor p f n k) ->
  wp (sync_one rid f) (fun r w' => base ps w' pos floor /\ (failing w' <-> failing w) /\ 
    (forall r', r' <> rid -> files w' !! r' = files w !! r') /\ (forall x, r = Some x -> x = rid /\ blame w) /\
    (r = None -> ok -> exists p n k, live ps w' pos floor p (synced_files f) n k))
    (crashed floor (ps_top pos)) w.
Proof.
  intros B Ef L. pose proof (bs_wf _ _ _ _ _ _ B) as Hw. unfold sync_one. apply fwp_bind.
  assert (wp (match rf_log f with Some log => sync_all log | None => mret (Ok tt) end)
    (fun r w' => w_writer w' = w_writer w /\ w_shared w' = w_shared w /\
       match r with Ok _ => w_fs w' = match rf_log f with Some j => fs_sync j (w_fs w) | None => w_fs w end
                  | Err _ => (exists j, w_fs w' = fs_lose j (w_fs w)) /\ blame w end) (crashed floor (ps_top pos)) w) as H.
  { destruct (rf_log f) as [j|]; [|by apply fwp_ret]. eapply fwp_mono; [apply (fsp_call False _ _ (w_fs w) (fun _ fs' => fs' = fs_sync j (w_fs w)) (fun fs' => fs' = fs_lose j (w_fs w)))| |]; try done.
    - intros [[]|e] w' _ (E1 & E2 & _ & Hr); split_and!; try done. + by exists j; apply Hr. + by destruct Hr as [_ [?|?]].
    - intros fs' ->. exists ps. eapply promise_kept; [by apply spares_lose|apply B]. }
  eapply fwp_mono; [exact H| |done]. intros r w1 Hs (E1 & E2 & Hr). destruct r as [[]|e].
  - apply fwp_bind, wp_on_writer, fwp_bind, wp_on_shared, fwp_ret.
    set (w2 := on_shared _ _).
    assert (files w2 = <[rid := synced_files f]> (files w)) as Ef2 by (unfold w2, files; cbn; by rewrite E1).
    assert (w_fs w2 = match rf_log f with Some j => fs_sync j (w_fs w) | None => w_fs w end) as Ew2 by exact Hr.
    split_and!.
    + assert (fs_wf (w_fs w2) /\ spares (all_names rid ps) (gen_files ps) (w_fs w) (w_fs w2)) as [Wf2 Sp2].
      { rewrite Ew2. destruct (rf_log f); [split; [by apply wf_sync|by apply spares_sync]|split; [done|apply spares_refl]]. }
      eapply (base_inode ps w w2 pos floor f); try done. by right.
    + unfold RecoveryInv.failing, w2; cbn. by rewrite E2.
    + intros r' Hr'. rewrite Ef2. by apply lookup_insert_ne.
    + done.
    + intros _ Ok. destruct (L Ok) as (p & n & k & Lv). exists p, n, (length (lines E (gn_gen p) (ps_snap pos) n)).
      eapply live_synced; [exact B|exact Lv| |done]. rewrite Ew2, (lv_log _ _ _ _ _ _ _ _ _ _ _ Lv). unfold fs_sync.
      by rewrite (lv_data _ _ _ _ _ _ _ _ _ _ _ Lv).
  - destruct Hr as [[j Hr] Hb]. apply fwp_ret. split_and!; try done.
    + eapply (base_inode ps w w1 pos floor f); [done| | |exact Hr|done|left; unfold files; by rewrite E1]; [by apply wf_lose|by apply spares_lose].
    + unfold RecoveryInv.failing. by rewrite E2.
    + intros r' _. unfold files. by rewrite E1.
    + by intros x [= <-].
Qed.


Lemma sync_other ps w pos floor r f : base ps w pos floor -> r <> rid -> files w !! r = Some f ->
  wp (sync_one r f) (fun x w' => frame rid ps w w' /\ (forall y, x = Some y -> y = r /\ blame w) /\ (forall r', r' <> r -> files w' !! r' = files w !! r'))
     (crashed floor (ps_top pos)) w.
Proof. intros B Hr Ef. eapply fwp_mono; [by apply (apart_sync_one (G := G) rid T ps pos floor r)|done|]. intros fs' Pl. by exists ps. Qed.

Definition clean_log (ps : list Gen) (w : World) (pos : Pos) (floor : option N) (done : Prop) : Prop :=
  exists p f n k, live ps w pos floor p f n k /\ (done -> rf_unsynced f = 0%N).

Lemma sync_head ps w pos floor r f (ok d : Prop) :
  base ps w pos floor -> files w !! r = Some f -> (ok -> clean_log ps w pos floor d) -> (d -> r <> rid) ->
  wp (if (0 <? rf_unsynced f)%N then sync_one r f else mret None)
    (fun x w' => base ps w' pos floor /\ (failing w' <-> failing w) /\ (forall y, x = Some y -> y = r /\ blame w) /\
       (forall r', r' <> r -> files w' !! r' = files w !! r') /\
       (x <> Some rid -> ok -> clean_log ps w' pos floor (d \/ r = rid))) (crashed floor (ps_top pos)) w.
Proof.
  intros B Ef L Hd.
  assert (r = rid -> forall p f' n k, live ps w pos floor p f' n k -> f' = f) as Hown.
  { intros -> p f' n k H1. pose proof (lv_files _ _ _ _ _ _ _ _ _ _ _ H1) as Ef'. rewrite Ef in Ef'. by injection Ef'. }
  destruct (N.ltb_spec 0 (rf_unsynced f)) as [Hu|Hu].
  2:{ apply fwp_ret. split_and!; try done. intros _ Ok. destruct (L Ok) as (p & f' & n & k & H1 & H2). exists p, f', n, k. split; [done|].
      intros [?|Hr]; [auto|]. rewrite (Hown Hr _ _ _ _ H1). lia. }
  destruct (decide (r = rid)) as [->|Hne].
  - eapply fwp_mono; [apply (sync_own ps w pos floor f ok B Ef)| |done].
    + intros Ok. destruct (L Ok) as (p & f' & n & k & H1 & _). rewrite (Hown eq_refl _ _ _ _ H1) in H1. eauto.
    + intros x w' _ (X1 & X2 & X4 & X5 & X6). split_and!; try done. intros Hx Ok.
      destruct x as [y|]; [by destruct (X5 y eq_refl) as [-> _]|]. destruct (X6 eq_refl Ok) as (p & n & k & Lv).
      by exists p, (synced_files f), n, k.
  - eapply fwp_mono; [by apply sync_other| |done]. intros x w' _ (F & X1 & X2). split_and!; try done.
    + by eapply base_frame.
    + by destruct F.
    + intros Hx Ok. destruct (L Ok) as (p & f' & n & k & H1 & H2). exists p, f', n, k. split; [by eapply live_frame|]. intros [?|?]; auto; done.
Qed.

Lemma sync_each_spec l : forall ps w pos floor (ok d : Prop),
  NoDup l.*1 -> (forall r f, (r, f) ∈ l -> files w !! r = Some f) -> base ps w pos floor -> (d -> rid ∉ l.*1) ->
  (ok -> clean_log ps w pos floor d) ->
  wp (sync_each l) (fun x w' => base ps w' pos floor /\ (failing w' <-> failing w) /\ (x <> [] -> blame w) /\
      (rid ∉ x -> ok -> clean_log ps w' pos floor (d \/ rid ∈ l.*1)))
     (crashed floor (ps_top pos)) w.
Proof.
  induction l as [|[r f] l IH]; intros ps w pos floor ok d Hnd Hl B Hd L; cbn [sync_each].
  { apply fwp_ret. split_and!; try done. intros _ Ok. destruct (L Ok) as (p & f & n & k & H1 & H2).
    exists p, f, n, k. split; [done|]. intros [?|H]; [auto|by apply elem_of_nil in H]. }
  cbn [fmap list_fmap fst] in Hnd, Hd |- *. apply NoDup_cons in Hnd as [Hr Hnd].
  assert (files w !! r = Some f) as Ef by (apply Hl; by left).
  assert (forall (w' : World) r' f', (forall r', r' <> r -> files w' !! r' = files w !! r') -> (r', f') ∈ l -> files w' !! r' = Some f') as Hrest.
  { intros w' r' f' X Hin. rewrite X; [apply Hl; by right|]. intros ->. apply Hr. apply list_elem_of_fmap. by exists (r, f'). }
  apply fwp_bind.
  eapply fwp_mono; [apply (sync_head ps w pos floor r f ok d B Ef L); set_solver| |done].
  intros x w1 Hs (B1 & X2 & X3 & X4 & X5). apply fwp_bind.
  eapply fwp_mono; [apply (IH ps w1 pos floor (ok /\ x <> Some rid) (d \/ r = rid)); [done|by intros; eapply Hrest|done| |]| |done].
  - intros [Hd'| <-]; [|done]. apply Hd in Hd'. set_solver.
  - intros [Ok Hx]. by apply X5.
  - intros y w2 _ (Y1 & Y2 & Y3 & Y4). apply fwp_ret. split_and!; [done|by rewrite Y2| |].
    + intros Hne. destruct x as [z|]; [by destruct (X3 z eq_refl)|]. eapply blame_suffix; [exact Hs|by apply Y3].
    + intros Hn Ok. destruct Y4 as (p & f' & n & k & H1 & H2); [destruct x; set_solver|split; [done|intros ->; set_solver]|].
      exists p, f', n, k. split; [done|]. intros Hin. apply H2. set_solver.
Qed.

Lemma fail_each_spec l : forall w C,
  wp (fail_each l) (fun _ w' => w_fs w' = w_fs w /\ files w' = files w /\ wr_sync_due (w_writer w') = wr_sync_due (w_writer w) /\
                                (failing w' <-> rid ∈ l \/ failing w)) C w.
Proof.
  induction l as [|r l IH]; intros w C; cbn [fail_each].
  { apply fwp_ret. split_and!; try done. split; [auto|]. intros [?%elem_of_nil|?]; done. }
  apply fwp_bind. eapply fwp_mono; [apply failed_spec| |intros fs X; exact X]. intros u w1 _ (E1 & E2 & E3 & E4).
  eapply fwp_mono; [apply IH| |done]. intros u' w2 _ (F1 & F2 & F3 & F4).
  split_and!; [by rewrite F1|by rewrite F2|by rewrite F3|]. rewrite F4, E4. set_solver.
Qed.

(** What is safe after a sync. *)
Definition settled_floor (pos : Pos) (floor : option N) (w' : World) : option N :=
  if bool_decide (failing w') then floor else (fun _ => ps_top pos) <$> floor.

Lemma raise_floor ps w pos floor p f n k :
  base ps w pos floor -> live ps w pos floor p f n k -> rf_unsynced f = 0%N -> ps_on pos = true ->
  base ps w pos (Some (ps_top pos)) /\ live ps w pos (Some (ps_top pos)) p f n k.
Proof.
  intros B L Hu Hon. pose proof (lv_ps _ _ _ _ _ _ _ _ _ _ _ L) as ->. pose proof (lv_synced _ _ _ _ _ _ _ _ _ _ _ L Hu) as ->.
  pose proof (lv_top _ _ _ _ _ _ _ _ _ _ _ L) as Et. split.
  - pose proof (lv_data _ _ _ _ _ _ _ _ _ _ _ L) as Ed.
    assert (pledge (Some (ps_top pos)) (ps_top pos) (w_fs w) [p]) as Pl.
    { eapply (pledge_log rid T E granted hist [p] w pos floor p f n _ _ _ (w_fs w) n (length (lines E (gn_gen p) (ps_snap pos) n)) _ false n B L); try done.
      - apply kept_refl, B.
      - rewrite take_ge by lia. done.
      - apply L.
      - lia.
      - by rewrite Et.
      - rewrite take_ge by lia. done. }
    destruct B as [B1 B2 B3 B4 B5 B6]. split; try done. by intros x [= <-].
  - destruct L as [L1 L2 L3 L4 L5 L6 L7 L8 L9 L10]. split; try done. exists n. split_and!; [done|by rewrite Et|done].
Qed.

Lemma sync_spec `{HashIter} ps w pos floor :
  inv ps w pos floor ->
  wp sync (fun _ w' => (exists ps', inv ps' w' pos (settled_floor pos floor w')) /\ (failing w' -> failing w \/ blame w)) (crashed floor (ps_top pos)) w.
Proof.
  intros [B L]. unfold sync. apply fwp_bind, wp_on_writer, fwp_bind, wp_ask. set (w0 := on_writer _ w).
  assert (base ps w0 pos floor) as B0 by (by apply (base_same rid T _ w)).
  apply fwp_bind. eapply fwp_mono; [apply (sync_each_spec _ ps w0 pos floor (ps_on pos = true /\ ~ failing w) False)| |done]; try done.
  - rewrite hash_iter_perm. apply NoDup_fst_map_to_list.
  - intros r f Hin. rewrite hash_iter_perm in Hin. by apply elem_of_map_to_list in Hin.
  - intros [Hon Hf]. destruct (L Hon Hf) as (p & f & n & k & Lv & _). exists p, f, n, k. split; [|done]. destruct Lv; by split.
  - intros x w1 Hs (B1 & X1 & X2 & X3). eapply fwp_mono; [apply fail_each_spec| |intros fs X; exact X].
    intros u w2 _ (E1 & E2 & E3 & E4). split; [exists ps|rewrite E4, X1; intros [Hx|?]; [right; apply X2; by intros ->; apply elem_of_nil in Hx|by left]].
    assert (base ps w2 pos floor) as B2 by (by apply (base_same rid T _ w1)).
    unfold settled_floor. case_bool_decide as Hf; [by apply inv_failing|].
    rewrite E4, X1 in Hf. assert (rid ∉ x /\ ~ failing w) as [Hx Hf'] by (split; intros ?; apply Hf; [by left|by right]).
    destruct (ps_on pos) eqn:Hon.
    + destruct (X3 Hx (conj eq_refl Hf')) as (p & f & n & k & Lv & Hu).
      assert (live ps w2 pos floor p f n k) as Lv2.
      { destruct Lv as [L1 L2 L3 L4 L5 L6 L7 L8 L9 L10]. split; rewrite ?E1, ?E2; done. }
      assert (rf_unsynced f = 0%N) as Hu0.
      { apply Hu. right. destruct (L eq_refl Hf') as (p0 & f0 & n0 & k0 & Lv0 & _). apply list_elem_of_fmap. exists (rid, f0). split; [done|].
        rewrite hash_iter_perm. apply elem_of_map_to_list, Lv0. }
      destruct (raise_floor _ _ _ _ _ _ _ _ B2 Lv2 Hu0 Hon) as [B3 L3].
      destruct (lv_floor _ _ _ _ _ _ _ _ _ _ _ Lv2) as (m & _ & -> & _). cbn. split; [done|]. intros _ _. by exists p, f, n, k.
    + assert (floor = None) as ->; [|by split; [|rewrite Hon]]. destruct floor as [x0|]; [|done].
      destruct (bs_floor _ _ _ _ _ _ B x0 eq_refl). congruence.
Qed.

(** ** Discard *)

Definition nothing_kept (fs0 fs : Fs) : Prop := kept (fun _ => False) (fun _ => False) fs0 fs.

Lemma discard_files B r fs : fs_wf fs ->
  fsp B (_ ←? remove_if_exists (meta_name r);
         _ ←? fsync_dir;
         names ←? list_names;
         _ ←? remove_all (filter (fun n => starts_with (r ++ bs ".") n = true) names);
         fsync_dir) fs (fun _ fs' => nothing_kept fs fs') (nothing_kept fs).
Proof.
  intros Hw. assert (nothing_kept fs fs) as K0 by (by apply kept_refl).
  apply fsp_bind, fsp_remove; [done|by intros []|]. intros fs1 K1. apply fsp_bind, fsp_sync_dir; [done|]. intros K2.
  apply fsp_bind, fsp_list_names; [done|]. intros names. apply fsp_bind.
  generalize (filter (fun n => starts_with (r ++ bs ".") n = true) names) as l. revert K2. generalize (fs_sync_dir fs1) as fs2.
  clear names. intros fs2 K2 l. revert fs2 K2. induction l as [|n l IH]; intros fs2 K2; cbn [remove_all].
  - apply fsp_ret. by apply fsp_sync_dir.
  - apply fsp_bind, fsp_remove; [done|by intros []|]. intros fs3 K3. by apply IH.
Qed.

Lemma discard_spec ps w pos floor :
  inv ps w pos floor -> let pos' := mkPos false (ps_gen pos) (ps_snap pos) (ps_top pos) in
  wp (discard rid) (fun _ w' => inv [] w' pos' None /\ ~ failing w') (crashed None (ps_top pos)) w.
Proof.
  intros [B _] pos'. unfold discard. apply fwp_bind, wp_on_writer, fwp_bind, wp_ask, fwp_bind.
  set (w1 := on_writer _ w).
  assert (wp (match wr_files (w_writer w1) !! rid with
     | Some f => alter_world (on_writer (fun x => put_files (delete rid (wr_files x)) x));; alter_world (on_shared (on_stats (sub_unsynced (rf_unsynced f))))
     | None => mret tt end)
    (fun _ w' => w_fs w' = w_fs w /\ files w' = delete rid (files w)) (crashed None (ps_top pos)) w1) as H.
  { destruct (wr_files _ !! rid) as [f|] eqn:Ef; [by apply fwp_bind, wp_on_writer, wp_on_shared|].
    apply fwp_ret. split; [done|]. symmetry. by apply delete_id. }
  eapply fwp_mono; [exact H| |done]. intros u w2 _ (E1 & E2). apply fwp_bind.
  eapply fwp_mono; [apply (discard_files True rid (w_fs w2)); [rewrite E1; apply B|done]| |].
  2:{ intros fs' _. exists []. split; [by intros [? ?]|by intros p ?%elem_of_nil]. }
  intros r w3 _ (F1 & F2 & _ & Hr).
  assert (nothing_kept (w_fs w2) (w_fs w3)) as (W3 & [_ _ N3] & _) by (destruct r; [done|by apply Hr]).
  assert (forall w4, w_fs w4 = w_fs w3 -> files w4 = files w3 -> base [] w4 pos' None) as Hb.
  { intros w4 X1 X2. split; rewrite ?X1; try done.
    - split; [by intros [? ?]|by intros p ?%elem_of_nil].
    - by intros p ?%elem_of_nil.
    - intros r' f j Hf Hj. rewrite X1. split; [|by intros p ?%elem_of_nil].
      rewrite X2 in Hf. unfold files in Hf. rewrite F1 in Hf. change (files w2 !! r' = Some f) in Hf. rewrite E2 in Hf.
      apply lookup_delete_Some in Hf as [_ Hf]. destruct (bs_logs _ _ _ _ _ _ B _ _ _ Hf Hj) as [L1 _]. rewrite E1 in N3. lia.
    - intros f Hf. rewrite X2 in Hf. unfold files in Hf. rewrite F1 in Hf. change (files w2 !! rid = Some f) in Hf. by rewrite E2, lookup_delete_eq in Hf. }
  apply fwp_bind.
  assert (wp (match r with Ok _ => mret tt | Err _ => alter_world (on_shared (on_stats add_failure)) end)
    (fun _ w4 => w_fs w4 = w_fs w3 /\ files w4 = files w3) (crashed None (ps_top pos)) w3) as H3 by (destruct r; [by apply fwp_ret|by apply wp_on_shared]).
  eapply fwp_mono; [exact H3| |done]. intros u4 w4 _ (G1 & G2). apply fwp_bind, wp_on_shared, wp_on_writer. split.
  - split; [|done]. by apply Hb.
  - unfold RecoveryInv.failing; cbn. set_solver.
Qed.
End sync.
