(* ===== verification/RecoveryRestore.v ===== *)
(** * The editor daemon's recovery files: the restore loses nothing

    The restore may be killed at any point, as often as it takes: until it has put the text under
    a new generation, or has found it in the bound file, the old files bring it back. *)

From S2P Require Import Prelude Utf8 EditBase Ot GapBuffer Memory Text Buffer Str BTree MirrorTypes RecoveryFs Recovery RecoveryLoad.
From S2P Require Import RecoveryWp RecoveryDisk RecoveryReplay RecoveryInv RecoveryApart RecoveryOwn RecoveryRun RecoverySync.
From Stdlib Require Import DecimalString DecimalN.

(** ** Names *)

Lemma digits_val_pos d : forall p, digits_val (N.pos p) (bs (NilEmpty.string_of_uint d)) = Some (N.pos (Pos.of_uint_acc d p)).
Proof.
  assert (forall b k acc s, is_ascii_digit b = true -> (b2n b - 0x30 = k)%N -> digits_val acc (b :: s) = digits_val (10 * acc + k) s) as Hb.
  { intros b k acc s H <-. cbn [digits_val]. by rewrite H. }
  induction d as [|d IH|d IH|d IH|d IH|d IH|d IH|d IH|d IH|d IH|d IH]; intros p; [done|..]; cbn [Pos.of_uint_acc]; rewrite <- IH;
    (etransitivity; [eapply Hb; reflexivity|f_equal]);
    match goal with |- context [(b2n ?b - ?z)%N] => let v := eval vm_compute in (b2n b - z)%N in change (b2n b - z)%N with v end; lia.
Qed.

Lemma digits_val_dec n : digits_val 0 (dec n) = Some n.
Proof.
  unfold dec. rewrite <- (DecimalN.Unsigned.of_to n) at 2. generalize (N.to_uint n) as d. unfold N.of_uint.
  induction d as [|d IH|d IH|d IH|d IH|d IH|d IH|d IH|d IH|d IH|d IH]; [done|exact IH|..]; apply (digits_val_pos d).
Qed.

Lemma parse_dec max n k : parse_unsigned max (dec n) = Some k -> k = n.
Proof.
  pose proof (digits_val_dec n) as K. unfold parse_unsigned. destruct (dec n) as [|x r]; [done|].
  assert (forall d, d = x :: r -> match d with [] => None | _ => match digits_val 0 d with Some n => if (n <=? max)%N then Some n else None | None => None end end = Some k -> k = n) as Hd.
  { intros d ->. rewrite K. destruct (n <=? max)%N; [|done]. by intros [= <-]. }
  cbv zeta. apply Hd. destruct x; try reflexivity. done.
Qed.

Lemma is_rid_no_dot rid : is_rid rid = true -> x2e ∉ rid.
Proof.
  unfold is_rid. intros H. apply andb_prop in H as [_ H]. rewrite forallb_forall in H. intros Hin%list_elem_of_In. by specialize (H _ Hin).
Qed.

Lemma split_at_dot a b : x2e ∉ a -> split_once_str (bs ".") (a ++ bs "." ++ b) = Some (a, b).
Proof. intros H. change (bs ".") with [x2e]. rewrite split_once_str_skip by done. cbn. by rewrite app_nil_r. Qed.

Lemma ends_with_tmp n : ends_with (bs ".tmp") n = true -> exists x, n = tmp_of x.
Proof. unfold ends_with. destruct (strip_suffix _ n) as [x|] eqn:E; [|done]. intros _. exists x. by apply strip_suffix_Some in E. Qed.

Lemma ends_with_not n : (forall x, n <> tmp_of x) -> ends_with (bs ".tmp") n = false.
Proof. intros H. destruct (ends_with _ n) eqn:E; [|done]. apply ends_with_tmp in E as [x ->]. by destruct (H x). Qed.

Lemma meta_kind rid : is_rid rid = true -> name_kind (meta_name rid) = MetaFile rid.
Proof.
  intros Hr. unfold name_kind. rewrite ends_with_not by (intros x E; by apply (tmp_meta x rid)).
  change (meta_name rid) with (rid ++ bs "." ++ bs "meta.json"). rewrite split_at_dot by by apply is_rid_no_dot.
  rewrite Hr. cbn [negb]. by rewrite bool_decide_true.
Qed.

Lemma temporary_kind n : name_kind n = Temporary -> exists x, n = tmp_of x.
Proof.
  unfold name_kind. destruct (ends_with _ n) eqn:E; [intros _; by apply ends_with_tmp|]. by repeat case_match.
Qed.

Lemma meta_file_kind n r : name_kind n = MetaFile r -> is_rid r = true /\ n = meta_name r.
Proof.
  unfold name_kind. destruct (ends_with _ n); [done|]. destruct (split_once_str _ n) as [[a b]|] eqn:E; [|done].
  destruct (is_rid a) eqn:Ha; [|done]. cbn [negb]. case_bool_decide as Hb; [|by repeat case_match]. intros [= <-].
  apply split_once_str_Some in E as ->. by subst b.
Qed.

Lemma data_file_kind n r g : name_kind n = DataFile r g -> is_rid r = true /\ of_rid r n /\ n <> meta_name r /\
  (forall k, n = snap_name r k \/ n = log_name r k -> k = g).
Proof.
  unfold name_kind. destruct (ends_with _ n); [done|]. destruct (split_once_str _ n) as [[a b]|] eqn:E; [|done].
  destruct (is_rid a) eqn:Ha; [|done]. cbn [negb]. case_bool_decide as Hb; [done|]. destruct (split_once_str _ b) as [[x kind]|] eqn:E2; [|done].
  destruct (_ || _) eqn:Ek; [|done]. destruct (parse_unsigned _ x) as [g0|] eqn:Ep; [|done]. intros [= <- <-].
  apply split_once_str_Some in E as ->. apply split_once_str_Some in E2 as ->.
  assert (kind = bs "snap" \/ kind = bs "log") as Hk by (apply orb_prop in Ek as [X|X]; apply bool_decide_eq_true in X; auto).
  split_and!; [done|by eexists| |].
  - intros E. apply Hb. unfold meta_name in E. change (bs ".meta.json") with (bs "." ++ bs "meta.json") in E. by do 2 apply app_inv_head in E.
  - intros k [Hn|Hn]; symmetry in Hn.
    + unfold snap_name in Hn. do 2 apply app_inv_head in Hn. destruct Hk as [->| ->].
      * change (bs ".snap") with (bs "." ++ bs "snap") in Hn. apply app_inv_tail in Hn as <-. symmetry. by eapply parse_dec.
      * exfalso. revert Hn. change (bs ".snap") with (bs "." ++ bs "snap"). change (bs "." ++ bs "log") with (bs ".log"). rewrite app_assoc. by apply suffix4_ne.
    + unfold log_name in Hn. do 2 apply app_inv_head in Hn. destruct Hk as [->| ->].
      * exfalso. revert Hn. rewrite (app_assoc x). by apply suffix4_ne.
      * change (bs ".log") with (bs "." ++ bs "log") in Hn. apply app_inv_tail in Hn as <-. symmetry. by eapply parse_dec.
Qed.

(** Every file among the data of a rid is one of its data files. *)
Definition data_right (data : gmap bytes (list (bytes * N))) : Prop :=
  forall r l n g, data !! r = Some l -> (n, g) ∈ l -> name_kind n = DataFile r g.

Lemma data_of_right names : data_right (data_of names).
Proof.
  unfold data_of. assert (data_right ∅) as H by (intros r l n g H; by rewrite lookup_empty in H). revert H. generalize (∅ : gmap bytes (list (bytes * N))).
  induction names as [|x names IH]; intros data H; [done|]. cbn [foldl]. apply IH. unfold push_data. destruct (name_kind x) as [| |r g|] eqn:E; try done.
  intros r' l n k Hl Hn. destruct (decide (r = r')) as [<-|Hne]; [|rewrite lookup_insert_ne in Hl by done; by eapply H].
  rewrite lookup_insert_eq in Hl. injection Hl as <-. apply elem_of_app in Hn as [Hn|[= -> ->]%list_elem_of_singleton]; [|done].
  destruct (data !! r) as [l|] eqn:El; [by eapply H|by apply elem_of_nil in Hn].
Qed.

Lemma orphans_elem `{HashIter} metas data n : data_right data -> n ∈ orphans metas data -> exists r g, name_kind n = DataFile r g /\ r ∉ metas.
Proof.
  intros Hd Hn. apply list_elem_of_In, in_concat in Hn as (l & Hl & Hn). apply in_map_iff in Hl as ([r files] & <- & Hf).
  case_bool_decide as Hm; [done|]. apply in_map_iff in Hn as ([n' g] & <- & Hn). exists r, g. split; [|done].
  apply list_elem_of_In in Hf, Hn. rewrite hash_iter_perm, elem_of_map_to_list in Hf. by eapply Hd.
Qed.

Lemma outdated_elem r g data n : data_right data -> n ∈ outdated r g data -> exists k, name_kind n = DataFile r k /\ k <> g.
Proof.
  intros Hd Hn. apply list_elem_of_In, in_map_iff in Hn as ([n' k] & <- & Hn). apply list_elem_of_In, list_elem_of_filter in Hn as [Hk Hn].
  exists k. split; [|done]. destruct (data !! r) as [l|] eqn:El; [by eapply Hd|by apply elem_of_nil in Hn].
Qed.

Lemma quarantine_not rid x : is_rid rid = true -> ~ of_rid rid (quarantine_name x).
Proof.
  intros Hr [y E]. destruct rid as [|c rid]; [done|]. unfold quarantine_name in E. injection E as <- _.
  unfold is_rid in Hr. by apply andb_prop in Hr as [_ Hr].
Qed.

Lemma quarantine_dot_not rid x y : is_rid rid = true -> ~ of_rid rid (quarantine_name x ++ y).
Proof. intros Hr. unfold quarantine_name. rewrite <- app_assoc. by apply (quarantine_not rid (x ++ y)). Qed.

Lemma meta_listed rid : is_rid rid = true -> starts_with QUARANTINE_PREFIX (meta_name rid) = false.
Proof.
  intros Hr. unfold starts_with. destruct (strip_prefix _ _) as [x|] eqn:E; [|done]. apply strip_prefix_Some in E.
  exfalso. apply (quarantine_not rid x Hr). exists (bs "meta.json"). unfold quarantine_name. by rewrite <- E.
Qed.

(** ** Loading *)

Section load.
Context {G : Type} {TS : TextStore G} {SL : TextStoreLaws G} {ENV : RecoveryEnv} {RL : RecoveryLaws}.

(** Nothing but the faults to come. *)
Definition quiet (w w' : World) : Prop := w_fs w' = w_fs w /\ w_writer w' = w_writer w /\ w_shared w' = w_shared w.

Lemma read_capped_spec name cap over w (C : Fs -> Prop) : C (w_fs w) ->
  wp (read_capped name cap over) (fun r w' => quiet w w' /\ (forall s, fs_read name (w_fs w) = Some s ->
        (over = true -> (Z.of_nat (length s) <= cap)%Z) -> r = Ok (take_capped cap s) \/ blame w)) C w.
Proof.
  intros HC. unfold read_capped. set (good := fun fs : Fs => (match fs_read name fs with None => Err NotFound | Some s => _ end, fs)).
  assert (forall s, fs_read name (w_fs w) = Some s -> (over = true -> (Z.of_nat (length s) <= cap)%Z) -> (good (w_fs w)).1 = Ok (take_capped cap s)) as Hg.
  { intros s Hs Hc. unfold good. rewrite Hs. destruct over; cbn; [|done]. destruct (Z.ltb_spec cap (Z.of_nat (length s))); [|done]. specialize (Hc eq_refl). lia. }
  assert ((good (w_fs w)).2 = w_fs w) as Hg2 by done.
  unfold wp, call. destruct (w_faults w) as [|[|n|n] l] eqn:Ef; cbn -[good].
  - destruct (good (w_fs w)) as [r fs']. cbn in *. subst fs'. split; [done|]. split; [done|]. intros s H1 H2. left. by apply Hg.
  - destruct (good (w_fs w)) as [r fs']. cbn in *. subst fs'. split; [by apply suffix_cons_r|]. split; [done|]. intros s H1 H2. left. by apply Hg.
  - split; [by apply suffix_cons_r|]. split; [done|]. intros s _ _. right. exists n. rewrite Ef. by left.
  - split; [by apply suffix_cons_r|]. split; [|done]. exists n. rewrite Ef. by left.
Qed.

Lemma quiet_trans w1 w2 w3 : quiet w1 w2 -> quiet w2 w3 -> quiet w1 w3.
Proof. intros (A1 & A2 & A3) (B1 & B2 & B3). unfold quiet. by rewrite B1, B2, B3. Qed.

Lemma parse_snap_inv g raw R (t : Text G) : parse_snap g raw = Ok (R, t) -> text_wf t.
Proof.
  unfold parse_snap. intros H. run_inv H. apply map_err_Ok in Hx1. subst x1. apply negb_false_iff in E2.
  apply from_utf8_ok_iff in E2. by eapply from_text_inv.
Qed.

Lemma wf_text_fits (t : Text G) : text_wf t -> text_fits (text t).
Proof.
  intros W. split_and!; [by apply twf_utf8|by apply twf_len|]. pose proof (twf_lines t W) as K. by rewrite (twf_starts t W), length_line_starts in K.
Qed.

Lemma replayed_fits gen s (x t' : Text G) R rev d : text_wf x -> replay_log (length s) x gen R s = Some (t', rev, d) -> text_fits (read t' 0 (len t') []).
Proof.
  intros W Er. destruct (replay_log_total gen (length s) x R s W (le_n _)) as (t2 & r2 & d2 & Er2 & W2).
  rewrite Er in Er2. injection Er2 as <- _ _. pose proof (to_string_lossless_exact t' W2) as K. unfold to_string_lossless in K. rewrite K. by apply wf_text_fits.
Qed.

(** [load_rid] ends, touches nothing, and what it loads is a text within the limits. *)
Lemma load_spec r w (C : Fs -> Prop) : C (w_fs w) ->
  wp (load_rid r) (fun x w' => quiet w w' /\ (forall l, x = Ok l -> ld_rid l = r /\ text_fits (ld_text l))) C w.
Proof.
  intros HC. unfold load_rid. apply fwp_bind. eapply fwp_mono; [by apply read_capped_spec| |done]. intros [raw|e] w1 _ [Q1 _]; [|by apply fwp_ret].
  destruct (parse_meta r raw) as [m|e]; [|by apply fwp_ret]. assert (C (w_fs w1)) as HC1 by (destruct Q1 as (-> & _); done).
  apply fwp_bind. eapply fwp_mono; [by apply read_capped_spec| |done]. intros [sraw|e] w2 _ [Q2 _]; [|by apply fwp_ret; split; [eapply quiet_trans|]].
  pose proof (quiet_trans _ _ _ Q1 Q2) as Q2'. destruct (parse_snap _ _) as [[R t]|e] eqn:Es; [|by apply fwp_ret].
  apply parse_snap_inv in Es. assert (C (w_fs w2)) as HC2 by (destruct Q2' as (-> & _); done).
  apply fwp_bind. eapply fwp_mono; [by apply read_capped_spec| |done]. intros log w3 _ [Q3 _]. pose proof (quiet_trans _ _ _ Q2' Q3) as Q3'.
  set (s := match log with Ok s => s | Err _ => [] end).
  destruct (replay_log_total (mt_generation m) (length s) t R s Es (le_n _)) as (t' & rev & d & Er & _).
  apply fwp_bind. unfold lift. rewrite Er. apply fwp_ret, fwp_ret. split; [done|]. intros l [= <-]. split; [done|]. by eapply (replayed_fits (mt_generation m) s).
Qed.

Lemma visible_read name i fs s : visible fs !! name = Some i -> holds fs i s -> fs_read name fs = Some s.
Proof. intros Hv (k & l & Ei & _). unfold fs_read. rewrite Hv. cbn. by rewrite Ei. Qed.

Lemma own_load rid (Good : N -> bytes -> Prop) p raw0 m0 w (C : Fs -> Prop) :
  C (w_fs w) -> ~ blame w -> fs_wf (w_fs w) -> promise (G := G) rid True Good (w_fs w) [p] -> holds (w_fs w) (gn_meta p) raw0 -> parse_meta rid raw0 = Ok m0 ->
  wp (load_rid rid) (fun x w' => quiet w w' /\ exists l, x = Ok l /\ ld_rid l = rid /\ ld_meta l = m0 /\ Good (ld_rev l) (ld_text l)) C w.
Proof.
  intros HC Hb Hw [P1 P2] H0 Hm0. destruct (P2 p) as [(raw & m & M1 & M2 & M3 & M4) (S1 & S2 & R & t & n & (sraw & Q1 & Q2 & Q3) & L1 & L2)]; [by left|].
  assert (raw = raw0) as -> by (destruct M1 as (? & ? & X1 & _), H0 as (? & ? & X2 & _); congruence). rewrite Hm0 in M3. injection M3 as <-.
  assert (visible (w_fs w) !! meta_name rid = Some (gn_meta p)) as Vm.
  { destruct (P1 I _ (visible_may_be (w_fs w) (meta_name rid))) as (p' & Hp & ->). by apply list_elem_of_singleton in Hp as ->. }
  pose proof (visible_read _ _ _ _ Vm H0) as Rm. pose proof (visible_read _ _ _ _ (settled_visible _ _ _ S1) Q1) as Rs.
  assert (fs_read (log_name rid (gn_gen p)) (w_fs w) = Some (i_data n)) as Rl by (unfold fs_read; rewrite (settled_visible _ _ _ S2); cbn; by rewrite L1).
  assert (torn n (i_data n)) as Ht by (exists (length (i_data n)), 0; destruct (Hw _ _ L1); cbn [replicate]; rewrite firstn_all, app_nil_r; split_and!; [done|lia|done]).
  destruct (L2 _ Ht) as (t' & rev & d & Er & HG).
  unfold load_rid. apply fwp_bind. eapply fwp_mono; [apply (read_capped_spec _ _ _ _ C HC)| |done]. intros x1 w1 Hs1 [K1 X1].
  destruct (X1 _ Rm ltac:(done)) as [->|?]; [|done]. rewrite take_capped_fits, Hm0, M4 by done. pose proof K1 as (E1 & _).
  apply fwp_bind. eapply fwp_mono; [apply (read_capped_spec _ _ _ _ C); by rewrite E1| |done]. intros x2 w2 Hs2 [K2 X2]. rewrite E1 in X2.
  destruct (X2 _ Rs ltac:(done)) as [->|Hb2]; [|by destruct Hb; eapply blame_suffix]. rewrite take_capped_fits, Q3 by done.
  pose proof (quiet_trans _ _ _ K1 K2) as K2'. pose proof K2' as (E2 & _).
  apply fwp_bind. eapply fwp_mono; [apply (read_capped_spec _ _ _ _ C); by rewrite E2| |done]. intros x3 w3 Hs3 [K3 X3]. rewrite E2 in X3.
  destruct (X3 _ Rl ltac:(done)) as [->|Hb3]; [|by destruct Hb; eapply blame_suffix, blame_suffix].
  apply fwp_bind. unfold lift. rewrite Er. apply fwp_ret, fwp_ret. split; [by eapply quiet_trans|]. eexists. split; [reflexivity|]. done.
Qed.
End load.

(** ** Restore *)

Section restore.
Context {G : Type} {TS : TextStore G} {SL : TextStoreLaws G} {ENV : RecoveryEnv} {RL : RecoveryLaws} {HI : HashIter}.
Context (granted : memory_granted G re_reserve) (rid : bytes) (Hrid : is_rid rid = true) (t : bytes) (Ht : text_fits t).

(** The history of a text that does not change. *)
Definition T0 (r : N) : bytes := t.
Definition E0 (r : N) : list Edit := [].
Lemma hist0 : history T0 E0.
Proof. intros r. split; [done|]. split; [|done]. split_and!; by constructor. Qed.

(** The generation that was on disk, its meta, the newest revision of it. *)
Context (p0 : Gen) (raw0 : bytes) (m0 : RecoveryMeta) (Hm0 : parse_meta rid raw0 = Ok m0) (Hgen : mt_generation m0 = gn_gen p0) (top : N).
Context (epoch : bytes) (caps : RestoreCaps).

(** The bound file already has the text. *)
Definition disk_has : bool := match mt_path m0 with Some p => (compare_disk p t (mt_base m0)).2 | None => false end.
Definition base_of (path : option bytes) : option DiskIdentity :=
  match path with Some p => (compare_disk p t (mt_base m0)).1.1 | None => None end.
Definition restore_fits : Prop := forall n path opened_as,
  n <= max_buffers caps -> (path, opened_as) = (mt_path m0, mt_opened_as m0) \/ (path, opened_as) = (None, None) ->
  switch_fits rid (gn_gen p0 + 1) 0 t (restored_meta epoch n path opened_as (base_of path) rid m0).
Context (fits : restore_fits) (nodisk : disk_has = false).

Definition pos0 : Pos := mkPos true (gn_gen p0 + 1) 0 top.
Notation base := (base (G := G) rid T0).
Notation crashed := (crashed (G := G) rid T0 (Some 0%N) top).
Notation apart ps := (apart (G := G) rid T0 ps pos0 (Some 0%N)).

(** The text is safe; as long as [todo], under its old generation. *)
Definition holding (todo : Prop) (w : World) : Prop :=
  exists ps, base ps w pos0 (Some 0%N) /\ (todo -> ps = [p0] /\ holds (w_fs w) (gn_meta p0) raw0).

Lemma holding_mono (todo todo' : Prop) w : (todo' -> todo) -> holding todo w -> holding todo' w.
Proof. intros H (ps & B & K). exists ps. auto. Qed.

Lemma holding_frame todo ps w w' : base ps w pos0 (Some 0%N) -> (todo -> ps = [p0] /\ holds (w_fs w) (gn_meta p0) raw0) -> frame rid ps w w' -> holding todo w'.
Proof.
  intros B K F. exists ps. split; [by eapply base_frame|]. intros X. destruct (K X) as [-> H]. split; [done|].
  eapply spares_holds; [apply F|exists p0; split; [by left|by auto]|done].
Qed.

Lemma holding_apart {A} todo (m : W A) w :
  holding todo w -> (forall ps, base ps w pos0 (Some 0%N) -> apart ps m w) -> wp m (fun _ w' => holding todo w') crashed w.
Proof.
  intros (ps & B & K) H. eapply fwp_mono; [by apply H| |].
  - intros a w' _ F. by eapply holding_frame.
  - intros fs Pl. by exists ps.
Qed.

Lemma holding_crashed todo w : holding todo w -> crashed (w_fs w).
Proof. intros (ps & B & _). by eapply base_crashed in B. Qed.

Lemma holding_quiet todo w w' : quiet w w' -> holding todo w -> holding todo w'.
Proof.
  intros (E1 & E2 & E3) (ps & B & K). exists ps. rewrite E1. split; [|done].
  destruct B as [B1 B2 B3 B4 B5 B6]. split; unfold own_logs, files in *; rewrite ?E1, ?E2; done.
Qed.

(** *** Sweeping and quarantine *)

Definition spared_name (n : bytes) : Prop := ~ of_rid rid n \/ (exists x, n = tmp_of x) \/
  (of_rid rid n /\ n <> meta_name rid /\ forall k, n = snap_name rid k \/ n = log_name rid k -> k <> gn_gen p0).

Lemma spared_not n : spared_name n -> ~ all_names rid [p0] n.
Proof.
  intros [H|[[x ->]|(_ & H1 & H2)]] K.
  - apply H. by eapply all_names_of_rid.
  - by apply all_names_tmp in K.
  - destruct K as [->|(p & ->%list_elem_of_singleton & Hn)]; [done|]. by apply (H2 (gn_gen p0)).
Qed.

Lemma sweep_all_spec l : forall w, Forall spared_name l -> holding True w -> wp (sweep_all l) (fun _ w' => holding True w') crashed w.
Proof.
  induction l as [|n l IH]; intros w Hl H; cbn [sweep_all]; [by apply fwp_ret|]. inversion Hl; subst.
  apply fwp_bind. unfold sweep. apply fwp_bind. destruct H as (ps & B & K). destruct (K I) as [-> Hh].
  eapply fwp_mono; [apply (apart_remove (G := G) rid T0 [p0] pos0 (Some 0%N) w n B); by apply spared_not| |].
  - intros r w' _ F. apply fwp_ret. apply IH; [done|]. by eapply holding_frame.
  - intros fs Pl. by exists [p0].
Qed.

Lemma free_name_spec fuel : forall name n w C,
  wp (free_name fuel name n) (fun d w' => w' = w /\ exists y, d = quarantine_name name ++ y) C w.
Proof.
  induction fuel as [|fuel IH]; intros name n w C; cbn [free_name]; apply fwp_bind, wp_ask.
  - assert (exists y, (if (n =? 0)%N then quarantine_name name else quarantine_name name ++ bs "." ++ dec n) = quarantine_name name ++ y) as Hy.
    { destruct (n =? 0)%N; [exists []; by rewrite app_nil_r|by eexists]. }
    destruct (visible _ !! _); by apply fwp_ret.
  - assert (exists y, (if (n =? 0)%N then quarantine_name name else quarantine_name name ++ bs "." ++ dec n) = quarantine_name name ++ y) as Hy.
    { destruct (n =? 0)%N; [exists []; by rewrite app_nil_r|by eexists]. }
    destruct (visible _ !! _); [apply IH|by apply fwp_ret].
Qed.

Lemma apart_rename ps w a b : base ps w pos0 (Some 0%N) -> ~ all_names rid ps a -> ~ all_names rid ps b -> apart ps (rename a b) w.
Proof.
  intros B Ha Hb. apply apart_fsp; [done|]. pose proof (kept_refl (all_names rid ps) (gen_files ps) _ (bs_wf _ _ _ _ _ _ B)) as K.
  assert (forall fs', fs_rename a b (w_fs w) = Some fs' -> kept (all_names rid ps) (gen_files ps) (w_fs w) fs') as Hk.
  { unfold fs_rename. destruct (visible _ !! a) as [i|]; [|done]. intros fs' [= <-]. apply (kept_step _ _ _ _ _ K); [apply B| |done].
    apply spares_op. intros n v [[= -> ->]|Hv%list_elem_of_singleton]%elem_of_cons; [done|]. by injection Hv as -> ->. }
  apply fsp_call.
  - cbv beta. destruct (fs_rename a b (w_fs w)) as [fs'|] eqn:Er; cbn; [by apply Hk|done].
  - intros n. unfold all_or_none. destruct (n =? 0); [done|]. destruct (fs_rename a b (w_fs w)) as [fs'|] eqn:Er; cbn; [by apply Hk|done].
Qed.

Lemma quarantine_each_spec ps r l : is_rid r = true -> r <> rid -> forall w, base ps w pos0 (Some 0%N) -> Forall (of_rid r) l -> apart ps (quarantine_each l) w.
Proof.
  intros Hr Hne. induction l as [|n l IH]; intros w B Hl; cbn [quarantine_each]; [by apply apart_ret|]. inversion Hl as [|? ? Hn Hl']; subst.
  apply fwp_bind, wp_ask, fwp_bind. eapply fwp_mono; [apply free_name_spec| |intros fs X; exact X]. intros d w' _ [-> [y ->]].
  apply apart_bind.
  - apply apart_rename; [done|by apply (not_mine rid ps r)|]. intros K%all_names_of_rid. by apply (quarantine_dot_not rid n y).
  - intros a w1 F. apply IH; [by eapply base_frame|done].
Qed.

Lemma quarantine_spec ps r l w : is_rid r = true -> r <> rid -> base ps w pos0 (Some 0%N) -> apart ps (quarantine r l) w.
Proof.
  intros Hr Hne B. unfold quarantine. apply apart_bind.
  - apply apart_fsp; [done|]. by apply fsp_call; [apply kept_refl, B|intros _; apply kept_refl, B].
  - intros [u|e] w1 F; pose proof (base_frame _ _ _ _ _ _ _ B F) as B1; [|by apply apart_ret].
    apply apart_bind; [apply (quarantine_each_spec ps r); [done|done|done|]|].
    + rewrite Forall_forall. intros n Hn. apply list_elem_of_filter in Hn as [Hn _]. by apply (starts_of_rid r).
    + intros u' w2 F2. pose proof (base_frame _ _ _ _ _ _ _ B1 F2) as B2. apply apart_bind; [by apply apart_fsync_dir|].
      intros x w3 F3. apply apart_ret. by eapply base_frame.
Qed.

(** *** Loading every rid *)

Definition own (l : LoadedRid) : Prop := ld_rid l = rid -> ld_text l = t /\ ld_meta l = m0.

Lemma load_all_spec data live metas : data_right data -> forall w, holding True w -> ~ blame w -> NoDup metas -> Forall (fun r => is_rid r = true) metas ->
  wp (load_all data live metas) (fun ls w' => holding True w' /\ Forall own ls /\ Forall (fun l => is_rid (ld_rid l) = true) ls /\
        NoDup (map ld_rid ls) /\ forall l, l ∈ ls -> ld_rid l ∈ metas) crashed w.
Proof.
  intros Hd. induction metas as [|r metas IH]; intros w H Hb Hnd Hr; cbn [load_all].
  { apply fwp_ret. split_and!; [done|constructor|constructor|constructor|]. by intros l ?%elem_of_nil. }
  apply NoDup_cons in Hnd as [Hnr Hnd]. inversion Hr as [|? ? Hr0 Hr']; subst. apply fwp_bind.
  assert (wp (load_rid r) (fun x w' => quiet w w' /\ (forall l, x = Ok l -> ld_rid l = r) /\
            (r = rid -> exists l, x = Ok l /\ ld_meta l = m0 /\ ld_text l = t)) crashed w) as Hload.
  { destruct (decide (r = rid)) as [->|Hne].
    - destruct H as (ps & B & K). destruct (K I) as [-> Hh]. eapply fwp_mono; [apply (own_load rid (good T0 (Some 0%N) top) p0 raw0 m0 w crashed)| |done]; try done.
      + by eapply base_crashed in B.
      + apply B.
      + eapply promise_mono; [| |apply (bs_pledge _ _ _ _ _ _ B)]; [done|]. by intros.
      + intros x w' _ [Q (l & -> & L1 & L2 & L3 & _)]. split_and!; [done|by intros l' [= <-]|]. intros _. by exists l.
    - eapply fwp_mono; [apply (load_spec r w crashed); by eapply holding_crashed| |done]. intros x w' _ [Q L]. split_and!; [done|by intros l Hl; apply L|by intros]. }
  eapply fwp_mono; [exact Hload| |done]. intros x w1 Hs1 (Q & L1 & L2). pose proof (holding_quiet _ _ _ Q H) as H1.
  assert (~ blame w1) as Hb1 by (intros X; by destruct Hb; eapply blame_suffix).
  destruct x as [l|e].
  - specialize (L1 l eq_refl). apply fwp_bind. eapply fwp_mono; [apply (sweep_all_spec _ w1); [|done]| |done].
    + rewrite Forall_forall. intros n Hn. apply outdated_elem in Hn as (g & Ek & Hn2); [|done].
      apply data_file_kind in Ek as (_ & K1 & K2 & K3). destruct (decide (r = rid)) as [->|Hne].
      * right. right. split_and!; [done|done|]. intros k Hk ->. apply K3 in Hk as <-. destruct (L2 eq_refl) as (l' & [= <-] & Em & _).
        by rewrite Em, Hgen in Hn2.
      * left. intros X. apply Hne. by eapply of_rid_inj.
    + intros u w2 Hs2 H2. apply fwp_bind. eapply fwp_mono; [apply (IH w2)| |done]; try done.
      { intros X. destruct Hb1. by eapply blame_suffix. }
      intros ls w3 _ (X1 & X2 & X3 & X4 & X5). apply fwp_ret. split_and!; [done| | | |].
      * constructor; [|done]. intros Hl. rewrite L1 in Hl. destruct (L2 Hl) as (l' & [= <-] & Em & Et). done.
      * constructor; [by rewrite L1|done].
      * cbn [map]. constructor; [|done]. rewrite L1. intros Hin. apply list_elem_of_In, in_map_iff in Hin as (l' & El & Hl).
        apply Hnr. rewrite <- El. apply X5. by apply list_elem_of_In.
      * intros l' [->|Hl]%elem_of_cons; [rewrite L1; by left|right; by apply X5].
  - destruct (decide (r = rid)) as [->|Hne]; [by destruct (L2 eq_refl) as (l & ? & _)|].
    apply fwp_bind. eapply fwp_mono; [apply (holding_apart True _ w1 H1); intros ps B; by apply quarantine_spec| |done].
    intros u w2 Hs2 H2. apply fwp_bind. eapply fwp_mono; [apply (holding_apart True _ w2 H2); intros ps B; by apply apart_shared| |done].
    intros u' w3 Hs3 H3. eapply fwp_mono; [apply (IH w3)| |done]; try done.
    { intros X. destruct Hb1. by eapply blame_suffix, blame_suffix. }
    intros ls w4 _ (X1 & X2 & X3 & X4 & X5). split_and!; try done. intros l Hl. right. by apply X5.
Qed.

(** *** Restoring one rid *)

Lemma adopt_other ps r g w : r <> rid -> base ps w pos0 (Some 0%N) -> apart ps (adopt r g) w.
Proof.
  intros Hne B. unfold adopt. destruct (files w !! r) as [f|] eqn:Ef.
  - apply apart_writer; [done|..]; unfold files in Ef; by rewrite Ef.
  - eapply (apart_files _ _ _ _ _ _ _ r (fun _ => Some _)); [done|done| | |].
    + unfold files in Ef. by rewrite Ef.
    + unfold files in Ef. by rewrite Ef.
    + by intros x j [= <-].
Qed.

Lemma adopt_own w C : holding True w -> wp (adopt rid (gn_gen p0)) (fun _ w' => holding True w') C w.
Proof.
  intros (ps & B & K). apply wp_on_writer. exists ps. split; [|done].
  destruct B as [B1 B2 B3 B4 B5 B6]. split; unfold own_logs, files in *; cbn; try done.
  - intros r f j Hf Hj. destruct (wr_files (w_writer w) !! rid) as [f0|] eqn:Ef; [by eapply B4|]. cbn in Hf.
    destruct (decide (rid = r)) as [<-|Hne]; [rewrite lookup_insert_eq in Hf; by injection Hf as <-|].
    rewrite lookup_insert_ne in Hf by done. by eapply B4.
  - intros f Hf. destruct (wr_files (w_writer w) !! rid) as [f0|] eqn:Ef; [apply B5; by rewrite <- Ef|]. cbn in Hf. rewrite lookup_insert_eq in Hf.
    injection Hf as <-. cbn. lia.
Qed.

Lemma restore_switch path opened_as n w :
  holding True w -> n <= max_buffers caps -> (path, opened_as) = (mt_path m0, mt_opened_as m0) \/ (path, opened_as) = (None, None) ->
  wp (handle (MSwitch rid (gn_gen p0 + 1) 0 t (restored_meta epoch n path opened_as (base_of path) rid m0))) (fun _ w' => holding False w') crashed w.
Proof.
  intros (ps & B & K) Hn Hp. destruct (K I) as [-> _]. cbn [handle].
  eapply fwp_mono; [apply (switch_base rid T0 E0 granted hist0 [p0] w pos0 (Some 0%N) (gn_gen p0 + 1) 0)| |done]; try done.
  - intros p ->%list_elem_of_singleton. lia.
  - by apply fits.
  - cbn. lia.
  - intros u w' _ (ps' & B'). exists ps'. by split.
Qed.

(** The restored rid's path is taken by a newer one, or compared with its file. *)
Lemma not_clean path opened_as l : own l -> ld_rid l = rid -> (path, opened_as) = (mt_path m0, mt_opened_as m0) \/ (path, opened_as) = (None, None) ->
  exists disk, match path with None => (None, DNone, false) | Some p => compare_disk p (ld_text l) (mt_base (ld_meta l)) end = (base_of path, disk, false).
Proof.
  intros Hown Hl Hp. destruct (Hown Hl) as [-> ->]. destruct path as [p|]; [|by exists DNone]. destruct Hp as [[= E _]|]; [|done].
  unfold base_of. pose proof nodisk as Hd. unfold disk_has in Hd. rewrite <- E in Hd. destruct (compare_disk p t (mt_base m0)) as [[b d] c]. cbn in *. subst c. by exists d.
Qed.

Lemma restore_one_own n claimed l w : own l -> ld_rid l = rid -> n <= max_buffers caps -> holding True w ->
  wp (restore_one epoch n claimed l) (fun _ w' => holding False w') crashed w.
Proof.
  intros Hown Hl Hn H. destruct (Hown Hl) as [Et Em]. unfold restore_one. rewrite Hl, Em, Hgen.
  set (taken := match mt_path m0 with Some p => _ | None => false end). set (path := if taken then None else mt_path m0). set (opened := if taken then None else mt_opened_as m0).
  assert ((path, opened) = (mt_path m0, mt_opened_as m0) \/ (path, opened) = (None, None)) as Hp by (unfold path, opened; destruct taken; auto).
  destruct (not_clean path opened l Hown Hl Hp) as [disk Ed]. rewrite Em in Ed. rewrite Ed, Et.
  apply fwp_bind. eapply fwp_mono; [by apply adopt_own| |by intros fs X; exact X]. intros u w1 _ H1. apply fwp_bind, fwp_bind.
  eapply fwp_mono; [by apply restore_switch| |done]. intros u2 w2 _ H2. do 2 apply fwp_bind, wp_ask. apply fwp_ret.
  apply fwp_bind. eapply fwp_mono; [apply (holding_apart False _ w2 H2); intros ps B; by apply apart_shared| |done].
  intros u3 w3 _ H3. by apply fwp_ret.
Qed.

Lemma restore_one_other todo n claimed l w : is_rid (ld_rid l) = true -> ld_rid l <> rid -> holding todo w ->
  wp (restore_one epoch n claimed l) (fun _ w' => holding todo w') crashed w.
Proof.
  intros Hr Hne H. unfold restore_one. set (taken := match mt_path (ld_meta l) with Some p => _ | None => false end).
  destruct (match (if taken then None else mt_path (ld_meta l)) with Some p => compare_disk p (ld_text l) (mt_base (ld_meta l)) | None => (None, DNone, false) end) as [[b d] clean].
  apply fwp_bind. eapply fwp_mono; [apply (holding_apart todo _ w H); intros ps B; by apply (adopt_other ps)| |done]. intros u w1 _ H1.
  apply fwp_bind. assert (wp (if clean
      then handle (MDiscard (ld_rid l));; mret (mt_generation (ld_meta l), false)
      else handle (MSwitch (ld_rid l) (mt_generation (ld_meta l) + 1) 0 (ld_text l)
             (restored_meta epoch n (if taken then None else mt_path (ld_meta l)) (if taken then None else mt_opened_as (ld_meta l)) b (ld_rid l) (ld_meta l)));;
           cur ← ask (current_gen (ld_rid l)); failed ← ask (fun w => bool_decide (ld_rid l ∈ sh_failed (w_shared w)));
           mret ((mt_generation (ld_meta l) + 1)%N, negb (bool_decide (cur = Some (mt_generation (ld_meta l) + 1)%N)) || failed))
      (fun _ w' => holding todo w') crashed w1) as Hh.
  { destruct clean; apply fwp_bind.
    - eapply fwp_mono; [apply (holding_apart todo _ w1 H1); intros ps B; cbn [handle]; by apply apart_discard| |done]. intros u2 w2 _ H2. by apply fwp_ret.
    - eapply fwp_mono; [apply (holding_apart todo _ w1 H1); intros ps B; cbn [handle]; by apply (apart_switch rid T0 E0)| |done]. intros u2 w2 _ H2.
      do 2 apply fwp_bind, wp_ask. by apply fwp_ret. }
  eapply fwp_mono; [exact Hh| |done]. intros [g ns] w2 _ H2. apply fwp_bind.
  eapply fwp_mono; [apply (holding_apart todo _ w2 H2); intros ps B; by apply apart_shared| |done]. intros u3 w3 _ H3. by apply fwp_ret.
Qed.

Lemma restore_each_spec ls : forall out claimed total w,
  Forall own ls -> Forall (fun l => is_rid (ld_rid l) = true) ls -> NoDup (map ld_rid ls) -> holding (rid ∈ map ld_rid ls) w ->
  wp (restore_each epoch caps ls out claimed total) (fun _ w' => holding False w') crashed w.
Proof.
  induction ls as [|l ls IH]; intros out claimed total w Ho Hr Hnd H; cbn [restore_each].
  { apply fwp_ret. apply (holding_mono _ False _ (False_ind _) H). }
  inversion Ho as [|? ? Ho1 Ho2]; inversion Hr as [|? ? Hr1 Hr2]; subst. cbn [map] in *. apply NoDup_cons in Hnd as [Hn Hnd].
  destruct (_ || _) eqn:Eover.
  - apply fwp_bind. eapply fwp_mono; [apply (holding_apart _ _ w H); intros ps B; by apply apart_shared| |done]. intros u w1 _ H1.
    apply IH; try done. eapply holding_mono; [|exact H1]. intros X. by right.
  - apply orb_false_iff in Eover as [Eover _]. apply Nat.leb_gt in Eover. apply fwp_bind. destruct (decide (ld_rid l = rid)) as [El|Hne].
    + eapply fwp_mono; [apply restore_one_own; [done|done|lia|]| |done].
      * eapply holding_mono; [|exact H]. intros _. rewrite El. by left.
      * intros [b c] w1 _ H1. apply IH; try done. eapply holding_mono; [|exact H1]. intros X. rewrite El in Hn. done.
    + eapply fwp_mono; [apply (restore_one_other (rid ∈ map ld_rid ls)); [done|done|]| |done].
      * eapply holding_mono; [|exact H]. intros X. by right.
      * intros [b c] w1 _ H1. by apply IH.
Qed.

Lemma list_names_spec w (C : Fs -> Prop) : C (w_fs w) ->
  wp list_names (fun r w' => quiet w w' /\ (blame w \/ r = Ok (stable_sort name_leb
    (filter (fun n => starts_with QUARANTINE_PREFIX n = false) (map fst (map_to_list (visible (w_fs w)))))))) C w.
Proof.
  intros HC. unfold wp, list_names, call. destruct (w_faults w) as [|[|n|n] l] eqn:Ef; cbn -[stable_sort map_to_list visible].
  - split; [done|]. split; [done|by right].
  - split; [by apply suffix_cons_r|]. split; [done|by right].
  - split; [by apply suffix_cons_r|]. split; [done|]. left. exists n. rewrite Ef. by left.
  - split; [by apply suffix_cons_r|]. split; [|done]. exists n. rewrite Ef. by left.
Qed.

Lemma metas_spec names r : r ∈ metas_of names -> is_rid r = true /\ meta_name r ∈ names.
Proof.
  unfold metas_of. intros (n & Hn & Hk)%list_elem_of_omap. destruct (name_kind n) eqn:Ek; try done. injection Hk as ->.
  by apply meta_file_kind in Ek as [? ->].
Qed.

Lemma metas_nodup names : NoDup names -> NoDup (metas_of names).
Proof.
  induction 1 as [|n names Hn Hnd IH]; [constructor|]. unfold metas_of. cbn [omap list_omap].
  destruct (name_kind n) as [|r| |] eqn:Ek; try exact IH. constructor; [|exact IH]. intros Hr%metas_spec.
  apply meta_file_kind in Ek as [_ ->]. by destruct Hr.
Qed.

Lemma restore_spec w : holding True w -> ~ blame w ->
  wp (restore epoch caps) (fun _ w' => holding False w') crashed w.
Proof.
  intros H Hb. assert (forall w', holding True w' -> holding False w') as Hweak by (intros w' X; by apply (holding_mono True)).
  assert (forall w1, w_faults w1 `suffix_of` w_faults w -> ~ blame w1) as Hnb by (intros w1 Hs X; apply Hb; by eapply blame_suffix).
  unfold restore. apply fwp_bind. eapply fwp_mono; [apply (list_names_spec w crashed); by eapply holding_crashed| |done].
  intros r w1 Hs1 [Q [?| ->]]; [done|]. pose proof (holding_quiet _ _ _ Q H) as H1. set (names := stable_sort _ _).
  assert (meta_name rid ∈ names) as Hin.
  { unfold names. rewrite stable_sort_perm. destruct H as (ps & B & K). destruct (K I) as [-> _].
    destruct (bs_pledge _ _ _ _ _ _ B) as [P1 _]. destruct (P1 ltac:(done) _ (visible_may_be (w_fs w) (meta_name rid))) as (p & _ & V).
    apply list_elem_of_filter. split; [by apply meta_listed|].
    apply list_elem_of_In, in_map_iff. exists (meta_name rid, gn_meta p). split; [done|]. by apply list_elem_of_In, elem_of_map_to_list. }
  assert (NoDup names) as Hnd.
  { unfold names. rewrite stable_sort_perm. apply NoDup_filter, NoDup_fst_map_to_list. }
  clearbody names. set (metas := metas_of names).
  assert (rid ∈ metas) as Hmine.
  { apply list_elem_of_omap. exists (meta_name rid). split; [done|]. by rewrite meta_kind. }
  apply fwp_bind. eapply fwp_mono; [apply (sweep_all_spec _ w1); [|done]| |done].
  { rewrite Forall_forall. intros n Hn. apply list_elem_of_filter in Hn as [Hn _]. right. left. unfold temporary in Hn.
    destruct (name_kind n) eqn:Ek; try done. by apply temporary_kind. }
  intros u w2 Hs2 H2. apply fwp_bind. eapply fwp_mono; [apply (sweep_all_spec _ w2); [|done]| |done].
  { rewrite Forall_forall. intros n Hn. apply orphans_elem in Hn as (r & g & Ek & Hn); [|by apply data_of_right].
    apply data_file_kind in Ek as (Er & Eo & _). left. intros X. apply Hn. by rewrite (of_rid_inj r rid n). }
  intros u3 w3 Hs3 H3. apply fwp_bind. eapply fwp_mono; [apply (list_names_spec w3 crashed); exact (holding_crashed True w3 H3)| |done].
  intros lv w4 Hs4 [Q4 _]. pose proof (holding_quiet _ _ _ Q4 H3) as H4. apply fwp_bind.
  eapply fwp_mono; [apply (load_all_spec _ _ metas (data_of_right names) w4); [done| |by apply metas_nodup|]| |done].
  { apply Hnb. by trans (w_faults w3); [|trans (w_faults w2); [|trans (w_faults w1)]]. }
  { rewrite Forall_forall. intros r Hr. by apply metas_spec in Hr as [? _]. }
  intros ls w5 _ (H5 & O1 & O2 & O3 & _). apply restore_each_spec; rewrite ?stable_sort_perm; try done.
  by apply (holding_mono True).
Qed.
End restore.

(** ** From what is on disk *)

Section from_disk.
Context {G : Type} {TS : TextStore G} {SL : TextStoreLaws G} {ENV : RecoveryEnv} {RL : RecoveryLaws} {HI : HashIter}.
Context (rid : bytes).

(** A directory as a start finds it: nothing is pending, and every file is what a crash left. *)
Definition at_rest (fs : Fs) : Prop :=
  fs_wf fs /\ fs_ops fs = [] /\ forall i n, fs_inodes fs !! i = Some n -> n = mkInode (i_data n) (length (i_data n)) false.

Lemma crash_at_rest fs fs' : fs_wf fs -> crashes_to fs fs' -> at_rest fs'.
Proof.
  intros Hw Hc. split; [by eapply crash_wf|]. split; [by destruct Hc as (_ & ? & _)|]. intros i n Hi.
  destruct Hc as (_ & _ & _ & Hf). specialize (Hf i). destruct (fs_inodes fs !! i) as [n0|]; [|congruence].
  destruct Hf as (s & _ & E). rewrite Hi in E. by injection E as ->.
Qed.

Lemma rest_settled fs n : at_rest fs -> settled fs n (visible fs !! n).
Proof. intros (_ & Ho & _) v [<-|(op & Hop & _)]; [unfold visible; by rewrite Ho|]. rewrite Ho in Hop. by apply not_elem_of_nil in Hop. Qed.

Lemma rest_read fs n s : at_rest fs -> fs_read n fs = Some s -> exists i, visible fs !! n = Some i /\ fs_inodes fs !! i = Some (mkInode s (length s) false).
Proof.
  intros (_ & _ & Hi) Hr. unfold fs_read in Hr. destruct (visible fs !! n) as [i|] eqn:V; [|done]. cbn in Hr.
  destruct (fs_inodes fs !! i) as [nd|] eqn:E; [|done]. cbn in Hr. injection Hr as <-. exists i. split; [done|]. rewrite E. f_equal. by eapply Hi.
Qed.

Lemma read_capped_run name cap over w : w_faults w = [] ->
  read_capped name cap over w = (w, Some (match fs_read name (w_fs w) with
    | None => Err NotFound
    | Some s => if over && (cap <? Z.of_nat (length s))%Z then Err OtherIo else Ok (take_capped cap s) end)).
Proof. intros Hf. unfold read_capped, call. rewrite Hf. destruct w as [fs fl wr sh an]. cbn in *. by subst fl. Qed.

Lemma read_over (cap : Z) s : (if true && (cap <? Z.of_nat (length s))%Z then Err OtherIo else Ok (take_capped cap s) : result bytes IoError) =
  if (cap <? Z.of_nat (length s))%Z then Err OtherIo else Ok s.
Proof. cbn [andb]. unfold take_capped. by destruct (cap <? _)%Z. Qed.

Definition log_data (fs : Fs) (g : N) : bytes := match fs_read (log_name rid g) fs with Some s => take_capped LOG_READ_MAX s | None => [] end.

(** What a successful load has seen. *)
Lemma load_inv w l : w_faults w = [] -> load_rid rid w = (w, Some (Ok l)) ->
  exists raw m sraw R (x t' : Text G) d,
    fs_read (meta_name rid) (w_fs w) = Some raw /\ (Z.of_nat (length raw) <= META_MAX_BYTES)%Z /\ parse_meta rid raw = Ok m /\
    fs_read (snap_name rid (mt_generation m)) (w_fs w) = Some sraw /\ (Z.of_nat (length sraw) <= snap_cap)%Z /\
    parse_snap (mt_generation m) sraw = Ok (R, x) /\
    replay_log (length (log_data (w_fs w) (mt_generation m))) x (mt_generation m) R (log_data (w_fs w) (mt_generation m)) = Some (t', ld_rev l, d) /\
    ld_meta l = m /\ ld_text l = read t' 0 (len t') [].
Proof.
  intros Hf. unfold load_rid, mbind, W_bind. rewrite read_capped_run by done.
  destruct (fs_read (meta_name rid) (w_fs w)) as [raw|] eqn:Em; [|done]. rewrite read_over. destruct (Z.ltb_spec META_MAX_BYTES (Z.of_nat (length raw))); [done|].
  destruct (parse_meta rid raw) as [m|] eqn:Ep; [|done]. rewrite read_capped_run by done.
  destruct (fs_read (snap_name rid (mt_generation m)) (w_fs w)) as [sraw|] eqn:Es; [|done]. rewrite read_over.
  fold snap_cap. destruct (Z.ltb_spec snap_cap (Z.of_nat (length sraw))); [done|].
  destruct (parse_snap (mt_generation m) sraw) as [[R x]|] eqn:Eps; [|done]. rewrite read_capped_run by done. unfold lift.
  assert (match (match fs_read (log_name rid (mt_generation m)) (w_fs w) with None => Err NotFound
      | Some s => if false && (LOG_READ_MAX <? Z.of_nat (length s))%Z then Err OtherIo else Ok (take_capped LOG_READ_MAX s) end : result bytes IoError) with Ok s => s | Err _ => [] end
      = log_data (w_fs w) (mt_generation m)) as -> by (unfold log_data; destruct (fs_read (log_name rid (mt_generation m)) (w_fs w)); reflexivity).
  destruct (replay_log _ x _ R _) as [[[t' rev] d]|] eqn:Er; [|done]. intros [= <-]. exists raw, m, sraw, R, x, t', d. done.
Qed.

Lemma loaded_fits w l : w_faults w = [] -> load_rid rid w = (w, Some (Ok l)) -> text_fits (ld_text l).
Proof.
  intros Hf H. destruct (load_inv w l Hf H) as (raw & m & sraw & R & x & t' & d & _ & _ & _ & _ & _ & Es & Er & _ & ->).
  eapply replayed_fits; [by eapply parse_snap_inv|exact Er].
Qed.

(** A directory at rest promises the text that [load_rid] reads from it. *)
Lemma rest_holding fs w l w0 :
  at_rest fs -> w_fs w = fs -> w_faults w = [] -> load_rid rid w = (w, Some (Ok l)) -> fs_read (log_name rid (mt_generation (ld_meta l))) fs <> None ->
  w_fs w0 = fs -> files w0 = ∅ ->
  exists p0 raw0, parse_meta rid raw0 = Ok (ld_meta l) /\ mt_generation (ld_meta l) = gn_gen p0 /\
    holding (G := G) rid (ld_text l) p0 raw0 (ld_rev l) True w0.
Proof.
  intros Hr Ew Hf H Hlog Ew0 Ef0. destruct (load_inv w l Hf H) as (raw & m & sraw & R & x & t' & d & Rm & Lm & Pm & Rs & Ls & Ps & Er & Em & Et).
  rewrite Em in *. rewrite Ew in *. destruct (rest_read _ _ _ Hr Rm) as (im & Vm & Im). destruct (rest_read _ _ _ Hr Rs) as (ik & Vs & Ik).
  unfold log_data in Er. destruct (fs_read (log_name rid (mt_generation m)) fs) as [s|] eqn:Rl; [|done].
  destruct (rest_read _ _ _ Hr Rl) as (il & Vl & Il). set (p0 := mkGen (mt_generation m) im ik il).
  assert (forall n i, visible fs !! n = i -> settled fs n i) as Hset by (intros n i <-; by apply rest_settled).
  assert (forall i y, fs_inodes fs !! i = Some (mkInode y (length y) false) -> holds fs i y) as Hh by (intros i y Hy; by exists (length y), false).
  exists p0, raw. split_and!; [done|done|]. exists [p0]. rewrite Ew0. split; [|intros _; split; [done|by apply Hh]]. split; rewrite ?Ew0.
  - apply Hr.
  - split.
    + intros _ v Hv. exists p0. split; [by left|]. by apply (Hset _ _ Vm).
    + intros p ->%list_elem_of_singleton. split; [exists raw, m; split_and!; [by apply Hh|done..]|]. split_and!; [by apply Hset|by apply Hset|].
      exists R, x, (mkInode s (length s) false). split_and!; [exists sraw; split_and!; [by apply Hh|done..]|exact Il|].
      intros s' ->%torn_safe; [|done]. exists t', (ld_rev l), d. split; [exact Er|]. split_and!; [by rewrite Et|cbn; lia|]. intros f [= <-]. lia.
  - intros p ->%list_elem_of_singleton. cbn. lia.
  - intros r f j Hf0. rewrite Ef0, lookup_empty in Hf0. done.
  - intros f Hf0. rewrite Ef0, lookup_empty in Hf0. done.
  - intros f [= <-]. split; [done|cbn; lia].
Qed.
End from_disk.
