(* ===== verification/RecoveryJson.v ===== *)
(** * The editor daemon's recovery files: an environment

    A concrete environment that meets the hypotheses of the recovery theorems: an encoding of the
    records as lists of strings, spelled in the digits 0 and 1, that reads back only strings; a hash
    that is one constant digest; an allocator that always has memory; no files outside. *)

From S2P Require Import Prelude Utf8 EditBase Ot GapBuffer Memory Text Buffer Str BTree MirrorTypes RecoveryFs Recovery RecoveryLoad.
From S2P Require Import RecoveryWp RecoveryDisk RecoveryReplay.

(** ** Lists of strings as one line *)

Fixpoint bits (p : positive) : bytes :=
  match p with xH => [] | xO p => x30 :: bits p | xI p => x31 :: bits p end.
Fixpoint unbits (s : bytes) : positive :=
  match s with [] => xH | b :: s => (if Byte.eqb b x31 then xI else xO) (unbits s) end.

Lemma unbits_bits p : unbits (bits p) = p.
Proof. by induction p as [p IH|p IH|]; cbn; rewrite ?IH. Qed.
Lemma bits_one_line p : NL ∉ bits p.
Proof. induction p as [p IH|p IH|]; cbn; rewrite ?elem_of_cons; [by intros [?|?]..|by intros ?%not_elem_of_nil]. Qed.

Definition put_fields (l : list bytes) : bytes := bits (encode l).
Definition get_fields (s : bytes) : option (list bytes) := decode (unbits s).

Lemma get_put l : get_fields (put_fields l) = Some l.
Proof. unfold get_fields, put_fields. by rewrite unbits_bits, decode_encode. Qed.

(** ** Fields *)

Definition put_opt (o : option bytes) : bytes := match o with Some s => x31 :: s | None => [] end.
Definition get_opt (s : bytes) : option bytes := match s with _ :: s => Some s | [] => None end.
Lemma get_put_opt o : get_opt (put_opt o) = o.
Proof. by destruct o. Qed.

Definition put_int (z : Z) : bytes := (if (z <? 0)%Z then x31 else x30) :: dec (Z.abs_N z).
Definition get_int (s : bytes) : option Z :=
  match s with [] => None | b :: s => n ← undec s; Some (if Byte.eqb b x31 then - Z.of_N n else Z.of_N n)%Z end.
Lemma undec_dec n : undec (dec n) = Some n.
Proof. exact (undec_pad0 0 n). Qed.
Lemma get_put_int z : get_int (put_int z) = Some z.
Proof. unfold get_int, put_int. rewrite undec_dec. cbn. destruct (Z.ltb_spec z 0); cbn; f_equal; lia. Qed.

Definition put_flag (b : bool) : bytes := if b then [x31] else [].
Definition get_flag (s : bytes) : bool := negb (length s =? 0).
Definition put_eol (e : Eol) : bytes := dec match e with Lf => 0 | Crlf => 1 | Mixed => 2 | NoEol => 3 end.
Definition get_eol (s : bytes) : option Eol :=
  n ← undec s; Some match n with 0%N => Lf | 1%N => Crlf | 2%N => Mixed | _ => NoEol end.
Lemma get_put_eol e : get_eol (put_eol e) = Some e.
Proof. by destruct e. Qed.

(** ** Records *)

Definition fields_meta (m : RecoveryMeta) : list bytes :=
  [mt_format m; mt_rid m; dec (mt_generation m); put_opt (mt_path m); put_opt (mt_opened_as m); mt_language m;
   put_eol (mt_eol m); put_flag (mt_bom m); mt_epoch m; mt_buffer m; dec (mt_created_ms m)] ++
  match mt_base m with
  | None => []
  | Some b => let s := ba_stat b in [dec (dev s); dec (ino s); dec (size s); put_int (mtime_ns s); ba_blake3 b]
  end.
Definition meta_fields (l : list bytes) : option RecoveryMeta :=
  match l with
  | f :: r :: g :: p :: o :: l :: e :: b :: ep :: bu :: c :: rest =>
    g ← undec g; e ← get_eol e; c ← undec c;
    base ← match rest with
           | [d; i; s; t; h] => d ← undec d; i ← undec i; s ← undec s; t ← get_int t; Some (Some (mkBaseIdentity (mkStat d i s t) h))
           | _ => Some None
           end;
    Some (mkRecoveryMeta f r g (get_opt p) (get_opt o) l e (get_flag b) base ep bu c)
  | _ => None
  end.

Definition fields_header (h : SnapHeader) : list bytes :=
  [hd_format h; dec (hd_generation h); dec (hd_rev h); dec (hd_bytes h); hd_blake3 h].
Definition header_fields (l : list bytes) : option SnapHeader :=
  match l with
  | [f; g; r; n; h] => g ← undec g; r ← undec r; n ← undec n; Some (mkSnapHeader f g r n h)
  | _ => None
  end.

Fixpoint fields_edits (es : list Edit) : list bytes :=
  match es with [] => [] | e :: es => dec (N.of_nat (e_offset e)) :: dec (N.of_nat (e_delete e)) :: e_insert e :: fields_edits es end.
Fixpoint edits_fields (fuel : nat) (l : list bytes) : option (list Edit) :=
  match l, fuel with
  | o :: d :: i :: l, S fuel => o ← undec o; d ← undec d; es ← edits_fields fuel l; Some (mkEdit (N.to_nat o) (N.to_nat d) i :: es)
  | _, _ => Some []
  end.
Definition fields_record (r : LogRecord) : list bytes := dec (rc_rev r) :: rc_h r :: fields_edits (rc_edits r).
Definition record_fields (l : list bytes) : option LogRecord :=
  match l with r :: h :: l => r ← undec r; es ← edits_fields (length l) l; Some (mkLogRecord r es h) | _ => None end.

Lemma meta_fields_back m : meta_fields (fields_meta m) = Some m.
Proof.
  destruct m as [f r g p o l e b base ep bu c]. unfold fields_meta. cbn -[undec dec get_eol put_eol get_opt put_opt get_int put_int].
  rewrite !undec_dec, get_put_eol. cbn -[undec dec get_opt put_opt get_int put_int]. rewrite !get_put_opt.
  destruct base as [[[d i s t] h]|]; repeat first [rewrite undec_dec | rewrite get_put_int | progress cbn -[undec dec get_int put_int]]; by destruct b.
Qed.
Lemma header_fields_back h : header_fields (fields_header h) = Some h.
Proof. destruct h. cbn -[undec dec]. by repeat (rewrite undec_dec; cbn -[undec dec]). Qed.
Lemma edits_fields_back es : forall k, length (fields_edits es) <= k -> edits_fields k (fields_edits es) = Some es.
Proof.
  induction es as [|[o d i] es IH]; intros [|k] Hk; try done; cbn [fields_edits length e_offset e_delete e_insert] in *; [lia|].
  cbn [edits_fields]. repeat (rewrite undec_dec; cbn). rewrite IH by lia. cbn. by rewrite !Nat2N.id.
Qed.
Lemma record_fields_back r : record_fields (fields_record r) = Some r.
Proof. destruct r as [v es h]. cbn [fields_record rc_rev rc_h rc_edits record_fields]. rewrite undec_dec. cbn. by rewrite edits_fields_back. Qed.

(** ** The environment *)


#[export] Instance plain_env : RecoveryEnv := {|
  enc_meta m := Ok (put_fields (fields_meta m));
  dec_meta s := get_fields s ≫= meta_fields;
  enc_header h := Ok (put_fields (fields_header h));
  dec_header s := get_fields s ≫= header_fields;
  enc_record r := Ok (put_fields (fields_record r));
  dec_record s := r ← get_fields s ≫= record_fields; if forallb from_utf8_ok (record_strings r) then Some r else None;
  enc_edits es := put_fields (fields_edits es);
  blake3 _ := bs "digest"; to_hex s := bs "646967657374"; from_hex s := Some (bs "digest");
  re_reserve _ _ := true; mtime_ms _ := 0%N; read_bounded _ := Err NotFound |}.

#[export] Instance plain_laws : RecoveryLaws.
Proof.
  split.
  - intros m _. exists (put_fields (fields_meta m)). split; [done|]. cbn. rewrite get_put. apply meta_fields_back.
  - intros h _. exists (put_fields (fields_header h)). split_and!; [done| |apply bits_one_line]. cbn -[fields_header header_fields]. rewrite get_put. apply header_fields_back.
  - intros r Hr. exists (put_fields (fields_record r)). split_and!; [done| |apply bits_one_line].
    cbn -[fields_record record_fields record_strings]. rewrite get_put. cbn -[fields_record record_fields record_strings]. rewrite record_fields_back.
    cbn -[record_strings]. replace (forallb from_utf8_ok (record_strings r)) with true; [done|]. symmetry. apply forallb_forall. intros s Hs%list_elem_of_In.
    rewrite Forall_forall in Hr. by apply from_utf8_ok_iff, Hr.
  - intros s r H. cbn -[record_strings] in H. destruct (get_fields s ≫= record_fields) as [r'|]; [|done]. cbn -[record_strings] in H.
    destruct (forallb from_utf8_ok (record_strings r')) eqn:E; [|done]. injection H as <-. rewrite Forall_forall. intros x Hx%list_elem_of_In.
    rewrite forallb_forall in E. by apply from_utf8_ok_iff, E.
  - done.
Qed.

(** The gap buffer of a system that grants what a text within the limits asks for. *)
#[export] Instance plain_store : TextStore GapBuffer := vm_store.
#[export] Instance plain_store_laws : TextStoreLaws GapBuffer := vm_laws.

Lemma gap_granted : memory_granted GapBuffer re_reserve.
Proof. exact vm_memory. Qed.
