(* ===== verification/RecoveryClaims.v ===== *)
(** * The editor daemon's recovery files: the stream of messages, and what survives

    [follow] runs the writer over a stream and keeps the books: where the rid's stream stands and
    which revision is safe.  What is safe survives every crash, and on a good disk a flush makes
    everything safe. *)

From S2P Require Import Prelude Utf8 EditBase Ot GapBuffer Memory Text Buffer Str BTree MirrorTypes RecoveryFs Recovery RecoveryLoad.
From S2P Require Import RecoveryWp RecoveryDisk RecoveryReplay RecoveryInv RecoveryApart RecoveryOwn RecoveryRun RecoverySync RecoveryRestore RecoveryJson.

Section stream.
Context {G : Type} {TS : TextStore G} {SL : TextStoreLaws G} {ENV : RecoveryEnv} {RL : RecoveryLaws} {HI : HashIter}.
Context (rid : bytes) (T : N -> bytes) (E : N -> list Edit).

Notation base := (base (G := G) rid T).
Notation inv := (inv (G := G) rid T E).
Notation pledge := (pledge (G := G) rid T).
Notation failing := (failing rid).
Notation crashed := (crashed (G := G) rid T).

(** ** The stream of a rid *)

(** What the actor of the rid sends next: generations only grow, a switch carries the text of its
    revision, appends go to the last switch's generation one revision after the other.  Messages of
    other rids are arbitrary. *)
Definition legit (pos : Pos) (i : option RecoveryMsg) : Prop :=
  match i with
  | Some (MSwitch r g R t m) => is_rid r = true /\
      (r = rid -> (ps_gen pos < g)%N /\ (ps_top pos <= R)%N /\ t = T R /\ switch_fits rid g R t m)
  | Some (MAppend r g v es) => is_rid r = true /\
      (r = rid -> ps_on pos = true /\ g = ps_gen pos /\ v = (ps_top pos + 1)%N /\ es = E v /\ log_fits E g (ps_snap pos) v)
  | Some (MDiscard r) => is_rid r = true
  | Some (MFlush _) | None => True
  end.

Definition next_pos (pos : Pos) (i : option RecoveryMsg) : Pos :=
  match i with
  | Some (MSwitch r g R _ _) => if bool_decide (r = rid) then mkPos true g R R else pos
  | Some (MAppend r g v _) => if bool_decide (r = rid) then mkPos true (ps_gen pos) (ps_snap pos) v else pos
  | Some (MDiscard r) => if bool_decide (r = rid) then mkPos false (ps_gen pos) (ps_snap pos) (ps_top pos) else pos
  | Some (MFlush _) | None => pos
  end.

(** What is safe after the input: a switch that did not fail makes its revision safe, a sync or flush
    that did not fail every revision sent; a discard ends the promise. *)
Definition next_floor (pos : Pos) (i : option RecoveryMsg) (floor : option N) (w' : World) : option N :=
  match i with
  | Some (MSwitch r _ R _ _) => if bool_decide (r = rid) then switched rid floor R w' else floor
  | Some (MAppend _ _ _ _) => floor
  | Some (MDiscard r) => if bool_decide (r = rid) then None else floor
  | Some (MFlush _) | None => settled_floor rid pos floor w'
  end.

(** When the daemon is killed at the input. *)
Definition killed_floor (i : option RecoveryMsg) (floor : option N) : option N :=
  match i with Some (MDiscard r) => if bool_decide (r = rid) then None else floor | _ => floor end.

Fixpoint legit_stream (pos : Pos) (l : list (option RecoveryMsg)) : Prop :=
  match l with [] => True | i :: l => legit pos i /\ legit_stream (next_pos pos i) l end.

(** The writer over the stream, until it ends or the daemon is killed. *)
Fixpoint follow (l : list (option RecoveryMsg)) (w : World) (pos : Pos) (floor : option N) : World * Pos * option N :=
  match l with
  | [] => (w, pos, floor)
  | i :: l =>
    match run_input i w with
    | (w', Some _) => follow l w' (next_pos pos i) (next_floor pos i floor w')
    | (w', None) => (w', next_pos pos i, killed_floor i floor)
    end
  end.

(** A writer that has promised nothing for the rid: at the daemon's start, or after a discard. *)
Definition starts (w : World) (pos : Pos) : Prop :=
  fs_wf (w_fs w) /\ ps_on pos = false /\ (forall r f j, files w !! r = Some f -> rf_log f = Some j -> j < fs_next (w_fs w)) /\
  (forall f, files w !! rid = Some f -> (rf_generation f <= ps_gen pos)%N).

Lemma starts_inv w pos : starts w pos -> inv [] w pos None.
Proof.
  intros (W & On & L & Hg). split; [|by rewrite On]. split; try done.
  - split; [by intros [? ?]|by intros p ?%elem_of_nil].
  - by intros p ?%elem_of_nil.
  - intros r f j H1 H2. split; [by eapply L|by intros p ?%elem_of_nil].
Qed.

(** ** One input *)

Context (granted : memory_granted G re_reserve) (hist : history T E) (Hrid : is_rid rid = true).

Definition input_ok (ps : list Gen) (pos : Pos) (i : option RecoveryMsg) (floor : option N) (w : World) : Prop :=
  wp (run_input i) (fun _ w' => (exists ps', inv ps' w' (next_pos pos i) (next_floor pos i floor w')) /\ (failing w' -> failing w \/ blame w))
     (crashed (killed_floor i floor) (ps_top (next_pos pos i))) w.

(** An input that leaves the rid alone. *)
Lemma apart_input {A} (m : W A) ps pos floor w C :
  inv ps w pos floor -> apart (G := G) rid T ps pos floor m w -> (forall fs, crashed floor (ps_top pos) fs -> C fs) ->
  wp m (fun _ w' => (exists ps', inv ps' w' pos floor) /\ (failing w' -> failing w \/ blame w)) C w.
Proof.
  intros I H HC. eapply fwp_mono; [exact H| |].
  - intros a w' _ F. cbn in F. split; [exists ps; by eapply inv_spared|]. rewrite (fr_failing _ _ _ _ F). by left.
  - intros fs Pl. apply HC. by exists ps.
Qed.

Lemma inv_answer ps w w' pos floor : w_fs w' = w_fs w -> w_writer w' = w_writer w -> w_shared w' = w_shared w -> inv ps w pos floor -> inv ps w' pos floor.
Proof.
  intros E1 E2 E3 I. eapply inv_spared; [exact I|]. pose proof (frame_refl rid ps w (bs_wf _ _ _ _ _ _ (proj1 I))) as F.
  destruct F as [F1 F2 F3 F4 F5]. split; unfold files, RecoveryInv.failing in *; rewrite ?E1, ?E2, ?E3; done.
Qed.

Lemma timer_idle ps w pos floor : inv ps w pos floor -> wr_sync_due (w_writer w) = false -> exists ps', inv ps' w pos (settled_floor rid pos floor w).
Proof.
  intros [B L] Hd. exists ps. unfold settled_floor. case_bool_decide as Hf; [done|].
  destruct (ps_on pos) eqn:On.
  - destruct (L eq_refl Hf) as (p & f & n & k & Lv & Hu). specialize (Hu Hd).
    destruct (raise_floor rid T E granted hist _ _ _ _ _ _ _ _ B Lv Hu On) as [B3 L3].
    destruct (lv_floor _ _ _ _ _ _ _ _ _ _ _ Lv) as (m & _ & -> & _). cbn. split; [done|]. intros _ _. by exists p, f, n, k.
  - assert (floor = None) as ->; [|by split; [|rewrite On]]. destruct floor as [x|]; [|done].
    destruct (bs_floor _ _ _ _ _ _ B x eq_refl). congruence.
Qed.

Lemma input_spec ps pos i floor w : inv ps w pos floor -> legit pos i -> input_ok ps pos i floor w.
Proof.
  intros I Hl. unfold input_ok. destruct i as [[r g R t m|r g v es|r|reply]|]; cbn [run_input handle next_pos next_floor killed_floor legit] in *.
  - destruct Hl as [Hr Hown]. case_bool_decide as Hd.
    + subst r. destruct (Hown eq_refl) as (H1 & H2 & -> & H3).
      eapply fwp_mono; [by apply (switch_spec rid T E granted hist ps w pos floor g R m)| |done]. intros u w' _ [X1 X2]. split; [done|auto].
    + apply (apart_input _ ps); [done| |done]. apply apart_switch; [done..|apply I].
  - destruct Hl as [Hr Hown]. case_bool_decide as Hd.
    + subst r. destruct (Hown eq_refl) as (H1 & -> & -> & -> & H3). by apply (append_spec rid T E granted hist ps).
    + apply (apart_input _ ps); [done| |done]. apply apart_append; [done..|apply I].
  - case_bool_decide as Hd.
    + subst r. eapply fwp_mono; [by apply (discard_spec rid T E granted hist ps w pos floor)| |done]. intros u w' _ [H1 H2]. split; [by exists []|done].
    + apply (apart_input _ ps); [done| |done]. apply apart_discard; [done..|apply I].
  - apply fwp_bind. eapply fwp_mono; [by apply (sync_spec rid T E granted hist ps w pos floor)| |done]. intros u w1 _ [(ps' & I1) Hf]. apply wp_alter; [done|].
    split; [|exact Hf]. exists ps'. by eapply inv_answer; [..|exact I1].
  - apply fwp_bind, wp_ask. destruct (wr_sync_due (w_writer w)) eqn:Hd; [by apply (sync_spec rid T E granted hist ps w pos floor)|]. apply fwp_ret. split; [|by left].
    by eapply timer_idle.
Qed.

(** ** The whole stream *)

Lemma follow_spec l : forall ps w pos floor, inv ps w pos floor -> legit_stream pos l ->
  let '(w', pos', floor') := follow l w pos floor in
  crashed floor' (ps_top pos') (w_fs w') /\
  (~ doomed w -> ~ blame w -> ~ failing w -> (exists ps', inv ps' w' pos' floor') /\ ~ failing w' /\ w_faults w' `suffix_of` w_faults w).
Proof.
  induction l as [|i l IH]; intros ps w pos floor I Hl; cbn [follow].
  { split; [by eapply base_crashed, I|]. intros _ _ Hf. split_and!; [by exists ps|done|done]. }
  destruct Hl as [Hi Hl]. pose proof (input_spec ps pos i floor w I Hi) as H. unfold input_ok, wp in H.
  destruct (run_input i w) as [w1 [u|]]; destruct H as [Hs H].
  - destruct H as [(ps1 & I1) Hf]. specialize (IH ps1 w1 _ _ I1 Hl). destruct (follow l w1 _ _) as [[w2 pos2] floor2].
    destruct IH as [IH1 IH2]. split; [done|]. intros Hd Hb Hn.
    destruct IH2 as (X1 & X2 & X3); [by intros ?%(doomed_suffix _ _ Hs)|by intros ?%(blame_suffix _ _ Hs)|by intros [?|?]%Hf|].
    split_and!; [done|done|by trans (w_faults w1)].
  - destruct H as [Hd Hc]. split; [exact Hc|]. by intros.
Qed.

(** With nothing failing, a flush at the end raises the floor to the last revision. *)
(** Where a stream ends that nothing cuts off. *)
Definition positions (pos : Pos) (l : list (option RecoveryMsg)) : Pos := foldl next_pos pos l.

Lemma flush_last l reply : forall ps w pos floor, inv ps w pos floor -> legit_stream pos l -> ~ doomed w -> ~ blame w -> ~ failing w ->
  let '(w', pos', floor') := follow (l ++ [Some (MFlush reply)]) w pos floor in
  ~ failing w' /\ pos' = positions pos l /\ (ps_on pos' = true -> floor' = Some (ps_top pos')).
Proof.
  induction l as [|i l IH]; intros ps w pos floor I Hl Hd Hb Hn; cbn [app follow].
  - pose proof (input_spec ps pos (Some (MFlush reply)) floor w I Logic.I) as H. unfold input_ok, wp in H.
    destruct (run_input _ w) as [w1 [u|]]; destruct H as [Hs H]; [|by destruct H]. destruct H as [_ Hf].
    assert (~ failing w1) as Hn1 by (by intros [?|?]%Hf). cbn. split_and!; [done|done|]. intros On.
    destruct I as [_ Lv]. destruct (Lv On Hn) as (p & fi & n & k & Li & _). destruct (lv_floor _ _ _ _ _ _ _ _ _ _ _ Li) as (m & _ & -> & _).
    unfold settled_floor. by rewrite bool_decide_false.
  - destruct Hl as [Hi Hl]. pose proof (input_spec ps pos i floor w I Hi) as H. unfold input_ok, wp in H.
    destruct (run_input i w) as [w1 [u|]]; destruct H as [Hs H]; [|by destruct H]. destruct H as [(ps1 & I1) Hf].
    apply (IH ps1); [done|done|by intros ?%(doomed_suffix _ _ Hs)|by intros ?%(blame_suffix _ _ Hs)|by intros [?|?]%Hf].
Qed.

(** ** The claims *)

(** A start reads the files [fs] and no call fails. *)
Definition started (fs : Fs) (w : World) : Prop := w_fs w = fs /\ w_faults w = [].

Lemma crashed_loads f top fs fs' wr : crashed (Some f) top fs -> crashes_to fs fs' -> started fs' wr ->
  exists x, load_rid (G := G) rid wr = (wr, Some (Ok x)) /\ ld_text x = T (ld_rev x) /\ (f <= ld_rev x <= top)%N.
Proof.
  intros (ps & Pl) Hc [Hw Hf]. destruct (promise_loads rid (good T (Some f) top) fs fs' ps wr) as (x & X1 & X2 & X3 & X4); try done.
  - eapply promise_mono; [| |exact Pl]; [by intros|done].
  - exists x. split_and!; [done|done|by apply X4|done].
Qed.

Lemma legit_flush l reply : forall pos, legit_stream pos l -> legit_stream pos (l ++ [Some (MFlush reply)]).
Proof. induction l as [|i l IH]; intros pos; cbn [app legit_stream]; [done|]. intros [H1 H2]. split; [done|]. by apply IH. Qed.

(** C2 What was acknowledged survives.  The writer runs over any stream of messages, of this rid as its actor sends
    them and of other rids, with any calls of the system failing, until the stream ends or the daemon is killed at
    any call.  If a revision was safe by then (a switch, sync or flush of the rid that did not fail), then whatever the
    crash leaves of the files, the restore loads the rid, and its text is that of a revision of the buffer, at least
    as new as the safe one.  The restore gets the memory a text within the limits asks for ([memory_granted]). *)
Theorem acknowledged_text_survives l w0 pos0 fs' wr f :
  starts w0 pos0 -> legit_stream pos0 l ->
  let '(w, pos, floor) := follow l w0 pos0 None in
  floor = Some f -> crashes_to (w_fs w) fs' -> started fs' wr ->
  exists x, load_rid (G := G) rid wr = (wr, Some (Ok x)) /\ ld_text x = T (ld_rev x) /\ (f <= ld_rev x <= ps_top pos)%N.
Proof.
  intros S L. pose proof (follow_spec l [] w0 pos0 None (starts_inv w0 pos0 S) L) as H.
  destruct (follow l w0 pos0 None) as [[w pos] floor]. destruct H as [Pl _]. intros -> Hc W. by apply (crashed_loads f (ps_top pos) (w_fs w) fs' wr).
Qed.

(** A flush on a good disk. *)
Lemma good_disk l w0 pos0 reply :
  starts w0 pos0 -> legit_stream pos0 l -> w_faults w0 = [] -> ~ failing w0 ->
  let '(w, pos, floor) := follow (l ++ [Some (MFlush reply)]) w0 pos0 None in
  ~ failing w /\ pos = positions pos0 l /\ (ps_on pos = true -> floor = Some (ps_top pos) /\
    forall fs' wr, crashes_to (w_fs w) fs' -> started fs' wr ->
    exists x, load_rid (G := G) rid wr = (wr, Some (Ok x)) /\ ld_text x = T (ps_top pos) /\ ld_rev x = ps_top pos).
Proof.
  intros S L Hf Hn. pose proof (starts_inv w0 pos0 S) as I.
  pose proof (follow_spec _ [] w0 pos0 None I (legit_flush l reply pos0 L)) as H.
  assert (let '(w, pos, floor) := follow (l ++ [Some (MFlush reply)]) w0 pos0 None in ~ failing w /\ pos = positions pos0 l /\ (ps_on pos = true -> floor = Some (ps_top pos))) as F.
  { apply (flush_last l reply []); [done|done|..|done]; intros [n X]; rewrite Hf in X; by apply elem_of_nil in X. }
  destruct (follow (l ++ [Some (MFlush reply)]) w0 pos0 None) as [[w pos] floor]. destruct H as [Hc _], F as (F1 & F2 & F3).
  split_and!; [done|done|]. intros On. specialize (F3 On) as ->. split; [done|]. intros fs' wr C W.
  destruct (crashed_loads _ _ _ _ _ Hc C W) as (x & X1 & X2 & X3 & X4). assert (ld_rev x = ps_top pos) as Er by lia. exists x. by rewrite X2, Er.
Qed.

(** C34 On a good disk nothing is lost: when no call fails and the daemon is not killed, after a flush the rid is not
    marked failed, and if it has files, then whatever a crash leaves of them loads with the last revision sent, when
    the restore gets the memory a text within the limits asks for ([memory_granted]). *)
Theorem flush_on_a_good_disk l w0 pos0 reply :
  starts w0 pos0 -> legit_stream pos0 l -> w_faults w0 = [] -> ~ failing w0 ->
  let '(w, pos, floor) := follow (l ++ [Some (MFlush reply)]) w0 pos0 None in
  ~ failing w /\ (ps_on pos = true -> floor = Some (ps_top pos) /\
    forall fs' wr, crashes_to (w_fs w) fs' -> started fs' wr ->
    exists x, load_rid (G := G) rid wr = (wr, Some (Ok x)) /\ ld_text x = T (ps_top pos) /\ ld_rev x = ps_top pos).
Proof.
  intros S L Hf Hn. pose proof (good_disk l w0 pos0 reply S L Hf Hn) as H. destruct (follow _ w0 pos0 None) as [[w pos] floor].
  destruct H as (H1 & _ & H2). by split.
Qed.
End stream.

Section loads.
Context {G : Type} {TS : TextStore G} {SL : TextStoreLaws G} {ENV : RecoveryEnv} {RL : RecoveryLaws} {HI : HashIter}.

(** C35 Loading a rid never panics and changes nothing, whatever bytes its files hold and whatever calls fail; what it
    loads is a text within the buffer's limits.  Only a kill ends it early, and that leaves the files as they were. *)
Theorem load_never_panics rid w :
  let '(w', r) := load_rid (G := G) rid w in
  w_fs w' = w_fs w /\
  match r with
  | Some (Ok x) => w_writer w' = w_writer w /\ w_shared w' = w_shared w /\ ld_rid x = rid /\ text_fits (ld_text x)
  | Some (Err _) => w_writer w' = w_writer w /\ w_shared w' = w_shared w
  | None => exists n, Killed n ∈ w_faults w
  end.
Proof.
  pose proof (load_spec (G := G) rid w (fun fs => fs = w_fs w) eq_refl) as H. unfold wp in H. cbv beta in H.
  destruct (load_rid rid w) as [w' [[x|e]|]]; destruct H as [_ H].
  - destruct H as [(Q1 & Q2 & Q3) H]. destruct (H x eq_refl) as [H1 H2]. by split_and!.
  - destruct H as [(Q1 & Q2 & Q3) _]. by split_and!.
  - by destruct H as [H1 H2].
Qed.

(** C3 The restore loses nothing.  A directory at rest holds a rid that loads with a text.  The restore runs over it and the
    daemon is killed at any call, or not.  Whatever that crash leaves of the files, the rid loads with the same text again,
    unless the bound file already has exactly that text.  Each restore gets the memory a text within the limits asks
    for ([memory_granted]). *)
Theorem restore_keeps_text rid epoch caps fs w x w0 fs' w' :
  memory_granted G re_reserve -> is_rid rid = true ->
  at_rest fs -> started fs w -> load_rid (G := G) rid w = (w, Some (Ok x)) -> fs_read (log_name rid (mt_generation (ld_meta x))) fs <> None ->
  (forall n path opened_as, n <= max_buffers caps -> (path, opened_as) = (mt_path (ld_meta x), mt_opened_as (ld_meta x)) \/ (path, opened_as) = (None, None) ->
     switch_fits rid (mt_generation (ld_meta x) + 1) 0 (ld_text x)
       (restored_meta epoch n path opened_as (base_of (ld_text x) (ld_meta x) path) rid (ld_meta x))) ->
  w_fs w0 = fs -> files w0 = ∅ -> ~ blame w0 ->
  crashes_to (w_fs (restore (G := G) epoch caps w0).1) fs' -> started fs' w' ->
  (exists y, load_rid (G := G) rid w' = (w', Some (Ok y)) /\ ld_text y = ld_text x) \/
  (exists p st c, mt_path (ld_meta x) = Some p /\ read_bounded p = Ok (st, c) /\ default c (strip_prefix BOM c) = ld_text x).
Proof.
  intros Gr Hrid Hr [Ew Hf] Hl Hlog Hfit Ew0 Ef0 Hb Hc [Ew' Hf'].
  destruct (disk_has (ld_text x) (ld_meta x)) eqn:Hd.
  { right. unfold disk_has in Hd. destruct (mt_path (ld_meta x)) as [p|]; [|done]. unfold compare_disk in Hd.
    destruct (read_bounded p) as [[st c]|[]] eqn:Erb; [|done..]. case_bool_decide as Hbd; [|case_bool_decide; done]. exists p, st, c. done. }
  left. destruct (rest_holding rid fs w x w0 Hr Ew Hf Hl Hlog Ew0 Ef0) as (p0 & raw0 & Hm & Hg & H).
  rewrite Hg in Hfit. pose proof (restore_spec Gr rid Hrid (ld_text x) (loaded_fits rid w x Hf Hl) p0 raw0 (ld_meta x) Hm Hg (ld_rev x) epoch caps Hfit Hd w0 H Hb) as R.
  unfold wp in R. assert (crashed (G := G) rid (T0 (ld_text x)) (Some 0%N) (ld_rev x) (w_fs (restore epoch caps w0).1)) as (ps & Pl).
  { destruct (restore epoch caps w0) as [w1 [r|]]; destruct R as [_ R]; cbn.
    - destruct R as (ps & B & _). by eapply base_crashed in B.
    - apply R. }
  destruct (promise_loads rid (good (T0 (ld_text x)) (Some 0%N) (ld_rev x)) (w_fs (restore epoch caps w0).1) fs' ps w') as (y & Y1 & Y2 & _); try done.
  - eapply promise_mono; [| |exact Pl]; [by intros|done].
  - by exists y.
Qed.
End loads.

(** ** The claims at work *)

Module Example.
#[local] Instance in_order : HashIter := {| hash_iter V (m : gmap bytes V) := map_to_list m; hash_iter_perm V m := reflexivity (map_to_list m) |}.

(** A buffer that an insert and an empty transaction changed. *)
Definition ex_rid : bytes := bs "00000000000000ab".
Definition ex_T (r : N) : bytes := if (r =? 0)%N then [] else bs "x".
Definition ex_E (r : N) : list Edit := if (r =? 1)%N then [mkEdit 0 0 (bs "x")] else [].
Definition ex_meta : RecoveryMeta :=
  mkRecoveryMeta META_FORMAT ex_rid 0 None None (bs "plain") NoEol false None (bs "e1") (bs "b1_e1") 7.

Definition ex_world (fs : Fs) (faults : list Fault) : World :=
  mkWorld fs faults (mkWriter ∅ ∅ false ∅) (mkShared 0 (mkStats 0 0 0 0 0 0 0 0 0 0) ∅ ∅ false) [].
Definition ex_empty : Fs := mkFs ∅ 0 ∅ [].
Definition ex_start : Pos := mkPos false 0 0 0.
Definition ex_stream : list (option RecoveryMsg) :=
  [Some (MSwitch ex_rid 1 0 [] ex_meta); Some (MAppend ex_rid 1 1 (ex_E 1)); None; Some (MAppend ex_rid 1 2 (ex_E 2))].
(** The daemon is killed in the second append, three bytes into its record. *)
Definition ex_killed : World := ex_world ex_empty (replicate 16 Good ++ [Killed 3]).
Definition ex_run : World * Pos * option N := follow ex_rid ex_stream ex_killed ex_start None.

Definition calm (fs : Fs) : Fs :=
  mkFs ((fun n => mkInode (take (i_synced n) (i_data n)) (length (take (i_synced n) (i_data n))) false) <$> fs_inodes fs) (fs_next fs) (fs_dir fs) [].

Lemma calm_crash fs : fs_wf fs -> crashes_to fs (calm fs).
Proof.
  intros W. split; [|split_and!; [done|done|]].
  - exists []. split; [apply sublist_nil_l|done].
  - intros i. cbn. rewrite lookup_fmap. destruct (fs_inodes fs !! i) as [n|] eqn:E; [|done]. cbn. eexists. split; [|reflexivity].
    exists (i_synced n), 0. destruct (W _ _ E). split_and!; [done|lia|by rewrite app_nil_r].
Qed.

Lemma ex_history : history ex_T ex_E.
Proof.
  intros r. split; [|split].
  - unfold ex_T. destruct (r =? 0)%N; (split_and!; [by apply from_utf8_ok_iff|vm_compute; discriminate..]).
  - unfold ex_T, ex_E. destruct (N.eqb_spec (r + 1) 1) as [Hr|Hr].
    + replace r with 0%N by lia. cbn. unfold edits_fit. split_and!; [|by cbn; lia| |vm_compute; split_and!; discriminate || done].
      * apply Forall_singleton. by apply from_utf8_ok_iff.
      * by apply Forall_singleton.
    + by split_and!; constructor.
  - unfold ex_T, ex_E. destruct (N.eqb_spec (r + 1) 1) as [Hr|Hr].
    + replace r with 0%N by lia. reflexivity.
    + destruct (N.eqb_spec r 0); [lia|]. destruct (N.eqb_spec (r + 1) 0); [lia|]. reflexivity.
Qed.

Lemma ex_starts faults : starts ex_rid (ex_world ex_empty faults) ex_start.
Proof.
  split_and!; [|done| |]; cbn; [intros i n; cbn; by rewrite lookup_empty|..|intros f; cbn; by rewrite lookup_empty].
  intros r f j. cbn. by rewrite lookup_empty.
Qed.

Lemma ex_legit : legit_stream ex_rid ex_T ex_E ex_start ex_stream.
Proof.
  assert (forall v, (v = 1)%N \/ (v = 2)%N -> log_fits ex_E 1 0 v) as Hlog by (intros v [->| ->]; vm_compute; discriminate).
  cbn [legit_stream ex_stream legit].
  split_and!; [done|intros _; split_and!; [done|done|done|]|done|intros _; split_and!; [done..|by apply Hlog; left]|done|done|intros _; split_and!; [done..|by apply Hlog; right]|done].
  split_and!; [intros h [= <-]; vm_compute; lia|intros s [= <-]; vm_compute; discriminate|done|done|].
  repeat (apply Forall_cons; split; [by apply from_utf8_ok_iff|]). constructor.
Qed.

Lemma ex_floor : ex_run.2 = Some 1%N.
Proof. vm_compute. reflexivity. Qed.
Definition check_wf (fs : Fs) : bool :=
  forallb (fun '(i, n) => (i <? fs_next fs) && (i_synced n <=? length (i_data n))) (map_to_list (fs_inodes fs)).
Lemma check_wf_ok fs : check_wf fs = true -> fs_wf fs.
Proof.
  unfold check_wf. rewrite forallb_forall. intros H i n Hi. specialize (H (i, n)). rewrite <- list_elem_of_In, elem_of_map_to_list in H.
  apply H, andb_prop in Hi as [H1 H2]. apply Nat.ltb_lt in H1. by apply Nat.leb_le in H2.
Qed.

Lemma ex_files_wf : fs_wf (w_fs ex_run.1.1).
Proof. apply check_wf_ok. vm_compute. reflexivity. Qed.

(** The second append is torn: the crash leaves the three bytes of it, or none. *)
Definition ex_left : Fs := calm (w_fs ex_run.1.1).

Lemma acknowledged_text_survives_witness :
  exists x, load_rid (G := GapBuffer) ex_rid (ex_world ex_left []) = (ex_world ex_left [], Some (Ok x)) /\ ld_text x = ex_T (ld_rev x) /\ (1 <= ld_rev x)%N.
Proof.
  pose proof (acknowledged_text_survives (G := GapBuffer) ex_rid ex_T ex_E gap_granted ex_history eq_refl ex_stream ex_killed ex_start ex_left (ex_world ex_left []) 1%N (ex_starts _) ex_legit) as H.
  change (follow ex_rid ex_stream ex_killed ex_start None) with ex_run in H. pose proof ex_floor as Hf. pose proof (calm_crash _ ex_files_wf) as Hc. fold ex_left in Hc.
  destruct ex_run as [[w pos] floor]. cbn in Hf, Hc. destruct (H Hf Hc (conj eq_refl eq_refl)) as (x & H1 & H2 & H3 & _). exact (ex_intro _ x (conj H1 (conj H2 H3))).
Defined.

Definition ex_flushed : World * Pos * option N := follow ex_rid (ex_stream ++ [Some (MFlush 0)]) (ex_world ex_empty []) ex_start None.
Lemma ex_flushed_wf : fs_wf (w_fs ex_flushed.1.1).
Proof. apply check_wf_ok. vm_compute. reflexivity. Qed.
Lemma ex_flushed_pos : ps_on ex_flushed.1.2 = true /\ ps_top ex_flushed.1.2 = 2%N.
Proof. split; vm_compute; reflexivity. Qed.
Definition ex_flushed_left : Fs := calm (w_fs ex_flushed.1.1).

Lemma flush_on_a_good_disk_witness :
  exists x, load_rid (G := GapBuffer) ex_rid (ex_world ex_flushed_left []) = (ex_world ex_flushed_left [], Some (Ok x)) /\ ld_text x = bs "x" /\ ld_rev x = 2%N.
Proof.
  assert (~ failing ex_rid (ex_world ex_empty [])) as Hn by (unfold failing; cbn; intros H; by apply not_elem_of_empty in H).
  pose proof (flush_on_a_good_disk (G := GapBuffer) ex_rid ex_T ex_E gap_granted ex_history eq_refl ex_stream (ex_world ex_empty []) ex_start 0 (ex_starts _) ex_legit eq_refl Hn) as H.
  change (follow ex_rid (ex_stream ++ [Some (MFlush 0)]) (ex_world ex_empty []) ex_start None) with ex_flushed in H.
  pose proof ex_flushed_pos as Hp. pose proof (calm_crash _ ex_flushed_wf) as Hc. fold ex_flushed_left in Hc.
  destruct ex_flushed as [[w pos] floor]. cbn in Hp, Hc. destruct Hp as [Hp1 Hp2], H as [_ H]. destruct (H Hp1) as [_ H'].
  destruct (H' _ (ex_world ex_flushed_left []) Hc (conj eq_refl eq_refl)) as (x & H1 & H2 & H3). rewrite Hp2 in H2, H3. exact (ex_intro _ x (conj H1 (conj H2 H3))).
Defined.

(** The restore of those files, killed in its switch. *)
Definition ex_loaded : LoadedRid :=
  match (load_rid (G := GapBuffer) ex_rid (ex_world ex_left [])).2 with Some (Ok l) => l | _ => mkLoadedRid [] ex_meta [] 0 0 0 end.
Definition ex_caps : RestoreCaps := mkRestoreCaps 2 1000.
Definition ex_restart : World := ex_world ex_left (replicate 12 Good ++ [Killed 0]).

Lemma ex_at_rest : at_rest ex_left.
Proof. apply (crash_at_rest (w_fs ex_run.1.1)); [exact ex_files_wf|exact (calm_crash _ ex_files_wf)]. Qed.
Lemma ex_loads : load_rid (G := GapBuffer) ex_rid (ex_world ex_left []) = (ex_world ex_left [], Some (Ok ex_loaded)).
Proof. vm_compute. reflexivity. Qed.

(** Garbage where the meta should be: the load ends with an error. *)
Definition ex_garbage : Fs := mkFs {[ 0 := mkInode (bs "not json") 8 false ]} 1 {[ meta_name ex_rid := 0 ]} [].

Lemma load_never_panics_witness :
  (load_rid (G := GapBuffer) ex_rid (ex_world ex_garbage [])).2 = Some (Err MetaUnparsable) /\
  w_fs (load_rid (G := GapBuffer) ex_rid (ex_world ex_garbage [])).1 = ex_garbage.
Proof.
  split; [vm_compute; reflexivity|]. pose proof (load_never_panics (G := GapBuffer) ex_rid (ex_world ex_garbage [])) as H.
  destruct (load_rid ex_rid (ex_world ex_garbage [])) as [w r]. exact (proj1 H).
Defined.

Lemma ex_loaded_is : ld_meta ex_loaded = put_generation 1 ex_meta /\ ld_text ex_loaded = bs "x".
Proof. split; vm_compute; reflexivity. Qed.

Lemma ex_meta_fits n path opened_as : n <= max_buffers ex_caps ->
  (path, opened_as) = (mt_path (ld_meta ex_loaded), mt_opened_as (ld_meta ex_loaded)) \/ (path, opened_as) = (None, None) ->
  switch_fits ex_rid (mt_generation (ld_meta ex_loaded) + 1) 0 (ld_text ex_loaded)
    (restored_meta (bs "e2") n path opened_as (base_of (ld_text ex_loaded) (ld_meta ex_loaded) path) ex_rid (ld_meta ex_loaded)).
Proof.
  destruct ex_loaded_is as [-> ->]. intros Hn Hp. assert ((path, opened_as) = (None, None)) as [= -> ->] by (destruct Hp as [->| ->]; reflexivity). clear Hp.
  cbn in Hn. destruct n as [|[|[|n]]]; [..|lia];
    (split_and!; [intros h [= <-]; vm_compute; lia|intros x [= <-]; vm_compute; discriminate|reflexivity|reflexivity|];
     repeat (apply Forall_cons; split; [by apply from_utf8_ok_iff|]); constructor).
Qed.

Lemma ex_restart_wf : fs_wf (w_fs (restore (G := GapBuffer) (bs "e2") ex_caps ex_restart).1).
Proof. apply check_wf_ok. vm_compute. reflexivity. Qed.
Definition ex_left_again : Fs := calm (w_fs (restore (G := GapBuffer) (bs "e2") ex_caps ex_restart).1).

Lemma restore_keeps_text_witness :
  exists y, load_rid (G := GapBuffer) ex_rid (ex_world ex_left_again []) = (ex_world ex_left_again [], Some (Ok y)) /\ ld_text y = bs "x".
Proof.
  destruct (restore_keeps_text (G := GapBuffer) ex_rid (bs "e2") ex_caps ex_left (ex_world ex_left []) ex_loaded ex_restart ex_left_again (ex_world ex_left_again []))
    as [(y & Hy & Ht)|(p & st & c & Hp & _)].
  - exact gap_granted.
  - reflexivity.
  - exact ex_at_rest.
  - exact (conj eq_refl eq_refl).
  - exact ex_loads.
  - destruct ex_loaded_is as [-> _]. vm_compute. discriminate.
  - exact ex_meta_fits.
  - reflexivity.
  - reflexivity.
  - intros [n Hn]. cbn in Hn. repeat (apply elem_of_cons in Hn as [Hn|Hn]; [discriminate|]). by apply not_elem_of_nil in Hn.
  - exact (calm_crash _ ex_restart_wf).
  - exact (conj eq_refl eq_refl).
  - rewrite (proj2 ex_loaded_is) in Ht. exact (ex_intro _ y (conj Hy Ht)).
  - rewrite (proj1 ex_loaded_is) in Hp. discriminate.
Defined.
End Example.
