(* ===== verification/RecoveryHooks.v ===== *)
(** * The editor daemon's recovery files: what the actor sends, and what a flush promises

    Every run of a buffer's actor, whatever the writer, the other actors and the budgets do in
    between, sends the messages of its rid in order, and forgets nothing: after each of its steps
    the messages cover the buffer, or a switch is outstanding, or it waits after a failure.  With
    the writer of [RecoveryClaims.v] this makes a flush keep what the editor shows. *)

From S2P Require Import Prelude Utf8 EditBase GapBuffer Memory Text Buffer Str BTree RecoveryFs Recovery RecoveryLoad RecoveryActor.
From S2P Require Import RecoveryDisk RecoveryReplay RecoveryInv RecoveryOwn RecoveryRun RecoveryJson RecoveryClaims.

Section hooks.
Context {ENV : RecoveryEnv} (rid : bytes) (T : N -> bytes) (E : N -> list Edit).

(** ** Messages in order *)

(** The next message of the rid: generations grow, a switch carries the text of its revision, an append is the
    next revision in the current generation. *)
Definition in_order (pos : Pos) (m : RecoveryMsg) : Prop :=
  match m with
  | MSwitch r g R t _ => r = rid /\ (ps_gen pos < g)%N /\ (ps_top pos <= R)%N /\ t = T R
  | MAppend r g v es => r = rid /\ ps_on pos = true /\ g = ps_gen pos /\ v = (ps_top pos + 1)%N /\ es = E v
  | MDiscard r => r = rid
  | MFlush _ => True
  end.

Definition advance (pos : Pos) (m : RecoveryMsg) : Pos := next_pos rid pos (Some m).
Definition advanced (pos : Pos) (l : list RecoveryMsg) : Pos := foldl advance pos l.

Fixpoint ordered (pos : Pos) (l : list RecoveryMsg) : Prop :=
  match l with [] => True | m :: l => in_order pos m /\ ordered (advance pos m) l end.

Lemma ordered_app l1 : forall pos l2, ordered pos (l1 ++ l2) <-> ordered pos l1 /\ ordered (advanced pos l1) l2.
Proof. induction l1 as [|m l1 IH]; intros pos l2; cbn; [tauto|]. rewrite IH. tauto. Qed.

Lemma ordered_snoc pos l m : ordered pos l -> in_order (advanced pos l) m -> ordered pos (l ++ [m]).
Proof. intros H1 H2. apply ordered_app. by split. Qed.

Lemma advanced_snoc pos l m : advanced pos (l ++ [m]) = advance (advanced pos l) m.
Proof. unfold advanced. by rewrite foldl_app. Qed.

(** ** The invariant of an actor *)

Section actor.
Context (k : N) (prior : list RecoveryMsg).

Definition origin : Pos := mkPos false k 0 0.
Definition at_ (sent : list RecoveryMsg) : Pos := advanced origin (prior ++ sent).

(** The messages sent cover the buffer up to revision [c], unless a switch is wanted. *)
Record keeps (c : N) (r : ActorRec) (sent : list RecoveryMsg) (alive : bool) : Prop := mkKeeps {
  kp_rid : ar_rid r = rid;
  kp_order : ordered origin (prior ++ sent);
  kp_gen : (ps_gen (at_ sent) <= st_generation (ar_st r))%N;
  kp_top : (ps_top (at_ sent) <= c)%N;
  kp_held : ar_held r = true -> st_needs_switch (ar_st r) = true;
  kp_off : alive = true -> ps_on (at_ sent) = true -> ar_active r = true;
  kp_cover : alive = true -> ar_active r = true -> st_needs_switch (ar_st r) = false ->
    ps_on (at_ sent) = true /\ ps_gen (at_ sent) = st_generation (ar_st r) /\ ps_top (at_ sent) = c }.

(** What [keeps] reads of the recovery state. *)
Definition same_rec (r r' : ActorRec) : Prop :=
  ar_rid r' = ar_rid r /\ st_generation (ar_st r') = st_generation (ar_st r) /\
  st_needs_switch (ar_st r') = st_needs_switch (ar_st r) /\ ar_active r' = ar_active r /\ ar_held r' = ar_held r.

Lemma same_rec_refl r : same_rec r r.
Proof. done. Qed.

Lemma keeps_same c r r' sent alive : same_rec r r' -> keeps c r sent alive -> keeps c r' sent alive.
Proof. intros (E1 & E2 & E3 & E4 & E5) []. split; rewrite ?E1, ?E2, ?E3, ?E4, ?E5; done. Qed.

(** A switch becomes wanted. *)
Lemma keeps_wants c c' r r' sent alive : keeps c r sent alive -> (c <= c')%N ->
  ar_rid r' = ar_rid r -> (st_generation (ar_st r) <= st_generation (ar_st r'))%N -> st_needs_switch (ar_st r') = true ->
  (ar_active r = true -> ar_active r' = true) -> keeps c' r' sent alive.
Proof.
  intros K Hc E1 E2 E3 E4. destruct K as [K1 K2 K3 K4 K5 K6 K7]. split; rewrite ?E1, ?E3; [done|done|lia|lia|done|auto|done].
Qed.

(** An inactive actor owes nothing. *)
Lemma keeps_inactive c c' r r' sent alive : keeps c r sent alive -> (c <= c')%N ->
  ar_rid r' = ar_rid r -> st_generation (ar_st r') = st_generation (ar_st r) -> ar_active r = false -> ar_active r' = false ->
  (ar_held r' = true -> st_needs_switch (ar_st r') = true) -> keeps c' r' sent alive.
Proof.
  intros K Hc E1 E2 E3 E4 E5. destruct K as [K1 K2 K3 K4 K5 K6 K7]. split; rewrite ?E1, ?E2, ?E4; [done|done|done|lia|done| |done].
  intros H1 H2. specialize (K6 H1 H2). congruence.
Qed.

(** The actor's text is the history's. *)
Definition on_history (a : Act) : Prop := ac_recovery_id (a_actor a) = rid /\ ac_text (a_actor a) = T (ac_rev (a_actor a)).

(** [a] with its recovery state at [c]. *)
Definition held_at (c : N) (a : Act) : Prop := exists r, a_rec a = Some r /\ keeps c r (a_sent a) (a_alive a).
Definition in_step (a : Act) : Prop := on_history a /\ held_at (ac_rev (a_actor a)) a.

(** [a'] differs from [a] only in what the recovery hooks own. *)
Definition hooked (a a' : Act) : Prop := a_actor a' = a_actor a /\ a_alive a' = a_alive a.

Lemma hooked_refl a : hooked a a.
Proof. done. Qed.
Lemma hooked_trans a b c : hooked a b -> hooked b c -> hooked a c.
Proof. intros [H1 H2] [H3 H4]. split; congruence. Qed.

(** ** Small steps *)

Lemma set_overflow_spec on r a : exists r', a_rec (set_overflow on r a) = Some r' /\ same_rec r r' /\
  st_outstanding_switch (ar_st r') = st_outstanding_switch (ar_st r) /\ hooked a (set_overflow on r a) /\ a_sent (set_overflow on r a) = a_sent a.
Proof. unfold set_overflow. destruct on; destruct (Bool.eqb _ _); eexists; repeat split. Qed.

Lemma reconcile_spec a : hooked a (reconcile a) /\ a_rec (reconcile a) = a_rec a /\ a_sent (reconcile a) = a_sent a /\ a_shared (reconcile a) = a_shared a.
Proof. unfold reconcile, lease_reconcile. destruct (_ <? _)%N; [done|]. destruct (_ <? _)%N; [|done]. by destruct (checked_reserve _ _ _). Qed.

Lemma lease_take_spec n a a' : lease_take n a = Some a' -> hooked a a' /\ a_rec a' = a_rec a /\ a_sent a' = a_sent a.
Proof. unfold lease_take. destruct (checked_reserve _ _ _); [|done]. by intros [= <-]. Qed.

Lemma send_flushes_spec l : forall a, hooked a (send_flushes l a) /\ a_rec (send_flushes l a) = a_rec a /\
  exists ms, a_sent (send_flushes l a) = a_sent a ++ ms /\ Forall (fun m => exists x, m = MFlush x) ms.
Proof.
  induction l as [|x l IH]; intros a; cbn [send_flushes].
  - split_and!; [done|done|]. exists []. by rewrite app_nil_r.
  - destruct (IH (send (MFlush x) a).2) as (H1 & H2 & ms & H3 & H4). unfold send in *. destruct (a_alive a); cbn in *.
    + split_and!; [done|done|]. exists (MFlush x :: ms). rewrite H3, <- app_assoc. split; [done|]. constructor; [by eexists|done].
    + split_and!; [done|done|]. by exists ms.
Qed.

Lemma keeps_flushes c r sent alive ms : Forall (fun m => exists x, m = MFlush x) ms -> keeps c r sent alive -> keeps c r (sent ++ ms) alive.
Proof.
  intros Hm. revert sent. induction Hm as [|m ms [x ->] _ IH]; intros sent K; [by rewrite app_nil_r|].
  change (MFlush x :: ms) with ([MFlush x] ++ ms). rewrite app_assoc. apply IH. assert (at_ (sent ++ [MFlush x]) = at_ sent) as Ea.
  { unfold at_. by rewrite app_assoc, advanced_snoc. }
  destruct K. split; rewrite ?Ea; try done. rewrite app_assoc. by apply ordered_snoc.
Qed.

(** ** A switch *)

Lemma keeps_switch c r sent alive R t m r' : keeps c r sent alive -> (c <= R)%N -> t = T R -> ar_active r = true ->
  ar_rid r' = rid -> st_generation (ar_st r') = (st_generation (ar_st r) + 1)%N -> ar_active r' = true -> ar_held r' = false ->
  keeps R r' (sent ++ [MSwitch rid (st_generation (ar_st r) + 1) R t m]) alive.
Proof.
  intros [] Hc Ht Ha E1 E2 E3 E4. assert (at_ (sent ++ [MSwitch rid (st_generation (ar_st r) + 1) R t m]) = mkPos true (st_generation (ar_st r) + 1) R R) as Ep.
  { unfold at_. rewrite app_assoc, advanced_snoc. cbn. by rewrite bool_decide_true. }
  split; rewrite ?Ep, ?E2, ?E4; cbn; try done.
  rewrite app_assoc. apply ordered_snoc; [done|]. unfold in_order. fold (at_ sent). split_and!; [done|lia|lia|done].
Qed.

Lemma issue_switch_spec m r a : let a' := issue_switch m r a in
  hooked a a' /\ exists r', a_rec a' = Some r' /\ ar_rid r' = ar_rid r /\ ar_active r' = ar_active r /\ st_generation (ar_st r') = mt_generation m /\
  if a_alive a then a_sent a' = a_sent a ++ [MSwitch (ar_rid r) (mt_generation m) (ac_rev (a_actor a)) (ac_text (a_actor a)) m] /\
                    st_needs_switch (ar_st r') = false /\ ar_held r' = false
  else a_sent a' = a_sent a /\ st_needs_switch (ar_st r') = true /\ ar_held r' = true.
Proof.
  unfold issue_switch. cbv zeta. set (a2 := if is_repair r (a_shared a) then _ else a).
  assert (a_actor a2 = a_actor a /\ a_alive a2 = a_alive a /\ a_sent a2 = a_sent a) as (C1 & C2 & C3) by (unfold a2; by destruct (is_repair _ _)).
  clearbody a2. set (r1 := put_held false _). set (r2 := if ar_overflow r1 then _ else r1). set (r3 := put_switch_text _ _).
  assert (ar_rid r3 = ar_rid r /\ ar_active r3 = ar_active r /\ st_generation (ar_st r3) = mt_generation m /\ st_needs_switch (ar_st r3) = false /\ ar_held r3 = false) as (D1 & D2 & D3 & D4 & D5).
  { unfold r3, r2, r1. by destruct (ar_overflow _). }
  clearbody r3. unfold send. cbn [a_alive put_rec]. rewrite C2. destruct (a_alive a) eqn:Eal.
  - split; [split; cbn; congruence|]. exists r3. cbn. rewrite D1, C1, C3. by split_and!.
  - split; [split; cbn; congruence|]. eexists. split; [reflexivity|]. cbn. by split_and!.
Qed.

Lemma rec_switch_spec a c r : on_history a -> a_rec a = Some r -> keeps c r (a_sent a) (a_alive a) -> (c <= ac_rev (a_actor a))%N -> ar_active r = true ->
  hooked a (rec_switch a) /\ exists r', a_rec (rec_switch a) = Some r' /\ keeps (ac_rev (a_actor a)) r' (a_sent (rec_switch a)) (a_alive a) /\
    ar_active r' = true /\ (ar_held r' = true \/ st_needs_switch (ar_st r') = false) /\
    exists ms, a_sent (rec_switch a) = a_sent a ++ ms /\ Forall (fun m => forall x, m <> MFlush x) ms.
Proof.
  intros [Hid Ht] Er K Hc Ha. unfold rec_switch. rewrite Er. unfold rec_meta. rewrite Er. cbn [mbind option_bind]. set (m := mkRecoveryMeta _ _ _ _ _ _ _ _ _ _ _ _).
  destruct (lease_take _ a) as [a1|] eqn:El.
  - apply lease_take_spec in El as ([A1 A2] & A3 & A4). destruct (reconcile_spec (issue_switch m r a1)) as (B1 & B2 & B3 & _).
    destruct (issue_switch_spec m r a1) as (H1 & r' & H2 & H3 & H4 & H5 & H). rewrite B2, B3. rewrite A1, A2, A4 in H.
    split; [eapply hooked_trans; [|exact B1]; eapply hooked_trans; [|exact H1]; by split|]. exists r'. split; [done|]. rewrite Ha in H4.
    destruct (a_alive a) eqn:Eal; destruct H as (-> & X1 & X2).
    + split_and!; [|done|by right|].
      * rewrite (kp_rid _ _ _ _ K). eapply keeps_switch; [exact K|done|done|done|by rewrite H3; apply K|by rewrite H5|done|done].
      * eexists. split; [done|]. by constructor.
    + split_and!; [|done|by left|].
      * eapply keeps_wants; [exact K|done|done|rewrite H5; cbn; lia|done|by intros _].
      * exists []. by rewrite app_nil_r.
  - destruct (set_overflow_spec true (put_held true (put_needs_switch true r)) a) as (r' & H1 & H2 & _ & H4 & H5). split; [done|]. exists r'.
    rewrite H5. destruct H2 as (E1 & E2 & E3 & E4 & E5). cbn in *. split_and!; [done| |congruence|by left|].
    + eapply keeps_wants; [exact K|done|done|by rewrite E2|done|by rewrite E4].
    + exists []. by rewrite app_nil_r.
Qed.

(** ** The hooks *)

(** Messages were added, none of them a flush. *)
Definition grown (a a' : Act) : Prop := exists ms, a_sent a' = a_sent a ++ ms /\ Forall (fun m => forall x, m <> MFlush x) ms.

Lemma grown_refl a a' : a_sent a' = a_sent a -> grown a a'.
Proof. intros Es. unfold grown. rewrite Es. exists []. by rewrite app_nil_r. Qed.

Lemma grown_trans a b c : grown a b -> grown b c -> grown a c.
Proof.
  intros (m1 & E1 & F1) (m2 & E2 & F2). exists (m1 ++ m2). rewrite E2, E1, app_assoc. split; [done|]. by apply Forall_app.
Qed.

(** What a hook of an active actor leaves: it covers the buffer. *)
Definition covers (a a' : Act) : Prop :=
  hooked a a' /\ grown a a' /\ exists r', a_rec a' = Some r' /\ keeps (ac_rev (a_actor a)) r' (a_sent a') (a_alive a) /\ ar_active r' = true.

Lemma rec_request_switch_spec a r : on_history a -> a_rec a = Some r -> keeps (ac_rev (a_actor a)) (put_needs_switch true r) (a_sent a) (a_alive a) -> ar_active r = true ->
  covers a (rec_request_switch a).
Proof.
  intros Ho Er K1 Ha. unfold rec_request_switch. rewrite Er. set (r1 := put_needs_switch true r) in *.
  destruct (no_outstanding r).
  - destruct (rec_switch_spec (put_rec r1 a) _ r1 Ho eq_refl K1 (N.le_refl _) Ha) as (H1 & r' & H2 & H3 & H4 & _ & H5). split_and!; [done|done|]. by exists r'.
  - split_and!; [done|by apply grown_refl|]. by exists r1.
Qed.

Lemma rec_record_spec a c r : on_history a -> a_rec a = Some r -> keeps c r (a_sent a) (a_alive a) -> ac_rev (a_actor a) = (c + 1)%N ->
  hooked a (rec_record (ac_rev (a_actor a)) (E (ac_rev (a_actor a))) a) /\ held_at (ac_rev (a_actor a)) (rec_record (ac_rev (a_actor a)) (E (ac_rev (a_actor a))) a).
Proof.
  intros Ho Er K Hc. unfold rec_record. rewrite Er. destruct (ar_active r) eqn:Ha; cbn [negb].
  2:{ split; [done|]. exists r. split; [done|]. eapply keeps_inactive; [exact K|lia|done..|apply K]. }
  destruct (st_needs_switch (ar_st r) || ar_held r) eqn:Hn.
  - assert (st_needs_switch (ar_st r) = true) as Hn' by (apply orb_prop in Hn as [?|?]; [done|by apply (kp_held _ _ _ _ K)]). destruct (no_outstanding r).
    + destruct (rec_switch_spec a c r Ho Er K ltac:(lia) Ha) as (H1 & r' & H2 & H3 & H4). split; [done|]. exists r'. split; [done|]. by rewrite (proj2 H1).
    + split; [done|]. exists r. split; [done|]. eapply keeps_wants; [exact K|lia|done|done|done|done].
  - apply orb_false_elim in Hn as [Hn Hh]. destruct (try_reserve _ (a_shared a)) as [s|].
    + unfold send. cbn [a_alive put_shared]. destruct (a_alive a) eqn:Eal.
      * split; [by split|]. exists r. cbn. split; [done|]. rewrite Eal. rewrite Hc. rewrite (kp_rid _ _ _ _ K).
        destruct (kp_cover _ _ _ _ K eq_refl Ha Hn) as (P1 & P2 & P3).
        assert (at_ (a_sent a ++ [MAppend rid (st_generation (ar_st r)) (c + 1) (E (c + 1))]) = mkPos true (ps_gen (at_ (a_sent a))) (ps_snap (at_ (a_sent a))) (c + 1)) as Ep.
        { unfold at_. rewrite app_assoc, advanced_snoc. cbn. by rewrite bool_decide_true. }
        destruct K as [K1 K2 K3 K4 K5 K6 K7]. split; rewrite ?Ep; cbn; try done. rewrite app_assoc. apply ordered_snoc; [done|]. fold (at_ (a_sent a)). cbn. by rewrite P2, P3.
      * split; [by split|]. exists r. cbn. split; [done|]. rewrite Eal. destruct K as [K1 K2 K3 K4 K5 K6 K7]. split; try done. lia.
    + destruct (set_overflow_spec true r a) as (r' & H1 & H2 & _ & H4 & H5). pose proof H2 as (_ & _ & _ & E4 & _). rewrite <- (proj1 H4) in *.
      destruct (rec_request_switch_spec (set_overflow true r a) r') as (G1 & _ & r2 & G2 & G3 & _); [by unfold on_history; rewrite (proj1 H4)|done| |congruence|].
      { rewrite H5, (proj1 H4), (proj2 H4). destruct H2 as (E1 & E2 & _). eapply keeps_wants; [exact K|rewrite (proj1 H4) in Hc; lia|done|cbn; by rewrite E2|done|]. cbn. by rewrite E4. }
      split; [by eapply hooked_trans|]. exists r2. split; [done|]. by rewrite (proj2 G1).
Qed.

Lemma rec_discard_spec a c r : on_history a -> a_rec a = Some r -> keeps c r (a_sent a) (a_alive a) ->
  let a' := rec_discard a in
  on_history a' /\ a_alive a' = a_alive a /\ ac_rev (a_actor a') = ac_rev (a_actor a) /\
  exists r', a_rec a' = Some r' /\ keeps c r' (a_sent a') (a_alive a').
Proof.
  intros Ho Er K. unfold rec_discard. cbn [a_rec put_actor]. rewrite Er. cbv zeta. set (a1 := put_actor _ a).
  set (a2 := if ar_active r then (send (MDiscard (ar_rid r)) a1).2 else a1). set (r1 := put_written None _).
  destruct (set_overflow_spec false r1 a2) as (r' & H1 & H2 & _ & H4 & H5).
  assert (a_actor a2 = a_actor a1 /\ a_alive a2 = a_alive a) as [A1 A2] by (unfold a2, send; destruct (ar_active r); [destruct (a_alive a1) eqn:Ea|]; by repeat split).
  split_and!; [unfold on_history; rewrite (proj1 H4), A1; exact Ho|by rewrite (proj2 H4)|by rewrite (proj1 H4), A1|]. exists r'. split; [done|].
  rewrite H5, (proj2 H4), A2. eapply keeps_same; [exact H2|]. unfold a2, send. destruct (ar_active r) eqn:Ha.
  - cbn [a_alive a1 put_actor]. destruct (a_alive a) eqn:Eal.
    + cbn [a_sent put_sent snd a1 put_actor]. assert (at_ (a_sent a ++ [MDiscard (ar_rid r)]) = mkPos false (ps_gen (at_ (a_sent a))) (ps_snap (at_ (a_sent a))) (ps_top (at_ (a_sent a)))) as Ep.
      { unfold at_. rewrite app_assoc, advanced_snoc. cbn. rewrite (kp_rid _ _ _ _ K). by rewrite bool_decide_true. }
      destruct K as [K1 K2 K3 K4 K5 K6 K7]. split; rewrite ?Ep; cbn; try done. rewrite app_assoc. apply ordered_snoc; [done|]. done.
    + destruct K as [K1 K2 K3 K4 K5 K6 K7]. split; cbn; done.
  - eapply keeps_inactive; [exact K|done|done|done|done|done|done].
Qed.

(** ** After a step *)

(** A part of a hook that sends nothing and keeps the books. *)
Definition quietly (a a' : Act) : Prop :=
  hooked a a' /\ a_sent a' = a_sent a /\
  forall c r, a_rec a = Some r -> keeps c r (a_sent a) (a_alive a) ->
  exists r', a_rec a' = Some r' /\ keeps c r' (a_sent a) (a_alive a) /\ ar_active r' = ar_active r.

Lemma quietly_refl a : quietly a a.
Proof. split_and!; [done|done|]. intros c r Er K. by exists r. Qed.

Lemma quietly_trans a1 a2 a3 : quietly a1 a2 -> quietly a2 a3 -> quietly a1 a3.
Proof.
  intros (H1 & S1 & P1) (H2 & S2 & P2). split_and!; [by eapply hooked_trans|congruence|]. intros c r Er K.
  destruct (P1 c r Er K) as (r1 & E1 & K1 & A1). rewrite <- S1, <- (proj2 H1) in K1. destruct (P2 c r1 E1 K1) as (r2 & E2 & K2 & A2).
  exists r2. rewrite S1, (proj2 H1) in K2. split_and!; [done|done|congruence].
Qed.

Lemma switch_answered_spec a r : a_rec a = Some r -> quietly a (switch_answered a r).1.
Proof.
  intros Er. unfold switch_answered. destruct (st_outstanding_switch (ar_st r)) as [g|]; [|apply quietly_refl].
  destruct (g <=? lk_switch_done _)%N; [|destruct (g <=? lk_failed _)%N; [|apply quietly_refl]]; cbn [fst].
  - set (r1 := put_switch_text None (put_outstanding None r)). assert (same_rec r r1) as Sr by done.
    assert (forall r2, same_rec r1 r2 -> quietly a (put_rec r2 a)) as Hput.
    { intros r2 S2. split_and!; [done|done|]. intros c x Ex K. rewrite Er in Ex. injection Ex as <-. exists r2. split_and!; [done| |by apply S2].
      eapply keeps_same; [|exact K]. destruct Sr as (?&?&?&?&?), S2 as (?&?&?&?&?). repeat split; congruence. }
    destruct (ar_repair_gen r1) as [x|]; [|by apply Hput]. destruct (x <=? g)%N; [|by apply Hput].
    destruct (set_overflow_spec false (put_repair_gen None r1) a) as (r2 & H1 & H2 & _ & H4 & H5). split_and!; [done|done|]. intros c y Ey K. rewrite Er in Ey. injection Ey as <-.
    exists r2. split_and!; [done| |by apply H2]. eapply keeps_same; [|exact K]. done.
  - split_and!; [done|done|]. intros c x Ex K. rewrite Er in Ex. injection Ex as <-. eexists. split_and!; [reflexivity| |done].
    by eapply keeps_wants; [exact K|..].
Qed.

Lemma settle_request_spec asked a : quietly a (settle_request asked a).
Proof.
  unfold settle_request. destruct (a_rec a) as [r|] eqn:Er; [|apply quietly_refl]. destruct (ar_active r) eqn:Ha; cbn [negb].
  - destruct asked; [|apply quietly_refl]. split_and!; [done|done|]. intros c x Ex K. rewrite Er in Ex. injection Ex as <-. eexists. split_and!; [reflexivity| |done].
    by eapply keeps_wants; [exact K|..].
  - destruct (set_overflow_spec false (put_held false (put_needs_switch false r)) a) as (r2 & H1 & H2 & _ & H4 & H5). split_and!; [done|done|]. intros c x Ex K.
    rewrite Er in Ex. injection Ex as <-. exists r2. destruct H2 as (E1 & E2 & E3 & E4 & E5). cbn in *. split_and!; [done| |congruence].
    eapply keeps_inactive; [exact K|done|done|done|done|congruence|]. by rewrite E5.
Qed.

Lemma reconcile_quietly a : quietly a (reconcile a).
Proof. destruct (reconcile_spec a) as (H1 & H2 & H3 & _). split_and!; [done|done|]. intros c r Er K. exists r. by rewrite H2. Qed.

Lemma put_shared_quietly s a : quietly a (put_shared s a).
Proof. split_and!; [done|done|]. intros c r Er K. by exists r. Qed.

Lemma place_flushes_spec a : hooked a (place_flushes a) /\ a_rec (place_flushes a) = a_rec a /\
  exists fl, a_sent (place_flushes a) = a_sent a ++ fl /\ Forall (fun m => exists x, m = MFlush x) fl /\
    (fl <> [] -> forall r, a_rec a = Some r -> no_outstanding r = true /\ (st_needs_switch (ar_st r) = false \/ ar_held r = true)).
Proof.
  unfold place_flushes. destruct (a_rec a) as [r|] eqn:Er.
  2:{ split_and!; [done|done|]. exists []. rewrite app_nil_r. split_and!; [done|by constructor|done]. }
  destruct (no_outstanding r && _) eqn:Hc.
  - apply andb_prop in Hc as [H1 H2]. destruct (send_flushes_spec (lk_flushes (link_of (ar_rid r) (a_shared a))) (put_shared (on_link (ar_rid r) no_flushes (a_shared a)) a)) as (G1 & G2 & fl & G3 & G4).
    split_and!; [done|by rewrite G2|]. exists fl. split_and!; [done|done|]. intros _ r' [= <-]. split; [done|]. apply orb_prop in H2 as [H2|H2]; [left; by apply negb_true_iff|by right].
  - split_and!; [done|done|]. exists []. rewrite app_nil_r. split_and!; [done|by constructor|done].
Qed.

(** Between two steps the actor waits for a switch, or covers the buffer, or waits for the next edit after a failure; and it
    places flushes only in the last two. *)
Definition settled_with (a a' : Act) (r : ActorRec) : Prop :=
  (ar_active r = true -> st_needs_switch (ar_st r) = true -> ar_held r = true \/ no_outstanding r = false) /\
  exists ms fl, a_sent a' = a_sent a ++ ms ++ fl /\ Forall (fun m => forall x, m <> MFlush x) ms /\ Forall (fun m => exists x, m = MFlush x) fl /\
    (fl <> [] -> no_outstanding r = true /\ (st_needs_switch (ar_st r) = false \/ ar_held r = true)).

Lemma rec_wake_spec a r : on_history a -> a_rec a = Some r -> keeps (ac_rev (a_actor a)) r (a_sent a) (a_alive a) ->
  hooked a (rec_wake a) /\ exists r', a_rec (rec_wake a) = Some r' /\ keeps (ac_rev (a_actor a)) r' (a_sent (rec_wake a)) (a_alive a) /\
    ar_active r' = ar_active r /\ settled_with a (rec_wake a) r'.
Proof.
  intros Ho Er K. unfold rec_wake. rewrite Er. set (asked := lk_needs_switch _). set (a0 := put_shared _ a).
  destruct (switch_answered a0 r) as [a1 released] eqn:Ea1. pose proof (switch_answered_spec a0 r Er) as Q1. rewrite Ea1 in Q1. cbn [fst] in Q1.
  set (a2 := settle_request asked a1). set (a3 := if released then reconcile a2 else a2).
  assert (quietly a a3) as Q.
  { eapply quietly_trans; [apply (put_shared_quietly (on_link (ar_rid r) take_request (a_shared a)))|]. eapply quietly_trans; [exact Q1|].
    eapply quietly_trans; [apply settle_request_spec|]. unfold a3. destruct released; [apply reconcile_quietly|apply quietly_refl]. }
  assert (wants_switch a2 = wants_switch a3) as -> by (unfold a3; destruct released; [unfold wants_switch; by rewrite (proj1 (proj2 (reconcile_spec a2)))|done]).
  clearbody a3. clear Q1 Ea1 a2 asked a0 a1. destruct Q as (H1 & H2 & H3). destruct (H3 _ _ Er K) as (r1 & E1 & K1 & A1).
  set (a4 := if wants_switch a3 then rec_switch a3 else a3).
  assert (exists r2, hooked a a4 /\ a_rec a4 = Some r2 /\ keeps (ac_rev (a_actor a)) r2 (a_sent a4) (a_alive a) /\ ar_active r2 = ar_active r /\ grown a a4 /\
            (ar_active r2 = true -> st_needs_switch (ar_st r2) = true -> ar_held r2 = true \/ no_outstanding r2 = false)) as (r2 & B1 & B2 & B3 & B4 & B5 & B6).
  { unfold a4, wants_switch. rewrite E1. destruct (_ && _) eqn:Ew.
    - do 3 apply andb_prop in Ew as [Ew ?]. assert (on_history a3) as Ho3 by (unfold on_history; by rewrite (proj1 H1)).
      destruct (rec_switch_spec a3 (ac_rev (a_actor a)) r1 Ho3 E1) as (G1 & r2 & G2 & G3 & G4 & G5 & G6); [by rewrite H2, (proj2 H1)|by rewrite (proj1 H1)|done|].
      exists r2. rewrite (proj1 H1), (proj2 H1) in G3. split_and!; [by eapply hooked_trans|done|done|congruence| |].
      + eapply grown_trans; [by apply grown_refl|exact G6].
      + intros _ Hn. destruct G5 as [?|?]; [by left|congruence].
    - exists r1. rewrite H2. split_and!; [done|done|done|done|by apply grown_refl|]. intros Ha Hn. rewrite Ha, Hn in Ew. cbn in Ew.
      destruct (ar_held r1); [by left|]. cbn in Ew. by right. }
  clearbody a4. destruct (place_flushes_spec a4) as (C1 & C2 & fl & C3 & C4 & C5). destruct B5 as (ms & B5 & B7).
  split; [by eapply hooked_trans|]. exists r2. split_and!; [by rewrite C2|rewrite C3; by apply keeps_flushes|done|split; [exact B6|]].
  exists ms, fl. rewrite C3, B5, app_assoc. split_and!; [done|done|done|]. intros Hf. by apply C5.
Qed.

Lemma rec_settle_spec a : in_step a ->
  hooked a (rec_settle a) /\ in_step (rec_settle a) /\ grown a (rec_settle a) /\
  forall r, a_rec (rec_settle a) = Some r -> dirty (a_actor a) = true -> ar_active r = true.
Proof.
  intros [Ho (r & Er & K)]. unfold rec_settle. rewrite Er.
  assert (forall a', covers a a' -> hooked a a' /\ in_step a' /\ grown a a' /\ forall r, a_rec a' = Some r -> dirty (a_actor a) = true -> ar_active r = true) as Hcov.
  { intros a' (H1 & H2 & r' & H3 & H4 & H5). split_and!; [done| |done|].
    - split; [unfold on_history; by rewrite (proj1 H1)|]. exists r'. by rewrite (proj1 H1), (proj2 H1).
    - intros x Hx _. rewrite H3 in Hx. by injection Hx as <-. }
  destruct (ar_active r) eqn:Ha; cbn [negb].
  - destruct (negb _ && _).
    + apply Hcov. apply (rec_request_switch_spec a r Ho Er); [|done]. by eapply keeps_wants; [exact K|..].
    + split_and!; [done|split; [done|by exists r]|by apply grown_refl|]. intros x Hx _. rewrite Er in Hx. by injection Hx as <-.
  - destruct (dirty (a_actor a)) eqn:Hd.
    + apply Hcov. apply (rec_request_switch_spec (put_rec (put_active true r) a) (put_active true r) Ho eq_refl); [|done]. by eapply keeps_wants; [exact K|..].
    + split_and!; [done|split; [done|by exists r]|by apply grown_refl|]. done.
Qed.

(** ** Runs *)

(** The buffer's next revision. *)
Definition applied (a : Act) (x : Actor) : Prop :=
  ac_recovery_id x = ac_recovery_id (a_actor a) /\ ac_rev x = (ac_rev (a_actor a) + 1)%N /\ ac_text x = T (ac_rev x).
(** Its path, base, language, flags: everything but the text. *)
Definition same_text (a : Act) (x : Actor) : Prop :=
  ac_recovery_id x = ac_recovery_id (a_actor a) /\ ac_rev x = ac_rev (a_actor a) /\ ac_text x = ac_text (a_actor a).

Definition writer_gone (a : Act) : Act := mkAct (a_actor a) (a_rec a) (a_lease a) (a_budget a) (a_shared a) false (a_sent a).

(** A piece of the actor's loop, or what others do to what it shares. *)
Inductive act_step (a : Act) : Act -> Prop :=
| step_edit x : applied a x -> act_step a (rec_record (ac_rev x) (E (ac_rev x)) (put_actor x a))
| step_reload x : applied a x -> act_step a (rec_record (ac_rev x) (E (ac_rev x)) (rec_discard (put_actor x a)))
| step_other x : same_text a x -> act_step a (put_actor x a)
| step_discard : act_step a (rec_discard a)
| step_end : act_step a (rec_wake (rec_settle a))
| step_drop : act_step a (drop_rec a)
| step_shared s lease budget : act_step a (put_shared s (put_bytes lease budget a))
| step_gone : act_step a (writer_gone a).

(** The actor of a new buffer, or of a restored one whose files the restore has switched to a new generation or
    discarded; [prior] is what the restore had the writer do. *)
Definition begins (a : Act) : Prop :=
  exists restored now a0, a = init_rec restored now a0 /\ a_sent a0 = [] /\ ac_recovery_id (a_actor a0) = rid /\ ac_rev (a_actor a0) = 0%N /\
    ac_text (a_actor a0) = T 0 /\
    match restored with
    | None => prior = [] /\ k = 0%N
    | Some b => if rb_clean b then prior = [MDiscard rid] /\ (k <= rb_generation b)%N
                else exists m, prior = [MSwitch rid (rb_generation b) 0 (T 0) m] /\ (k < rb_generation b)%N
    end.

Lemma begins_in_step a : begins a -> in_step a.
Proof.
  intros (restored & now & a0 & -> & Hs & Hid & Hrev & Ht & Hp). unfold init_rec.
  assert (forall r a1, a_rec a1 = Some r -> a_actor a1 = a_actor a0 -> a_sent a1 = [] -> keeps 0 r [] (a_alive a1) -> in_step a1) as Hstep.
  { intros r a1 Er Ea Es K. split; [unfold on_history; by rewrite Ea, Hid, Hrev, Ht|]. exists r. by rewrite Ea, Hrev, Es. }
  destruct restored as [b|].
  - destruct (rb_clean b); cbn [negb].
    + destruct Hp as [Hp Hk]. eapply Hstep; [done|done|done|]. split; cbn; unfold at_; rewrite ?Hp; cbn; rewrite ?bool_decide_true by done; try done; lia.
    + destruct Hp as (m & Hp & Hk). eapply Hstep; [done|done|done|]. split; cbn; unfold at_; rewrite ?Hp; cbn; rewrite ?bool_decide_true by done; try done; lia.
  - destruct Hp as [Hp Hk]. eapply Hstep; [done|done|done|]. split; cbn; unfold at_; rewrite ?Hp; cbn; try done; lia.
Qed.

Lemma act_step_keeps a a' : act_step a a' -> in_step a -> in_step a'.
Proof.
  intros S [Ho (r & Er & K)]. destruct S as [x [X1 [X2 X3]]|x [X1 [X2 X3]]|x [X1 [X2 X3]]| | | |s lease budget|].
  - assert (on_history (put_actor x a)) as Ho' by (split; cbn; [rewrite X1; apply Ho|done]).
    destruct (rec_record_spec (put_actor x a) _ r Ho' Er K X2) as [H1 H2]. cbn in *. split; [unfold on_history; by rewrite (proj1 H1)|by rewrite (proj1 H1)].
  - assert (on_history (put_actor x a)) as Ho' by (split; cbn; [rewrite X1; apply Ho|done]).
    destruct (rec_discard_spec (put_actor x a) _ r Ho' Er K) as (D1 & D2 & D3 & r1 & D4 & D5). cbn in D3.
    destruct (rec_record_spec _ _ r1 D1 D4 D5) as [H1 H2]; [by rewrite D3|]. rewrite D3 in *. split; [unfold on_history; by rewrite (proj1 H1)|by rewrite (proj1 H1), D3].
  - split; [unfold on_history; cbn; rewrite X1, X2, X3; apply Ho|]. exists r. cbn. by rewrite X2.
  - destruct (rec_discard_spec a _ r Ho Er K) as (D1 & D2 & D3 & r1 & D4 & D5). split; [done|]. exists r1. by rewrite D3.
  - destruct (rec_settle_spec a) as (S1 & [S2 (r1 & S3 & S4)] & _); [split; [done|by exists r]|].
    destruct (rec_wake_spec _ r1 S2 S3 S4) as (W1 & r2 & W2 & W3 & _). split; [unfold on_history; by rewrite (proj1 W1)|]. exists r2. by rewrite (proj1 W1), (proj2 W1).
  - unfold drop_rec. rewrite Er. destruct (set_overflow_spec false r a) as (r1 & H1 & H2 & _ & H4 & H5). set (a1 := set_overflow false r a) in *.
    destruct (send_flushes_spec (lk_flushes (link_of (ar_rid r) (a_shared a1))) (put_shared (on_link (ar_rid r) no_flushes (a_shared a1)) a1)) as (G1 & G2 & ms & G3 & G4).
    destruct G1 as [G1 G1'], H4 as [H4 H4']. cbn in G1, G1', G2, G3. set (a2 := send_flushes _ _) in *. split; [unfold on_history; cbn; by rewrite G1, H4|]. exists r1. cbn.
    rewrite G2, G3, G1, G1', H5, H4, H4'. split; [done|]. apply keeps_flushes; [done|]. by eapply keeps_same.
  - split; [done|]. by exists r.
  - split; [done|]. exists r. split; [done|]. destruct K as [K1 K2 K3 K4 K5 K6 K7]. by split.
Qed.

Lemma run_in_step a0 a : begins a0 -> rtc act_step a0 a -> in_step a.
Proof. intros H%begins_in_step S. induction S as [|a b c S _ IH]; [done|]. by apply IH, (act_step_keeps a). Qed.

(** C33 The actor forgets nothing.  In every run of a buffer's actor, whatever the writer, the other actors and the
    budgets do in between, the messages of its rid are in order; and at the end of each step a dirty buffer has files,
    and, as long as the writer is there to receive ([a_alive]: once its thread is gone what is sent is dropped) and
    unless a switch is outstanding or waits after a failure, the messages cover its newest revision; flushes are
    placed behind them. *)
Theorem actor_keeps_up a0 a : begins a0 -> rtc act_step a0 a ->
  ordered origin (prior ++ a_sent a) /\
  let a' := rec_wake (rec_settle a) in
  exists r, a_rec a' = Some r /\ settled_with a a' r /\
    (dirty (a_actor a) = true -> ar_active r = true) /\
    (a_alive a = true -> ar_active r = true -> st_needs_switch (ar_st r) = false ->
      ps_on (at_ (a_sent a')) = true /\ ps_gen (at_ (a_sent a')) = st_generation (ar_st r) /\ ps_top (at_ (a_sent a')) = ac_rev (a_actor a)).
Proof.
  intros H S. pose proof (run_in_step a0 a H S) as I. split; [by destruct I as [_ (r & _ & K)]; apply K|].
  destruct (rec_settle_spec a I) as (S1 & [S2 (r1 & S3 & S4)] & (ms1 & S5 & S6) & S7).
  destruct (rec_wake_spec _ r1 S2 S3 S4) as (W1 & r2 & W2 & W3 & W4 & [W5 (ms & fl & W6 & W7 & W8 & W9)]).
  exists r2. split; [done|]. split_and!; [split; [done|]|intros Hd; rewrite W4; by apply S7|].
  - exists (ms1 ++ ms), fl. rewrite W6, S5, <- !app_assoc. split_and!; [done|by apply Forall_app|done|done].
  - rewrite (proj1 S1), (proj2 S1) in W3. intros Ha Hact Hn. rewrite Ha in W3. by apply (kp_cover _ _ _ _ W3).
Qed.
End actor.
End hooks.

(** ** The actor and the writer *)

Section composed.
Context {G : Type} {TS : TextStore G} {SL : TextStoreLaws G} {ENV : RecoveryEnv} {RL : RecoveryLaws} {HI : HashIter}.
Context (rid : bytes) (T : N -> bytes) (E : N -> list Edit).
Context (granted : memory_granted G re_reserve) (hist : history T E) (Hrid : is_rid rid = true).

(** A message about the rid's files. *)
Definition about (m : RecoveryMsg) : bool :=
  match m with MSwitch r _ _ _ _ | MAppend r _ _ _ | MDiscard r => bool_decide (r = rid) | MFlush _ => false end.
Definition file_msg (m : RecoveryMsg) : option RecoveryMsg := if about m then Some m else None.

(** The writer's queue holds the rid's messages in the order sent, among anything else: messages of other rids, flushes, the timer. *)
Definition carries (l : list (option RecoveryMsg)) (sent : list RecoveryMsg) : Prop :=
  omap (fun i => i ≫= file_msg) l = omap file_msg sent /\
  Forall (fun i => match i with Some (MSwitch r _ _ _ _) | Some (MAppend r _ _ _) | Some (MDiscard r) => is_rid r = true | _ => True end) l.

(** What is written fits the limits of a read. *)
Fixpoint fits (pos : Pos) (l : list (option RecoveryMsg)) : Prop :=
  match l with
  | [] => True
  | i :: l =>
    match i with
    | Some (MSwitch r g R t m) => r = rid -> switch_fits rid g R t m
    | Some (MAppend r g v _) => r = rid -> log_fits E g (ps_snap pos) v
    | _ => True
    end /\ fits (next_pos rid pos i) l
  end.

Lemma ordered_about sent : forall pos, ordered rid T E pos sent ->
  ordered rid T E pos (omap file_msg sent) /\ advanced rid pos (omap file_msg sent) = advanced rid pos sent.
Proof.
  induction sent as [|m sent IH]; intros pos; [done|]. cbn [ordered]. intros [H1 H2]. cbn [omap list_omap]. unfold file_msg, about.
  destruct m as [r g R t m|r g v es|r|x]; cbn in H1.
  1-3: rewrite bool_decide_true by apply H1; cbn [ordered advanced foldl]; destruct (IH _ H2) as [? ?]; by split_and!.
  destruct (IH pos H2) as [? ?]. by split.
Qed.

Lemma carries_legit l : forall pos own, ordered rid T E pos own -> omap (fun i => i ≫= file_msg) l = own ->
  Forall (fun i => match i with Some (MSwitch r _ _ _ _) | Some (MAppend r _ _ _) | Some (MDiscard r) => is_rid r = true | _ => True end) l ->
  fits pos l -> legit_stream rid T E pos l /\ positions rid pos l = advanced rid pos own.
Proof.
  induction l as [|i l IH]; intros pos own Ho El Hr Hf; [cbn in El; by subst own|]. inversion Hr as [|? ? Hr1 Hr2]; subst. destruct Hf as [Hf1 Hf2].
  cbn [legit_stream omap list_omap] in *. destruct (i ≫= file_msg) as [m|] eqn:Em.
  - destruct i as [m'|]; [|done]. cbn in Em. unfold file_msg in Em. destruct (about m') eqn:Ea; [|done]. injection Em as ->.
    destruct Ho as [Ho1 Ho2]. destruct (IH _ _ Ho2 eq_refl Hr2 Hf2) as [IH1 IH2]. split; [split; [|done]|done].
    destruct m as [r g R t m|r g v es|r|x]; cbn in *; [| |done|done]; (split; [done|]); intros ->.
    + destruct Ho1 as (_ & ? & ? & ?). split_and!; auto.
    + destruct Ho1 as (_ & ? & ? & ? & ?). split_and!; auto.
  - assert (next_pos rid pos i = pos) as En.
    { destruct i as [[r g R t m|r g v es|r|x]|]; cbn in *; unfold file_msg, about in Em; [..|done|done]; by case_bool_decide. }
    rewrite En in Hf2. destruct (IH pos _ Ho eq_refl Hr2 Hf2) as [IH1 IH2]. cbn. rewrite En. split; [split; [|done]|done].
    destruct i as [[r g R t m|r g v es|r|x]|]; cbn in *; unfold file_msg, about in Em; [..|done|done]; case_bool_decide; try done.
Qed.

(** C4 A flush keeps what the editor shows.  A buffer's actor has run, and waits for nothing: its buffer has files and no
    switch is wanted.  The writer, on a good disk, has handled its messages, among those of other buffers, and a flush.
    Then whatever a crash leaves of the files, the restore, which gets the memory a text within the limits asks for
    ([memory_granted]), loads exactly the text and revision of the buffer. *)
Theorem flushed_buffer_survives k prior a0 a r l w0 reply :
  begins rid T k prior a0 -> rtc (act_step T E) a0 a ->
  a_alive a = true -> a_rec a = Some r -> ar_active r = true -> st_needs_switch (ar_st r) = false ->
  carries l (prior ++ a_sent a) -> fits (origin k) l ->
  starts rid w0 (origin k) -> w_faults w0 = [] -> ~ failing rid w0 ->
  let '(w, _, _) := follow rid (l ++ [Some (MFlush reply)]) w0 (origin k) None in
  forall fs' wr, crashes_to (w_fs w) fs' -> started fs' wr ->
  exists x, load_rid (G := G) rid wr = (wr, Some (Ok x)) /\ ld_text x = ac_text (a_actor a) /\ ld_rev x = ac_rev (a_actor a).
Proof.
  intros Hb Hs Ha Er Hact Hn [Hl Hother] Hfit St Hf Hnf.
  destruct (run_in_step rid T E k prior a0 a Hb Hs) as [[_ Ht] (r' & Er' & K)]. rewrite Er in Er'. injection Er' as <-.
  destruct (ordered_about _ _ (kp_order _ _ _ _ _ _ _ _ _ K)) as [Ho Ea].
  destruct (carries_legit l (origin k) _ Ho Hl Hother Hfit) as [Lg Lp].
  pose proof (good_disk (G := G) rid T E granted hist Hrid l w0 (origin k) reply St Lg Hf Hnf) as D.
  destruct (follow rid _ w0 (origin k) None) as [[w pos] floor]. destruct D as (_ & Ep & D).
  rewrite Lp, Ea in Ep. destruct (kp_cover _ _ _ _ _ _ _ _ _ K Ha Hact Hn) as (P1 & _ & P3). unfold at_ in P1, P3. rewrite <- Ep in P1, P3.
  rewrite P3 in D. rewrite Ht. by apply (D P1).
Qed.
End composed.

(** ** The claims at work *)

Module HookExample.
#[local] Existing Instance Example.in_order.

Definition hx_actor (text : bytes) (rev : N) : Actor :=
  mkActor (bs "b1_e1") (bs "e1") text rev None 0 NoEol false None None (bs "plain") None [] Example.ex_rid false.
Definition hx_shared (links : gmap bytes RecLink) : Shared := mkShared 0 (mkStats 0 0 0 0 0 0 0 0 0 0) links ∅ false.
Definition hx_start : Act := init_rec None 7 (mkAct (hx_actor [] 0) None 0 0 (hx_shared ∅) true []).

(** An edit, the switch that follows, the writer's answer, an empty transaction. *)
Definition hx_edit (rev : N) (a : Act) : Act :=
  rec_record (ac_rev (hx_actor (bs "x") rev)) (Example.ex_E (ac_rev (hx_actor (bs "x") rev))) (put_actor (hx_actor (bs "x") rev) a).
Definition hx_edited : Act := hx_edit 1 hx_start.
Definition hx_switched : Act := rec_wake (rec_settle hx_edited).
Definition hx_answered : Act := put_shared (hx_shared {[ Example.ex_rid := mkRecLink false 1 0 [] ]}) (put_bytes 2 2 hx_switched).
Definition hx_woken : Act := rec_wake (rec_settle hx_answered).
Definition hx_appended : Act := hx_edit 2 hx_woken.

Lemma hx_begins : begins Example.ex_rid Example.ex_T 0 [] hx_start.
Proof. exists None, 7%N. eexists. by split_and!. Qed.

Lemma hx_edit_step rev a : applied Example.ex_T a (hx_actor (bs "x") rev) -> act_step Example.ex_T Example.ex_E a (hx_edit rev a).
Proof. apply step_edit. Qed.

Lemma hx_run : rtc (act_step Example.ex_T Example.ex_E) hx_start hx_appended.
Proof.
  apply (rtc_l _ _ hx_edited); [apply hx_edit_step; split_and!; reflexivity|].
  apply (rtc_l _ _ hx_switched); [exact (step_end _ _ hx_edited)|].
  apply (rtc_l _ _ hx_answered); [exact (step_shared _ _ hx_switched _ 2 2)|].
  apply (rtc_l _ _ hx_woken); [exact (step_end _ _ hx_answered)|].
  apply (rtc_l _ _ hx_appended); [|apply rtc_refl].
  apply hx_edit_step. split_and!; vm_compute; reflexivity.
Qed.

Lemma actor_keeps_up_witness :
  rtc (act_step Example.ex_T Example.ex_E) hx_start hx_appended /\
  exists r, a_rec (rec_wake (rec_settle hx_appended)) = Some r /\ ar_active r = true.
Proof.
  split; [exact hx_run|]. destruct (actor_keeps_up Example.ex_rid Example.ex_T Example.ex_E 0 [] hx_start hx_appended hx_begins hx_run) as (_ & r & H1 & _ & H2 & _).
  exists r. split; [exact H1|]. apply H2. vm_compute. reflexivity.
Defined.

Definition hx_rec : ActorRec := default (ActorRec_new [] 0 RecState_default false) (a_rec hx_appended).
Definition hx_stream : list (option RecoveryMsg) :=
  [Some (MSwitch Example.ex_rid 1 1 (bs "x") (put_generation 1 Example.ex_meta)); None; Some (MAppend Example.ex_rid 1 2 [])].

Lemma hx_state : a_rec hx_appended = Some hx_rec /\ a_alive hx_appended = true /\ ar_active hx_rec = true /\ st_needs_switch (ar_st hx_rec) = false.
Proof. split_and!; vm_compute; reflexivity. Qed.
Lemma hx_carries : carries Example.ex_rid hx_stream ([] ++ a_sent hx_appended).
Proof. split; [vm_compute; reflexivity|]. repeat constructor. Qed.
Lemma hx_fits : fits Example.ex_rid Example.ex_E (origin 0) hx_stream.
Proof.
  cbn [fits hx_stream]. split; [intros _|split; [done|split; [intros _; vm_compute; discriminate|done]]].
  split_and!; [intros h [= <-]; vm_compute; lia|intros s [= <-]; vm_compute; discriminate|done|done|].
  repeat (apply Forall_cons; split; [by apply from_utf8_ok_iff|]). constructor.
Qed.

Definition hx_flushed : World * Pos * option N := follow Example.ex_rid (hx_stream ++ [Some (MFlush 0)]) (Example.ex_world Example.ex_empty []) (origin 0) None.
Lemma hx_flushed_wf : fs_wf (w_fs hx_flushed.1.1).
Proof. apply Example.check_wf_ok. vm_compute. reflexivity. Qed.
Definition hx_left : Fs := Example.calm (w_fs hx_flushed.1.1).

Lemma flushed_buffer_survives_witness :
  exists x, load_rid (G := GapBuffer) Example.ex_rid (Example.ex_world hx_left []) = (Example.ex_world hx_left [], Some (Ok x)) /\
    ld_text x = bs "x" /\ ld_rev x = 2%N.
Proof.
  assert (~ failing Example.ex_rid (Example.ex_world Example.ex_empty [])) as Hn by (unfold failing; cbn; intros H; by apply not_elem_of_empty in H).
  destruct hx_state as (S1 & S2 & S3 & S4).
  pose proof (flushed_buffer_survives (G := GapBuffer) Example.ex_rid Example.ex_T Example.ex_E gap_granted Example.ex_history eq_refl 0 [] hx_start hx_appended hx_rec
    hx_stream (Example.ex_world Example.ex_empty []) 0 hx_begins hx_run S2 S1 S3 S4 hx_carries hx_fits (Example.ex_starts []) eq_refl Hn) as H.
  change (follow Example.ex_rid (hx_stream ++ [Some (MFlush 0)]) (Example.ex_world Example.ex_empty []) (origin 0) None) with hx_flushed in H.
  pose proof (Example.calm_crash _ hx_flushed_wf) as Hc. fold hx_left in Hc. destruct hx_flushed as [[w pos] floor]. cbn [fst] in Hc.
  exact (H hx_left (Example.ex_world hx_left []) Hc (conj eq_refl eq_refl)).
Defined.
End HookExample.
